(* ===== verification/_CoqProject ===== *)
-Q . S2P
Prelude.v
CString.v
Posix.v
PosixLogic.v
HeraldTxn.v
HeraldTxnSpecs.v
HeraldTxnCalm.v
HeraldTxnJournal.v
HeraldTxnSafety.v
HeraldTar.v
HeraldManifest.v
HeraldDb.v
HeraldRepo.v
HeraldMain.v
HeraldResolve.v
HeraldMainSafety.v
GlyphTerm.v
GlyphTermSafety.v
Gpt.v
Dhcp.v
Vigil.v
VigilSafety.v
StshEnv.v
StshLexer.v
StshArith.v
StshExpand.v
StshRun.v
StshMain.v
StshSkip.v
StshSemantics.v
StshRefine.v
BlockDev.v
Ext2Disk.v
Ext2Grow.v
Ext2GrowSafety.v
Ext2GrowResult.v
Ext2GrowLive.v
Ext2GrowCases.v
Ext2Repair.v
Ext2RepairLogic.v
Ext2RepairScan.v
Ext2RepairFix.v
Ext2RepairSafety.v
Ext2RepairCases.v
GlyphDraw.v
GlyphDrawSafety.v
GlyphText.v
GlyphBlur.v
GlyphColour.v
GlyphDrawCases.v
LoricaUpdate.v
LoricaUpdateSafety.v
LoricaUpdateCases.v
Accounts.v
AccountsSafety.v
AccountsCases.v
StshEditor.v
StshHistory.v
StshEditorRefine.v
StshEditorCases.v
LumenClient.v
LumenSafety.v
LumenWindows.v
LumenCases.v
GlyphWindow.v
GlyphWindowSafety.v
GlyphWindowCases.v
CryptRoot.v
InstallCopy.v
InstallCopySafety.v
InstallSafety.v
InstallCalm.v
InstallCases.v
LoricaRecover.v
LoricaRecoverSafety.v
