(* ===== verification/Prelude.v ===== *)
(** * LoricaOS: a verification of its user-space system components

    LoricaOS is a small operating system; this repository holds its user space (the
    Aegis kernel lives elsewhere).  The development models the programs that decide
    what runs and what is on the disk: the package manager herald, the init process
    vigil with vigictl, the shell stsh with its line editor, login and the account
    tools, the kernel update, the DHCP client, the installer (partition table, copies,
    disk encryption, growth and repair of ext2, accounts, the whole run), and of the
    desktop the terminal emulator, drawing, windows and the client of the compositor.

    The parts meet in the disk and in files.  The installer writes the accounts that
    login reads, copies the RAM disk to the partition its table describes, and grows
    the file system there, through the cipher if the root is encrypted; the kernel
    update swaps the files on the ESP the installer wrote; herald changes the files
    that vigil starts and the shell runs; the toolkit draws what the client library
    sends to the compositor.

    ** How the code is modelled

    C functions are Rocq functions with the same names, in the order and with the
    guards of the source; all of them can be evaluated.  Bytes are [Z] below 256 and
    C strings are the bytes before the NUL; integers are [Z] with their width written
    out ([u32], [u64], [i32], [fits_long]) where the code can leave it.  Fixed buffers
    are truncations at the size the source gives ([fit], [bounded_copy]).  A read or
    write outside an object is a result of its own ([None], [Wild], [OutOfBounds],
    a halted run); surfaces, buffers, descriptors and mappings are checked objects.
    Whatever is not in the repository is a parameter: BearSSL, the trusted key and the
    curl process are the class [Outside] of [HeraldRepo]; the kernel under stsh, with
    libc's glob and fnmatch, is the class [Kernel] of [StshExpand]; fork and waitpid
    under vigil are an oracle; sockets and clock of the DHCP client are a script; the
    cipher and HMAC under the disk encryption, crypt(3) under login, the glyphs of a
    font and the events of the compositor are arguments.

    There are three models of storage.  [Posix] is a finite map from paths to nodes
    with a schedule that may make any call fail, cut a write short or stop the machine;
    [PosixLogic] is a crash-aware program logic for it.  [BlockDev] is a disk of bytes
    with transfers that succeed, fail after some sectors or lose power; the ext2 tools
    and the kernel update run on it.  [InstallCopy] adds transfers that report success
    and store something else.  Theorems quantify over all schedules, so they cover
    every error return and every point of a crash.

    ** Files

    - [Prelude], [CString]: bytes, words, list lemmas, tactics, hints; C strings.
    - [Posix], [PosixLogic]: the file system and its logic; [BlockDev]: the disk.
    - herald (src/user/bin/herald): [HeraldTxn] transaction.c, with [HeraldTxnSpecs],
      [HeraldTxnCalm], [HeraldTxnJournal] and [HeraldTxnSafety]; [HeraldTar] tar.c;
      [HeraldManifest] manifest.c; [HeraldDb] db.c, with its contract [DbSpec];
      [HeraldRepo] repo.c and verify.c; [HeraldMain] main.c, with [HeraldResolve] and
      [HeraldMainSafety].
    - vigil (src/user/bin/vigil, vigictl): [Vigil], [VigilSafety].
    - stsh (src/user/bin/stsh): [StshEnv] env.c; [StshLexer] lexer.c; [StshArith] and
      [StshExpand] the first half of run.c; [StshRun] its second half and exec.c;
      [StshMain] main.c; [StshSkip], [StshSemantics], [StshRefine] proofs;
      [StshEditor] editor.c, complete.c, history.c and the session of main.c, with
      [StshHistory], [StshEditorRefine] and [StshEditorCases].
    - installer (src/user/lib/libinstall): [Gpt] gpt.c; [Ext2Disk], [Ext2Grow] and
      [Ext2GrowSafety], [Ext2GrowResult], [Ext2GrowLive], [Ext2GrowCases] ext2_grow.c;
      [Ext2Repair] and [Ext2RepairLogic], [Ext2RepairScan], [Ext2RepairFix],
      [Ext2RepairSafety], [Ext2RepairCases] ext2_repair.c; [CryptRoot]
      cryptroot_crypto.c; [InstallCopy] copy.c, config.c and run.c, with
      [InstallCopySafety], [InstallSafety], [InstallCalm] and [InstallCases].
    - [Accounts], [AccountsSafety], [AccountsCases]: libauth, credentials.c of the
      installer, login, useradd, adminpw.
    - [LoricaUpdate], [LoricaUpdateSafety], [LoricaUpdateCases]:
      src/user/bin/lorica-update/main.c.
    - [LoricaRecover], [LoricaRecoverSafety]: src/user/bin/lorica-recover/main.c.
    - [Dhcp]: src/user/bin/dhcp/main.c.
    - glyph (src/user/lib/glyph): [GlyphTerm], [GlyphTermSafety] glyph_term.c;
      [GlyphDraw] draw.c and font.c, with [GlyphDrawSafety], [GlyphText], [GlyphBlur],
      [GlyphColour], [GlyphDrawCases]; [GlyphWindow] window.c, layout.c and apps.c, with
      [GlyphWindowSafety] and [GlyphWindowCases]; [LumenClient] lumen_client.c, with
      [LumenSafety], [LumenWindows] and [LumenCases].

    ** What is proved

    herald.  A commit that is interrupted anywhere and recovered leaves the old live
    files or the new ones ([txn_commit_atomic]).  A package is only used if a signature
    reaches it ([repo_find_authentic], [cmd_install_unsigned],
    [apply_set_mismatch_refused]); whatever happens during its installation, only the
    paths it is entitled to change ([install_bytes_confined],
    [install_policy_ownership], [tar_extract_confined]).  Resolution ends and returns a
    duplicate-free, dependency-closed set in dependency order ([resolve_correct],
    [resolve_terminates]).  The database refines a finite map ([db_put_refines],
    [db_remove_refines]); manifests are well-formed and round-trip.

    vigil.  An invariant ties the service table to the process table
    ([supervisor_invariant]); restarts stay within their budget, active services are
    running after each pass, stop is permanent, shutdown reaches every child, logs stay
    within 64 KiB, the boot of an installed system removes the installers.

    stsh.  The environment is a finite map; the tokenizer is total, in bounds, and
    inverts printing; the evaluator of arithmetic is total and computes the value of
    every expression tree; passing over code is total and has no effect; and the
    executor, which parses and runs in one pass over the tokens, implements a natural
    semantics of the control flow ([executor_refines]).  The line editor refines an
    abstract editor of a text with a cursor ([editor_refines]), a session never leaves
    its buffers ([session_safe]), completion inserts the longest common prefix of the
    candidates, and the history file gives back what was saved.  Several theorems show
    on concrete programs where the shell differs from what its comments say.

    The disk.  A partition table the installer wrote is valid under the UEFI layout,
    with both checksums.  Growing ext2 is atomic with respect to failures and power,
    and completes on a healthy disk ([grow_atomic], [grow_completes]); repair never
    frees a block or inode in use, and success means that bitmaps and counters agree
    with what the directories reach ([repair_never_frees], [repair_success_sound]).
    The encryption is XTS and PBKDF2 ([install_xts_is_xts], [pbkdf2_is_rfc8018]) and a
    faithful transport for the growth ([crypt_io_refines]).  An installation that
    reports success has copied the chosen accounts, boot image and root file system
    where the table says, whatever the disk does to the copies
    ([installation_complete]); a healthy disk is accepted ([good_copies_accepted]).
    The recovery program unlocks what the installer encrypted with the passphrase it
    was given ([unlock_roundtrip]) and writes nothing without consent
    ([recovery_asks_first]).
    The kernel update always leaves a kernel that boots, and completes
    ([update_power_safe], [update_completes]).

    Accounts.  The credentials of the installer and of useradd let their users in and
    nobody else, keep the other accounts, and login tries a bounded number of
    passwords ([credentials_log_in], [useradd_adds], [useradd_keeps_accounts],
    [login_checks_password]).

    The desktop.  The terminal emulator never leaves its buffers under the stated
    limits; every drawing routine stays on its surface ([draw_in_bounds]); shortened
    labels fit ([elide_fits]); the running sums of the blur are box averages; windows
    render inside their surfaces and lose no damage ([window_renders]); events arrive
    as sent however the stream is cut, and window resources are balanced whatever
    fails ([events_framed], [windows_balanced]); a bundle's program lies in its
    directory ([bundle_confined]).

    Network.  The DHCP exchange only accepts replies to its own transaction, and its
    option parser decodes what an encoder wrote.

    ** Fuel and bounds

    Loops that recurse on what they consume are structural.  The others take fuel, and
    the theorems say how much is enough: the tokenizer needs one round per character
    ([tokenize_terminates]), passing over n tokens 2n + 5 nested calls
    ([skip_is_pure]), the evaluators the length of the text ([arith_eval_total]); for
    programs of the shell, which need not end, [executor_refines] gives some fuel from
    which on the result is the one of the semantics.  Tree walks in herald get the
    number of nodes or path components as fuel, the resolver the number of known names.
    Lines and circles get the number of their pixels; the copies of the installer get
    one round per sector, more than they need ([good_copies_accepted] never runs out);
    chains of clusters in the kernel update are cut by the code itself at the number of
    clusters; the scan of the repair gets one pass per inode ([repair_terminates]); a
    session of the shell gets more rounds than its input has bytes.

    ** Not modelled

    The kernel and the vendored stb decoders.  Messages on the console and progress
    callbacks.  In stsh the capability builtins, the reaping of background jobs and
    [try_builtin], which is not called; in vigil the boot profile; in glyph_term the
    pixels; in font.c loading font files.  The dialogues of the installers and of
    configure, themes, icons and cursors are mostly tables and calls of what is
    modelled; chronos, httpd, sshd, ip and the power commands are loops around kernel
    calls; the test programs have no state that matters. *)

From stdpp Require Export base tactics list gmap numbers strings.
From Stdlib Require Export ZArith Lia.

(** * Scopes, bytes and machine integers *)

Declare Scope lorica_scope.
Delimit Scope lorica_scope with lorica.
Global Open Scope lorica_scope.
Local Open Scope Z_scope.

(** A byte is a [Z] between 0 and 255; a buffer or a C string is a list of
    bytes.  A C string is represented by the bytes before its terminating NUL. *)
Abbreviation byte := Z.
Abbreviation bytes := (list Z).

(** The bytes of a source-level string literal. *)
Definition B (s : string) : bytes :=
  (λ a, Z.of_N (Ascii.N_of_ascii a)) <$> String.list_ascii_of_string s.

Definition NUL : byte := 0.
Definition BEL : byte := 7.
Definition TAB : byte := 9.
Definition LF : byte := 10.
Definition CR : byte := 13.
Definition ESC : byte := 27.
Definition SP : byte := 32.
Definition HASH : byte := 35.
Definition DOT : byte := 46.
Definition SLASH : byte := 47.
Definition COLON : byte := 58.
Definition EQUALS : byte := 61.

Definition is_byte (b : Z) : Prop := 0 <= b < 256.

Definition u8 (x : Z) : Z := x mod 2 ^ 8.
Definition u16 (x : Z) : Z := x mod 2 ^ 16.
Definition u32 (x : Z) : Z := x mod 2 ^ 32.
Definition u64 (x : Z) : Z := x mod 2 ^ 64.

(** Two's complement reading of the low 32 bits: what an [int] holds after a
    computation whose mathematical result is [x]. *)
Definition i32 (x : Z) : Z := (x + 2 ^ 31) mod 2 ^ 32 - 2 ^ 31.

Definition ULLONG_MAX : Z := 2 ^ 64 - 1.
Definition UINT32_MAX : Z := 2 ^ 32 - 1.

(** [x] fits in an [int]. *)
Definition in_i32 (x : Z) : Prop := - 2 ^ 31 <= x < 2 ^ 31.

(** * Buffers *)

Definition byte_at (buf : bytes) (i : nat) : byte := default 0 (buf !! i).

(** [len] bytes of [buf] from offset [off]. *)
Definition slice (off len : nat) (buf : bytes) : bytes := take len (drop off buf).

(** [memcpy(&buf[off], bs, length bs)] inside a buffer that is long enough. *)
Definition splice (off : nat) (bs buf : bytes) : bytes :=
  take off buf ++ bs ++ drop (off + length bs) buf.

(** The [n] low bytes of [v], least significant first. *)
Fixpoint le_bytes (n : nat) (v : Z) : bytes :=
  match n with
  | O => []
  | S n => v mod 256 :: le_bytes n (v / 256)
  end.

Fixpoint le_value (bs : bytes) : Z :=
  match bs with
  | [] => 0
  | b :: bs => b + 256 * le_value bs
  end.

(** * Tactics and hint databases *)

Create HintDb lorica.

(** Turn boolean tests of the code into propositions. *)
Ltac boolify :=
  repeat match goal with
  | H : _ && _ = true |- _ => apply andb_prop in H; destruct H
  | H : _ || _ = false |- _ => apply orb_false_elim in H; destruct H
  | H : negb _ = true |- _ => apply negb_true_iff in H
  | H : negb _ = false |- _ => apply negb_false_iff in H
  | H : (_ =? _) = true |- _ => apply Z.eqb_eq in H
  | H : (_ =? _) = false |- _ => apply Z.eqb_neq in H
  | H : (_ <? _) = true |- _ => apply Z.ltb_lt in H
  | H : (_ <? _) = false |- _ => apply Z.ltb_ge in H
  | H : (_ <=? _) = true |- _ => apply Z.leb_le in H
  | H : (_ <=? _) = false |- _ => apply Z.leb_gt in H
  | H : (_ =? _)%nat = true |- _ => apply Nat.eqb_eq in H
  | H : (_ =? _)%nat = false |- _ => apply Nat.eqb_neq in H
  | H : (_ <? _)%nat = true |- _ => apply Nat.ltb_lt in H
  | H : (_ <? _)%nat = false |- _ => apply Nat.ltb_ge in H
  | H : (_ <=? _)%nat = true |- _ => apply Nat.leb_le in H
  | H : (_ <=? _)%nat = false |- _ => apply Nat.leb_gt in H
  | H : bool_decide _ = true |- _ => apply bool_decide_eq_true in H
  | H : bool_decide _ = false |- _ => apply bool_decide_eq_false in H
  end.

(** Case analysis on the innermost scrutinee of the goal. *)
Ltac case_if :=
  match goal with
  | |- context [if ?b then _ else _] => destruct b eqn:?
  end.

(** * Generic lemmas *)

Section Integers.

Lemma u8_range x : 0 <= u8 x < 256.
Proof. unfold u8. apply (Z.mod_pos_bound x 256). lia. Qed.

Lemma u32_range x : 0 <= u32 x < 2 ^ 32.
Proof. unfold u32. apply Z.mod_pos_bound. lia. Qed.

Lemma u64_range x : 0 <= u64 x < 2 ^ 64.
Proof. unfold u64. apply Z.mod_pos_bound. lia. Qed.

Lemma u32_small x : 0 <= x < 2 ^ 32 -> u32 x = x.
Proof. intros. by apply Z.mod_small. Qed.

Lemma u64_small x : 0 <= x < 2 ^ 64 -> u64 x = x.
Proof. intros. by apply Z.mod_small. Qed.

Lemma i32_range x : in_i32 (i32 x).
Proof.
  unfold in_i32, i32. pose proof (Z.mod_pos_bound (x + 2 ^ 31) (2 ^ 32)). lia.
Qed.

Lemma i32_small x : in_i32 x -> i32 x = x.
Proof. unfold in_i32, i32. intros. rewrite Z.mod_small; lia. Qed.

(** Disjoint bits add up. *)
Lemma land_shifted a k b : 0 <= k -> 0 <= b < 2 ^ k -> Z.land (Z.shiftl a k) b = 0.
Proof.
  intros Hk Hb. apply Z.bits_inj'. intros i Hi. rewrite Z.land_spec, Z.bits_0, Z.shiftl_spec by lia.
  destruct (Z.lt_ge_cases i k); [by rewrite Z.testbit_neg_r by lia|]. rewrite <- (Z.mod_small b (2 ^ k)) by lia. rewrite Z.mod_pow2_bits_high by lia. apply andb_false_r.
Qed.

Lemma lor_shifted a k b : 0 <= k -> 0 <= b < 2 ^ k -> Z.lor (Z.shiftl a k) b = a * 2 ^ k + b.
Proof. intros Hk Hb. pose proof (Z.add_lor_land (Z.shiftl a k) b) as E. rewrite land_shifted in E by done. rewrite <- Z.shiftl_mul_pow2 by lia. lia. Qed.

End Integers.

#[export] Hint Resolve u8_range u32_range u64_range i32_range : lorica.
#[export] Hint Rewrite u32_small u64_small i32_small using lia : lorica.

Section Buffers.

Implicit Types buf bs : bytes.

Lemma length_splice off bs buf :
  (off + length bs <= length buf)%nat -> length (splice off bs buf) = length buf.
Proof.
  intros. unfold splice. rewrite !length_app, length_take, length_drop. lia.
Qed.

Lemma slice_splice_eq off bs buf :
  (off <= length buf)%nat -> slice off (length bs) (splice off bs buf) = bs.
Proof.
  intros. unfold slice, splice.
  rewrite drop_app_length' by (rewrite length_take; lia).
  by rewrite take_app_length.
Qed.

Lemma lookup_splice_ne off bs buf i :
  (off + length bs <= length buf)%nat -> (i < off \/ off + length bs <= i)%nat ->
  splice off bs buf !! i = buf !! i.
Proof.
  intros Hl [Hi|Hi]; unfold splice.
  - rewrite lookup_app_l by (rewrite length_take; lia). by apply lookup_take_lt.
  - rewrite lookup_app_r by (rewrite length_take; lia).
    rewrite length_take, Nat.min_l by lia.
    rewrite lookup_app_r by lia. rewrite lookup_drop. f_equal. lia.
Qed.

Lemma slice_mid p m r : slice (length p) (length m) (p ++ m ++ r) = m.
Proof. unfold slice. by rewrite drop_app_length, take_app_length. Qed.

Lemma length_slice off len buf :
  (off + len <= length buf)%nat -> length (slice off len buf) = len.
Proof. intros. unfold slice. rewrite length_take, length_drop. lia. Qed.

Lemma length_le_bytes n v : length (le_bytes n v) = n.
Proof. revert v. induction n; intros; simpl; auto. Qed.

Lemma le_bytes_is_byte n v : Forall is_byte (le_bytes n v).
Proof.
  revert v. induction n; intros; simpl; constructor; auto.
  unfold is_byte. apply Z.mod_pos_bound. lia.
Qed.

(** Reading back what was written gives the value modulo the width. *)
Lemma le_value_bytes n v : le_value (le_bytes n v) = v mod 256 ^ Z.of_nat n.
Proof.
  revert v. induction n; intros v; cbn [le_bytes le_value].
  - by rewrite Z.mod_1_r.
  - rewrite IHn, Nat2Z.inj_succ, Z.pow_succ_r by lia.
    rewrite (Z.rem_mul_r v 256) by lia. lia.
Qed.

Lemma le_value_range bs :
  Forall is_byte bs -> 0 <= le_value bs < 256 ^ Z.of_nat (length bs).
Proof.
  induction 1 as [|b bs Hb _ IH]; cbn [le_value length].
  - lia.
  - rewrite Nat2Z.inj_succ, Z.pow_succ_r by lia. unfold is_byte in Hb. lia.
Qed.

(** Writing back what was read restores the bytes. *)
Lemma le_bytes_value bs :
  Forall is_byte bs -> le_bytes (length bs) (le_value bs) = bs.
Proof.
  induction 1 as [|b bs Hb _ IH]; cbn [le_value length le_bytes]; [done|].
  unfold is_byte in Hb. f_equal.
  - rewrite (Z.mul_comm 256), Z.mod_add by lia. apply Z.mod_small. lia.
  - rewrite (Z.mul_comm 256), Z.div_add by lia.
    rewrite Z.div_small, Z.add_0_l by lia. exact IH.
Qed.

End Buffers.

Lemma elem_of_rev {A} (x : A) l : x ∈ rev l <-> x ∈ l.
Proof. rewrite !list_elem_of_In. symmetry. apply in_rev. Qed.

Lemma lookup_repeat {A} (x : A) n i : (i < n)%nat -> repeat x n !! i = Some x.
Proof. revert i. induction n as [|n IH]; intros [|i] H; simpl; try lia; [done|]. apply IH. lia. Qed.

Lemma filter_all {A} (P : A -> Prop) `{!forall x, Decision (P x)} l : Forall P l -> filter P l = l.
Proof. induction 1 as [|x l Hx _ IH]; [done|]. by rewrite filter_cons_True, IH. Qed.

#[export] Hint Rewrite length_le_bytes : lorica.
