(* ===== verification/CString.v ===== *)
(** The C string functions the sources use, over NUL-free byte lists.

    [span] is the common core: [strchr], [strcspn], the scanning [while] loops
    and the line splitters of the sources are all instances of it.  The second
    half of the file gives the lemmas the components share: what [span] returns,
    [split_on]/[join] round trips, and the correspondence of the boolean tests
    with [prefix_of] and membership. *)

From S2P Require Import Prelude.
Local Open Scope Z_scope.

(** * Definitions *)

(** Longest prefix of [s] whose bytes satisfy [p], and the rest. *)
Fixpoint span (p : byte -> bool) (s : bytes) : bytes * bytes :=
  match s with
  | [] => ([], [])
  | c :: r => if p c then let '(a, b) := span p r in (c :: a, b) else ([], s)
  end.

Definition drop_while (p : byte -> bool) (s : bytes) : bytes := snd (span p s).
Definition take_while (p : byte -> bool) (s : bytes) : bytes := fst (span p s).

Definition is_c (c : byte) (x : byte) : bool := x =? c.
Definition not_c (c : byte) (x : byte) : bool := negb (x =? c).
Definition is_blank (x : byte) : bool := (x =? SP) || (x =? TAB).
Definition not_blank (x : byte) : bool := negb (is_blank x).

(** The C string held by a buffer: its bytes before the first NUL. *)
Definition cstr (buf : bytes) : bytes := take_while (not_c NUL) buf.

(** [strchr]: the parts before and after the first [c], if there is one. *)
Definition cut (c : byte) (s : bytes) : option (bytes * bytes) :=
  match span (not_c c) s with
  | (a, _ :: b) => Some (a, b)
  | (_, []) => None
  end.

(** [strcmp(a, b) == 0]. *)
Definition beq (a b : bytes) : bool := bool_decide (a = b).

(** [strncmp(s, pre, strlen(pre)) == 0]. *)
Fixpoint starts_with (pre s : bytes) : bool :=
  match pre, s with
  | [], _ => true
  | _ :: _, [] => false
  | a :: pre, c :: s => (a =? c) && starts_with pre s
  end.

(** [s] ends with [suf]. *)
Definition ends_with (s suf : bytes) : bool :=
  (length suf <=? length s)%nat && beq (drop (length s - length suf) s) suf.

(** [strstr(s, pat) != NULL]. *)
Fixpoint contains (pat s : bytes) : bool :=
  starts_with pat s || match s with [] => false | _ :: s => contains pat s end.

(** [strchr(s, c) != NULL]. *)
Definition has_char (c : byte) (s : bytes) : bool := existsb (is_c c) s.

(** The pieces of [s] between occurrences of [c]; never the empty list. *)
Fixpoint split_on (c : byte) (s : bytes) : list bytes :=
  match s with
  | [] => [[]]
  | x :: s =>
      if x =? c then [] :: split_on c s
      else match split_on c s with
           | [] => [[x]]
           | w :: ws => (x :: w) :: ws
           end
  end.

Fixpoint join (c : byte) (ws : list bytes) : bytes :=
  match ws with
  | [] => []
  | [w] => w
  | w :: ws => w ++ c :: join c ws
  end.

(** The maximal runs of bytes that are not separators: what repeated
    [strtok_r] (or a skip-blanks/scan-word loop) delivers. *)
Fixpoint tokens_from (sep : byte -> bool) (cur s : bytes) : list bytes :=
  match s with
  | [] => if decide (cur = []) then [] else [rev cur]
  | c :: s =>
      if sep c then
        if decide (cur = []) then tokens_from sep [] s
        else rev cur :: tokens_from sep [] s
      else tokens_from sep (c :: cur) s
  end.

Definition tokens (sep : byte -> bool) (s : bytes) : list bytes :=
  tokens_from sep [] s.

(** Truncation to a field of [n] bytes including the NUL. *)
Definition fit (n : nat) (s : bytes) : bytes := take (n - 1) s.

(** Remove the longest suffix whose bytes satisfy [p]. *)
Definition rstrip (p : byte -> bool) (s : bytes) : bytes :=
  rev (drop_while p (rev s)).

(** Lower-case hexadecimal, two digits a byte. *)
Definition hex_digit (n : Z) : byte := if n <? 10 then 48 + n else 87 + n.

Fixpoint to_hex (bs : bytes) : bytes :=
  match bs with
  | [] => []
  | b :: bs =>
      hex_digit (Z.land (Z.shiftr b 4) 15) :: hex_digit (Z.land b 15) :: to_hex bs
  end.

(** Decimal digits of a number that is not negative, as [%d] or [%u] prints it. *)
Fixpoint dec_digits (fuel : nat) (n : Z) (acc : bytes) : bytes :=
  match fuel with
  | O => acc
  | S fuel =>
      let acc := (48 + n mod 10) :: acc in
      if n <? 10 then acc else dec_digits fuel (n / 10) acc
  end.

Definition print_dec (n : Z) : bytes :=
  if n <? 0 then 45 :: dec_digits 20 (- n) [] else dec_digits 20 n [].

(** ** Numbers *)

Definition is_decimal (c : byte) : bool := (48 <=? c) && (c <=? 57).

Definition is_atoi_space (c : byte) : bool := (c =? 32) || ((9 <=? c) && (c <=? 13)).

Definition atoi (s : bytes) : Z :=
  let s := drop_while is_atoi_space s in
  let '(neg, s) := match s with
                   | c :: r => if c =? 45 then (true, r) else if c =? 43 then (false, r) else (false, s)
                   | [] => (false, s)
                   end in
  let v := foldl (λ v c, 10 * v + (c - 48)) 0 (take_while is_decimal s) in
  i32 (if neg : bool then - v else v).

(** * Lemmas *)

Section Span.

Context (p : byte -> bool).

Lemma span_app s : take_while p s ++ drop_while p s = s.
Proof.
  unfold take_while, drop_while. induction s as [|c s IH]; simpl; [done|].
  destruct (p c); [|done]. destruct (span p s). simpl in *. by rewrite IH.
Qed.

Lemma take_while_all s : Forall (λ c, p c = true) (take_while p s).
Proof.
  unfold take_while. induction s as [|c s IH]; simpl; [constructor|].
  destruct (p c) eqn:E; [|constructor]. destruct (span p s). by constructor.
Qed.

Lemma drop_while_head s c r : drop_while p s = c :: r -> p c = false.
Proof.
  unfold drop_while. induction s as [|x s IH]; simpl; [done|].
  destruct (p x) eqn:E.
  - destruct (span p s). simpl in *. auto.
  - intros [= <- _]. done.
Qed.

Lemma span_true a s :
  Forall (λ c, p c = true) a -> span p (a ++ s) = (a ++ take_while p s, drop_while p s).
Proof.
  unfold take_while, drop_while.
  induction 1 as [|c a Hc _ IH]; simpl; [by destruct (span p s)|].
  by rewrite Hc, IH.
Qed.

Lemma span_stop c s : p c = false -> span p (c :: s) = ([], c :: s).
Proof. simpl. by intros ->. Qed.

Lemma take_while_length s : (length (take_while p s) <= length s)%nat.
Proof. rewrite <- (span_app s) at 2. rewrite length_app. lia. Qed.

Lemma drop_while_length s : (length (drop_while p s) <= length s)%nat.
Proof. rewrite <- (span_app s) at 2. rewrite length_app. lia. Qed.

Lemma take_while_id s : Forall (λ c, p c = true) s -> take_while p s = s.
Proof.
  intros H. unfold take_while. rewrite <- (app_nil_r s) at 1.
  rewrite span_true by done. simpl. by rewrite app_nil_r.
Qed.

Lemma drop_while_nil s : Forall (λ c, p c = true) s -> drop_while p s = [].
Proof.
  intros H. unfold drop_while. rewrite <- (app_nil_r s) at 1.
  by rewrite span_true.
Qed.

End Span.

Section Search.

Lemma not_c_true c x : not_c c x = true <-> x ≠ c.
Proof. unfold not_c. rewrite negb_true_iff, Z.eqb_neq. done. Qed.

Lemma not_c_false c x : not_c c x = false <-> x = c.
Proof. unfold not_c. rewrite negb_false_iff, Z.eqb_eq. done. Qed.

Lemma Forall_not_c c s : Forall (λ x, not_c c x = true) s <-> c ∉ s.
Proof.
  rewrite Forall_forall. setoid_rewrite not_c_true. split.
  - intros H Hin. by apply (H c).
  - intros H x Hx ->. done.
Qed.

(** [strchr] splits the string at the first occurrence. *)
Lemma cut_spec c s a b : cut c s = Some (a, b) <-> s = a ++ c :: b /\ c ∉ a.
Proof.
  unfold cut. split.
  - destruct (span (not_c c) s) as [a' [|x b']] eqn:E; [done|].
    intros [= <- <-]. pose proof (span_app (not_c c) s) as Happ.
    pose proof (take_while_all (not_c c) s) as Hall.
    pose proof (drop_while_head (not_c c) s x b') as Hd.
    unfold take_while, drop_while in *. rewrite E in *. simpl in *.
    specialize (Hd eq_refl). apply not_c_false in Hd as ->.
    by rewrite Forall_not_c in Hall.
  - intros [-> Ha]. rewrite span_true by (by apply Forall_not_c).
    unfold take_while, drop_while. rewrite span_stop by (by apply not_c_false).
    simpl. by rewrite app_nil_r.
Qed.

Lemma cut_None c s : cut c s = None <-> c ∉ s.
Proof.
  split.
  - intros H Hin. apply list_elem_of_split in Hin as (a & b & ->).
    unfold cut in H.
    destruct (span (not_c c) (a ++ c :: b)) as [a' [|x b']] eqn:E; [|done].
    pose proof (span_app (not_c c) (a ++ c :: b)) as Happ.
    pose proof (take_while_all (not_c c) (a ++ c :: b)) as Hall.
    unfold take_while, drop_while in *. rewrite E in *. simpl in *.
    rewrite app_nil_r in Happ. subst a'. rewrite Forall_not_c in Hall.
    apply Hall. set_solver.
  - intros H. destruct (cut c s) as [[a b]|] eqn:E; [|done].
    apply cut_spec in E as [-> _]. exfalso. apply H. set_solver.
Qed.

Lemma beq_true a b : beq a b = true <-> a = b.
Proof. apply bool_decide_eq_true. Qed.

Lemma beq_refl a : beq a a = true.
Proof. by apply beq_true. Qed.

Lemma starts_with_spec pre s : starts_with pre s = true <-> pre `prefix_of` s.
Proof.
  revert s. induction pre as [|a pre IH]; intros [|c s]; simpl.
  - split; [|done]. intros _. apply prefix_nil.
  - split; [|done]. intros _. apply prefix_nil.
  - split; [done|]. intros H. by apply prefix_nil_not in H.
  - rewrite andb_true_iff, Z.eqb_eq, IH. split.
    + intros [-> ?]. by apply prefix_cons.
    + intros H. split; [by eapply prefix_cons_inv_1|by eapply prefix_cons_inv_2].
Qed.

Lemma has_char_spec c s : has_char c s = true <-> c ∈ s.
Proof.
  unfold has_char. rewrite existsb_exists. setoid_rewrite Z.eqb_eq. split.
  - intros (x & Hin & ->). by apply list_elem_of_In.
  - intros H. exists c. split; [by apply list_elem_of_In|done].
Qed.

Lemma has_char_false c s : has_char c s = false <-> c ∉ s.
Proof. rewrite <- has_char_spec. by destruct (has_char c s). Qed.

End Search.

Section Split.

Context (c : byte).

Lemma split_on_nonnil s : split_on c s ≠ [].
Proof.
  induction s as [|x s IH]; simpl; [done|].
  destruct (x =? c); [done|]. by destruct (split_on c s).
Qed.

Lemma split_on_app a s :
  c ∉ a -> split_on c (a ++ c :: s) = a :: split_on c s.
Proof.
  induction a as [|x a IH]; intros Ha; simpl.
  - by rewrite Z.eqb_refl.
  - rewrite not_elem_of_cons in Ha. destruct Ha as [Hx Ha].
    rewrite (proj2 (Z.eqb_neq x c)) by congruence. by rewrite IH.
Qed.

Lemma split_on_none a : c ∉ a -> split_on c a = [a].
Proof.
  induction a as [|x a IH]; intros Ha; simpl; [done|].
  rewrite not_elem_of_cons in Ha. destruct Ha as [Hx Ha].
  rewrite (proj2 (Z.eqb_neq x c)) by congruence. by rewrite IH.
Qed.

Lemma join_split s : join c (split_on c s) = s.
Proof.
  induction s as [|x s IH]; simpl; [done|].
  pose proof (split_on_nonnil s) as Hne.
  destruct (x =? c) eqn:E.
  - apply Z.eqb_eq in E as ->. destruct (split_on c s) as [|w ws]; [done|].
    by rewrite <- IH.
  - destruct (split_on c s) as [|w [|w' ws]]; [done| |]; by rewrite <- IH.
Qed.

Lemma split_join ws :
  ws ≠ [] -> Forall (λ w, c ∉ w) ws -> split_on c (join c ws) = ws.
Proof.
  intros Hne H. induction H as [|w ws Hw H IH]; [done|].
  destruct ws as [|w' ws]; simpl; [by apply split_on_none|].
  rewrite split_on_app by done. f_equal. by apply IH.
Qed.

Lemma split_on_no_sep s : Forall (λ w, c ∉ w) (split_on c s).
Proof.
  induction s as [|x s IH]; simpl.
  - repeat constructor. set_solver.
  - destruct (x =? c) eqn:E.
    + constructor; [set_solver|done].
    + apply Z.eqb_neq in E. destruct (split_on c s) as [|w ws].
      * repeat constructor. set_solver.
      * inversion_clear IH. constructor; [|done]. set_solver.
Qed.

Lemma split_on_snoc a b :
  c ∉ b -> split_on c (a ++ c :: b) = split_on c a ++ [b].
Proof.
  intros Hb. induction a as [|x a IH]; simpl.
  - by rewrite Z.eqb_refl, split_on_none.
  - rewrite IH. destruct (x =? c); [done|].
    pose proof (split_on_nonnil a). by destruct (split_on c a).
Qed.

Lemma split_on_app_sep a b :
  split_on c (a ++ c :: b) = split_on c a ++ split_on c b.
Proof.
  induction a as [|x a IH]; simpl.
  - by rewrite Z.eqb_refl.
  - rewrite IH. destruct (x =? c); [done|].
    pose proof (split_on_nonnil a). by destruct (split_on c a).
Qed.

End Split.

Section Tokens.

Context (sep : byte -> bool).

Lemma tokens_from_word w s :
  Forall (λ c, sep c = false) w -> forall cur,
  tokens_from sep cur (w ++ s) = tokens_from sep (rev w ++ cur) s.
Proof.
  induction 1 as [|c w Hc _ IH]; intros cur; [done|]. cbn [app tokens_from rev].
  rewrite Hc, IH. by rewrite <- app_assoc.
Qed.

Lemma tokens_skip s : tokens sep (drop_while sep s) = tokens sep s.
Proof.
  unfold tokens. rewrite <- (span_app sep s) at 2. pose proof (take_while_all sep s) as H.
  induction H as [|c w Hc _ IH]; [done|]. cbn [app tokens_from]. by rewrite Hc, decide_True.
Qed.

(** A word and the rest of the string, from the first byte of a word on. *)
Lemma tokens_word c s :
  sep c = false ->
  let p := c :: s in
  let word x := negb (sep x) in
  tokens sep p = take_while word p :: tokens sep (drop_while word p).
Proof.
  intros Hc p word. unfold tokens. rewrite <- (span_app word p) at 1.
  pose proof (take_while_all word p) as Hw.
  assert (Hne : take_while word p ≠ []).
  { unfold take_while, p. cbn [span]. unfold word at 1. rewrite Hc. cbn [negb].
    by destruct (span word s). }
  rewrite tokens_from_word, app_nil_r.
  2:{ eapply Forall_impl; [exact Hw|]. intros x Hx. unfold word in Hx. by destruct (sep x). }
  destruct (drop_while word p) as [|d r] eqn:Ed.
  - cbn [tokens_from]. rewrite decide_False, rev_involutive; [done|].
    intros E. apply Hne. by rewrite <- (rev_involutive (take_while word p)), E.
  - apply drop_while_head in Ed. unfold word in Ed. apply negb_false_iff in Ed.
    cbn [tokens_from]. rewrite Ed, decide_False, rev_involutive, decide_True; [done..|].
    intros E. apply Hne. by rewrite <- (rev_involutive (take_while word p)), E.
Qed.

Lemma tokens_nil : tokens sep [] = [].
Proof. done. Qed.

End Tokens.

Section Fields.

Lemma length_fit n s : (0 < n)%nat -> (length (fit n s) < n)%nat.
Proof. intros. unfold fit. rewrite length_take. lia. Qed.

Lemma fit_id n s : (length s < n)%nat -> fit n s = s.
Proof. intros. unfold fit. apply take_ge. lia. Qed.

Lemma fit_elem n s c : c ∈ fit n s -> c ∈ s.
Proof. unfold fit. rewrite <- (take_drop (n - 1) s) at 2. set_solver. Qed.

Lemma cstr_no_nul s : NUL ∉ cstr s.
Proof. apply Forall_not_c, take_while_all. Qed.

Lemma cstr_id s : NUL ∉ s -> cstr s = s.
Proof. intros. apply take_while_id. by apply Forall_not_c. Qed.

Lemma cstr_stop x r : NUL ∉ x -> head r = Some NUL -> cstr (x ++ r) = x.
Proof. intros Hx Hr. destruct r as [|z r]; [done|]. injection Hr as ->. unfold cstr, take_while. rewrite span_true by (by apply Forall_not_c). cbn. by rewrite app_nil_r. Qed.

Lemma cstr_padded x n : NUL ∉ x -> cstr (x ++ repeat NUL n) = x.
Proof. intros Hx. destruct n as [|n]; [rewrite app_nil_r; by apply cstr_id|by apply cstr_stop]. Qed.

Lemma length_to_hex bs : length (to_hex bs) = (2 * length bs)%nat.
Proof. induction bs; simpl; lia. Qed.

End Fields.

#[export] Hint Resolve cstr_no_nul split_on_nonnil split_on_no_sep : lorica.
