(* ===== verification/Posix.v ===== *)
(** The POSIX file system as the sources use it, with injected faults.

    The state is a finite map from absolute paths (lists of components) to
    nodes.  Every system call consults a schedule of verdicts indexed by the
    number of calls made so far: the call runs, fails with an error chosen by
    the schedule, writes short, or the machine stops there ([VCrash]).  A
    theorem quantified over the schedule therefore covers every error return
    and every crash point of the code it is about.

    Modelling choices: calls take effect in program order and what a completed
    call wrote survives a crash; there are no symbolic links (a link or device
    is a [Special] node, which [lstat] reports as not regular); [EINTR] is
    retried by every loop of the sources and is not a verdict; an open
    descriptor is the path it was opened at, because the sources never rename
    or unlink a file they hold open for writing. *)

From S2P Require Import Prelude CString.
Local Open Scope Z_scope.

(** * Paths *)

Abbreviation name := (list Z).
Abbreviation path := (list (list Z)).

(** Components of a path string; empty ones and "." are dropped. *)
Definition comps (s : bytes) : list name :=
  filter (λ c, c ≠ [] /\ c ≠ [DOT]) (split_on SLASH s).

(** Walk the components from the directory [rev acc]; ".." goes up. *)
Fixpoint norm (acc : path) (cs : list name) : path :=
  match cs with
  | [] => rev acc
  | c :: cs => if decide (c = [DOT; DOT]) then norm (tail acc) cs else norm (c :: acc) cs
  end.

Definition resolve (s : bytes) : path := norm [] (comps s).

(** The string of an absolute path. *)
Definition show_path (p : path) : bytes := p ≫= λ c, SLASH :: c.

Definition wants_dir (s : bytes) : bool := bool_decide (last s = Some SLASH).

(** * Nodes, errors, schedules, worlds *)

Inductive node :=
  | Reg (mode : Z) (data : bytes)
  | Dir
  | Special.

Inductive errno :=
  ENOENT | EEXIST | ENOTDIR | EISDIR | ENOTEMPTY | EACCES | EPERM | EIO | ENOSPC | EINVAL.

#[global] Instance errno_eq_dec : EqDecision errno.
Proof. solve_decision. Defined.

#[global] Instance node_eq_dec : EqDecision node.
Proof. solve_decision. Defined.

(** How a child ended, as the wait status macros tell. *)
Inductive wstatus := Exited (code : Z) | Signaled (sig : Z).

Inductive verdict :=
  | VOk
  | VErr (e : errno)
  | VShort (n : nat)
  | VCrash.

Abbreviation fsys := (gmap (list (list Z)) node).

Record world := World {
  w_fs : fsys;
  w_tick : nat;
  w_sched : nat -> verdict;
  w_order : list name -> list name  (** order in which [readdir] delivers names *)
}.

Definition with_fs (w : world) (fs : fsys) : world :=
  World fs (S (w_tick w)) (w_sched w) (w_order w).

(** The same world after a restart with another schedule. *)
Definition reboot (w : world) (sched : nat -> verdict) : world :=
  World (w_fs w) 0 sched (w_order w).

Inductive outcome (A : Type) :=
  | Ret (a : A) (w : world)
  | Crashed (w : world).
Arguments Ret {A}.
Arguments Crashed {A}.

Definition M (A : Type) : Type := world -> outcome A.

Definition outcome_world {A} (o : outcome A) : world :=
  match o with Ret _ w => w | Crashed w => w end.

#[global] Instance M_ret : MRet M := λ A a w, Ret a w.
#[global] Instance M_bind : MBind M := λ A B k m w,
  match m w with
  | Ret a w' => k a w'
  | Crashed w' => Crashed w'
  end.

(** [if (m != 0) return -1; k] *)
Definition and_then (m k : M Z) : M Z :=
  r ← m; if r =? 0 then k else mret (-1).
Notation "m '?;' k" := (and_then m k) (at level 20, k at level 200, right associativity).

(** The C return value of a call that only succeeds or fails. *)
Definition rc {A} (r : A + errno) : Z := match r with inl _ => 0 | inr _ => -1 end.
Definition zero {A} (m : M (A + errno)) : M Z := r ← m; mret (rc r).

(** * Lookup *)

Definition get (fs : fsys) (p : path) : option node :=
  match p with [] => Some Dir | _ => fs !! p end.

(** The error, if any, of walking to the directory that holds [pre ++ rest]. *)
Fixpoint walk (fs : fsys) (pre rest : path) : option errno :=
  match rest with
  | [] => None
  | [_] => None
  | c :: rest =>
      match get fs (pre ++ [c]) with
      | Some Dir => walk fs (pre ++ [c]) rest
      | Some _ => Some ENOTDIR
      | None => Some ENOENT
      end
  end.

Definition fs_stat (fs : fsys) (s : bytes) : node + errno :=
  let p := resolve s in
  match walk fs [] p with
  | Some e => inr e
  | None =>
      match get fs p with
      | None => inr ENOENT
      | Some Dir => inl Dir
      | Some n => if wants_dir s then inr ENOTDIR else inl n
      end
  end.

Definition children (fs : fsys) (p : path) : list name :=
  omap (λ q, match last q with
             | Some c => if decide (q = p ++ [c]) then Some c else None
             | None => None
             end) (fst <$> map_to_list fs).

(** * Pure effects of the calls *)

Definition fs_mkdir (s : bytes) (fs : fsys) : (unit + errno) * fsys :=
  let p := resolve s in
  match walk fs [] p with
  | Some e => (inr e, fs)
  | None =>
      match get fs p with
      | Some _ => (inr EEXIST, fs)
      | None => (inl tt, <[p := Dir]> fs)
      end
  end.

(** [open(s, O_WRONLY | O_CREAT | O_TRUNC, mode)]: the mode only applies to a
    file the call creates. *)
Definition fs_open_trunc (s : bytes) (mode : Z) (fs : fsys) : (path + errno) * fsys :=
  let p := resolve s in
  match walk fs [] p with
  | Some e => (inr e, fs)
  | None =>
      match get fs p with
      | Some (Reg m _) => if wants_dir s then (inr ENOTDIR, fs) else (inl p, <[p := Reg m []]> fs)
      | Some Dir => (inr EISDIR, fs)
      | Some Special => (inr EACCES, fs)
      | None => if wants_dir s then (inr EISDIR, fs) else (inl p, <[p := Reg mode []]> fs)
      end
  end.

(** [open(s, O_WRONLY | O_APPEND)], without [O_CREAT]. *)
Definition fs_open_append (s : bytes) (fs : fsys) : (path + errno) * fsys :=
  match fs_stat fs s with
  | inr e => (inr e, fs)
  | inl (Reg _ _) => (inl (resolve s), fs)
  | inl Dir => (inr EISDIR, fs)
  | inl Special => (inr EACCES, fs)
  end.

(** [fopen(s, "a")] creates a missing file. *)
Definition fs_open_create_append (s : bytes) (mode : Z) (fs : fsys) : (path + errno) * fsys :=
  match fs_stat fs s with
  | inr ENOENT =>
      match walk fs [] (resolve s) with
      | Some e => (inr e, fs)
      | None => (inl (resolve s), <[resolve s := Reg mode []]> fs)
      end
  | inr e => (inr e, fs)
  | inl (Reg _ _) => (inl (resolve s), fs)
  | inl Dir => (inr EISDIR, fs)
  | inl Special => (inr EACCES, fs)
  end.

(** Read access to a regular file: its mode and its contents. *)
Definition fs_read (s : bytes) (fs : fsys) : (Z * bytes + errno) * fsys :=
  match fs_stat fs s with
  | inr e => (inr e, fs)
  | inl (Reg m d) => (inl (m, d), fs)
  | inl Dir => (inr EISDIR, fs)
  | inl Special => (inr EACCES, fs)
  end.

Definition fs_append (fd : path) (bs : bytes) (fs : fsys) : (nat + errno) * fsys :=
  match fs !! fd with
  | Some (Reg m d) => (inl (length bs), <[fd := Reg m (d ++ bs)]> fs)
  | _ => (inr EIO, fs)
  end.

Definition fs_unlink (s : bytes) (fs : fsys) : (unit + errno) * fsys :=
  match fs_stat fs s with
  | inr e => (inr e, fs)
  | inl Dir => (inr EISDIR, fs)
  | inl _ => (inl tt, delete (resolve s) fs)
  end.

(** [rename] of a file onto a missing path or over another file; the sources
    never rename a directory. *)
Definition fs_rename (src dst : bytes) (fs : fsys) : (unit + errno) * fsys :=
  match fs_stat fs src with
  | inr e => (inr e, fs)
  | inl (Reg m d) =>
      let q := resolve dst in
      match walk fs [] q with
      | Some e => (inr e, fs)
      | None =>
          match get fs q with
          | Some Dir => (inr EISDIR, fs)
          | _ => if wants_dir dst then (inr ENOTDIR, fs)
                 else (inl tt, <[q := Reg m d]> (delete (resolve src) fs))
          end
      end
  | inl _ => (inr EINVAL, fs)
  end.

Definition fs_rmdir (s : bytes) (fs : fsys) : (unit + errno) * fsys :=
  match fs_stat fs s with
  | inr e => (inr e, fs)
  | inl Dir => if decide (children fs (resolve s) = []) then (inl tt, delete (resolve s) fs)
               else (inr ENOTEMPTY, fs)
  | inl _ => (inr ENOTDIR, fs)
  end.

Definition fs_list (s : bytes) (fs : fsys) : (list name + errno) * fsys :=
  match fs_stat fs s with
  | inr e => (inr e, fs)
  | inl Dir => (inl (children fs (resolve s)), fs)
  | inl _ => (inr ENOTDIR, fs)
  end.

(** * System calls *)

(** A call that runs [f] when its verdict lets it. *)
Definition op {A} (f : fsys -> (A + errno) * fsys) : M (A + errno) := λ w,
  match w_sched w (w_tick w) with
  | VCrash => Crashed (with_fs w (w_fs w))
  | VErr e => Ret (inr e) (with_fs w (w_fs w))
  | VOk | VShort _ => let '(r, fs') := f (w_fs w) in Ret r (with_fs w fs')
  end.

Definition pure_op {A} (f : fsys -> A + errno) : M (A + errno) := op (λ fs, (f fs, fs)).

Definition sys_lstat (s : bytes) : M (node + errno) := pure_op (λ fs, fs_stat fs s).
Definition sys_access (s : bytes) : M (node + errno) := pure_op (λ fs, fs_stat fs s).
Definition sys_mkdir (s : bytes) : M (unit + errno) := op (fs_mkdir s).
Definition sys_open_trunc (s : bytes) (mode : Z) : M (path + errno) := op (fs_open_trunc s mode).
Definition sys_open_append (s : bytes) : M (path + errno) := op (fs_open_append s).
Definition sys_open_create_append (s : bytes) (mode : Z) : M (path + errno) :=
  op (fs_open_create_append s mode).
Definition sys_read (s : bytes) : M (Z * bytes + errno) := op (fs_read s).
Definition sys_unlink (s : bytes) : M (unit + errno) := op (fs_unlink s).
Definition sys_rename (src dst : bytes) : M (unit + errno) := op (fs_rename src dst).
Definition sys_rmdir (s : bytes) : M (unit + errno) := op (fs_rmdir s).
Definition sys_fsync (fd : path) : M (unit + errno) := pure_op (λ _, inl tt).
Definition sys_close (fd : path) : M (unit + errno) := pure_op (λ _, inl tt).
Definition sys_sync : M (unit + errno) := pure_op (λ _, inl tt).

(** One [write]: the number of bytes accepted, which a short verdict limits. *)
Definition sys_write (fd : path) (bs : bytes) : M (nat + errno) := λ w,
  match w_sched w (w_tick w) with
  | VShort n => op (fs_append fd (take n bs)) w
  | _ => op (fs_append fd bs) w
  end.

(** [opendir] and the names [readdir] delivers, "." and ".." apart. *)
Definition sys_list (s : bytes) : M (list name + errno) := λ w,
  match op (fs_list s) w with
  | Ret (inl l) w' => Ret (inl (w_order w l)) w'
  | o => o
  end.

(** [write(fd, bs, n) == n] *)
Definition write_full (fd : path) (bs : bytes) : M Z :=
  r ← sys_write fd bs;
  mret (match r with inl n => if decide (n = length bs) then 0 else -1 | inr _ => -1 end).

(** A [write] loop that goes on after a short write and stops on an error or a
    write of 0 bytes. *)
Fixpoint write_loop (fuel : nat) (fd : path) (bs : bytes) : M Z :=
  match bs, fuel with
  | [], _ => mret 0
  | _, O => mret (-1)
  | _, S fuel =>
      r ← sys_write fd bs;
      match r with
      | inr _ => mret (-1)
      | inl O => mret (-1)
      | inl n => write_loop fuel fd (drop n bs)
      end
  end.

(** * Line input *)

Fixpoint fgets_take (k : nat) (s : bytes) : bytes * bytes :=
  match k, s with
  | O, _ => ([], s)
  | _, [] => ([], [])
  | S k, c :: s =>
      if c =? LF then ([c], s) else let '(a, b) := fgets_take k s in (c :: a, b)
  end.

(** [fgets(line, n, f)]: at most [n - 1] bytes, up to and including a newline. *)
Definition fgets (n : nat) (s : bytes) : option (bytes * bytes) :=
  match s with [] => None | _ => Some (fgets_take (n - 1) s) end.

(** Everything repeated [fgets] calls deliver. *)
Fixpoint fgets_all (fuel n : nat) (s : bytes) : list bytes :=
  match fuel with
  | O => []
  | S fuel =>
      match fgets n s with
      | None => []
      | Some (l, r) => l :: fgets_all fuel n r
      end
  end.

Definition fgets_lines (n : nat) (s : bytes) : list bytes := fgets_all (length s) n s.

(** [line[strcspn(line, "\r\n")] = '\0'] *)
Definition chomp (l : bytes) : bytes :=
  take_while (λ c, negb ((c =? CR) || (c =? LF))) (cstr l).

(** * Idioms the sources share *)

(** [snprintf(buf, n, ...) < n] for the formatted string [s]. *)
Definition fits (n : nat) (s : bytes) : bool := (length s <? n)%nat.

(** The prefixes of [rev acc ++ s] that end just before a '/' of [s]. *)
Fixpoint prefixes_from (acc s : bytes) : list bytes :=
  match s with
  | [] => []
  | c :: s => if c =? SLASH then rev acc :: prefixes_from (c :: acc) s
              else prefixes_from (c :: acc) s
  end.

(** The strings the loop [for (i = 1; tmp[i]; i++)] passes to [mkdir]. *)
Definition slash_prefixes (s : bytes) : list bytes :=
  match s with [] => [] | c :: s => prefixes_from [c] s end.

(** [mkdir(s, mode) == 0 || errno == EEXIST] *)
Definition mkdir_ok (s : bytes) : M Z :=
  r ← sys_mkdir s;
  mret (match r with inl _ => 0 | inr EEXIST => 0 | inr _ => -1 end).

(** The [mkdir] loop over those prefixes. *)
Fixpoint mkdir_each (ss : list bytes) : M Z :=
  match ss with
  | [] => mret 0
  | s :: ss => mkdir_ok s ?; mkdir_each ss
  end.
