(* ===== verification/PosixLogic.v ===== *)
(** A crash-aware program logic for the file-system monad of [Posix].

    [wp b m Q C fs] says: started on the file system [fs], [m] either returns a
    value and a file system related by [Q], or stops at a crash in a file
    system satisfying [C].  With [b = true] every call may fail or crash; with
    [b = false] every call runs.  An injected error is never [ENOENT] or
    [EEXIST]: whether a path exists is decided by the tree.  Short writes are in neither class: theorems
    about them give the schedule explicitly.  The rules below are applied by
    the tactic [wp_step]; the rest of the file is about well-formed trees and
    what each call does to one. *)

From S2P Require Import Prelude CString Posix.
Local Open Scope Z_scope.

(** * Definitions *)

(** Errors a healthy tree may still return: anything but a report about the
    existence of a path, which the calls themselves decide. *)
Definition injected (e : errno) : bool :=
  match e with ENOENT | EEXIST => false | _ => true end.

Definition allowed (b : bool) (v : verdict) : Prop :=
  match v with
  | VOk => True
  | VErr e => b = true /\ injected e = true
  | VCrash => b = true
  | VShort _ => False
  end.

Record env_ok (b : bool) (w : world) : Prop := {
  eo_sched n : allowed b (w_sched w n);
  eo_order l : w_order w l ≡ₚ l
}.

Definition wp (b : bool) {A} (m : M A) (Q : A -> fsys -> Prop) (C : fsys -> Prop)
    (fs : fsys) : Prop :=
  forall w, env_ok b w -> w_fs w = fs ->
  match m w with
  | Ret a w' => env_ok b w' /\ Q a (w_fs w')
  | Crashed w' => env_ok b w' /\ C (w_fs w')
  end.

Definition good_name (c : name) : Prop :=
  c ≠ [] /\ c ≠ [DOT] /\ c ≠ [DOT; DOT] /\ SLASH ∉ c.

(** A file system is a tree of good names below the root. *)
Record fs_ok (fs : fsys) : Prop := {
  ok_root : fs !! [] = None;
  ok_parent p c n : fs !! (p ++ [c]) = Some n -> get fs p = Some Dir;
  ok_names p n : fs !! p = Some n -> Forall good_name p
}.

Definition data_at (fs : fsys) (p : path) : option bytes :=
  match fs !! p with Some (Reg _ d) => Some d | _ => None end.

(** * Rules *)

Section Rules.

Context (b : bool) {A : Type}.
Implicit Types (Q : A -> fsys -> Prop) (C : fsys -> Prop).

Lemma wp_ret (a : A) Q C fs : Q a fs -> wp b (mret a) Q C fs.
Proof. intros H w Hw <-. done. Qed.

Lemma wp_bind {B} (m : M B) (k : B -> M A) Q C fs :
  wp b m (λ a, wp b (k a) Q C) C fs -> wp b (m ≫= k) Q C fs.
Proof.
  intros H w Hw <-. specialize (H w Hw eq_refl).
  unfold mbind, M_bind. destruct (m w) as [a w'|w']; [|done].
  destruct H as [Hw' H]. exact (H w' Hw' eq_refl).
Qed.

Lemma wp_conseq (m : M A) Q Q' C C' fs :
  wp b m Q' C' fs -> (forall a fs', Q' a fs' -> Q a fs') -> (forall fs', C' fs' -> C fs') ->
  wp b m Q C fs.
Proof.
  intros H HQ HC w Hw <-. specialize (H w Hw eq_refl).
  destruct (m w); naive_solver.
Qed.

Lemma wp_op_injected (f : fsys -> (A + errno) * fsys) (Q : A + errno -> fsys -> Prop) C fs :
  Q (f fs).1 (f fs).2 ->
  (b = true -> (forall e, injected e = true -> Q (inr e) fs) /\ C fs) -> wp b (op f) Q C fs.
Proof.
  intros Hok Hf w Hw <-. unfold op.
  pose proof (eo_sched _ _ Hw (w_tick w)) as Hv.
  assert (Hw' : forall fs', env_ok b (with_fs w fs')) by (intros; split; apply Hw).
  destruct (w_sched w (w_tick w)); simpl in *; try done.
  - destruct (f (w_fs w)); naive_solver.
  - naive_solver.
  - naive_solver.
Qed.

Lemma wp_op (f : fsys -> (A + errno) * fsys) (Q : A + errno -> fsys -> Prop) C fs :
  Q (f fs).1 (f fs).2 -> (b = true -> (forall e, Q (inr e) fs) /\ C fs) -> wp b (op f) Q C fs.
Proof. intros H1 H2. apply wp_op_injected; [done|]. naive_solver. Qed.

End Rules.

Lemma wp_pure_op (b : bool) {A} (f : fsys -> A + errno) Q C fs :
  Q (f fs) fs -> (b = true -> (forall e, Q (inr e) fs) /\ C fs) -> wp b (pure_op f) Q C fs.
Proof. intros. by apply wp_op. Qed.

Lemma wp_write (b : bool) fd bs Q C fs :
  Q (fs_append fd bs fs).1 (fs_append fd bs fs).2 ->
  (b = true -> (forall e, Q (inr e) fs) /\ C fs) -> wp b (sys_write fd bs) Q C fs.
Proof.
  intros H1 H2 w Hw Hfs. unfold sys_write.
  pose proof (eo_sched _ _ Hw (w_tick w)) as Hv.
  pose proof (wp_op b (fs_append fd bs) Q C fs H1 H2 w Hw Hfs) as H.
  by destruct (w_sched w (w_tick w)).
Qed.

Lemma wp_list (b : bool) s Q C fs :
  (forall r, match (fs_list s fs).1, r with
             | inl l, inl l' => l' ≡ₚ l
             | inr e, inr e' => e = e'
             | _, _ => False
             end -> Q r fs) ->
  (b = true -> (forall e, Q (inr e) fs) /\ C fs) -> wp b (sys_list s) Q C fs.
Proof.
  intros H1 H2 w Hw <-. unfold sys_list, op.
  pose proof (eo_sched _ _ Hw (w_tick w)) as Hv.
  assert (Hw' : forall fs', env_ok b (with_fs w fs')) by (intros; split; apply Hw).
  assert (Hsnd : (fs_list s (w_fs w)).2 = w_fs w).
  { unfold fs_list. by destruct (fs_stat _ _) as [[]|]. }
  destruct (w_sched w (w_tick w)); simpl in *; try done.
  - destruct (fs_list s (w_fs w)) as [[l|e] fs']; simpl in *; subst; split; auto.
    apply H1. apply Hw.
  - naive_solver.
  - naive_solver.
Qed.

Lemma wp_and_then (b : bool) (m k : M Z) Q C fs :
  wp b m (λ r fs', if r =? 0 then wp b k Q C fs' else Q (-1) fs') C fs ->
  wp b (m ?; k) Q C fs.
Proof.
  intros H. unfold and_then. apply wp_bind. eapply wp_conseq; [exact H| |done].
  intros r fs' Hr. cbn beta in Hr. destruct (r =? 0); [exact Hr|by apply wp_ret].
Qed.

Lemma wp_ext (b : bool) {A} (m m' : M A) Q C fs :
  (forall w, m w = m' w) -> wp b m' Q C fs -> wp b m Q C fs.
Proof. intros E H w Hw Hf. rewrite E. by apply H. Qed.

Lemma and_then_assoc (m n k : M Z) w : ((m ?; n) ?; k) w = (m ?; n ?; k) w.
Proof.
  unfold and_then, mbind, M_bind. destruct (m w) as [r w'|w']; [|done].
  by destruct (r =? 0).
Qed.

Lemma wp_zero (b : bool) {A} (m : M (A + errno)) Q C fs :
  wp b m (λ r fs', Q (rc r) fs') C fs -> wp b (zero m) Q C fs.
Proof.
  intros H. unfold zero. apply wp_bind. eapply wp_conseq; [exact H| |done].
  intros. by apply wp_ret.
Qed.

Lemma wp_use (b : bool) {A} (m : M A) Q C w :
  wp b m Q C (w_fs w) -> env_ok b w ->
  match m w with
  | Ret a w' => env_ok b w' /\ Q a (w_fs w')
  | Crashed w' => env_ok b w' /\ C (w_fs w')
  end.
Proof. intros H Hw. by apply H. Qed.

Lemma wp_conj (b : bool) {A} (m : M A) Q Q' C C' fs :
  wp b m Q C fs -> wp b m Q' C' fs ->
  wp b m (λ a fs', Q a fs' /\ Q' a fs') (λ fs', C fs' /\ C' fs') fs.
Proof.
  intros H H' w Hw Hfs. specialize (H w Hw Hfs). specialize (H' w Hw Hfs).
  destruct (m w); naive_solver.
Qed.

(** Without faults a run ends: the crash postcondition can be anything. *)
Lemma wp_calm {A} (m : M A) Q C fs : wp false m Q (λ _, False) fs -> wp false m Q C fs.
Proof. intros H. by eapply wp_conseq; [exact H| |]. Qed.

(** [write_full] keeps or extends the file; it extends it when it returns 0. *)
Lemma wp_write_full (b : bool) fd bs Q C fs :
  match (fs_append fd bs fs).1 with
  | inl _ => Q 0 (fs_append fd bs fs).2
  | inr _ => Q (-1) (fs_append fd bs fs).2
  end ->
  (b = true -> Q (-1) fs /\ C fs) -> wp b (write_full fd bs) Q C fs.
Proof.
  intros H1 H2. unfold write_full. apply wp_bind, wp_write.
  - apply wp_ret. unfold fs_append in *.
    destruct (fs !! fd) as [[]|]; simpl in *; try done. by rewrite decide_True.
  - intros Hb. destruct (H2 Hb). split; [|done]. intros. by apply wp_ret.
Qed.

Ltac wp_step :=
  lazymatch goal with
  | |- wp _ (mret _) _ _ _ => apply wp_ret
  | |- wp _ (_ ?; _) _ _ _ => apply wp_and_then
  | |- wp _ (_ ≫= _) _ _ _ => apply wp_bind
  | |- wp _ (zero _) _ _ _ => apply wp_zero
  | |- wp _ (write_full _ _) _ _ _ => apply wp_write_full
  | |- wp _ (sys_write _ _) _ _ _ => apply wp_write
  | |- wp _ (sys_list _) _ _ _ => apply wp_list
  | |- wp _ (pure_op _) _ _ _ => apply wp_pure_op
  | |- wp _ (op _) _ _ _ => apply wp_op
  | |- wp _ (if ?c then _ else _) _ _ _ => destruct c eqn:?
  end.

(** * Path strings *)

Section PathStrings.

Lemma comps_app a b : comps (a ++ SLASH :: b) = comps a ++ comps b.
Proof. unfold comps. by rewrite split_on_app_sep, filter_app. Qed.

Lemma comps_slash b : comps (SLASH :: b) = comps b.
Proof. apply (comps_app []). Qed.

Lemma comps_name c : good_name c -> comps c = [c].
Proof.
  intros (H1 & H2 & _ & H3). unfold comps. rewrite split_on_none by done.
  by rewrite filter_cons_True.
Qed.

Lemma norm_plain acc cs : [DOT; DOT] ∉ cs -> norm acc cs = rev acc ++ cs.
Proof.
  revert acc. induction cs as [|c cs IH]; intros acc H; simpl.
  - by rewrite app_nil_r.
  - rewrite not_elem_of_cons in H. destruct H as [H1 H2].
    rewrite decide_False by congruence. rewrite IH by done. simpl.
    by rewrite <- app_assoc.
Qed.

Lemma resolve_plain s : [DOT; DOT] ∉ comps s -> resolve s = comps s.
Proof. intros. unfold resolve. by rewrite norm_plain. Qed.

Lemma norm_good acc cs :
  Forall good_name acc -> Forall (λ c, c ≠ [] /\ c ≠ [DOT] /\ SLASH ∉ c) cs ->
  Forall good_name (norm acc cs).
Proof.
  revert acc. induction cs as [|c cs IH]; intros acc Ha Hc; simpl.
  - by apply Forall_rev.
  - inversion_clear Hc as [|? ? Hc1 Hc2]. destruct (decide _).
    + apply IH; [|done]. by destruct Ha.
    + apply IH; [|done]. constructor; [|done]. unfold good_name. naive_solver.
Qed.

Lemma comps_good s : Forall (λ c, c ≠ [] /\ c ≠ [DOT] /\ SLASH ∉ c) (comps s).
Proof.
  apply Forall_forall. intros c Hc. unfold comps in Hc.
  apply list_elem_of_filter in Hc as [[] Hin]. repeat split; [done..|].
  pose proof (split_on_no_sep SLASH s) as Hs. rewrite Forall_forall in Hs. by apply Hs.
Qed.

Lemma resolve_good s : Forall good_name (resolve s).
Proof. apply norm_good; [constructor|apply comps_good]. Qed.

Lemma good_no_dotdot p : Forall good_name p -> [DOT; DOT] ∉ p.
Proof. rewrite Forall_forall. intros H Hin. destruct (H _ Hin) as (_ & _ & ? & _). done. Qed.

(** A directory string followed by a name, or by a safe relative path. *)
Lemma resolve_child s p c :
  comps s = p -> Forall good_name p -> good_name c ->
  resolve (s ++ SLASH :: c) = p ++ [c] /\ comps (s ++ SLASH :: c) = p ++ [c].
Proof.
  intros <- Hp Hc.
  assert (E : comps (s ++ SLASH :: c) = comps s ++ [c]) by (by rewrite comps_app, (comps_name c)).
  split; [|done]. rewrite <- E. apply resolve_plain. rewrite E.
  apply good_no_dotdot. apply Forall_app. split; [done|by apply Forall_singleton].
Qed.

Lemma length_show_cons c p :
  length (show_path (c :: p)) = S (length c + length (show_path p)).
Proof. unfold show_path. simpl. by rewrite length_app. Qed.

Lemma length_show_filter (P : name -> Prop) `{!forall c, Decision (P c)} ws :
  (length (show_path (filter P ws)) <= length (show_path ws))%nat.
Proof.
  induction ws as [|w ws IH]; [done|]. rewrite filter_cons, length_show_cons.
  destruct (decide (P w)); [rewrite length_show_cons|]; lia.
Qed.

Lemma length_join ws :
  ws ≠ [] -> length (show_path ws) = S (length (join SLASH ws)).
Proof.
  induction ws as [|w [|w' ws] IH]; intros; [done| |]; rewrite length_show_cons.
  - simpl. lia.
  - rewrite IH by done. change (join SLASH (w :: w' :: ws)) with (w ++ SLASH :: join SLASH (w' :: ws)).
    rewrite length_app. simpl. lia.
Qed.

Lemma length_show_comps s :
  (length (show_path (comps s)) <= S (length s))%nat.
Proof.
  unfold comps. etrans; [apply length_show_filter|].
  rewrite length_join by apply split_on_nonnil. by rewrite join_split.
Qed.

Lemma comps_length_abs s :
  (length (show_path (comps (SLASH :: s))) <= length (SLASH :: s))%nat.
Proof. rewrite comps_slash. apply length_show_comps. Qed.

Lemma wants_dir_snoc s c : good_name c -> wants_dir (s ++ SLASH :: c) = false.
Proof.
  intros (H1 & _ & _ & H2). unfold wants_dir. apply bool_decide_eq_false. intros H.
  destruct c as [|x c] using rev_ind; [done|].
  rewrite app_comm_cons, app_assoc, last_snoc in H. injection H as ->. set_solver.
Qed.

Lemma show_path_app p q : show_path (p ++ q) = show_path p ++ show_path q.
Proof. unfold show_path. by rewrite bind_app. Qed.

Lemma show_path_comps p : Forall good_name p -> comps (show_path p) = p.
Proof.
  induction p as [|c p IH] using rev_ind; intros H; [done|].
  apply Forall_app in H as [Hp Hc]. inversion_clear Hc.
  rewrite show_path_app. unfold show_path at 2. simpl. rewrite app_nil_r.
  rewrite comps_app, IH, comps_name by done. done.
Qed.

End PathStrings.

(** * Trees *)

Section Trees.

Context (fs : fsys).
Hypothesis Hok : fs_ok fs.

Lemma get_lookup p : p ≠ [] -> get fs p = fs !! p.
Proof. by destruct p. Qed.

Lemma get_prefix_dir p q n : get fs (p ++ q) = Some n -> q ≠ [] -> get fs p = Some Dir.
Proof.
  revert n. induction q as [|c q IH] using rev_ind; intros n H Hq; [done|].
  rewrite app_assoc, get_lookup in H by (by destruct (p ++ q)).
  apply (ok_parent _ Hok) in H.
  destruct (decide (q = [])) as [->|]; [by rewrite app_nil_r in H|]. eauto.
Qed.

Lemma walk_dir pre rest n :
  get fs (pre ++ rest) = Some n -> walk fs pre rest = None.
Proof.
  revert pre. induction rest as [|c [|c' rest] IH]; intros pre H; [done..|].
  cbn [walk]. rewrite (get_prefix_dir (pre ++ [c]) (c' :: rest) n).
  - apply IH. by rewrite <- app_assoc.
  - by rewrite <- app_assoc.
  - done.
Qed.

Lemma walk_None pre rest c :
  walk fs pre (rest ++ [c]) = None -> get fs pre = Some Dir -> get fs (pre ++ rest) = Some Dir.
Proof.
  revert pre. induction rest as [|x rest IH]; intros pre H Hpre.
  - by rewrite app_nil_r.
  - replace (pre ++ x :: rest) with ((pre ++ [x]) ++ rest) by (by rewrite <- app_assoc).
    cbn [app walk] in H. destruct (rest ++ [c]) as [|y ys] eqn:E; [by destruct rest|].
    destruct (get fs (pre ++ [x])) as [[]|] eqn:Ex; try done.
    apply IH; [|done]. exact H.
Qed.

Lemma walk_parent p c : walk fs [] (p ++ [c]) = None -> get fs p = Some Dir.
Proof. intros H. by apply (walk_None []) in H. Qed.

Lemma walk_of_parent p c : get fs p = Some Dir -> walk fs [] (p ++ [c]) = None.
Proof.
  intros H. assert (Hg : forall pre rest, get fs (pre ++ rest) = Some Dir ->
                         walk fs pre (rest ++ [c]) = None).
  { intros pre rest. revert pre. induction rest as [|x rest IH]; intros pre Hr; [done|].
    cbn [app walk]. destruct (rest ++ [c]) as [|y ys] eqn:E; [by destruct rest|].
    assert (Hx : get fs (pre ++ [x]) = Some Dir).
    { destruct (decide (rest = [])) as [->|]; [done|].
      apply (get_prefix_dir (pre ++ [x]) rest Dir); [by rewrite <- app_assoc|done]. }
    rewrite Hx. apply IH. by rewrite <- app_assoc. }
  by apply (Hg []).
Qed.

Lemma stat_inl s n :
  fs_stat fs s = inl n -> get fs (resolve s) = Some n /\ (n ≠ Dir -> wants_dir s = false).
Proof.
  unfold fs_stat. destruct (walk _ _ _); [done|].
  destruct (get fs (resolve s)) as [[m d| |]|] eqn:E; [| |  |done].
  - destruct (wants_dir s); [done|]. intros [= <-]. done.
  - intros [= <-]. done.
  - destruct (wants_dir s); [done|]. intros [= <-]. done.
Qed.

Lemma stat_get s n :
  get fs (resolve s) = Some n -> wants_dir s = false -> fs_stat fs s = inl n.
Proof.
  intros H Hd. unfold fs_stat. rewrite (walk_dir [] _ n H), H, Hd. by destruct n.
Qed.

Lemma stat_dir s : get fs (resolve s) = Some Dir -> fs_stat fs s = inl Dir.
Proof. intros H. unfold fs_stat. by rewrite (walk_dir [] _ Dir H), H. Qed.

Lemma stat_ENOENT s : fs_stat fs s = inr ENOENT -> get fs (resolve s) = None.
Proof.
  intros H. destruct (get fs (resolve s)) as [n|] eqn:E; [|done].
  unfold fs_stat in H. rewrite (walk_dir [] _ n E), E in H.
  by destruct n, (wants_dir s).
Qed.

(** Existing ancestors of a missing path that are all directories. *)
Lemma walk_ENOENT pre rest :
  (forall a b, rest = a ++ b -> b ≠ [] -> get fs (pre ++ a) = None \/ get fs (pre ++ a) = Some Dir) ->
  walk fs pre rest = None \/ walk fs pre rest = Some ENOENT.
Proof.
  revert pre. induction rest as [|c [|c' rest] IH]; intros pre H; [by left..|].
  cbn [walk]. destruct (H [c] (c' :: rest)) as [-> | ->]; [done..|by right|].
  apply IH. intros a b Hab Hb. rewrite <- app_assoc. simpl.
  apply (H (c :: a) b); [by rewrite Hab|done].
Qed.

Lemma children_spec p c : c ∈ children fs p <-> is_Some (fs !! (p ++ [c])).
Proof.
  unfold children. rewrite list_elem_of_omap. split.
  - intros (q & Hq & Hc). apply list_elem_of_fmap in Hq as ([q' n] & -> & Hin).
    apply elem_of_map_to_list in Hin. simpl in Hc. destruct (last q') as [x|]; [|done].
    destruct (decide _) as [->|]; [|done]. injection Hc as ->. eauto.
  - intros [n Hn]. exists (p ++ [c]). split.
    + apply list_elem_of_fmap. exists (p ++ [c], n). split; [done|].
      by apply elem_of_map_to_list.
    + by rewrite last_snoc, decide_True.
Qed.

Lemma children_NoDup p : NoDup (children fs p).
Proof.
  unfold children. pose proof (NoDup_fst_map_to_list fs) as H.
  induction (fst <$> map_to_list fs) as [|q l IH]; [constructor|].
  inversion_clear H as [|? ? Hq Hl]. simpl.
  destruct (last q) as [c|]; [|by apply IH].
  destruct (decide (q = p ++ [c])) as [->|]; [|by apply IH].
  constructor; [|by apply IH]. intros Hin. apply list_elem_of_omap in Hin as (q' & Hq' & Hc).
  destruct (last q') as [c'|]; [|done]. destruct (decide _) as [->|]; [|done].
  by injection Hc as ->.
Qed.

End Trees.


(** * What each call does to a tree *)

Section Effects.

Implicit Types fs : fsys.

Lemma get_insert_ne fs p q n : p ≠ q -> get (<[p := n]> fs) q = get fs q.
Proof. intros. destruct q; [done|]. simpl. by rewrite lookup_insert_ne. Qed.

Lemma get_delete_ne fs p q : p ≠ q -> get (delete p fs) q = get fs q.
Proof. intros. destruct q; [done|]. simpl. by rewrite lookup_delete_ne. Qed.

Lemma snoc_ne {X} (p : list X) c : p ++ [c] ≠ p.
Proof. intros H. apply (f_equal length) in H. rewrite length_app in H. simpl in H. lia. Qed.

Lemma ok_insert fs p n :
  fs_ok fs -> Forall good_name p -> walk fs [] p = None -> p ≠ [] ->
  (get fs p = Some Dir -> n = Dir) -> fs_ok (<[p := n]> fs).
Proof.
  intros Hok Hp Hw Hne Hd. split.
  - rewrite lookup_insert_ne by done. apply Hok.
  - intros q c m Hq. destruct (decide (p = q ++ [c])) as [->|Hpq].
    + rewrite get_insert_ne by apply snoc_ne. by apply walk_parent in Hw.
    + rewrite lookup_insert_ne in Hq by done. apply (ok_parent _ Hok) in Hq.
      destruct (decide (p = q)) as [->|].
      * rewrite get_lookup by done. rewrite lookup_insert_eq. by rewrite Hd.
      * by rewrite get_insert_ne.
  - intros q m Hq. destruct (decide (p = q)) as [->|]; [done|].
    rewrite lookup_insert_ne in Hq by done. by apply (ok_names _ Hok) in Hq.
Qed.

Lemma ok_delete fs p :
  fs_ok fs -> (forall c, fs !! (p ++ [c]) = None) -> fs_ok (delete p fs).
Proof.
  intros Hok Hc. split.
  - apply lookup_delete_None. right. apply Hok.
  - intros q c m Hq. apply lookup_delete_Some in Hq as [Hne Hq].
    destruct (decide (p = q)) as [->|]; [by rewrite Hc in Hq|].
    rewrite get_delete_ne by done. by apply (ok_parent _ Hok) in Hq.
  - intros q m Hq. apply lookup_delete_Some in Hq as [_ Hq].
    by apply (ok_names _ Hok) in Hq.
Qed.

Lemma leaf_no_child fs p n :
  fs_ok fs -> get fs p = Some n -> n ≠ Dir -> forall c, fs !! (p ++ [c]) = None.
Proof.
  intros Hok Hn Hd c. destruct (fs !! (p ++ [c])) eqn:E; [|done].
  apply (ok_parent _ Hok) in E. congruence.
Qed.

Lemma mkdir_cases s fs :
  fs_ok fs ->
  ((fs_mkdir s fs).2 = fs /\ ((fs_mkdir s fs).1 = inr EEXIST -> is_Some (get fs (resolve s)))
    /\ (forall u, (fs_mkdir s fs).1 ≠ inl u)) \/
  (fs_mkdir s fs = (inl tt, <[resolve s := Dir]> fs) /\ get fs (resolve s) = None /\
   resolve s ≠ [] /\ fs_ok (<[resolve s := Dir]> fs)).
Proof.
  intros Hok. unfold fs_mkdir.
  destruct (walk fs [] (resolve s)) eqn:Hw.
  { left. split; [done|]. split; [|done]. intros [= ->].
    clear -Hw. exfalso. revert Hw. generalize (resolve s), (@nil name).
    intros p pre. revert pre. induction p as [|c [|c' p] IH]; intros pre; [done..|].
    cbn [walk]. destruct (get fs _) as [[]|]; try done. apply IH. }
  destruct (get fs (resolve s)) eqn:Hg; [left; split; [done|split; [by eexists|done]]|].
  right. split; [done|]. split; [done|].
  assert (resolve s ≠ []) by (intros E; by rewrite E in Hg).
  split; [done|]. apply ok_insert; [done|apply resolve_good|done|done|by rewrite Hg].
Qed.

Lemma open_trunc_cases s mode fs :
  fs_ok fs ->
  (exists e, fs_open_trunc s mode fs = (inr e, fs)) \/
  (exists m, fs_open_trunc s mode fs = (inl (resolve s), <[resolve s := Reg m []]> fs) /\
   get fs (resolve s) ≠ Some Dir /\ get fs (resolve s) ≠ Some Special /\
   wants_dir s = false /\ resolve s ≠ [] /\ fs_ok (<[resolve s := Reg m []]> fs)).
Proof.
  intros Hok. unfold fs_open_trunc.
  destruct (walk fs [] (resolve s)) eqn:Hw; [left; by eexists|].
  destruct (get fs (resolve s)) as [[m d| |]|] eqn:Hg; try (left; by eexists);
    (destruct (wants_dir s); [left; by eexists|]); right;
    (assert (resolve s ≠ []) by (intros E; by rewrite E in Hg)).
  - exists m. repeat split; try done; apply ok_insert; try done; try apply resolve_good.
    all: by rewrite Hg.
  - exists mode. repeat split; try done; apply ok_insert; try done; try apply resolve_good.
    all: by rewrite Hg.
Qed.

Lemma append_cases fd bs fs :
  fs_ok fs ->
  (exists e, fs_append fd bs fs = (inr e, fs) /\ data_at fs fd = None) \/
  (exists m d, fs !! fd = Some (Reg m d) /\
   fs_append fd bs fs = (inl (length bs), <[fd := Reg m (d ++ bs)]> fs) /\
   fs_ok (<[fd := Reg m (d ++ bs)]> fs)).
Proof.
  intros Hok. unfold fs_append, data_at.
  destruct (fs !! fd) as [[m d| |]|] eqn:E; try (left; by eexists).
  right. exists m, d. split; [done|]. split; [done|].
  assert (Hne : fd ≠ []) by (intros ->; rewrite (ok_root _ Hok) in E; done).
  apply ok_insert; try done.
  - by apply (ok_names _ Hok) in E.
  - eapply walk_dir; [done|]. simpl. by rewrite get_lookup.
  - rewrite get_lookup by done. by rewrite E.
Qed.

Lemma unlink_cases s fs :
  fs_ok fs ->
  (exists e, fs_unlink s fs = (inr e, fs) /\ (e = ENOENT -> get fs (resolve s) = None)) \/
  (exists n, fs_unlink s fs = (inl tt, delete (resolve s) fs) /\ n ≠ Dir /\
   get fs (resolve s) = Some n /\ wants_dir s = false /\ fs_ok (delete (resolve s) fs)).
Proof.
  intros Hok. unfold fs_unlink.
  destruct (fs_stat fs s) as [n|e] eqn:Es.
  - apply stat_inl in Es as [Hg Hd]. destruct (decide (n = Dir)) as [->|Hn].
    + left. by eexists.
    + right. exists n. split; [by destruct n|]. split; [done|]. split; [done|].
      split; [by apply Hd|]. apply ok_delete; [done|]. by eapply leaf_no_child.
  - left. exists e. split; [done|]. intros ->. by apply stat_ENOENT.
Qed.

Lemma rename_cases src dst fs :
  fs_ok fs ->
  (exists e, fs_rename src dst fs = (inr e, fs)) \/
  (exists m d, fs_rename src dst fs =
     (inl tt, <[resolve dst := Reg m d]> (delete (resolve src) fs)) /\
   fs !! resolve src = Some (Reg m d) /\ get fs (resolve dst) ≠ Some Dir /\
   wants_dir dst = false /\ resolve dst ≠ [] /\
   fs_ok (<[resolve dst := Reg m d]> (delete (resolve src) fs))).
Proof.
  intros Hok. unfold fs_rename.
  destruct (fs_stat fs src) as [[m d| |]|e] eqn:Es; try (left; by eexists).
  apply stat_inl in Es as [Hg Hd].
  destruct (walk fs [] (resolve dst)) eqn:Hw; [left; by eexists|].
  assert (Hsrc : resolve src ≠ []) by (intros E; by rewrite E in Hg).
  destruct (decide (get fs (resolve dst) = Some Dir)) as [Ed|Ed].
  { left. rewrite Ed. by eexists. }
  destruct (wants_dir dst) eqn:Hwd.
  { left. destruct (get fs (resolve dst)) as [[]|]; try done; by eexists. }
  right. exists m, d.
  assert (Hdst : resolve dst ≠ []) by (intros E; by rewrite E in Ed).
  split; [by destruct (get fs (resolve dst)) as [[]|]|].
  split; [by rewrite get_lookup in Hg|]. split; [done|]. split; [done|]. split; [done|].
  assert (Hok' : fs_ok (delete (resolve src) fs)).
  { apply ok_delete; [done|]. eapply leaf_no_child; [done|exact Hg|done]. }
  apply ok_insert; [done|apply resolve_good| |done|].
  - destruct (resolve dst) as [|c p] eqn:Ep using rev_ind; [done|]. clear IHp.
    apply walk_of_parent; [done|]. apply walk_parent in Hw.
    rewrite get_delete_ne; [done|]. intros <-. congruence.
  - intros Hg'. destruct (decide (resolve src = resolve dst)) as [E|E].
    + rewrite E, get_lookup, lookup_delete_eq in Hg' by done. done.
    + by rewrite get_delete_ne in Hg'.
Qed.

Lemma rmdir_cases s fs :
  fs_ok fs ->
  (exists e, fs_rmdir s fs = (inr e, fs)) \/
  (fs_rmdir s fs = (inl tt, delete (resolve s) fs) /\ get fs (resolve s) = Some Dir /\
   fs_ok (delete (resolve s) fs)).
Proof.
  intros Hok. unfold fs_rmdir.
  destruct (fs_stat fs s) as [[m d| |]|e] eqn:Es; try (left; by eexists).
  apply stat_inl in Es as [Hg _].
  destruct (decide (children fs (resolve s) = [])) as [Hc|]; [|left; by eexists].
  right. split; [done|]. split; [done|]. apply ok_delete; [done|]. intros c.
  destruct (fs !! (resolve s ++ [c])) eqn:E; [|done].
  assert (Hin : c ∈ children fs (resolve s)) by (apply children_spec; by eexists).
  rewrite Hc in Hin. by apply elem_of_nil in Hin.
Qed.

End Effects.

(** * Line input *)

Section Lines.

Lemma fgets_take_line k a s :
  LF ∉ a -> (length a < k)%nat -> fgets_take k (a ++ LF :: s) = (a ++ [LF], s).
Proof.
  revert k. induction a as [|c a IH]; intros k Ha Hk; destruct k as [|k]; simpl in *; try lia.
  - done.
  - rewrite not_elem_of_cons in Ha. destruct Ha as [Hc Ha].
    rewrite (proj2 (Z.eqb_neq c LF)) by congruence. by rewrite IH by (done || lia).
Qed.

Lemma fgets_line n a s :
  LF ∉ a -> (S (length a) < n)%nat -> fgets n (a ++ LF :: s) = Some (a ++ [LF], s).
Proof.
  intros Ha Hn. unfold fgets. destruct (a ++ LF :: s) eqn:E; [by destruct a|]. rewrite <- E.
  by rewrite fgets_take_line by (done || lia).
Qed.

Lemma fgets_all_fuel fuel fuel' n s : (1 < n)%nat -> (length s <= fuel)%nat -> (length s <= fuel')%nat -> fgets_all fuel n s = fgets_all fuel' n s.
Proof.
  intros Hn. revert fuel' s. induction fuel as [|fuel IH]; intros fuel' s H H'.
  { destruct s; [|cbn in H; lia]. by destruct fuel'. }
  destruct fuel' as [|fuel']; [destruct s; [done|cbn in H'; lia]|]. cbn [fgets_all]. unfold fgets. destruct s as [|c s]; [done|].
  destruct (fgets_take (n - 1) (c :: s)) as [l r] eqn:E. f_equal. assert (Hr : (length r <= length s)%nat).
  { destruct (n - 1)%nat as [|k] eqn:En; [lia|]. cbn [fgets_take] in E. destruct (c =? LF); [by injection E as _ <-|]. destruct (fgets_take k s) as [a b] eqn:Ek. injection E as _ <-.
    clear -Ek. revert s a b Ek. induction k as [|k IH]; intros s a b E; [by injection E as _ <-|]. destruct s as [|x s]; [by injection E as _ <-|]. cbn [fgets_take] in E.
    destruct (x =? LF); [injection E as _ <-; cbn; lia|]. destruct (fgets_take k s) as [a' b'] eqn:Ek. injection E as _ <-. specialize (IH _ _ _ Ek). cbn. lia. }
  cbn [length] in *. apply IH; lia.
Qed.

Lemma fgets_lines_cons n l s : (1 < n)%nat -> LF ∉ l -> (S (length l) < n)%nat -> fgets_lines n (l ++ LF :: s) = (l ++ [LF]) :: fgets_lines n s.
Proof.
  intros Hn Hl Hlen. unfold fgets_lines. rewrite length_app. cbn [length]. replace (length l + S (length s))%nat with (S (length l + length s)) by lia. cbn [fgets_all].
  rewrite fgets_line by done. f_equal. apply fgets_all_fuel; [done|lia|lia].
Qed.

End Lines.

(** * Deciding well-formedness of a concrete tree *)

Definition good_nameb (c : name) : bool :=
  negb (bool_decide (c = [] \/ c = [DOT] \/ c = [DOT; DOT])) && negb (has_char SLASH c).

Definition fs_okb (fs : fsys) : bool :=
  forallb (λ '(p, _), forallb good_nameb p && negb (bool_decide (p = [])) &&
                      bool_decide (get fs (removelast p) = Some Dir)) (map_to_list fs).

(** The tree with the given paths and nodes, and a run on it without faults. *)
Definition tree (l : list (string * node)) : fsys :=
  list_to_map ((λ '(s, n), (comps (B s), n)) <$> l).

Definition calm_world (fs : fsys) : world := World fs 0 (λ _, VOk) (λ l, l).

(** A run whose [n]th call is where the machine stops. *)
Definition crash_world (n : nat) (fs : fsys) : world :=
  World fs 0 (λ k, if decide (k = n) then VCrash else VOk) (λ l, l).

Section Concrete.

Lemma fs_okb_sound fs : fs_okb fs = true -> fs_ok fs.
Proof.
  unfold fs_okb. rewrite forallb_forall. intros H.
  assert (Hp : forall p n, fs !! p = Some n -> forallb good_nameb p = true /\ p ≠ [] /\
                           get fs (removelast p) = Some Dir).
  { intros p n Hn. specialize (H (p, n)). cbn in H.
    rewrite <- list_elem_of_In, elem_of_map_to_list in H. specialize (H Hn). boolify. done. }
  split.
  - destruct (fs !! []) eqn:E; [|done]. apply Hp in E as (_ & ? & _). done.
  - intros p c n Hn. apply Hp in Hn as (_ & _ & Hd). by rewrite removelast_last in Hd.
  - intros p n Hn. apply Hp in Hn as (Hg & _ & _). rewrite forallb_forall in Hg.
    apply Forall_forall. intros c Hc. apply list_elem_of_In, Hg in Hc.
    unfold good_nameb in Hc. boolify. apply has_char_false in H1. unfold good_name. tauto.
Qed.

Lemma calm_world_ok fs b : env_ok b (calm_world fs).
Proof. split; [by intros|done]. Qed.

Lemma crash_world_ok n fs : env_ok true (crash_world n fs).
Proof. split; [|done]. intros k. cbn. by destruct (decide (k = n)). Qed.

End Concrete.
