(* ===== verification/HeraldTxn.v ===== *)
(** herald's crash-recoverable transaction (src/user/bin/herald/transaction.c).

    A transaction stages files under [HERALD_TXN_STAGE], queues deletions in
    [TXN_DELETE], and [txn_commit] applies both: before a live file is touched
    its contents are copied under [TXN_BACKUP] and a journal line is appended.
    [rollback] replays the journal; [txn_recover] decides from the state file
    whether to roll back, to clean up, or to wait for the kernel update.

    Every definition below is the C function of the same name over the file
    system of [Posix]; the C [int] result is kept as a [Z].  The C buffers are
    NUL-terminated byte arrays of size [TXN_PATH_MAX]; [fits] of [Posix] is the
    [snprintf(...) < size] test the code performs on each of them.  The
    correctness theorems are in [HeraldTxnSafety]. *)

From S2P Require Import Prelude CString Posix.
Local Open Scope Z_scope.

(** * Names *)

Definition HERALD_DB_DIR : bytes := B "/etc/aegis/herald".
Definition HERALD_DB_PATH : bytes := B "/etc/aegis/herald/db".
Definition HERALD_TXN_DIR : bytes := B "/etc/aegis/herald/transaction".
Definition HERALD_TXN_STAGE : bytes := B "/etc/aegis/herald/transaction/stage".
Definition HERALD_UPDATE_PENDING : bytes := B "/etc/aegis/update/pending".
Definition TXN_BACKUP : bytes := B "/etc/aegis/herald/transaction/backup".
Definition TXN_STATE : bytes := B "/etc/aegis/herald/transaction/state".
Definition TXN_JOURNAL : bytes := B "/etc/aegis/herald/transaction/journal".
Definition TXN_DELETE : bytes := B "/etc/aegis/herald/transaction/delete".
Definition TXN_PATH_MAX : nat := 768.

(** The last occurrence of [c]: the parts before and after it ([strrchr]). *)
Definition rcut (c : byte) (s : bytes) : option (bytes * bytes) :=
  match cut c (rev s) with
  | Some (a, b) => Some (rev b, rev a)
  | None => None
  end.

(** * Directory and path helpers *)

Definition mkdir_p (s : bytes) : M Z :=
  if fits TXN_PATH_MAX s then mkdir_each (slash_prefixes s) ?; mkdir_ok s
  else mret (-1).

Definition parent_dirs (s : bytes) : M Z :=
  if fits TXN_PATH_MAX s then
    match rcut SLASH s with
    | None => mret 0
    | Some (dir, _) => if decide (dir = []) then mret 0 else mkdir_p dir
    end
  else mret (-1).

Definition comp_ok (c : bytes) : bool :=
  negb (bool_decide (c = [] \/ c = [DOT] \/ c = [DOT; DOT])).

(** The component loop of [safe_rel]: it stops at the end of the string, so an
    empty last component (a trailing '/') is not looked at. *)
Fixpoint comps_ok (cs : list bytes) : bool :=
  match cs with
  | [] => true
  | [[]] => true
  | c :: cs => comp_ok c && comps_ok cs
  end.

Definition safe_rel (s : bytes) : bool :=
  negb (bool_decide (s = [])) && negb (starts_with [SLASH] s) && comps_ok (split_on SLASH s).

Definition txn_stage_path (size : nat) (s : bytes) : option bytes :=
  let out := HERALD_TXN_STAGE ++ SLASH :: s in
  if safe_rel s && fits size out then Some out else None.

(** * Copying and removing *)

(** The read/write loop of [copy_file], 16384 bytes a turn. *)
Fixpoint copy_chunks (fuel : nat) (src : bytes) (out : path) (data : bytes) : M Z :=
  match fuel with
  | O => mret (-1)
  | S fuel =>
      r ← pure_op (λ _, inl tt);
      match r with
      | inr _ => mret (-1)
      | inl _ =>
          match data with
          | [] => mret 0
          | _ =>
              let chunk := take 16384 data in
              write_loop (length chunk) out chunk ?;
              copy_chunks fuel src out (drop 16384 data)
          end
      end
  end.

(** After a failure the destination is unlinked, whatever failed. *)
Definition copy_done (dst : bytes) (code : Z) : M Z :=
  if code =? 0 then mret 0 else _ ← sys_unlink dst; mret (-1).

Definition copy_file (src dst : bytes) : M Z :=
  i ← sys_read src;
  match i with
  | inr _ => copy_done dst (-1)
  | inl (mode, data) =>
      p ← parent_dirs dst;
      if negb (p =? 0) then _ ← sys_close (resolve src); copy_done dst (-1) else
      o ← sys_open_trunc dst (Z.land mode 511);
      match o with
      | inr _ => _ ← sys_close (resolve src); copy_done dst (-1)
      | inl out =>
          c ← copy_chunks (S (length data)) src out data;
          f ← (if c =? 0 then zero (sys_fsync out) else mret (-1));
          k ← sys_close out;
          _ ← sys_close (resolve src);
          copy_done dst (if rc k =? 0 then f else -1)
      end
  end.

(** [remove_tree]; the recursion is bounded by the length of the path, which
    grows by at least two bytes a level and must stay below [TXN_PATH_MAX]. *)
Fixpoint remove_tree_at (fuel : nat) (s : bytes) : M Z :=
  match fuel with
  | O => mret (-1)
  | S fuel =>
      d ← sys_list s;
      match d with
      | inr ENOENT => mret 0
      | inr _ => mret (-1)
      | inl names =>
          (fix each (ns : list name) : M Z :=
             match ns with
             | [] =>
                 r ← sys_rmdir s;
                 mret (match r with inl _ => 0 | inr ENOENT => 0 | inr _ => -1 end)
             | n :: ns =>
                 let child := s ++ SLASH :: n in
                 if negb (fits TXN_PATH_MAX child) then mret (-1) else
                 st ← sys_lstat child;
                 match st with
                 | inr _ => mret (-1)
                 | inl Dir => remove_tree_at fuel child ?; each ns
                 | inl _ => zero (sys_unlink child) ?; each ns
                 end
             end) names
      end
  end.

Definition remove_tree (s : bytes) : M Z := remove_tree_at TXN_PATH_MAX s.

(** * State file and journal *)

Definition write_state (state : bytes) : M Z :=
  let tmp := TXN_STATE ++ B ".tmp" in
  mkdir_p HERALD_TXN_DIR ?;
  f ← sys_open_trunc tmp 384;
  match f with
  | inr _ => mret (-1)
  | inl fd =>
      a ← (write_full fd state ?; write_full fd [LF] ?; zero (sys_fsync fd));
      c ← sys_close fd;
      if (a =? 0) && (rc c =? 0) then
        r ← sys_rename tmp TXN_STATE;
        match r with
        | inr _ => _ ← sys_unlink tmp; mret (-1)
        | inl _ => _ ← sys_sync; mret 0
        end
      else _ ← sys_unlink tmp; mret (-1)
  end.

Inductive jop := JReplace | JNew.

Definition jop_char (o : jop) : byte := match o with JReplace => 82 | JNew => 78 end.

Definition journal_line (o : jop) (rel : bytes) : bytes := jop_char o :: TAB :: rel ++ [LF].

Definition journal (fd : path) (o : jop) (rel : bytes) : M Z :=
  let line := journal_line o rel in
  if fits (TXN_PATH_MAX + 4) line then write_full fd line ?; zero (sys_fsync fd)
  else mret (-1).

(** * Applying *)

Definition prepare_target (jfd : path) (rel : bytes) : M Z :=
  let dst := SLASH :: rel in
  let bak := TXN_BACKUP ++ SLASH :: rel in
  if safe_rel rel && fits TXN_PATH_MAX dst && fits TXN_PATH_MAX bak then
    st ← sys_lstat dst;
    match st with
    | inl (Reg _ _) => copy_file dst bak ?; journal jfd JReplace rel ?; parent_dirs dst
    | inl _ => mret (-1)
    | inr ENOENT => journal jfd JNew rel ?; parent_dirs dst
    | inr _ => mret (-1)
    end
  else mret (-1).

Definition apply_delete (jfd : path) (rel : bytes) : M Z :=
  let dst := SLASH :: rel in
  if safe_rel rel && fits TXN_PATH_MAX dst then
    st ← sys_lstat dst;
    match st with
    | inr ENOENT => mret 0
    | inr _ => mret (-1)
    | inl (Reg _ _) => prepare_target jfd rel ?; zero (sys_unlink dst)
    | inl _ => mret (-1)
    end
  else mret (-1).

(** [relbase] extended by one name: "%s%s%s" with a separating '/'. *)
Definition rel_child (relbase n : bytes) : bytes :=
  if decide (relbase = []) then n else relbase ++ SLASH :: n.

Fixpoint apply_stage_at (fuel : nat) (jfd : path) (dir relbase : bytes) : M Z :=
  match fuel with
  | O => mret (-1)
  | S fuel =>
      d ← sys_list dir;
      match d with
      | inr _ => mret (-1)
      | inl names =>
          (fix each (ns : list name) : M Z :=
             match ns with
             | [] => mret 0
             | n :: ns =>
                 let src := dir ++ SLASH :: n in
                 let rel := rel_child relbase n in
                 let dst := SLASH :: rel in
                 if negb (fits TXN_PATH_MAX src && fits TXN_PATH_MAX rel) then mret (-1) else
                 st ← sys_lstat src;
                 match st with
                 | inr _ => mret (-1)
                 | inl Dir => apply_stage_at fuel jfd src rel ?; each ns
                 | inl Special => mret (-1)
                 | inl (Reg _ _) =>
                     prepare_target jfd rel ?;
                     (if fits TXN_PATH_MAX dst then zero (sys_rename src dst) else mret (-1)) ?;
                     each ns
                 end
             end) names
      end
  end.

Definition apply_stage_dir (jfd : path) (dir relbase : bytes) : M Z :=
  apply_stage_at TXN_PATH_MAX jfd dir relbase.

(** * Rollback *)

(** One journal line of [rollback]. *)
Definition rollback_line (line : bytes) : M Z :=
  match cstr line with
  | o :: t :: rest =>
      let rel := match cut LF rest with Some (r, _) => r | None => rest end in
      let dst := SLASH :: rel in
      if ((o =? 82) || (o =? 78)) && (t =? TAB) && safe_rel rel && fits TXN_PATH_MAX dst then
        if o =? 78 then
          r ← sys_unlink dst;
          mret (match r with inl _ => 0 | inr ENOENT => 0 | inr _ => -1 end)
        else
          let bak := TXN_BACKUP ++ SLASH :: rel in
          if fits TXN_PATH_MAX bak then parent_dirs dst ?; copy_file bak dst else mret (-1)
      else mret (-1)
  | _ => mret (-1)
  end.

Fixpoint rollback_lines (ls : list bytes) : M Z :=
  match ls with
  | [] => _ ← sys_sync; mret 0
  | l :: ls => rollback_line l ?; rollback_lines ls
  end.

Definition rollback : M Z :=
  f ← sys_read TXN_JOURNAL;
  match f with
  | inr ENOENT => mret 0
  | inr _ => mret (-1)
  | inl (_, data) => rollback_lines (fgets_lines (TXN_PATH_MAX + 4) data)
  end.

(** * Public operations *)

(** The first line of the state file, as [fgets(state, 32, f)] reads it. *)
Definition read_state : M (option bytes + errno) :=
  f ← sys_read TXN_STATE;
  mret (match f with
        | inr e => inr e
        | inl (_, data) => inl ((λ '(l, _), cstr l) <$> fgets 32 data)
        end).

Definition unlink_pending : M Z :=
  r ← sys_unlink HERALD_UPDATE_PENDING;
  mret (match r with inl _ => 0 | inr ENOENT => 0 | inr _ => -1 end).

Definition txn_recover : M Z :=
  s ← read_state;
  match s with
  | inr ENOENT => mret 0
  | inr _ => mret (-1)
  | inl None => mret (-1)
  | inl (Some state) =>
      if starts_with (B "pending-kernel") state then mret 1 else
      let committed := starts_with (B "committed") state in
      c1 ← (if committed then mret 0 else rollback);
      c2 ← (if committed then unlink_pending else mret 0);
      if (c1 =? 0) && (c2 =? 0) then
        r ← remove_tree HERALD_TXN_DIR;
        mret (if r =? 0 then 0 else -1)
      else mret (-1)
  end.

Definition txn_finalize : M Z :=
  s ← read_state;
  match s with
  | inl (Some state) =>
      if starts_with (B "pending-kernel") state then
        write_state (B "committed") ?;
        unlink_pending ?;
        (_ ← sys_sync; remove_tree HERALD_TXN_DIR)
      else mret (-1)
  | _ => mret (-1)
  end.

Definition txn_rollback : M Z := rollback ?; remove_tree HERALD_TXN_DIR.

Definition txn_stage_existing (s : bytes) : M Z :=
  let src := SLASH :: s in
  if safe_rel s && fits TXN_PATH_MAX src then
    match txn_stage_path TXN_PATH_MAX s with
    | None => mret (-1)
    | Some dst =>
        st ← sys_lstat src;
        match st with
        | inr ENOENT => parent_dirs dst
        | inr _ => mret (-1)
        | inl (Reg _ _) => copy_file src dst
        | inl _ => mret (-1)
        end
    end
  else mret (-1).

(** Create an empty file and make it durable, as [txn_begin] does twice. *)
Definition create_empty (s : bytes) : M Z :=
  f ← sys_open_trunc s 384;
  match f with
  | inr _ => mret (-1)
  | inl fd => zero (sys_fsync fd) ?; zero (sys_close fd)
  end.

Definition txn_begin : M Z :=
  txn_recover ?;
  mkdir_p HERALD_TXN_STAGE ?;
  mkdir_p TXN_BACKUP ?;
  write_state (B "prepared") ?;
  create_empty TXN_JOURNAL ?;
  create_empty TXN_DELETE ?;
  txn_stage_existing (tail HERALD_DB_PATH).

Definition txn_abort : M unit := _ ← txn_recover; mret tt.

(** "/etc/aegis/herald/owners/<id>.list" *)
Definition owner_list (id : bytes) : bytes := HERALD_DB_DIR ++ B "/owners/" ++ id ++ B ".list".

Definition txn_owner_open (id : bytes) : M (path + errno) :=
  if negb (bool_decide (id = [])) && negb (has_char SLASH id) && fits 160 (owner_list id) then
    match txn_stage_path TXN_PATH_MAX (tail (owner_list id)) with
    | None => mret (inr EINVAL)
    | Some s =>
        p ← parent_dirs s;
        if p =? 0 then sys_open_trunc s 420 else mret (inr EINVAL)
    end
  else mret (inr EINVAL).

Definition txn_owner_add (fd : path) (s : bytes) : M Z :=
  if safe_rel s && fits TXN_PATH_MAX s then write_full fd s ?; write_full fd [LF]
  else mret (-1).

(** The lines of an owner list as the three readers see them. *)
Definition owner_lines (data : bytes) : list bytes := chomp <$> fgets_lines TXN_PATH_MAX data.

Definition listed (data : bytes) (s : bytes) : bool :=
  existsb (beq s) (owner_lines data).

Definition queue_delete (s : bytes) : M Z :=
  if safe_rel s then
    f ← sys_open_append TXN_DELETE;
    match f with
    | inr _ => mret (-1)
    | inl fd =>
        a ← (write_full fd s ?; write_full fd [LF] ?; zero (sys_fsync fd));
        if a =? 0 then zero (sys_close fd) else _ ← sys_close fd; mret (-1)
    end
  else mret (-1).

Fixpoint queue_each (ss : list bytes) : M Z :=
  match ss with
  | [] => mret 0
  | s :: ss => queue_delete s ?; queue_each ss
  end.

Definition txn_remove_stale (id new_owner_path : bytes) : M Z :=
  if has_char SLASH id || negb (fits TXN_PATH_MAX (owner_list id)) then mret (-1) else
  o ← sys_read (owner_list id);
  match o with
  | inr ENOENT => mret 0
  | inr _ => mret (-1)
  | inl (_, old) =>
      n ← sys_read new_owner_path;
      match n with
      | inr _ => mret (-1)
      | inl (_, new) =>
          queue_each (filter (λ l, l ≠ [] /\ listed new l = false) (owner_lines old))
      end
  end.

Definition txn_remove_owned (id : bytes) : M Z :=
  if has_char SLASH id || negb (fits TXN_PATH_MAX (owner_list id)) then mret (-1) else
  o ← sys_read (owner_list id);
  match o with
  | inr ENOENT => mret 0
  | inr _ => mret (-1)
  | inl (_, old) =>
      queue_each (filter (λ l, l ≠ []) (owner_lines old)) ?;
      queue_delete (tail (owner_list id))
  end.

Fixpoint delete_each (jfd : path) (ls : list bytes) : M Z :=
  match ls with
  | [] => mret 0
  | l :: ls => (if decide (l = []) then mret 0 else apply_delete jfd l) ?; delete_each jfd ls
  end.

Definition txn_commit : M Z :=
  pend ← sys_access (HERALD_TXN_STAGE ++ HERALD_UPDATE_PENDING);
  let pending := match pend with inl _ => true | inr _ => false end in
  write_state (B "applying") ?;
  (j ← sys_open_append TXN_JOURNAL;
   match j with
   | inr _ => mret (-1)
   | inl jfd =>
       c ← (d ← sys_read TXN_DELETE;
            match d with
            | inr _ => mret (-1)
            | inl (_, data) =>
                delete_each jfd (owner_lines data) ?;
                apply_stage_dir jfd HERALD_TXN_STAGE [] ?;
                (_ ← sys_sync;
                 write_state (if pending then B "pending-kernel" else B "committed"))
            end);
       _ ← sys_close jfd;
       if c =? 0 then
         if pending then mret 0 else _ ← remove_tree HERALD_TXN_DIR; mret 0
       else _ ← rollback; mret (-1)
   end).
