(* ===== verification/HeraldTxnSpecs.v ===== *)
(** Specifications of the file-level helpers of transaction.c, proved in the
    logic of [PosixLogic] and stated against an arbitrary invariant that is
    closed under what the helper does to the tree. *)

From S2P Require Import Prelude CString Posix PosixLogic HeraldTxn.
Local Open Scope Z_scope.

(** * Definitions *)

Definition strict_prefix (a p : path) : Prop := exists b, p = a ++ b /\ b ≠ [].

(** Every existing proper ancestor of [p] is a directory. *)
Definition ancestors_ok (fs : fsys) (p : path) : Prop :=
  forall a b, p = a ++ b -> b ≠ [] -> get fs a = None \/ get fs a = Some Dir.

(** [I] holds of trees only, and survives adding a directory at a missing
    proper ancestor of [p]. *)
Record dir_closed (I : fsys -> Prop) (p : path) : Prop := {
  dc_ok fs : I fs -> fs_ok fs;
  dc_mkdir fs a : I fs -> strict_prefix a p -> get fs a = None ->
    fs_ok (<[a := Dir]> fs) -> I (<[a := Dir]> fs)
}.

(** ... and survives creating, truncating, extending and removing a file at [p]. *)
Record file_closed (I : fsys -> Prop) (p : path) : Prop := {
  fc_dirs : dir_closed I p;
  fc_write fs m d : I fs -> get fs p ≠ Some Dir -> get fs p ≠ Some Special ->
    fs_ok (<[p := Reg m d]> fs) -> I (<[p := Reg m d]> fs);
  fc_unlink fs n : I fs -> get fs p = Some n -> n ≠ Dir -> fs_ok (delete p fs) ->
    I (delete p fs)
}.

(** A string whose last component is a good name, with no ".." before it. *)
Definition tidy (s : bytes) : Prop :=
  exists dir c, s = dir ++ SLASH :: c /\ good_name c /\ Forall good_name (comps dir).

(** * Strings *)

Section Strings.

Lemma rcut_spec c s a b : rcut c s = Some (a, b) <-> s = a ++ c :: b /\ c ∉ b.
Proof.
  unfold rcut. split.
  - destruct (cut c (rev s)) as [[x y]|] eqn:E; [|done]. intros [= <- <-].
    apply cut_spec in E as [E Hx]. split.
    + rewrite <- (rev_involutive s), E, rev_app_distr. simpl. by rewrite <- app_assoc.
    + by rewrite elem_of_rev.
  - intros [-> Hb].
    assert (E : cut c (rev (a ++ c :: b)) = Some (rev b, rev a)).
    { apply cut_spec. split; [|by rewrite elem_of_rev].
      rewrite rev_app_distr. simpl. by rewrite <- app_assoc. }
    by rewrite E, !rev_involutive.
Qed.

Lemma rcut_None c s : rcut c s = None -> c ∉ s.
Proof.
  unfold rcut. destruct (cut c (rev s)) as [[]|] eqn:E; [done|]. intros _.
  apply cut_None in E. by rewrite elem_of_rev in E.
Qed.

Lemma prefixes_from_spec acc s q :
  q ∈ prefixes_from acc s -> exists r, rev acc ++ s = q ++ SLASH :: r.
Proof.
  revert acc. induction s as [|c s IH]; intros acc; simpl; [set_solver|].
  destruct (c =? SLASH) eqn:E.
  - apply Z.eqb_eq in E as ->. intros [-> | H]%elem_of_cons; [by eexists|].
    apply IH in H as [r H]. exists r. rewrite <- H. simpl. by rewrite <- app_assoc.
  - intros H. apply IH in H as [r H]. exists r. rewrite <- H. simpl.
    by rewrite <- app_assoc.
Qed.

Lemma slash_prefixes_spec s q :
  q ∈ slash_prefixes s -> exists r, s = q ++ SLASH :: r.
Proof. destruct s as [|c s]; simpl; [set_solver|]. apply (prefixes_from_spec [c]). Qed.

Lemma tidy_resolve s : tidy s -> resolve s = comps s /\ comps s ≠ [].
Proof.
  intros (dir & c & -> & Hc & Hd).
  destruct (resolve_child dir (comps dir) c eq_refl Hd Hc) as [E1 E2].
  rewrite E1, E2. split; [done|]. by destruct (comps dir).
Qed.

Lemma tidy_wants_dir s : tidy s -> wants_dir s = false.
Proof. intros (dir & c & -> & Hc & _). by apply wants_dir_snoc. Qed.

Lemma tidy_good s : tidy s -> Forall good_name (comps s).
Proof. intros H. rewrite <- (proj1 (tidy_resolve s H)). apply resolve_good. Qed.

Lemma safe_comps cs :
  comps_ok cs = true ->
  Forall (λ c, c = [] \/ (c ≠ [DOT] /\ c ≠ [DOT; DOT])) cs.
Proof.
  induction cs as [|c cs IH]; [constructor|]. intros H.
  assert (Hc : (c = [] /\ cs = []) \/ (comp_ok c = true /\ comps_ok cs = true)).
  { destruct c as [|x c], cs as [|y cs]; simpl in H; try (by left); right;
      apply andb_prop in H; done. }
  destruct Hc as [[-> ->]|[H1 H2]]; [by repeat constructor; left|].
  constructor; [|by apply IH]. right. unfold comp_ok in H1.
  apply negb_true_iff, bool_decide_eq_false in H1. tauto.
Qed.

Lemma safe_rel_good rel : safe_rel rel = true -> Forall good_name (comps rel).
Proof.
  intros H. unfold safe_rel in H. apply andb_prop in H as [_ H].
  apply safe_comps in H. rewrite Forall_forall in H |- *.
  intros c Hc. pose proof (comps_good rel) as Hg. rewrite Forall_forall in Hg.
  destruct (Hg c Hc) as (? & ? & ?). unfold comps in Hc.
  apply list_elem_of_filter in Hc as [_ Hc]. specialize (H c Hc).
  unfold good_name. naive_solver.
Qed.

(** A directory string, a '/', and a safe relative path that names a file. *)
Lemma safe_rel_tidy dir rel :
  safe_rel rel = true -> wants_dir rel = false -> Forall good_name (comps dir) ->
  tidy (dir ++ SLASH :: rel) /\ comps (dir ++ SLASH :: rel) = comps dir ++ comps rel.
Proof.
  intros Hs Hw Hd. split; [|apply comps_app].
  pose proof (safe_rel_good rel Hs) as Hg.
  destruct (rcut SLASH rel) as [[a c]|] eqn:E.
  - apply rcut_spec in E as [-> Hc]. exists (dir ++ SLASH :: a), c.
    split; [by rewrite <- app_assoc|]. rewrite comps_app in Hg.
    apply Forall_app in Hg as [Hg1 Hg2].
    assert (Hcs : comps c = [c]).
    { unfold comps. rewrite split_on_none by done. rewrite filter_cons_True; [done|]. split.
      - intros ->. unfold wants_dir in Hw. apply bool_decide_eq_false in Hw.
        rewrite last_snoc in Hw. done.
      - intros ->. unfold safe_rel in Hs. apply andb_prop in Hs as [_ Hs].
        rewrite split_on_app_sep in Hs. apply safe_comps in Hs.
        apply Forall_app in Hs as [_ Hs]. rewrite split_on_none in Hs by done.
        rewrite Forall_singleton in Hs. by destruct Hs as [|[]]. }
    rewrite Hcs in Hg2. rewrite Forall_singleton in Hg2. split; [done|].
    rewrite comps_app. by apply Forall_app.
  - apply rcut_None in E. exists dir, rel. split; [done|]. split; [|done].
    unfold safe_rel in Hs. boolify. rewrite split_on_none in * by done.
    apply safe_comps in H0. rewrite Forall_singleton in H0. unfold good_name. naive_solver.
Qed.

End Strings.

(** * Directories *)

Section Directories.

Context (b : bool) (I : fsys -> Prop) (p : path).
Hypothesis Hc : dir_closed I p.

Lemma wp_mkdir_ok s fs :
  I fs -> strict_prefix (resolve s) p ->
  wp b (mkdir_ok s) (λ r fs', I fs' /\ (r = 0 \/ r = -1)) I fs.
Proof.
  intros HI Hs. unfold mkdir_ok. wp_step. apply wp_op.
  - destruct (mkdir_cases s fs (dc_ok _ _ Hc _ HI)) as [(Hf & _ & _)|(E & Hg & _ & Hok)].
    + wp_step. rewrite Hf. split; [done|].
      destruct (fs_mkdir s fs).1 as [|[]]; by (left + right).
    + rewrite E. wp_step. split; [|by left]. by apply Hc.
  - intros _. split; [|done]. intros e. wp_step. split; [done|].
    destruct e; by (left + right).
Qed.

Lemma wp_mkdir_each ss fs :
  I fs -> (forall s, s ∈ ss -> strict_prefix (resolve s) p) ->
  wp b (mkdir_each ss) (λ r fs', I fs' /\ (r = 0 \/ r = -1)) I fs.
Proof.
  revert fs. induction ss as [|s ss IH]; intros fs HI Hss; cbn [mkdir_each].
  - wp_step. auto.
  - wp_step. eapply wp_conseq; [apply wp_mkdir_ok; [done|set_solver]| |done].
    intros r fs' [HI' Hr]. cbn beta. case_if; [|auto]. apply IH; [done|set_solver].
Qed.

Lemma wp_mkdir_p dir fs :
  I fs -> (exists c, comps dir ++ [c] = p) -> Forall good_name (comps dir) ->
  wp b (mkdir_p dir) (λ r fs', I fs' /\ (r = 0 \/ r = -1)) I fs.
Proof.
  intros HI [c Hp] Hg. unfold mkdir_p. wp_step; [|wp_step; auto].
  assert (Hpre : forall s r, dir = s ++ SLASH :: r -> strict_prefix (resolve s) p).
  { intros s r ->. rewrite comps_app in Hp, Hg. apply Forall_app in Hg as [Hg _].
    rewrite resolve_plain by (by apply good_no_dotdot).
    exists (comps r ++ [c]). rewrite <- Hp, <- app_assoc. split; [done|].
    by destruct (comps r). }
  wp_step. eapply wp_conseq; [apply wp_mkdir_each; [done|]| |done].
  { intros s Hs. apply slash_prefixes_spec in Hs as [r Hr]. eauto. }
  intros r fs' [HI' Hr]. cbn beta. case_if; [|auto]. apply wp_mkdir_ok; [done|].
  rewrite resolve_plain by (by apply good_no_dotdot). exists [c]. by rewrite <- Hp.
Qed.

Lemma wp_parent_dirs s fs :
  I fs -> tidy s -> comps s = p ->
  wp b (parent_dirs s) (λ r fs', I fs' /\ (r = 0 \/ r = -1)) I fs.
Proof.
  intros HI (dir & c & -> & Hg & Hd) Hp. unfold parent_dirs. wp_step; [|wp_step; auto].
  assert (E : rcut SLASH (dir ++ SLASH :: c) = Some (dir, c)).
  { apply rcut_spec. split; [done|]. apply Hg. }
  rewrite E. wp_step; [wp_step; auto|]. apply wp_mkdir_p; [done| |done].
  exists c. rewrite <- Hp, comps_app. by rewrite (comps_name c).
Qed.

End Directories.

(** * Copying *)

Section Copying.

Context (b : bool).

Lemma wp_write_loop fuel out bs m d0 fs :
  fs !! out = Some (Reg m d0) -> (length bs <= fuel)%nat ->
  wp b (write_loop fuel out bs)
    (λ r fs', exists d', fs' = <[out := Reg m d']> fs /\ (r = 0 -> d' = d0 ++ bs) /\
                         (b = false -> r = 0))
    (λ fs', b = true /\ exists d', fs' = <[out := Reg m d']> fs) fs.
Proof.
  intros Ho Hf. assert (Hid : <[out := Reg m d0]> fs = fs) by (by apply insert_id).
  destruct bs as [|x bs]; simpl in Hf.
  - destruct fuel; cbn [write_loop]; wp_step; exists d0; rewrite app_nil_r; auto.
  - destruct fuel as [|fuel]; [lia|]. cbn [write_loop].
    wp_step. apply wp_write; unfold fs_append; rewrite ?Ho; cbn [fst snd length].
    + rewrite (drop_ge (x :: bs) (S (length bs))) by (simpl; lia).
      destruct fuel; cbn [write_loop]; wp_step; eexists; repeat split; auto.
    + intros ->. split; [intros e; wp_step|split; [done|]]; exists d0; repeat split; auto; lia.
Qed.

Lemma wp_copy_chunks fuel src out data m d0 fs :
  fs !! out = Some (Reg m d0) -> (length data < fuel)%nat ->
  wp b (copy_chunks fuel src out data)
    (λ r fs', exists d', fs' = <[out := Reg m d']> fs /\ (r = 0 -> d' = d0 ++ data) /\
                         (b = false -> r = 0))
    (λ fs', b = true /\ exists d', fs' = <[out := Reg m d']> fs) fs.
Proof.
  revert data d0 fs. induction fuel as [|fuel IH]; intros data d0 fs Ho Hf; [lia|].
  cbn [copy_chunks]. assert (Hid : <[out := Reg m d0]> fs = fs) by (by apply insert_id).
  wp_step. apply wp_pure_op.
  2:{ intros ->. split; [intros e; wp_step|split; [done|]]; exists d0; repeat split; auto; lia. }
  destruct data as [|x data].
  { wp_step. exists d0. rewrite app_nil_r. auto. }
  wp_step. eapply wp_conseq; [apply wp_write_loop; [exact Ho|done]| |done].
  intros r fs' (d' & -> & Hr & Hb). cbn beta. case_if.
  - boolify. rewrite Hr by done.
    eapply wp_conseq; [apply (IH _ (d0 ++ take 16384 (x :: data)))| |].
    + by rewrite lookup_insert_eq.
    + rewrite length_drop. simpl in Hf |- *. lia.
    + intros r' fs'' (d'' & -> & Hr' & Hb'). exists d''. rewrite insert_insert_eq.
      split; [done|]. split; [|done]. intros Hz. rewrite (Hr' Hz).
      by rewrite <- app_assoc, take_drop.
    + intros fs'' (Hbt & d'' & ->). split; [done|]. exists d''. by rewrite insert_insert_eq.
  - boolify. exists d'. repeat split; auto; [lia|]. intros Hf'. rewrite (Hb Hf') in *. done.
Qed.

(** [copy_file] keeps an invariant closed under changes to the destination and
    its ancestors; when it returns 0 the destination holds what the source held. *)
Lemma wp_copy_file I src dst fs :
  file_closed I (resolve dst) -> tidy dst -> I fs ->
  wp b (copy_file src dst)
    (λ r fs', I fs' /\ (r = 0 -> exists d, data_at fs (resolve src) = Some d /\
                                           data_at fs' (resolve dst) = Some d)) I fs.
Proof.
  intros Hc Ht HI. pose proof (fc_dirs _ _ Hc) as Hdc.
  assert (Hdone : forall fs' X, I fs' -> wp b (copy_done dst (-1)) (λ r fs', I fs' /\ (r = 0 -> X fs')) I fs').
  { intros fs' X HI'. unfold copy_done. cbn. wp_step. apply wp_op.
    - destruct (unlink_cases dst fs' (dc_ok _ _ Hdc _ HI')) as [(e & -> & _)|(n & -> & Hn & Hg & _ & Hok)];
        wp_step; (split; [|lia]); [done|]. by eapply fc_unlink.
    - intros _. split; [|done]. intros e. wp_step. split; [done|lia]. }
  unfold copy_file. wp_step. apply wp_op.
  2:{ intros _. split; [|done]. intros e. by apply Hdone. }
  assert (Hr2 : (fs_read src fs).2 = fs).
  { unfold fs_read. by destruct (fs_stat fs src) as [[]|]. }
  rewrite Hr2. destruct ((fs_read src fs).1) as [[mode data]|e] eqn:Er; [|by apply Hdone].
  assert (Hdata : data_at fs (resolve src) = Some data).
  { unfold fs_read in Er. destruct (fs_stat fs src) as [[m d| |]|] eqn:Es; try done.
    injection Er as -> ->. apply stat_inl in Es as [Hg _]. unfold data_at.
    destruct (resolve src); [done|]. simpl in Hg. by rewrite Hg. }
  wp_step. eapply wp_conseq; [apply (wp_parent_dirs b I (resolve dst)); try done| |done].
  { symmetry. by apply tidy_resolve. }
  intros p fs1 [HI1 Hp]. cbn beta. wp_step.
  { wp_step. apply wp_pure_op; [by apply Hdone|]. intros _. split; [|done].
    intros e. by apply Hdone. }
  wp_step. apply wp_op.
  2:{ intros _. split; [|done]. intros e. wp_step. apply wp_pure_op; [by apply Hdone|].
      intros _. split; [|done]. intros e'. by apply Hdone. }
  destruct (open_trunc_cases dst (Z.land mode 511) fs1 (dc_ok _ _ Hdc _ HI1))
    as [(e & ->)|(m & -> & Hnd & Hns & _ & Hne & Hok)].
  { cbn [fst snd]. wp_step. apply wp_pure_op; [by apply Hdone|].
    intros _. split; [|done]. intros e'. by apply Hdone. }
  cbn [fst snd]. wp_step.
  assert (Hfile : forall d', I (<[resolve dst := Reg m d']> (<[resolve dst := Reg m []]> fs1))).
  { intros d'. rewrite insert_insert_eq. apply (fc_write _ _ Hc); try done.
    rewrite <- (insert_insert_eq _ _ (Reg m d') (Reg m [])).
    apply ok_insert; [done|apply resolve_good| |done|].
    - eapply walk_dir; [done|]. simpl. rewrite get_lookup by done. apply lookup_insert_eq.
    - rewrite get_lookup by done. by rewrite lookup_insert_eq. }
  eapply wp_conseq; [apply wp_copy_chunks; [apply lookup_insert_eq|lia]| |].
  2:{ intros fs2 (_ & d' & ->). apply Hfile. }
  intros c fs2 (d' & -> & Hc0 & _). cbn beta.
  set (fs2 := <[resolve dst := Reg m d']> _).
  assert (Hfin : forall code, (code = 0 -> c = 0) ->
     wp b (copy_done dst code) (λ r fs', I fs' /\ (r = 0 -> exists d, data_at fs (resolve src) = Some d /\
                                           data_at fs' (resolve dst) = Some d)) I fs2).
  { intros code Hcode. destruct (decide (code = 0)) as [->|Hz].
    - unfold copy_done. cbn. wp_step. split; [apply Hfile|]. intros _. exists data.
      split; [done|]. unfold data_at, fs2. rewrite lookup_insert_eq.
      rewrite Hc0 by auto. done.
    - assert (Hx : copy_done dst code = copy_done dst (-1)).
      { unfold copy_done. by rewrite (proj2 (Z.eqb_neq code 0)). }
      rewrite Hx. apply Hdone. apply Hfile. }
  assert (Hclose : forall f, (f = 0 -> c = 0) ->
     wp b (k ← sys_close (resolve dst); _ ← sys_close (resolve src);
           copy_done dst (if rc k =? 0 then f else -1))
       (λ r fs', I fs' /\ (r = 0 -> exists d, data_at fs (resolve src) = Some d /\
                                           data_at fs' (resolve dst) = Some d)) I fs2).
  { intros f Hf. wp_step. apply wp_pure_op.
    - wp_step. apply wp_pure_op; [by apply Hfin|]. intros _. split; [|apply Hfile].
      intros e. by apply Hfin.
    - intros _. split; [|apply Hfile]. intros e. wp_step. apply wp_pure_op; [by apply Hfin|].
      intros _. split; [|apply Hfile]. intros e'. by apply Hfin. }
  wp_step. case_if.
  - boolify. wp_step. apply wp_pure_op; [by apply Hclose|]. intros _. split; [|apply Hfile].
    intros e. by apply Hclose.
  - wp_step. by apply Hclose.
Qed.

End Copying.

(** * Progress without faults *)

Section Progress.

Lemma ancestors_ok_walk fs p :
  ancestors_ok fs p -> walk fs [] p = None \/ walk fs [] p = Some ENOENT.
Proof. intros H. apply walk_ENOENT. exact H. Qed.

Lemma ancestors_ok_insert fs p a :
  ancestors_ok fs p -> ancestors_ok (<[a := Dir]> fs) p.
Proof.
  intros H x y Hxy Hy. destruct (decide (a = x)) as [->|].
  - right. destruct x; [done|]. simpl. apply lookup_insert_eq.
  - rewrite get_insert_ne by done. by apply (H x y).
Qed.

Lemma calm_mkdir_ok s a fs :
  fs_ok fs -> resolve s = a -> walk fs [] a = None ->
  get fs a = None \/ get fs a = Some Dir ->
  wp false (mkdir_ok s)
    (λ r fs', r = 0 /\ get fs' a = Some Dir /\ (fs' = fs \/ fs' = <[a := Dir]> fs) /\ fs_ok fs')
    (λ _, False) fs.
Proof.
  intros Hok Ha Hw Hg. unfold mkdir_ok. wp_step. apply wp_op; [|done].
  destruct (mkdir_cases s fs Hok) as [(E2 & _ & E1)|(E & Hn & Hne & Hok')].
  - wp_step. rewrite E2. unfold fs_mkdir in *. rewrite Ha, Hw in *.
    destruct Hg as [Hg|Hg]; rewrite Hg in *; [by destruct (E1 tt)|]. auto.
  - rewrite E. wp_step. rewrite Ha in *. cbn [snd]. split; [done|]. split; [|auto].
    rewrite get_lookup by done. apply lookup_insert_eq.
Qed.

End Progress.
