(* ===== verification/HeraldTxnCalm.v ===== *)
(** Progress of the transaction helpers when no call fails, and what
    [remove_tree] does to a tree in every case.

    The path strings the transaction code builds are [show_path] of a list of
    good names, so the lemmas are stated for paths; the correspondence with the
    relative paths of the journal is proved first. *)

From S2P Require Import Prelude CString Posix PosixLogic HeraldTxn HeraldTxnSpecs.
Local Open Scope Z_scope.

(** * Definitions *)

(** [fs'] is [fs] with directories added at missing proper ancestors of [p]. *)
Record grown (fs : fsys) (p : path) (fs' : fsys) : Prop := {
  gr_ok : fs_ok fs';
  gr_same q : fs' !! q = fs !! q \/ (strict_prefix q p /\ fs !! q = None /\ fs' !! q = Some Dir)
}.

(** [fs'] is [fs] with some of the nodes at or below [p] removed. *)
Record shrunk (p : path) (fs fs' : fsys) : Prop := {
  sh_ok : fs_ok fs';
  sh_same q : fs' !! q = fs !! q \/ (p `prefix_of` q /\ fs' !! q = None)
}.

(** The nonempty proper prefixes of [pre ++ p] from [pre] on, in the order the
    [mkdir] loop meets them. *)
Fixpoint inits_from (pre p : path) : list path :=
  match p with
  | [] => []
  | c :: p => pre :: inits_from (pre ++ [c]) p
  end.

(** * Strings *)

Section ShowPath.

Lemma show_cons c p : show_path (c :: p) = SLASH :: c ++ show_path p.
Proof. done. Qed.

Lemma show_snoc p c : show_path (p ++ [c]) = show_path p ++ SLASH :: c.
Proof. rewrite show_path_app. unfold show_path at 2. cbn. by rewrite app_nil_r. Qed.

Lemma show_join t : t ≠ [] -> show_path t = SLASH :: join SLASH t.
Proof.
  induction t as [|c [|c' t] IH]; intros Hne; [done| |].
  - unfold show_path. cbn. by rewrite app_nil_r.
  - rewrite show_cons, IH by done. done.
Qed.

Lemma resolve_show p : Forall good_name p -> resolve (show_path p) = p.
Proof.
  intros H. rewrite resolve_plain; [by apply show_path_comps|].
  rewrite show_path_comps by done. by apply good_no_dotdot.
Qed.

Lemma tidy_show p c : Forall good_name (p ++ [c]) -> tidy (show_path (p ++ [c])).
Proof.
  intros H. apply Forall_app in H as [Hp Hc]. rewrite Forall_singleton in Hc.
  exists (show_path p), c. rewrite show_snoc, show_path_comps by done. done.
Qed.

Lemma tidy_show_ne p : Forall good_name p -> p ≠ [] -> tidy (show_path p).
Proof. intros Hg Hne. destruct p as [|c p _] using rev_ind; [done|]. by apply tidy_show. Qed.

Lemma safe_comps_all ws :
  comps_ok ws = true -> last ws ≠ Some [] -> Forall (λ c, c ≠ [] /\ c ≠ [DOT] /\ c ≠ [DOT; DOT]) ws.
Proof.
  induction ws as [|w ws IH]; intros H Hl; [constructor|].
  assert (Hc : (w = [] /\ ws = []) \/ (comp_ok w = true /\ comps_ok ws = true)).
  { destruct w as [|x w], ws as [|y ws]; cbn [comps_ok] in H; try (by left); right;
      apply andb_prop in H; done. }
  destruct Hc as [[-> ->]|[H1 H2]]; [done|].
  constructor.
  - unfold comp_ok in H1. boolify. tauto.
  - apply IH; [done|]. destruct ws; [done|exact Hl].
Qed.

Lemma last_split_on s : last (split_on SLASH s) = Some [] -> s = [] \/ wants_dir s = true.
Proof.
  intros H. destruct (rcut SLASH s) as [[a c]|] eqn:E.
  - apply rcut_spec in E as [-> Hc]. rewrite split_on_snoc, last_snoc in H by done. injection H as ->.
    right. unfold wants_dir. by rewrite last_snoc.
  - apply rcut_None in E. rewrite split_on_none in H by done. injection H as ->. by left.
Qed.

(** A safe relative path that does not end in '/' is a joined list of good
    names, and the string after a leading '/' is [show_path] of it. *)
Lemma safe_rel_join rel :
  safe_rel rel = true -> wants_dir rel = false -> rel = join SLASH (comps rel) /\ comps rel ≠ [].
Proof.
  intros Hs Hw. pose proof Hs as Hs'. unfold safe_rel in Hs'. boolify.
  assert (Hl : last (split_on SLASH rel) ≠ Some []).
  { intros [->|E]%last_split_on; congruence. }
  assert (E : comps rel = split_on SLASH rel).
  { unfold comps. apply filter_all. eapply Forall_impl; [by apply safe_comps_all|]. naive_solver. }
  rewrite E. split; [by rewrite join_split|apply split_on_nonnil].
Qed.

Lemma show_comps rel :
  safe_rel rel = true -> wants_dir rel = false -> SLASH :: rel = show_path (comps rel).
Proof. intros Hs Hw. destruct (safe_rel_join rel Hs Hw) as [E Hne]. rewrite show_join by done. by rewrite <- E. Qed.

Lemma comp_ok_good c : good_name c -> comp_ok c = true.
Proof. intros (?&?&?&?). unfold comp_ok. apply negb_true_iff, bool_decide_eq_false. tauto. Qed.

Lemma join_good t :
  Forall good_name t -> t ≠ [] ->
  safe_rel (join SLASH t) = true /\ wants_dir (join SLASH t) = false /\ comps (join SLASH t) = t.
Proof.
  intros Hg Hne.
  assert (Hsp : split_on SLASH (join SLASH t) = t).
  { apply split_join; [done|]. eapply Forall_impl; [exact Hg|]. intros c (?&?&?&?). done. }
  assert (Hc : comps (join SLASH t) = t).
  { unfold comps. rewrite Hsp. apply filter_all. eapply Forall_impl; [exact Hg|]. intros c (?&?&?&?). done. }
  assert (Hsh := show_join t Hne). split_and!; [| |done].
  - unfold safe_rel. rewrite Hsp. apply andb_true_intro. split; [apply andb_true_intro; split|].
    + apply negb_true_iff, bool_decide_eq_false. intros E. rewrite E in Hc. by subst.
    + apply negb_true_iff, not_true_is_false. intros [r E]%starts_with_spec. rewrite E in Hsp.
      rewrite (split_on_app_sep SLASH [] r : split_on SLASH ([SLASH] ++ r) = _) in Hsp. subst t.
      apply Forall_cons in Hg as [(H1 & _) _]. done.
    + clear -Hg. induction Hg as [|c t Hc Hg IH]; [done|]. cbn [comps_ok].
      rewrite (comp_ok_good c Hc), IH. destruct c as [|x c]; [by destruct Hc|]. by destruct t.
  - destruct t as [|c t _] using rev_ind; [done|]. apply Forall_app in Hg as [_ Hg].
    rewrite Forall_singleton in Hg. rewrite show_snoc in Hsh.
    pose proof (wants_dir_snoc (show_path t) c Hg) as Hw. rewrite Hsh in Hw.
    unfold wants_dir in *. destruct (join SLASH (t ++ [c])) eqn:Ej; [done|]. exact Hw.
Qed.

Lemma prefixes_from_app acc c s :
  SLASH ∉ c -> prefixes_from acc (c ++ s) = prefixes_from (rev c ++ acc) s.
Proof.
  revert acc. induction c as [|x c IH]; intros acc Hc; [done|]. cbn [app prefixes_from].
  rewrite not_elem_of_cons in Hc. destruct Hc as [Hx Hc].
  rewrite (proj2 (Z.eqb_neq x SLASH)) by congruence. rewrite IH by done. cbn [rev]. by rewrite <- app_assoc.
Qed.

Lemma prefixes_show pre p :
  Forall good_name p -> prefixes_from (rev (show_path pre)) (show_path p) = show_path <$> inits_from pre p.
Proof.
  intros Hg. revert pre. induction Hg as [|c p Hc Hg IH]; intros pre; [done|].
  rewrite show_cons. cbn [prefixes_from inits_from fmap list_fmap]. rewrite Z.eqb_refl, rev_involutive. f_equal.
  rewrite prefixes_from_app by apply Hc. rewrite <- IH, show_snoc, rev_app_distr. f_equal.
  cbn [rev]. by rewrite <- app_assoc.
Qed.

Lemma slash_prefixes_show c p :
  Forall good_name (c :: p) -> slash_prefixes (show_path (c :: p)) = show_path <$> inits_from [c] p.
Proof.
  intros Hg. inversion_clear Hg as [|? ? Hc Hp]. rewrite show_cons. cbn [slash_prefixes].
  rewrite prefixes_from_app by apply Hc. rewrite <- prefixes_show by done. f_equal.
  unfold show_path. cbn. by rewrite app_nil_r.
Qed.

End ShowPath.

(** * Creating directories and copying, without faults *)

Section Calm.

Implicit Types (fs : fsys) (p q : path).

(** Every existing prefix of [p], itself included, is a directory. *)
Definition can_mkdir fs p : Prop := forall a b, p = a ++ b -> get fs a = None \/ get fs a = Some Dir.

Lemma strict_prefix_irrefl p : strict_prefix p p -> False.
Proof.
  intros (b & E & Hb). apply (f_equal length) in E. rewrite length_app in E. destruct b; [done|]. cbn in E. lia.
Qed.

Lemma grown_refl fs p : fs_ok fs -> grown fs p fs.
Proof. intros H. split; [done|]. auto. Qed.

Lemma grown_closed fs p : dir_closed (grown fs p) p.
Proof.
  split; [intros fs' H; apply H|]. intros fs' a [_ Hs] Ha Hn Hok. split; [done|]. intros q.
  destruct (decide (a = q)) as [->|Hne]; [|rewrite lookup_insert_ne by done; apply Hs].
  rewrite lookup_insert_eq. assert (q ≠ []) by (by intros ->).
  rewrite get_lookup in Hn by done. destruct (Hs q) as [E|(_ & _ & E)]; [|congruence].
  right. split_and!; [done|congruence|done].
Qed.

Lemma grown_get fs p fs' q : grown fs p fs' ->
  get fs' q = get fs q \/ (strict_prefix q p /\ get fs q = None /\ get fs' q = Some Dir).
Proof.
  intros [_ Hs]. destruct q as [|c q]; [by left|]. apply (Hs (c :: q)).
Qed.

Lemma grown_data fs p fs' q : grown fs p fs' -> data_at fs' q = data_at fs q.
Proof. intros [_ Hs]. unfold data_at. destruct (Hs q) as [->|(_ & -> & ->)]; done. Qed.

Lemma grown_kept fs p fs' q n : grown fs p fs' -> fs !! q = Some n -> fs' !! q = Some n.
Proof. intros [_ Hs] H. destruct (Hs q) as [->|(_ & E & _)]; [done|congruence]. Qed.

(** The ancestors of [p] stay passable when directories are added. *)
Lemma can_mkdir_insert fs p a : can_mkdir fs p -> can_mkdir (<[a := Dir]> fs) p.
Proof.
  intros H x y E. destruct (decide (a = x)) as [->|Hne].
  - right. destruct x; [done|]. cbn. by rewrite lookup_insert_eq.
  - rewrite get_insert_ne by done. by apply (H x y).
Qed.

Lemma calm_mkdirs q x p fs :
  fs_ok fs -> Forall good_name (q ++ [x] ++ p) -> get fs q = Some Dir -> can_mkdir fs (q ++ [x] ++ p) ->
  wp false (mkdir_each (show_path <$> inits_from (q ++ [x]) p) ?; mkdir_ok (show_path (q ++ [x] ++ p)))
    (λ r fs', r = 0 /\ get fs' (q ++ [x] ++ p) = Some Dir) (λ _, False) fs.
Proof.
  revert q x fs. induction p as [|y p IH]; intros q x fs Hok Hg Hq Hc.
  - cbn [inits_from fmap list_fmap mkdir_each]. wp_step. wp_step. rewrite app_nil_r in *. cbn [Z.eqb].
    eapply wp_conseq; [apply (calm_mkdir_ok _ (q ++ [x]))| |done].
    + done.
    + by apply resolve_show.
    + by apply walk_of_parent.
    + apply (Hc _ []). by rewrite app_nil_r.
    + intros r fs' (-> & H & _). done.
  - cbn [inits_from fmap list_fmap mkdir_each]. eapply wp_ext; [apply and_then_assoc|]. wp_step.
    eapply wp_conseq; [apply (calm_mkdir_ok _ (q ++ [x]))| |done].
    + done.
    + apply resolve_show. rewrite app_assoc in Hg. by apply Forall_app in Hg as [Hg _].
    + by apply walk_of_parent.
    + apply (Hc _ (y :: p)). by rewrite <- app_assoc.
    + intros r fs' (-> & H & Hfs & Hok'). cbn beta. rewrite Z.eqb_refl.
      specialize (IH (q ++ [x]) y fs' Hok').
      replace ((q ++ [x]) ++ [y] ++ p) with (q ++ [x] ++ y :: p) in IH by (by rewrite <- app_assoc).
      apply IH; [done..|]. destruct Hfs as [->| ->]; [done|by apply can_mkdir_insert].
Qed.

Lemma calm_mkdir_p p c fs :
  fs_ok fs -> Forall good_name p -> p ≠ [] -> fits TXN_PATH_MAX (show_path p) = true -> can_mkdir fs p ->
  wp false (mkdir_p (show_path p))
    (λ r fs', r = 0 /\ get fs' p = Some Dir /\ grown fs (p ++ [c]) fs') (λ _, False) fs.
Proof.
  intros Hok Hg Hne Hf Hc.
  assert (H1 : wp false (mkdir_p (show_path p)) (λ r fs', r = 0 /\ get fs' p = Some Dir) (λ _, False) fs).
  { unfold mkdir_p. rewrite Hf. destruct p as [|x p]; [done|]. rewrite slash_prefixes_show by done.
    exact (calm_mkdirs [] x p fs Hok Hg eq_refl Hc). }
  assert (H2 : wp false (mkdir_p (show_path p)) (λ r fs', grown fs (p ++ [c]) fs' /\ (r = 0 \/ r = -1))
    (grown fs (p ++ [c])) fs).
  { apply (wp_mkdir_p _ _ (p ++ [c])); [apply grown_closed|by apply grown_refl| |];
      rewrite show_path_comps by done; [by exists c|done]. }
  eapply wp_conseq; [exact (wp_conj _ _ _ _ _ _ _ H1 H2)| |]; naive_solver.
Qed.

Lemma rcut_show p c : good_name c -> rcut SLASH (show_path (p ++ [c])) = Some (show_path p, c).
Proof. intros Hc. apply rcut_spec. rewrite show_snoc. split; [done|apply Hc]. Qed.

Lemma fits_shorter a b : (length a <= length b)%nat -> fits TXN_PATH_MAX b = true -> fits TXN_PATH_MAX a = true.
Proof. unfold fits. intros H1 H2. boolify. apply Nat.ltb_lt. lia. Qed.

Lemma calm_parent_dirs p c fs :
  fs_ok fs -> Forall good_name (p ++ [c]) -> fits TXN_PATH_MAX (show_path (p ++ [c])) = true -> can_mkdir fs p ->
  wp false (parent_dirs (show_path (p ++ [c])))
    (λ r fs', r = 0 /\ get fs' p = Some Dir /\ grown fs (p ++ [c]) fs') (λ _, False) fs.
Proof.
  intros Hok Hg Hf Hc. apply Forall_app in Hg as [Hg Hgc]. rewrite Forall_singleton in Hgc.
  unfold parent_dirs. rewrite Hf, rcut_show by done. destruct (decide (show_path p = [])) as [E|E].
  - destruct p as [|x p]; [|done]. wp_step. split_and!; [done..|by apply grown_refl].
  - apply calm_mkdir_p; [done..| | |done].
    + by intros ->.
    + eapply fits_shorter; [|exact Hf]. rewrite show_snoc, length_app. lia.
Qed.

(** A full copy: the destination holds the source's data afterwards, and only
    directories above it were added. *)
Lemma calm_copy_file src p c m data fs :
  let t := p ++ [c] in
  fs_ok fs -> Forall good_name t -> fits TXN_PATH_MAX (show_path t) = true -> can_mkdir fs p ->
  get fs t ≠ Some Dir -> get fs t ≠ Some Special -> fs_stat fs src = inl (Reg m data) ->
  wp false (copy_file src (show_path t))
    (λ r fs', r = 0 /\ fs_ok fs' /\ exists fs1 m', grown fs t fs1 /\ fs' = <[t := Reg m' data]> fs1)
    (λ _, False) fs.
Proof.
  intros t Hok Hg Hf Hc Hd Hs Hst. assert (Hr : resolve (show_path t) = t) by (by apply resolve_show).
  assert (Htd : tidy (show_path t)) by (by apply tidy_show).
  unfold copy_file. wp_step. apply wp_op; [|done]. unfold fs_read. rewrite Hst. cbn [fst snd].
  wp_step. eapply wp_conseq; [by apply calm_parent_dirs| |done].
  intros r fs1 (-> & Hp & Hgr). cbn [Z.eqb negb]. wp_step. apply wp_op; [|done].
  assert (Hgt : get fs1 t = get fs t).
  { destruct (grown_get _ _ _ t Hgr) as [E|(E & _)]; [done|]. by apply strict_prefix_irrefl in E. }
  assert (Hopen : exists m', fs_open_trunc (show_path t) (Z.land m 511) fs1 = (inl t, <[t := Reg m' []]> fs1)).
  { unfold fs_open_trunc. rewrite Hr, (tidy_wants_dir _ Htd).
    assert (walk fs1 [] t = None) as -> by (apply walk_of_parent; [apply Hgr|done]).
    destruct (get fs1 t) as [[]|] eqn:E; try (exfalso; congruence); by eexists. }
  destruct Hopen as [m' Ho]. rewrite Ho. cbn [fst snd].
  assert (Hok1 : fs_ok (<[t := Reg m' []]> fs1)).
  { destruct (open_trunc_cases (show_path t) (Z.land m 511) fs1 (gr_ok _ _ _ Hgr)) as [(e & E)|(m2 & E & _ & _ & _ & _ & H)].
    - congruence.
    - rewrite Hr in E, H. rewrite E in Ho. injection Ho as Ho. rewrite <- Ho. done. }
  wp_step. eapply wp_conseq; [apply (wp_copy_chunks false _ _ _ _ m' []); [apply lookup_insert_eq|lia]| |].
  2: { intros fs2 (? & _). done. }
  intros cc fs2 (d' & -> & Hc0 & Hb0). rewrite (Hb0 eq_refl) in *. rewrite (Hc0 eq_refl). cbn [Z.eqb app].
  rewrite insert_insert_eq.
  wp_step. wp_step. apply wp_pure_op; [|done]. wp_step. apply wp_pure_op; [|done]. wp_step. apply wp_pure_op; [|done].
  cbn. wp_step. split; [done|]. split; [|by exists fs1, m'].
  rewrite <- (insert_insert_eq _ _ (Reg m' data) (Reg m' [])).
  assert (t ≠ []) by (unfold t; by destruct p).
  apply ok_insert; [done..| |done|].
  - eapply walk_dir; [done|]. cbn. rewrite get_lookup by done. apply lookup_insert_eq.
  - rewrite get_lookup by done. by rewrite lookup_insert_eq.
Qed.

End Calm.

(** * Removing a tree *)

(** The inner loop of [remove_tree_at]. *)
Definition remove_each (fuel : nat) (s : bytes) : list name -> M Z :=
  fix each (ns : list name) : M Z :=
    match ns with
    | [] =>
        r ← sys_rmdir s;
        mret (match r with inl _ => 0 | inr ENOENT => 0 | inr _ => -1 end)
    | n :: ns =>
        let child := s ++ SLASH :: n in
        if negb (fits TXN_PATH_MAX child) then mret (-1) else
        st ← sys_lstat child;
        match st with
        | inr _ => mret (-1)
        | inl Dir => remove_tree_at fuel child ?; each ns
        | inl _ => zero (sys_unlink child) ?; each ns
        end
    end.

Lemma remove_each_nil fuel s :
  remove_each fuel s [] =
    (r ← sys_rmdir s; mret (match r with inl _ => 0 | inr ENOENT => 0 | inr _ => -1 end)).
Proof. reflexivity. Qed.

Lemma remove_each_cons fuel s n ns :
  remove_each fuel s (n :: ns) =
    (if negb (fits TXN_PATH_MAX (s ++ SLASH :: n)) then mret (-1) else
     st ← sys_lstat (s ++ SLASH :: n);
     match st with
     | inr _ => mret (-1)
     | inl Dir => remove_tree_at fuel (s ++ SLASH :: n) ?; remove_each fuel s ns
     | inl _ => zero (sys_unlink (s ++ SLASH :: n)) ?; remove_each fuel s ns
     end).
Proof. reflexivity. Qed.

Lemma remove_tree_S fuel s :
  remove_tree_at (S fuel) s =
    (d ← sys_list s;
     match d with
     | inr ENOENT => mret 0
     | inr _ => mret (-1)
     | inl names => remove_each fuel s names
     end).
Proof. reflexivity. Qed.

Section Removing.

Implicit Types (fs : fsys) (p q : path).

Lemma shrunk_refl p fs : fs_ok fs -> shrunk p fs fs.
Proof. intros H. split; auto. Qed.

Lemma shrunk_trans p q fs fs1 fs2 :
  p `prefix_of` q -> shrunk p fs fs1 -> shrunk q fs1 fs2 -> shrunk p fs fs2.
Proof.
  intros Hpq [_ H1] [Hok H2]. split; [done|]. intros x.
  destruct (H2 x) as [->|[Hx E]]; [apply H1|]. right. split; [by etrans|done].
Qed.

Lemma shrunk_delete p q fs fs1 :
  p `prefix_of` q -> shrunk p fs fs1 -> fs_ok (delete q fs1) -> shrunk p fs (delete q fs1).
Proof.
  intros Hpq H1 Hok. eapply (shrunk_trans p q); [done..|]. split; [done|]. intros x.
  destruct (decide (q = x)) as [->|]; [right; by rewrite lookup_delete_eq|left; by apply lookup_delete_ne].
Qed.

Lemma shrunk_data p fs fs' x : shrunk p fs fs' -> ~ p `prefix_of` x -> data_at fs' x = data_at fs x.
Proof. intros [_ H] Hx. unfold data_at. by destruct (H x) as [->|[? _]]. Qed.

Lemma children_good fs q : fs_ok fs -> Forall good_name (children fs q).
Proof.
  intros Hok. apply Forall_forall. intros c [n Hn]%children_spec. apply (ok_names _ Hok) in Hn.
  apply Forall_app in Hn as [_ Hn]. by rewrite Forall_singleton in Hn.
Qed.

(** What [opendir]/[readdir] deliver of a directory. *)
Lemma list_names s fs r :
  match (fs_list s fs).1, r with
  | inl l, inl l' => l' ≡ₚ l
  | inr e, inr e' => e = e'
  | _, _ => False
  end ->
  match r with
  | inl names => fs_stat fs s = inl Dir /\ names ≡ₚ children fs (resolve s)
  | inr e => fs_stat fs s ≠ inl Dir
  end.
Proof. unfold fs_list. destruct (fs_stat fs s) as [[]|] eqn:E, r; cbn; try done; congruence. Qed.

Lemma wp_remove_each b fuel p q ns fs0 :
  (forall q fs, p `prefix_of` q -> Forall good_name q -> q ≠ [] -> shrunk p fs0 fs ->
     wp b (remove_tree_at fuel (show_path q)) (λ _, shrunk p fs0) (shrunk p fs0) fs) ->
  forall fs, p `prefix_of` q -> Forall good_name q -> q ≠ [] -> Forall good_name ns -> shrunk p fs0 fs ->
  wp b (remove_each fuel (show_path q) ns) (λ _, shrunk p fs0) (shrunk p fs0) fs.
Proof.
  intros Hrec. induction ns as [|n ns IH]; intros fs Hpq Hg Hne Hn Hs.
  - rewrite remove_each_nil. wp_step. apply wp_op; [|intros _; split; [intros e; by wp_step|done]].
    wp_step. destruct (rmdir_cases (show_path q) fs (sh_ok _ _ _ Hs)) as [(e & ->)|(-> & _ & Hok)]; [done|].
    rewrite resolve_show in * by done. by apply shrunk_delete.
  - inversion_clear Hn as [|? ? Hn1 Hn2]. rewrite remove_each_cons, <- show_snoc. wp_step; [by wp_step|].
    assert (Hgc : Forall good_name (q ++ [n])) by (apply Forall_app; split; [done|by apply Forall_singleton]).
    assert (Hpc : p `prefix_of` q ++ [n]) by (by apply prefix_app_r).
    assert (Hu : wp b (zero (sys_unlink (show_path (q ++ [n]))) ?; remove_each fuel (show_path q) ns)
                  (λ _, shrunk p fs0) (shrunk p fs0) fs).
    { wp_step. wp_step. apply wp_op; [|intros _; split; [done|done]].
      destruct (unlink_cases (show_path (q ++ [n])) fs (sh_ok _ _ _ Hs)) as [(e & -> & _)|(x & -> & _ & _ & _ & Hok)];
        [done|]. rewrite resolve_show in * by done. cbn. apply IH; try done. by apply shrunk_delete. }
    wp_step. apply wp_pure_op; [|intros _; split; [intros e; by wp_step|done]].
    destruct (fs_stat fs (show_path (q ++ [n]))) as [[]|]; [exact Hu| |exact Hu|by wp_step].
    wp_step. eapply wp_conseq; [apply Hrec; try done; by destruct q| |done].
    intros r fs' Hs'. cbn beta. case_if; [by apply IH|done].
Qed.

Lemma wp_remove_tree_at b fuel p fs0 :
  forall q fs, p `prefix_of` q -> Forall good_name q -> q ≠ [] -> shrunk p fs0 fs ->
  wp b (remove_tree_at fuel (show_path q)) (λ _, shrunk p fs0) (shrunk p fs0) fs.
Proof.
  induction fuel as [|fuel IH]; intros q fs Hpq Hg Hne Hs; [cbn [remove_tree_at]; by wp_step|].
  rewrite remove_tree_S. wp_step. apply wp_list.
  - intros r Hr. apply list_names in Hr. destruct r as [names|e].
    + destruct Hr as [_ Hr]. rewrite resolve_show in Hr by done.
      eapply wp_remove_each; try done. rewrite Hr. apply children_good, Hs.
    + destruct e; by wp_step.
  - intros _. split; [|done]. intros e. destruct e; by wp_step.
Qed.

(** Whatever fails, [remove_tree] only removes nodes of its tree. *)
Lemma wp_remove_tree b q fs :
  fs_ok fs -> Forall good_name q -> q ≠ [] ->
  wp b (remove_tree (show_path q)) (λ _, shrunk q fs) (shrunk q fs) fs.
Proof. intros. apply wp_remove_tree_at; try done. by apply shrunk_refl. Qed.

(** Paths below [q] that fit the buffers. *)
Definition short (q : path) (fs : fsys) : Prop :=
  forall p n, q `prefix_of` p -> fs !! p = Some n -> fits TXN_PATH_MAX (show_path p) = true.

Lemma short_shrunk q q' fs fs' : short q fs -> shrunk q' fs fs' -> short q fs'.
Proof. intros H [_ Hs] p n Hp Hn. destruct (Hs p) as [E|[_ E]]; [|congruence]. apply (H p n); [done|congruence]. Qed.

Lemma short_sub q c fs : short q fs -> short (q ++ [c]) fs.
Proof. intros H p n Hp. apply H. etrans; [|exact Hp]. by apply prefix_app_r. Qed.

Lemma prefix_snoc_not q (c : name) : ~ (q ++ [c]) `prefix_of` q.
Proof. intros H%prefix_length. rewrite length_app in H. cbn in H. lia. Qed.

Lemma calm_remove_each fuel q :
  (forall c fs, fs_ok fs -> Forall good_name (q ++ [c]) -> short (q ++ [c]) fs ->
     fs !! (q ++ [c]) = Some Dir ->
     wp false (remove_tree_at fuel (show_path (q ++ [c])))
       (λ r fs', r = 0 /\ fs' !! (q ++ [c]) = None /\ shrunk (q ++ [c]) fs fs') (λ _, False) fs) ->
  forall ns fs, fs_ok fs -> Forall good_name q -> q ≠ [] -> short q fs -> fs !! q = Some Dir ->
  NoDup ns -> (forall c, is_Some (fs !! (q ++ [c])) <-> c ∈ ns) ->
  wp false (remove_each fuel (show_path q) ns) (λ r fs', r = 0 /\ fs' !! q = None) (λ _, False) fs.
Proof.
  intros Hrec ns. induction ns as [|n ns IH]; intros fs Hok Hg Hne Hsh Hq Hnd Hns.
  - rewrite remove_each_nil. wp_step. apply wp_op; [|done]. unfold fs_rmdir.
    rewrite (stat_dir _ Hok), resolve_show by (rewrite ?resolve_show, ?get_lookup; done).
    rewrite decide_True. { wp_step. split; [done|]. apply lookup_delete_eq. }
    apply elem_of_nil_inv. intros c [n Hc]%children_spec.
    assert (Hin : c ∈ []) by (apply Hns; by eexists). by apply elem_of_nil in Hin.
  - inversion_clear Hnd as [|? ? Hni Hnd']. rewrite remove_each_cons, <- show_snoc.
    assert (Hex : is_Some (fs !! (q ++ [n]))) by (apply Hns; set_solver). destruct Hex as [x Hx].
    assert (Hgc : Forall good_name (q ++ [n])) by (by apply (ok_names _ Hok) in Hx).
    rewrite (Hsh (q ++ [n]) x) by (done || by apply prefix_app_r). cbn [negb].
    assert (Hst : fs_stat fs (show_path (q ++ [n])) = inl x).
    { apply stat_get; [done| |by apply tidy_wants_dir, tidy_show].
      rewrite resolve_show by done. by destruct q. }
    assert (Hnext : forall fs', shrunk (q ++ [n]) fs fs' -> fs' !! (q ++ [n]) = None ->
       wp false (remove_each fuel (show_path q) ns) (λ r fs', r = 0 /\ fs' !! q = None) (λ _, False) fs').
    { intros fs' Hs Hno. apply IH; try done; [apply Hs|by eapply short_shrunk| |].
      - destruct (sh_same _ _ _ Hs q) as [->|[Hp _]]; [done|]. by apply prefix_snoc_not in Hp.
      - intros c. destruct (decide (c = n)) as [->|Hc].
        + rewrite Hno. split; [intros [? ?]; done|done].
        + destruct (sh_same _ _ _ Hs (q ++ [c])) as [->|[[k Hp] _]]; [rewrite Hns; set_solver|].
          exfalso. rewrite <- app_assoc in Hp. apply app_inj_1 in Hp as [_ [= ->]]; done. }
    wp_step. apply wp_pure_op; [|done]. rewrite Hst.
    destruct (decide (x = Dir)) as [->|Hxd].
    + wp_step. eapply wp_conseq; [apply Hrec; try done; by apply short_sub| |done].
      intros r fs' (-> & Hno & Hs). by apply Hnext.
    + assert (Hu : wp false (zero (sys_unlink (show_path (q ++ [n]))) ?; remove_each fuel (show_path q) ns)
                  (λ r fs', r = 0 /\ fs' !! q = None) (λ _, False) fs); [|by destruct x].
      wp_step. wp_step. apply wp_op; [|done].
      destruct (unlink_cases (show_path (q ++ [n])) fs Hok) as [(e & E & _)|(y & -> & _ & _ & _ & Hok')].
      { unfold fs_unlink in E. rewrite Hst in E. by destruct x. }
      rewrite resolve_show in * by done. cbn. apply Hnext; [|apply lookup_delete_eq].
      apply shrunk_delete; [done| |done]. by apply shrunk_refl.
Qed.

Lemma calm_remove_tree_at fuel q fs :
  (TXN_PATH_MAX <= length (show_path q) + fuel)%nat ->
  fs_ok fs -> Forall good_name q -> q ≠ [] -> short q fs -> fs !! q = Some Dir ->
  wp false (remove_tree_at fuel (show_path q)) (λ r fs', r = 0 /\ fs' !! q = None) (λ _, False) fs.
Proof.
  revert q fs. induction fuel as [|fuel IH]; intros q fs Hf Hok Hg Hne Hsh Hq.
  - specialize (Hsh q Dir ltac:(done) Hq). unfold fits in Hsh. boolify. lia.
  - rewrite remove_tree_S. wp_step. apply wp_list; [|done]. intros r Hr. apply list_names in Hr.
    assert (Hst : fs_stat fs (show_path q) = inl Dir).
    { apply stat_dir; [done|]. rewrite resolve_show by done. by rewrite get_lookup. }
    destruct r as [names|e]; [|done]. destruct Hr as [_ Hr]. rewrite resolve_show in Hr by done.
    apply calm_remove_each; try done.
    + intros c fs' Hok' Hg' Hsh' Hd'. eapply wp_conseq; [apply wp_conj| |].
      * apply IH; try done; [|by destruct q]. rewrite show_snoc, length_app. cbn. lia.
      * apply wp_remove_tree_at; [done|done|by destruct q|by apply shrunk_refl].
      * naive_solver.
      * naive_solver.
    + rewrite Hr. apply children_NoDup.
    + intros c. by rewrite Hr, children_spec.
Qed.

(** Without faults the whole tree goes, provided its paths fit the buffers. *)
Lemma calm_remove_tree q fs :
  fs_ok fs -> Forall good_name q -> q ≠ [] -> short q fs -> fs !! q = Some Dir ->
  wp false (remove_tree (show_path q)) (λ r fs', r = 0 /\ fs' !! q = None /\ shrunk q fs fs') (λ _, False) fs.
Proof.
  intros Hok Hg Hne Hsh Hq. eapply wp_conseq; [apply wp_conj| |].
  - apply calm_remove_tree_at; try done. lia.
  - by apply wp_remove_tree.
  - naive_solver.
  - naive_solver.
Qed.

End Removing.
