(* ===== verification/HeraldTxnJournal.v ===== *)
(** The invariant that makes an interrupted transaction recoverable, and what
    preserves it.

    [jinv s J fs] relates the tree [fs] at any moment of a commit to the tree
    [fs0] it started from: the state file says [s], the journal holds exactly
    the entries [J], every entry can be undone (the backup of a replaced file
    holds its old contents, a new file did not exist), and apart from the
    targets in [J] every live file is as it was.  The lemmas show that each
    step of transaction.c preserves it at every fault and crash point, and
    that a rollback without faults restores [fs0]'s data from it. *)

From S2P Require Import Prelude CString Posix PosixLogic HeraldTxn HeraldTxnSpecs HeraldTxnCalm.
Local Open Scope Z_scope.

(** * Definitions *)

Definition p_txn : path := [B "etc"; B "aegis"; B "herald"; B "transaction"].
Definition p_stage : path := p_txn ++ [B "stage"].
Definition p_backup : path := p_txn ++ [B "backup"].
Definition p_state : path := p_txn ++ [B "state"].
Definition p_tmp : path := p_txn ++ [B "state.tmp"].
Definition p_journal : path := p_txn ++ [B "journal"].
Definition p_delete : path := p_txn ++ [B "delete"].

(** A live path: not in the transaction's own directory. *)
Definition outside (p : path) : Prop := ~ p_txn `prefix_of` p.

Definition entry : Type := jop * path.

Definition encode_entry (e : entry) : bytes := journal_line e.1 (join SLASH e.2).

Section Invariant.

(** The tree before the commit, and the paths it may change. *)
Context (fs0 : fsys) (tgt : path -> Prop).

Record entry_ok (fs : fsys) (e : entry) : Prop := {
  en_tgt : tgt e.2;
  en_fits : fits TXN_PATH_MAX (show_path e.2) = true;
  en_fits_backup : fits TXN_PATH_MAX (show_path (p_backup ++ e.2)) = true;
  en_line : LF ∉ join SLASH e.2 /\ NUL ∉ join SLASH e.2;
  en_undo : match e.1 with
            | JReplace => exists d, data_at fs0 e.2 = Some d /\ data_at fs (p_backup ++ e.2) = Some d
            | JNew => get fs0 e.2 = None
            end;
  en_file : get fs e.2 ≠ Some Dir /\ get fs e.2 ≠ Some Special;
  en_ancestors : ancestors_ok fs e.2
}.

Record jinv (s : bytes) (J : list entry) (fs : fsys) : Prop := {
  ji_ok : fs_ok fs;
  ji_state : data_at fs p_state = Some (s ++ [LF]);
  ji_journal : data_at fs p_journal = Some (concat (encode_entry <$> J));
  ji_entries : Forall (entry_ok fs) J;
  ji_frame p : outside p -> p ∉ J.*2 -> data_at fs p = data_at fs0 p;
  ji_keep p n : outside p -> get fs0 p = Some n -> n = Dir \/ n = Special -> get fs p = Some n;
  ji_short : short p_txn fs
}.

(** What the targets of a transaction must satisfy. *)
Record targets_ok : Prop := {
  to_good t : tgt t -> Forall good_name t /\ t ≠ [];
  to_outside t : tgt t -> outside t;
  to_antichain t t' : tgt t -> tgt t' -> t `prefix_of` t' -> t = t'
}.

End Invariant.

(** * Paths *)

Section Paths.

Lemma good_txn_path c : good_name c -> Forall good_name (p_txn ++ [c]).
Proof.
  intros Hc. apply Forall_app. split; [|by apply Forall_singleton].
  unfold p_txn, good_name. repeat constructor; vm_compute; set_solver.
Qed.

Lemma good_names :
  Forall good_name p_txn /\ Forall good_name p_stage /\ Forall good_name p_backup /\
  Forall good_name p_state /\ Forall good_name p_tmp /\ Forall good_name p_journal.
Proof.
  assert (H : forall s, s ∈ [B "stage"; B "backup"; B "state"; B "state.tmp"; B "journal"] -> good_name s).
  { apply Forall_forall. unfold good_name. repeat constructor; vm_compute; set_solver. }
  split_and!; [|apply good_txn_path, H; set_solver..].
  pose proof (good_txn_path (B "stage") ltac:(apply H; set_solver)) as Hg. by apply Forall_app in Hg as [? _].
Qed.

Lemma show_constants :
  show_path p_txn = HERALD_TXN_DIR /\ show_path p_stage = HERALD_TXN_STAGE /\
  show_path p_backup = TXN_BACKUP /\ show_path p_state = TXN_STATE /\
  show_path p_tmp = TXN_STATE ++ B ".tmp" /\ show_path p_journal = TXN_JOURNAL /\ show_path p_delete = TXN_DELETE.
Proof. repeat split. Qed.

(** Paths with different names below the transaction directory differ. *)
Lemma txn_child_ne a b (p q : path) : a ≠ b -> (p_txn ++ [a]) ++ p ≠ (p_txn ++ [b]) ++ q.
Proof.
  intros H E. rewrite <- !app_assoc in E. apply app_inv_head in E. by injection E.
Qed.

Lemma inside_child c p : p_txn `prefix_of` (p_txn ++ [c]) ++ p.
Proof. rewrite <- app_assoc. by exists ([c] ++ p). Qed.

Lemma outside_prefix a p : outside p -> a `prefix_of` p -> outside a.
Proof. intros H Ha Hp. apply H. by etrans. Qed.

Lemma strict_prefix_prefix a p : strict_prefix a p -> a `prefix_of` p.
Proof. intros (b & -> & _). by exists b. Qed.

Lemma prefix_child_cases a b x (t : path) :
  a ++ b = (p_txn ++ [x]) ++ t -> (p_txn ++ [x]) `prefix_of` a \/ a `prefix_of` p_txn.
Proof.
  intros E. rewrite <- app_assoc in E. destruct (app_eq_inv _ _ _ _ E) as [(k & -> & H)|(k & -> & _)].
  - destruct k as [|y k]; [right; by rewrite app_nil_r|]. injection H as <- _. left.
    exists k. by rewrite <- app_assoc.
  - right. by exists k.
Qed.

End Paths.

(** * What preserves the invariant *)

Section Preservation.

Context (fs0 : fsys) (tgt : path -> Prop).
Hypothesis Htgt : targets_ok tgt.

Implicit Types (fs : fsys) (p q t : path) (J : list entry) (s : bytes).
Local Notation jinv := (jinv fs0 tgt).
Local Notation entry_ok := (entry_ok fs0 tgt).

Lemma data_insert_ne fs q n p : q ≠ p -> data_at (<[q := n]> fs) p = data_at fs p.
Proof. intros H. unfold data_at. by rewrite lookup_insert_ne. Qed.

Lemma data_delete_ne fs q p : q ≠ p -> data_at (delete q fs) p = data_at fs p.
Proof. intros H. unfold data_at. by rewrite lookup_delete_ne. Qed.

Lemma data_insert_eq fs q m d : data_at (<[q := Reg m d]> fs) q = Some d.
Proof. unfold data_at. by rewrite lookup_insert_eq. Qed.

Lemma jinv_txn_dir s J fs : jinv s J fs -> get fs p_txn = Some Dir.
Proof.
  intros H. pose proof (ji_state _ _ _ _ _ H) as Hs. unfold data_at in Hs.
  destruct (fs !! p_state) as [n|] eqn:E; [|done]. by apply (ok_parent _ (ji_ok _ _ _ _ _ H)) in E.
Qed.

(** Every prefix of the transaction directory exists, as a directory. *)
Lemma txn_prefix_dir s J fs a : jinv s J fs -> a `prefix_of` p_txn -> get fs a = Some Dir.
Proof.
  intros H [k Hk]. pose proof (jinv_txn_dir s J fs H) as Hd. rewrite Hk in Hd.
  destruct (decide (k = [])) as [->|]; [by rewrite app_nil_r in Hd|].
  eapply get_prefix_dir; [apply H|exact Hd|done].
Qed.

(** A change that touches neither the records nor the shape the entries need. *)
Lemma jinv_change s J fs fs' :
  jinv s J fs -> fs_ok fs' ->
  data_at fs' p_state = data_at fs p_state -> data_at fs' p_journal = data_at fs p_journal ->
  (forall t, (JReplace, t) ∈ J -> data_at fs' (p_backup ++ t) = data_at fs (p_backup ++ t)) ->
  short p_txn fs' ->
  (forall p, outside p -> p ∉ J.*2 -> data_at fs' p = data_at fs p) ->
  (forall p n, outside p -> get fs p = Some n -> n = Dir \/ n = Special -> get fs' p = Some n) ->
  (forall t, t ∈ J.*2 -> get fs' t ≠ Some Dir /\ get fs' t ≠ Some Special /\ ancestors_ok fs' t) ->
  jinv s J fs'.
Proof.
  intros HJ Hok Hs Hj Hb Hsh Hf Hk He. destruct HJ as [H1 H2 H3 H4 H5 H6 H7].
  split; [done|congruence|congruence| | | |done].
  - rewrite Forall_forall in H4 |- *. intros [o t] Hin. destruct (H4 _ Hin) as [E1 E2 E3 E4 E5 E6 E7].
    assert (Hin2 : t ∈ J.*2) by (apply list_elem_of_fmap; by exists (o, t)).
    destruct (He t Hin2) as (? & ? & ?). split; try done. cbn in *. destruct o; [|done].
    destruct E5 as (d & Hd0 & Hd). exists d. split; [done|]. by rewrite Hb.
  - intros p Hp Hpj. rewrite Hf by done. by apply H5.
  - intros p n Hp Hn Hn'. apply Hk; [done|by apply H6|done].
Qed.

Lemma entry_in s J fs t : jinv s J fs -> t ∈ J.*2 -> exists o, (o, t) ∈ J /\ entry_ok fs (o, t).
Proof.
  intros HJ ([o t'] & -> & Hin)%list_elem_of_fmap. exists o. split; [done|].
  pose proof (ji_entries _ _ _ _ _ HJ) as H. rewrite Forall_forall in H. by apply H.
Qed.

(** 1: a change at a path [q] strictly inside the transaction directory. *)
Lemma jinv_inside s J fs fs' q :
  jinv s J fs -> fs_ok fs' -> p_txn `prefix_of` q ->
  (forall p, p ≠ q -> fs' !! p = fs !! p) -> q ≠ p_txn ->
  q ≠ p_state -> q ≠ p_journal -> (forall t, (JReplace, t) ∈ J -> q ≠ p_backup ++ t) ->
  (is_Some (fs' !! q) -> fits TXN_PATH_MAX (show_path q) = true) ->
  jinv s J fs'.
Proof.
  intros HJ Hok Hq Hsame Hqt Hqs Hqj Hqb Hfit.
  assert (Hd : forall p, p ≠ q -> data_at fs' p = data_at fs p) by (intros; unfold data_at; by rewrite Hsame).
  assert (Hout : forall p, outside p -> p ≠ q) by (intros p Hp ->; by apply Hp).
  assert (Hg : forall p, outside p -> get fs' p = get fs p).
  { intros p Hp. destruct p; [done|]. cbn. apply Hsame. by apply Hout. }
  apply (jinv_change s J fs); try done.
  - by apply Hd.
  - by apply Hd.
  - intros t Ht. apply Hd. intros E. by apply (Hqb t).
  - intros p n Hp Hn. destruct (decide (p = q)) as [->|Hne]; [apply Hfit; by eexists|].
    rewrite Hsame in Hn by done. by apply (ji_short _ _ _ _ _ HJ p n).
  - intros p Hp _. by apply Hd, Hout.
  - intros p n Hp. by rewrite Hg.
  - intros t Ht. destruct (entry_in s J fs t HJ Ht) as (o & _ & He).
    pose proof (to_outside _ Htgt t (en_tgt _ _ _ _ He)) as Ho. rewrite Hg by done.
    destruct (en_file _ _ _ _ He). split; [done|]. split; [done|].
    intros a b Hab Hb. rewrite Hg; [by apply (en_ancestors _ _ _ _ He a b)|].
    eapply outside_prefix; [exact Ho|]. rewrite Hab. by exists b.
Qed.

(** 2: a directory created above a target. *)
Lemma jinv_mkdir s J fs q t :
  jinv s J fs -> tgt t -> strict_prefix q t -> get fs q = None -> fs_ok (<[q := Dir]> fs) ->
  jinv s J (<[q := Dir]> fs).
Proof.
  intros HJ Ht Hq Hn Hok.
  assert (Ho : outside q).
  { eapply outside_prefix; [by apply (to_outside _ Htgt)|by apply strict_prefix_prefix]. }
  assert (Hne : forall p, p_txn `prefix_of` p -> q ≠ p) by (intros p Hp ->; by apply Ho).
  assert (Hq0 : fs !! q = None) by (rewrite <- get_lookup; [done|by intros ->]).
  apply (jinv_change s J fs); try done.
  - apply data_insert_ne, Hne. apply (inside_child _ []).
  - apply data_insert_ne, Hne. apply (inside_child _ []).
  - intros t' _. apply data_insert_ne, Hne, inside_child.
  - intros p n Hp Hpn. rewrite lookup_insert_ne in Hpn by (by apply Hne). by apply (ji_short _ _ _ _ _ HJ p n).
  - intros p _ _. destruct (decide (q = p)) as [->|]; [|by apply data_insert_ne].
    unfold data_at. by rewrite lookup_insert_eq, Hq0.
  - intros p n _ Hp _. rewrite get_insert_ne; [done|]. intros ->. congruence.
  - intros t' Ht'. destruct (entry_in s J fs t' HJ Ht') as (o & _ & He).
    assert (Hqt : q ≠ t').
    { intros ->. assert (t' = t) as ->; [|by apply strict_prefix_irrefl in Hq].
      apply (to_antichain _ Htgt); [apply (en_tgt _ _ _ _ He)|done|by apply strict_prefix_prefix]. }
    rewrite get_insert_ne by done. destruct (en_file _ _ _ _ He). split; [done|]. split; [done|].
    apply ancestors_ok_insert, (en_ancestors _ _ _ _ He).
Qed.

(** 3: the file at a journaled target written or removed. *)
Lemma jinv_target s J fs fs' t :
  jinv s J fs -> t ∈ J.*2 -> fs_ok fs' -> (forall p, p ≠ t -> fs' !! p = fs !! p) ->
  get fs' t ≠ Some Dir -> get fs' t ≠ Some Special -> jinv s J fs'.
Proof.
  intros HJ Ht Hok Hsame Hd Hs. destruct (entry_in s J fs t HJ Ht) as (o & _ & He).
  pose proof (en_tgt _ _ _ _ He) as Htt. pose proof (to_outside _ Htgt t Htt) as Ho.
  assert (Hda : forall p, p ≠ t -> data_at fs' p = data_at fs p) by (intros; unfold data_at; by rewrite Hsame).
  assert (Hin : forall p, p_txn `prefix_of` p -> p ≠ t) by (intros p Hp ->; by apply Ho).
  assert (Hg : forall p, p ≠ t -> get fs' p = get fs p) by (intros p Hp; destruct p; [done|by apply Hsame]).
  apply (jinv_change s J fs); try done.
  - apply Hda, Hin, (inside_child _ []).
  - apply Hda, Hin, (inside_child _ []).
  - intros t' _. apply Hda, Hin, inside_child.
  - intros p n Hp Hn. rewrite Hsame in Hn by (by apply Hin). by apply (ji_short _ _ _ _ _ HJ p n).
  - intros p _ Hp. apply Hda. by intros ->.
  - intros p n _ Hn Hn'. rewrite Hg; [done|]. intros ->. destruct (en_file _ _ _ _ He). cbn in *.
    destruct Hn' as [-> | ->]; congruence.
  - intros t' Ht'. destruct (entry_in s J fs t' HJ Ht') as (o' & _ & He').
    pose proof (en_tgt _ _ _ _ He') as Htt'. cbn in Htt, Htt'.
    split_and!.
    + destruct (decide (t' = t)) as [->|]; [done|]. rewrite Hg by done. apply He'.
    + destruct (decide (t' = t)) as [->|]; [done|]. rewrite Hg by done. apply He'.
    + intros a b Hab Hb. rewrite Hg; [by apply (en_ancestors _ _ _ _ He' a b)|].
      intros ->. assert (t = t') as E by (apply (to_antichain _ Htgt); [done..|]; rewrite Hab; by exists b).
      apply (strict_prefix_irrefl t'). exists b. split; [|done]. by rewrite <- E at 2.
Qed.

Lemma jinv_dir_closed s J t : tgt t -> dir_closed (jinv s J) t.
Proof.
  intros Ht. split; [intros fs H; apply H|]. intros fs a HJ Ha Hn Hok. by apply (jinv_mkdir s J fs a t).
Qed.

Lemma jinv_file_closed s J t : t ∈ J.*2 -> tgt t -> file_closed (jinv s J) t.
Proof.
  intros Hin Ht. assert (Hne : t ≠ []) by (by apply (to_good _ Htgt)). split.
  - by apply jinv_dir_closed.
  - intros fs m d HJ _ _ Hok. apply (jinv_target s J fs _ t); try done.
    + intros p Hp. by apply lookup_insert_ne.
    + rewrite get_lookup by done. by rewrite lookup_insert_eq.
    + rewrite get_lookup by done. by rewrite lookup_insert_eq.
  - intros fs n HJ _ _ Hok. apply (jinv_target s J fs _ t); try done.
    + intros p Hp. by apply lookup_delete_ne.
    + rewrite get_lookup by done. by rewrite lookup_delete_eq.
    + rewrite get_lookup by done. by rewrite lookup_delete_eq.
Qed.

(** 4: the backup of a target that has no entry yet; nothing outside the backup
    tree changes. *)
Definition only_backup (fs fs' : fsys) : Prop := forall p, ~ p_backup `prefix_of` p -> fs' !! p = fs !! p.

Lemma backup_file_closed s J fs t :
  t ∉ J.*2 -> t ≠ [] -> fits TXN_PATH_MAX (show_path (p_backup ++ t)) = true ->
  file_closed (λ fs', jinv s J fs' /\ only_backup fs fs') (p_backup ++ t).
Proof.
  intros Hnot Hne Hfit.
  assert (Hedit : forall fs1 fs2 q, jinv s J fs1 /\ only_backup fs fs1 -> fs_ok fs2 -> p_backup `prefix_of` q ->
    (forall p, p ≠ q -> fs2 !! p = fs1 !! p) -> (forall t, (JReplace, t) ∈ J -> q ≠ p_backup ++ t) ->
    fits TXN_PATH_MAX (show_path q) = true -> jinv s J fs2 /\ only_backup fs fs2).
  { intros fs1 fs2 q [HJ Ho] Hok [k Hq] Hsame Hb Hf. subst q. split.
    - apply (jinv_inside s J fs1 fs2 (p_backup ++ k) HJ Hok (inside_child _ _) Hsame).
      + intros E. apply (f_equal length) in E. rewrite length_app in E. cbn in E. lia.
      + rewrite <- (app_nil_r p_state). by apply txn_child_ne.
      + rewrite <- (app_nil_r p_journal). by apply txn_child_ne.
      + done.
      + done.
    - intros p Hp. rewrite Hsame; [by apply Ho|]. intros ->. apply Hp. by exists k. }
  assert (Hself : forall t', (JReplace, t') ∈ J -> p_backup ++ t ≠ p_backup ++ t').
  { intros t' Ht' E. apply app_inv_head in E as <-. apply Hnot. apply list_elem_of_fmap. by exists (JReplace, t). }
  split; [split|..].
  - intros fs1 [HJ _]. apply HJ.
  - intros fs1 a HI (b & Hab & Hb) Hn Hok. apply (Hedit fs1 _ a HI Hok).
    + destruct (prefix_child_cases a b (B "backup") t (eq_sym Hab)) as [H|H]; [done|].
      rewrite (txn_prefix_dir s J fs1 a (proj1 HI) H) in Hn. done.
    + intros p Hp. by apply lookup_insert_ne.
    + intros t' Ht' ->. pose proof (ji_entries _ _ _ _ _ (proj1 HI)) as H. rewrite Forall_forall in H.
      destruct (en_undo _ _ _ _ (H _ Ht')) as (d & _ & Hd). cbn [snd] in Hd. unfold data_at in Hd.
      change (get fs1 (p_backup ++ t')) with (fs1 !! (p_backup ++ t')) in Hn. by rewrite Hn in Hd.
    + eapply fits_shorter; [|exact Hfit]. rewrite Hab, show_path_app, length_app. lia.
  - intros fs1 m d HI _ _ Hok. apply (Hedit fs1 _ (p_backup ++ t) HI Hok); try done.
    + by exists t.
    + intros p Hp. by apply lookup_insert_ne.
  - intros fs1 n HI _ _ Hok. apply (Hedit fs1 _ (p_backup ++ t) HI Hok); try done.
    + by exists t.
    + intros p Hp. by apply lookup_delete_ne.
Qed.

(** ** The state file *)

(** Nothing but the state file and its temporary changed. *)
Definition only_state (fs fs' : fsys) : Prop :=
  forall p, p ≠ p_tmp -> p ≠ p_state -> fs' !! p = fs !! p.

Lemma jinv_tmp s J fs fs' :
  jinv s J fs -> fs_ok fs' -> (forall p, p ≠ p_tmp -> fs' !! p = fs !! p) -> jinv s J fs'.
Proof.
  intros HJ Hok Hs. apply (jinv_inside s J fs fs' p_tmp HJ Hok (inside_child _ []) Hs); done.
Qed.

(** Replacing the state file moves the invariant to the new state. *)
Lemma jinv_set_state s s' J fs fs' m :
  jinv s J fs -> fs_ok fs' -> fs' !! p_state = Some (Reg m (s' ++ [LF])) ->
  only_state fs fs' -> fs' !! p_tmp = None -> jinv s' J fs'.
Proof.
  intros HJ Hok Hst Hs Htmp.
  assert (Hd : forall p, p ≠ p_tmp -> p ≠ p_state -> data_at fs' p = data_at fs p)
    by (intros; unfold data_at; by rewrite Hs).
  assert (Hout : forall p, outside p -> p ≠ p_tmp /\ p ≠ p_state).
  { intros p Hp. split; intros ->; apply Hp, (inside_child _ []). }
  assert (Hg : forall p, outside p -> get fs' p = get fs p).
  { intros p Hp. destruct p; [done|]. destruct (Hout _ Hp). by apply Hs. }
  destruct HJ as [H1 H2 H3 H4 H5 H6 H7]. split; [done| | | | | |].
  - unfold data_at. by rewrite Hst.
  - rewrite Hd; [done|..]; done.
  - eapply Forall_impl; [exact H4|]. intros [o t] [E1 E2 E3 E4 E5 E6 E7]. cbn in *.
    pose proof (to_outside _ Htgt t E1) as Ho. split; try done; cbn.
    + destruct o; [|done]. destruct E5 as (d & Hd0 & Hdb). exists d. split; [done|].
      by rewrite Hd.
    + by rewrite Hg.
    + intros a b Hab Hb. rewrite Hg; [by apply (E7 a b)|]. eapply outside_prefix; [exact Ho|].
      rewrite Hab. by exists b.
  - intros p Hp Hj. destruct (Hout p Hp). rewrite Hd by done. by apply H5.
  - intros p n Hp. rewrite Hg by done. by apply H6.
  - intros p n Hp Hn. destruct (decide (p = p_state)) as [->|]; [done|].
    destruct (decide (p = p_tmp)) as [->|]; [done|]. apply (H7 p n); [done|]. by rewrite <- Hs.
Qed.

Lemma wp_mkdir_txn b s J fs :
  jinv s J fs -> wp b (mkdir_p HERALD_TXN_DIR) (λ r fs', fs' = fs /\ (r = 0 \/ r = -1)) (λ fs', fs' = fs) fs.
Proof.
  intros HJ. apply (wp_mkdir_p b (λ fs', fs' = fs) (p_txn ++ [[65]])); [|done|by exists [65]|].
  - split; [intros ? ->; apply HJ|]. intros fs' a -> (k & Hk & Hkne) Hn _. exfalso.
    rewrite <- (app_nil_r (p_txn ++ [[65]])) in Hk.
    destruct (prefix_child_cases a k [65] [] (eq_sym Hk)) as [[x ->]|Hp].
    + apply (f_equal length) in Hk. rewrite !length_app in Hk. destruct k; [done|]. cbn in Hk. lia.
    + rewrite (txn_prefix_dir s J fs a HJ Hp) in Hn. done.
  - change (comps HERALD_TXN_DIR) with (comps (show_path p_txn)). rewrite show_path_comps; apply good_names.
Qed.

(** The body of [write_state] after the temporary is open: it fills it. *)
Lemma wp_fill_tmp b st m fs :
  wp b (write_full p_tmp st ?; write_full p_tmp [LF] ?; zero (sys_fsync p_tmp))
    (λ r fs', exists d, fs' = <[p_tmp := Reg m d]> fs /\ (r = 0 -> d = st ++ [LF]))
    (λ fs', exists d, fs' = <[p_tmp := Reg m d]> fs) (<[p_tmp := Reg m []]> fs).
Proof.
  wp_step. wp_step.
  2: { intros _. split; [|by eexists]. cbn. eexists. split; [done|lia]. }
  unfold fs_append. rewrite lookup_insert_eq. cbn [fst snd Z.eqb app]. rewrite insert_insert_eq.
  wp_step. wp_step.
  2: { intros _. split; [|by eexists]. cbn. eexists. split; [done|lia]. }
  unfold fs_append. rewrite lookup_insert_eq. cbn [fst snd Z.eqb]. rewrite insert_insert_eq.
  wp_step. apply wp_pure_op; [|intros _; split; [intros e|]]; eexists; done.
Qed.

Lemma wp_write_state b s s' J fs :
  jinv s J fs ->
  wp b (write_state s')
    (λ r fs', only_state fs fs' /\ (r = 0 /\ jinv s' J fs' \/ r = -1 /\ jinv s J fs'))
    (λ fs', only_state fs fs' /\ (jinv s J fs' \/ jinv s' J fs')) fs.
Proof.
  intros HJ. unfold write_state. destruct show_constants as (_ & _ & _ & <- & <- & _).
  destruct good_names as (_ & _ & _ & Gs & Gt & _).
  assert (Hrefl : only_state fs fs) by done.
  wp_step. eapply wp_conseq; [by eapply wp_mkdir_txn| |intros ? ->; by auto].
  intros r fs' [-> Hr]. cbn beta. destruct (r =? 0); [|by auto]. clear r Hr.
  wp_step. apply wp_op; [|intros _; split; [intros e; wp_step|]; by auto].
  destruct (open_trunc_cases (show_path p_tmp) 384 fs (ji_ok _ _ _ _ _ HJ))
    as [(e & ->)|(m & -> & _ & _ & _ & _ & Hok)]; [cbn; wp_step; by auto|].
  rewrite (resolve_show _ Gt) in *. cbn [fst snd].
  assert (Hokd : forall d, fs_ok (<[p_tmp := Reg m d]> fs)).
  { intros d. rewrite <- (insert_insert_eq fs p_tmp (Reg m d) (Reg m [])).
    apply ok_insert; [done|done| |done|by cbn; rewrite lookup_insert_eq].
    apply (walk_dir _ Hok [] p_tmp (Reg m [])). rewrite app_nil_l, get_lookup by done. apply lookup_insert_eq. }
  assert (HJd : forall d, jinv s J (<[p_tmp := Reg m d]> fs)).
  { intros d. apply (jinv_tmp s J fs); [done..|]. intros p Hp. by apply lookup_insert_ne. }
  assert (Hod : forall d, only_state fs (<[p_tmp := Reg m d]> fs)).
  { intros d p Hp _. by apply lookup_insert_ne. }
  wp_step. eapply wp_conseq; [apply wp_fill_tmp| |intros ? [d ->]; by auto].
  intros a fs1 (d & -> & Ha). cbn beta.
  assert (Hun : wp b (_ ← sys_unlink (show_path p_tmp); mret (-1))
    (λ r fs', only_state fs fs' /\ (r = 0 /\ jinv s' J fs' \/ r = -1 /\ jinv s J fs'))
    (λ fs', only_state fs fs' /\ (jinv s J fs' \/ jinv s' J fs')) (<[p_tmp := Reg m d]> fs)).
  { wp_step. apply wp_op; [|intros _; split; [intros e; wp_step|]; by auto].
    destruct (unlink_cases (show_path p_tmp) _ (Hokd d)) as [(e & -> & _)|(n & -> & _ & _ & _ & Hok')];
      rewrite ?(resolve_show _ Gt) in *; cbn [fst snd]; wp_step; [by auto|]. rewrite delete_insert_eq in *.
    split; [intros p Hp _; by apply lookup_delete_ne|]. right. split; [done|].
    apply (jinv_tmp s J fs); [done..|]. intros p Hp. by apply lookup_delete_ne. }
  wp_step. apply wp_pure_op.
  2: { intros _. split; [|by auto]. intros e. rewrite andb_false_r. exact Hun. }
  cbn [rc]. destruct (a =? 0) eqn:Ea; [|exact Hun]. boolify. rewrite (Ha Ea) in *. cbn [andb Z.eqb].
  wp_step. apply wp_op; [|intros _; split; [intros e; exact Hun|by auto]].
  destruct (rename_cases (show_path p_tmp) (show_path p_state) _ (Hokd (s' ++ [LF])))
    as [(e & ->)|(m' & d' & -> & Hsrc & _ & _ & _ & Hok')]; [exact Hun|].
  rewrite (resolve_show _ Gt), (resolve_show _ Gs) in *. cbn [fst snd].
  rewrite lookup_insert_eq in Hsrc. injection Hsrc as <- <-. rewrite delete_insert_eq in *.
  assert (Hos : only_state fs (<[p_state := Reg m (s' ++ [LF])]> (delete p_tmp fs))).
  { intros p H1 H2. by rewrite lookup_insert_ne, lookup_delete_ne. }
  assert (HJ' : jinv s' J (<[p_state := Reg m (s' ++ [LF])]> (delete p_tmp fs))).
  { apply (jinv_set_state s s' J fs _ m); [done|done|by rewrite lookup_insert_eq|done|].
    rewrite lookup_insert_ne by done. apply lookup_delete_eq. }
  wp_step. apply wp_pure_op; [|intros _; split; [intros e|]]; try wp_step; by auto.
Qed.

(** ** Journal entries *)

Lemma jinv_append s J fs e m d :
  jinv s J fs -> entry_ok fs e -> fs !! p_journal = Some (Reg m d) ->
  jinv s (J ++ [e]) (<[p_journal := Reg m (d ++ encode_entry e)]> fs).
Proof.
  intros HJ He Hj. set (fs' := <[p_journal := _]> fs).
  assert (Hok : fs_ok fs').
  { destruct (append_cases p_journal (encode_entry e) fs (ji_ok _ _ _ _ _ HJ)) as [(? & _ & H)|(m' & d' & H & _ & Hok)].
    - unfold data_at in H. by rewrite Hj in H.
    - rewrite Hj in H. by injection H as <- <-. }
  assert (Hs : forall p, p ≠ p_journal -> fs' !! p = fs !! p) by (intros; by apply lookup_insert_ne).
  assert (Hd : forall p, p ≠ p_journal -> data_at fs' p = data_at fs p) by (intros; by apply data_insert_ne).
  assert (Hg : forall p, p ≠ p_journal -> get fs' p = get fs p) by (intros; by apply get_insert_ne).
  assert (Hout : forall p, outside p -> p ≠ p_journal) by (intros p Hp ->; apply Hp, (inside_child _ [])).
  assert (Hent : forall e, entry_ok fs e -> entry_ok fs' e).
  { intros [o t] [E1 E2 E3 E4 E5 E6 E7]. cbn in *. pose proof (to_outside _ Htgt t E1) as Ho.
    split; try done; cbn.
    - destruct o; [|done]. destruct E5 as (d' & ? & ?). exists d'. by rewrite Hd.
    - by rewrite Hg by (by apply Hout).
    - intros a b Hab Hb. rewrite Hg; [by apply (E7 a b)|]. apply Hout. eapply outside_prefix; [exact Ho|].
      rewrite Hab. by exists b. }
  destruct HJ as [H1 H2 H3 H4 H5 H6 H7]. split; [done| | | | | |].
  - by rewrite Hd.
  - unfold fs'. rewrite data_insert_eq. unfold data_at in H3. rewrite Hj in H3. injection H3 as ->.
    rewrite fmap_app, concat_app. cbn. by rewrite app_nil_r.
  - apply Forall_app. split; [by eapply Forall_impl|]. apply Forall_singleton. by apply Hent.
  - intros p Hp Hin. rewrite Hd by (by apply Hout). apply H5; [done|]. rewrite fmap_app in Hin. set_solver.
  - intros p n Hp. rewrite Hg by (by apply Hout). by apply H6.
  - intros p n Hp Hn. destruct (decide (p = p_journal)) as [->|]; [done|]. apply (H7 p n); [done|]. by rewrite <- Hs.
Qed.

Definition only_journal (fs fs' : fsys) : Prop := forall p, p ≠ p_journal -> fs' !! p = fs !! p.

Lemma wp_journal b s J fs e :
  jinv s J fs -> entry_ok fs e ->
  wp b (journal p_journal e.1 (join SLASH e.2))
    (λ r fs', only_journal fs fs' /\ ((r ≠ 0 /\ jinv s J fs') \/ jinv s (J ++ [e]) fs'))
    (λ fs', jinv s J fs' \/ jinv s (J ++ [e]) fs') fs.
Proof.
  intros HJ He. unfold journal. fold (encode_entry e).
  assert (Hrefl : only_journal fs fs) by done.
  wp_step; [|wp_step; split; [done|left; split; [lia|done]]].
  wp_step. wp_step.
  2: { intros _. split; [|by left]. cbn. split; [done|]. left. split; [lia|done]. }
  destruct (append_cases p_journal (encode_entry e) fs (ji_ok _ _ _ _ _ HJ)) as [(x & -> & H)|(m & d & Hj & -> & Hok)].
  { cbn. split; [done|]. left. split; [lia|done]. }
  pose proof (jinv_append s J fs e m d HJ He Hj) as HJ'. cbn [fst snd Z.eqb].
  assert (Hoj : only_journal fs (<[p_journal := Reg m (d ++ encode_entry e)]> fs))
    by (intros p Hp; by apply lookup_insert_ne).
  wp_step. apply wp_pure_op; [by auto|]. intros _. split; [by auto|by right].
Qed.

(** ** [prepare_target] *)

(** A missing path: the existing part of the way to it is directories. *)
Lemma walk_ancestors fs pre rest :
  fs_ok fs -> get fs pre = Some Dir -> walk fs pre rest = None \/ walk fs pre rest = Some ENOENT ->
  forall a b, rest = a ++ b -> b ≠ [] -> get fs (pre ++ a) = None \/ get fs (pre ++ a) = Some Dir.
Proof.
  intros Hok. revert pre. induction rest as [|c rest IH]; intros pre Hpre Hw a b Hab Hb.
  { symmetry in Hab. apply app_nil in Hab as [-> ->]. done. }
  destruct a as [|x a]; [rewrite app_nil_r; by right|]. injection Hab as <- Hab.
  destruct rest as [|c' rest].
  { symmetry in Hab. apply app_nil in Hab as [-> ->]. done. }
  cbn [walk] in Hw. change (pre ++ c :: a) with (pre ++ [c] ++ a). rewrite app_assoc.
  destruct (get fs (pre ++ [c])) as [[]|] eqn:E; [by destruct Hw| |by destruct Hw|].
  - apply (IH (pre ++ [c]) E Hw a b); done.
  - left. destruct (get fs ((pre ++ [c]) ++ a)) as [n|] eqn:En; [|done]. exfalso.
    destruct (decide (a = [])) as [->|Ha]; [rewrite app_nil_r in En; congruence|].
    rewrite (get_prefix_dir fs Hok _ _ _ En Ha) in E. done.
Qed.

Lemma stat_missing fs t :
  fs_ok fs -> Forall good_name t -> t ≠ [] -> fs_stat fs (show_path t) = inr ENOENT ->
  get fs t = None /\ ancestors_ok fs t.
Proof.
  intros Hok Hg Hne H. assert (Hr : resolve (show_path t) = t) by (by apply resolve_show). split.
  - apply stat_ENOENT in H; [|done]. by rewrite Hr in H.
  - unfold fs_stat in H. rewrite Hr in H. intros a b. apply (walk_ancestors fs []); [done..|].
    destruct (walk fs [] t) as [e|]; [right; congruence|by left].
Qed.

Lemma stat_found fs t n :
  Forall good_name t -> fs_stat fs (show_path t) = inl n -> get fs t = Some n.
Proof. intros Hg [H _]%stat_inl. by rewrite resolve_show in H. Qed.

Lemma ancestors_of_node fs t n : fs_ok fs -> get fs t = Some n -> ancestors_ok fs t.
Proof. intros Hok Hn a b -> Hb. right. by eapply get_prefix_dir. Qed.

(** Neither staged files nor the contents of live files changed. *)
Definition quiet (fs fs' : fsys) : Prop :=
  (forall p, p_stage `prefix_of` p -> fs' !! p = fs !! p) /\
  (forall p, outside p -> data_at fs' p = data_at fs p).

Lemma quiet_trans fs1 fs2 fs3 : quiet fs1 fs2 -> quiet fs2 fs3 -> quiet fs1 fs3.
Proof. intros [H1 H2] [H3 H4]. split; intros p Hp; [by rewrite H3, H1|by rewrite H4, H2]. Qed.

Lemma only_backup_quiet fs fs' : only_backup fs fs' -> quiet fs fs'.
Proof.
  intros H. split; intros p Hp.
  - apply H. intros [k ->]. destruct Hp as [k' E]. symmetry in E. by apply txn_child_ne in E.
  - unfold data_at. rewrite H; [done|]. intros [k ->]. apply Hp, inside_child.
Qed.

Lemma only_journal_quiet fs fs' : only_journal fs fs' -> quiet fs fs'.
Proof.
  intros H. split; intros p Hp.
  - apply H. intros ->. destruct Hp as [k' E]. done.
  - unfold data_at. rewrite H; [done|]. intros ->. apply Hp, (inside_child _ []).
Qed.

Lemma grown_quiet fs t fs' : outside t -> grown fs t fs' -> quiet fs fs'.
Proof.
  intros Ho Hg. split; intros p Hp; [|by eapply grown_data].
  destruct (gr_same _ _ _ Hg p) as [E|(Hs & _)]; [done|]. exfalso. apply Ho.
  etrans; [|by apply strict_prefix_prefix]. etrans; [|exact Hp]. by exists [B "stage"].
Qed.

(** The parent directories of a live target. *)
Lemma wp_live_parents b s J fs t :
  jinv s J fs -> tgt t ->
  wp b (parent_dirs (show_path t)) (λ _ fs', jinv s J fs' /\ quiet fs fs') (jinv s J) fs.
Proof.
  intros HJ Ht. destruct (to_good _ Htgt t Ht) as [Hg Hne].
  assert (Hc : dir_closed (λ fs', jinv s J fs' /\ grown fs t fs') t).
  { split; [intros fs' [H _]; apply H|]. intros fs' a [H1 H2] Ha Hn Hok. split.
    - by apply (dc_mkdir _ _ (jinv_dir_closed s J t Ht)).
    - by apply (dc_mkdir _ _ (grown_closed fs t)). }
  eapply wp_conseq; [apply (wp_parent_dirs b _ t Hc)| |].
  - split; [done|]. apply grown_refl, HJ.
  - by apply tidy_show_ne.
  - by apply show_path_comps.
  - intros r fs' [[H1 H2] _]. split; [done|]. eapply grown_quiet; [by apply (to_outside _ Htgt)|done].
  - intros fs' [H _]. done.
Qed.

Lemma backup_string t : t ≠ [] -> TXN_BACKUP ++ SLASH :: join SLASH t = show_path (p_backup ++ t).
Proof. intros H. by rewrite show_path_app, (show_join t H). Qed.

Lemma outside_not_backup p : outside p -> ~ p_backup `prefix_of` p.
Proof. intros Ho [k ->]. apply Ho, inside_child. Qed.

Lemma prefix_length_le (a b : path) (c : name) : length a = length (b ++ [c]) -> a `prefix_of` b -> False.
Proof. intros H [k ->]. rewrite !length_app in H. cbn in H. lia. Qed.

(** The journal step and the parent directories, once the entry may be made. *)
Lemma wp_record b s J fs fs1 e :
  jinv s J fs1 -> quiet fs fs1 -> entry_ok fs1 e ->
  wp b (journal p_journal e.1 (join SLASH e.2) ?; parent_dirs (show_path e.2))
    (λ r fs', quiet fs fs' /\ ((r ≠ 0 /\ jinv s J fs') \/ jinv s (J ++ [e]) fs'))
    (λ fs', exists J', jinv s J' fs') fs1.
Proof.
  intros HJ Hq He. wp_step. eapply wp_conseq; [by apply wp_journal| |intros fs' [H|H]; by eexists].
  intros r fs' [Ho Hr]. pose proof (quiet_trans _ _ _ Hq (only_journal_quiet _ _ Ho)) as Hq'.
  destruct (r =? 0) eqn:Er; boolify.
  - destruct Hr as [[Hr _]|HJ']; [done|].
    eapply wp_conseq; [by apply (wp_live_parents b s (J ++ [e])), He| |intros ? H; by eexists].
    intros r' fs'' [H1 H2]. split; [by eapply quiet_trans|by right].
  - split; [done|]. destruct Hr as [[_ H]|H]; [left; split; [lia|done]|by right].
Qed.

Lemma wp_prepare_target b s J fs t :
  jinv s J fs -> tgt t -> t ∉ J.*2 -> LF ∉ join SLASH t -> NUL ∉ join SLASH t ->
  wp b (prepare_target p_journal (join SLASH t))
    (λ r fs', quiet fs fs' /\ ((r ≠ 0 /\ jinv s J fs') \/ exists o, jinv s (J ++ [(o, t)]) fs'))
    (λ fs', exists J', jinv s J' fs') fs.
Proof.
  intros HJ Ht Hnew Hlf Hnul. destruct (to_good _ Htgt t Ht) as [Hg Hne].
  pose proof (to_outside _ Htgt t Ht) as Hout. pose proof (ji_ok _ _ _ _ _ HJ) as Hok.
  assert (Hq0 : quiet fs fs) by done.
  assert (Hfail : quiet fs fs /\ ((-1 ≠ 0 /\ jinv s J fs) \/ exists o, jinv s (J ++ [(o, t)]) fs))
    by (split; [done|]; left; split; [lia|done]).
  unfold prepare_target. rewrite backup_string, <- show_join by done. wp_step; [|by wp_step]. boolify.
  wp_step. unfold sys_lstat, pure_op. apply wp_op_injected; cbn [fst snd].
  2: { intros _. split; [|by eexists]. intros e He. destruct e; try done; by wp_step. }
  destruct (fs_stat fs (show_path t)) as [n|e] eqn:Est.
  - apply stat_found in Est; [|done]. destruct n as [m d| |]; [|by wp_step..].
    assert (Hd : data_at fs t = Some d).
    { unfold data_at. rewrite get_lookup in Est by done. by rewrite Est. }
    wp_step. eapply wp_conseq; [apply (wp_copy_file b (λ fs', jinv s J fs' /\ only_backup fs fs'))| |].
    + rewrite resolve_show; [by apply backup_file_closed|]. apply Forall_app. split; [apply good_names|done].
    + apply tidy_show_ne; [|by destruct t]. apply Forall_app. split; [apply good_names|done].
    + done.
    + intros r fs1 [[HJ1 Ho] Hr]. cbn beta. pose proof (only_backup_quiet _ _ Ho) as Hq1.
      destruct (r =? 0) eqn:Er; boolify; [|split; [done|]; left; split; [lia|done]].
      destruct (Hr Er) as (d' & Hsrc & Hbak). rewrite resolve_show in Hsrc by done.
      rewrite resolve_show in Hbak by (apply Forall_app; split; [apply good_names|done]).
      assert (Et : get fs1 t = Some (Reg m d)).
      { rewrite get_lookup in * by done. rewrite (Ho t); [done|by apply outside_not_backup]. }
      eapply wp_conseq; [apply (wp_record b s J fs fs1 (JReplace, t)); [done..|]| |].
      * split; cbn; try done.
        -- exists d. rewrite <- (ji_frame _ _ _ _ _ HJ t), Hd by done. split; [done|].
           rewrite Hsrc in Hd. injection Hd as ->. exact Hbak.
        -- rewrite Et. done.
        -- eapply ancestors_of_node; [apply HJ1|exact Et].
      * intros r' fs' [Hq' Hr']. split; [done|]. destruct Hr' as [|]; [by left|right; by eexists].
      * done.
    + intros fs' [HJ' _]. by eexists.
  - assert (e = ENOENT \/ e ≠ ENOENT) as [->|He] by (destruct e; by (left + right)); [|by destruct e; wp_step].
    apply stat_missing in Est as [Hn Ha]; [|done..].
    eapply wp_conseq; [apply (wp_record b s J fs fs (JNew, t)); [done..|]| |].
    + split; cbn; try done; [|by rewrite Hn].
      destruct (get fs0 t) as [n|] eqn:E0; [|done]. exfalso. destruct n as [m d| |].
      * assert (data_at fs t = Some d) as Hd.
        { rewrite (ji_frame _ _ _ _ _ HJ t) by done. unfold data_at. rewrite get_lookup in E0 by done. by rewrite E0. }
        unfold data_at in Hd. rewrite get_lookup in Hn by done. by rewrite Hn in Hd.
      * rewrite (ji_keep _ _ _ _ _ HJ t Dir) in Hn; auto; done.
      * rewrite (ji_keep _ _ _ _ _ HJ t Special) in Hn; auto; done.
    + intros r' fs' [Hq' Hr']. split; [done|]. destruct Hr' as [|]; [by left|right; by eexists].
    + done.
Qed.

(** ** Rollback under faults *)

Lemma encode_parse e rest :
  NUL ∉ join SLASH e.2 -> LF ∉ join SLASH e.2 ->
  cstr (encode_entry e) = jop_char e.1 :: TAB :: join SLASH e.2 ++ [LF] /\
  cut LF (join SLASH e.2 ++ LF :: rest) = Some (join SLASH e.2, rest).
Proof.
  intros Hn Hl. split; [|by apply cut_spec]. unfold encode_entry, journal_line. apply cstr_id.
  destruct e.1; cbn; set_solver.
Qed.

(** The body of [rollback_line] for the line of an entry. *)
Lemma rollback_entry e fs :
  tgt e.2 -> entry_ok fs e ->
  rollback_line (encode_entry e) =
    match e.1 with
    | JNew => r ← sys_unlink (show_path e.2); mret (match r with inl _ => 0 | inr ENOENT => 0 | inr _ => -1 end)
    | JReplace => parent_dirs (show_path e.2) ?; copy_file (show_path (p_backup ++ e.2)) (show_path e.2)
    end.
Proof.
  intros Ht He. destruct (to_good _ Htgt _ Ht) as [Hg Hne]. destruct (en_line _ _ _ _ He) as [Hl Hn].
  destruct (encode_parse e [] Hn Hl) as [E1 E2]. unfold rollback_line. rewrite E1, E2.
  destruct (join_good e.2 Hg Hne) as (Hs & _ & _). rewrite Hs, backup_string, <- show_join by done.
  rewrite (en_fits _ _ _ _ He), (en_fits_backup _ _ _ _ He). by destruct e.1.
Qed.

Lemma wp_rollback_line b s J fs e :
  jinv s J fs -> e ∈ J -> wp b (rollback_line (encode_entry e)) (λ _, jinv s J) (jinv s J) fs.
Proof.
  intros HJ Hin. pose proof (ji_entries _ _ _ _ _ HJ) as He. rewrite Forall_forall in He. specialize (He e Hin).
  pose proof (en_tgt _ _ _ _ He) as Ht. destruct (to_good _ Htgt _ Ht) as [Hg Hne].
  assert (Hin2 : e.2 ∈ J.*2) by (apply list_elem_of_fmap; by exists e).
  pose proof (jinv_file_closed s J e.2 Hin2 Ht) as Hc.
  rewrite (rollback_entry e fs Ht He). destruct e.1.
  - wp_step. eapply wp_conseq; [by apply wp_live_parents| |done]. intros r fs' [HJ' _]. cbn beta.
    destruct (r =? 0); [|done].
    eapply wp_conseq; [apply (wp_copy_file b (jinv s J)); [by rewrite resolve_show|by apply tidy_show_ne|done]| |done].
    by intros ? ? [? _].
  - wp_step. apply wp_op; [|intros _; split; [intros x; by wp_step|done]].
    destruct (unlink_cases (show_path e.2) fs (ji_ok _ _ _ _ _ HJ)) as [(x & -> & _)|(n & -> & Hn & Hgn & _ & Hok)];
      wp_step; [done|]. rewrite resolve_show in * by done. by eapply (fc_unlink _ _ Hc).
Qed.

Lemma wp_rollback_lines b s J L fs :
  jinv s J fs -> (forall e, e ∈ L -> e ∈ J) ->
  wp b (rollback_lines (encode_entry <$> L)) (λ _, jinv s J) (jinv s J) fs.
Proof.
  revert fs. induction L as [|e L IH]; intros fs HJ HL; cbn [rollback_lines fmap list_fmap].
  - wp_step. apply wp_pure_op; [|intros _; split; [intros ?|done]]; by wp_step.
  - wp_step. eapply wp_conseq; [apply wp_rollback_line; [done|set_solver]| |done].
    intros r fs' HJ'. cbn beta. destruct (r =? 0); [|done]. apply IH; [done|set_solver].
Qed.

(** ** Reading the journal back *)

Lemma fgets_all_journal fs fuel J :
  Forall (entry_ok fs) J -> (length (concat (encode_entry <$> J)) <= fuel)%nat ->
  fgets_all fuel (TXN_PATH_MAX + 4) (concat (encode_entry <$> J)) = encode_entry <$> J.
Proof.
  intros HJ. revert fuel. induction HJ as [|e J He HJ IH]; intros fuel Hf; [by destruct fuel|].
  cbn [fmap list_fmap concat] in *. rewrite length_app in Hf.
  assert (E : encode_entry e ++ concat (encode_entry <$> J) =
              (jop_char e.1 :: TAB :: join SLASH e.2) ++ LF :: concat (encode_entry <$> J)).
  { unfold encode_entry at 1, journal_line. cbn. by rewrite <- app_assoc. }
  assert (Hlen : (S (length (join SLASH e.2)) < TXN_PATH_MAX)%nat).
  { pose proof (en_fits _ _ _ _ He) as Hfit. unfold fits in Hfit. boolify.
    rewrite show_join in Hfit by (by apply (to_good _ Htgt), (en_tgt _ _ _ _ He)). done. }
  assert (Hpos : (0 < length (encode_entry e))%nat) by (unfold encode_entry, journal_line; cbn; lia).
  destruct fuel as [|fuel]; [lia|]. cbn [fgets_all].
  assert (Hfg : fgets (TXN_PATH_MAX + 4) (encode_entry e ++ concat (encode_entry <$> J)) =
                Some (encode_entry e, concat (encode_entry <$> J))).
  { rewrite E, fgets_line; [unfold encode_entry, journal_line; done| |cbn [length]; lia].
    destruct (en_line _ _ _ _ He) as [Hl _]. destruct e.1; cbn; set_solver. }
  rewrite Hfg. f_equal. apply IH. lia.
Qed.

Lemma journal_lines s J fs m d :
  jinv s J fs -> fs !! p_journal = Some (Reg m d) ->
  fgets_lines (TXN_PATH_MAX + 4) d = encode_entry <$> J.
Proof.
  intros HJ Hj. pose proof (ji_journal _ _ _ _ _ HJ) as E. unfold data_at in E. rewrite Hj in E. injection E as ->.
  apply (fgets_all_journal fs); [apply HJ|done].
Qed.

Lemma stat_journal s J fs :
  jinv s J fs -> exists m d, fs !! p_journal = Some (Reg m d) /\ fs_stat fs TXN_JOURNAL = inl (Reg m d).
Proof.
  intros HJ. pose proof (ji_journal _ _ _ _ _ HJ) as E. unfold data_at in E.
  destruct (fs !! p_journal) as [[m d| |]|] eqn:Hj; try done. exists m, d. split; [done|].
  apply stat_get; [apply HJ| |done]. change TXN_JOURNAL with (show_path p_journal).
  rewrite resolve_show by apply good_names. done.
Qed.

(** Whatever fails during a rollback, the transaction stays recoverable. *)
Lemma wp_rollback b s J fs : jinv s J fs -> wp b rollback (λ _, jinv s J) (jinv s J) fs.
Proof.
  intros HJ. unfold rollback. wp_step. destruct (stat_journal s J fs HJ) as (m & d & Hj & Hst).
  apply wp_op; [|intros _; split; [intros []; by wp_step|done]].
  unfold fs_read. rewrite Hst. cbn [fst snd]. rewrite (journal_lines s J fs m d) by done.
  by apply wp_rollback_lines.
Qed.

(** ** Rollback without faults *)

(** Every strict ancestor of the parent of an entry is passable. *)
Lemma entry_can_mkdir fs e p c : entry_ok fs e -> e.2 = p ++ [c] -> can_mkdir fs p.
Proof.
  intros He Ep a k ->. apply (en_ancestors _ _ _ _ He a (k ++ [c])); [by rewrite Ep, <- app_assoc|by destruct k].
Qed.

Lemma entry_backup fs t d :
  fs_ok fs -> Forall good_name t -> t ≠ [] -> data_at fs (p_backup ++ t) = Some d ->
  exists m, fs_stat fs (show_path (p_backup ++ t)) = inl (Reg m d).
Proof.
  intros Hok Hg Hne Hd. unfold data_at in Hd.
  destruct (fs !! (p_backup ++ t)) as [[m d'| |]|] eqn:Eb; try done. injection Hd as ->. exists m.
  assert (Hgb : Forall good_name (p_backup ++ t)) by (apply Forall_app; split; [apply good_names|done]).
  apply stat_get; [done| |apply tidy_wants_dir, tidy_show_ne; [done|by destruct t]].
  by rewrite resolve_show.
Qed.

(** The copy that restores a replaced file. *)
Lemma calm_restore s J fs t d :
  jinv s J fs -> (JReplace, t) ∈ J -> data_at fs0 t = Some d ->
  wp false (copy_file (show_path (p_backup ++ t)) (show_path t))
    (λ r fs', r = 0 /\ jinv s J fs' /\ data_at fs' t = data_at fs0 t /\
              forall p, p ≠ t -> data_at fs' p = data_at fs p) (λ _, False) fs.
Proof.
  intros HJ Hin Hd0. pose proof (ji_entries _ _ _ _ _ HJ) as He. rewrite Forall_forall in He. specialize (He _ Hin).
  pose proof (en_tgt _ _ _ _ He) as Ht. cbn [snd] in Ht. destruct (to_good _ Htgt _ Ht) as [Hg Hne].
  assert (Hin2 : t ∈ J.*2) by (apply list_elem_of_fmap; by exists (JReplace, t)).
  destruct (en_undo _ _ _ _ He) as (d' & Hd0' & Hdb). cbn [snd] in *. assert (d' = d) as -> by congruence.
  destruct (entry_backup fs t d) as [m Hst]; [apply HJ|done..|].
  destruct (exists_last Hne) as (p & c & Ep). pose proof (entry_can_mkdir fs _ p c He Ep) as Hcan.
  pose proof (en_fits _ _ _ _ He) as Hfit. destruct (en_file _ _ _ _ He) as [Hnd Hns]. cbn [snd] in *.
  subst t. pose proof (calm_copy_file (show_path (p_backup ++ p ++ [c])) p c m d fs (ji_ok _ _ _ _ _ HJ) Hg Hfit Hcan Hnd Hns Hst) as H1.
  assert (H2 := wp_copy_file false (jinv s J) (show_path (p_backup ++ p ++ [c])) (show_path (p ++ [c])) fs).
  rewrite resolve_show in H2 by done.
  specialize (H2 (jinv_file_closed s J _ Hin2 Ht) (tidy_show_ne _ Hg Hne) HJ).
  eapply wp_conseq; [exact (wp_conj _ _ _ _ _ _ _ H1 H2)| |by intros ? [? _]].
  intros r fs' [(-> & _ & fs2 & m' & Hgr & ->) [HJ' _]].
  split; [done|]. split; [done|]. rewrite data_insert_eq. split; [done|].
  intros q Hq. rewrite data_insert_ne by done. by eapply grown_data.
Qed.

Lemma calm_rollback_line s J fs e :
  jinv s J fs -> e ∈ J ->
  wp false (rollback_line (encode_entry e))
    (λ r fs', r = 0 /\ jinv s J fs' /\ data_at fs' e.2 = data_at fs0 e.2 /\
              forall p, p ≠ e.2 -> data_at fs' p = data_at fs p) (λ _, False) fs.
Proof.
  intros HJ Hin. pose proof (ji_entries _ _ _ _ _ HJ) as He. rewrite Forall_forall in He. specialize (He e Hin).
  pose proof (en_tgt _ _ _ _ He) as Ht. destruct (to_good _ Htgt _ Ht) as [Hg Hne].
  pose proof (ji_ok _ _ _ _ _ HJ) as Hok. rewrite (rollback_entry e fs Ht He).
  pose proof (en_undo _ _ _ _ He) as Hu. destruct e as [[] t]; cbn [fst snd] in *.
  - destruct Hu as (d & Hd0 & _). destruct (exists_last Hne) as (p & c & Ep).
    pose proof (entry_can_mkdir fs _ p c He Ep) as Hcan. pose proof (en_fits _ _ _ _ He) as Hfit. cbn [snd] in Hfit.
    subst t. pose proof (calm_parent_dirs p c fs Hok Hg Hfit Hcan) as H1.
    pose proof (wp_live_parents false s J fs (p ++ [c]) HJ Ht) as H2.
    wp_step. eapply wp_conseq; [exact (wp_conj _ _ _ _ _ _ _ H1 H2)| |by intros ? [? _]].
    intros r fs1 [(-> & _ & Hgr) [HJ1 _]]. cbn [Z.eqb].
    eapply wp_conseq; [by eapply calm_restore| |done].
    intros r fs' (-> & HJ' & Hd & Hs). split_and!; try done. intros q Hq. rewrite Hs by done.
    by eapply grown_data.
  - destruct (en_file _ _ _ _ He) as [Hnd Hns]. cbn [snd] in *. wp_step. apply wp_op; [|done].
    assert (Hd0 : data_at fs0 t = None).
    { unfold data_at. rewrite get_lookup in Hu by done. by rewrite Hu. }
    destruct (get fs t) as [n|] eqn:En.
    + destruct (unlink_cases (show_path t) fs Hok) as [(x & E & _)|(n' & -> & _ & _ & _ & Hok')].
      { exfalso. unfold fs_unlink in E. rewrite (stat_get fs Hok _ n) in E; [by destruct n| |].
        - by rewrite resolve_show.
        - by apply tidy_wants_dir, tidy_show_ne. }
      rewrite resolve_show in * by done. wp_step. cbn [snd]. split; [done|].
      assert (Hin2 : t ∈ J.*2) by (apply list_elem_of_fmap; by exists (JNew, t)).
      split; [apply (fc_unlink _ _ (jinv_file_closed s J t Hin2 Ht) fs n); try done; by intros ->|].
      split; [rewrite Hd0; unfold data_at; by rewrite lookup_delete_eq|].
      intros q Hq. by apply data_delete_ne.
    + assert (E : fs_unlink (show_path t) fs = (inr ENOENT, fs)).
      { unfold fs_unlink, fs_stat. rewrite resolve_show by done.
        destruct (ancestors_ok_walk fs t (en_ancestors _ _ _ _ He)) as [-> | ->]; [by rewrite En|done]. }
      rewrite E. wp_step. cbn [snd]. split; [done|]. split; [done|]. split; [|done].
      rewrite Hd0. unfold data_at. rewrite get_lookup in En by done. by rewrite En.
Qed.

Lemma calm_rollback_lines s J done todo fs :
  jinv s J fs -> (forall e, e ∈ todo -> e ∈ J) -> (forall t, t ∈ done -> data_at fs t = data_at fs0 t) ->
  wp false (rollback_lines (encode_entry <$> todo))
    (λ r fs', r = 0 /\ jinv s J fs' /\ forall t, t ∈ done ++ todo.*2 -> data_at fs' t = data_at fs0 t)
    (λ _, False) fs.
Proof.
  revert done fs. induction todo as [|e todo IH]; intros done fs HJ Hin Hdone; cbn [fmap list_fmap rollback_lines].
  - wp_step. apply wp_pure_op; [|by auto]. wp_step. by rewrite app_nil_r.
  - wp_step. eapply wp_conseq; [apply calm_rollback_line; [exact HJ|set_solver]| |by auto].
    intros r fs' (-> & HJ' & Hd & Hs). cbn [Z.eqb].
    eapply wp_conseq; [apply (IH (done ++ [e.2])); [exact HJ'|set_solver|]| |by auto].
    + intros t Ht. destruct (decide (t = e.2)) as [->|Hne]; [exact Hd|]. rewrite Hs by exact Hne.
      apply Hdone. set_solver.
    + intros r fs'' (-> & HJ'' & H). split_and!; [reflexivity|exact HJ''|]. intros t Ht. apply H.
      by rewrite <- app_assoc.
Qed.

(** A rollback without faults restores the data of every live file. *)
Lemma calm_rollback s J fs :
  jinv s J fs ->
  wp false rollback (λ r fs', r = 0 /\ jinv s J fs' /\ forall p, outside p -> data_at fs' p = data_at fs0 p)
    (λ _, False) fs.
Proof.
  intros HJ. unfold rollback. wp_step. destruct (stat_journal s J fs HJ) as (m & d & Hj & Hst).
  apply wp_op; [|done]. unfold fs_read. rewrite Hst. cbn [fst snd]. rewrite (journal_lines s J fs m d) by done.
  eapply wp_conseq; [apply (calm_rollback_lines s J []); [done|done|]| |done].
  - intros t Ht. by apply elem_of_nil in Ht.
  - intros r fs' (-> & HJ' & H). split; [done|]. split; [done|]. intros p Hp.
    destruct (decide (p ∈ J.*2)); [by apply H|by apply (ji_frame _ _ _ _ _ HJ')].
Qed.

End Preservation.
