(* ===== verification/HeraldTxnSafety.v ===== *)
(** Crash safety of herald's transaction.

    [ready fs0 lines] describes a prepared transaction: what [txn_begin] and
    the staging operations leave behind, with the deletion queue [lines].  The
    main theorem runs [txn_commit] under any schedule of errors and with a
    crash at any call, restarts, runs [txn_recover], and compares the live
    files with the two trees the caller may see: the old one, and [committed].

    The last section states what the theorem's hypotheses exclude: concrete
    runs, evaluated, in which the code loses or mixes data. *)

From S2P Require Import Prelude CString Posix PosixLogic HeraldTxn HeraldTxnSpecs HeraldTxnCalm HeraldTxnJournal.
Local Open Scope Z_scope.

(** * Definitions *)

Definition p_pending : path := [B "etc"; B "aegis"; B "update"; B "pending"].

Definition staged (fs0 : fsys) (t : path) : option bytes := data_at fs0 (p_stage ++ t).

(** The live paths a commit may change: queued deletions and staged files. *)
Definition target (fs0 : fsys) (lines : list bytes) (t : path) : Prop :=
  (exists l, l ∈ lines /\ safe_rel l = true /\ wants_dir l = false /\ comps l = t) \/ is_Some (staged fs0 t).

Record ready (fs0 : fsys) (lines : list bytes) : Prop := {
  rd_ok : fs_ok fs0;
  rd_state : data_at fs0 p_state = Some (B "prepared" ++ [LF]);
  rd_journal : data_at fs0 p_journal = Some [];
  rd_delete : exists d, data_at fs0 p_delete = Some d /\ owner_lines d = lines;
  rd_stage : fs0 !! p_stage = Some Dir;
  rd_outside t : target fs0 lines t -> outside t;
  rd_antichain t t' : target fs0 lines t -> target fs0 lines t' -> t `prefix_of` t' -> t = t';
  rd_disjoint l : l ∈ lines -> staged fs0 (comps l) = None;
  rd_names t : is_Some (staged fs0 t) -> LF ∉ join SLASH t /\ NUL ∉ join SLASH t;
  rd_short : short p_txn fs0
}.

(** The live file at [p] once the transaction is committed. *)
Definition committed (fs0 : fsys) (lines : list bytes) (p : path) : option bytes :=
  match staged fs0 p with
  | Some d => Some d
  | None => if decide (p ∈ comps <$> lines) then None else data_at fs0 p
  end.

Definition live_old (fs0 fs : fsys) : Prop := forall p, outside p -> data_at fs p = data_at fs0 p.
Definition live_new (fs0 : fsys) (lines : list bytes) (fs : fsys) : Prop :=
  forall p, outside p -> data_at fs p = committed fs0 lines p.

(** The inner loop of [apply_stage_at]. *)
Definition apply_each (fuel : nat) (jfd : path) (dir relbase : bytes) : list name -> M Z :=
  fix each (ns : list name) : M Z :=
    match ns with
    | [] => mret 0
    | n :: ns =>
        let src := dir ++ SLASH :: n in
        let rel := rel_child relbase n in
        let dst := SLASH :: rel in
        if negb (fits TXN_PATH_MAX src && fits TXN_PATH_MAX rel) then mret (-1) else
        st ← sys_lstat src;
        match st with
        | inr _ => mret (-1)
        | inl Dir => apply_stage_at fuel jfd src rel ?; each ns
        | inl Special => mret (-1)
        | inl (Reg _ _) =>
            prepare_target jfd rel ?;
            (if fits TXN_PATH_MAX dst then zero (sys_rename src dst) else mret (-1)) ?;
            each ns
        end
    end.

Lemma apply_stage_S fuel jfd dir relbase :
  apply_stage_at (S fuel) jfd dir relbase =
    (d ← sys_list dir;
     match d with inr _ => mret (-1) | inl names => apply_each fuel jfd dir relbase names end).
Proof. reflexivity. Qed.

Lemma apply_each_cons fuel jfd dir relbase n ns :
  apply_each fuel jfd dir relbase (n :: ns) =
    (let src := dir ++ SLASH :: n in
     let rel := rel_child relbase n in
     let dst := SLASH :: rel in
     if negb (fits TXN_PATH_MAX src && fits TXN_PATH_MAX rel) then mret (-1) else
     st ← sys_lstat src;
     match st with
     | inr _ => mret (-1)
     | inl Dir => apply_stage_at fuel jfd src rel ?; apply_each fuel jfd dir relbase ns
     | inl Special => mret (-1)
     | inl (Reg _ _) =>
         prepare_target jfd rel ?;
         (if fits TXN_PATH_MAX dst then zero (sys_rename src dst) else mret (-1)) ?;
         apply_each fuel jfd dir relbase ns
     end).
Proof. reflexivity. Qed.

(** * The commit *)

Section Commit.

Context (fs0 : fsys) (lines : list bytes).
Hypothesis Hready : ready fs0 lines.

Implicit Types (fs : fsys) (t p : path) (J : list entry).
Local Notation tgt := (target fs0 lines).
Local Notation jinv := (jinv fs0 tgt).
Local Notation APPLYING := (B "applying").

(** Some recoverable state of the apply phase. *)
Definition applying (fs : fsys) : Prop := exists J, jinv APPLYING J fs.

Lemma staged_nonnil t : is_Some (staged fs0 t) -> t ≠ [].
Proof.
  intros [d Hd] ->. unfold staged, data_at in Hd. rewrite app_nil_r, (rd_stage _ _ Hready) in Hd. done.
Qed.

Lemma staged_good t : is_Some (staged fs0 t) -> Forall good_name t.
Proof.
  intros [d Hd]. unfold staged, data_at in Hd. destruct (fs0 !! (p_stage ++ t)) as [n|] eqn:E; [|done].
  apply (ok_names _ (rd_ok _ _ Hready)) in E. by apply Forall_app in E as [_ ?].
Qed.

Lemma targets : targets_ok tgt.
Proof.
  split; [|apply Hready|apply Hready]. intros t [(l & _ & Hs & Hw & <-)|Ht].
  - split; [by apply safe_rel_good|by apply safe_rel_join].
  - split; [by apply staged_good|by apply staged_nonnil].
Qed.

Lemma jinv_start : jinv (B "prepared") [] fs0.
Proof.
  split; try apply Hready; [constructor|done|done].
Qed.

(** ** Deletions *)

Record deleting J (done : list bytes) fs : Prop := {
  de_inv : jinv APPLYING J fs;
  de_stage p : p_stage `prefix_of` p -> fs !! p = fs0 !! p;
  de_entries t : t ∈ J.*2 -> data_at fs t = None /\ t ∈ comps <$> lines;
  de_done l : l ∈ done -> outside (comps l) -> data_at fs (comps l) = None
}.

Lemma chomp_clean l : LF ∉ chomp l /\ NUL ∉ chomp l.
Proof.
  unfold chomp. pose proof (take_while_all (λ c, negb ((c =? CR) || (c =? LF))) (cstr l)) as H.
  rewrite Forall_forall in H. split.
  - intros Hin. specialize (H _ Hin). done.
  - intros Hin. apply (cstr_no_nul l). revert Hin. unfold take_while.
    pose proof (span_app (λ c, negb ((c =? CR) || (c =? LF))) (cstr l)) as E. intros Hin.
    rewrite <- E. apply elem_of_app. by left.
Qed.

Lemma lines_clean l : l ∈ lines -> LF ∉ l /\ NUL ∉ l.
Proof.
  destruct (rd_delete _ _ Hready) as (d & _ & <-). unfold owner_lines.
  intros (x & -> & _)%list_elem_of_fmap. apply chomp_clean.
Qed.

Lemma deleting_done J done l fs :
  deleting J done fs -> (outside (comps l) -> data_at fs (comps l) = None) -> deleting J (l :: done) fs.
Proof.
  intros [H1 H2 H3 H4] Hl. split; try done. intros l' [->|Hin]%elem_of_cons; [done|by apply H4].
Qed.

(** The outcome of a phase: either it went through, or the state is recoverable. *)
Definition phase (K : fsys -> Prop) (r : Z) (fs : fsys) : Prop := (r = 0 /\ K fs) \/ (r ≠ 0 /\ applying fs).

Lemma deleting_step J done fs fs' e :
  deleting J done fs -> (forall p, p_stage `prefix_of` p -> fs' !! p = fs !! p) ->
  (forall p, outside p -> p ≠ e.2 -> data_at fs' p = data_at fs p) ->
  jinv APPLYING (J ++ [e]) fs' -> data_at fs' e.2 = None -> e.2 ∈ comps <$> lines ->
  deleting (J ++ [e]) done fs'.
Proof.
  intros [H1 H2 H3 H4] Hs Hd HJ He Hin. split; [done| | |].
  - intros p Hp. by rewrite Hs, H2.
  - intros t Ht. destruct (decide (t = e.2)) as [->|Hne]; [done|]. rewrite fmap_app in Ht.
    assert (Ht' : t ∈ J.*2) by set_solver. destruct (H3 t Ht'). split; [|done]. rewrite Hd; [done| |done].
    apply (to_outside _ targets). by destruct (entry_in _ _ _ _ _ _ H1 Ht') as (o & _ & [? _ _ _ _ _ _]).
  - intros l Hl Ho. destruct (decide (comps l = e.2)) as [->|]; [done|]. rewrite Hd by done. by apply H4.
Qed.

Lemma not_stage_outside t p : outside t -> p_stage `prefix_of` p -> t ≠ p.
Proof. intros Ho Hp ->. apply Ho. etrans; [|exact Hp]. by exists [B "stage"]. Qed.

(** Deleting the file of the entry just journaled. *)
Lemma wp_delete_target J done fs fs1 o t l :
  deleting J done fs -> quiet fs fs1 -> jinv APPLYING (J ++ [(o, t)]) fs1 -> comps l = t -> l ∈ lines -> tgt t ->
  wp true (zero (sys_unlink (show_path t))) (phase (λ fs', exists J', deleting J' (l :: done) fs')) applying fs1.
Proof.
  intros HD [Hq1 Hq2] HJ1 Hl Hin Ht. destruct (to_good _ targets t Ht) as [Hg Hne].
  pose proof (to_outside _ targets t Ht) as Hout.
  assert (Hfail : (-1 ≠ 0 /\ applying fs1)) by (split; [lia|by eexists]).
  wp_step. apply wp_op; [|intros _; split; [intros e; by right|by eexists]].
  destruct (unlink_cases (show_path t) fs1 (ji_ok _ _ _ _ _ HJ1)) as [(e & -> & _)|(n & -> & Hn & Hgn & _ & Hok)];
    [by right|]. rewrite resolve_show in * by done. left. split; [done|]. cbn [snd].
  assert (Hin2 : t ∈ (J ++ [(o, t)]).*2) by (rewrite fmap_app; set_solver).
  assert (Hd : data_at (delete t fs1) t = None) by (unfold data_at; by rewrite lookup_delete_eq).
  exists (J ++ [(o, t)]). apply deleting_done; [|by rewrite Hl].
  apply (deleting_step J done fs); [done|..]; cbn [snd].
  - intros p Hp. rewrite lookup_delete_ne; [by apply Hq1|by apply not_stage_outside].
  - intros p Hp Hpt. rewrite data_delete_ne by done. by apply Hq2.
  - by apply (fc_unlink _ _ (jinv_file_closed fs0 _ targets APPLYING _ t Hin2 Ht) fs1 n).
  - done.
  - apply list_elem_of_fmap. by exists l.
Qed.

Lemma wants_dir_slash l : l ≠ [] -> wants_dir (SLASH :: l) = wants_dir l.
Proof. intros H. unfold wants_dir. by destruct l. Qed.

Lemma wp_apply_delete J done fs l :
  deleting J done fs -> l ∈ lines ->
  wp true (apply_delete p_journal l) (phase (λ fs', exists J', deleting J' (l :: done) fs')) applying fs.
Proof.
  intros HD Hin. pose proof (de_inv _ _ _ HD) as HJ. pose proof (ji_ok _ _ _ _ _ HJ) as Hok.
  assert (Hap : applying fs) by (by eexists).
  assert (Hfail : phase (λ fs', exists J', deleting J' (l :: done) fs') (-1) fs) by (right; split; [lia|done]).
  unfold apply_delete. wp_step; [|by wp_step]. boolify.
  pose proof (safe_rel_good l) as Hg. specialize (Hg ltac:(done)).
  assert (Hr : resolve (SLASH :: l) = comps l).
  { rewrite resolve_plain; rewrite comps_slash; [done|by apply good_no_dotdot]. }
  wp_step. unfold sys_lstat, pure_op. apply wp_op_injected; cbn [fst snd].
  2: { intros _. split; [|done]. intros e He. destruct e; try done; by wp_step. }
  destruct (fs_stat fs (SLASH :: l)) as [n|e] eqn:Est.
  - destruct n as [m d| |]; [|by wp_step..].
    apply stat_inl in Est as [Hgt Hw]. rewrite Hr in Hgt.
    assert (Hlne : l ≠ []) by (intros ->; done).
    rewrite wants_dir_slash in Hw by done. specialize (Hw ltac:(done)).
    destruct (safe_rel_join l) as [Hjoin Hne]; [done..|].
    assert (Ht : tgt (comps l)) by (left; by exists l).
    assert (Hnew : comps l ∉ J.*2).
    { intros Hj. destruct (de_entries _ _ _ HD _ Hj) as [Hd _]. unfold data_at in Hd.
      rewrite get_lookup in Hgt by done. by rewrite Hgt in Hd. }
    destruct (lines_clean l Hin) as [Hlf Hnul]. rewrite show_comps by done.
    wp_step. rewrite Hjoin at 1. rewrite Hjoin in Hlf, Hnul.
    eapply wp_conseq; [by apply (wp_prepare_target fs0 _ targets true APPLYING J)| |done].
    intros r fs1 [Hq Hcase]. cbn beta. destruct (r =? 0) eqn:Er; boolify.
    + destruct Hcase as [[? _]|[o HJ1]]; [done|]. by eapply wp_delete_target.
    + right. split; [lia|]. destruct Hcase as [[_ HJ1]|[o HJ1]]; by eexists.
  - assert (e = ENOENT \/ e ≠ ENOENT) as [->|He] by (destruct e; by (left + right)); [|by destruct e; wp_step].
    apply stat_ENOENT in Est; [|done]. rewrite Hr in Est. wp_step. left. split; [done|]. exists J.
    apply deleting_done; [done|]. intros _. unfold data_at.
    destruct (comps l); [by rewrite (ok_root _ Hok)|]. cbn in Est. by rewrite Est.
Qed.

Lemma wp_delete_each J done todo fs :
  deleting J done fs -> (forall l, l ∈ todo -> l ∈ lines) ->
  wp true (delete_each p_journal todo)
    (phase (λ fs', exists J' done', deleting J' done' fs' /\ forall l, l ∈ done ++ todo -> l ∈ done')) applying fs.
Proof.
  revert J done fs. induction todo as [|l todo IH]; intros J done fs HD Hin; cbn [delete_each].
  - wp_step. left. split; [reflexivity|]. exists J, done. rewrite app_nil_r. by split.
  - assert (Hnext : forall J1 fs1, deleting J1 (l :: done) fs1 ->
      wp true (delete_each p_journal todo)
        (phase (λ fs', exists J' done', deleting J' done' fs' /\ forall x, x ∈ done ++ l :: todo -> x ∈ done')) applying fs1).
    { intros J1 fs1 HD1. eapply wp_conseq; [apply (IH J1 (l :: done)); [exact HD1|set_solver]| |by auto].
      intros r fs' [(-> & J' & done' & H1 & H2)|H]; [left|by right]. split; [reflexivity|].
      exists J', done'. split; [exact H1|]. intros x Hx. apply H2. set_solver. }
    wp_step. destruct (decide (l = [])) as [->|Hl].
    + wp_step. cbn [Z.eqb]. apply (Hnext J). apply deleting_done; [exact HD|]. intros _. unfold data_at.
      change (comps []) with (@nil name). by rewrite (ok_root _ (ji_ok _ _ _ _ _ (de_inv _ _ _ HD))).
    + eapply wp_conseq; [eapply wp_apply_delete; [exact HD|set_solver]| |by auto].
      intros r fs1 [[-> [J1 H]]|[Hr H]]; [by apply (Hnext J1)|]. cbn beta.
      rewrite (proj2 (Z.eqb_neq r 0) Hr). right. split; [lia|exact H].
Qed.

(** ** Moving the staged files *)

(** A staged file is still staged, or it is journaled and live. *)
Record moving J fs : Prop := {
  mv_inv : jinv APPLYING J fs;
  mv_staged t d : staged fs0 t = Some d ->
    (data_at fs (p_stage ++ t) = Some d /\ t ∉ J.*2) \/
    (data_at fs (p_stage ++ t) = None /\ data_at fs t = Some d /\ t ∈ J.*2);
  mv_none t : staged fs0 t = None -> data_at fs (p_stage ++ t) = None;
  mv_deleted l : l ∈ lines -> outside (comps l) -> data_at fs (comps l) = None
}.

Lemma stage_prefix t : p_stage `prefix_of` p_stage ++ t.
Proof. by exists t. Qed.

Lemma deleting_moving J done fs :
  deleting J done fs -> (forall l, l ∈ lines -> l ∈ done) -> moving J fs.
Proof.
  intros [H1 H2 H3 H4] Hall.
  assert (Hs : forall t, data_at fs (p_stage ++ t) = staged fs0 t).
  { intros t. unfold staged, data_at. by rewrite H2 by apply stage_prefix. }
  split; [done| | |by auto].
  - intros t d Hd. left. rewrite Hs. split; [done|]. intros Hin.
    destruct (H3 t Hin) as [_ (l & -> & Hl)%list_elem_of_fmap]. by rewrite (rd_disjoint _ _ Hready l Hl) in Hd.
  - intros t Ht. by rewrite Hs.
Qed.

(** Once a staged file is gone it stays gone. *)
Lemma moving_gone J J' fs fs' t :
  moving J fs -> moving J' fs' -> J.*2 ⊆ J'.*2 ->
  data_at fs (p_stage ++ t) = None -> data_at fs' (p_stage ++ t) = None.
Proof.
  intros HM HM' HJ Hn. destruct (staged fs0 t) as [d|] eqn:E; [|by apply (mv_none _ _ HM')].
  destruct (mv_staged _ _ HM t d E) as [[H _]|(_ & _ & Hin)]; [congruence|].
  destruct (mv_staged _ _ HM' t d E) as [[_ H]|(H & _)]; [|done]. exfalso. by apply H, HJ.
Qed.

Lemma stage_path_ne t t' : t ≠ t' -> p_stage ++ t ≠ p_stage ++ t'.
Proof. intros H E. by apply app_inv_head in E. Qed.

Lemma outside_ne_stage p t : outside p -> p_stage ++ t ≠ p.
Proof. intros Ho E. apply (not_stage_outside p (p_stage ++ t) Ho (stage_prefix t)). by symmetry. Qed.

(** The move of one file, after its target was prepared. *)
Lemma moving_rename J fs fs1 o t m d :
  moving J fs -> quiet fs fs1 -> jinv APPLYING (J ++ [(o, t)]) fs1 -> tgt t -> t ∉ J.*2 ->
  staged fs0 t = Some d -> fs1 !! (p_stage ++ t) = Some (Reg m d) ->
  fs_ok (<[t := Reg m d]> (delete (p_stage ++ t) fs1)) ->
  moving (J ++ [(o, t)]) (<[t := Reg m d]> (delete (p_stage ++ t) fs1)).
Proof.
  intros HM [Hq1 Hq2] HJ1 Ht Hnew Hst Hsrc Hok. destruct (to_good _ targets t Ht) as [Hg Hne].
  pose proof (to_outside _ targets t Ht) as Hout.
  assert (Hin2 : t ∈ (J ++ [(o, t)]).*2) by (rewrite fmap_app; set_solver).
  set (fs2 := <[t := Reg m d]> _) in *.
  assert (Hs2 : forall t', t' ≠ t -> data_at fs2 (p_stage ++ t') = data_at fs (p_stage ++ t')).
  { intros t' Hne'. unfold fs2. rewrite data_insert_ne, data_delete_ne.
    - unfold data_at. by rewrite Hq1 by apply stage_prefix.
    - apply stage_path_ne. congruence.
    - intros E. symmetry in E. by apply outside_ne_stage in E. }
  assert (Hd2 : forall p, outside p -> p ≠ t -> data_at fs2 p = data_at fs p).
  { intros p Hp Hpt. unfold fs2. rewrite data_insert_ne, data_delete_ne by (by auto using outside_ne_stage). by apply Hq2. }
  assert (Hgone : data_at fs2 (p_stage ++ t) = None).
  { unfold fs2. rewrite data_insert_ne by (intros E; symmetry in E; by apply outside_ne_stage in E).
    unfold data_at. by rewrite lookup_delete_eq. }
  split.
  - assert (HJd : jinv APPLYING (J ++ [(o, t)]) (delete (p_stage ++ t) fs1)).
    { apply (jinv_inside fs0 _ targets APPLYING _ fs1 _ (p_stage ++ t) HJ1).
      - apply ok_delete; [apply HJ1|]. apply (leaf_no_child fs1 _ (Reg m d)); [apply HJ1|by rewrite get_lookup|done].
      - apply inside_child.
      - intros p Hp. by apply lookup_delete_ne.
      - done.
      - done.
      - done.
      - intros t' _. by apply txn_child_ne.
      - rewrite lookup_delete_eq. by intros [? ?]. }
    apply (jinv_target fs0 _ targets APPLYING _ _ fs2 t HJd Hin2 Hok).
    + intros p Hp. by apply lookup_insert_ne.
    + rewrite get_lookup by done. unfold fs2. by rewrite lookup_insert_eq.
    + rewrite get_lookup by done. unfold fs2. by rewrite lookup_insert_eq.
  - intros t' d' Hst'. rewrite fmap_app. destruct (decide (t' = t)) as [->|Hne'].
    + right. split; [done|]. split; [|set_solver]. unfold fs2. rewrite data_insert_eq. congruence.
    + rewrite Hs2 by done. destruct (mv_staged _ _ HM t' d' Hst') as [[H1 H2]|(H1 & H2 & H3)].
      * left. split; [done|]. set_solver.
      * right. split; [done|]. split; [|set_solver]. rewrite Hd2; [done| |done].
        apply (to_outside _ targets). right. by eexists.
  - intros t' Hst'. destruct (decide (t' = t)) as [->|Hne']; [done|]. rewrite Hs2 by done. by apply (mv_none _ _ HM).
  - intros l Hl Ho. rewrite Hd2; [by apply (mv_deleted _ _ HM)|done|]. intros <-.
    by rewrite (rd_disjoint _ _ Hready l Hl) in Hst.
Qed.

(** One staged regular file: prepare the target, then rename. *)
Lemma wp_move_file J fs t m d (k : M Z) Q :
  moving J fs -> Forall good_name t -> fs !! (p_stage ++ t) = Some (Reg m d) ->
  (forall fs', applying fs' -> Q (-1) fs') ->
  (forall J' fs', moving J' fs' -> J.*2 ⊆ J'.*2 -> data_at fs' (p_stage ++ t) = None -> wp true k Q applying fs') ->
  wp true (prepare_target p_journal (join SLASH t) ?;
           (if fits TXN_PATH_MAX (show_path t) then zero (sys_rename (show_path (p_stage ++ t)) (show_path t))
            else mret (-1)) ?; k) Q applying fs.
Proof.
  intros HM Hg Hsrc Hfail Hk.
  assert (Hdata : data_at fs (p_stage ++ t) = Some d) by (unfold data_at; by rewrite Hsrc).
  destruct (staged fs0 t) as [d0|] eqn:Hst; [|by rewrite (mv_none _ _ HM t Hst) in Hdata].
  destruct (mv_staged _ _ HM t d0 Hst) as [[Hd Hnew]|(Hd & _)]; [|congruence].
  assert (d0 = d) as -> by congruence. assert (Ht : tgt t) by (right; by eexists).
  destruct (rd_names _ _ Hready t) as [Hlf Hnul]; [by eexists|].
  wp_step. eapply wp_conseq; [exact (wp_prepare_target fs0 _ targets true APPLYING J fs t (mv_inv _ _ HM) Ht Hnew Hlf Hnul)| |done].
  intros r fs1 [Hq Hcase]. cbn beta. destruct (r =? 0) eqn:Er; boolify.
  2: { apply Hfail. destruct Hcase as [[_ H]|[o H]]; by eexists. }
  destruct Hcase as [[? _]|[o HJ1]]; [done|].
  assert (Hap : applying fs1) by (by eexists).
  wp_step. wp_step; [|by wp_step; apply Hfail]. wp_step.
  apply wp_op; [|intros _; split; [intros e; by apply Hfail|done]].
  assert (Hgs : Forall good_name (p_stage ++ t)) by (apply Forall_app; split; [apply good_names|done]).
  destruct (rename_cases (show_path (p_stage ++ t)) (show_path t) fs1 (ji_ok _ _ _ _ _ HJ1))
    as [(e & ->)|(m' & d' & -> & Hsrc' & _ & _ & _ & Hok)]; [by apply Hfail|].
  rewrite (resolve_show _ Hgs), (resolve_show _ Hg) in *. cbn [fst snd rc Z.eqb].
  assert (Hsame : fs1 !! (p_stage ++ t) = fs !! (p_stage ++ t)) by (apply Hq, stage_prefix).
  assert (d' = d) as -> by congruence.
  pose proof (moving_rename J fs fs1 o t m' d HM Hq HJ1 Ht Hnew Hst Hsrc' Hok) as HM'.
  apply (Hk _ _ HM'); [rewrite fmap_app; set_solver|].
  rewrite data_insert_ne by (intros E; symmetry in E; apply outside_ne_stage in E; [done|by apply (to_outside _ targets)]).
  unfold data_at. by rewrite lookup_delete_eq.
Qed.

Lemma rel_child_join b n : Forall good_name b -> rel_child (join SLASH b) n = join SLASH (b ++ [n]).
Proof.
  intros Hg. unfold rel_child. destruct b as [|c b]; [done|].
  assert (Hj : SLASH :: join SLASH ((c :: b) ++ [n]) = SLASH :: join SLASH (c :: b) ++ SLASH :: n).
  { rewrite <- show_join by done. rewrite show_snoc. by rewrite (show_join (c :: b)). }
  apply (f_equal tail) in Hj. cbn [tail] in Hj. rewrite Hj, decide_False; [done|]. intros E.
  destruct (join_good (c :: b) Hg ltac:(done)) as (_ & _ & Hc). by rewrite E in Hc.
Qed.

(** The subtree of the stage at [b] has been emptied of regular files. *)
Definition emptied (b : path) (fs : fsys) : Prop := forall t, b `prefix_of` t -> data_at fs (p_stage ++ t) = None.

Definition moved (b : path) J fs : Prop := exists J', moving J' fs /\ J.*2 ⊆ J'.*2 /\ emptied b fs.

Lemma emptied_mono J J' b fs fs' :
  moving J fs -> moving J' fs' -> J.*2 ⊆ J'.*2 -> emptied b fs -> emptied b fs'.
Proof. intros HM HM' HJ He t Ht. eapply (moving_gone J J' fs fs'); [done..|]. by apply He. Qed.

Lemma wp_apply_each fuel b ns :
  (forall b J fs, Forall good_name b -> moving J fs ->
     wp true (apply_stage_at fuel p_journal (show_path (p_stage ++ b)) (join SLASH b))
       (phase (moved b J)) applying fs) ->
  forall J fs, Forall good_name b -> Forall good_name ns -> moving J fs ->
  wp true (apply_each fuel p_journal (show_path (p_stage ++ b)) (join SLASH b) ns)
    (phase (λ fs', exists J', moving J' fs' /\ J.*2 ⊆ J'.*2 /\ forall n, n ∈ ns -> emptied (b ++ [n]) fs'))
    applying fs.
Proof.
  intros Hrec. induction ns as [|n ns IH]; intros J fs Hg Hns HM.
  { cbn. wp_step. left. split; [done|]. exists J. split; [done|]. split; [done|].
    intros n Hn. by apply elem_of_nil in Hn. }
  inversion_clear Hns as [|? ? Hn Hns']. rewrite apply_each_cons, (rel_child_join b n Hg). cbn zeta.
  assert (Hgn : Forall good_name (b ++ [n])) by (apply Forall_app; split; [done|by apply Forall_singleton]).
  assert (Hne : b ++ [n] ≠ []) by (by destruct b).
  rewrite <- show_snoc, <- app_assoc, <- (show_join (b ++ [n]) Hne).
  assert (Hap : applying fs) by (exists J; apply HM).
  set (Q := phase (λ fs', exists J', moving J' fs' /\ J.*2 ⊆ J'.*2 /\ forall x, x ∈ n :: ns -> emptied (b ++ [x]) fs')).
  assert (Hfail : forall fs', applying fs' -> Q (-1) fs') by (intros; right; split; [lia|done]).
  assert (Hnext : forall J1 fs1, moving J1 fs1 -> J.*2 ⊆ J1.*2 -> emptied (b ++ [n]) fs1 ->
    wp true (apply_each fuel p_journal (show_path (p_stage ++ b)) (join SLASH b) ns) Q applying fs1).
  { intros J1 fs1 HM1 HJ1 He. eapply wp_conseq; [by apply (IH J1)| |done].
    intros r fs' [(-> & J2 & HM2 & HJ2 & H)|H]; [left|by right]. split; [done|]. exists J2.
    split; [done|]. split; [by etrans|]. intros x [->|Hx]%elem_of_cons; [|by apply H].
    by eapply (emptied_mono J1 J2). }
  wp_step; [by wp_step; apply Hfail|]. wp_step.
  apply wp_pure_op; [|intros _; split; [intros e; wp_step; by apply Hfail|done]].
  assert (Hgs : Forall good_name (p_stage ++ b ++ [n])) by (apply Forall_app; split; [apply good_names|done]).
  destruct (fs_stat fs (show_path (p_stage ++ b ++ [n]))) as [[m d| |]|] eqn:Est;
    [| |by wp_step; apply Hfail|by wp_step; apply Hfail].
  - apply stat_found in Est; [|done]. apply (wp_move_file J fs (b ++ [n]) m d); [done|done|exact Est|done|].
    intros J' fs' HM' HJ' Hd. apply (Hnext J'); [done..|]. intros t [k ->].
    destruct (decide (k = [])) as [->|Hk]; [by rewrite app_nil_r|].
    eapply (moving_gone J J' fs fs'); [done..|]. unfold data_at.
    destruct (fs !! (p_stage ++ (b ++ [n]) ++ k)) as [x|] eqn:E; [|done]. exfalso.
    assert (Hx : get fs ((p_stage ++ b ++ [n]) ++ k) = Some x).
    { rewrite <- app_assoc, <- (app_assoc b) in *. exact E. }
    apply (get_prefix_dir fs (ji_ok _ _ _ _ _ (mv_inv _ _ HM))) in Hx; [|done]. rewrite Hx in Est. done.
  - wp_step. eapply wp_conseq; [by apply (Hrec (b ++ [n]) J)| |done].
    intros r fs1 [(-> & J1 & HM1 & HJ1 & He)|[Hr H]]; [by apply (Hnext J1)|].
    cbn beta. rewrite (proj2 (Z.eqb_neq r 0) Hr). by apply Hfail.
Qed.

Lemma wp_apply_stage_at fuel b J fs :
  Forall good_name b -> moving J fs ->
  wp true (apply_stage_at fuel p_journal (show_path (p_stage ++ b)) (join SLASH b)) (phase (moved b J)) applying fs.
Proof.
  revert b J fs. induction fuel as [|fuel IH]; intros b J fs Hg HM.
  { cbn. wp_step. right. split; [lia|]. exists J. apply HM. }
  rewrite apply_stage_S. pose proof (ji_ok _ _ _ _ _ (mv_inv _ _ HM)) as Hok.
  assert (Hap : applying fs) by (exists J; apply HM).
  assert (Hgs : Forall good_name (p_stage ++ b)) by (apply Forall_app; split; [apply good_names|done]).
  wp_step. apply wp_list.
  2: { intros _. split; [|done]. intros e. wp_step. right. split; [lia|done]. }
  intros r Hr. apply list_names in Hr. destruct r as [names|e]; [|wp_step; right; split; [lia|done]].
  destruct Hr as [Hst Hr]. rewrite resolve_show in Hr by done. apply stat_found in Hst; [|done].
  eapply wp_conseq; [apply (wp_apply_each fuel b names IH J fs Hg)| |done].
  - rewrite Hr. by apply children_good.
  - done.
  - intros r fs' [(-> & J' & HM' & HJ' & He)|H]; [left|by right]. split; [done|]. exists J'.
    split; [done|]. split; [done|]. intros t [k ->].
    assert (Hkids : forall n k, n ∉ names -> data_at fs (p_stage ++ b ++ [n] ++ k) = None).
    { intros n k' Hn. unfold data_at. destruct (fs !! (p_stage ++ b ++ [n] ++ k')) as [x|] eqn:E; [|done].
      exfalso. apply Hn. rewrite Hr. apply children_spec.
      assert (Hx : get fs (((p_stage ++ b) ++ [n]) ++ k') = Some x) by (rewrite <- !app_assoc; exact E).
      destruct (decide (k' = [])) as [->|Hk]; [rewrite app_nil_r in Hx; by eexists|].
      apply (get_prefix_dir fs Hok) in Hx; [|done]. by eexists. }
    destruct k as [|n k].
    + rewrite app_nil_r. eapply (moving_gone J J' fs fs'); [done..|]. unfold data_at.
      change (get fs (p_stage ++ b)) with (fs !! (p_stage ++ b)) in Hst. by rewrite Hst.
    + destruct (decide (n ∈ names)) as [Hin|Hout].
      * apply (He n Hin). exists k. by rewrite <- app_assoc.
      * eapply (moving_gone J J' fs fs'); [done..|]. by apply Hkids.
Qed.

(** ** The whole commit *)

Local Notation PENDING := (B "pending-kernel").
Local Notation COMMITTED := (B "committed").

(** Before the commit point: a rollback undoes everything. *)
Definition recoverable fs : Prop := exists s J, (s = B "prepared" \/ s = APPLYING) /\ jinv s J fs.

(** After the commit point, possibly with part of the transaction directory removed. *)
Record finished fs : Prop := {
  fi_ok : fs_ok fs;
  fi_short : short p_txn fs;
  fi_live : live_new fs0 lines fs;
  fi_state : data_at fs p_state = Some (PENDING ++ [LF]) \/ data_at fs p_state = Some (COMMITTED ++ [LF]) \/
             (fs !! p_state = None /\ ancestors_ok fs p_state)
}.

Lemma applying_recoverable fs : applying fs -> recoverable fs.
Proof. intros [J H]. exists APPLYING, J. auto. Qed.

Lemma moving_live J fs : moving J fs -> emptied [] fs -> live_new fs0 lines fs.
Proof.
  intros HM He p Hp. unfold committed. destruct (staged fs0 p) as [d|] eqn:Hs.
  - destruct (mv_staged _ _ HM p d Hs) as [[H _]|(_ & H & _)]; [|done].
    rewrite (He p) in H by apply prefix_nil. done.
  - destruct (decide (p ∈ comps <$> lines)) as [(l & -> & Hl)%list_elem_of_fmap|Hnl].
    + by apply (mv_deleted _ _ HM).
    + apply (ji_frame _ _ _ _ _ (mv_inv _ _ HM)); [done|]. intros Hin.
      destruct (entry_in _ _ _ _ _ _ (mv_inv _ _ HM) Hin) as (o & _ & [Ht _ _ _ _ _ _]).
      destruct Ht as [(l & Hl & _ & _ & E)|[d Hd]]; [|cbn in Hd; congruence].
      apply Hnl, list_elem_of_fmap. exists l. cbn in E. by rewrite E.
Qed.

Lemma only_state_data fs fs' p : only_state fs fs' -> outside p -> data_at fs' p = data_at fs p.
Proof.
  intros H Hp. unfold data_at. rewrite H; [done|..]; intros ->; apply Hp, (inside_child _ []).
Qed.

Lemma jinv_finished s J fs : s = PENDING \/ s = COMMITTED -> jinv s J fs -> live_new fs0 lines fs -> finished fs.
Proof.
  intros Hs HJ Hl. split; [apply HJ|apply HJ|done|]. pose proof (ji_state _ _ _ _ _ HJ) as Hst.
  destruct Hs as [-> | ->]; auto.
Qed.

Lemma finished_shrunk fs fs' : finished fs -> shrunk p_txn fs fs' -> finished fs'.
Proof.
  intros [H1 H2 H3 H4] Hs. split; [apply Hs|by eapply short_shrunk| |].
  - intros p Hp. rewrite (shrunk_data _ _ _ _ Hs Hp). by apply H3.
  - destruct (sh_same _ _ _ Hs p_state) as [E|[_ E]].
    + unfold data_at in *. rewrite E. destruct H4 as [H|[H|[H Ha]]]; [by left|by right; left|].
      right. right. split; [done|]. intros a b Hab Hb. specialize (Ha a b Hab Hb).
      destruct (decide (a = [])) as [->|Hne]; [by right|]. rewrite get_lookup in * by done.
      destruct (sh_same _ _ _ Hs a) as [->|[_ ->]]; auto.
    + right. right. split; [done|].
      assert (Ha : ancestors_ok fs p_state).
      { destruct H4 as [H|[H|[_ H]]]; [..|done]; unfold data_at in H;
          (destruct (fs !! p_state) as [n|] eqn:En; [|done]); by apply (ancestors_of_node fs p_state n). }
      intros a b Hab Hb. specialize (Ha a b Hab Hb).
      destruct (decide (a = [])) as [->|Hne]; [by right|]. rewrite get_lookup in * by done.
      destruct (sh_same _ _ _ Hs a) as [->|[_ ->]]; auto.
Qed.

Lemma read_delete fs :
  only_state fs0 fs -> jinv APPLYING [] fs -> exists m d, fs_read TXN_DELETE fs = (inl (m, d), fs) /\ owner_lines d = lines.
Proof.
  intros Ho HJ. destruct (rd_delete _ _ Hready) as (d & Hd & Hl). unfold data_at in Hd.
  destruct (fs0 !! p_delete) as [[m d'| |]|] eqn:E; try done. injection Hd as ->. exists m, d. split; [|done].
  unfold fs_read. assert (Hst : fs_stat fs TXN_DELETE = inl (Reg m d)); [|by rewrite Hst].
  apply stat_get; [apply HJ| |done]. change (get fs p_delete = Some (Reg m d)).
  rewrite get_lookup by done. by rewrite Ho.
Qed.

(** The applying part of [txn_commit], up to the commit point. *)
Lemma wp_apply_all (pending : bool) fs :
  only_state fs0 fs -> jinv APPLYING [] fs ->
  wp true (d ← sys_read TXN_DELETE;
           match d with
           | inr _ => mret (-1)
           | inl (_, data) =>
               delete_each p_journal (owner_lines data) ?;
               apply_stage_dir p_journal HERALD_TXN_STAGE [] ?;
               (_ ← sys_sync; write_state (if pending then PENDING else COMMITTED))
           end)
    (λ c fs', (c = 0 /\ finished fs') \/ (c ≠ 0 /\ applying fs')) (λ fs', recoverable fs' \/ finished fs') fs.
Proof.
  intros Ho HJ. assert (Hap : applying fs) by (by eexists).
  assert (Hrec : forall fs', applying fs' -> recoverable fs' \/ finished fs') by (intros; left; by apply applying_recoverable).
  wp_step. apply wp_op; [|intros _; split; [intros e; wp_step; right; split; [lia|done]|by apply Hrec]].
  destruct (read_delete fs Ho HJ) as (m & d & -> & Hl). cbn [fst snd]. rewrite Hl.
  assert (HD : deleting [] [] fs).
  { split; [done| | |].
    - intros p [k ->]. by apply Ho.
    - intros t Ht. by apply elem_of_nil in Ht.
    - intros l Hl'. by apply elem_of_nil in Hl'. }
  wp_step. eapply wp_conseq; [apply (wp_delete_each [] [] lines fs HD); auto| |exact Hrec].
  intros r fs1 [(-> & J & done & HD1 & Hall)|[Hr H]]; cbn beta.
  2: { rewrite (proj2 (Z.eqb_neq r 0) Hr). right. split; [lia|exact H]. }
  cbn [Z.eqb]. pose proof (deleting_moving J done fs1 HD1 Hall) as HM.
  wp_step. eapply wp_conseq; [apply (wp_apply_stage_at TXN_PATH_MAX [] J fs1 ltac:(constructor) HM)| |exact Hrec].
  intros r fs2 [(-> & J2 & HM2 & _ & He)|[Hr H]]; cbn beta.
  2: { rewrite (proj2 (Z.eqb_neq r 0) Hr). right. split; [lia|exact H]. }
  cbn [Z.eqb]. pose proof (moving_live J2 fs2 HM2 He) as Hlive.
  assert (Hap2 : applying fs2) by (exists J2; apply HM2).
  assert (Hw : wp true (write_state (if pending then PENDING else COMMITTED))
    (λ c fs', (c = 0 /\ finished fs') \/ (c ≠ 0 /\ applying fs')) (λ fs', recoverable fs' \/ finished fs') fs2).
  { assert (Hfin : forall fs', only_state fs2 fs' -> jinv (if pending then PENDING else COMMITTED) J2 fs' -> finished fs').
    { intros fs' Ho' HJ'. eapply jinv_finished; [|exact HJ'|]; [destruct pending; auto|].
      intros p Hp. rewrite (only_state_data fs2 fs' p Ho' Hp). by apply Hlive. }
    eapply wp_conseq; [apply (wp_write_state fs0 _ targets true APPLYING _ J2), HM2| |].
    - intros r fs' [Ho' [[-> HJ']|[-> HJ']]]; [left; eauto|right; split; [lia|by eexists]].
    - intros fs' [Ho' [HJ'|HJ']]; [left; apply applying_recoverable; by eexists|right; eauto]. }
  wp_step. apply wp_pure_op; [exact Hw|]. intros _. split; [intros e; exact Hw|by apply Hrec].
Qed.

(** Everything after the test for a kernel update. *)
Lemma wp_commit_rest (pending : bool) :
  wp true
    (write_state APPLYING ?;
     (j ← sys_open_append TXN_JOURNAL;
      match j with
      | inr _ => mret (-1)
      | inl jfd =>
          c ← (d ← sys_read TXN_DELETE;
               match d with
               | inr _ => mret (-1)
               | inl (_, data) =>
                   delete_each jfd (owner_lines data) ?;
                   apply_stage_dir jfd HERALD_TXN_STAGE [] ?;
                   (_ ← sys_sync; write_state (if pending then PENDING else COMMITTED))
               end);
          _ ← sys_close jfd;
          if c =? 0 then
            if pending then mret 0 else _ ← remove_tree HERALD_TXN_DIR; mret 0
          else _ ← rollback; mret (-1)
      end))
    (λ r fs, (r = 0 /\ finished fs) \/ (r = -1 /\ recoverable fs)) (λ fs, recoverable fs \/ finished fs) fs0.
Proof.
  wp_step. eapply wp_conseq; [apply (wp_write_state fs0 _ targets true (B "prepared") APPLYING [] fs0), jinv_start| |].
  2: { intros fs' [_ [H|H]]; left; [exists (B "prepared"), []|exists APPLYING, []]; auto. }
  intros r fs1 [Ho [[-> HJ]|[-> HJ]]]; cbn [Z.eqb].
  2: { right. split; [done|]. exists (B "prepared"), []. auto. }
  assert (Hap : applying fs1) by (by eexists). pose proof (applying_recoverable _ Hap) as Hrec.
  wp_step. apply wp_op; [|intros _; split; [intros e; wp_step|]; by auto].
  destruct (stat_journal _ _ _ _ _ HJ) as (m & d & _ & Hst). unfold fs_open_append. rewrite Hst. cbn [fst snd].
  change (resolve TXN_JOURNAL) with p_journal.
  wp_step. eapply wp_conseq; [by apply (wp_apply_all pending)| |done].
  intros c fs2 Hc. cbn beta.
  assert (Htail : wp true (if c =? 0 then if pending then mret 0 else _ ← remove_tree HERALD_TXN_DIR; mret 0
                           else _ ← rollback; mret (-1))
    (λ r fs, (r = 0 /\ finished fs) \/ (r = -1 /\ recoverable fs)) (λ fs, recoverable fs \/ finished fs) fs2).
  { destruct Hc as [[-> Hf]|[Hc [J HJ2]]].
    - cbn [Z.eqb]. destruct pending; [wp_step; by auto|]. wp_step.
      change HERALD_TXN_DIR with (show_path p_txn).
      eapply wp_conseq; [apply wp_remove_tree; [apply Hf|apply good_names|done]| |].
      + intros r fs3 Hs. wp_step. left. split; [done|]. by eapply finished_shrunk.
      + intros fs3 Hs. right. by eapply finished_shrunk.
    - rewrite (proj2 (Z.eqb_neq c 0) Hc). wp_step.
      eapply wp_conseq; [by apply (wp_rollback fs0 _ targets true APPLYING J)| |].
      + intros r fs3 HJ3. wp_step. right. split; [done|]. exists APPLYING, J. auto.
      + intros fs3 HJ3. left. exists APPLYING, J. auto. }
  assert (Hcr : recoverable fs2 \/ finished fs2).
  { destruct Hc as [[_ H]|[_ H]]; [by right|left; by apply applying_recoverable]. }
  wp_step. apply wp_pure_op; [exact Htail|]. intros _. split; [intros e; exact Htail|exact Hcr].
Qed.

Lemma wp_txn_commit :
  wp true txn_commit (λ r fs, (r = 0 /\ finished fs) \/ (r = -1 /\ recoverable fs))
    (λ fs, recoverable fs \/ finished fs) fs0.
Proof.
  assert (H0 : recoverable fs0) by (exists (B "prepared"), []; split; [by left|apply jinv_start]).
  unfold txn_commit. wp_step. apply wp_pure_op.
  - exact (wp_commit_rest (match fs_stat fs0 (HERALD_TXN_STAGE ++ HERALD_UPDATE_PENDING) with
                           | inl _ => true | inr _ => false end)).
  - intros _. split; [|by left]. intros e. exact (wp_commit_rest false).
Qed.

(** ** Recovery *)

(** The kernel-update marker can be removed: no directory is in its place. *)
Definition marker_clear fs : Prop := get fs p_pending ≠ Some Dir /\ ancestors_ok fs p_pending.

Lemma read_state_is fs s C Q :
  fs_ok fs -> data_at fs p_state = Some (s ++ [LF]) -> Q (inl ((λ '(l, _), cstr l) <$> fgets 32 (s ++ [LF]))) fs ->
  wp false read_state Q C fs.
Proof.
  intros Hok Hd HQ. unfold read_state. wp_step. apply wp_op; [|done].
  unfold data_at in Hd. destruct (fs !! p_state) as [[m d| |]|] eqn:E; try done. injection Hd as ->.
  unfold fs_read. assert (Hst : fs_stat fs TXN_STATE = inl (Reg m (s ++ [LF]))).
  { apply stat_get; [done| |done]. change (get fs p_state = Some (Reg m (s ++ [LF]))). by rewrite get_lookup. }
  rewrite Hst. by wp_step.
Qed.

Lemma calm_remove_txn fs :
  fs_ok fs -> short p_txn fs -> get fs p_txn = Some Dir ->
  wp false (r ← remove_tree HERALD_TXN_DIR; mret (if r =? 0 then 0 else -1))
    (λ r fs', r = 0 /\ fs' !! p_state = None /\ forall p, outside p -> data_at fs' p = data_at fs p) (λ _, False) fs.
Proof.
  intros Hok Hsh Hd. wp_step. change HERALD_TXN_DIR with (show_path p_txn).
  eapply wp_conseq; [apply calm_remove_tree; [done|apply good_names|done|done|exact Hd]| |done].
  intros r fs' (-> & Hno & Hs). wp_step. split; [done|]. split.
  - destruct (fs' !! p_state) as [n|] eqn:E; [|done]. apply (ok_parent _ (sh_ok _ _ _ Hs)) in E.
    change (fs' !! p_txn = Some Dir) in E. congruence.
  - intros p Hp. by eapply shrunk_data.
Qed.

Lemma calm_recover_old fs :
  recoverable fs ->
  wp false txn_recover (λ r fs', r = 0 /\ fs' !! p_state = None /\ live_old fs0 fs') (λ _, False) fs.
Proof.
  intros (s & J & Hs & HJ). unfold txn_recover. wp_step.
  eapply read_state_is; [apply HJ|apply HJ|].
  assert (Hroll : wp false (c1 ← rollback; c2 ← mret 0;
     if (c1 =? 0) && (c2 =? 0) then r ← remove_tree HERALD_TXN_DIR; mret (if r =? 0 then 0 else -1) else mret (-1))
     (λ r fs', r = 0 /\ fs' !! p_state = None /\ live_old fs0 fs') (λ _, False) fs).
  { wp_step. eapply wp_conseq; [by apply (calm_rollback fs0 _ targets s J)| |done].
    intros r fs1 (-> & HJ1 & Hold). wp_step. wp_step. cbn [Z.eqb andb].
    eapply wp_conseq; [apply calm_remove_txn; [apply HJ1|apply HJ1|by eapply jinv_txn_dir]| |done].
    intros r fs' (-> & Hn & Hd). split; [done|]. split; [done|]. intros p Hp. by rewrite Hd, Hold. }
  destruct Hs as [-> | ->]; exact Hroll.
Qed.

Lemma calm_unlink_pending fs :
  fs_ok fs ->
  wp false unlink_pending
    (λ r fs', fs_ok fs' /\ (r = 0 \/ (r = -1 /\ ~ marker_clear fs)) /\ forall p, p ≠ p_pending -> fs' !! p = fs !! p)
    (λ _, False) fs.
Proof.
  intros Hok. unfold unlink_pending. wp_step. apply wp_op; [|done].
  assert (Hr : resolve HERALD_UPDATE_PENDING = p_pending) by reflexivity.
  destruct (unlink_cases HERALD_UPDATE_PENDING fs Hok) as [(e & E & He)|(n & -> & _ & _ & _ & Hok')].
  - rewrite E. wp_step. split; [done|]. split; [|done]. destruct (decide (e = ENOENT)) as [->|Hne]; [by left|right].
    split; [by destruct e|]. intros [Hd Ha]. unfold fs_unlink, fs_stat in E. rewrite Hr in E.
    destruct (ancestors_ok_walk fs p_pending Ha) as [Hw|Hw]; rewrite Hw in E; [|congruence].
    change (wants_dir HERALD_UPDATE_PENDING) with false in E.
    destruct (get fs p_pending) as [[]|]; congruence.
  - wp_step. split; [done|]. split; [by left|]. rewrite Hr. intros p Hp. by apply lookup_delete_ne.
Qed.

(** The live data after recovery, apart from the kernel-update marker. *)
Definition settled fs : Prop :=
  forall p, outside p -> p ≠ p_pending -> data_at fs p = committed fs0 lines p.

Lemma calm_recover_new fs :
  finished fs ->
  wp false txn_recover
    (λ r fs', settled fs' /\ ((r = 0 /\ fs' !! p_state = None) \/
       (r = 1 /\ data_at fs' p_state = Some (PENDING ++ [LF])) \/ (r = -1 /\ ~ marker_clear fs))) (λ _, False) fs.
Proof.
  intros [Hok Hsh Hlive Hst]. unfold txn_recover. wp_step.
  assert (Hset : settled fs) by (intros p Hp _; by apply Hlive).
  destruct Hst as [Hp|[Hc|[Hn Ha]]].
  - eapply read_state_is; [done|exact Hp|].
    assert (Hgo : wp false (mret 1) (λ r fs', settled fs' /\ ((r = 0 /\ fs' !! p_state = None) \/
       (r = 1 /\ data_at fs' p_state = Some (PENDING ++ [LF])) \/ (r = -1 /\ ~ marker_clear fs))) (λ _, False) fs);
      [|exact Hgo]. wp_step. auto.
  - eapply read_state_is; [done|exact Hc|].
    assert (Hd : get fs p_txn = Some Dir).
    { unfold data_at in Hc. destruct (fs !! p_state) as [n|] eqn:E; [|done]. by apply (ok_parent _ Hok) in E. }
    assert (Hgo : wp false (c1 ← mret 0; c2 ← unlink_pending;
     if (c1 =? 0) && (c2 =? 0) then r ← remove_tree HERALD_TXN_DIR; mret (if r =? 0 then 0 else -1) else mret (-1))
    (λ r fs', settled fs' /\ ((r = 0 /\ fs' !! p_state = None) \/
       (r = 1 /\ data_at fs' p_state = Some (PENDING ++ [LF])) \/ (r = -1 /\ ~ marker_clear fs))) (λ _, False) fs);
      [|exact Hgo].
    wp_step. wp_step. wp_step. eapply wp_conseq; [by apply calm_unlink_pending| |done].
    intros r fs1 (Hok1 & Hr & Hsame). cbn beta.
    assert (Hset1 : settled fs1).
    { intros p Hp Hne. rewrite <- (Hset p Hp Hne). unfold data_at. by rewrite Hsame. }
    destruct Hr as [->|[-> Hm]]; [|cbn [Z.eqb andb]; wp_step; by auto]. cbn [Z.eqb andb].
    eapply wp_conseq; [apply calm_remove_txn; [done| |]| |done].
    + intros p n Hp Hn. apply (Hsh p n Hp). rewrite <- Hsame; [done|]. by intros ->; destruct Hp.
    + rewrite get_lookup in * by done. by rewrite Hsame.
    + intros r fs' (-> & Hn & Hd'). split; [|by auto]. intros p Hp Hne. rewrite Hd' by done. by apply Hset1.
  - unfold read_state. wp_step. apply wp_op; [|done]. unfold fs_read, fs_stat.
    change (resolve TXN_STATE) with p_state.
    destruct (ancestors_ok_walk fs p_state Ha) as [-> | ->].
    + rewrite get_lookup, Hn by done. wp_step. apply (wp_ret false 0). auto.
    + wp_step. apply (wp_ret false 0). auto.
Qed.

End Commit.


(** * Deciding that a concrete transaction is ready *)

Definition staged_paths (fs0 : fsys) : list path :=
  omap (λ '(p, n), match n with
                   | Reg _ _ => if decide (take 5 p = p_stage) then Some (drop 5 p) else None
                   | _ => None
                   end) (map_to_list fs0).

Definition target_paths (fs0 : fsys) (lines : list bytes) : list path :=
  (comps <$> List.filter (λ l, safe_rel l && negb (wants_dir l)) lines) ++ staged_paths fs0.

Definition readyb (fs0 : fsys) (lines : list bytes) : bool :=
  fs_okb fs0 &&
  bool_decide (data_at fs0 p_state = Some (B "prepared" ++ [LF])) &&
  bool_decide (data_at fs0 p_journal = Some []) &&
  bool_decide (owner_lines <$> data_at fs0 p_delete = Some lines) &&
  bool_decide (fs0 !! p_stage = Some Dir) &&
  forallb (λ t, bool_decide (~ p_txn `prefix_of` t)) (target_paths fs0 lines) &&
  forallb (λ t, forallb (λ t', bool_decide (t `prefix_of` t' -> t = t')) (target_paths fs0 lines))
    (target_paths fs0 lines) &&
  forallb (λ l, bool_decide (staged fs0 (comps l) = None)) lines &&
  forallb (λ t, negb (has_char LF (join SLASH t)) && negb (has_char NUL (join SLASH t))) (staged_paths fs0) &&
  forallb (λ '(p, _), fits TXN_PATH_MAX (show_path p)) (map_to_list fs0).

Section Ready.

Lemma staged_paths_spec fs0 t : is_Some (staged fs0 t) -> t ∈ staged_paths fs0.
Proof.
  intros [d Hd]. unfold staged, data_at in Hd. destruct (fs0 !! (p_stage ++ t)) as [n|] eqn:E; [|done].
  apply list_elem_of_omap. exists (p_stage ++ t, n). split; [by apply elem_of_map_to_list|].
  by destruct n.
Qed.

Lemma target_paths_spec fs0 lines t : target fs0 lines t -> t ∈ target_paths fs0 lines.
Proof.
  intros [(l & Hl & Hs & Hw & <-)|Ht]; apply elem_of_app; [left|right; by apply staged_paths_spec].
  apply list_elem_of_fmap. exists l. split; [done|]. apply list_elem_of_In, filter_In.
  rewrite Hs, Hw. split; [by apply list_elem_of_In|done].
Qed.

Lemma forallb_elem {A} (f : A -> bool) l x : forallb f l = true -> x ∈ l -> f x = true.
Proof. intros H Hx. rewrite forallb_forall in H. by apply H, list_elem_of_In. Qed.

Lemma readyb_sound fs0 lines : readyb fs0 lines = true -> ready fs0 lines.
Proof.
  unfold readyb. intros H. boolify. split; try done.
  - by apply fs_okb_sound.
  - destruct (data_at fs0 p_delete) as [d|]; [|done]. exists d. split; [done|].
    match goal with H : _ <$> Some _ = Some _ |- _ => by injection H end.
  - intros t Ht%target_paths_spec. pose proof (forallb_elem _ _ t H4 Ht) as X. cbn beta in X. by boolify.
  - intros t t' Ht%target_paths_spec Ht'%target_paths_spec.
    pose proof (forallb_elem _ _ t' (forallb_elem _ _ t H3 Ht) Ht') as X.
    cbn beta in X. by boolify.
  - intros l Hl. pose proof (forallb_elem _ _ l H2 Hl) as X. cbn beta in X. by boolify.
  - intros t Ht%staged_paths_spec. pose proof (forallb_elem _ _ t H1 Ht) as X. cbn beta in X. boolify. split; by apply has_char_false.
  - intros p n _ Hn. apply (forallb_elem _ _ (p, n) H0). by apply elem_of_map_to_list.
Qed.

End Ready.

(** The tree of a prepared transaction with the given deletion queue, live
    files and staged files. *)
Definition prepared (queue : bytes) (live stage : list (string * node)) : fsys :=
  tree (app live (app [
    ("/etc", Dir); ("/etc/aegis", Dir); ("/etc/aegis/herald", Dir);
    ("/etc/aegis/herald/transaction", Dir);
    ("/etc/aegis/herald/transaction/backup", Dir);
    ("/etc/aegis/herald/transaction/state", Reg 384 (B "prepared" ++ [LF]));
    ("/etc/aegis/herald/transaction/journal", Reg 384 []);
    ("/etc/aegis/herald/transaction/delete", Reg 384 queue);
    ("/etc/aegis/herald/transaction/stage", Dir)]
    ((λ '(s, n), (("/etc/aegis/herald/transaction/stage" +:+ s)%string, n)) <$> stage)))%string.

(** An update: /bin/a is replaced, /bin/b is deleted, /lib/c is new. *)
Definition sample_txn : fsys :=
  prepared (B "bin/b" ++ [LF])
    [("/bin", Dir); ("/bin/a", Reg 493 (B "old a")); ("/bin/b", Reg 493 (B "old b")); ("/lib", Dir)]%string
    [("/bin", Dir); ("/bin/a", Reg 420 (B "new a")); ("/lib", Dir); ("/lib/c", Reg 420 (B "new c"))]%string.

Lemma sample_ready : ready sample_txn [B "bin/b"].
Proof. apply readyb_sound. vm_compute. reflexivity. Qed.


(** * Outside the hypotheses *)

(** A schedule with one verdict other than success. *)
Definition at_call (n : nat) (v : verdict) : nat -> verdict := λ k, if decide (k = n) then v else VOk.

(** A commit with that schedule, directories read in the reverse order. *)
Definition commit_with (n : nat) (v : verdict) (fs : fsys) : world :=
  outcome_world (txn_commit (World fs 0 (at_call n v) (@rev name))).

Definition recover_with (s : nat -> verdict) (w : world) : world := outcome_world (txn_recover (reboot w s)).

(** recovery cannot itself be interrupted.  A first recovery rolls /bin/b
    back and stops while it removes the backups, with the state file and the
    journal still there; the second one replays the journal, finds no backup,
    and [copy_file] unlinks its destination on failure: the restored file is
    gone. *)
Theorem recovery_not_restartable :
  let w1 := commit_with 60 VCrash sample_txn in
  let w2 := recover_with (at_call 24 VCrash) w1 in
  let w3 := recover_with (λ _, VOk) w2 in
  data_at (w_fs w2) [B "bin"; B "b"] = Some (B "old b") /\
  data_at (w_fs w3) [B "bin"; B "b"] = None.
Proof. vm_compute. done. Qed.

(** a short write of a journal line leaves a shorter path in the journal,
    without its newline.  The failed commit rolls back at once and acts on it:
    here "N lib/cd" was cut to "N lib/c", and a file that is no part of the
    transaction is deleted. *)
Theorem torn_journal_deletes_bystander :
  let fs := prepared [] [("/lib", Dir); ("/lib/c", Reg 420 (B "unrelated"))]%string
                        [("/lib", Dir); ("/lib/cd", Reg 420 (B "new"))]%string in
  ready fs [] /\ data_at fs [B "lib"; B "c"] = Some (B "unrelated") /\
  data_at (w_fs (commit_with 19 (VShort 7) fs)) [B "lib"; B "c"] = None.
Proof.
  split; [apply readyb_sound; vm_compute; reflexivity|]. vm_compute. done.
Qed.

(** Rollback restores the contents of a replaced file but not its mode: the
    file keeps the mode of the version that was taken back. *)
Lemma rollback_keeps_new_mode :
  let w := recover_with (λ _, VOk) (commit_with 70 VCrash sample_txn) in
  sample_txn !! [B "bin"; B "a"] = Some (Reg 493 (B "old a")) /\
  w_fs w !! [B "bin"; B "a"] = Some (Reg 420 (B "old a")).
Proof. vm_compute. done. Qed.

(** A path that is both queued for deletion and staged is journaled twice, as
    replaced and as new; undoing both in order deletes it.  This is why
    [rd_disjoint] is needed. *)
Lemma deleted_and_staged_is_lost :
  let fs := prepared (B "bin/a" ++ [LF]) [("/bin", Dir); ("/bin/a", Reg 493 (B "old"))]%string
                                          [("/bin", Dir); ("/bin/a", Reg 420 (B "new"))]%string in
  data_at (w_fs (recover_with (λ _, VOk) (commit_with 45 VCrash fs))) [B "bin"; B "a"] = None.
Proof. vm_compute. done. Qed.
