(* ===== verification/HeraldTar.v ===== *)
(** herald's ustar extractor (src/user/bin/herald/tar.c).

    An archive is a byte list.  [read_header] decodes the header block at an
    offset the way the body of [tar_walk] does, field by field and in its order
    of checks; [tar_walk] is the loop, in its two modes: extracting below a
    destination directory through the file system of [Posix], or finding an
    entry.  The theorems bound every offset by the buffer, show that the loop
    ends, characterise the path check, and confine extraction to the declared
    footprint below the destination. *)

From S2P Require Import Prelude CString Posix PosixLogic HeraldTxn HeraldTxnSpecs.
Local Open Scope Z_scope.

(** * Definitions *)

Definition TAR_BLOCK : nat := 512.
Definition TAR_NAME : nat := 100.
Definition TAR_PREFIX : nat := 155.
Definition TAR_PATHMAX : nat := TAR_PREFIX + 1 + TAR_NAME + 1.

(** The digit loop of [oct_parse]; [v] is an [unsigned long long]. *)
Fixpoint oct_digits (v : Z) (field : bytes) : option Z :=
  match field with
  | [] => Some v
  | c :: field =>
      if (c =? SP) || (c =? NUL) then Some v
      else if (c <? 48) || (55 <? c) then None
      else oct_digits (Z.lor (u64 (Z.shiftl v 3)) (c - 48)) field
  end.

Definition oct_parse (field : bytes) : option Z :=
  oct_digits 0 (drop_while (is_c SP) field).

Definition block_is_zero (b : bytes) : bool := forallb (λ c, c =? 0) b.

Definition strip_dot_slash (p : bytes) : bytes :=
  match p with
  | a :: b :: r => if (a =? DOT) && (b =? SLASH) then r else p
  | _ => p
  end.

(** [p[i] == '.' && p[i+1] == '.' && (p[i+2] == '/' || p[i+2] == '\0')] *)
Definition dotdot_here (p : bytes) : bool :=
  match p with
  | a :: b :: r =>
      (a =? DOT) && (b =? DOT) && match r with [] => true | c :: _ => c =? SLASH end
  | _ => false
  end.

(** The component scan: [p] is at the first byte of a component. *)
Fixpoint scan_components (fuel : nat) (p : bytes) : bool :=
  match p, fuel with
  | [], _ => true
  | _, O => false
  | _, S fuel =>
      if dotdot_here p then false
      else scan_components fuel (drop_while (is_c SLASH) (drop_while (not_c SLASH) p))
  end.

Definition path_is_safe (p : bytes) : bool :=
  match p with
  | [] => false
  | c :: _ => if c =? SLASH then false else scan_components (length p) p
  end.

Definition build_path (hdr : bytes) (outsz : nat) : option bytes :=
  let name := cstr (slice 0 TAR_NAME hdr) in
  let prefix := cstr (slice 345 TAR_PREFIX hdr) in
  if (0 <? length prefix)%nat then
    if (outsz <? length prefix + 1 + length name + 1)%nat then None
    else Some (prefix ++ SLASH :: name)
  else if (outsz <? length name + 1)%nat then None
  else Some name.

Definition str_starts_with (s pre : bytes) : bool := starts_with pre s.

Definition strip_trailing_slash (p : bytes) : bytes :=
  if wants_dir p then removelast p else p.

Definition mkdir_parents (p : bytes) : M Z := mkdir_each (slash_prefixes p).

Definition tar_mkdir_p (p : bytes) : M Z := mkdir_parents p ?; mkdir_ok p.

Definition magic_ok (hdr : bytes) : bool := beq (slice 257 5 hdr) (B "ustar").

(** A decoded header: the path after [strip_dot_slash], the type flag, and where
    the data lies. *)
Record entry := Entry {
  e_path : bytes;
  e_type : byte;
  e_size : Z;
  e_mode : Z;
  e_data_off : nat;
  e_padded : Z
}.

Inductive tar_err :=
  | BadMagic | BadSize | BadMode | Truncated | PathTooLong | UnsafePath
  | OutsidePaths | TargetTooLong | MkdirFailed | MkdirParentFailed | OpenFailed
  | WriteFailed | CloseFailed | OwnerFailed | NullArgument.

Inductive header :=
  | HZero                  (** an all-zero block *)
  | HEnd                   (** an all-zero name *)
  | HBad (e : tar_err)
  | HEntry (e : entry).

(** "Regular ('0'/'\0') and directory ('5')": the types that are acted on. *)
Definition acted_on (t : byte) : bool := (t =? 48) || (t =? 0) || (t =? 53).

Definition read_header (buf : bytes) (off : nat) : header :=
  let hdr := slice off TAR_BLOCK buf in
  if block_is_zero hdr then HZero
  else if block_is_zero (slice 0 TAR_NAME hdr) then HEnd
  else if negb (magic_ok hdr) then HBad BadMagic
  else match oct_parse (slice 124 12 hdr) with
  | None => HBad BadSize
  | Some size =>
  match oct_parse (slice 100 8 hdr) with
  | None => HBad BadMode
  | Some mode =>
      let typeflag := byte_at hdr 156 in
      let data_off := (off + TAR_BLOCK)%nat in
      let padded := u64 (u64 (size + 511) / 512 * 512) in
      let len := Z.of_nat (length buf) in
      if (len <? Z.of_nat data_off) || (len - Z.of_nat data_off <? padded)
      then HBad Truncated
      else match build_path hdr TAR_PATHMAX with
      | None => HBad PathTooLong
      | Some rawpath =>
          let path := strip_dot_slash rawpath in
          if acted_on typeflag && negb (path_is_safe path) then HBad UnsafePath
          else HEntry (Entry path typeflag size mode data_off padded)
      end
  end
  end.

(** The bundle-prefix restriction. *)
Definition in_footprint (allowed : list bytes) (path : bytes) : bool :=
  beq path (B "manifest") ||
  existsb (λ pp, str_starts_with path pp || (wants_dir path && str_starts_with pp path)) allowed.

(** [0755] if the archive mode has an execute bit, else [0644]. *)
Definition file_mode (mode : Z) : Z := if Z.land mode 73 =? 0 then 420 else 493.

(** Write one regular file and its line in the owner list. *)
Definition extract_file (full : bytes) (owner : option path) (e : entry) (data : bytes) :
    M (option tar_err) :=
  p ← mkdir_parents full;
  if negb (p =? 0) then mret (Some MkdirParentFailed) else
  o ← sys_open_trunc full (file_mode (e_mode e));
  match o with
  | inr _ => mret (Some OpenFailed)
  | inl wfd =>
      w ← write_loop (length data) wfd data;
      c ← sys_close wfd;
      if negb (w =? 0) then mret (Some WriteFailed)
      else if negb (rc c =? 0) then mret (Some CloseFailed)
      else match owner with
      | None => mret None
      | Some fd =>
          r ← (write_full fd (e_path e) ?; write_full fd [LF]);
          mret (if r =? 0 then None else Some OwnerFailed)
      end
  end.

(** What extraction does with one entry of a type that is acted on. *)
Definition extract_entry (dest_root : bytes) (allowed : option (list bytes))
    (owner : option path) (buf : bytes) (e : entry) : M (option tar_err) :=
  let path := e_path e in
  if negb (match allowed with Some l => in_footprint l path | None => true end)
  then mret (Some OutsidePaths)
  else if beq path (B "manifest") then mret None
  else if (TAR_PATHMAX + 256 <? length dest_root + 1 + length path + 1)%nat
  then mret (Some TargetTooLong)
  else
    let full := strip_trailing_slash (dest_root ++ SLASH :: path) in
    if e_type e =? 53 then
      r ← tar_mkdir_p full; mret (if r =? 0 then None else Some MkdirFailed)
    else extract_file full owner e (slice (e_data_off e) (Z.to_nat (e_size e)) buf).

Inductive walk_mode :=
  | Extract (dest_root : bytes) (allowed : option (list bytes)) (owner : option path)
  | Find (name : bytes).

Inductive walk_result :=
  | WDone                              (** 0 *)
  | WFound (data_off : nat) (size : Z) (** 1 *)
  | WErr (e : tar_err).                (** -1 *)

Definition next_off (e : entry) : nat := (e_data_off e + Z.to_nat (e_padded e))%nat.

Fixpoint tar_walk (fuel : nat) (mode : walk_mode) (buf : bytes) (off : nat) (zero_run : nat) :
    M walk_result :=
  match fuel with
  | O => mret WDone
  | S fuel =>
      if (length buf <? off + TAR_BLOCK)%nat then mret WDone else
      match read_header buf off with
      | HZero =>
          if (2 <=? S zero_run)%nat then mret WDone
          else tar_walk fuel mode buf (off + TAR_BLOCK)%nat (S zero_run)
      | HEnd => mret WDone
      | HBad e => mret (WErr e)
      | HEntry e =>
          if negb (acted_on (e_type e)) then tar_walk fuel mode buf (next_off e) 0 else
          match mode with
          | Find name =>
              if negb (e_type e =? 53) && beq (e_path e) name
              then mret (WFound (e_data_off e) (e_size e))
              else tar_walk fuel mode buf (next_off e) 0
          | Extract dest_root allowed owner =>
              r ← extract_entry dest_root allowed owner buf e;
              match r with
              | Some err => mret (WErr err)
              | None => tar_walk fuel mode buf (next_off e) 0
              end
          end
      end
  end.

(** One turn of the loop per block of the buffer, and one to leave it. *)
Definition walk_fuel (buf : bytes) : nat := S (length buf / TAR_BLOCK).

Definition tar_extract_mem (buf : bytes) (dest_root : bytes) (allowed : option (list bytes)) :
    M walk_result :=
  tar_walk (walk_fuel buf) (Extract dest_root allowed None) buf 0 0.

Definition tar_extract_mem_owned (buf : bytes) (dest_root : bytes)
    (allowed : option (list bytes)) (owner_fd : path) : M walk_result :=
  tar_walk (walk_fuel buf) (Extract dest_root allowed (Some owner_fd)) buf 0 0.

Definition tar_find_mem (buf : bytes) (name : bytes) : M walk_result :=
  tar_walk (walk_fuel buf) (Find (strip_dot_slash name)) buf 0 0.

(** ** Reference definitions *)

Definition octal_digit (c : byte) : Prop := 48 <= c <= 55.

(** The number a string of octal digits denotes. *)
Definition oct_value (v : Z) (ds : bytes) : Z := foldl (λ v c, 8 * v + (c - 48)) v ds.

(** What may follow the digits: nothing, a space or a NUL. *)
Definition field_end (r : bytes) : Prop :=
  match r with [] => True | c :: _ => c = SP \/ c = NUL end.

(** Relative paths an extraction may create: those at, below or above a declared
    prefix; all of them when none is declared. *)
Definition footprint (allowed : option (list bytes)) (r : path) : Prop :=
  match allowed with
  | None => True
  | Some l => exists P, P ∈ l /\ (comps P `prefix_of` r \/ r `prefix_of` comps P)
  end.

(** What an extraction below [dest] may change: the footprint, and the owner list. *)
Definition touched (dest : bytes) (allowed : option (list bytes)) (owner : option path)
    (q : path) : Prop :=
  owner = Some q \/ exists r, q = comps dest ++ r /\ r ≠ [] /\ footprint allowed r.

(** Every declared prefix names a directory: it ends in '/'. *)
Definition dir_prefixes (allowed : option (list bytes)) : Prop :=
  match allowed with None => True | Some l => Forall (λ P, wants_dir P = true) l end.

(** * Octal fields *)

Section Octal.

Lemma lor_digit v c : 0 <= v -> octal_digit c -> Z.lor (Z.shiftl v 3) (c - 48) = 8 * v + (c - 48).
Proof.
  unfold octal_digit. intros Hv Hc. pose proof (Z.add_lor_land (Z.shiftl v 3) (c - 48)) as E.
  assert (Z.land (Z.shiftl v 3) (c - 48) = 0) as H0.
  { apply Z.bits_inj'. intros i Hi. rewrite Z.land_spec, Z.bits_0, Z.shiftl_spec by done.
    destruct (decide (i < 3)).
    - by rewrite Z.testbit_neg_r by lia.
    - assert (Z.testbit (c - 48) i = false) as ->; [|by rewrite andb_false_r].
      destruct (decide (c - 48 = 0)) as [->|]; [apply Z.bits_0|].
      apply Z.bits_above_log2; [lia|].
      apply Z.log2_lt_pow2; [lia|]. assert (2 ^ 3 <= 2 ^ i) by (apply Z.pow_le_mono_r; lia). lia. }
  rewrite H0, Z.add_0_r in E. rewrite E, Z.shiftl_mul_pow2 by lia. lia.
Qed.

Lemma oct_step v c n :
  0 <= v < 8 ^ n -> 0 <= n <= 20 -> octal_digit c ->
  Z.lor (u64 (Z.shiftl v 3)) (c - 48) = 8 * v + (c - 48) /\ 0 <= 8 * v + (c - 48) < 8 ^ (n + 1).
Proof.
  intros Hv Hn Hc.
  assert (H8 : 8 ^ (n + 1) = 8 * 8 ^ n) by (rewrite Z.pow_add_r by lia; lia).
  assert (8 ^ n <= 8 ^ 20) by (apply Z.pow_le_mono_r; lia).
  rewrite u64_small.
  - rewrite lor_digit by (done || lia). unfold octal_digit in Hc. lia.
  - rewrite Z.shiftl_mul_pow2 by lia. lia.
Qed.

Lemma oct_digits_run ds r v n :
  Forall octal_digit ds -> field_end r -> 0 <= v < 8 ^ n -> 0 <= n ->
  n + Z.of_nat (length ds) <= 21 ->
  oct_digits v (ds ++ r) = Some (oct_value v ds) /\
  0 <= oct_value v ds < 8 ^ (n + Z.of_nat (length ds)).
Proof.
  intros Hd Hr. revert v n. induction Hd as [|c ds Hc Hd IH]; intros v n Hv Hn Hl.
  - rewrite Z.add_0_r. split; [|done]. destruct r as [|c r]; [done|]. simpl in *.
    by destruct Hr as [-> | ->].
  - cbn [app oct_digits length] in *.
    destruct (oct_step v c n) as [E Hb]; [done|lia|done|].
    rewrite E. unfold octal_digit in Hc.
    replace ((c =? SP) || (c =? NUL)) with false by (unfold SP, NUL; lia).
    replace ((c <? 48) || (55 <? c)) with false by lia.
    destruct (IH (8 * v + (c - 48)) (n + 1)) as [-> Hb']; [lia..|].
    split; [done|]. cbn [oct_value foldl]. unfold oct_value in Hb'.
    replace (n + Z.of_nat (S (length ds))) with (n + 1 + Z.of_nat (length ds)) by lia. done.
Qed.

(** Every accepted field has that shape. *)
Lemma oct_digits_shape v field x :
  oct_digits v field = Some x ->
  exists ds r, field = ds ++ r /\ Forall octal_digit ds /\ field_end r.
Proof.
  revert v. induction field as [|c field IH]; intros v H; simpl in H.
  - exists [], []. done.
  - destruct ((c =? SP) || (c =? NUL)) eqn:E1.
    { exists [], (c :: field). split; [done|]. split; [constructor|]. simpl.
      apply orb_prop in E1 as [?|?]; boolify; auto. }
    destruct ((c <? 48) || (55 <? c)) eqn:E2; [done|].
    apply IH in H as (ds & r & -> & Hd & Hr). exists (c :: ds), r.
    split; [done|]. split; [|done]. constructor; [|done]. boolify. unfold octal_digit. lia.
Qed.

Lemma oct_parse_bound field v :
  oct_parse field = Some v -> (length field <= 21)%nat -> 0 <= v < 8 ^ Z.of_nat (length field).
Proof.
  unfold oct_parse. intros H Hl.
  pose proof (drop_while_length (is_c SP) field) as Hd.
  destruct (oct_digits_shape _ _ _ H) as (ds & r & E & Hds & Hr). rewrite E in *.
  destruct (oct_digits_run ds r 0 0) as [E' Hb]; [done..|lia| |].
  { rewrite length_app in Hd. lia. }
  rewrite E' in H. injection H as <-. split; [lia|]. eapply Z.lt_le_trans; [apply Hb|].
  apply Z.pow_le_mono_r; rewrite ?length_app in Hd; lia.
Qed.

End Octal.

(** [oct_parse] accepts exactly the fields made of spaces, octal digits and
    an end (the field's end, a space or a NUL), its value is the number the
    digits denote, and on a field of up to 21 bytes (the code's have 8 and 12)
    it never wraps around. *)
Theorem oct_parse_spec field v :
  (length field <= 21)%nat ->
  (oct_parse field = Some v <->
   exists sp ds r, field = sp ++ ds ++ r /\ Forall (λ c, c = SP) sp /\
     Forall octal_digit ds /\ field_end r /\ (ds = [] -> head r ≠ Some SP) /\
     v = oct_value 0 ds /\ 0 <= v < 8 ^ Z.of_nat (length field)).
Proof.
  intros Hl. split.
  - intros H. pose proof (oct_parse_bound _ _ H Hl) as Hb. unfold oct_parse in H.
    pose proof (span_app (is_c SP) field) as Happ.
    pose proof (take_while_all (is_c SP) field) as Hsp.
    pose proof (drop_while_head (is_c SP) field) as Hhd.
    destruct (oct_digits_shape _ _ _ H) as (ds & r & E & Hds & Hr). rewrite E in *.
    exists (take_while (is_c SP) field), ds, r. repeat split; try done; try lia.
    + eapply Forall_impl; [exact Hsp|]. intros c Hc. by apply Z.eqb_eq in Hc.
    + intros ->. destruct r as [|c r]; [done|]. specialize (Hhd c r eq_refl).
      apply Z.eqb_neq in Hhd. simpl. congruence.
    + destruct (oct_digits_run ds r 0 0) as [E' _]; [done..|lia| |congruence].
      apply (f_equal length) in Happ. rewrite !length_app in Happ. lia.
  - intros (sp & ds & r & -> & Hsp & Hds & Hr & Hne & -> & Hb). unfold oct_parse.
    assert (drop_while (is_c SP) (sp ++ ds ++ r) = ds ++ r) as ->.
    { unfold drop_while. rewrite span_true.
      2:{ eapply Forall_impl; [exact Hsp|]. intros c ->. done. }
      cbn [snd]. unfold drop_while. destruct Hds as [|c ds Hc _].
      - destruct r as [|c r]; [done|]. simpl in *. unfold is_c.
        destruct (Z.eqb_spec c SP); [|done]. subst. by destruct Hne.
      - simpl. unfold octal_digit in Hc. unfold is_c, SP. by replace (c =? 32) with false by lia. }
    rewrite !length_app in Hl. apply (oct_digits_run ds r 0 0); [done..|lia].
Qed.

(** * Paths *)

Section Paths.

Lemma drop_slash_head p : ~ (exists r, drop_while (is_c SLASH) p = SLASH :: r).
Proof. intros [r H]. apply drop_while_head in H. done. Qed.

(** Leading separators do not matter to the non-empty components. *)
Lemma dotdot_drop_slashes p :
  [DOT; DOT] ∈ split_on SLASH (drop_while (is_c SLASH) p) <-> [DOT; DOT] ∈ split_on SLASH p.
Proof.
  induction p as [|c p IH]; [done|]. unfold drop_while in *. simpl. unfold is_c at 1.
  destruct (Z.eqb_spec c SLASH) as [->|].
  - destruct (span (is_c SLASH) p) eqn:E. simpl in *. rewrite IH. set_solver.
  - simpl. destruct (Z.eqb_spec c SLASH); done.
Qed.

Lemma dotdot_here_spec p :
  dotdot_here p = true <-> exists r, p = [DOT; DOT] ++ r /\ (r = [] \/ exists s, r = SLASH :: s).
Proof.
  split.
  - destruct p as [|a [|b r]]; try done. simpl. intros H. boolify. subst.
    exists r. split; [done|]. destruct r as [|c r]; [by left|]. boolify. subst. eauto.
  - intros (r & -> & [-> | [s ->]]); done.
Qed.

Lemma scan_components_spec fuel p :
  (length p <= fuel)%nat -> ~ (exists r, p = SLASH :: r) ->
  scan_components fuel p = true <-> [DOT; DOT] ∉ split_on SLASH p.
Proof.
  revert p. induction fuel as [|fuel IH]; intros p Hl Hs.
  { destruct p; [|simpl in Hl; lia]. simpl. split; [|done]. set_solver. }
  destruct p as [|x p]; [simpl; split; [set_solver|done]|]. cbn [scan_components].
  destruct (cut SLASH (x :: p)) as [[a b]|] eqn:Ec.
  - apply cut_spec in Ec as [Ec Ha]. rewrite Ec in *. clear x p Ec.
    assert (Hdw : drop_while (not_c SLASH) (a ++ SLASH :: b) = SLASH :: b).
    { unfold drop_while. rewrite span_true by (by apply Forall_not_c). done. }
    rewrite split_on_app by done. destruct (dotdot_here (a ++ SLASH :: b)) eqn:Ed.
    + split; [done|]. intros Hin. exfalso. apply Hin.
      apply dotdot_here_spec in Ed as (r & E & Hr).
      assert (a = [DOT; DOT]) as ->; [|set_solver].
      assert (Hc : forall z, cut SLASH (a ++ SLASH :: b) = Some z -> z = (a, b)).
      { intros z. rewrite (proj2 (cut_spec SLASH _ a b)) by done. by intros [= <-]. }
      destruct Hr as [-> | [s ->]].
      * exfalso. rewrite app_nil_r in E. assert (SLASH ∈ [DOT; DOT]) as Hx by (rewrite <- E; set_solver).
        set_solver.
      * assert (Hz : ([DOT; DOT], s) = (a, b)); [|by injection Hz as <- _].
        apply Hc. rewrite E. apply cut_spec. split; [done|set_solver].
    + assert (Ha' : a ≠ [DOT; DOT]).
      { intros ->. by rewrite (proj2 (dotdot_here_spec _)) in Ed by eauto. }
      rewrite Hdw. cbn [drop_while span snd]. rewrite IH.
      * rewrite dotdot_drop_slashes. change (SLASH :: b) with ([] ++ SLASH :: b).
        rewrite split_on_app by set_solver. set_solver.
      * etrans; [apply drop_while_length|]. rewrite length_app in Hl. simpl in Hl |- *.
        destruct a; [exfalso; eauto|]. simpl in Hl. lia.
      * apply drop_slash_head.
  - apply cut_None in Ec. rewrite split_on_none by done.
    assert (drop_while (not_c SLASH) (x :: p) = []) as ->.
    { apply drop_while_nil. by apply Forall_not_c. }
    destruct (dotdot_here (x :: p)) eqn:Ed.
    + apply dotdot_here_spec in Ed as (r & E & [-> | [s ->]]).
      * rewrite app_nil_r in E. rewrite E. split; [done|]. set_solver.
      * exfalso. apply Ec. rewrite E. set_solver.
    + assert (x :: p ≠ [DOT; DOT]).
      { intros E. rewrite E in Ed. done. }
      replace (scan_components fuel (drop_while (is_c SLASH) [])) with true by (by destruct fuel).
      set_solver.
Qed.

Lemma path_is_safe_iff p :
  path_is_safe p = true <-> p ≠ [] /\ head p ≠ Some SLASH /\ [DOT; DOT] ∉ split_on SLASH p.
Proof.
  destruct p as [|c p]; [naive_solver|]. cbn [path_is_safe].
  destruct (Z.eqb_spec c SLASH) as [->|Hc]; [naive_solver|].
  rewrite scan_components_spec; [naive_solver|done|]. intros [r [= -> _]]. done.
Qed.

End Paths.

(** * Headers and the loop *)

Section Walk.

Implicit Types (buf : bytes) (off : nat) (e : entry).

Lemma length_slice_le off len buf : (length (slice off len buf) <= len)%nat.
Proof. unfold slice. rewrite length_take. lia. Qed.

Lemma padded_bounds size :
  0 <= size < 8 ^ 12 ->
  let padded := u64 (u64 (size + 511) / 512 * 512) in
  size <= padded < size + 512 /\ (512 | padded).
Proof.
  intros Hs. cbn zeta. rewrite (u64_small (size + 511)) by lia.
  pose proof (Z.div_mod (size + 511) 512 ltac:(lia)) as E.
  pose proof (Z.mod_pos_bound (size + 511) 512 ltac:(lia)).
  rewrite u64_small by lia. split; [lia|]. by exists ((size + 511) / 512).
Qed.

(** What a decoded header guarantees about the data it announces. *)
Lemma read_header_entry buf off e :
  read_header buf off = HEntry e ->
  0 <= e_size e <= e_padded e /\ e_padded e < e_size e + 512 /\
  e_data_off e = (off + TAR_BLOCK)%nat /\ (next_off e <= length buf)%nat /\
  (acted_on (e_type e) = true -> path_is_safe (e_path e) = true) /\
  (length (e_path e) < TAR_PATHMAX)%nat.
Proof.
  unfold read_header. do 2 (case_if; [done|]). case_if; [done|].
  destruct (oct_parse (slice 124 12 _)) as [size|] eqn:Es; [|done].
  destruct (oct_parse (slice 100 8 _)) as [mode|]; [|done].
  case_if; [done|]. destruct (build_path _ _) as [raw|] eqn:Ebp; [|done]. case_if; [done|].
  intros [= <-]. cbn [e_size e_padded e_data_off e_type e_path].
  apply oct_parse_bound in Es.
  2:{ pose proof (length_slice_le 124 12 (slice off TAR_BLOCK buf)). lia. }
  assert (Hsz : 0 <= size < 8 ^ 12).
  { split; [lia|]. eapply Z.lt_le_trans; [apply Es|]. apply Z.pow_le_mono_r; [lia|].
    pose proof (length_slice_le 124 12 (slice off TAR_BLOCK buf)). lia. }
  destruct (padded_bounds size Hsz) as [Hp _]. boolify. split; [lia|]. split; [lia|].
  split; [done|]. split; [unfold next_off; cbn [e_data_off e_padded]; lia|]. split.
  - intros Ha. destruct (path_is_safe _); [done|]. by rewrite Ha in *.
  - assert (length raw < TAR_PATHMAX)%nat.
    { unfold build_path in Ebp. destruct (0 <? _)%nat;
        (destruct (TAR_PATHMAX <? _)%nat eqn:Ef; [done|]; injection Ebp as <-;
         apply Nat.ltb_ge in Ef; rewrite ?length_app; simpl; lia). }
    destruct raw as [|a [|b r]]; try done. simpl in *. case_if; simpl; lia.
Qed.

Lemma next_off_progress buf off e :
  read_header buf off = HEntry e -> (off + TAR_BLOCK <= next_off e <= length buf)%nat.
Proof.
  intros H. apply read_header_entry in H as (? & ? & Ho & ? & ?).
  unfold next_off in *. rewrite Ho in *. lia.
Qed.

(** More turns than blocks remain to be read change nothing. *)
Lemma tar_walk_more fuel mode buf off zr w :
  (length buf < off + fuel * TAR_BLOCK)%nat ->
  tar_walk (S fuel) mode buf off zr w = tar_walk fuel mode buf off zr w.
Proof.
  revert off zr w. induction fuel as [|fuel IH]; intros off zr w Hf.
  { cbn [tar_walk]. by rewrite (proj2 (Nat.ltb_lt _ _)) by (unfold TAR_BLOCK in *; lia). }
  change (S fuel * TAR_BLOCK)%nat with (TAR_BLOCK + fuel * TAR_BLOCK)%nat in Hf.
  cbn [tar_walk]. fold tar_walk. destruct (length buf <? off + TAR_BLOCK)%nat; [done|].
  destruct (read_header buf off) as [| | |e] eqn:Eh; [|done|done|].
  - destruct (2 <=? S zr)%nat; [done|]. apply IH. lia.
  - pose proof (next_off_progress _ _ _ Eh).
    assert (Hn : forall w', tar_walk (S fuel) mode buf (next_off e) 0 w' =
                            tar_walk fuel mode buf (next_off e) 0 w') by (intros; apply IH; lia).
    destruct (negb (acted_on (e_type e))); [apply Hn|]. destruct mode.
    + unfold mbind, M_bind. by destruct (extract_entry _ _ _ _ _ _) as [[err|] w'|w'].
    + destruct (_ && _); [done|]. apply Hn.
Qed.

(** The loop invariant of find mode: no system call, and a result inside the
    buffer. *)
Lemma tar_walk_find fuel name buf off zr w :
  exists r, tar_walk fuel (Find name) buf off zr w = Ret r w /\
  forall data_off size, r = WFound data_off size ->
    0 <= size /\ Z.of_nat data_off + size <= Z.of_nat (length buf) /\
    exists hdr_off e, read_header buf hdr_off = HEntry e /\ e_path e = name /\
      e_type e ≠ 53 /\ e_data_off e = data_off /\ e_size e = size.
Proof.
  revert off zr. induction fuel as [|fuel IH]; intros off zr; cbn [tar_walk].
  { exists WDone. done. }
  case_if; [by exists WDone|]. destruct (read_header buf off) as [| |err|e] eqn:Eh.
  - case_if; [by exists WDone|]. apply IH.
  - by exists WDone.
  - by exists (WErr err).
  - case_if; [apply IH|]. case_if; [|apply IH]. boolify.
    exists (WFound (e_data_off e) (e_size e)). split; [done|]. intros ? ? [= <- <-].
    apply beq_true in H0. pose proof (read_header_entry _ _ _ Eh) as (? & ? & ? & Hn & _).
    unfold next_off in Hn. split; [lia|]. split; [lia|]. by exists off, e.
Qed.

End Walk.

(** [tar_walk] terminates: with one turn per 512 byte block and one more, as
    [tar_extract_mem] and [tar_find_mem] run it, the loop has always ended by
    itself; allowing it any number of further turns gives the same outcome. *)
Theorem tar_walk_terminates extra mode buf zr w :
  tar_walk (extra + walk_fuel buf) mode buf 0 zr w = tar_walk (walk_fuel buf) mode buf 0 zr w.
Proof.
  induction extra as [|extra IH]; [done|]. rewrite <- IH. change (S extra + walk_fuel buf)%nat
    with (S (extra + walk_fuel buf)). apply tar_walk_more.
  unfold walk_fuel, TAR_BLOCK.
  pose proof (Nat.div_mod_eq (length buf) 512). pose proof (Nat.mod_upper_bound (length buf) 512).
  lia.
Qed.

(** [tar_find_mem] makes no system call, and when it reports an entry the
    region it returns lies inside the buffer and is the data of a regular entry
    whose normalised path is the normalised query. *)
Theorem tar_find_mem_in_bounds buf name w :
  exists r, tar_find_mem buf name w = Ret r w /\
  forall data_off size, r = WFound data_off size ->
    0 <= size /\ Z.of_nat data_off + size <= Z.of_nat (length buf) /\
    exists hdr_off e, read_header buf hdr_off = HEntry e /\
      e_path e = strip_dot_slash name /\ e_type e ≠ 53 /\
      e_data_off e = data_off /\ e_size e = size.
Proof. apply tar_walk_find. Qed.

(** * Confinement *)

Section Confinement.

Context (b : bool) (dest : bytes) (allowed : option (list bytes)) (owner : option path).
Context (fs0 : fsys).
Hypothesis Hdest : Forall good_name (comps dest).
Hypothesis Hallowed : dir_prefixes allowed.

Local Notation T := (touched dest allowed owner).

Definition confined (fs : fsys) : Prop :=
  fs_ok fs /\ get fs (comps dest) = Some Dir /\ forall q, ~ T q -> fs !! q = fs0 !! q.

Lemma comps_removelast s : wants_dir s = true -> comps (removelast s) = comps s.
Proof.
  unfold wants_dir. rewrite bool_decide_eq_true. intros H.
  destruct s as [|x s _] using rev_ind; [done|]. rewrite last_snoc in H. injection H as ->.
  rewrite removelast_last. rewrite (comps_app s []). by rewrite app_nil_r.
Qed.

Lemma comps_prefix a s : wants_dir a = true -> a `prefix_of` s -> comps a `prefix_of` comps s.
Proof.
  intros Ha [k ->]. rewrite <- (comps_removelast a Ha).
  unfold wants_dir in Ha. rewrite bool_decide_eq_true in Ha.
  destruct a as [|x a _] using rev_ind; [done|]. rewrite last_snoc in Ha. injection Ha as ->.
  rewrite removelast_last, <- app_assoc. simpl. rewrite comps_app. by eexists.
Qed.

Lemma safe_no_dotdot p : path_is_safe p = true -> Forall good_name (comps p).
Proof.
  intros H. apply path_is_safe_iff in H as (_ & _ & H).
  pose proof (comps_good p) as Hg. rewrite Forall_forall in Hg |- *. intros c Hc.
  destruct (Hg c Hc) as (? & ? & ?). unfold good_name. repeat split; try done.
  intros ->. apply H. unfold comps in Hc. by apply list_elem_of_filter in Hc as [_ ?].
Qed.

Lemma in_footprint_spec l p :
  Forall (λ P, wants_dir P = true) l -> in_footprint l p = true -> p ≠ B "manifest" ->
  footprint (Some l) (comps p).
Proof.
  intros Hl H Hm. unfold in_footprint in H. apply orb_prop in H as [H|H].
  { by apply beq_true in H. }
  apply existsb_exists in H as (P & Hin & HP). apply list_elem_of_In in Hin.
  rewrite Forall_forall in Hl. exists P. split; [done|]. unfold str_starts_with in HP.
  apply orb_prop in HP as [HP|HP]; [left|right]; boolify; apply comps_prefix; auto;
    by apply starts_with_spec.
Qed.

Lemma footprint_prefix r r' : r' `prefix_of` r -> footprint allowed r -> footprint allowed r'.
Proof.
  clear Hallowed. unfold footprint. destruct allowed as [l|]; [|done]. intros Hr (P & HP & H).
  exists P. split; [done|]. destruct H as [H|H].
  - by apply (prefix_weak_total _ _ r).
  - right. by etrans.
Qed.

(** A path string at [dest] plus part of a permitted relative path. *)
Definition permitted (s : bytes) : Prop :=
  [DOT; DOT] ∉ comps s /\
  (comps s `prefix_of` comps dest \/ exists r, comps s = comps dest ++ r /\ footprint allowed r).

Lemma permitted_cases s fs n :
  permitted s -> confined fs -> get fs (resolve s) = n -> n ≠ Some Dir -> T (resolve s).
Proof.
  intros [Hd Hp] (Hok & Hdir & _) Hn Hne. rewrite (resolve_plain s Hd) in *.
  destruct Hp as [[k Hk]|(r & Hr & Hf)].
  - destruct Hne. rewrite <- Hn. destruct (decide (k = [])) as [->|].
    + rewrite app_nil_r in Hk. by rewrite <- Hk.
    + eapply get_prefix_dir; [done|by rewrite <- Hk|done].
  - right. exists r. split; [done|]. split; [|done]. intros ->.
    rewrite app_nil_r in Hr. rewrite Hr in Hn. congruence.
Qed.

Lemma confined_insert fs q n :
  confined fs -> T q -> q ≠ comps dest -> fs_ok (<[q := n]> fs) -> confined (<[q := n]> fs).
Proof.
  intros (Hok & Hd & Hs) HT Hq Hok'. split; [done|]. split.
  - by rewrite get_insert_ne.
  - intros p Hp. rewrite lookup_insert_ne by (intros ->; done). by apply Hs.
Qed.

Lemma confined_mkdir_ok s fs :
  permitted s -> confined fs -> wp b (mkdir_ok s) (λ _, confined) confined fs.
Proof.
  intros Hp HI. unfold mkdir_ok. wp_step. apply wp_op; [|intros; split; [intros; by wp_step|done]].
  wp_step. destruct (mkdir_cases s fs (proj1 HI)) as [(-> & _)|(-> & Hn & _ & Hok)]; [done|].
  apply confined_insert; [done| | |done].
  - by eapply permitted_cases.
  - intros E. destruct HI as (_ & Hd & _). rewrite E in Hn. congruence.
Qed.

Lemma confined_mkdir_each ss fs :
  Forall permitted ss -> confined fs -> wp b (mkdir_each ss) (λ _, confined) confined fs.
Proof.
  intros Hss. revert fs. induction Hss as [|s ss Hs _ IH]; intros fs HI; cbn [mkdir_each].
  - by wp_step.
  - wp_step. eapply wp_conseq; [by apply confined_mkdir_ok| |done].
    intros r fs' HI'. cbn beta. case_if; [|done]. by apply IH.
Qed.

Lemma permitted_prefixes s : permitted s -> Forall permitted (slash_prefixes s).
Proof.
  intros [Hd Hp]. apply Forall_forall. intros q Hq. apply slash_prefixes_spec in Hq as [r ->].
  rewrite comps_app in *. split; [set_solver|].
  destruct Hp as [[k Hk]|(r' & Hr & Hf)].
  - left. exists (comps r ++ k). by rewrite Hk, app_assoc.
  - destruct (prefix_weak_total (comps q) (comps dest) (comps dest ++ r')) as [Hx|[k Hk]].
    + rewrite <- Hr. by eexists.
    + by eexists.
    + by left.
    + right. exists k. split; [done|]. eapply footprint_prefix; [|done].
      rewrite Hk, <- app_assoc in Hr. apply app_inv_head in Hr as <-. by eexists.
Qed.

Lemma confined_tar_mkdir_p s fs :
  permitted s -> confined fs -> wp b (tar_mkdir_p s) (λ _, confined) confined fs.
Proof.
  intros Hp HI. unfold tar_mkdir_p, mkdir_parents. wp_step.
  eapply wp_conseq; [apply confined_mkdir_each; [by apply permitted_prefixes|done]| |done].
  intros r fs' HI'. cbn beta. case_if; [|done]. by apply confined_mkdir_ok.
Qed.

Lemma confined_append fd bs fs :
  T fd -> confined fs -> wp b (write_full fd bs) (λ _, confined) confined fs.
Proof.
  intros HT HI. apply wp_write_full; [|done].
  destruct (append_cases fd bs fs (proj1 HI)) as [(e & -> & _)|(m & d & Hfd & -> & Hok)]; [done|].
  cbn [fst snd]. apply confined_insert; try done. intros ->. destruct HI as (Hok0 & Hd & _).
  destruct (comps dest); [by rewrite (ok_root _ Hok0) in Hfd|]. simpl in Hd. congruence.
Qed.

Lemma confined_owner o p fs :
  o = owner -> confined fs ->
  wp b (match o with
        | None => mret None
        | Some fd => r ← (write_full fd p ?; write_full fd [LF]);
                     mret (if r =? 0 then None else Some OwnerFailed)
        end) (λ _, confined) confined fs.
Proof.
  intros Ho HI. destruct o as [fd|]; [|by wp_step].
  assert (HT : T fd) by (by left).
  wp_step. wp_step. eapply wp_conseq; [by apply confined_append| |done].
  intros r1 fs3 HI3. cbn beta. case_if; [|by wp_step].
  eapply wp_conseq; [by apply confined_append| |done]. intros r2 fs4 HI4. by wp_step.
Qed.

Lemma confined_extract_file full e data fs :
  permitted full -> confined fs ->
  wp b (extract_file full owner e data) (λ _, confined) confined fs.
Proof.
  intros Hp HI. unfold extract_file, mkdir_parents. wp_step.
  eapply wp_conseq; [apply confined_mkdir_each; [by apply permitted_prefixes|done]| |done].
  intros r fs' HI'. cbn beta. wp_step; [by wp_step|]. clear Heqb0.
  wp_step. apply wp_op; [|intros; split; [intros; by wp_step|done]].
  destruct (open_trunc_cases full (file_mode (e_mode e)) fs' (proj1 HI'))
    as [(err & ->)|(m & -> & Hnd & _ & _ & Hne & Hok)]; cbn [fst snd]; [by wp_step|].
  assert (HT : T (resolve full)) by (by eapply permitted_cases).
  assert (Hnq : resolve full ≠ comps dest).
  { intros E. destruct HI' as (_ & Hd & _). rewrite E in Hnd. congruence. }
  assert (Hf : forall d, confined (<[resolve full := Reg m d]> (<[resolve full := Reg m []]> fs'))).
  { intros d. apply confined_insert; try done.
    - by apply confined_insert.
    - apply ok_insert; [done|apply resolve_good| |done|].
      + eapply walk_dir; [done|]. simpl. rewrite get_lookup by done. apply lookup_insert_eq.
      + rewrite get_lookup by done. by rewrite lookup_insert_eq. }
  wp_step. eapply wp_conseq; [apply wp_write_loop; [apply lookup_insert_eq|done]| |].
  2:{ intros fs2 (_ & d & ->). apply Hf. }
  intros w fs2 (d & -> & _ & _). cbn beta. specialize (Hf d). revert Hf.
  generalize (<[resolve full := Reg m d]> (<[resolve full := Reg m []]> fs')) as fs2. intros fs2 HI2.
  assert (Htail : forall c : unit + errno, wp b
      (if negb (w =? 0) then mret (Some WriteFailed)
       else if negb (rc c =? 0) then mret (Some CloseFailed)
       else match owner with
       | None => mret None
       | Some fd => r ← (write_full fd (e_path e) ?; write_full fd [LF]);
                    mret (if r =? 0 then None else Some OwnerFailed)
       end) (λ _, confined) confined fs2).
  { intros c. wp_step; [by wp_step|]. wp_step; [by wp_step|]. by apply confined_owner. }
  wp_step. apply wp_pure_op; [apply Htail|]. intros _. split; [intros; apply Htail|done].
Qed.

Lemma permitted_full p :
  path_is_safe p = true -> footprint allowed (comps p) ->
  permitted (strip_trailing_slash (dest ++ SLASH :: p)).
Proof.
  intros Hs Hf.
  assert (E : comps (strip_trailing_slash (dest ++ SLASH :: p)) = comps dest ++ comps p).
  { rewrite <- comps_app. unfold strip_trailing_slash. case_if; [by apply comps_removelast|done]. }
  split; rewrite E.
  - apply good_no_dotdot, Forall_app. split; [done|by apply safe_no_dotdot].
  - right. by exists (comps p).
Qed.

Lemma confined_extract_entry buf e fs :
  path_is_safe (e_path e) = true -> confined fs ->
  wp b (extract_entry dest allowed owner buf e) (λ _, confined) confined fs.
Proof.
  intros Hs HI. unfold extract_entry. wp_step; [by wp_step|]. wp_step; [by wp_step|].
  wp_step; [by wp_step|].
  assert (Hp : permitted (strip_trailing_slash (dest ++ SLASH :: e_path e))).
  { apply permitted_full; [done|]. revert Hallowed Heqb0. unfold dir_prefixes.
    destruct allowed as [l|]; [|done]. intros Hl H0. boolify.
    apply in_footprint_spec; [done..|]. intros E. rewrite E in Heqb1. done. }
  wp_step; [|by apply confined_extract_file]. wp_step.
  eapply wp_conseq; [by apply confined_tar_mkdir_p| |done]. intros. by wp_step.
Qed.

Lemma confined_walk fuel buf off zr fs :
  confined fs ->
  wp b (tar_walk fuel (Extract dest allowed owner) buf off zr) (λ _, confined) confined fs.
Proof.
  revert off zr fs. induction fuel as [|fuel IH]; intros off zr fs HI; cbn [tar_walk];
    [by wp_step|].
  wp_step; [by wp_step|]. destruct (read_header buf off) as [| | |e] eqn:Eh; try by wp_step.
  - wp_step; [by wp_step|by apply IH].
  - wp_step; [by apply IH|]. boolify.
    wp_step. eapply wp_conseq; [apply confined_extract_entry; [|done]| |done].
    { apply read_header_entry in Eh as (_ & _ & _ & _ & Hs & _). by apply Hs. }
    intros [err|] fs' HI'; [by wp_step|by apply IH].
Qed.

End Confinement.

(** C15: extraction is confined.  Whatever the archive holds, and wherever a call
    fails or the machine stops, [tar_extract_mem_owned] below an existing
    directory leaves every path as it was except the owner list and the paths
    below [dest] that lie at, below or above a declared prefix. *)
Theorem tar_extract_confined dest allowed owner buf fs0 w :
  fs_ok fs0 -> Forall good_name (comps dest) -> dir_prefixes allowed ->
  get fs0 (comps dest) = Some Dir -> w_fs w = fs0 -> env_ok true w ->
  let fs' := w_fs (outcome_world (tar_extract_mem_owned buf dest allowed owner w)) in
  fs_ok fs' /\ forall q, ~ touched dest allowed (Some owner) q -> fs' !! q = fs0 !! q.
Proof.
  intros Hok Hd Ha Hdir Hw Henv. cbn zeta.
  assert (HI : confined dest allowed (Some owner) fs0 (w_fs w)) by (rewrite Hw; done).
  pose proof (wp_use true _ _ _ w
    (confined_walk true dest allowed (Some owner) fs0 Hd Ha (walk_fuel buf) buf 0 0 _ HI) Henv) as H.
  unfold tar_extract_mem_owned.
  destruct (tar_walk _ _ _ _ _ w); destruct H as [_ (? & _ & ?)]; done.
Qed.

(** * Witnesses *)

(** A ustar header block for tests: the fields the reader looks at, zero elsewhere. *)
Definition zeros (n : nat) : bytes := repeat 0 n.

Definition pad_to (n : nat) (s : bytes) : bytes := s ++ zeros (n - length s).

Definition mk_header (path mode size : bytes) (typeflag : byte) : bytes :=
  pad_to 100 path ++ pad_to 24 mode ++ pad_to 32 size ++ [typeflag] ++ zeros 100 ++
  pad_to 255 (B "ustar").

Definition sample_tree : fsys :=
  tree [("/stage", Dir); ("/bin", Dir); ("/bin/login", Reg 493 (B "login")); ("/owner", Reg 420 [])]%string.

(** An archive with one file below "apps/evil/". *)
Definition sample_archive : bytes :=
  mk_header (B "apps/evil/run") (B "0000755") (B "00000000003") 48 ++ pad_to 512 (B "abc") ++ zeros 1024.

Lemma oct_parse_spec_witness : oct_parse (B " 00000644") = Some 420.
Proof.
  apply (oct_parse_spec (B " 00000644") 420); [vm_compute; lia|].
  exists [SP], (B "00000644"), []. split; [reflexivity|]. split; [repeat constructor|].
  split; [repeat constructor; vm_compute; intros H; discriminate H|]. split; [exact Logic.I|].
  split; [intros H; discriminate H|]. split; [reflexivity|]. split; [lia|vm_compute; reflexivity].
Defined.

Lemma tar_extract_confined_witness :
  let fs' := w_fs (outcome_world (tar_extract_mem_owned sample_archive (B "/stage")
               (Some [B "apps/evil/"]) (comps (B "/owner")) (crash_world 7 sample_tree))) in
  fs' !! comps (B "/bin/login") = sample_tree !! comps (B "/bin/login").
Proof.
  apply (tar_extract_confined (B "/stage") (Some [B "apps/evil/"]) (comps (B "/owner"))
           sample_archive sample_tree (crash_world 7 sample_tree)).
  - apply fs_okb_sound. vm_compute. reflexivity.
  - apply (bool_decide_unpack _). vm_compute. exact Logic.I.
  - repeat constructor.
  - vm_compute. reflexivity.
  - reflexivity.
  - apply crash_world_ok.
  - intros [H|(r & H & _)]; [vm_compute in H; discriminate H|].
    change (comps (B "/bin/login")) with [B "bin"; B "login"] in H.
    change (comps (B "/stage")) with [B "stage"] in H. cbn [app] in H.
    injection H as H _. vm_compute in H. discriminate H.
Defined.

(** ** A file name that is two lines *)

(** An archive with one file, inside its footprint, whose name has a newline. *)
Definition newline_archive : bytes :=
  mk_header (B "apps/evil/a" ++ [LF] ++ B "bin/login") (B "0000755") (B "00000000003") 48 ++
  pad_to 512 (B "abc") ++ zeros 1024.

(** What extraction wrote to the owner list, and the deletions that removing
    the package then queues. *)
Definition newline_owners : option bytes :=
  match tar_extract_mem_owned newline_archive (B "/stage") (Some [B "apps/evil/"]) (comps (B "/owner"))
          (calm_world sample_tree) with
  | Ret _ w => data_at (w_fs w) (comps (B "/owner"))
  | Crashed _ => None
  end.

Definition queued_by_removal (id owners : bytes) : option (list bytes) :=
  let fs := tree [("/etc", Dir); ("/etc/aegis", Dir); ("/etc/aegis/herald", Dir);
                  ("/etc/aegis/herald/owners", Dir); ("/etc/aegis/herald/owners/evil.list", Reg 420 owners);
                  ("/etc/aegis/herald/transaction", Dir); ("/etc/aegis/herald/transaction/delete", Reg 384 [])]%string in
  match txn_remove_owned id (calm_world fs) with
  | Ret r w => if r =? 0 then owner_lines <$> data_at (w_fs w) (comps TXN_DELETE) else None
  | Crashed _ => None
  end.

(** path checks accept a newline in a file name, and the owner list is one
    name a line.  Extracting a package confined to "apps/evil/" records a
    second, forged line; removing the package then queues the deletion of
    /bin/login, which the package never owned. *)
Theorem owner_list_injection :
  (newline_owners ≫= queued_by_removal (B "evil")) =
    Some [B "apps/evil/a"; B "bin/login"; B "etc/aegis/herald/owners/evil.list"].
Proof. vm_compute. reflexivity. Qed.
