(* ===== verification/HeraldManifest.v ===== *)
(** herald's manifest parser (src/user/bin/herald/manifest.c, manifest.h).

    A manifest is a byte list; [manifest_parse] folds [parse_line] over its
    lines, with the C buffer sizes kept as truncations ([bounded_copy]).  The
    theorems give the invariant every accepted manifest satisfies (the one the
    installer relies on when it pastes fields into paths and database lines)
    and a round trip with a canonical printer. *)

From S2P Require Import Prelude CString.
Local Open Scope Z_scope.

(** * Definitions *)

Definition HERALD_MAX_BINCAPS : nat := 8.

Record herald_bincap_t := Bincap { bc_binary : bytes; bc_caps : bytes }.

Record herald_manifest_t := Manifest {
  m_id : bytes;
  m_name : bytes;
  m_version : bytes;
  m_exec : bytes;
  m_is_system : bool;
  m_caps : bytes;
  m_depends : bytes;
  m_paths : bytes;
  m_bincaps : list herald_bincap_t
}.

(** [memset(out, 0, sizeof *out)] *)
Definition empty_manifest : herald_manifest_t := Manifest [] [] [] [] false [] [] [] [].

Definition bounded_copy (dstsz : nat) (src : bytes) : bytes :=
  match dstsz with O => [] | _ => fit dstsz src end.

Definition manifest_is_bare_name (s : bytes) : bool :=
  negb (beq s []) && negb (has_char SLASH s) && negb (beq s [DOT] || beq s [DOT; DOT]).

Definition is_trim (c : byte) : bool := (c =? CR) || (c =? SP) || (c =? TAB).

Definition rtrim (s : bytes) : bytes := rstrip is_trim s.

(** A byte the parser refuses in a value. *)
Definition is_control (c : byte) : bool := (c <? 32) || (c =? 127).

(** One assignment, the [if]/[else if] chain of the loop body. *)
Definition assign (out : herald_manifest_t) (key val : bytes) : option herald_manifest_t :=
  let '(Manifest id name version exec sys caps depends paths bincaps) := out in
  if beq key (B "id") then
    if manifest_is_bare_name val
    then Some (Manifest (bounded_copy 64 val) name version exec sys caps depends paths bincaps)
    else None
  else if beq key (B "name") then
    Some (Manifest id (bounded_copy 64 val) version exec sys caps depends paths bincaps)
  else if beq key (B "version") then
    Some (Manifest id name (bounded_copy 32 val) exec sys caps depends paths bincaps)
  else if beq key (B "exec") then
    if manifest_is_bare_name val
    then Some (Manifest id name version (bounded_copy 64 val) sys caps depends paths bincaps)
    else None
  else if beq key (B "caps") then
    Some (Manifest id name version exec sys (bounded_copy 256 val) depends paths bincaps)
  else if starts_with (B "caps.") key then
    let bin := drop 5 key in
    if manifest_is_bare_name bin && (length bincaps <? HERALD_MAX_BINCAPS)%nat then
      Some (Manifest id name version exec sys caps depends paths
              (bincaps ++ [Bincap (bounded_copy 64 bin) (bounded_copy 256 val)]))
    else Some out
  else if beq key (B "depends") then
    Some (Manifest id name version exec sys caps (bounded_copy 256 val) paths bincaps)
  else if beq key (B "paths") then
    Some (Manifest id name version exec sys caps depends (bounded_copy 256 val) bincaps)
  else if beq key (B "class") then
    Some (Manifest id name version exec (beq val (B "system")) caps depends paths bincaps)
  else Some out.

(** The body of the loop: one line without its newline. *)
Definition parse_line (out : herald_manifest_t) (raw : bytes) : option herald_manifest_t :=
  let line := rtrim (cstr (bounded_copy 512 raw)) in
  match line with
  | [] => Some out
  | c :: _ =>
      if c =? HASH then Some out else
      match cut EQUALS line with
      | None => Some out
      | Some (k, val) =>
          let key := drop_while is_blank (rtrim k) in
          if existsb is_control val then None else assign out key val
      end
  end.

Fixpoint parse_lines (out : herald_manifest_t) (ls : list bytes) : option herald_manifest_t :=
  match ls with
  | [] => Some out
  | l :: ls => match parse_line out l with
               | None => None
               | Some out => parse_lines out ls
               end
  end.

(** The loop visits the pieces of the buffer between newlines; the empty piece
    after a final newline is a blank line, which it skips as it stops there. *)
Definition manifest_parse (buf : bytes) : option herald_manifest_t :=
  match parse_lines empty_manifest (split_on LF buf) with
  | None => None
  | Some m =>
      if beq (m_id m) [] || beq (m_name m) [] || beq (m_version m) [] then None
      else if negb (m_is_system m) && beq (m_exec m) [] then None
      else Some m
  end.

(** ** Reference definitions *)

(** A value as it may appear after the '=' of a line: printable, and not ending
    in a blank (the parser trims those). *)
Definition clean (s : bytes) : Prop := Forall (λ c, is_control c = false) s.

(** A field of [n] bytes that holds a clean string. *)
Definition field_ok (n : nat) (s : bytes) : Prop := clean s /\ (length s < n)%nat.

Definition bare (s : bytes) : Prop :=
  s ≠ [] /\ SLASH ∉ s /\ s ≠ [DOT] /\ s ≠ [DOT; DOT].

Record manifest_ok (m : herald_manifest_t) : Prop := {
  mo_id : bare (m_id m) /\ field_ok 64 (m_id m);
  mo_name : m_name m ≠ [] /\ field_ok 64 (m_name m);
  mo_version : m_version m ≠ [] /\ field_ok 32 (m_version m);
  mo_exec : (bare (m_exec m) \/ m_is_system m = true /\ m_exec m = []) /\ field_ok 64 (m_exec m);
  mo_caps : field_ok 256 (m_caps m);
  mo_depends : field_ok 256 (m_depends m);
  mo_paths : field_ok 256 (m_paths m);
  mo_nbincaps : (length (m_bincaps m) <= HERALD_MAX_BINCAPS)%nat;
  mo_bincaps : Forall (λ bc, bare (bc_binary bc) /\ (length (bc_binary bc) < 64)%nat /\
                             field_ok 256 (bc_caps bc)) (m_bincaps m)
}.

(** The invariant of the loop: what is set so far is well formed. *)
Record partial_ok (m : herald_manifest_t) : Prop := {
  po_id : (m_id m = [] \/ bare (m_id m)) /\ field_ok 64 (m_id m);
  po_name : field_ok 64 (m_name m);
  po_version : field_ok 32 (m_version m);
  po_exec : (m_exec m = [] \/ bare (m_exec m)) /\ field_ok 64 (m_exec m);
  po_caps : field_ok 256 (m_caps m);
  po_depends : field_ok 256 (m_depends m);
  po_paths : field_ok 256 (m_paths m);
  po_nbincaps : (length (m_bincaps m) <= HERALD_MAX_BINCAPS)%nat;
  po_bincaps : Forall (λ bc, bare (bc_binary bc) /\ (length (bc_binary bc) < 64)%nat /\
                             field_ok 256 (bc_caps bc)) (m_bincaps m)
}.

(** One "key=value" line, and the canonical text of a manifest. *)
Definition kv (key val : bytes) : bytes := key ++ EQUALS :: val.

Definition manifest_lines (m : herald_manifest_t) : list bytes :=
  [kv (B "id") (m_id m); kv (B "name") (m_name m); kv (B "version") (m_version m)] ++
  (if beq (m_exec m) [] then [] else [kv (B "exec") (m_exec m)]) ++
  [kv (B "class") (if m_is_system m then B "system" else B "app");
   kv (B "caps") (m_caps m); kv (B "depends") (m_depends m); kv (B "paths") (m_paths m)] ++
  ((λ bc, kv (B "caps." ++ bc_binary bc) (bc_caps bc)) <$> m_bincaps m).

Definition manifest_print (m : herald_manifest_t) : bytes := join LF (manifest_lines m).

(** Values that survive the trailing trim. *)
Definition trimmed (s : bytes) : Prop :=
  match last s with None => True | Some c => is_trim c = false end.

(** A manifest whose text survives the parser's trimming and line splitting:
    no value ends in a blank, and a per-binary key has no '=', newline or NUL. *)
Record printable (m : herald_manifest_t) : Prop := {
  pr_values : Forall trimmed [m_id m; m_name m; m_version m; m_exec m; m_caps m; m_depends m; m_paths m];
  pr_bincaps : Forall (λ bc, trimmed (bc_binary bc) /\ trimmed (bc_caps bc) /\
                 EQUALS ∉ bc_binary bc /\ LF ∉ bc_binary bc /\ NUL ∉ bc_binary bc) (m_bincaps m)
}.

(** A key the parser reads back unchanged. *)
Record key_ok (key : bytes) : Prop := {
  ko_head : exists c r, key = c :: r /\ is_blank c = false /\ c ≠ HASH;
  ko_last : trimmed key;
  ko_sep : EQUALS ∉ key;
  ko_nul : NUL ∉ key
}.

Ltac proj :=
  cbn [m_id m_name m_version m_exec m_is_system m_caps m_depends m_paths m_bincaps
       bc_binary bc_caps] in *.

(** * The invariant *)

Section Invariant.

Lemma bare_name_spec s : manifest_is_bare_name s = true <-> bare s.
Proof.
  unfold manifest_is_bare_name, bare.
  rewrite !andb_true_iff, !negb_true_iff, orb_false_iff, has_char_false.
  unfold beq. rewrite !bool_decide_eq_false. tauto.
Qed.

Lemma bounded_copy_ok n val :
  (0 < n)%nat -> existsb is_control val = false -> field_ok n (bounded_copy n val).
Proof.
  intros Hn Hc. destruct n as [|n]; [lia|]. cbn [bounded_copy]. split; [|by apply length_fit].
  apply Forall_forall. intros c Hin%fit_elem. apply not_true_iff_false. intros Ht.
  apply not_true_iff_false in Hc. apply Hc. apply existsb_exists. exists c.
  split; [by apply list_elem_of_In|done].
Qed.

(** Truncating a bare name to at least three bytes leaves a bare name. *)
Lemma bare_copy n s : (4 <= n)%nat -> bare s -> bare (bounded_copy n s).
Proof.
  intros Hn (H1 & H2 & H3 & H4). destruct n as [|n]; [lia|]. cbn [bounded_copy].
  assert (Hcut : fit (S n) s = s \/ (3 <= length (fit (S n) s))%nat).
  { destruct (decide (length s < S n)%nat); [left; by apply fit_id|right].
    unfold fit. rewrite length_take. lia. }
  destruct Hcut as [-> | Hl]; [done|]. split; [|split; [|split]].
  - intros E. rewrite E in Hl. simpl in Hl. lia.
  - intros Hin%fit_elem. done.
  - intros E. rewrite E in Hl. simpl in Hl. lia.
  - intros E. rewrite E in Hl. simpl in Hl. lia.
Qed.

Lemma assign_ok m key val m' :
  partial_ok m -> existsb is_control val = false -> assign m key val = Some m' -> partial_ok m'.
Proof.
  intros Hm Hv. destruct m as [id name ver exec sys caps dep paths bins].
  destruct Hm as [H1 H2 H3 H4 H5 H6 H7 H8 H9]. proj.
  assert (Hf : forall n, (0 < n)%nat -> field_ok n (bounded_copy n val))
    by (intros; by apply bounded_copy_ok).
  assert (Hb : manifest_is_bare_name val = true ->
               (bounded_copy 64 val = [] \/ bare (bounded_copy 64 val)) /\
               field_ok 64 (bounded_copy 64 val)).
  { intros Hbn%bare_name_spec. split; [right; apply bare_copy; [lia|done]|apply Hf; lia]. }
  unfold assign. repeat case_if; try done; intros [= <-]; constructor; proj; auto with lia.
  - rewrite length_app. simpl. boolify. lia.
  - apply Forall_app. split; [done|]. rewrite Forall_singleton. proj. boolify.
    apply bare_name_spec in H. split; [by apply (bare_copy 64); [lia|]|].
    split; [apply length_fit; lia|apply (Hf 256%nat); lia].
Qed.

Lemma parse_line_ok m raw m' : partial_ok m -> parse_line m raw = Some m' -> partial_ok m'.
Proof.
  intros Hm. unfold parse_line. destruct (rtrim _) as [|c l]; [by intros [= <-]|].
  case_if; [by intros [= <-]|]. destruct (cut EQUALS (c :: l)) as [[k v]|]; [|by intros [= <-]].
  case_if; [done|]. by apply assign_ok.
Qed.

Lemma parse_lines_ok m ls m' : partial_ok m -> parse_lines m ls = Some m' -> partial_ok m'.
Proof.
  revert m. induction ls as [|l ls IH]; intros m Hm; simpl; [by intros [= <-]|].
  destruct (parse_line m l) as [m1|] eqn:E; [|done]. apply IH. by eapply parse_line_ok.
Qed.

Lemma empty_ok : partial_ok empty_manifest.
Proof.
  assert (Hf : forall n, (0 < n)%nat -> field_ok n []) by (intros; split; [constructor|simpl; lia]).
  constructor; cbn; auto with lia.
Qed.

End Invariant.

Lemma parse_accepted_ok buf m : manifest_parse buf = Some m -> manifest_ok m.
Proof.
  unfold manifest_parse. destruct (parse_lines _ _) as [m'|] eqn:E; [|done].
  apply parse_lines_ok in E as [H1 H2 H3 H4 H5 H6 H7 H8 H9]; [|apply empty_ok].
  case_if; [done|]. case_if; [done|]. intros [= ->]. boolify. unfold beq in *. boolify.
  constructor; try done.
  - destruct H1 as [[?|?] ?]; done.
  - destruct H4 as [[E|?] ?]; [|auto]. split; [|done]. right. split; [|done].
    rewrite E in *. by destruct (m_is_system m).
Qed.

(** C38: whatever bytes it is given, a manifest [manifest_parse] accepts is well
    formed: the required fields are there, id, exec and every caps.<binary> are
    single path components (never empty, ".", ".." or containing '/'), every
    field fits its C array and has no control character, and there are at most
    eight per-binary policies. *)
Theorem manifest_parse_wf buf m : manifest_parse buf = Some m -> manifest_ok m.
Proof. apply parse_accepted_ok. Qed.

(** * The round trip *)

Section RoundTrip.

Lemma rtrim_id s : trimmed s -> rtrim s = s.
Proof.
  intros H. unfold rtrim, rstrip, trimmed in *.
  destruct s as [|c s _] using rev_ind; [done|]. rewrite last_snoc in H.
  rewrite rev_app_distr. unfold drop_while. simpl. rewrite H. simpl.
  by rewrite rev_involutive.
Qed.

Lemma clean_existsb v : clean v -> existsb is_control v = false.
Proof.
  intros H. apply not_true_iff_false. rewrite existsb_exists. intros (c & Hin & Hc).
  unfold clean in H. rewrite Forall_forall in H. apply list_elem_of_In in Hin.
  by rewrite (H c Hin) in Hc.
Qed.

Lemma clean_not_in v c : clean v -> is_control c = true -> c ∉ v.
Proof. unfold clean. rewrite Forall_forall. intros H Hc Hin. by rewrite (H c Hin) in Hc. Qed.

Lemma parse_line_kv m key val :
  key_ok key -> clean val -> trimmed val -> (length (kv key val) < 512)%nat ->
  parse_line m (kv key val) = assign m key val.
Proof.
  intros [(c & r & Ek & Hb & Hh) Hl Hs Hn] Hc Ht Hlen. unfold parse_line. cbn [bounded_copy].
  rewrite fit_id by done.
  assert (NUL ∉ val) by (by apply clean_not_in).
  rewrite cstr_id by (unfold kv; rewrite elem_of_app, elem_of_cons; naive_solver).
  assert (rtrim (kv key val) = kv key val) as ->.
  { apply rtrim_id. unfold trimmed, kv in *. rewrite last_app_cons.
    destruct val as [|x val]; [done|]. by rewrite last_cons_cons. }
  assert (Ekv : kv key val = c :: r ++ EQUALS :: val) by (unfold kv; by rewrite Ek).
  rewrite Ekv at 1. cbn iota beta. rewrite (proj2 (Z.eqb_neq c HASH)) by done.
  rewrite (proj2 (cut_spec EQUALS _ key val)) by done.
  rewrite rtrim_id by done. rewrite clean_existsb by done.
  f_equal. rewrite Ek. unfold drop_while. cbn [span]. by rewrite Hb.
Qed.

Lemma caps_key_ok bin :
  trimmed bin -> EQUALS ∉ bin -> NUL ∉ bin -> key_ok (B "caps." ++ bin).
Proof.
  intros Ht He Hn. constructor.
  - eexists _, _. split; [reflexivity|]. split; [reflexivity|]. vm_compute. done.
  - unfold trimmed in *. rewrite last_app. destruct (last bin); [done|]. reflexivity.
  - rewrite elem_of_app. intros [H|H]; [|done]. revert H. vm_compute. set_solver.
  - rewrite elem_of_app. intros [H|H]; [|done]. revert H. vm_compute. set_solver.
Qed.

Ltac lit_key :=
  constructor; [eexists _, _; split; [reflexivity|]; split; [reflexivity|]; vm_compute; done
               |reflexivity|vm_compute; set_solver|vm_compute; set_solver].

(** A field line of a manifest under construction. *)
Lemma parse_field m key val m' ls :
  key_ok key -> (length key < 200)%nat -> trimmed val -> field_ok 256 val ->
  assign m key val = Some m' -> parse_lines m (kv key val :: ls) = parse_lines m' ls.
Proof.
  intros Hk Hl Ht [Hc Hv] Ha. cbn [parse_lines]. rewrite parse_line_kv; try done.
  - by rewrite Ha.
  - unfold kv. rewrite length_app. simpl. lia.
Qed.

Lemma field_ok_weaken n s : field_ok n s -> (n <= 256)%nat -> field_ok 256 s.
Proof. intros [? ?] ?. split; [done|lia]. Qed.

Lemma bounded_copy_id n s : field_ok n s -> bounded_copy n s = s.
Proof. intros [_ H]. destruct n; [lia|]. by apply fit_id. Qed.

Lemma assign_bincap id name ver exec sys caps dep paths bins bin val :
  bare bin -> (length bin < 64)%nat -> field_ok 256 val -> (length bins < 8)%nat ->
  assign (Manifest id name ver exec sys caps dep paths bins) (B "caps." ++ bin) val =
  Some (Manifest id name ver exec sys caps dep paths (bins ++ [Bincap bin val])).
Proof.
  intros Hb Hl Hv Hn. unfold assign.
  assert (Hne : forall k, k ∈ [B "id"; B "name"; B "version"; B "exec"; B "caps"] ->
                 beq (B "caps." ++ bin) k = false).
  { intros k Hk. apply bool_decide_eq_false. intros <-.
    repeat (apply elem_of_cons in Hk as [Hk|Hk]; [by vm_compute in Hk|]). by apply elem_of_nil in Hk. }
  rewrite !Hne by set_solver.
  rewrite (proj2 (starts_with_spec (B "caps.") (B "caps." ++ bin))) by (by eexists).
  change (drop 5 (B "caps." ++ bin)) with bin.
  rewrite (proj2 (bare_name_spec bin)) by done.
  rewrite (proj2 (Nat.ltb_lt _ _)) by done. cbn [andb].
  rewrite (bounded_copy_id 256) by done. cbn [bounded_copy]. by rewrite fit_id.
Qed.

Lemma parse_bincaps id name ver exec sys caps dep paths bins bcs :
  (length bins + length bcs <= 8)%nat ->
  Forall (λ bc, bare (bc_binary bc) /\ (length (bc_binary bc) < 64)%nat /\
                field_ok 256 (bc_caps bc)) bcs ->
  Forall (λ bc, trimmed (bc_binary bc) /\ trimmed (bc_caps bc) /\
                EQUALS ∉ bc_binary bc /\ LF ∉ bc_binary bc /\ NUL ∉ bc_binary bc) bcs ->
  parse_lines (Manifest id name ver exec sys caps dep paths bins)
    ((λ bc, kv (B "caps." ++ bc_binary bc) (bc_caps bc)) <$> bcs) =
  Some (Manifest id name ver exec sys caps dep paths (bins ++ bcs)).
Proof.
  revert bins. induction bcs as [|[bin val] bcs IH]; intros bins Hl H1 H2.
  { by rewrite app_nil_r. }
  apply Forall_cons in H1 as [(Hb & Hbl & Hv) H1'].
  apply Forall_cons in H2 as [(Ht & Htv & He & _ & Hn) H2'].
  proj. simpl in Hl. rewrite fmap_cons. proj.
  rewrite (parse_field _ _ _ (Manifest id name ver exec sys caps dep paths (bins ++ [Bincap bin val]))).
  - rewrite IH; [by rewrite <- app_assoc|rewrite length_app; simpl; lia|done..].
  - by apply caps_key_ok.
  - rewrite length_app. simpl. lia.
  - done.
  - done.
  - apply assign_bincap; [done..|lia].
Qed.

Lemma kv_no_lf key val : LF ∉ key -> clean val -> LF ∉ kv key val.
Proof.
  intros Hk Hv. unfold kv. rewrite elem_of_app, elem_of_cons.
  pose proof (clean_not_in val LF Hv eq_refl). intros [?|[?|?]]; done.
Qed.

(** The branch each fixed key takes. *)
Lemma assign_keys id name ver exec sys caps dep paths bins val :
  let m := Manifest id name ver exec sys caps dep paths bins in
  (bare val -> field_ok 64 val ->
   assign m (B "id") val = Some (Manifest val name ver exec sys caps dep paths bins)) /\
  (field_ok 64 val ->
   assign m (B "name") val = Some (Manifest id val ver exec sys caps dep paths bins)) /\
  (field_ok 32 val ->
   assign m (B "version") val = Some (Manifest id name val exec sys caps dep paths bins)) /\
  (bare val -> field_ok 64 val ->
   assign m (B "exec") val = Some (Manifest id name ver val sys caps dep paths bins)) /\
  (field_ok 256 val ->
   assign m (B "caps") val = Some (Manifest id name ver exec sys val dep paths bins)) /\
  (field_ok 256 val ->
   assign m (B "depends") val = Some (Manifest id name ver exec sys caps val paths bins)) /\
  (field_ok 256 val ->
   assign m (B "paths") val = Some (Manifest id name ver exec sys caps dep val bins)) /\
  assign m (B "class") val =
    Some (Manifest id name ver exec (beq val (B "system")) caps dep paths bins).
Proof.
  assert (Hb : forall x, bare x -> manifest_is_bare_name x = true)
    by (intros; by apply bare_name_spec).
  cbn zeta. split_and!; try (intros; rewrite <- (bounded_copy_id _ val) at 2 by done; reflexivity);
    try reflexivity; intros Hv Hf; unfold assign;
    rewrite (Hb _ Hv), (bounded_copy_id 64 val Hf); reflexivity.
Qed.

Ltac next_field lem :=
  erewrite parse_field;
    [|lit_key|vm_compute; lia|done|eapply field_ok_weaken; [eassumption|lia]|by apply lem].

Lemma parse_manifest_lines m :
  manifest_ok m -> printable m -> parse_lines empty_manifest (manifest_lines m) = Some m.
Proof.
  intros [[Bid Fid] [_ Fname] [_ Fver] [Hexec Fexec] Hcaps Hdep Hpaths Hnb Hb] [Hpv Hpb].
  destruct m as [id name ver exec sys caps dep paths bins]. proj.
  rewrite !Forall_cons in Hpv. destruct Hpv as (P1&P2&P3&P4&P5&P6&P7&_).
  unfold manifest_lines, empty_manifest. proj. cbn [app].
  assert (Fsys : field_ok 256 (if sys then B "system" else B "app") /\
                 trimmed (if sys then B "system" else B "app")).
  { destruct sys; (split; [split; [repeat constructor|vm_compute; lia]|done]). }
  destruct Fsys as [Fsys Tsys].
  do 3 next_field assign_keys.
  assert (Htail : forall e, e = exec ->
    parse_lines (Manifest id name ver e false [] [] [] [])
      (kv (B "class") (if sys then B "system" else B "app") :: kv (B "caps") caps ::
       kv (B "depends") dep :: kv (B "paths") paths ::
       ((λ bc, kv (B "caps." ++ bc_binary bc) (bc_caps bc)) <$> bins)) =
    Some (Manifest id name ver exec sys caps dep paths bins)).
  { intros e ->. do 4 next_field assign_keys. rewrite parse_bincaps by done. by destruct sys. }
  destruct Hexec as [He|[_ ->]]; [|by apply Htail].
  assert (beq exec [] = false) as -> by (apply bool_decide_eq_false; apply He).
  cbn [app]. next_field assign_keys. by apply Htail.
Qed.

Lemma manifest_lines_no_lf m :
  manifest_ok m -> printable m -> Forall (λ l, LF ∉ l) (manifest_lines m).
Proof.
  intros [[_ [Cid _]] [_ [Cn _]] [_ [Cv _]] [_ [Ce _]] [Cc _] [Cd _] [Cp _] _ Hb] [_ Hpb].
  unfold manifest_lines. rewrite !Forall_app, !Forall_cons, Forall_fmap.
  assert (Hlf : forall s : string, LF ∉ B s <-> has_char LF (B s) = false).
  { intros. by rewrite has_char_false. }
  split_and!; try apply Forall_nil_2; try (apply kv_no_lf; [by apply Hlf|done]).
  - case_if; [constructor|]. rewrite Forall_singleton. apply kv_no_lf; [by apply Hlf|done].
  - apply kv_no_lf; [by apply Hlf|]. destruct (m_is_system m); repeat constructor.
  - rewrite Forall_forall in Hb, Hpb |- *. intros bc Hin. unfold compose.
    destruct (Hb bc Hin) as (_ & _ & [Hc _]). destruct (Hpb bc Hin) as (_ & _ & _ & Hl & _).
    apply kv_no_lf; [|done]. rewrite elem_of_app. intros [H|?]; [|done].
    revert H. by apply Hlf.
Qed.

End RoundTrip.

(** printing a well-formed manifest and parsing the text gives the manifest
    back: every field is read into its place, with its exact bytes. *)
Theorem manifest_parse_print m :
  manifest_ok m -> printable m -> manifest_parse (manifest_print m) = Some m.
Proof.
  intros Hm Hp. unfold manifest_parse, manifest_print.
  rewrite split_join; [|done|by apply manifest_lines_no_lf].
  rewrite parse_manifest_lines by done.
  destruct Hm as [[Hid _] [Hname _] [Hver _] [Hexec _] _ _ _ _ _]. unfold beq.
  rewrite (bool_decide_eq_false_2 (m_id m = [])) by apply Hid.
  rewrite (bool_decide_eq_false_2 (m_name m = [])) by apply Hname.
  rewrite (bool_decide_eq_false_2 (m_version m = [])) by apply Hver.
  cbn [orb]. destruct Hexec as [He|[-> _]]; [|done].
  rewrite (bool_decide_eq_false_2 (m_exec m = [])) by apply He. by rewrite andb_false_r.
Qed.

Definition sample_manifest : herald_manifest_t :=
  Manifest (B "lantern") (B "Lantern") (B "1.4.2") (B "lantern") false (B "net_socket") (B "ladybird")
    (B "apps/lantern/ lib/ladybird/") [Bincap (B "RequestServer") (B "net_socket")].

Lemma sample_parses : manifest_parse (manifest_print sample_manifest) = Some sample_manifest.
Proof. vm_compute. reflexivity. Qed.

Lemma manifest_parse_wf_witness : manifest_ok sample_manifest.
Proof. apply (manifest_parse_wf (manifest_print sample_manifest)). vm_compute. reflexivity. Defined.

Lemma manifest_parse_print_witness :
  manifest_parse (manifest_print sample_manifest) = Some sample_manifest.
Proof.
  apply manifest_parse_print.
  - apply (parse_accepted_ok _ _ sample_parses).
  - constructor; [repeat constructor|]. apply Forall_singleton.
    split; [done|]. split; [done|]. split; [|split]; by apply has_char_false.
Defined.
