(* ===== verification/HeraldDb.v ===== *)
(** herald's installed-package database (src/user/bin/herald/db.c, db.h).

    One TAB-separated line per package.  [db_load] reads the file the way the C
    loop does (a 512 byte [fgets] buffer, over-long lines drained, malformed
    ones skipped); [db_write_all] writes a temporary file and renames it.  The
    file-scope variable [db_path] is the first argument of each function.

    [DbSpec] is the abstract contract: a finite map from ids to entries.  The
    theorems show that a database file represents such a map, that [db_put],
    [db_remove] and [db_find] implement insertion, deletion and lookup, and that
    an update is atomic under any failure or crash. *)

From S2P Require Import Prelude CString Posix PosixLogic HeraldTxn HeraldTxnSpecs.
Local Open Scope Z_scope.

(** * Definitions *)

Definition HERALD_DB_CAP : nat := 256.

Record herald_db_entry_t := DbEntry {
  de_id : bytes;
  de_version : bytes;
  de_exec : bytes;
  de_sha256 : bytes
}.

#[global] Instance herald_db_entry_eq_dec : EqDecision herald_db_entry_t.
Proof. solve_decision. Defined.

(** [snprintf(db_path, 512, "%s", path ? path : HERALD_DB_PATH)] *)
Definition db_set_path (p : option bytes) : bytes := fit 512 (default HERALD_DB_PATH p).

Fixpoint mkdir_all (ss : list bytes) : M unit :=
  match ss with
  | [] => mret tt
  | s :: ss => _ ← sys_mkdir s; mkdir_all ss
  end.

(** [mkdir -p], every error ignored. *)
Definition db_mkdir_p (p : bytes) : M unit :=
  let tmp := fit 256 p in
  mkdir_all (slash_prefixes tmp ++ [tmp]).

Definition parse_entry (line : bytes) : option herald_db_entry_t :=
  match line with
  | [] => None
  | _ =>
      match split_on TAB line with
      | [id; version; exec; sha] =>
          if fits 64 id && fits 32 version && fits 64 exec && fits 65 sha
          then Some (DbEntry id version exec sha) else None
      | _ => None
      end
  end.

(** The bytes before the first carriage return. *)
Definition drop_cr (line : bytes) : bytes :=
  match cut CR line with Some (a, _) => a | None => line end.

(** The reading loop: at most [max] entries, [fuel] bounds the lines. *)
Fixpoint load_lines (fuel max : nat) (s : bytes) : list herald_db_entry_t :=
  match fuel, max with
  | O, _ | _, O => []
  | S fuel, S max' =>
      match fgets 512 s with
      | None => []
      | Some (l, r) =>
          match cut LF (cstr l) with
          | None =>
              (** over-long line: drain up to the next newline *)
              load_lines fuel max (match cut LF r with Some (_, r') => r' | None => [] end)
          | Some (a, _) =>
              match parse_entry (drop_cr a) with
              | Some e => e :: load_lines fuel max' r
              | None => load_lines fuel max r
              end
          end
      end
  end.

Definition db_load (db_path : bytes) (max : nat) : M (option (list herald_db_entry_t)) :=
  f ← sys_read db_path;
  mret (match f with
        | inr ENOENT => Some []
        | inr _ => None
        | inl (_, data) => Some (load_lines (S (length data)) max data)
        end).

Definition db_read (db_path : bytes) (max : nat) : M (option (list herald_db_entry_t)) :=
  match max with O => mret None | _ => db_load db_path max end.

Definition has_id (id : bytes) (e : herald_db_entry_t) : bool := beq (de_id e) id.

(** [None] is an error, [Some None] means not found. *)
Definition db_find (db_path id : bytes) : M (option (option herald_db_entry_t)) :=
  l ← db_load db_path HERALD_DB_CAP;
  mret (match l with None => None | Some es => Some (List.find (has_id id) es) end).

Definition db_line (e : herald_db_entry_t) : bytes :=
  de_id e ++ TAB :: de_version e ++ TAB :: de_exec e ++ TAB :: de_sha256 e ++ [LF].

Definition db_text (es : list herald_db_entry_t) : bytes := es ≫= db_line.

(** The buffered output reaches the file when the stream is flushed. *)
Definition db_write_all (db_path : bytes) (es : list herald_db_entry_t) : M Z :=
  let tmp := db_path ++ B ".tmp" in
  match rcut SLASH (fit 512 db_path) with
  | None => mret (-1)
  | Some (dir, _) =>
      if negb (fits 516 tmp) then mret (-1) else
      _ ← db_mkdir_p dir;
      f ← sys_open_trunc tmp 438;
      match f with
      | inr _ => mret (-1)
      | inl fd =>
          w ← write_loop (length (db_text es)) fd (db_text es);
          c ← sys_close fd;
          if negb (w =? 0) || negb (rc c =? 0) then _ ← sys_unlink tmp; mret (-1) else
          r ← sys_rename tmp db_path;
          match r with
          | inr _ => _ ← sys_unlink tmp; mret (-1)
          | inl _ => mret 0
          end
      end
  end.

(** Replace the first entry with the same id. *)
Fixpoint replace_first (e : herald_db_entry_t) (es : list herald_db_entry_t) :
    option (list herald_db_entry_t) :=
  match es with
  | [] => None
  | x :: es => if has_id (de_id e) x then Some (e :: es)
               else match replace_first e es with
                    | Some es' => Some (x :: es')
                    | None => None
                    end
  end.

(** Replace, or append when there is room. *)
Definition put_entries (e : herald_db_entry_t) (es : list herald_db_entry_t) :
    option (list herald_db_entry_t) :=
  match replace_first e es with
  | Some es' => Some es'
  | None => if (HERALD_DB_CAP <=? length es)%nat then None else Some (es ++ [e])
  end.

Definition db_put (db_path : bytes) (e : herald_db_entry_t) : M Z :=
  match de_id e with
  | [] => mret (-1)
  | _ =>
      l ← db_load db_path HERALD_DB_CAP;
      match l with
      | None => mret (-1)
      | Some es =>
          match put_entries e es with
          | None => mret (-1)
          | Some es' => db_write_all db_path es'
          end
      end
  end.

(** The compaction loop. *)
Definition remove_entries (id : bytes) (es : list herald_db_entry_t) : list herald_db_entry_t :=
  filter (λ e, has_id id e = false) es.

Definition db_remove (db_path id : bytes) : M Z :=
  match id with
  | [] => mret (-1)
  | _ =>
      l ← db_load db_path HERALD_DB_CAP;
      match l with
      | None => mret (-1)
      | Some es =>
          if negb (existsb (has_id id) es) then mret 1 else
          r ← db_write_all db_path (remove_entries id es);
          mret (if r <? 0 then -1 else 0)
      end
  end.

(** ** The abstract database *)

Abbreviation dbmap := (gmap (list Z) herald_db_entry_t).

Definition to_map (es : list herald_db_entry_t) : dbmap :=
  list_to_map ((λ e, (de_id e, e)) <$> es).

(** A field that survives the line format: it fits, and has no separator. *)
Definition db_field (n : nat) (s : bytes) : Prop :=
  (length s < n)%nat /\ TAB ∉ s /\ LF ∉ s /\ CR ∉ s /\ NUL ∉ s.

Record entry_ok (e : herald_db_entry_t) : Prop := {
  eo_id : db_field 64 (de_id e);
  eo_version : db_field 32 (de_version e);
  eo_exec : db_field 64 (de_exec e);
  eo_sha256 : db_field 65 (de_sha256 e);
  eo_nonempty : de_id e ≠ []
}.

Record entries_ok (es : list herald_db_entry_t) : Prop := {
  es_each : Forall entry_ok es;
  es_nodup : NoDup (de_id <$> es);
  es_cap : (length es <= HERALD_DB_CAP)%nat
}.

(** The file at [p] holds the entries of [m] (a missing file holds none). *)
Definition represents (fs : fsys) (p : path) (m : dbmap) : Prop :=
  exists es, entries_ok es /\ m = to_map es /\
  (data_at fs p = Some (db_text es) \/ (get fs p = None /\ es = [])).

(** What an update may leave behind besides the database itself: the temporary
    file, and directories that were missing above the database. *)
Definition db_frame (fs0 : fsys) (p tmp : path) (fs : fsys) : Prop :=
  forall q, q ≠ p -> q ≠ tmp ->
  fs !! q = fs0 !! q \/ (fs0 !! q = None /\ fs !! q = Some Dir /\ strict_prefix q p).

(** The database path names a file, and the code's buffers hold it. *)
Record db_path_ok (s : bytes) : Prop := {
  dp_tidy : tidy s;
  dp_short : (length s < 256)%nat
}.

(** * Lines *)

Section Lines.

Lemma db_field_fits n s : db_field n s -> fits n s = true.
Proof. intros [H _]. by apply Nat.ltb_lt. Qed.

Definition db_body (e : herald_db_entry_t) : bytes :=
  de_id e ++ TAB :: de_version e ++ TAB :: de_exec e ++ TAB :: de_sha256 e.

Lemma db_line_body e : db_line e = db_body e ++ [LF].
Proof. unfold db_line, db_body. by rewrite <- !app_assoc; simpl; rewrite <- !app_assoc; simpl;
  rewrite <- !app_assoc. Qed.

Lemma db_body_length e : entry_ok e -> (length (db_body e) <= 224)%nat.
Proof.
  intros [[? _] [? _] [? _] [? _] _]. unfold db_body.
  repeat (rewrite length_app; simpl). lia.
Qed.

Lemma db_body_clean e c :
  entry_ok e -> c ≠ TAB -> (forall n s, db_field n s -> c ∉ s) -> c ∉ db_body e.
Proof.
  intros [H1 H2 H3 H4 _] Hc Hf. unfold db_body.
  repeat (rewrite ?elem_of_app, ?elem_of_cons). pose proof (Hf _ _ H1). pose proof (Hf _ _ H2).
  pose proof (Hf _ _ H3). pose proof (Hf _ _ H4). naive_solver.
Qed.

Lemma parse_entry_body e : entry_ok e -> parse_entry (db_body e) = Some e.
Proof.
  intros [H1 H2 H3 H4 H5]. unfold parse_entry.
  destruct (db_body e) as [|x l] eqn:E.
  { unfold db_body in E. by destruct (de_id e). }
  rewrite <- E. clear E x l. unfold db_body.
  rewrite !split_on_app by (apply H1 || apply H2 || apply H3).
  rewrite split_on_none by apply H4. rewrite !db_field_fits by done. cbn [andb]. by destruct e.
Qed.

Lemma load_text es fuel max :
  Forall entry_ok es -> (length (db_text es) < fuel)%nat -> (length es <= max)%nat ->
  load_lines fuel max (db_text es) = es.
Proof.
  intros He. revert fuel max. induction He as [|e es He _ IH]; intros fuel max Hf Hm.
  { destruct fuel, max; done. }
  destruct fuel as [|fuel]; [lia|]. destruct max as [|max]; [simpl in Hm; lia|].
  assert (Et : db_text (e :: es) = db_body e ++ LF :: db_text es).
  { unfold db_text. rewrite bind_cons, db_line_body, <- app_assoc. done. }
  rewrite Et in *. cbn [load_lines].
  assert (HLF : LF ∉ db_body e) by (apply db_body_clean; [done..|intros n s H; apply H]).
  assert (HNUL : NUL ∉ db_body e) by (apply db_body_clean; [done..|intros n s H; apply H]).
  assert (HCR : CR ∉ db_body e) by (apply db_body_clean; [done..|intros n s H; apply H]).
  rewrite fgets_line; [|done|pose proof (db_body_length e He); lia].
  rewrite cstr_id by (rewrite elem_of_app, list_elem_of_singleton; naive_solver).
  rewrite (proj2 (cut_spec LF _ (db_body e) [])) by done.
  unfold drop_cr. rewrite (proj2 (cut_None CR _)) by done.
  rewrite parse_entry_body by done. rewrite IH; [done| |simpl in Hm; lia].
  rewrite length_app in Hf. simpl in Hf. lia.
Qed.

End Lines.

(** * Tables *)

Section Tables.

Implicit Types (es : list herald_db_entry_t) (e : herald_db_entry_t) (id : bytes).

Lemma has_id_true id e : has_id id e = true <-> de_id e = id.
Proof. apply beq_true. Qed.

Lemma has_id_false id e : has_id id e = false <-> de_id e ≠ id.
Proof. apply bool_decide_eq_false. Qed.

Lemma to_map_cons e es : to_map (e :: es) = <[de_id e := e]> (to_map es).
Proof. done. Qed.

Lemma to_map_find id es : to_map es !! id = List.find (has_id id) es.
Proof.
  induction es as [|e es IH]; [done|]. rewrite to_map_cons. cbn [List.find].
  destruct (has_id id e) eqn:E.
  - apply has_id_true in E as <-. apply lookup_insert_eq.
  - apply has_id_false in E. by rewrite lookup_insert_ne.
Qed.

Lemma to_map_snoc es e :
  de_id e ∉ (de_id <$> es) -> to_map (es ++ [e]) = <[de_id e := e]> (to_map es).
Proof.
  induction es as [|x es IH]; intros H; [done|].
  rewrite fmap_cons, not_elem_of_cons in H. destruct H as [H1 H2].
  cbn [app]. rewrite !to_map_cons, IH by done. by apply insert_insert_ne.
Qed.

Lemma replace_first_spec e es :
  match replace_first e es with
  | Some es' => (de_id <$> es') = (de_id <$> es) /\ to_map es' = <[de_id e := e]> (to_map es) /\
                (entry_ok e -> Forall entry_ok es -> Forall entry_ok es') /\
                de_id e ∈ (de_id <$> es)
  | None => de_id e ∉ (de_id <$> es)
  end.
Proof.
  induction es as [|x es IH]; cbn [replace_first]; [set_solver|].
  destruct (has_id (de_id e) x) eqn:E.
  - apply has_id_true in E. rewrite !fmap_cons, E. split; [done|]. split.
    + rewrite !to_map_cons, E. by rewrite insert_insert_eq.
    + split; [|set_solver]. intros He Hes. apply Forall_cons in Hes as [_ ?]. by constructor.
  - apply has_id_false in E. destruct (replace_first e es) as [es'|].
    + destruct IH as (H1 & H2 & H3 & H4). rewrite !fmap_cons, H1. split; [done|]. split.
      * rewrite !to_map_cons, H2. by apply insert_insert_ne.
      * split; [|set_solver]. intros He Hes. apply Forall_cons in Hes as [? ?]. constructor; auto.
    + rewrite fmap_cons. set_solver.
Qed.

Lemma put_entries_spec e es es' :
  entries_ok es -> entry_ok e -> put_entries e es = Some es' ->
  entries_ok es' /\ to_map es' = <[de_id e := e]> (to_map es).
Proof.
  intros [H1 H2 H3] He. unfold put_entries. pose proof (replace_first_spec e es) as Hr.
  destruct (replace_first e es) as [x|].
  - intros [= <-]. destruct Hr as (Hi & Hm & Hf & _). split; [|done].
    constructor; [auto|by rewrite Hi|]. apply (f_equal length) in Hi. rewrite !length_fmap in Hi. lia.
  - destruct (HERALD_DB_CAP <=? length es)%nat eqn:Ec; [done|]. intros [= <-].
    apply Nat.leb_gt in Ec. split; [|by apply to_map_snoc]. constructor.
    + apply Forall_app. split; [done|]. by apply Forall_singleton.
    + rewrite fmap_app. apply NoDup_app. split; [done|]. split; [|repeat constructor; set_solver].
      intros i Hi. cbn. set_solver.
    + rewrite length_app. simpl. lia.
Qed.

Lemma to_map_None id es : to_map es !! id = None <-> id ∉ (de_id <$> es).
Proof.
  induction es as [|x es IH]; [cbn; set_solver|].
  rewrite to_map_cons, lookup_insert_None, fmap_cons, not_elem_of_cons, IH. naive_solver.
Qed.

(** [put_entries] only refuses a new id when the table is full. *)
Lemma put_entries_None e es :
  put_entries e es = None <-> to_map es !! de_id e = None /\ (HERALD_DB_CAP <= length es)%nat.
Proof.
  unfold put_entries. pose proof (replace_first_spec e es) as Hr. rewrite to_map_None.
  destruct (replace_first e es) as [x|].
  - destruct Hr as (_ & _ & _ & Hin). naive_solver.
  - destruct (HERALD_DB_CAP <=? length es)%nat eqn:Ec;
      [apply Nat.leb_le in Ec; done|apply Nat.leb_gt in Ec]. split; [done|lia].
Qed.

Lemma remove_entries_spec id es :
  entries_ok es ->
  entries_ok (remove_entries id es) /\ to_map (remove_entries id es) = delete id (to_map es).
Proof.
  intros [H1 H2 H3]. split.
  - unfold remove_entries. constructor.
    + rewrite Forall_forall in *. intros e [_ He]%list_elem_of_filter. auto.
    + eapply sublist_NoDup; [exact H2|]. apply fmap_sublist, sublist_filter.
    + etrans; [apply sublist_length, sublist_filter|done].
  - clear. induction es as [|e es IH]; [exact (eq_sym (delete_empty id))|].
    unfold remove_entries in *. rewrite filter_cons, to_map_cons.
    destruct (decide (has_id id e = false)) as [E|E].
    + rewrite to_map_cons, IH. apply has_id_false in E. by rewrite delete_insert_ne.
    + rewrite not_false_iff_true, has_id_true in E. subst. by rewrite IH, delete_insert_eq.
Qed.

Lemma existsb_has_id id es : existsb (has_id id) es = true <-> is_Some (to_map es !! id).
Proof.
  rewrite to_map_find. induction es as [|e es IH]; cbn.
  - split; [done|]. by intros [].
  - destruct (has_id id e); cbn; [|done]. split; [by eexists|done].
Qed.

End Tables.

(** * Writing *)

Section Writing.

Context (b : bool) (db_path : bytes) (es : list herald_db_entry_t) (fs0 : fsys).
Hypothesis Hp : db_path_ok db_path.

Local Notation p := (resolve db_path).
Local Notation tmp := (db_path ++ B ".tmp").
Local Notation t := (resolve tmp).

Lemma tmp_tidy : tidy tmp /\ exists dir c, db_path = dir ++ SLASH :: c /\ good_name c /\
  Forall good_name (comps dir) /\ p = comps dir ++ [c] /\ t = comps dir ++ [c ++ B ".tmp"].
Proof.
  destruct Hp as [(dir & c & E & Hc & Hd) _]. rewrite E.
  assert (Hc' : good_name (c ++ B ".tmp")).
  { destruct Hc as (H1 & H2 & H3 & H4). split; [by destruct c|].
    split; [|split].
    - intros H. apply (f_equal length) in H. rewrite length_app in H. simpl in H. lia.
    - intros H. apply (f_equal length) in H. rewrite length_app in H. simpl in H. lia.
    - rewrite elem_of_app. intros [?|H]; [done|]. revert H. by apply has_char_false. }
  rewrite <- app_assoc. cbn [app]. split.
  - exists dir, (c ++ B ".tmp"). done.
  - exists dir, c. split_and!; try done.
    + by apply resolve_child.
    + by apply (resolve_child dir (comps dir) (c ++ B ".tmp")).
Qed.

Lemma tmp_ne : t ≠ p.
Proof.
  destruct tmp_tidy as (_ & dir & c & _ & _ & _ & -> & ->). intros H.
  apply app_inj_tail in H as [_ H]. apply (f_equal length) in H.
  rewrite length_app in H. simpl in H. lia.
Qed.

(** Before the rename the database is untouched. *)
Definition pre (fs : fsys) : Prop := fs_ok fs /\ fs !! p = fs0 !! p /\ db_frame fs0 p t fs.

Lemma pre_insert_tmp fs m d : pre fs -> fs_ok (<[t := Reg m d]> fs) -> pre (<[t := Reg m d]> fs).
Proof.
  intros (_ & H2 & H3) Hok. split; [done|]. pose proof tmp_ne. split.
  - by rewrite lookup_insert_ne.
  - intros q Hq Ht. rewrite lookup_insert_ne by congruence. by apply H3.
Qed.

Lemma pre_delete_tmp fs : pre fs -> fs_ok (delete t fs) -> pre (delete t fs).
Proof.
  intros (_ & H2 & H3) Hok. split; [done|]. pose proof tmp_ne. split.
  - by rewrite lookup_delete_ne.
  - intros q Hq Ht. rewrite lookup_delete_ne by congruence. by apply H3.
Qed.

Lemma pre_mkdir fs s :
  pre fs -> strict_prefix (resolve s) p ->
  wp b (sys_mkdir s) (λ _, pre) pre fs.
Proof.
  intros HI [k [Ek Hk]]. apply wp_op; [|done].
  destruct (mkdir_cases s fs (proj1 HI)) as [(-> & _)|(-> & Hn & Hne & Hok)]; [done|].
  cbn [fst snd]. destruct HI as (_ & H2 & H3).
  assert (resolve s ≠ p).
  { intros E. rewrite E in Ek. symmetry in Ek. apply (f_equal length) in Ek.
    rewrite length_app in Ek. by destruct k; simpl in Ek; [|lia]. }
  split; [done|]. split; [by rewrite lookup_insert_ne|]. intros q Hq Ht.
  destruct (decide (resolve s = q)) as [<-|].
  - rewrite lookup_insert_eq. right. rewrite get_lookup in Hn by done.
    destruct (H3 (resolve s)) as [E|(? & ? & ?)]; [done..| |congruence].
    split; [congruence|]. split; [done|]. by exists k.
  - rewrite lookup_insert_ne by done. by apply H3.
Qed.

Lemma pre_mkdir_all ss fs :
  pre fs -> (forall s, s ∈ ss -> strict_prefix (resolve s) p) ->
  wp b (mkdir_all ss) (λ _, pre) pre fs.
Proof.
  revert fs. induction ss as [|s ss IH]; intros fs HI Hs; cbn [mkdir_all]; [by wp_step|].
  wp_step. eapply wp_conseq; [apply pre_mkdir; [done|set_solver]| |done].
  intros r fs' HI'. apply IH; [done|set_solver].
Qed.

Lemma dir_prefix dir c s r :
  db_path = dir ++ SLASH :: c -> good_name c -> Forall good_name (comps dir) ->
  p = comps dir ++ [c] -> (s = dir \/ dir = s ++ SLASH :: r) -> strict_prefix (resolve s) p.
Proof.
  intros E Hc Hd Ep [-> | Er].
  - rewrite resolve_plain by (by apply good_no_dotdot). exists [c]. done.
  - rewrite Er, comps_app in Hd, Ep. apply Forall_app in Hd as [Hd _].
    rewrite resolve_plain by (by apply good_no_dotdot).
    exists (comps r ++ [c]). rewrite app_assoc. split; [done|]. by destruct (comps r).
Qed.

(** Undoing after a failure: the temporary file is removed. *)
Lemma pre_undo fs Q :
  pre fs -> (forall fs', pre fs' -> Q (-1) fs') ->
  wp b (_ ← sys_unlink tmp; mret (-1)) Q pre fs.
Proof.
  intros HI HQ. wp_step. apply wp_op.
  - destruct (unlink_cases tmp fs (proj1 HI)) as [(e & -> & _)|(n & -> & _ & _ & _ & Hok)];
      cbn [fst snd]; wp_step; apply HQ; [done|]. by apply pre_delete_tmp.
  - intros _. split; [|done]. intros e. wp_step. by apply HQ.
Qed.

Definition installed (fs : fsys) : Prop :=
  fs_ok fs /\ data_at fs p = Some (db_text es) /\ db_frame fs0 p t fs.

Lemma installed_rename fs m :
  pre fs -> fs !! t = Some (Reg m (db_text es)) ->
  fs_ok (<[p := Reg m (db_text es)]> (delete t fs)) ->
  installed (<[p := Reg m (db_text es)]> (delete t fs)).
Proof.
  intros (_ & _ & H3) Ht Hok. split; [done|]. split.
  - unfold data_at. by rewrite lookup_insert_eq.
  - intros q Hq Hqt. rewrite lookup_insert_ne, lookup_delete_ne by congruence. by apply H3.
Qed.

Lemma wp_db_rename fs m :
  pre fs -> fs !! t = Some (Reg m (db_text es)) ->
  wp b (r ← sys_rename tmp db_path;
        match r with
        | inr _ => _ ← sys_unlink tmp; mret (-1)
        | inl _ => mret 0
        end)
    (λ r fs', (r = 0 /\ installed fs') \/ (r = -1 /\ pre fs'))
    (λ fs', pre fs' \/ installed fs') fs.
Proof.
  intros HI Ht.
  assert (Hund : forall fs', pre fs' -> wp b (_ ← sys_unlink tmp; mret (-1))
    (λ r fs', (r = 0 /\ installed fs') \/ (r = -1 /\ pre fs'))
    (λ fs', pre fs' \/ installed fs') fs').
  { intros fs' HI'. eapply wp_conseq; [by apply (pre_undo fs' (λ r fs', r = -1 /\ pre fs'))|auto|auto]. }
  wp_step. apply wp_op.
  - destruct (rename_cases tmp db_path fs (proj1 HI))
      as [(e & ->)|(m' & d & -> & Ht' & _ & _ & _ & Hok)]; cbn [fst snd]; [by apply Hund|].
    rewrite Ht in Ht'. injection Ht' as <- <-. wp_step. left. split; [done|].
    by apply installed_rename.
  - intros _. split; [|by left]. intros e. by apply Hund.
Qed.

Lemma wp_db_write_all :
  fs_ok fs0 ->
  wp b (db_write_all db_path es)
    (λ r fs', (r = 0 /\ installed fs') \/ (r = -1 /\ pre fs'))
    (λ fs', pre fs' \/ installed fs') fs0.
Proof.
  intros Hok0.
  assert (HI0 : pre fs0) by (split; [done|]; split; [done|]; intros q _ _; by left).
  destruct tmp_tidy as (Htt & dir & c & E & Hc & Hd & Ep & Et).
  assert (Hund : forall fs', pre fs' -> wp b (_ ← sys_unlink tmp; mret (-1))
    (λ r fs', (r = 0 /\ installed fs') \/ (r = -1 /\ pre fs'))
    (λ fs', pre fs' \/ installed fs') fs').
  { intros fs' HI'. eapply wp_conseq; [by apply (pre_undo fs' (λ r fs', r = -1 /\ pre fs'))|auto|auto]. }
  unfold db_write_all. rewrite fit_id by (pose proof (dp_short _ Hp); lia).
  assert (rcut SLASH db_path = Some (dir, c)) as ->.
  { apply rcut_spec. split; [done|]. apply Hc. }
  wp_step; [wp_step; by right|]. wp_step. unfold db_mkdir_p.
  assert (fit 256 dir = dir) as ->.
  { apply fit_id. pose proof (dp_short _ Hp) as Hl. rewrite E, length_app in Hl. lia. }
  eapply wp_conseq; [apply pre_mkdir_all; [done|]| |auto].
  { intros s [Hs| ->%list_elem_of_singleton]%elem_of_app.
    - apply slash_prefixes_spec in Hs as [r Hr]. eapply dir_prefix; eauto.
    - eapply (dir_prefix dir c dir []); eauto. }
  intros ? fs1 HI1. cbn beta in HI1 |- *. wp_step. apply wp_op.
  2:{ intros _. split; [|by left]. intros e. wp_step. by right. }
  destruct (open_trunc_cases tmp 438 fs1 (proj1 HI1)) as [(e & ->)|(m & -> & _ & _ & _ & Hne & Hok)];
    cbn [fst snd]; [wp_step; by right|].
  assert (Hf : forall d, pre (<[t := Reg m d]> (<[t := Reg m []]> fs1))).
  { intros d. apply pre_insert_tmp; [by apply pre_insert_tmp|].
    apply ok_insert; [done|apply resolve_good| |done|].
    - eapply walk_dir; [done|]. simpl. rewrite get_lookup by done. apply lookup_insert_eq.
    - rewrite get_lookup by done. by rewrite lookup_insert_eq. }
  wp_step. eapply wp_conseq; [apply wp_write_loop; [apply lookup_insert_eq|done]| |].
  2:{ intros fs2 (_ & d & ->). left. apply Hf. }
  intros w fs2 (d & -> & Hw & _). cbn beta. cbn [app] in Hw. specialize (Hf d). rewrite insert_insert_eq in *.
  wp_step. apply wp_pure_op.
  - cbn [rc]. destruct (w =? 0) eqn:Ew; cbn [negb orb]; [|by apply Hund].
    boolify. rewrite Hw in * by done. eapply wp_db_rename; [done|]. apply lookup_insert_eq.
  - intros _. split; [|by left]. intros e. cbn [rc]. rewrite orb_true_r. by apply Hund.
Qed.

(** ** Progress: nothing stands in the way of an update. *)

Definition unobstructed (fs : fsys) : Prop :=
  (forall q c, p = q ++ [c] -> get fs q = Some Dir) /\
  get fs p ≠ Some Dir /\ get fs t ≠ Some Dir /\ get fs t ≠ Some Special.

Lemma calm_mkdir_all ss fs :
  fs_ok fs -> (forall s, s ∈ ss -> get fs (resolve s) = Some Dir) ->
  wp false (mkdir_all ss) (λ _ fs', fs' = fs) (λ _, False) fs.
Proof.
  intros Hok. induction ss as [|s ss IH]; intros Hs; cbn [mkdir_all]; [by wp_step|].
  wp_step. apply wp_op; [|done].
  destruct (mkdir_cases s fs Hok) as [(-> & _)|(-> & Hn & _)].
  - apply IH. set_solver.
  - rewrite Hs in Hn by set_solver. done.
Qed.

Lemma calm_open_tmp fs :
  fs_ok fs -> unobstructed fs ->
  exists m, fs_open_trunc tmp 438 fs = (inl t, <[t := Reg m []]> fs).
Proof.
  intros Hok (Hpar & _ & H1 & H2). destruct tmp_tidy as (Htt & dir & c & _ & _ & _ & Ep & Et).
  specialize (Hpar _ _ Ep). unfold fs_open_trunc. cbn zeta.
  assert (walk fs [] t = None) as -> by (rewrite Et; by apply walk_of_parent).
  rewrite (tidy_wants_dir tmp Htt). destruct (get fs t) as [[m d| |]|] eqn:E; try done; by eexists.
Qed.

Lemma calm_rename fs m d :
  fs_ok fs -> fs !! t = Some (Reg m d) -> unobstructed fs ->
  exists fs', fs_rename tmp db_path fs = (inl tt, fs').
Proof.
  intros Hok Ht (Hpar & Hd & _). destruct tmp_tidy as (Htt & dir & c & _ & _ & _ & Ep & Et).
  specialize (Hpar _ _ Ep). unfold fs_rename.
  rewrite (stat_get fs Hok tmp (Reg m d)).
  - cbn zeta. assert (walk fs [] p = None) as -> by (rewrite Ep; by apply walk_of_parent).
    rewrite (tidy_wants_dir db_path (dp_tidy _ Hp)).
    destruct (get fs p) as [[]|]; try done; by eexists.
  - rewrite get_lookup; [done|]. rewrite Et. by destruct (comps dir).
  - by apply tidy_wants_dir.
Qed.

Lemma unobstructed_tmp fs m d : unobstructed fs -> unobstructed (<[t := Reg m d]> fs).
Proof.
  intros (H1 & H2 & H3 & H4). pose proof tmp_ne as Hne.
  destruct tmp_tidy as (_ & dir & c & _ & _ & _ & Ep & Et).
  assert (Hnil : t ≠ []) by (rewrite Et; by destruct (comps dir)).
  split_and!.
  - intros q x Eq. rewrite get_insert_ne; [by eapply H1|]. intros <-.
    apply H3. by apply (H1 _ _ Eq).
  - by rewrite get_insert_ne.
  - rewrite get_lookup by done. by rewrite lookup_insert_eq.
  - rewrite get_lookup by done. by rewrite lookup_insert_eq.
Qed.

Lemma calm_db_write_all fs :
  fs_ok fs -> unobstructed fs ->
  wp false (db_write_all db_path es) (λ r _, r = 0) (λ _, False) fs.
Proof.
  intros Hok Hu. destruct tmp_tidy as (Htt & dir & c & E & Hc & Hd & Ep & Et).
  pose proof (proj1 Hu _ _ Ep) as Hpar. pose proof (dp_short _ Hp) as Hl.
  unfold db_write_all. rewrite fit_id by lia.
  assert (rcut SLASH db_path = Some (dir, c)) as ->.
  { apply rcut_spec. split; [done|]. apply Hc. }
  assert (fits 516 tmp = true) as ->.
  { apply Nat.ltb_lt. rewrite length_app. simpl. lia. }
  cbn [negb]. wp_step. unfold db_mkdir_p. rewrite fit_id by (rewrite E, length_app in Hl; lia).
  eapply wp_conseq; [apply calm_mkdir_all; [done|]| |done].
  { intros s Hs. assert (Hs' : s = dir \/ exists r, dir = s ++ SLASH :: r).
    { apply elem_of_app in Hs as [Hs| ->%list_elem_of_singleton]; [right|by left].
      by apply slash_prefixes_spec. }
    destruct Hs' as [-> | [r Hr]].
    - by rewrite resolve_plain by (by apply good_no_dotdot).
    - rewrite Hr, comps_app in Hpar, Hd. apply Forall_app in Hd as [Hd _].
      rewrite resolve_plain by (by apply good_no_dotdot).
      destruct (decide (comps r = [])) as [Er|Er]; [by rewrite Er, app_nil_r in Hpar|].
      by eapply get_prefix_dir. }
  intros ? fs1 ->. wp_step. apply wp_op; [|done].
  destruct (calm_open_tmp fs Hok Hu) as [m Eo].
  destruct (open_trunc_cases tmp 438 fs Hok) as [(e & Ee)|(m' & Eo' & _ & _ & _ & Hne & Hok')];
    [congruence|]. rewrite Eo' in *. cbn [fst snd]. clear m Eo.
  wp_step. eapply wp_conseq; [apply wp_write_loop; [apply lookup_insert_eq|done]| |by intros ? []].
  intros w fs2 (d & -> & Hw & Hz). cbn beta. rewrite insert_insert_eq, (Hz eq_refl) in *.
  wp_step. apply wp_pure_op; [|done]. cbn [rc negb orb Z.eqb].
  assert (Hok2 : fs_ok (<[t := Reg m' d]> fs)).
  { rewrite <- (insert_insert_eq fs t (Reg m' d) (Reg m' [])).
    apply ok_insert; [done|apply resolve_good| |done|].
    - eapply walk_dir; [done|]. simpl. rewrite get_lookup by done. apply lookup_insert_eq.
    - rewrite get_lookup by done. by rewrite lookup_insert_eq. }
  wp_step. apply wp_op; [|done].
  destruct (calm_rename _ m' d Hok2 (lookup_insert_eq _ _ _) (unobstructed_tmp _ _ _ Hu)) as [fs3 ->].
  cbn [fst]. by wp_step.
Qed.

End Writing.

(** * The contract *)

Section Contract.

Context (b : bool) (db_path : bytes).
Hypothesis Hp : db_path_ok db_path.

Local Notation p := (resolve db_path).

Definition holds (fs : fsys) (es : list herald_db_entry_t) : Prop :=
  entries_ok es /\ (data_at fs p = Some (db_text es) \/ (get fs p = None /\ es = [])).

Lemma represents_holds fs m : represents fs p m <-> exists es, holds fs es /\ m = to_map es.
Proof. unfold represents, holds. naive_solver. Qed.

Lemma wp_db_load fs es C :
  fs_ok fs -> holds fs es -> (b = true -> C fs) ->
  wp b (db_load db_path HERALD_DB_CAP)
    (λ r fs', fs' = fs /\ (r = Some es \/ r = None) /\
       (b = false -> data_at fs p ≠ None -> r = Some es)) C fs.
Proof.
  intros Hok [He Hd] HC. unfold db_load. wp_step. apply wp_op_injected.
  2:{ intros ->. split; [|auto]. intros [] Hi; try done; wp_step; (split; [done|]; split; [by right|done]). }
  assert (Hsnd : (fs_read db_path fs).2 = fs).
  { unfold fs_read. by destruct (fs_stat fs db_path) as [[]|]. }
  rewrite Hsnd. wp_step. split; [done|].
  destruct Hd as [Hd|[Hn ->]].
  - unfold data_at in Hd. destruct (fs !! p) as [[m d| |]|] eqn:Eg; try done. injection Hd as ->.
    assert (Hne : p ≠ []) by (intros Ex; rewrite Ex, (ok_root _ Hok) in Eg; done).
    unfold fs_read. rewrite (stat_get fs Hok db_path (Reg m (db_text es))).
    + cbn [fst]. rewrite load_text; [auto|apply He|lia|apply He].
    + by rewrite get_lookup.
    + apply tidy_wants_dir, Hp.
  - split; [|intros _ H; unfold data_at in H; destruct p; [done|]; simpl in Hn; by rewrite Hn in H].
    unfold fs_read. destruct (fs_stat fs db_path) as [n|e] eqn:Es.
    + apply stat_inl in Es as [Hg _]. congruence.
    + cbn [fst]. destruct e; auto.
Qed.

Lemma holds_frame fs fs' es : fs !! p = fs' !! p -> holds fs es -> holds fs' es.
Proof.
  unfold holds, data_at. intros E. destruct p as [|c q]; simpl; by rewrite E.
Qed.

Lemma holds_write fs0 fs es es' :
  entries_ok es' -> holds fs0 es ->
  (pre db_path fs0 fs -> holds fs es) /\ (installed db_path es' fs0 fs -> holds fs es').
Proof.
  intros He Hh. split.
  - intros (_ & E & _). by apply (holds_frame fs0).
  - intros (_ & E & _). split; [done|by left].
Qed.

Lemma wp_db_put fs0 es e :
  fs_ok fs0 -> holds fs0 es -> entry_ok e ->
  let after fs := exists es', holds fs es' /\ to_map es' = <[de_id e := e]> (to_map es) in
  wp b (db_put db_path e)
    (λ r fs', (r = 0 /\ after fs') \/ (r = -1 /\ holds fs' es))
    (λ fs', holds fs' es \/ after fs') fs0.
Proof.
  intros Hok Hh He after. unfold db_put.
  assert (Hm0 : forall X (a c : X), match de_id e with [] => a | _ :: _ => c end = c).
  { intros. pose proof (eo_nonempty _ He). by destruct (de_id e). }
  rewrite Hm0. clear Hm0.
  wp_step. eapply wp_conseq; [by apply (wp_db_load fs0 es (λ fs, fs = fs0))| |].
  2:{ intros ? ->. by left. }
  intros r fs' (-> & [-> | ->] & _); cbn beta iota; [|wp_step; by right].
  destruct (put_entries e es) as [es'|] eqn:Epe; [|wp_step; by right].
  destruct (put_entries_spec _ _ _ (proj1 Hh) He Epe) as [He' Hm].
  assert (Ha : forall fs, holds fs es' -> after fs) by (intros; by exists es').
  eapply wp_conseq; [by apply wp_db_write_all| |].
  - intros r fs' Hr. destruct (holds_write fs0 fs' es es' He' Hh). naive_solver.
  - intros fs' Hr. destruct (holds_write fs0 fs' es es' He' Hh). naive_solver.
Qed.

Lemma wp_db_remove fs0 es id :
  fs_ok fs0 -> holds fs0 es -> id ≠ [] ->
  let after fs := exists es', holds fs es' /\ to_map es' = delete id (to_map es) in
  wp b (db_remove db_path id)
    (λ r fs', (r = 0 /\ after fs') \/ (r = 1 /\ to_map es !! id = None /\ holds fs' es) \/
              (r = -1 /\ holds fs' es))
    (λ fs', holds fs' es \/ after fs') fs0.
Proof.
  intros Hok Hh Hi after. unfold db_remove. destruct id as [|x l]; [done|]. set (id := x :: l) in *.
  wp_step. eapply wp_conseq; [by apply (wp_db_load fs0 es (λ fs, fs = fs0))| |].
  2:{ intros ? ->. by left. }
  intros r fs' (-> & [-> | ->] & _); cbn beta iota; [|wp_step; auto].
  pose proof (existsb_has_id id es) as Hex.
  destruct (existsb (has_id id) es); cbn [negb].
  2:{ wp_step. right. left. split; [done|]. split; [|done].
      apply eq_None_not_Some. rewrite <- Hex. done. }
  destruct (remove_entries_spec id es (proj1 Hh)) as [He' Hm].
  assert (Ha : forall fs, holds fs (remove_entries id es) -> after fs) by (intros; by eexists).
  wp_step. eapply wp_conseq; [by apply wp_db_write_all| |].
  - intros r fs' Hr. cbn beta. wp_step. destruct (holds_write fs0 fs' es _ He' Hh).
    destruct Hr as [[-> ?]|[-> ?]]; [left|right; right]; split; auto.
  - intros fs' Hr. destruct (holds_write fs0 fs' es _ He' Hh). naive_solver.
Qed.

End Contract.


(** [db_remove] refines map deletion, atomically, and reports 1 exactly when
    it found that the id is not there. *)
Theorem db_remove_refines db_path id m w :
  db_path_ok db_path -> fs_ok (w_fs w) -> env_ok true w -> id ≠ [] ->
  represents (w_fs w) (resolve db_path) m ->
  let old fs := represents fs (resolve db_path) m in
  let new fs := represents fs (resolve db_path) (delete id m) in
  match db_remove db_path id w with
  | Ret r w' => (r = 0 /\ new (w_fs w')) \/ (r = 1 /\ m !! id = None /\ old (w_fs w')) \/
                (r = -1 /\ old (w_fs w'))
  | Crashed w' => old (w_fs w') \/ new (w_fs w')
  end.
Proof.
  intros Hp Hok Hw He Hr. cbn zeta.
  apply represents_holds in Hr as (es & Hh & ->).
  pose proof (wp_use true _ _ _ w (wp_db_remove true db_path Hp _ es id Hok Hh He) Hw) as H.
  assert (Ht : forall fs M, (exists es', holds db_path fs es' /\ to_map es' = M) ->
                 represents fs (resolve db_path) M).
  { intros fs M (es' & ? & <-). apply represents_holds. eauto. }
  destruct (db_remove db_path id w) as [r w'|w']; destruct H as [_ H].
  - destruct H as [[? ?]|[(? & ? & ?)|[? ?]]]; [left|right; left|right; right]; eauto 10.
  - destruct H as [?|?]; [left|right]; eauto.
Qed.

(** nothing but a full table stops [db_put]: when every call runs and the
    database directory is there, it returns 0, unless the id is new and 256
    packages are installed, and then it returns -1 and leaves the file alone. *)
Theorem db_put_succeeds db_path e es w :
  db_path_ok db_path -> fs_ok (w_fs w) -> env_ok false w -> entry_ok e -> entries_ok es ->
  data_at (w_fs w) (resolve db_path) = Some (db_text es) -> unobstructed db_path (w_fs w) ->
  let full := to_map es !! de_id e = None /\ (HERALD_DB_CAP <= length es)%nat in
  exists r w', db_put db_path e w = Ret r w' /\
    (full -> r = -1 /\ w_fs w' = w_fs w) /\
    (~ full -> r = 0 /\ represents (w_fs w') (resolve db_path) (<[de_id e := e]> (to_map es))).
Proof.
  intros Hp Hok Hw He Hes Hd Hu. cbn zeta. setoid_rewrite <- (put_entries_None e es).
  assert (Hh : holds db_path (w_fs w) es) by (split; [done|by left]).
  assert (Hwp : wp false (db_put db_path e)
    (λ r fs', (put_entries e es = None -> r = -1 /\ fs' = w_fs w) /\
              (put_entries e es ≠ None -> r = 0)) (λ _, False) (w_fs w)).
  { unfold db_put. pose proof (eo_nonempty _ He) as Hne. destruct (de_id e); [done|]. clear Hne.
    wp_step. eapply wp_conseq;
      [by apply (wp_db_load false db_path Hp (w_fs w) es (λ _, False))| |done].
    intros r fs' (-> & _ & Hs). cbn beta. rewrite Hs by congruence.
    destruct (put_entries e es) as [es'|]; [|by wp_step].
    eapply wp_conseq; [by apply calm_db_write_all| |done]. intros r' fs' ->. done. }
  pose proof (wp_use false _ _ _ w (wp_conj _ _ _ _ _ _ _ Hwp
    (wp_db_put false db_path Hp _ es e Hok Hh He)) Hw) as H.
  destruct (db_put db_path e w) as [r w'|w']; [|naive_solver].
  destruct H as (_ & [H1 H2] & H3). exists r, w'. split; [done|]. split; [done|].
  intros Hn. specialize (H2 Hn). subst r. split; [done|].
  destruct H3 as [(_ & es' & Hh' & <-)|[? _]]; [|done]. apply represents_holds. eauto.
Qed.

(** [db_find] is map lookup: without faults, on a file that represents [m]
    it changes nothing and returns exactly [m !! id]. *)
Theorem db_find_lookup db_path id m w :
  db_path_ok db_path -> fs_ok (w_fs w) -> env_ok false w ->
  represents (w_fs w) (resolve db_path) m -> data_at (w_fs w) (resolve db_path) ≠ None ->
  exists w', db_find db_path id w = Ret (Some (m !! id)) w' /\ w_fs w' = w_fs w.
Proof.
  intros Hp Hok Hw Hr Hd. apply represents_holds in Hr as (es & Hh & ->).
  assert (Hwp : wp false (db_find db_path id)
    (λ r fs', r = Some (to_map es !! id) /\ fs' = w_fs w) (λ _, False) (w_fs w)).
  { unfold db_find. wp_step.
    eapply wp_conseq; [by apply (wp_db_load false db_path Hp (w_fs w) es (λ _, False))| |done].
    intros r fs' (-> & _ & Hs). cbn beta. rewrite Hs by done. wp_step. by rewrite to_map_find. }
  pose proof (wp_use false _ _ _ w Hwp Hw) as H.
  destruct (db_find db_path id w) as [r w'|w']; [|naive_solver].
  destruct H as (_ & -> & H). eauto.
Qed.

(** the reader inverts the writer: a table of well-formed entries, written in
    the line format and loaded back, is the same table. *)
Theorem db_text_roundtrip es :
  entries_ok es -> load_lines (S (length (db_text es))) HERALD_DB_CAP (db_text es) = es.
Proof. intros [H _ Hc]. apply load_text; [done|lia|done]. Qed.

(** * Witnesses *)

Definition sample_entry : herald_db_entry_t :=
  DbEntry (B "lantern") (B "1.4.2") (B "lantern") (B "00ff").

Definition sample_entries : list herald_db_entry_t :=
  [DbEntry (B "dock") (B "1.0") (B "dock") (B "ab"); DbEntry (B "stsh") (B "2.1") (B "stsh") (B "cd")].

Definition sample_db_tree : fsys :=
  tree [("/etc", Dir); ("/etc/aegis", Dir); ("/etc/aegis/herald", Dir);
        ("/etc/aegis/herald/db", Reg 420 (db_text sample_entries))]%string.

Definition entry_okb (e : herald_db_entry_t) : bool :=
  let f n s := (length s <? n)%nat && negb (has_char TAB s) && negb (has_char LF s) &&
               negb (has_char CR s) && negb (has_char NUL s) in
  f 64%nat (de_id e) && f 32%nat (de_version e) && f 64%nat (de_exec e) && f 65%nat (de_sha256 e) &&
  negb (beq (de_id e) []).

Section Witnesses.

Lemma entry_okb_sound e : entry_okb e = true -> entry_ok e.
Proof.
  unfold entry_okb. cbn zeta. intros H. boolify.
  repeat match goal with
  | H : has_char _ _ = false |- _ => apply has_char_false in H
  | H : (_ <? _)%nat = true |- _ => apply Nat.ltb_lt in H
  end.
  constructor; try done. unfold beq in *. by boolify.
Qed.

Lemma sample_entry_ok : entry_ok sample_entry.
Proof. apply entry_okb_sound. vm_compute. reflexivity. Qed.

Lemma sample_entries_ok : entries_ok sample_entries.
Proof.
  constructor.
  - unfold sample_entries. rewrite !Forall_cons.
    split_and!; [apply entry_okb_sound; vm_compute; reflexivity..|constructor].
  - apply (bool_decide_unpack _). vm_compute. exact Logic.I.
  - vm_compute. lia.
Qed.

Lemma sample_path_ok : db_path_ok HERALD_DB_PATH.
Proof.
  constructor; [|vm_compute; lia]. exists HERALD_DB_DIR, (B "db"). split; [reflexivity|].
  split; [|apply (bool_decide_unpack _); vm_compute; exact Logic.I].
  split_and!; try (vm_compute; done). by apply has_char_false.
Qed.

Lemma sample_db_tree_ok : fs_ok sample_db_tree.
Proof. apply fs_okb_sound. vm_compute. reflexivity. Qed.

Lemma sample_data : data_at sample_db_tree (resolve HERALD_DB_PATH) = Some (db_text sample_entries).
Proof. vm_compute. reflexivity. Qed.

Lemma sample_represents :
  represents sample_db_tree (resolve HERALD_DB_PATH) (to_map sample_entries).
Proof.
  exists sample_entries. split; [apply sample_entries_ok|]. split; [done|]. left. apply sample_data.
Qed.

End Witnesses.


Lemma db_remove_refines_witness :
  match db_remove HERALD_DB_PATH (B "dock") (calm_world sample_db_tree) with
  | Ret r w' => r = 0 /\ represents (w_fs w') (resolve HERALD_DB_PATH) (delete (B "dock") (to_map sample_entries))
  | Crashed _ => False
  end.
Proof.
  pose proof (db_remove_refines HERALD_DB_PATH (B "dock") (to_map sample_entries)
    (calm_world sample_db_tree) sample_path_ok sample_db_tree_ok (calm_world_ok _ true)
    (ltac:(vm_compute; done)) sample_represents) as H.
  assert (E : match db_remove HERALD_DB_PATH (B "dock") (calm_world sample_db_tree) with
              | Ret r _ => r = 0 | Crashed _ => False end) by (vm_compute; reflexivity).
  cbn zeta in *. destruct (db_remove _ _ _); [|destruct E].
  destruct H as [H|[[H _]|[H _]]]; [exact H|rewrite E in H; discriminate H..].
Defined.

Lemma db_put_succeeds_witness :
  exists r w', db_put HERALD_DB_PATH sample_entry (calm_world sample_db_tree) = Ret r w' /\ r = 0.
Proof.
  destruct (db_put_succeeds HERALD_DB_PATH sample_entry sample_entries (calm_world sample_db_tree)
    sample_path_ok sample_db_tree_ok (calm_world_ok _ false) sample_entry_ok sample_entries_ok
    sample_data) as (r & w' & E & _ & H).
  - split_and!; [|vm_compute; done..]. intros q c Eq.
    change (resolve HERALD_DB_PATH) with (comps HERALD_DB_DIR ++ [B "db"]) in Eq.
    apply app_inj_tail in Eq as [<- _]. vm_compute. reflexivity.
  - exists r, w'. split; [exact E|]. apply H. intros [_ Hc]. vm_compute in Hc. lia.
Defined.

Lemma db_find_lookup_witness :
  exists w', db_find HERALD_DB_PATH (B "stsh") (calm_world sample_db_tree) =
    Ret (Some (to_map sample_entries !! B "stsh")) w' /\ w_fs w' = sample_db_tree.
Proof.
  apply (db_find_lookup HERALD_DB_PATH (B "stsh") (to_map sample_entries) (calm_world sample_db_tree)
    sample_path_ok sample_db_tree_ok (calm_world_ok _ false) sample_represents).
  intros H. pose proof sample_data as Hd. cbn [w_fs calm_world] in H. rewrite H in Hd. discriminate Hd.
Defined.

Lemma db_text_roundtrip_witness :
  load_lines (S (length (db_text sample_entries))) HERALD_DB_CAP (db_text sample_entries) = sample_entries.
Proof. apply (db_text_roundtrip sample_entries sample_entries_ok). Defined.
