(* ===== verification/HeraldRepo.v ===== *)
(** herald's repository client (src/user/bin/herald/repo.c, verify.c).

    The trust chain: a signature over Release pins the hash of Packages, which
    pins the hash of each package.  BearSSL's SHA-256 and ECDSA, the key
    compiled into the binary, and the curl process that downloads a file are
    parameters, gathered in the class [Outside]; everything the C code does with
    their results is modelled.

    The theorems: [herald_version_gt] is the lexicographic order on saturated
    numeric components, a strict weak order; every stanza [repo_find] returns
    comes from a Packages file whose hash a correctly signed Release pins, and
    no other candidate has a greater version. *)

From S2P Require Import Prelude CString Posix PosixLogic HeraldTxn HeraldDb.
Local Open Scope Z_scope.

(** * Definitions *)

(** Code that is not part of the sources: BearSSL, the trusted key and curl. *)
Class Outside := {
  br_sha256 : bytes -> bytes;
  br_ecdsa_i31_vrfy_asn1 : bytes -> bytes -> bytes -> bool; (** hash, key, signature *)
  herald_trusted_key : bytes;
  herald_fetch : bytes -> bytes -> M Z                      (** url, output path *)
}.

Definition HERALD_ARCH : bytes := B "x86_64".
Definition HERALD_SOURCES : bytes := B "/etc/herald/sources.list".
Definition HERALD_LISTS_DIR : bytes := B "/var/lib/herald/lists".

Record herald_source_t := Source { s_url : bytes; s_suite : bytes; s_component : bytes }.

Record herald_stanza_t := Stanza {
  st_name : bytes;
  st_version : bytes;
  st_arch : bytes;
  st_filename : bytes;
  st_sha256 : bytes;
  st_depends : bytes;
  st_display_name : bytes;
  st_exec : bytes;
  st_caps : bytes;
  st_base_url : bytes
}.

(** ** Helpers *)

Definition read_file (p : bytes) : M (option bytes) :=
  f ← sys_read p;
  mret (match f with inl (_, d) => Some d | inr _ => None end).

Definition hex32 (d : bytes) : bytes := to_hex d.

(** The next line and the rest of the buffer. *)
Definition next_line (buf : bytes) (linesz : nat) : option (bytes * bytes) :=
  match buf with
  | [] => None
  | _ =>
      let '(s, r) := span (not_c LF) buf in
      let line := fit linesz s in
      let line := match last line with
                  | Some c => if c =? CR then removelast line else line
                  | None => line
                  end in
      Some (cstr line, tail r)
  end.

(** [isspace] *)
Definition is_space (c : byte) : bool := (c =? 32) || ((9 <=? c) && (c <=? 13)).

(** [%<n>s] of [sscanf]: a word of at most [n] bytes, and the rest. *)
Definition scan_s (n : nat) (s : bytes) : option (bytes * bytes) :=
  let s := drop_while is_space s in
  let w := take n (take_while (λ c, negb (is_space c)) s) in
  match w with [] => None | _ => Some (w, drop (length w) s) end.

Definition is_digit (c : byte) : bool := (48 <=? c) && (c <=? 57).

(** [%ld] of [sscanf]; its value is not used. *)
Definition scan_ld (s : bytes) : option bytes :=
  let s := drop_while is_space s in
  let s := match s with c :: r => if (c =? 43) || (c =? 45) then r else s | [] => s end in
  match take_while is_digit s with [] => None | _ => Some (drop_while is_digit s) end.

(** ** Versions *)

(** Consume one dotted component, saturating. *)
Fixpoint ver_component_from (v : Z) (s : bytes) : Z * bytes :=
  match s with
  | [] => (v, [])
  | c :: r =>
      if c =? DOT then (v, s)
      else if is_digit c then
        let d := c - 48 in
        ver_component_from (if (ULLONG_MAX - d) / 10 <? v then ULLONG_MAX else v * 10 + d) r
      else ver_component_from v r
  end.

Definition ver_component (s : bytes) : Z * bytes := ver_component_from 0 s.

Definition skip_dot (s : bytes) : bytes :=
  match s with c :: r => if c =? DOT then r else s | [] => [] end.

Fixpoint version_gt_loop (fuel : nat) (a b : bytes) : bool :=
  match fuel, a, b with
  | O, _, _ => false
  | _, [], [] => false
  | S fuel, _, _ =>
      let '(na, a') := ver_component a in
      let '(nb, b') := ver_component b in
      if negb (na =? nb) then nb <? na
      else version_gt_loop fuel (skip_dot a') (skip_dot b')
  end.

Definition herald_version_gt (a b : bytes) : bool :=
  version_gt_loop (S (length a + length b)) a b.

(** The number a component denotes (other bytes than digits are ignored), and
    the saturated components of a version. *)
Definition digits_value (w : bytes) : Z :=
  foldl (λ v c, if is_digit c then v * 10 + (c - 48) else v) 0 w.

Definition ver_key (s : bytes) : list Z := (λ w, Z.min (digits_value w) ULLONG_MAX) <$> split_on DOT s.

(** Lexicographic order, a missing component counting as 0. *)
Definition at0 (x : list Z) (i : nat) : Z := default 0 (x !! i).

Definition key_gt (x y : list Z) : Prop :=
  exists i, (forall j, (j < i)%nat -> at0 x j = at0 y j) /\ at0 y i < at0 x i.

(** ** Sources and indexes *)

Definition is_alnum (c : byte) : bool :=
  ((65 <=? c) && (c <=? 90)) || ((97 <=? c) && (c <=? 122)) || is_digit c.

Definition srckey (s : herald_source_t) (outsz : nat) : bytes :=
  let raw := fit 400 (s_url s ++ 95 :: s_suite s ++ 95 :: s_component s) in
  (λ c, if is_alnum c then c else 95) <$> fit outsz raw.

(** One line of sources.list, if it names a source. *)
Definition source_line (line : bytes) : option herald_source_t :=
  match drop_while is_blank line with
  | [] => None
  | (c :: _) as p =>
      if c =? HASH then None else
      match scan_s 255 p with
      | None => None
      | Some (url, r) =>
      match scan_s 63 r with
      | None => None
      | Some (suite, r) =>
      match scan_s 63 r with
      | None => None
      | Some (comp, _) =>
          Some (Source (fit 256 (rstrip (is_c SLASH) url)) (fit 64 suite) (fit 64 comp))
      end
      end
      end
  end.

Fixpoint source_lines (fuel max : nat) (buf : bytes) : list herald_source_t :=
  match fuel, max with
  | O, _ | _, O => []
  | S fuel, S max' =>
      match next_line buf 400 with
      | None => []
      | Some (line, r) =>
          match source_line line with
          | Some s => s :: source_lines fuel max' r
          | None => source_lines fuel max r
          end
      end
  end.

Definition sources_load (max : nat) : M (option (list herald_source_t)) :=
  f ← read_file HERALD_SOURCES;
  mret (match f with
        | None => None
        | Some buf => Some (source_lines (length buf) max buf)
        end).

(** A line of the "SHA256:" section: the hash, if it is the line of [want]. *)
Definition hash_line (want line : bytes) : option bytes :=
  match scan_s 79 (drop_while (is_c SP) line) with
  | None => None
  | Some (hash, r) =>
      match scan_ld r with
      | None => None
      | Some r =>
          match scan_s 255 r with
          | Some (p, _) => if beq p want then Some (take 64 hash) else None
          | None => None
          end
      end
  end.

Fixpoint find_hash (fuel : nat) (in_sha : bool) (buf want : bytes) : option bytes :=
  match fuel with
  | O => None
  | S fuel =>
      match next_line buf 400 with
      | None => None
      | Some (line, r) =>
          if starts_with (B "SHA256:") line then find_hash fuel true r want
          else if in_sha then
            if negb (starts_with [SP] line) then find_hash fuel false r want
            else match hash_line want line with
                 | Some h => Some h
                 | None => find_hash fuel true r want
                 end
          else find_hash fuel false r want
      end
  end.

Definition release_find_hash (buf want : bytes) : option bytes :=
  find_hash (S (length buf)) false buf want.

Definition empty_stanza : herald_stanza_t := Stanza [] [] [] [] [] [] [] [] [] [].

(** The [strncpy] chain of [parse_stanza]. *)
Definition set_field (s : herald_stanza_t) (key val : bytes) : herald_stanza_t :=
  let '(Stanza name ver arch file sha dep disp exec caps url) := s in
  if beq key (B "Package") then Stanza (fit 64 val) ver arch file sha dep disp exec caps url
  else if beq key (B "Version") then Stanza name (fit 48 val) arch file sha dep disp exec caps url
  else if beq key (B "Architecture") then Stanza name ver (fit 16 val) file sha dep disp exec caps url
  else if beq key (B "Filename") then Stanza name ver arch (fit 192 val) sha dep disp exec caps url
  else if beq key (B "SHA256") then Stanza name ver arch file (fit 65 val) dep disp exec caps url
  else if beq key (B "Depends") then Stanza name ver arch file sha (fit 256 val) disp exec caps url
  else if beq key (B "Display-Name") then Stanza name ver arch file sha dep (fit 64 val) exec caps url
  else if beq key (B "Exec") then Stanza name ver arch file sha dep disp (fit 64 val) caps url
  else if beq key (B "Caps") then Stanza name ver arch file sha dep disp exec (fit 256 val) url
  else s.

Fixpoint stanza_lines (fuel : nat) (got : bool) (s : herald_stanza_t) (buf : bytes) :
    bool * herald_stanza_t * bytes :=
  match fuel with
  | O => (got, s, buf)
  | S fuel =>
      match next_line buf 400 with
      | None => (got, s, buf)
      | Some ([], r) => if got then (true, s, r) else stanza_lines fuel false s r
      | Some (line, r) =>
          match cut COLON line with
          | None => stanza_lines fuel true s r
          | Some (key, val) =>
              stanza_lines fuel true (set_field s key (drop_while (is_c SP) val)) r
          end
      end
  end.

(** The next stanza and the rest of the buffer; [None] when the C returns 0. *)
Definition parse_stanza (buf : bytes) : option (herald_stanza_t * bytes) :=
  let '(got, s, r) := stanza_lines (S (length buf)) false empty_stanza buf in
  if got && negb (beq (st_name s) []) then Some (s, r) else None.

(** What [while (parse_stanza(...))] visits. *)
Fixpoint stanzas (fuel : nat) (buf : bytes) : list herald_stanza_t :=
  match fuel with
  | O => []
  | S fuel =>
      match parse_stanza buf with
      | None => []
      | Some (s, r) => s :: stanzas fuel r
      end
  end.

Definition all_stanzas (buf : bytes) : list herald_stanza_t := stanzas (S (length buf)) buf.

(** ** Verification *)

Section Client.

Context {O : Outside}.

Definition herald_sha256 (buf : bytes) : bytes := br_sha256 buf.

Definition herald_verify_p256_sha256 (pubkey msg sig : bytes) : bool :=
  if negb (length pubkey =? 65)%nat || negb (byte_at pubkey 0 =? 4) then false
  else if beq sig [] then false
  else br_ecdsa_i31_vrfy_asn1 (herald_sha256 msg) pubkey sig.

Definition relpath (key : bytes) : bytes := fit 520 (HERALD_LISTS_DIR ++ SLASH :: key ++ B ".Release").
Definition sigpath (key : bytes) : bytes := fit 540 (relpath key ++ B ".sig").
Definition pkgpath (key : bytes) : bytes := fit 520 (HERALD_LISTS_DIR ++ SLASH :: key ++ B ".Packages").

(** "<component>/binary-<arch>/Packages" *)
Definition wantpath (s : herald_source_t) : bytes :=
  fit 160 (s_component s ++ B "/binary-" ++ HERALD_ARCH ++ B "/Packages").

(** [Packages] is the index a correctly signed [Release] pins. *)
Definition pinned (s : herald_source_t) (rel sig pkgs : bytes) : bool :=
  herald_verify_p256_sha256 herald_trusted_key rel sig &&
  match release_find_hash rel (wantpath s) with
  | Some h => beq (hex32 (herald_sha256 pkgs)) h
  | None => false
  end.

Definition lists_load_verified (s : herald_source_t) (key : bytes) : M (option bytes) :=
  r ← read_file (relpath key);
  match r with
  | None => mret None
  | Some rbuf =>
  g ← read_file (sigpath key);
  match g with
  | None => mret None
  | Some sbuf =>
      if negb (herald_verify_p256_sha256 herald_trusted_key rbuf sbuf) then mret None else
      match release_find_hash rbuf (wantpath s) with
      | None => mret None
      | Some wanthash =>
          p ← read_file (pkgpath key);
          match p with
          | None => mret None
          | Some pbuf =>
              if negb (beq (hex32 (herald_sha256 pbuf)) wanthash) then mret None
              else mret (Some pbuf)
          end
      end
  end
  end.

(** One turn of the loop of [repo_sync]: the number of packages of a source. *)
Definition sync_source (s : herald_source_t) : M (option nat) :=
  let key := srckey s 400 in
  let base := s_url s ++ B "/dists/" ++ s_suite s in
  f1 ← herald_fetch (fit 700 (base ++ B "/Release")) (relpath key);
  if negb (f1 =? 0) then mret None else
  f2 ← herald_fetch (fit 700 (base ++ B "/Release.sig")) (sigpath key);
  if negb (f2 =? 0) then mret None else
  r ← read_file (relpath key);
  match r with
  | None => mret None
  | Some rbuf =>
  g ← read_file (sigpath key);
  match g with
  | None => mret None
  | Some sbuf =>
      if negb (herald_verify_p256_sha256 herald_trusted_key rbuf sbuf) then mret None else
      match release_find_hash rbuf (wantpath s) with
      | None => mret None
      | Some wanthash =>
          f3 ← herald_fetch (fit 700 (base ++ SLASH :: s_component s ++ B "/binary-" ++
                                      HERALD_ARCH ++ B "/Packages")) (pkgpath key);
          if negb (f3 =? 0) then mret None else
          p ← read_file (pkgpath key);
          match p with
          | None => mret None
          | Some pbuf =>
              if negb (beq (hex32 (herald_sha256 pbuf)) wanthash) then mret None
              else mret (Some (length (all_stanzas pbuf)))
          end
      end
  end
  end.

Fixpoint sync_sources (ss : list herald_source_t) (total : nat) : M Z :=
  match ss with
  | [] => mret (Z.of_nat total)
  | s :: ss =>
      r ← sync_source s;
      match r with
      | None => mret (-1)
      | Some n => sync_sources ss (total + n)
      end
  end.

Definition repo_sync : M Z :=
  l ← sources_load 16;
  match l with
  | None | Some [] => mret (-1)
  | Some ss => _ ← db_mkdir_p HERALD_LISTS_DIR; sync_sources ss 0
  end.

(** The candidate test and the choice of the loop of [repo_find]. *)
Definition candidate (name : bytes) (st : herald_stanza_t) : bool :=
  beq (st_name st) name && (beq (st_arch st) [] || beq (st_arch st) HERALD_ARCH).

Definition set_base_url (st : herald_stanza_t) (url : bytes) : herald_stanza_t :=
  Stanza (st_name st) (st_version st) (st_arch st) (st_filename st) (st_sha256 st)
    (st_depends st) (st_display_name st) (st_exec st) (st_caps st) (fit 256 url).

Definition better (url : bytes) (best : option herald_stanza_t) (st : herald_stanza_t) :
    option herald_stanza_t :=
  match best with
  | None => Some (set_base_url st url)
  | Some b => if herald_version_gt (st_version st) (st_version b)
              then Some (set_base_url st url) else best
  end.

Definition best_of (name url : bytes) (best : option herald_stanza_t)
    (l : list herald_stanza_t) : option herald_stanza_t :=
  foldl (better url) best (filter (λ st, candidate name st = true) l).

Fixpoint find_in (name : bytes) (ss : list herald_source_t) (best : option herald_stanza_t) :
    M (option herald_stanza_t) :=
  match ss with
  | [] => mret best
  | s :: ss =>
      p ← lists_load_verified s (srckey s 400);
      match p with
      | None => find_in name ss best
      | Some pbuf => find_in name ss (best_of name (s_url s) best (all_stanzas pbuf))
      end
  end.

(** [None]: error; [Some None]: not found. *)
Definition repo_find (name : bytes) : M (option (option herald_stanza_t)) :=
  l ← sources_load 16;
  match l with
  | None => mret None
  | Some ss => r ← find_in name ss None; mret (Some r)
  end.

Definition search_hit (term : bytes) (st : herald_stanza_t) : bool :=
  beq term [] || contains term (st_name st) || contains term (st_display_name st).

Fixpoint search_in (term : bytes) (ss : list herald_source_t) :
    M (bool * list herald_stanza_t) :=
  match ss with
  | [] => mret (false, [])
  | s :: ss =>
      p ← lists_load_verified s (srckey s 400);
      search_in term ss ≫= λ rest : bool * list herald_stanza_t,
      mret (match p with
            | None => rest
            | Some pbuf =>
                (true, filter (λ st, search_hit term st = true) (all_stanzas pbuf) ++ snd rest)
            end)
  end.

(** The stanzas [repo_search] prints, or [None] for its error return. *)
Definition repo_search (term : bytes) : M (option (list herald_stanza_t)) :=
  l ← sources_load 16;
  match l with
  | None => mret None
  | Some ss =>
      search_in term ss ≫= λ r : bool * list herald_stanza_t,
      mret (if fst r then Some (snd r) else None)
  end.

End Client.

(** ** Reference definitions *)

Definition file_data (fs : fsys) (p : bytes) : option bytes :=
  match (fs_read p fs).1 with inl (_, d) => Some d | inr _ => None end.

(** The index of a source, when the files in the cache form a valid chain. *)
Definition verified_list `{Outside} (fs : fsys) (s : herald_source_t) : option bytes :=
  let key := srckey s 400 in
  match file_data fs (relpath key), file_data fs (sigpath key), file_data fs (pkgpath key) with
  | Some r, Some g, Some p => if pinned s r g p then Some p else None
  | _, _, _ => None
  end.

(** [st] was read from a verified list of one of the sources. *)
Definition authentic `{Outside} (fs : fsys) (ss : list herald_source_t) (name : bytes)
    (st : herald_stanza_t) : Prop :=
  exists s pkgs st0, s ∈ ss /\ verified_list fs s = Some pkgs /\ st0 ∈ all_stanzas pkgs /\
    candidate name st0 = true /\ st = set_base_url st0 (s_url s).

(** * Versions *)

Section Versions.

Lemma foldl_digits_nonneg v w :
  0 <= v -> 0 <= foldl (λ v c, if is_digit c then v * 10 + (c - 48) else v) v w.
Proof.
  revert v. induction w as [|c w IH]; intros v Hv; simpl; [done|]. apply IH.
  destruct (is_digit c) eqn:E; [|done]. unfold is_digit in E. boolify. lia.
Qed.

Lemma digits_mono v v' w :
  v <= v' -> foldl (λ v c, if is_digit c then v * 10 + (c - 48) else v) v w <=
             foldl (λ v c, if is_digit c then v * 10 + (c - 48) else v) v' w.
Proof.
  revert v v'. induction w as [|c w IH]; intros v v' Hv; simpl; [done|]. apply IH.
  destruct (is_digit c); lia.
Qed.

(** Saturating at each digit is saturating at the end. *)
Lemma ver_component_from_spec v w r :
  0 <= v <= ULLONG_MAX -> DOT ∉ w -> (r = [] \/ head r = Some DOT) ->
  ver_component_from v (w ++ r) =
  (Z.min (foldl (λ v c, if is_digit c then v * 10 + (c - 48) else v) v w) ULLONG_MAX, r).
Proof.
  revert v. induction w as [|c w IH]; intros v Hv Hw Hr.
  - cbn [app foldl]. rewrite Z.min_l by lia. destruct Hr as [-> | Hr]; [done|].
    destruct r as [|c r]; [done|]. injection Hr as ->. done.
  - rewrite not_elem_of_cons in Hw. destruct Hw as [Hc Hw]. cbn [app ver_component_from foldl].
    rewrite (proj2 (Z.eqb_neq c DOT)) by congruence.
    destruct (is_digit c) eqn:Ed; [|by apply IH]. unfold is_digit in Ed. boolify.
    pose proof (Z.div_mod (ULLONG_MAX - (c - 48)) 10 ltac:(lia)) as Hdm.
    pose proof (Z.mod_pos_bound (ULLONG_MAX - (c - 48)) 10 ltac:(lia)).
    assert (HU : 9 < ULLONG_MAX) by (vm_compute; done).
    destruct (_ <? v) eqn:El; boolify.
    + rewrite IH by (done || lia). f_equal.
      rewrite !Z.min_r; [done| |].
      * etrans; [|apply (digits_mono ULLONG_MAX); lia].
        clear -HU. induction w as [|x w IHw] using rev_ind; [done|].
        rewrite foldl_app. simpl. destruct (is_digit x) eqn:Ex; [|done].
        unfold is_digit in Ex. boolify. lia.
      * clear -HU. induction w as [|x w IHw] using rev_ind; [done|].
        rewrite foldl_app. simpl. destruct (is_digit x) eqn:Ex; [|done].
        unfold is_digit in Ex. boolify. lia.
    + apply IH; [lia|done|done].
Qed.

Lemma ver_component_spec w r :
  DOT ∉ w -> (r = [] \/ head r = Some DOT) ->
  ver_component (w ++ r) = (Z.min (digits_value w) ULLONG_MAX, r).
Proof. intros. apply ver_component_from_spec; [vm_compute; done|done|done]. Qed.

(** The first component and what the loop goes on with. *)
Lemma ver_component_key s :
  let '(n, r) := ver_component s in
  at0 (ver_key s) 0 = n /\ (forall i, at0 (ver_key s) (S i) = at0 (ver_key (skip_dot r)) i) /\
  (s ≠ [] -> (length (skip_dot r) < length s)%nat) /\ (s = [] -> skip_dot r = []).
Proof.
  destruct (cut DOT s) as [[w r]|] eqn:E.
  - apply cut_spec in E as [-> Hw]. rewrite ver_component_spec by (done || by right).
    unfold ver_key. rewrite split_on_app, fmap_cons by done. cbn [skip_dot]. rewrite Z.eqb_refl.
    split_and!; [done..| |by destruct w]. intros _. rewrite length_app. simpl. lia.
  - apply cut_None in E. pose proof (ver_component_spec s [] E (or_introl eq_refl)) as Hs.
    rewrite app_nil_r in Hs. rewrite Hs.
    unfold ver_key. rewrite split_on_none by done. split_and!; [done| | |done].
    + intros i. unfold at0. cbn. by destruct i.
    + destruct s; [done|]. simpl. lia.
Qed.

Lemma key_gt_step x y x' y' :
  (forall i, at0 x (S i) = at0 x' i) -> (forall i, at0 y (S i) = at0 y' i) ->
  key_gt x y <-> (at0 y 0 < at0 x 0 \/ (at0 x 0 = at0 y 0 /\ key_gt x' y')).
Proof.
  intros Hx Hy. split.
  - intros [[|i] [Heq Hlt]]; [by left|right]. split; [apply Heq; lia|].
    exists i. rewrite <- Hx, <- Hy. split; [|done]. intros j Hj. rewrite <- Hx, <- Hy.
    apply Heq. lia.
  - intros [H|[H0 [i [Heq Hlt]]]].
    + exists 0%nat. split; [lia|done].
    + exists (S i). rewrite Hx, Hy. split; [|done]. intros [|j] Hj; [done|].
      rewrite Hx, Hy. apply Heq. lia.
Qed.

Lemma version_gt_loop_spec fuel a b :
  (length a + length b < fuel)%nat ->
  version_gt_loop fuel a b = true <-> key_gt (ver_key a) (ver_key b).
Proof.
  revert a b. induction fuel as [|fuel IH]; intros a b Hl; [lia|].
  pose proof (ver_component_key a) as Ha. pose proof (ver_component_key b) as Hb.
  destruct (decide (a = [] /\ b = [])) as [[-> ->]|Hne].
  { cbn. split; [done|]. intros [i [_ Hi]]. lia. }
  assert (E : version_gt_loop (S fuel) a b =
    let '(na, a') := ver_component a in let '(nb, b') := ver_component b in
    if negb (na =? nb) then nb <? na else version_gt_loop fuel (skip_dot a') (skip_dot b')).
  { destruct a, b; try reflexivity. naive_solver. }
  rewrite E. destruct (ver_component a) as [na a'], (ver_component b) as [nb b'].
  destruct Ha as (Ha0 & HaS & Hal & Han), Hb as (Hb0 & HbS & Hbl & Hbn).
  rewrite (key_gt_step _ _ _ _ HaS HbS), Ha0, Hb0.
  destruct (Z.eqb_spec na nb) as [->|Hn]; cbn [negb].
  - rewrite IH; [split; [auto|intros [?|[_ ?]]; [lia|done]]|].
    destruct (decide (a = [])) as [->|Ha]; [|destruct (decide (b = [])) as [->|Hb]].
    + rewrite (Han eq_refl). specialize (Hbl ltac:(naive_solver)). simpl in *. lia.
    + rewrite (Hbn eq_refl). specialize (Hal Ha). simpl in *. lia.
    + specialize (Hal Ha). specialize (Hbl Hb). lia.
  - rewrite Z.ltb_lt. split; [auto|]. intros [?|[? _]]; [done|congruence].
Qed.

Lemma version_gt_key a b : herald_version_gt a b = true <-> key_gt (ver_key a) (ver_key b).
Proof. apply version_gt_loop_spec. lia. Qed.

Lemma key_gt_irrefl x : ~ key_gt x x.
Proof. intros [i [_ H]]. lia. Qed.

Lemma key_gt_trans x y z : key_gt x y -> key_gt y z -> key_gt x z.
Proof.
  intros [i [Hi Hlt]] [k [Hk Hlt']]. exists (i `min` k)%nat. split.
  - intros j Hj. rewrite Hi, Hk by lia. done.
  - destruct (decide (i < k)%nat); [|destruct (decide (i = k)) as [->|]].
    + rewrite Nat.min_l by lia. rewrite <- Hk by lia. done.
    + rewrite Nat.min_id. lia.
    + rewrite Nat.min_r by lia. rewrite Hi by lia. done.
Qed.

(** Two keys are ordered or agree everywhere. *)
Lemma key_gt_total x y : key_gt x y \/ key_gt y x \/ (forall i, at0 x i = at0 y i).
Proof.
  assert (H : forall n, (exists i, (forall j, (j < i)%nat -> at0 x j = at0 y j) /\ at0 x i ≠ at0 y i) \/
                        (forall i, (i < n)%nat -> at0 x i = at0 y i)).
  { induction n as [|n [?|IH]]; [right; lia|by left|].
    destruct (decide (at0 x n = at0 y n)) as [E|E].
    - right. intros i Hi. destruct (decide (i = n)) as [->|]; [done|]. apply IH. lia.
    - left. by exists n. }
  destruct (H (length x `max` length y)%nat) as [(i & Hi & Hne)|Heq].
  - destruct (decide (at0 x i < at0 y i)).
    + right. left. exists i. split; [|done]. intros j Hj. symmetry. by apply Hi.
    + left. exists i. split; [done|lia].
  - right. right. intros i. destruct (decide (i < length x `max` length y)%nat); [by apply Heq|].
    unfold at0. rewrite !lookup_ge_None_2 by lia. done.
Qed.

Lemma key_gt_ext x x' y y' :
  (forall i, at0 x i = at0 x' i) -> (forall i, at0 y i = at0 y' i) -> key_gt x y <-> key_gt x' y'.
Proof.
  intros Hx Hy. unfold key_gt. setoid_rewrite Hx. setoid_rewrite Hy. done.
Qed.

(** Not being newer is transitive. *)
Lemma version_le_trans a b c :
  herald_version_gt a b = false -> herald_version_gt b c = false -> herald_version_gt a c = false.
Proof.
  rewrite <- !not_true_iff_false, !version_gt_key. intros Hab Hbc Hac.
  destruct (key_gt_total (ver_key a) (ver_key b)) as [?|[Hba|E]]; [done| |].
  - apply Hbc. by eapply key_gt_trans.
  - apply Hbc. revert Hac. apply key_gt_ext; [|done]. intros i. by rewrite E.
Qed.

End Versions.

(** [herald_version_gt] compares the dotted components as numbers,
    lexicographically, a missing component counting as 0 and a component too
    large for 64 bits as the largest one; the comparison is irreflexive and
    transitive, and so is its negation transitive: a strict weak order, so the
    anti-rollback guard cannot be inverted by an overlong component. *)
Theorem herald_version_gt_order a b c :
  (herald_version_gt a b = true <-> key_gt (ver_key a) (ver_key b)) /\
  herald_version_gt a a = false /\
  (herald_version_gt a b = true -> herald_version_gt b c = true -> herald_version_gt a c = true) /\
  (herald_version_gt a b = false -> herald_version_gt b c = false -> herald_version_gt a c = false).
Proof.
  split_and!.
  - apply version_gt_key.
  - rewrite <- not_true_iff_false, version_gt_key. apply key_gt_irrefl.
  - rewrite !version_gt_key. apply key_gt_trans.
  - apply version_le_trans.
Qed.

(** * The trust chain *)

Section Trust.

Context `{O : Outside} (b : bool).
Implicit Types (s : herald_source_t) (st x : herald_stanza_t) (best : option herald_stanza_t).
Implicit Types (name url : bytes) (ss all : list herald_source_t) (l : list herald_stanza_t).

Lemma wp_read_file (p : bytes) (fs : fsys) (C : fsys -> Prop) :
  (b = true -> C fs) ->
  wp b (read_file p)
    (λ r fs', fs' = fs /\ (r = file_data fs p \/ (b = true /\ r = None))) C fs.
Proof.
  intros HC. unfold read_file. wp_step. apply wp_op.
  - assert (E : (fs_read p fs).2 = fs).
    { unfold fs_read. by destruct (fs_stat fs p) as [[]|]. }
    rewrite E. wp_step. split; [done|]. left. unfold file_data. by destruct (fs_read p fs).1 as [[]|].
  - intros ->. split; [|auto]. intros e. wp_step. auto.
Qed.

(** A verified load is the pure function of the cache, or a refusal after a fault. *)
Lemma wp_lists_load_verified s (fs : fsys) (C : fsys -> Prop) :
  (b = true -> C fs) ->
  wp b (lists_load_verified s (srckey s 400))
    (λ r fs', fs' = fs /\ (r = verified_list fs s \/ (b = true /\ r = None))) C fs.
Proof.
  intros HC. unfold lists_load_verified.
  assert (Hno : forall X, b = true -> wp b (mret None : M (option bytes))
            (λ r fs', fs' = fs /\ (r = X \/ (b = true /\ r = None))) C fs).
  { intros X Hb. wp_step. auto. }
  unfold verified_list. cbn zeta.
  wp_step. eapply wp_conseq; [by apply wp_read_file| |done].
  intros r fs' [-> [-> | [Hb ->]]]; cbn beta; [|by apply Hno].
  destruct (file_data fs (relpath _)) as [rbuf|]; [|wp_step; auto].
  wp_step. eapply wp_conseq; [by apply wp_read_file| |done].
  intros g fs' [-> [-> | [Hb ->]]]; cbn beta; [|by apply Hno].
  destruct (file_data fs (sigpath _)) as [sbuf|]; [|wp_step; auto].
  unfold pinned. destruct (herald_verify_p256_sha256 _ _ _); cbn [negb andb].
  2:{ wp_step. destruct (file_data fs (pkgpath _)); auto. }
  destruct (release_find_hash _ _) as [h|].
  2:{ wp_step. destruct (file_data fs (pkgpath _)); auto. }
  wp_step. eapply wp_conseq; [by apply wp_read_file| |done].
  intros p fs' [-> [-> | [Hb ->]]]; cbn beta; [|by apply Hno].
  destruct (file_data fs (pkgpath _)) as [pbuf|]; [|wp_step; auto].
  destruct (beq _ h); cbn [negb]; wp_step; auto.
Qed.

Lemma better_cases url best st :
  better url best st = best \/ better url best st = Some (set_base_url st url).
Proof. unfold better. destruct best; [case_if|]; auto. Qed.

Lemma best_of_sound name url best l st :
  best_of name url best l = Some st ->
  best = Some st \/ exists st0, st0 ∈ l /\ candidate name st0 = true /\ st = set_base_url st0 url.
Proof.
  unfold best_of. revert best. induction l as [|x l IH]; intros best H; [by left|].
  rewrite filter_cons in H. destruct (decide _) as [Hc|Hc].
  - cbn [foldl] in H. apply IH in H as [H|(st0 & ? & ? & ?)]; [|right; set_solver].
    destruct (better_cases url best x) as [E|E]; rewrite E in H; [by left|].
    injection H as <-. right. exists x. set_solver.
  - apply IH in H as [H|(st0 & ? & ? & ?)]; [by left|right; set_solver].
Qed.

(** Nothing seen so far is newer than the choice. *)
Definition not_newer (best : option herald_stanza_t) (st : herald_stanza_t) : Prop :=
  match best with
  | None => False
  | Some c => herald_version_gt (st_version st) (st_version c) = false
  end.

Lemma better_keeps url best x st : not_newer best st -> not_newer (better url best x) st.
Proof.
  unfold better, not_newer. destruct best as [c|]; [|done]. intros H. case_if; [|done].
  cbn [st_version set_base_url]. eapply version_le_trans; [exact H|].
  rewrite <- not_true_iff_false. intros H'. apply version_gt_key in H', Heqb0.
  eapply key_gt_irrefl, key_gt_trans; eassumption.
Qed.

Lemma better_new url best x : not_newer (better url best x) x.
Proof.
  unfold better, not_newer. destruct best as [c|]; [case_if; [|done]|];
    cbn [st_version set_base_url];
    rewrite <- not_true_iff_false, version_gt_key; apply key_gt_irrefl.
Qed.

Lemma best_of_keeps name url best l st :
  not_newer best st -> not_newer (best_of name url best l) st.
Proof.
  unfold best_of. revert best. induction l as [|x l IH]; intros best H; [done|].
  rewrite filter_cons. destruct (decide _); [|by apply IH]. cbn [foldl].
  by apply IH, better_keeps.
Qed.

Lemma best_of_complete name url best l st :
  st ∈ l -> candidate name st = true -> not_newer (best_of name url best l) st.
Proof.
  revert best. induction l as [|x l IH]; intros best Hin Hc; [by apply elem_of_nil in Hin|].
  unfold best_of in *. rewrite filter_cons. apply elem_of_cons in Hin as [<-|Hin].
  - rewrite decide_True by done. cbn [foldl]. apply (best_of_keeps name), better_new.
  - destruct (decide _); [|by apply IH]. cbn [foldl]. by apply IH.
Qed.

Lemma wp_find_in name all ss best (fs : fsys) (C : fsys -> Prop) :
  (b = true -> C fs) -> ss ⊆ all ->
  (forall st, best = Some st -> authentic fs all name st) ->
  wp b (find_in name ss best)
    (λ r fs', fs' = fs /\
       (forall st, r = Some st -> authentic fs all name st) /\
       (forall st, not_newer best st -> not_newer r st) /\
       (b = false -> forall s pkgs st, s ∈ ss -> verified_list fs s = Some pkgs ->
          st ∈ all_stanzas pkgs -> candidate name st = true -> not_newer r st)) C fs.
Proof.
  intros HC. revert best. induction ss as [|s ss IH]; intros best Hss Hb; cbn [find_in].
  { wp_step. split_and!; [done..|]. intros _ s pkgs st Hs. by apply elem_of_nil in Hs. }
  wp_step. eapply wp_conseq; [by apply wp_lists_load_verified| |done].
  intros p fs' [-> Hp]. cbn beta.
  assert (Hskip : (b = false -> verified_list fs s = None) ->
    wp b (find_in name ss best) (λ r fs', fs' = fs /\
       (forall st, r = Some st -> authentic fs all name st) /\
       (forall st, not_newer best st -> not_newer r st) /\
       (b = false -> forall s' pkgs st, s' ∈ s :: ss -> verified_list fs s' = Some pkgs ->
          st ∈ all_stanzas pkgs -> candidate name st = true -> not_newer r st)) C fs).
  { intros Hn. eapply wp_conseq; [apply IH; [set_solver|done]| |done].
    intros r fs' (-> & H1 & H2 & H3). split_and!; [done..|].
    intros Hf s' pkgs st [-> | Hs]%elem_of_cons Hv; [|by eapply H3].
    rewrite Hn in Hv by done. done. }
  destruct p as [pbuf|]; [|apply Hskip; destruct Hp as [Hp|[-> _]]; done].
  destruct Hp as [Hp|[_ ?]]; [|done]. symmetry in Hp.
  eapply wp_conseq; [apply IH; [set_solver|]| |done].
  { intros st [H|(st0 & ? & ? & ?)]%best_of_sound; [by apply Hb|].
    exists s, pbuf, st0. set_solver. }
  intros r fs' (-> & H1 & H2 & H3). split_and!; [done..| |].
  - intros st Hst. by apply H2, best_of_keeps.
  - intros Hf s' pkgs st [-> | Hs]%elem_of_cons Hv Hin Hc; [|by eapply H3].
    rewrite Hp in Hv. injection Hv as <-. apply H2. by apply best_of_complete.
Qed.

End Trust.

(** C8: no unauthenticated package is ever chosen.  Whatever is in the cache and
    whatever fails, a stanza [repo_find] returns was read from a Packages file
    of a configured source whose SHA-256 is the one pinned by a Release file
    that verifies against the compiled-in key; it carries the requested name
    and an acceptable architecture, and the caller's file system is unchanged. *)
Theorem repo_find_authentic `{Outside} name w :
  env_ok true w ->
  match repo_find name w with
  | Ret (Some (Some st)) w' =>
      w_fs w' = w_fs w /\
      exists ss, file_data (w_fs w) HERALD_SOURCES = Some ss /\
        authentic (w_fs w) (source_lines (length ss) 16 ss) name st
  | _ => True
  end.
Proof.
  intros Hw. set (fs := w_fs w).
  assert (Hwp : wp true (repo_find name) (λ r fs', fs' = fs /\
    match r with
    | Some (Some st) => exists ss, file_data fs HERALD_SOURCES = Some ss /\
        authentic fs (source_lines (length ss) 16 ss) name st
    | _ => True end) (λ _, True) fs).
  { unfold repo_find, sources_load. wp_step. wp_step.
    eapply wp_conseq; [by apply (wp_read_file true _ _ (λ _, True))| |done].
    intros f fs' [-> Hf]. cbn beta. wp_step.
    destruct f as [ss|]; cbn beta iota; [|by wp_step]. destruct Hf as [Hf|[_ ?]]; [|done].
    wp_step. eapply wp_conseq; [by apply (wp_find_in true name (source_lines (length ss) 16 ss) _ None fs (λ _, True))| |done].
    intros r fs' (-> & H1 & _). cbn beta. wp_step. split; [done|].
    destruct r as [st|]; [|done]. eauto. }
  pose proof (wp_use true _ _ _ w Hwp Hw) as Hu.
  destruct (repo_find name w) as [[[st|]|] w'|w']; try done. apply Hu.
Qed.

(** [repo_find] picks a newest candidate.  Without faults it returns some
    stanza as soon as one verified list has a candidate, and no candidate of
    any verified list has a greater version than the one it returns. *)
Theorem repo_find_best `{Outside} name ss w :
  env_ok false w -> file_data (w_fs w) HERALD_SOURCES = Some ss ->
  exists r w', repo_find name w = Ret (Some r) w' /\
    forall s pkgs st, s ∈ source_lines (length ss) 16 ss ->
      verified_list (w_fs w) s = Some pkgs -> st ∈ all_stanzas pkgs -> candidate name st = true ->
      exists best, r = Some best /\ herald_version_gt (st_version st) (st_version best) = false.
Proof.
  intros Hw Hss. set (fs := w_fs w) in *.
  assert (Hwp : wp false (repo_find name) (λ r fs', exists r', r = Some r' /\
    forall s pkgs st, s ∈ source_lines (length ss) 16 ss ->
      verified_list fs s = Some pkgs -> st ∈ all_stanzas pkgs -> candidate name st = true ->
      not_newer r' st) (λ _, False) fs).
  { unfold repo_find, sources_load. wp_step. wp_step.
    eapply wp_conseq; [by apply (wp_read_file false _ _ (λ _, False))| |done].
    intros f fs' [-> [-> | [? _]]]; [|done]. cbn beta. wp_step. rewrite Hss. cbn beta iota.
    wp_step. eapply wp_conseq; [by apply (wp_find_in false name (source_lines (length ss) 16 ss) _ None fs (λ _, False))| |done].
    intros r fs' (-> & _ & _ & H1). cbn beta. wp_step. exists r. split; [done|]. intros. by eapply H1. }
  pose proof (wp_use false _ _ _ w Hwp Hw) as Hu.
  destruct (repo_find name w) as [r w'|w']; [|naive_solver].
  destruct Hu as (_ & r' & -> & Hr). exists r', w'. split; [done|].
  intros s pkgs st H1 H2 H3 H4. specialize (Hr s pkgs st H1 H2 H3 H4).
  destruct r' as [best|]; [|done]. by exists best.
Qed.

(** * Termination of the parsers *)

Section Fuel.

Lemma next_line_shrinks buf n line r :
  next_line buf n = Some (line, r) -> (length r < length buf)%nat.
Proof.
  unfold next_line. destruct buf as [|c buf]; [done|].
  pose proof (span_app (not_c LF) (c :: buf)) as Happ.
  pose proof (drop_while_length (not_c LF) (c :: buf)) as Hl.
  unfold take_while, drop_while in *. destruct (span (not_c LF) (c :: buf)) as [s r'] eqn:E.
  intros [= <- <-]. cbn [fst snd] in *. destruct r' as [|x r']; simpl in *; [lia|].
  apply (f_equal length) in Happ. rewrite length_app in Happ. simpl in Happ. lia.
Qed.

Lemma source_lines_more k fuel max buf :
  (length buf <= fuel)%nat -> source_lines (k + fuel) max buf = source_lines fuel max buf.
Proof.
  revert fuel max buf. induction fuel as [|fuel IH]; intros max buf Hf.
  { destruct buf; [|simpl in Hf; lia]. destruct k, max; done. }
  rewrite Nat.add_succ_r. destruct max as [|max]; [done|]. cbn [source_lines].
  destruct (next_line buf 400) as [[line r]|] eqn:E; [|done].
  apply next_line_shrinks in E. destruct (source_line line); [f_equal|]; apply IH; lia.
Qed.

Lemma find_hash_more k fuel sha buf want :
  (length buf < fuel)%nat -> find_hash (k + fuel) sha buf want = find_hash fuel sha buf want.
Proof.
  revert fuel sha buf. induction fuel as [|fuel IH]; intros sha buf Hf; [lia|].
  rewrite Nat.add_succ_r. cbn [find_hash].
  destruct (next_line buf 400) as [[line r]|] eqn:E; [|done].
  apply next_line_shrinks in E. repeat case_match; try done; apply IH; lia.
Qed.

Lemma stanza_lines_more k fuel got s buf :
  (length buf < fuel)%nat -> stanza_lines (k + fuel) got s buf = stanza_lines fuel got s buf.
Proof.
  revert fuel got s buf. induction fuel as [|fuel IH]; intros got s buf Hf; [lia|].
  rewrite Nat.add_succ_r. cbn [stanza_lines].
  destruct (next_line buf 400) as [[line r]|] eqn:E; [|done].
  apply next_line_shrinks in E. repeat case_match; try done; apply IH; lia.
Qed.

Lemma stanza_lines_shrinks fuel got s buf :
  let '(got', _, r) := stanza_lines fuel got s buf in
  (length r <= length buf)%nat /\ (got = false -> got' = true -> length r < length buf)%nat.
Proof.
  revert got s buf. induction fuel as [|fuel IH]; intros got s buf; cbn [stanza_lines].
  { split; [lia|congruence]. }
  destruct (next_line buf 400) as [[line r]|] eqn:E; [|split; [lia|congruence]].
  apply next_line_shrinks in E.
  assert (Hrec : forall g s', let '(got', _, r') := stanza_lines fuel g s' r in
    (length r' <= length buf)%nat /\ (got = false -> got' = true -> length r' < length buf)%nat).
  { intros g s'. specialize (IH g s' r). destruct (stanza_lines fuel g s' r) as [[g' s''] r'].
    split; lia. }
  destruct line as [|c line]; [destruct got; [split; lia|apply Hrec]|].
  destruct (cut COLON (c :: line)) as [[key val]|]; apply Hrec.
Qed.

Lemma parse_stanza_shrinks buf s r :
  parse_stanza buf = Some (s, r) -> (length r < length buf)%nat.
Proof.
  unfold parse_stanza. pose proof (stanza_lines_shrinks (S (length buf)) false empty_stanza buf) as H.
  destruct (stanza_lines _ _ _ _) as [[got s'] r']. case_if; [|done]. intros [= <- <-].
  boolify. apply H; done.
Qed.

Lemma stanzas_more k fuel buf :
  (length buf < fuel)%nat -> stanzas (k + fuel) buf = stanzas fuel buf.
Proof.
  revert fuel buf. induction fuel as [|fuel IH]; intros buf Hf; [lia|].
  rewrite Nat.add_succ_r. cbn [stanzas].
  destruct (parse_stanza buf) as [[s r]|] eqn:E; [|done].
  apply parse_stanza_shrinks in E. f_equal. apply IH. lia.
Qed.

End Fuel.

(** the line-by-line parsers of sources.list, Release and Packages terminate:
    each turn consumes input, so running any of the loops for more turns than
    the model allows gives the same result. *)
Theorem repo_parsers_terminate k buf want :
  source_lines (k + length buf) 16 buf = source_lines (length buf) 16 buf /\
  find_hash (k + S (length buf)) false buf want = release_find_hash buf want /\
  stanza_lines (k + S (length buf)) false empty_stanza buf =
    stanza_lines (S (length buf)) false empty_stanza buf /\
  stanzas (k + S (length buf)) buf = all_stanzas buf.
Proof.
  split_and!.
  - apply source_lines_more. lia.
  - apply find_hash_more. lia.
  - apply stanza_lines_more. lia.
  - apply stanzas_more. lia.
Qed.

(** * Witnesses *)

(** A stand-in for the primitives: the digest is the first 32 bytes, and the
    only valid signature is "sig". *)
Definition toy_outside : Outside := {|
  br_sha256 := λ b, take 32 (b ++ repeat 0 32);
  br_ecdsa_i31_vrfy_asn1 := λ _ _ sig, beq sig (B "sig");
  herald_trusted_key := 4 :: repeat 0 64;
  herald_fetch := λ _ _, mret (-1)
|}.

Definition sample_packages : bytes :=
  B "Package: dock" ++ [LF] ++ B "Version: 1.2" ++ [LF; LF] ++
  B "Package: dock" ++ [LF] ++ B "Version: 1.10" ++ [LF].

Definition sample_sources : bytes := B "http://repo/ stable main" ++ [LF].

Definition sample_source : herald_source_t := Source (B "http://repo") (B "stable") (B "main").

Definition sample_release : bytes :=
  B "Suite: stable" ++ [LF] ++ B "SHA256:" ++ [LF; SP] ++
  to_hex (@br_sha256 toy_outside sample_packages) ++ B " 52 main/binary-x86_64/Packages" ++ [LF].

Definition sample_cache : fsys :=
  let file p d := (comps p, Reg 420 d) in
  let key := srckey sample_source 400 in
  <[comps (relpath key) := Reg 420 sample_release]>
  (<[comps (sigpath key) := Reg 420 (B "sig")]>
  (<[comps (pkgpath key) := Reg 420 sample_packages]>
  (<[comps HERALD_SOURCES := Reg 420 sample_sources]>
  (tree [("/etc", Dir); ("/etc/herald", Dir); ("/var", Dir); ("/var/lib", Dir);
         ("/var/lib/herald", Dir); ("/var/lib/herald/lists", Dir)]%string)))).

Definition sample_best : herald_stanza_t :=
  Stanza (B "dock") (B "1.10") [] [] [] [] [] [] [] (B "http://repo").

Lemma repo_find_authentic_witness :
  @authentic toy_outside sample_cache [sample_source] (B "dock") sample_best.
Proof.
  pose proof (@repo_find_authentic toy_outside (B "dock") (calm_world sample_cache)
                (calm_world_ok _ true)) as H.
  assert (E : match @repo_find toy_outside (B "dock") (calm_world sample_cache) with
              | Ret r _ => r = Some (Some sample_best) | Crashed _ => False end)
    by (vm_compute; reflexivity).
  destruct (repo_find _ _) as [r w'|w']; [|destruct E]. subst r.
  destruct H as (_ & ss & Hs & Ha).
  assert (Es : ss = sample_sources).
  { apply (inj Some). rewrite <- Hs. vm_compute. reflexivity. }
  subst ss. assert (source_lines (length sample_sources) 16 sample_sources = [sample_source]) as Hl
    by (vm_compute; reflexivity).
  rewrite Hl in Ha. exact Ha.
Defined.

Lemma repo_find_best_witness :
  exists r w', @repo_find toy_outside (B "dock") (calm_world sample_cache) = Ret (Some r) w' /\
    r = Some sample_best.
Proof.
  destruct (@repo_find_best toy_outside (B "dock") sample_sources (calm_world sample_cache)
              (calm_world_ok _ false) (ltac:(vm_compute; reflexivity))) as (r & w' & E & H).
  exists r, w'. split; [exact E|].
  assert (E' : match @repo_find toy_outside (B "dock") (calm_world sample_cache) with
               | Ret x _ => x = Some (Some sample_best) | Crashed _ => False end)
    by (vm_compute; reflexivity).
  rewrite E in E'. injection E' as ->. reflexivity.
Defined.

Lemma herald_version_gt_order_witness :
  herald_version_gt (B "1.10") (B "1.9") = true /\ herald_version_gt (B "1.9") (B "1.2") = true /\
  herald_version_gt (B "1.10") (B "1.2") = true.
Proof.
  split; [vm_compute; reflexivity|]. split; [vm_compute; reflexivity|].
  apply (herald_version_gt_order (B "1.10") (B "1.9") (B "1.2")); vm_compute; reflexivity.
Defined.
