(* ===== verification/HeraldMain.v ===== *)
(** herald's command layer (src/user/bin/herald/main.c).

    The commands compose the other components: a package is authenticated
    ([load_verified_pkg], or the hash chain of [HeraldRepo] for a download), its
    manifest is checked against the capability and path rules ([install_bytes]),
    its files are staged in a transaction, and the transaction is committed.

    The file-scope variable behind [db_set_path] is the argument [dbp] of the
    functions that use the database; messages on the terminal are not modelled,
    a command's result is its exit status.  [install_bytes] and [resolve_pkg]
    return to their callers what the C functions return through pointers.  The
    environment variable HERALD_ALLOW_DOWNGRADE is the argument
    [allow_downgrade].  The theorems are in [HeraldMainSafety] and
    [HeraldResolve]. *)

From S2P Require Import Prelude CString Posix HeraldTxn HeraldTar HeraldManifest HeraldDb HeraldRepo.
Local Open Scope Z_scope.

(** * Definitions *)

Definition HERALD_CACHE_DIR : bytes := B "/var/lib/herald/cache".
Definition HERALD_MAX_INSTALL : nat := 64.
Definition HERALD_ANCHORS_FILE : bytes := B "/etc/aegis/anchors".
Definition CAPS_DIR : bytes := B "/etc/aegis/caps.d/".

Definition staged_db : bytes := HERALD_TXN_STAGE ++ HERALD_DB_PATH.

(** The database file between [db_set_path(staged_db)] and [db_set_path(NULL)],
    and outside. *)
Definition staged_path : bytes := db_set_path (Some staged_db).
Definition live_path : bytes := db_set_path None.

(** ** Capability allow-list *)

Definition allowed_caps : list bytes :=
  [B "FB"; B "IPC"; B "NET_SOCKET"; B "PROC_READ"; B "THREAD_CREATE";
   B "VFS_OPEN"; B "VFS_READ"; B "VFS_WRITE"].

Fixpoint caps_loop (fuel : nat) (p : bytes) (badsz : nat) : option bytes :=
  match fuel, p with
  | O, _ | _, [] => None
  | S fuel, _ =>
      match drop_while is_blank p with
      | [] => None
      | (_ :: _) as p =>
          let tok := take_while not_blank p in
          if existsb (beq tok) allowed_caps then caps_loop fuel (drop_while not_blank p) badsz
          else Some (fit badsz tok)
      end
  end.

(** [None] is the result 1; [Some bad] the result 0 and the refused name. *)
Definition caps_are_safe (caps : bytes) (badsz : nat) : option bytes :=
  caps_loop (S (length caps)) caps badsz.

Definition caps_ok (caps : bytes) : bool :=
  match caps_are_safe caps 64 with None => true | Some _ => false end.

(** ** Staging helpers *)

(** [fprintf] to a stream opened for writing, and [fclose]: the buffered text
    reaches the file when the stream is closed. *)
Definition fclose_text (fd : path) (text : bytes) : M Z :=
  w ← write_loop (length text) fd text;
  c ← sys_close fd;
  mret (if (w =? 0) && (rc c =? 0) then 0 else -1).

Definition is_eol_blank (c : byte) : bool := (c =? LF) || (c =? CR) || (c =? SP) || (c =? TAB).

Definition staged_anchors : bytes := HERALD_TXN_STAGE ++ HERALD_ANCHORS_FILE.

Definition anchor_register (relprefix : bytes) : M Z :=
  let body := rstrip (is_c SLASH) relprefix in
  if beq body [] || (128 <=? length body + 1)%nat then mret (-1) else
  let abspath := SLASH :: body in
  f ← sys_read staged_anchors;
  let lines := match f with
               | inl (_, data) => (λ l, rstrip is_eol_blank (cstr l)) <$> fgets_lines 160 data
               | inr _ => []
               end in
  if existsb (beq abspath) lines then mret 0 else
  a ← sys_open_create_append staged_anchors 438;
  match a with
  | inr _ => mret (-1)
  | inl fd => _ ← fclose_text fd (abspath ++ [LF]); mret 0
  end.

Definition transaction_begin : M Z :=
  r ← (txn_begin ?; txn_stage_existing (B "etc/aegis/anchors"));
  if r =? 0 then
    _ ← db_mkdir_p (HERALD_TXN_STAGE ++ B "/etc/aegis/caps.d"); mret 0
  else _ ← txn_abort; mret (-1).

(** [syscall(SYS_INSTALL_COMMIT)]: the kernel rereads its policy files. *)
Definition sys_install_commit : M (unit + errno) := pure_op (λ _, inl tt).

Definition transaction_finish (ok : bool) : M Z :=
  c ← (if ok then txn_commit else mret (-1));
  if c =? 0 then _ ← sys_install_commit; mret 0
  else _ ← txn_abort; mret (-1).

Definition owner_finish (fd : path) (id : bytes) : M Z :=
  f ← sys_fsync fd;
  c ← sys_close fd;
  if negb (rc f =? 0) || negb (rc c =? 0) || negb (fits 160 (owner_list id)) then mret (-1) else
  match txn_stage_path TXN_PATH_MAX (tail (owner_list id)) with
  | None => mret (-1)
  | Some p => txn_remove_stale id p
  end.

Definition policy_rel (name : bytes) : bytes := B "etc/aegis/caps.d/" ++ name.

Definition staged_policy_path (size : nat) (name : bytes) : option bytes :=
  if fits 256 (policy_rel name) then txn_stage_path size (policy_rel name) else None.

Definition exists_at (p : bytes) : M bool :=
  a ← sys_access p; mret (match a with inl _ => true | inr _ => false end).

Definition policy_exists (name : bytes) : M bool :=
  live ← exists_at (fit 256 (CAPS_DIR ++ name));
  if live : bool then mret true
  else match staged_policy_path TXN_PATH_MAX name with
       | None => mret false
       | Some staged => exists_at staged
       end.

(** [db_find(id, &e) == 1] *)
Definition db_found (dbp id : bytes) : M (option herald_db_entry_t) :=
  f ← db_find dbp id; mret (default None f).

(** Write a policy file and its line of the owner list; every failure closes
    the owner list. *)
Definition write_policy (owner_fd : path) (name caps : bytes) : M Z :=
  r ← match staged_policy_path TXN_PATH_MAX name with
      | None => mret (-1)
      | Some cp =>
          f ← sys_open_trunc cp 438;
          match f with
          | inr _ => mret (-1)
          | inl cf => fclose_text cf (B "service " ++ caps ++ [LF]) ?;
                      txn_owner_add owner_fd (policy_rel name)
          end
      end;
  if r =? 0 then mret 0 else _ ← sys_close owner_fd; mret (-1).

Fixpoint write_policies (owner_fd : path) (l : list herald_bincap_t) : M Z :=
  match l with
  | [] => mret 0
  | bc :: l => write_policy owner_fd (bc_binary bc) (bc_caps bc) ?; write_policies owner_fd l
  end.

(** ** Guards of an application package *)

Fixpoint check_bincaps (reinstall : bool) (l : list herald_bincap_t) : M Z :=
  match l with
  | [] => mret 0
  | bc :: l =>
      if has_char SLASH (bc_binary bc) then mret (-1)
      else if negb (caps_ok (bc_caps bc)) then mret (-1)
      else
        e ← policy_exists (bc_binary bc);
        if e && negb reinstall then mret (-1) else check_bincaps reinstall l
  end.

(** The test on one declared prefix. *)
Definition path_illegal (tok : bytes) : bool :=
  starts_with [SLASH] tok || negb (wants_dir tok) || contains (B "..") tok ||
  starts_with (B "etc/aegis/") tok.

(** The loop over [m.paths]: [np] prefixes are in the table. *)
Fixpoint declared (fuel np : nat) (s : bytes) : option (list bytes) :=
  match fuel with
  | O => Some []
  | S fuel =>
      if (16 <=? np)%nat then Some [] else
      match drop_while is_blank s with
      | [] => Some []
      | (_ :: _) as s =>
          let tok := take_while not_blank s in
          if path_illegal tok then None
          else cons tok <$> declared fuel (S np) (tail (drop_while not_blank s))
      end
  end.

Definition bundle_prefix (id : bytes) : bytes := fit 80 (B "apps/" ++ id ++ [SLASH]).

Definition prefixes (m : herald_manifest_t) : option (list bytes) :=
  cons (bundle_prefix (m_id m)) <$> declared (S (length (m_paths m))) 1 (m_paths m).

Fixpoint register_anchors (owner_fd : path) (l : list bytes) : M Z :=
  match l with
  | [] => mret 0
  | p :: l =>
      if starts_with (B "apps/") p then register_anchors owner_fd l else
      r ← anchor_register p;
      if r =? 0 then register_anchors owner_fd l
      else _ ← sys_close owner_fd; mret (-1)
  end.

(** Open the owner list and extract the archive into the staging tree. *)
Definition stage_files (buf id : bytes) (allowed : option (list bytes)) : M (option path) :=
  o ← txn_owner_open id;
  match o with
  | inr _ => mret None
  | inl owner_fd =>
      x ← tar_extract_mem_owned buf HERALD_TXN_STAGE allowed owner_fd;
      match x with
      | WErr _ => _ ← sys_close owner_fd; mret None
      | _ => mret (Some owner_fd)
      end
  end.

(** All the checks on an application package, before anything is written. *)
Definition check_app (dbp : bytes) (m : herald_manifest_t) : M Z :=
  if negb (beq (m_caps m) []) && negb (caps_ok (m_caps m)) then mret (-1) else
  if negb (beq (m_exec m) (m_id m)) then mret (-1) else
  (if beq (m_caps m) [] then mret 0 else
     e ← policy_exists (m_exec m);
     if e : bool then
       prev ← db_found dbp (m_id m);
       mret (match prev with Some _ => 0 | None => -1 end)
     else mret 0) ?;
  (prev ← db_found dbp (m_id m);
   check_bincaps (match prev with Some _ => true | None => false end) (m_bincaps m)).

(** ** Installing *)

Section Commands.

Context `{Out : Outside} (allow_downgrade : bool).

Definition load_verified_pkg (path : bytes) : M (option (bytes * herald_manifest_t)) :=
  f ← read_file path;
  match f with
  | None => mret None
  | Some buf =>
      let sigpath := path ++ B ".sig" in
      if negb (fits 1024 sigpath) then mret None else
      g ← read_file sigpath;
      match g with
      | None => mret None
      | Some sig =>
          if negb (herald_verify_p256_sha256 herald_trusted_key buf sig) then mret None else
          found ← tar_find_mem buf (B "manifest");
          mret (match found with
                | WFound off size =>
                    match manifest_parse (slice off (Z.to_nat size) buf) with
                    | Some m => Some (buf, m)
                    | None => None
                    end
                | _ => None
                end)
      end
  end.

(** The manifest inside the archive. *)
Definition pkg_manifest (buf : bytes) : M (option herald_manifest_t) :=
  found ← tar_find_mem buf (B "manifest");
  mret (match found with
        | WFound off size => manifest_parse (slice off (Z.to_nat size) buf)
        | _ => None
        end).

(** The last steps of both kinds of package. *)
Definition record_package (dbp buf : bytes) (m : herald_manifest_t) (owner_fd : path) : M Z :=
  owner_finish owner_fd (m_id m) ?;
  db_put dbp (DbEntry (fit 64 (m_id m)) (fit 32 (m_version m)) (fit 64 (m_exec m))
                (fit 65 (hex32 (herald_sha256 buf)))).

Definition install_system (dbp buf : bytes) (m : herald_manifest_t) : M Z :=
  legacy ← tar_find_mem buf (B "var/lib/lorica-update/pending");
  match legacy with
  | WFound _ _ => mret (-1)
  | _ =>
      o ← stage_files buf (m_id m) None;
      match o with
      | None => mret (-1)
      | Some owner_fd => record_package dbp buf m owner_fd
      end
  end.

Definition install_app (dbp buf : bytes) (m : herald_manifest_t) : M Z :=
  check_app dbp m ?;
  match prefixes m with
  | None => mret (-1)
  | Some ps =>
      o ← stage_files buf (m_id m) (Some ps);
      match o with
      | None => mret (-1)
      | Some owner_fd =>
          register_anchors owner_fd ps ?;
          (if beq (m_caps m) [] then mret 0 else write_policy owner_fd (m_exec m) (m_caps m)) ?;
          write_policies owner_fd (m_bincaps m) ?;
          record_package dbp buf m owner_fd
      end
  end.

Definition install_bytes (dbp buf : bytes) : M Z :=
  mm ← pkg_manifest buf;
  match mm with
  | None => mret (-1)
  | Some m =>
      cur ← db_found dbp (m_id m);
      let older := match cur with
                   | Some c => herald_version_gt (de_version c) (m_version m)
                   | None => false
                   end in
      if older && negb allow_downgrade then mret (-1)
      else if m_is_system m then install_system dbp buf m
      else install_app dbp buf m
  end.

(** ** Dependency resolution *)

(** Move the stanza at [slot] to the end. *)
Definition move_last (slot : nat) (st : herald_stanza_t) (set : list herald_stanza_t) :
    list herald_stanza_t :=
  if (slot =? length set - 1)%nat then set else delete slot set ++ [st].

(** [None] is the result -1. *)
Fixpoint resolve_pkg (fuel : nat) (dbp name : bytes) (set : list herald_stanza_t) (max : nat)
    (upgrade : bool) : M (option (list herald_stanza_t)) :=
  match fuel with
  | O => mret None
  | S fuel =>
      if negb (manifest_is_bare_name name) then mret None else
      de ← db_found dbp name;
      if negb upgrade && match de with Some _ => true | None => false end then mret (Some set) else
      if existsb (λ st, beq (st_name st) name) set then mret (Some set) else
      f ← repo_find name;
      match f with
      | None => mret None
      | Some None => mret (match de with Some _ => Some set | None => None end)
      | Some (Some st) =>
          if match de with
             | Some d => negb (herald_version_gt (st_version st) (de_version d))
             | None => false
             end then mret (Some set) else
          if (max <=? length set)%nat then mret None else
          let slot := length set in
          (fix each (toks : list bytes) (set : list herald_stanza_t) : M (option (list herald_stanza_t)) :=
             match toks with
             | [] => mret (Some (move_last slot st set))
             | tok :: toks =>
                 r ← resolve_pkg fuel dbp tok set max upgrade;
                 match r with
                 | None => mret None
                 | Some set => each toks set
                 end
             end) (tokens (is_c SP) (fit 256 (st_depends st))) (set ++ [st])
      end
  end.

Definition cache_path (st : herald_stanza_t) : bytes :=
  fit 256 (HERALD_CACHE_DIR ++ SLASH :: st_name st ++ B ".hpkg").

(** The cached file of a stanza, if its hash is the one the index pins. *)
Definition read_cached (st : herald_stanza_t) : M (option bytes) :=
  p ← read_file (cache_path st);
  mret (match p with
        | Some pb => if beq (hex32 (herald_sha256 pb)) (st_sha256 st) then Some pb else None
        | None => None
        end).

(** The first loop of [apply_set]. *)
Fixpoint fetch_each (set : list herald_stanza_t) : M Z :=
  match set with
  | [] => mret 0
  | st :: set =>
      f ← herald_fetch (fit 800 (st_base_url st ++ SLASH :: st_filename st)) (cache_path st);
      if negb (f =? 0) then mret (-1) else
      p ← read_cached st;
      match p with
      | None => mret (-1)
      | Some _ => fetch_each set
      end
  end.

(** The second loop. *)
Fixpoint install_each (set : list herald_stanza_t) : M Z :=
  match set with
  | [] => mret 0
  | st :: set =>
      p ← read_cached st;
      match p with
      | None => mret (-1)
      | Some pb => install_bytes staged_path pb ?; install_each set
      end
  end.

Definition exit_of (r : Z) : Z := if r =? 0 then 0 else 1.

Definition apply_set (set : list herald_stanza_t) : M Z :=
  _ ← db_mkdir_p HERALD_CACHE_DIR;
  f ← fetch_each set;
  if negb (f =? 0) then mret 1 else
  b ← transaction_begin;
  if negb (b =? 0) then mret 1 else
  i ← install_each set;
  r ← transaction_finish (i =? 0);
  mret (exit_of r).

(** ** Commands *)

Definition cmd_verify (path : bytes) : M Z :=
  r ← load_verified_pkg path;
  mret (match r with Some _ => 0 | None => 1 end).

Definition cmd_info (arg : bytes) : M Z :=
  if ends_with arg (B ".hpkg") then cmd_verify arg
  else f ← db_find live_path arg; mret (match f with Some (Some _) => 0 | _ => 1 end).

Definition cmd_list : M Z :=
  l ← db_read live_path 256; mret (match l with Some _ => 0 | None => 1 end).

(** The declared dependencies that are not installed. *)
Fixpoint unmet (toks : list bytes) : M (list bytes) :=
  match toks with
  | [] => mret []
  | tok :: toks =>
      d ← db_found live_path tok;
      rest ← unmet toks;
      mret (match d with Some _ => rest | None => tok :: rest end)
  end.

Definition warn_unmet_depends (m : herald_manifest_t) : M Z :=
  l ← unmet (tokens (is_c SP) (fit 256 (m_depends m))); mret (Z.of_nat (length l)).

Definition cmd_install (path : bytes) : M Z :=
  p ← load_verified_pkg path;
  match p with
  | None => mret 1
  | Some (buf, m) =>
      b ← transaction_begin;
      if negb (b =? 0) then mret 1 else
      r ← install_bytes staged_path buf;
      t ← transaction_finish (r =? 0);
      if t =? 0 then _ ← warn_unmet_depends m; mret 0 else mret 1
  end.

Definition cmd_sync : M Z := n ← repo_sync; mret (if n <? 0 then 1 else 0).

Definition cmd_search (term : bytes) : M Z :=
  r ← repo_search term; mret (match r with Some _ => 0 | None => 1 end).

(** A chain of at most [max] queued names, and one call to find it full. *)
Definition resolve_set (name : bytes) (set : list herald_stanza_t) (upgrade : bool) :
    M (option (list herald_stanza_t)) :=
  resolve_pkg (S HERALD_MAX_INSTALL) live_path name set HERALD_MAX_INSTALL upgrade.

Definition apply_resolved (r : option (list herald_stanza_t)) : M Z :=
  match r with
  | None => mret 1
  | Some [] => mret 0
  | Some set => apply_set set
  end.

Definition cmd_install_named (name : bytes) : M Z :=
  if negb (manifest_is_bare_name name) then mret 1 else
  r ← resolve_set name [] false; apply_resolved r.

Fixpoint resolve_all (es : list herald_db_entry_t) (set : list herald_stanza_t) :
    M (option (list herald_stanza_t)) :=
  match es with
  | [] => mret (Some set)
  | e :: es =>
      r ← resolve_set (de_id e) set true;
      match r with
      | None => mret None
      | Some set => resolve_all es set
      end
  end.

Definition cmd_upgrade (name : option bytes) : M Z :=
  match name with
  | Some name =>
      if negb (manifest_is_bare_name name) then mret 1 else
      d ← db_found live_path name;
      match d with
      | None => mret 1
      | Some _ => r ← resolve_set name [] true; apply_resolved r
      end
  | None =>
      l ← db_read live_path 256;
      match l with
      | None => mret 1
      | Some es => r ← resolve_all es []; apply_resolved r
      end
  end.

(** The removal of packages installed before owner lists existed. *)
Definition remove_legacy (id exec : bytes) : M Z :=
  _ ← sys_unlink (fit 256 (B "/apps/" ++ id ++ SLASH :: exec));
  _ ← sys_unlink (fit 256 (B "/apps/" ++ id ++ B "/app.ini"));
  d ← sys_rmdir (fit 256 (B "/apps/" ++ id));
  match d with
  | inr EPERM | inr EACCES => mret 1
  | _ => _ ← sys_unlink (fit 256 (CAPS_DIR ++ exec)); _ ← db_remove live_path id; mret 0
  end.

Definition cmd_remove (id : bytes) : M Z :=
  if negb (manifest_is_bare_name id) then mret 1 else
  f ← db_find live_path id;
  match f with
  | Some (Some e) =>
      if negb (manifest_is_bare_name (de_exec e)) then mret 1 else
      owned ← exists_at (fit 256 (owner_list id));
      if owned : bool then
        b ← transaction_begin;
        if negb (b =? 0) then mret 1 else
        r ← (txn_remove_owned id ?; db_remove staged_path id ?; transaction_finish true);
        mret (exit_of r)
      else remove_legacy id (de_exec e)
  | _ => mret 1
  end.

(** [argv] without the program's name. *)
Definition run_command (argv : list bytes) : M Z :=
  match argv with
  | [] => mret 2
  | cmd :: args =>
      if beq cmd (B "list") then cmd_list
      else if beq cmd (B "sync") then cmd_sync
      else if beq cmd (B "upgrade") then cmd_upgrade (head args)
      else match args with
      | [] => mret 2
      | arg :: _ =>
          if beq cmd (B "install") then
            if ends_with arg (B ".hpkg") then cmd_install arg else cmd_install_named arg
          else if beq cmd (B "verify") then cmd_verify arg
          else if beq cmd (B "info") then cmd_info arg
          else if beq cmd (B "remove") then cmd_remove arg
          else if beq cmd (B "search") then cmd_search arg
          else mret 2
      end
  end.

Definition main (argv : list bytes) : M Z :=
  recovery ← txn_recover;
  match argv with
  | [cmd; arg] =>
      if (recovery =? 1) && beq cmd (B "recover") then
        rc ← (if beq arg (B "complete") then txn_finalize
              else if beq arg (B "rollback") then txn_rollback else mret (-1));
        if negb (rc =? 0) then mret 1
        else if beq arg (B "rollback") then _ ← sys_install_commit; mret 0
        else mret 0
      else if negb (recovery =? 0) then mret 1 else run_command argv
  | _ => if negb (recovery =? 0) then mret 1 else run_command argv
  end.

End Commands.
