(* ===== verification/HeraldResolve.v ===== *)
(** Dependency resolution of herald (the function [resolve] of
    src/user/bin/herald/main.c, [resolve_pkg] in [HeraldMain]).

    The installed database and the verified package lists define a graph:
    [wants fs upgrade n] is what the system needs for the name [n] (nothing, a
    stanza, or an error), and a name has an edge to each dependency of the
    stanza it needs.  The theorems: resolution ends; it returns a duplicate-free
    set that is closed under dependencies, with nothing in it that is not
    reachable; in an acyclic graph every package comes after its dependencies;
    and it fails only for a reachable name that cannot be provided or a set that
    exceeds the table. *)

From S2P Require Import Prelude CString Posix PosixLogic HeraldTxn HeraldManifest HeraldDb HeraldRepo HeraldMain.
Local Open Scope Z_scope.

(** * Definitions *)

(** ** Programs that only read *)

(** Without faults such a program returns a value that depends on the tree only. *)
Class ReadOnly {A} (m : M A) : Prop :=
  readonly fs : exists a, wp false m (λ r fs', r = a /\ fs' = fs) (λ _, False) fs.

Definition run_calm {A} (m : M A) (fs : fsys) : option A :=
  match m (calm_world fs) with Ret a _ => Some a | Crashed _ => None end.

(** ** The dependency graph *)

Section Graph.

Context `{Out : Outside} (fs : fsys) (upgrade : bool).

Definition installed (n : bytes) : option herald_db_entry_t :=
  default None (run_calm (db_found live_path n) fs).

Definition offered (n : bytes) : option (option herald_stanza_t) :=
  default None (run_calm (repo_find n) fs).

(** [None]: the name cannot be provided; [Some None]: nothing to do;
    [Some (Some st)]: [st] has to be installed. *)
Definition wants (n : bytes) : option (option herald_stanza_t) :=
  if negb (manifest_is_bare_name n) then None else
  match installed n, offered n with
  | Some _, None => if upgrade then None else Some None
  | None, None => None
  | Some _, Some None => Some None
  | None, Some None => None
  | Some d, Some (Some st) =>
      if upgrade && herald_version_gt (st_version st) (de_version d) then Some (Some st) else Some None
  | None, Some (Some st) => Some (Some st)
  end.

Definition deps (st : herald_stanza_t) : list bytes := tokens (is_c SP) (fit 256 (st_depends st)).

Definition edge (n d : bytes) : Prop := exists st, wants n = Some (Some st) /\ d ∈ deps st.

Definition needed (n : bytes) : Prop := exists st, wants n = Some (Some st).

Abbreviation names := (fmap st_name).

(** A dependency that is provided for. *)
Definition covered (set : list herald_stanza_t) (n : bytes) : Prop :=
  wants n = Some None \/ n ∈ st_name <$> set.

(** Every stanza comes after its dependencies. *)
Inductive topo : list herald_stanza_t -> Prop :=
  | topo_nil : topo []
  | topo_snoc l st : topo l -> (forall d, d ∈ deps st -> covered l d) -> topo (l ++ [st]).

(** The graph has no cycle: dependencies have a smaller rank. *)
Definition ranked (rank : bytes -> nat) : Prop := forall n d, edge n d -> (rank d < rank n)%nat.

Record set_ok (max : nat) (set : list herald_stanza_t) : Prop := {
  so_nodup : NoDup (st_name <$> set);
  so_max : (length set <= max)%nat;
  so_wanted st : st ∈ set -> wants (st_name st) = Some (Some st)
}.

(** [ext] is what resolving the names [ns] adds to [set]. *)
Record grown_from (max : nat) (ns : list bytes) (set ext : list herald_stanza_t) : Prop := {
  gf_ok : set_ok max (set ++ ext);
  gf_reach st : st ∈ ext -> exists n, n ∈ ns /\ rtc edge n (st_name st);
  gf_closed st d : st ∈ ext -> d ∈ deps st -> covered (set ++ ext) d;
  gf_roots n : n ∈ ns -> covered (set ++ ext) n;
  gf_order rank base : ranked rank -> topo base ->
    (forall n, n ∈ st_name <$> set -> n ∈ st_name <$> base \/ forall r, r ∈ ns -> (rank r < rank n)%nat) ->
    topo (base ++ ext) /\ forall r, r ∈ ns -> covered (base ++ ext) r
}.

(** Why resolution fails: a reachable name that cannot be provided, or more
    packages than the table holds. *)
Definition unsatisfiable (max : nat) (ns : list bytes) (set : list herald_stanza_t) : Prop :=
  (exists n m, n ∈ ns /\ rtc edge n m /\ wants m = None) \/
  (exists l, NoDup l /\ length l = S max /\
     forall m, m ∈ l -> m ∈ st_name <$> set \/ exists n, n ∈ ns /\ rtc edge n m /\ needed m).

End Graph.

Section Loop.

Context `{Out : Outside}.

(** The loop over the dependencies in [resolve_pkg]. *)
Definition resolve_each (fuel : nat) (dbp : bytes) (max : nat) (upgrade : bool) (slot : nat)
    (st : herald_stanza_t) : list bytes -> list herald_stanza_t -> M (option (list herald_stanza_t)) :=
  fix each (toks : list bytes) (set : list herald_stanza_t) :=
    match toks with
    | [] => mret (Some (move_last slot st set))
    | tok :: toks =>
        r ← resolve_pkg fuel dbp tok set max upgrade;
        match r with
        | None => mret None
        | Some set => each toks set
        end
    end.

Lemma resolve_pkg_S fuel dbp name set max upgrade :
  resolve_pkg (S fuel) dbp name set max upgrade =
    (if negb (manifest_is_bare_name name) then mret None else
     de ← db_found dbp name;
     if negb upgrade && match de with Some _ => true | None => false end then mret (Some set) else
     if existsb (λ st, beq (st_name st) name) set then mret (Some set) else
     f ← repo_find name;
     match f with
     | None => mret None
     | Some None => mret (match de with Some _ => Some set | None => None end)
     | Some (Some st) =>
         if match de with
            | Some d => negb (herald_version_gt (st_version st) (de_version d))
            | None => false
            end then mret (Some set) else
         if (max <=? length set)%nat then mret None else
         resolve_each fuel dbp max upgrade (length set) st (deps st) (set ++ [st])
     end).
Proof. reflexivity. Qed.

Lemma resolve_each_nil fuel dbp max upgrade slot st set :
  resolve_each fuel dbp max upgrade slot st [] set = mret (Some (move_last slot st set)).
Proof. reflexivity. Qed.

Lemma resolve_each_cons fuel dbp max upgrade slot st tok toks set :
  resolve_each fuel dbp max upgrade slot st (tok :: toks) set =
    (r ← resolve_pkg fuel dbp tok set max upgrade;
     match r with
     | None => mret None
     | Some set => resolve_each fuel dbp max upgrade slot st toks set
     end).
Proof. reflexivity. Qed.

End Loop.

(** * Read-only programs *)

Section Reading.

Implicit Types (fs : fsys).

#[export] Instance readonly_ret {A} (a : A) : ReadOnly (mret a).
Proof. intros fs. exists a. by wp_step. Qed.

#[export] Instance readonly_bind {A B} (m : M A) (k : A -> M B) :
  ReadOnly m -> (forall a, ReadOnly (k a)) -> ReadOnly (m ≫= k).
Proof.
  intros Hm Hk fs. destruct (Hm fs) as [a Ha]. destruct (Hk a fs) as [b Hb]. exists b.
  wp_step. eapply wp_conseq; [exact Ha| |done]. by intros ? ? [-> ->].
Qed.

#[export] Instance readonly_read p : ReadOnly (sys_read p).
Proof.
  intros fs. exists (fs_read p fs).1. apply wp_op; [|done]. split; [done|].
  unfold fs_read. by destruct (fs_stat fs p) as [[]|].
Qed.

#[export] Instance readonly_db_found dbp n : ReadOnly (db_found dbp n).
Proof. unfold db_found, db_find, db_load. apply _. Qed.

#[export] Instance readonly_read_file p : ReadOnly (read_file p).
Proof. unfold read_file. apply _. Qed.

Context `{Out : Outside}.

#[export] Instance readonly_load_verified s key : ReadOnly (lists_load_verified s key).
Proof.
  unfold lists_load_verified. apply readonly_bind; [apply _|]. intros [rbuf|]; [|apply _].
  apply readonly_bind; [apply _|]. intros [sbuf|]; [|apply _].
  case_match; [apply _|]. case_match; [|apply _].
  apply readonly_bind; [apply _|]. intros [pbuf|]; [|apply _]. case_match; apply _.
Qed.

#[export] Instance readonly_find_in name ss best : ReadOnly (find_in name ss best).
Proof.
  revert best. induction ss as [|s ss IH]; intros best; cbn [find_in]; [apply _|].
  apply readonly_bind; [apply _|]. intros [pbuf|]; apply IH.
Qed.

#[export] Instance readonly_repo_find name : ReadOnly (repo_find name).
Proof.
  unfold repo_find, sources_load. apply readonly_bind; [apply _|]. intros [ss|]; apply _.
Qed.

Lemma wp_readonly {A} (m : M A) `{!ReadOnly m} (Q : A -> fsys -> Prop) C fs :
  (forall a, run_calm m fs = Some a -> Q a fs) -> wp false m Q C fs.
Proof.
  intros HQ. destruct (readonly (m := m) fs) as [a Ha]. apply wp_calm.
  eapply wp_conseq; [exact Ha| |done]. intros r fs' [-> ->]. apply HQ. unfold run_calm.
  pose proof (wp_use false _ _ _ (calm_world fs) Ha (calm_world_ok fs false)) as H.
  destruct (m (calm_world fs)); [|by destruct H]. by destruct H as [_ [-> _]].
Qed.

(** The stanza a name is offered carries that name. *)
Lemma offered_name fs n st : offered fs n = Some (Some st) -> st_name st = n.
Proof.
  unfold offered, run_calm. intros H.
  pose proof (wp_use false (repo_find n) (λ r _, forall st, r = Some (Some st) -> st_name st = n)
                (λ _, True) (calm_world fs)) as Hw.
  destruct (repo_find n (calm_world fs)) as [r w'|]; [|done]. cbn in H. subst r.
  refine (proj2 (Hw _ (calm_world_ok fs false)) st eq_refl). clear.
  unfold repo_find, sources_load. repeat wp_step. apply wp_readonly; [apply _|]. intros f _.
  wp_step. destruct f as [buf|]; [|by wp_step].
  wp_step. eapply wp_conseq; [apply (wp_find_in false n (source_lines (length buf) 16 buf) _ _ _ (λ _, True)); done| |done].
  intros r fs' (-> & Ha & _). wp_step. intros st [= ->].
  destruct (Ha st eq_refl) as (s & pkgs & st0 & _ & _ & _ & Hc & ->). cbn.
  unfold candidate in Hc. boolify. by apply beq_true.
Qed.

Lemma wants_name fs up n st : wants fs up n = Some (Some st) -> st_name st = n.
Proof.
  unfold wants. case_match; [done|]. intros H0. apply (offered_name fs).
  destruct (installed fs n), (offered fs n) as [[]|]; try done; repeat case_match; congruence.
Qed.

End Reading.

(** * What resolution adds *)

Section Growth.

Context `{Out : Outside} (fs : fsys) (upgrade : bool) (max : nat).
Implicit Types (set ext base : list herald_stanza_t) (st : herald_stanza_t) (n d : bytes) (ns : list bytes).

Local Notation wants := (wants fs upgrade).
Local Notation covered := (covered fs upgrade).
Local Notation set_ok := (set_ok fs upgrade max).
Local Notation grown_from := (grown_from fs upgrade max).
Local Notation edge := (edge fs upgrade).
Local Notation topo := (topo fs upgrade).
Local Notation unsatisfiable := (unsatisfiable fs upgrade max).

Lemma covered_mono set set' n : set ⊆ set' -> covered set n -> covered set' n.
Proof.
  intros Hs [H|H]; [by left|]. right. apply list_elem_of_fmap in H as (st & -> & H).
  apply list_elem_of_fmap_2. by apply Hs.
Qed.

Lemma grown_nil set : set_ok set -> grown_from [] set [].
Proof.
  intros H. split; rewrite ?app_nil_r; try done; try set_solver.
  intros rank base _ Hb _. rewrite app_nil_r. split; [done|]. set_solver.
Qed.

(** A name that is provided for already. *)
Lemma grown_covered n set :
  set_ok set -> wants n = Some None \/ n ∈ st_name <$> set -> grown_from [n] set [].
Proof.
  intros H Hn. split; rewrite ?app_nil_r; try done; try set_solver.
  { intros n' ->%list_elem_of_singleton. exact Hn. }
  intros rank base _ Hb Hr. rewrite app_nil_r. split; [done|]. intros r ->%list_elem_of_singleton.
  destruct Hn as [Hn|Hn]; [by left|]. destruct (Hr n Hn) as [|Hlt]; [by right|].
  specialize (Hlt n). exfalso. cut (rank n < rank n)%nat; [lia|]. apply Hlt. set_solver.
Qed.

Lemma grown_cons n ns set e1 e2 :
  grown_from [n] set e1 -> grown_from ns (set ++ e1) e2 -> grown_from (n :: ns) set (e1 ++ e2).
Proof.
  intros H1 H2. split; rewrite ?app_assoc.
  - apply H2.
  - intros st [H|H]%elem_of_app.
    + destruct (gf_reach _ _ _ _ _ _ H1 st H) as (m & Hm & Hr). exists m. set_solver.
    + destruct (gf_reach _ _ _ _ _ _ H2 st H) as (m & Hm & Hr). exists m. set_solver.
  - intros st d [H|H]%elem_of_app Hd; [|by apply (gf_closed _ _ _ _ _ _ H2 st)].
    eapply covered_mono; [|by apply (gf_closed _ _ _ _ _ _ H1 st)]. set_solver.
  - intros m [-> | Hm]%elem_of_cons; [|by apply (gf_roots _ _ _ _ _ _ H2)].
    eapply covered_mono; [|apply (gf_roots _ _ _ _ _ _ H1); set_solver]. set_solver.
  - intros rank base Hrk Hb Hs.
    destruct (gf_order _ _ _ _ _ _ H1 rank base Hrk Hb) as [Ht Hc].
    { intros m Hm. destruct (Hs m Hm) as [|Hlt]; [by left|]. right. set_solver. }
    destruct (gf_order _ _ _ _ _ _ H2 rank (base ++ e1) Hrk Ht) as [Ht' Hc'].
    { intros m Hm. rewrite !fmap_app, !elem_of_app in *. destruct Hm as [Hm|Hm]; [|by left; right].
      destruct (Hs m Hm) as [|Hlt]; [by left; left|]. right. set_solver. }
    rewrite app_assoc. split; [done|]. intros r [-> | Hr]%elem_of_cons; [|by apply Hc'].
    eapply covered_mono; [|apply Hc; set_solver]. set_solver.
Qed.

(** A name that is queued, with what its dependencies add. *)
Lemma grown_node n st set ext :
  wants n = Some (Some st) -> grown_from (deps st) (set ++ [st]) ext -> grown_from [n] set (ext ++ [st]).
Proof.
  intros Hw H. pose proof (wants_name _ _ _ _ Hw) as Hname.
  assert (Hp : set ++ ext ++ [st] ≡ₚ (set ++ [st]) ++ ext) by (rewrite <- app_assoc; f_equiv; apply Permutation_app_comm).
  destruct (gf_ok _ _ _ _ _ _ H) as [Hnd Hmax Hwant].
  assert (Hsub : (set ++ [st]) ++ ext ⊆ set ++ ext ++ [st]) by (intros x; rewrite Hp; done).
  split.
  - split; rewrite ?Hp; try done. intros st' Hst. apply Hwant. by rewrite <- Hp.
  - intros st' [Hst| ->%list_elem_of_singleton]%elem_of_app; exists n; (split; [set_solver|]).
    + destruct (gf_reach _ _ _ _ _ _ H st' Hst) as (d & Hd & Hr).
      eapply rtc_l; [|exact Hr]. by exists st.
    + by rewrite Hname.
  - intros st' d [Hst| ->%list_elem_of_singleton]%elem_of_app Hd; eapply covered_mono; try exact Hsub.
    + by apply (gf_closed _ _ _ _ _ _ H st').
    + by apply (gf_roots _ _ _ _ _ _ H).
  - intros m ->%list_elem_of_singleton. right. rewrite <- Hname. apply list_elem_of_fmap_2. set_solver.
  - intros rank base Hrk Hb Hs.
    assert (Hlt : forall d, d ∈ deps st -> (rank d < rank n)%nat) by (intros d Hd; apply Hrk; by exists st).
    destruct (gf_order _ _ _ _ _ _ H rank base Hrk Hb) as [Ht Hc].
    { intros m Hm. rewrite fmap_app, elem_of_app in Hm. destruct Hm as [Hm|Hm].
      - destruct (Hs m Hm) as [|Hr]; [by left|]. right. intros d Hd.
        specialize (Hlt d Hd). specialize (Hr n ltac:(set_solver)). lia.
      - cbn in Hm. apply list_elem_of_singleton in Hm as ->. right. intros d Hd. rewrite Hname. by apply Hlt. }
    rewrite app_assoc. split; [by apply topo_snoc|]. intros r ->%list_elem_of_singleton.
    right. rewrite <- Hname. apply list_elem_of_fmap_2. set_solver.
Qed.

(** Failures propagate to the names that lead to them. *)
Lemma unsat_root n set : wants n = None -> unsatisfiable [n] set.
Proof. intros H. left. exists n, n. split; [set_solver|done]. Qed.

Lemma unsat_weaken ns ns' set : ns ⊆ ns' -> unsatisfiable ns set -> unsatisfiable ns' set.
Proof.
  intros Hs [(n & m & Hn & H)|(l & Hl & Hlen & H)]; [left; set_solver|right].
  exists l. split_and!; try done. intros m Hm. destruct (H m Hm) as [|(n & Hn & Hr)]; [by left|].
  right. set_solver.
Qed.

(** ... the second of two names, after the first one added [e1]. *)
Lemma unsat_app n ns set e1 :
  grown_from [n] set e1 -> unsatisfiable ns (set ++ e1) -> unsatisfiable (n :: ns) set.
Proof.
  intros H1 [(m & x & Hm & H)|(l & Hl & Hlen & H)]; [left; set_solver|right].
  exists l. split_and!; try done. intros m Hm. destruct (H m Hm) as [Hin|(x & Hx & Hr)]; [|right; set_solver].
  rewrite fmap_app, elem_of_app in Hin. destruct Hin as [|Hin]; [by left|]. right.
  apply list_elem_of_fmap in Hin as (st & -> & Hst).
  destruct (gf_reach _ _ _ _ _ _ H1 st Hst) as (x & Hx & Hr). exists x.
  split; [set_solver|]. split; [done|]. exists st. apply (so_wanted _ _ _ _ (gf_ok _ _ _ _ _ _ H1)). set_solver.
Qed.

Lemma unsat_node n st set :
  wants n = Some (Some st) -> unsatisfiable (deps st) (set ++ [st]) -> unsatisfiable [n] set.
Proof.
  intros Hw H. assert (He : forall d, d ∈ deps st -> edge n d) by (intros d Hd; by exists st).
  destruct H as [(d & m & Hd & Hr & Hm)|(l & Hl & Hlen & H)]; [left|right].
  - exists n, m. split; [set_solver|]. split; [|done]. eapply rtc_l; [by apply He|done].
  - exists l. split_and!; try done. intros m Hm. destruct (H m Hm) as [Hin|(d & Hd & Hr & Hx)].
    + rewrite fmap_app, elem_of_app in Hin. destruct Hin as [|Hin]; [by left|]. right.
      cbn in Hin. apply list_elem_of_singleton in Hin as ->. rewrite (wants_name _ _ _ _ Hw). exists n.
      split; [set_solver|]. split; [done|]. by exists st.
    + right. exists n. split; [set_solver|]. split; [|done]. eapply rtc_l; [by apply He|done].
Qed.

Lemma unsat_full n st set :
  set_ok set -> (max <= length set)%nat -> wants n = Some (Some st) -> n ∉ st_name <$> set -> unsatisfiable [n] set.
Proof.
  intros [Hnd Hmax _] Hfull Hw Hn. right. exists (n :: (st_name <$> set)). split; [by constructor|].
  split; [simpl; rewrite length_fmap; lia|]. intros m [-> | Hm]%elem_of_cons; [|by left].
  right. exists n. split; [set_solver|]. split; [done|]. by exists st.
Qed.

Definition result (ns : list bytes) set (r : option (list herald_stanza_t)) : Prop :=
  match r with
  | Some set' => exists ext, set' = set ++ ext /\ grown_from ns set ext
  | None => unsatisfiable ns set
  end.

Lemma move_last_app set st ext : move_last (length set) st ((set ++ [st]) ++ ext) = set ++ ext ++ [st].
Proof.
  unfold move_last. rewrite <- app_assoc. cbn [app]. rewrite length_app. cbn [length].
  destruct (length set =? length set + S (length ext) - 1)%nat eqn:E; boolify.
  - destruct ext; [done|]. simpl in E. lia.
  - rewrite delete_middle. by rewrite <- app_assoc.
Qed.

Lemma queued_spec n set : existsb (λ st, beq (st_name st) n) set = true <-> n ∈ st_name <$> set.
Proof.
  rewrite existsb_exists, list_elem_of_fmap. split.
  - intros (st & Hin & H%beq_true). exists st. split; [done|]. by apply list_elem_of_In.
  - intros (st & -> & Hin). exists st. split; [by apply list_elem_of_In|apply beq_refl].
Qed.

(** The loop, given what one call does. *)
Lemma wp_resolve_each (fuel slot : nat) st (toks : list bytes) (k : nat) (C : fsys -> Prop) :
  (forall n set, set_ok set -> (k <= length set)%nat ->
     wp false (resolve_pkg fuel live_path n set max upgrade)
       (λ r fs', fs' = fs /\ result [n] set r) C fs) ->
  forall set, set_ok set -> (k <= length set)%nat ->
  wp false (resolve_each fuel live_path max upgrade slot st toks set)
    (λ r fs', fs' = fs /\ match r with
                          | Some set' => exists ext, set' = move_last slot st (set ++ ext) /\ grown_from toks set ext
                          | None => unsatisfiable toks set
                          end) C fs.
Proof.
  intros IH. induction toks as [|n toks IHt]; intros s Hok Hk.
  - rewrite resolve_each_nil. wp_step. split; [done|]. exists []. rewrite app_nil_r.
    split; [done|by apply grown_nil].
  - rewrite resolve_each_cons. wp_step. eapply wp_conseq; [by apply IH| |done].
    intros [s'|] fs' [-> Hr]; cbn [result] in Hr.
    + destruct Hr as (e1 & -> & H1). eapply wp_conseq; [apply IHt| |done].
      * apply H1.
      * rewrite length_app. lia.
      * intros [s'|] fs' [-> Hr]; (split; [done|]).
        -- destruct Hr as (e2 & -> & H2). exists (e1 ++ e2). rewrite app_assoc.
           split; [done|by apply grown_cons].
        -- by eapply unsat_app.
    + wp_step. split; [done|]. eapply unsat_weaken; [|exact Hr]. set_solver.
Qed.

Lemma wp_resolve (fuel : nat) n set (C : fsys -> Prop) :
  set_ok set -> (max < fuel + length set)%nat ->
  wp false (resolve_pkg fuel live_path n set max upgrade) (λ r fs', fs' = fs /\ result [n] set r) C fs.
Proof.
  revert n set. induction fuel as [|fuel IH]; intros n set Hok Hf.
  { destruct Hok. lia. }
  assert (Hcov : wants n = Some None \/ n ∈ st_name <$> set -> result [n] set (Some set)).
  { intros H. exists []. rewrite app_nil_r. split; [done|by apply grown_covered]. }
  assert (Hun : wants n = None -> result [n] set None) by apply unsat_root.
  rewrite resolve_pkg_S. destruct (negb (manifest_is_bare_name n)) eqn:Eb.
  { wp_step. split; [done|]. apply Hun. unfold HeraldResolve.wants. by rewrite Eb. }
  wp_step. apply wp_readonly; [apply _|]. intros de Hde.
  assert (Ei : installed fs n = de) by (unfold installed; by rewrite Hde).
  destruct (negb upgrade && _) eqn:Eu.
  { wp_step. split; [done|]. apply Hcov. left. unfold HeraldResolve.wants. rewrite Eb, Ei.
    destruct de; [|by rewrite andb_false_r in Eu]. destruct upgrade; [done|].
    by destruct (offered fs n) as [[]|]. }
  destruct (existsb _ set) eqn:Eq.
  { wp_step. split; [done|]. apply Hcov. right. by apply queued_spec. }
  wp_step. apply wp_readonly; [apply _|]. intros f Hf'.
  assert (Eo : offered fs n = f) by (unfold offered; by rewrite Hf').
  assert (Hw : wants n = match de, f with
                         | Some _, None => if upgrade then None else Some None
                         | None, None => None
                         | Some _, Some None => Some None
                         | None, Some None => None
                         | Some d, Some (Some st) =>
                             if upgrade && herald_version_gt (st_version st) (de_version d)
                             then Some (Some st) else Some None
                         | None, Some (Some st) => Some (Some st)
                         end).
  { unfold HeraldResolve.wants. by rewrite Eb, Ei, Eo. }
  clear Ei Eo Hde Hf'. destruct f as [[st|]|].
  2:{ wp_step. split; [done|]. destruct de; [apply Hcov; by left|by apply Hun]. }
  2:{ wp_step. split; [done|]. apply Hun. destruct de; [|done]. by destruct upgrade. }
  assert (Hup : de = None \/ upgrade = true).
  { destruct de; [|by left]. destruct upgrade; [by right|done]. }
  clear Eu.
  destruct (match de with Some d => negb _ | None => _ end) eqn:Ev.
  { wp_step. split; [done|]. apply Hcov. left. rewrite Hw. destruct de; [|done].
    destruct (herald_version_gt _ _); [done|]. by rewrite andb_false_r. }
  assert (Hst : wants n = Some (Some st)).
  { rewrite Hw. destruct de; [|done]. destruct Hup as [|Hup]; [done|]. rewrite Hup.
    by destruct (herald_version_gt _ _). }
  assert (Hnq : n ∉ st_name <$> set) by (rewrite <- queued_spec; congruence).
  destruct (max <=? length set)%nat eqn:Em; boolify.
  { wp_step. split; [done|]. by eapply unsat_full. }
  assert (Hok' : set_ok (set ++ [st])).
  { destruct Hok as [Hnd Hmax Hwant]. pose proof (wants_name _ _ _ _ Hst) as Hname. split.
    - rewrite fmap_app. apply NoDup_app. split; [done|]. cbn. split; [|apply NoDup_singleton].
      intros x Hx ->%list_elem_of_singleton. congruence.
    - rewrite length_app. simpl. lia.
    - intros x [Hx| ->%list_elem_of_singleton]%elem_of_app; [by apply Hwant|by rewrite Hname]. }
  eapply wp_conseq; [apply (wp_resolve_each _ _ _ _ (S (length set))); [|exact Hok'|]| |done].
  { intros m s Hs Hl. apply IH; [done|]. lia. }
  { rewrite length_app. simpl. lia. }
  intros [s|] fs' [-> Hr]; (split; [done|]).
  - destruct Hr as (ext & -> & Hg). exists (ext ++ [st]). rewrite move_last_app. split; [done|by apply grown_node].
  - by eapply unsat_node.
Qed.

End Growth.

(** * Termination *)

Section Fuel.

Context `{Out : Outside} (dbp : bytes) (max : nat) (upgrade : bool).
Implicit Types (set ext : list herald_stanza_t) (w : world).

Lemma bind_Ret {A A'} (m : M A) (f : A -> M A') w a w' :
  (m ≫= f) w = Ret a w' -> exists x w1, m w = Ret x w1 /\ f x w1 = Ret a w'.
Proof. unfold mbind, M_bind. destruct (m w) as [x w1|]; [|done]. eauto. Qed.

Lemma bind_ext {A A'} (m : M A) (f g : A -> M A') w :
  (forall a w', m w = Ret a w' -> f a w' = g a w') -> (m ≫= f) w = (m ≫= g) w.
Proof. unfold mbind, M_bind. destruct (m w) as [x w1|]; [|done]. intros H. by apply H. Qed.

(** Whatever fails, a call only appends. *)
Lemma resolve_appends fuel name set w set' w' :
  resolve_pkg fuel dbp name set max upgrade w = Ret (Some set') w' -> exists ext, set' = set ++ ext.
Proof.
  revert name set w set' w'. induction fuel as [|fuel IH]; intros name set w set' w' H; [done|].
  assert (Hid : exists ext, set = set ++ ext) by (exists []; by rewrite app_nil_r).
  rewrite resolve_pkg_S in H. case_match; [done|].
  apply bind_Ret in H as (de & w1 & _ & H). case_match; [by injection H as <- _|].
  case_match; [by injection H as <- _|].
  apply bind_Ret in H as (f & w2 & _ & H). destruct f as [[st|]|]; [|by destruct de; [injection H as <- _|]|done].
  case_match; [by injection H as <- _|]. case_match; [done|].
  cut (forall toks s w2, (exists e, s = (set ++ [st]) ++ e) ->
         resolve_each fuel dbp max upgrade (length set) st toks s w2 = Ret (Some set') w' ->
         exists ext, set' = set ++ ext).
  { intros Hl. eapply Hl; [|exact H]. exists []. by rewrite app_nil_r. }
  clear - IH. intros toks. induction toks as [|t toks IHt]; intros s w2 [e ->] H.
  - injection H as <- _. rewrite move_last_app. eauto.
  - rewrite resolve_each_cons in H. apply bind_Ret in H as (r & w3 & Hr & H).
    destruct r as [s|]; [|done]. apply IH in Hr as [e' ->]. eapply IHt; [|exact H].
    exists (e ++ e'). by rewrite <- app_assoc.
Qed.

(** C40: resolution terminates, on cyclic graphs too: every nested call has queued
    one more name, so once the fuel exceeds the free slots of the table more
    fuel changes nothing, under any schedule of faults. *)
Theorem resolve_terminates k fuel name set w :
  (max < fuel + length set)%nat -> (0 < fuel)%nat ->
  resolve_pkg (k + fuel) dbp name set max upgrade w = resolve_pkg fuel dbp name set max upgrade w.
Proof.
  revert name set w. induction fuel as [|fuel IH]; intros name set w Hf Hl; [lia|].
  rewrite Nat.add_succ_r, !resolve_pkg_S. case_match; [done|].
  apply bind_ext. intros de w1 _. destruct (negb upgrade && _); [done|]. case_match; [done|].
  apply bind_ext. intros f w2 _. destruct f as [[st|]|]; [|done..].
  destruct (match de with Some d => negb _ | None => _ end); [done|].
  destruct (max <=? length set)%nat eqn:Em; [done|]. boolify.
  cut (forall toks s w2, (length set < length s)%nat ->
         resolve_each (k + fuel) dbp max upgrade (length set) st toks s w2 =
         resolve_each fuel dbp max upgrade (length set) st toks s w2).
  { intros Hx. apply Hx. rewrite length_app. simpl. lia. }
  intros toks. induction toks as [|t toks IHt]; intros s w3 Hs; [done|].
  rewrite !resolve_each_cons.
  unfold mbind, M_bind. rewrite IH by lia.
  destruct (resolve_pkg fuel _ _ _ _ _ _) as [[s'|] w4|] eqn:Er; [|done..].
  apply resolve_appends in Er as [e ->]. apply IHt. rewrite length_app. lia.
Qed.

End Fuel.

(** * Correctness *)

(** C14: [resolve] on a fault-free system answers, changes nothing, and is right.
    A set it returns has no duplicates and fits the table; it provides for the
    requested name; each stanza in it is the one the verified lists offer for a
    name that is reachable and not up to date, and all its dependencies are
    provided for; and when the dependency graph is acyclic, every package comes
    after the packages it depends on.  It fails only if a reachable name cannot
    be provided, or the set does not fit the table. *)
Theorem resolve_correct `{Outside} name upgrade w :
  env_ok false w ->
  let fs := w_fs w in
  exists r w', resolve_set name [] upgrade w = Ret r w' /\ w_fs w' = fs /\
  match r with
  | Some set =>
      NoDup (st_name <$> set) /\ (length set <= HERALD_MAX_INSTALL)%nat /\ covered fs upgrade set name /\
      (forall st, st ∈ set ->
         wants fs upgrade (st_name st) = Some (Some st) /\ rtc (edge fs upgrade) name (st_name st) /\
         forall d, d ∈ deps st -> covered fs upgrade set d) /\
      (forall rank, ranked fs upgrade rank -> topo fs upgrade set)
  | None => unsatisfiable fs upgrade HERALD_MAX_INSTALL [name] []
  end.
Proof.
  intros Hw fs.
  assert (Hempty : set_ok fs upgrade HERALD_MAX_INSTALL []).
  { split; [constructor|simpl; lia|]. set_solver. }
  pose proof (wp_use false _ _ _ w
    (wp_resolve fs upgrade HERALD_MAX_INSTALL (S HERALD_MAX_INSTALL) name [] (λ _, False) Hempty
       ltac:(cbn [length]; lia)) Hw) as Hr.
  unfold resolve_set. destruct (resolve_pkg _ _ _ _ _ _ w) as [r w'|w']; [|by destruct Hr].
  destruct Hr as (_ & Hfs & Hr). exists r, w'. split; [done|]. split; [done|].
  destruct r as [set|]; [|done]. destruct Hr as (ext & -> & Hg).
  destruct (gf_ok _ _ _ _ _ _ Hg) as [Hnd Hmax Hwant]. split_and!; try done.
  - apply (gf_roots _ _ _ _ _ _ Hg). set_solver.
  - intros st Hst. split_and!; [by apply Hwant| |by intros d; apply (gf_closed _ _ _ _ _ _ Hg)].
    destruct (gf_reach _ _ _ _ _ _ Hg st Hst) as (n & ->%list_elem_of_singleton & ?). done.
  - intros rank Hrk. apply (gf_order _ _ _ _ _ _ Hg rank [] Hrk); [constructor|]. cbn. set_solver.
Qed.

(** * Witnesses *)

(** A repository with a shared dependency: app needs lib and base, lib needs base. *)
Definition graph_packages : bytes :=
  B "Package: app" ++ [LF] ++ B "Version: 1" ++ [LF] ++ B "Depends: lib base" ++ [LF; LF] ++
  B "Package: lib" ++ [LF] ++ B "Version: 1" ++ [LF] ++ B "Depends: base" ++ [LF; LF] ++
  B "Package: base" ++ [LF] ++ B "Version: 1" ++ [LF].

Definition graph_release : bytes :=
  B "SHA256:" ++ [LF; SP] ++ to_hex (@br_sha256 toy_outside graph_packages) ++
  B " 52 main/binary-x86_64/Packages" ++ [LF].

Definition graph_cache : fsys :=
  let key := srckey sample_source 400 in
  <[comps (relpath key) := Reg 420 graph_release]>
  (<[comps (pkgpath key) := Reg 420 graph_packages]> sample_cache).

Lemma resolve_correct_witness :
  exists set w', @resolve_set toy_outside (B "app") [] false (calm_world graph_cache) = Ret (Some set) w' /\
    st_name <$> set = [B "base"; B "lib"; B "app"] /\ NoDup (st_name <$> set).
Proof.
  destruct (@resolve_correct toy_outside (B "app") false (calm_world graph_cache) (calm_world_ok _ false))
    as (r & w' & E & _ & H).
  assert (E' : match @resolve_set toy_outside (B "app") [] false (calm_world graph_cache) with
               | Ret (Some set) _ => st_name <$> set = [B "base"; B "lib"; B "app"] | _ => False end)
    by (vm_compute; reflexivity).
  rewrite E in E'. destruct r as [set|]; [|destruct E'].
  exists set, w'. split; [exact E|]. split; [exact E'|]. apply H.
Defined.

Lemma resolve_terminates_witness :
  @resolve_pkg toy_outside (5 + 3) live_path (B "app") [] 2 false (calm_world graph_cache) =
  @resolve_pkg toy_outside 3 live_path (B "app") [] 2 false (calm_world graph_cache).
Proof. apply (@resolve_terminates toy_outside); cbn [length]; lia. Defined.
