(* ===== verification/HeraldMainSafety.v ===== *)
(** Safety of herald's command layer.

    [within T fs0 fs] says that [fs] differs from [fs0] only at paths in [T].
    The first part proves, for every schedule of faults and crashes, that each
    step of [install_bytes] stays within the set of paths its package is
    entitled to; the main theorem combines them with the guards.  The second
    part is about authentication: what the commands do before a signature or a
    hash has been checked.  The last section evaluates concrete packages on
    which a guard does not do what its comment says. *)

From S2P Require Import Prelude CString Posix PosixLogic HeraldTxn HeraldTxnSpecs HeraldTxnCalm HeraldTxnJournal HeraldTxnSafety.
From S2P Require Import HeraldTar HeraldManifest HeraldDb HeraldRepo HeraldMain HeraldResolve.
Local Open Scope Z_scope.

(** * Definitions *)

Definition within (T : path -> Prop) (fs0 fs : fsys) : Prop :=
  fs_ok fs /\ forall q, ~ T q -> fs !! q = fs0 !! q.

(** Paths below the staging directory, and the deletion queue. *)
Definition staging (R : path -> Prop) (q : path) : Prop :=
  q = p_delete \/ exists r, q = p_stage ++ r /\ r ≠ [] /\ R r.

(** [R] is closed under going up to a non-empty path. *)
Definition up_closed (R : path -> Prop) : Prop :=
  forall r r', R r -> r' `prefix_of` r -> r' ≠ [] -> R r'.

Definition policy_path (name : bytes) : path := [B "etc"; B "aegis"; B "caps.d"; name].
Definition db_rel : path := [B "etc"; B "aegis"; B "herald"; B "db"].
Definition db_tmp_rel : path := [B "etc"; B "aegis"; B "herald"; B "db.tmp"].
Definition anchors_rel : path := [B "etc"; B "aegis"; B "anchors"].
Definition owner_rel (id : bytes) : path := [B "etc"; B "aegis"; B "herald"; B "owners"; id ++ B ".list"].

(** The files herald itself stages for a package: its owner list, the database,
    the anchor list, and the policies of the binaries it names. *)
Definition own_files (m : herald_manifest_t) : list path :=
  [owner_rel (m_id m); db_rel; db_tmp_rel; anchors_rel] ++
  (policy_path <$> (m_exec m :: (bc_binary <$> m_bincaps m))).

(** What a package may stage: the files above, the directories over them, and
    the footprint of its declared prefixes. *)
Definition entitled (m : herald_manifest_t) (allowed : option (list bytes)) (r : path) : Prop :=
  (exists f, f ∈ own_files m /\ r `prefix_of` f) \/ footprint allowed r.

(** The manifest [install_bytes] and [load_verified_pkg] find in an archive. *)
Definition manifest_of (buf : bytes) : option herald_manifest_t :=
  default None (run_calm (pkg_manifest buf) ∅).

(** Every word of a capability list is on the allow-list. *)
Definition words_allowed (caps : bytes) : Prop := forall t, t ∈ tokens is_blank caps -> t ∈ allowed_caps.

(** What the checks on an application package establish. *)
Record app_guards (m : herald_manifest_t) : Prop := {
  ag_exec : m_exec m = m_id m;
  ag_caps : words_allowed (m_caps m);
  ag_bincaps bc : bc ∈ m_bincaps m -> SLASH ∉ bc_binary bc /\ words_allowed (bc_caps bc)
}.

(** The names of the policies a package installs. *)
Definition policies (m : herald_manifest_t) : list bytes :=
  (if beq (m_caps m) [] then [] else [m_exec m]) ++ (bc_binary <$> m_bincaps m).

(** The prefixes an archive may extract to; [None] for a system package. *)
Definition allowed_of (m : herald_manifest_t) (ps : list bytes) : option (list bytes) :=
  if m_is_system m then None else Some ps.

(** * The capability allow-list *)

Lemma caps_are_safe_find caps badsz :
  caps_are_safe caps badsz =
    fit badsz <$> List.find (λ t, negb (existsb (beq t) allowed_caps)) (tokens is_blank caps).
Proof.
  unfold caps_are_safe. assert (H : (length caps < S (length caps))%nat) by lia. revert H.
  generalize (S (length caps)) as fuel. intros fuel. revert caps.
  induction fuel as [|fuel IH]; intros caps Hf; [lia|]. cbn [caps_loop].
  destruct caps as [|c0 caps0] eqn:Ec; [done|]. rewrite <- Ec in *. clear c0 caps0 Ec.
  rewrite <- tokens_skip. destruct (drop_while is_blank caps) as [|c p] eqn:Ed; [done|].
  pose proof (drop_while_head _ _ _ _ Ed) as Hc. rewrite (tokens_word is_blank c p Hc).
  cbn zeta. cbn [List.find]. change (λ x, negb (is_blank x)) with not_blank.
  destruct (existsb _ _); cbn [negb]; [|done]. apply IH.
  pose proof (drop_while_length is_blank caps) as H1. rewrite Ed in H1.
  assert (H2 : (length (drop_while not_blank (c :: p)) <= length p)%nat).
  { unfold drop_while. cbn [span]. unfold not_blank at 1. rewrite Hc. cbn [negb].
    pose proof (drop_while_length not_blank p) as H3. unfold drop_while in H3.
    by destruct (span not_blank p). }
  simpl in H1. lia.
Qed.

(** the allow-list is enforced word by word: [caps_are_safe] refuses exactly
    the first word of the list that is not one of the eight allowed names, and
    accepts the list when there is none. *)
Theorem caps_are_safe_spec caps badsz :
  caps_are_safe caps badsz =
    fit badsz <$> List.find (λ t, negb (existsb (beq t) allowed_caps)) (tokens is_blank caps).
Proof. apply caps_are_safe_find. Qed.

Lemma caps_ok_words caps : caps_ok caps = true -> words_allowed caps.
Proof.
  unfold caps_ok. rewrite caps_are_safe_find. destruct (List.find _ _) eqn:E; [done|]. intros _ t Ht.
  apply list_elem_of_In in Ht. pose proof (find_none _ _ E t Ht) as H. cbn beta in H.
  apply negb_false_iff, existsb_exists in H as (x & Hx & ->%beq_true). by apply list_elem_of_In.
Qed.

(** * Frames *)

Section Frames.

Context (b : bool) (R : path -> Prop) (fs0 : fsys).
Hypothesis Hup : up_closed R.
Hypothesis Hstage : get fs0 p_stage = Some Dir.
Hypothesis Hok0 : fs_ok fs0.

Local Notation T := (staging R).
Local Notation W := (within T fs0).

Implicit Types (fs : fsys) (q : path) (s : bytes).

Lemma stage_not_T : ~ T p_stage.
Proof.
  intros [H|(r & H & Hne & _)].
  - by vm_compute in H.
  - apply (f_equal length) in H. rewrite length_app in H. destruct r; [done|]. simpl in H. lia.
Qed.

Lemma W_stage fs : W fs -> get fs p_stage = Some Dir.
Proof. intros [_ H]. rewrite get_lookup by done. rewrite H by apply stage_not_T. exact Hstage. Qed.

Lemma W_refl : W fs0.
Proof. done. Qed.

(** A missing path above a member of [T] is a member. *)
Lemma T_up fs q a : W fs -> T q -> strict_prefix a q -> get fs a ≠ Some Dir -> T a.
Proof.
  intros HW HT [k [E Hk]] Hg. pose proof (W_stage fs HW) as Hs. destruct HW as [Hok _].
  assert (Hpre : a `prefix_of` p_stage -> T a).
  { intros [k' Ek']. destruct Hg. destruct (decide (k' = [])) as [->|].
    - rewrite app_nil_r in Ek'. by rewrite <- Ek'.
    - eapply get_prefix_dir; [done|by rewrite <- Ek'|done]. }
  destruct HT as [-> | (r & -> & Hne & HR)].
  - apply Hpre. unfold p_delete in E.
    destruct k as [|x k] using rev_ind; [done|]. clear IHk. rewrite app_assoc in E.
    apply app_inj_tail in E as [E _]. unfold p_stage. rewrite E, <- app_assoc. by eexists.
  - symmetry in E. destruct (app_eq_inv _ _ _ _ E) as [(k' & -> & E')|(k' & Ek & _)].
    + destruct (decide (k' = [])) as [->|]; [apply Hpre; by rewrite app_nil_r|].
      right. exists k'. split; [done|]. split; [done|]. eapply Hup; [exact HR|by eexists|done].
    + apply Hpre. by exists k'.
Qed.

Lemma W_insert fs q n : W fs -> T q -> fs_ok (<[q := n]> fs) -> W (<[q := n]> fs).
Proof.
  intros [_ H] HT Hok. split; [done|]. intros p Hp.
  rewrite lookup_insert_ne by (intros ->; done). by apply H.
Qed.

Lemma W_delete fs q : W fs -> T q -> fs_ok (delete q fs) -> W (delete q fs).
Proof.
  intros [_ H] HT Hok. split; [done|]. intros p Hp.
  rewrite lookup_delete_ne by (intros ->; done). by apply H.
Qed.

Lemma W_file_closed q : T q -> file_closed W q.
Proof.
  intros HT. split; [split|..].
  - by intros fs [? _].
  - intros fs a HW Ha Hn Hok. apply W_insert; [done| |done]. eapply T_up; try done. congruence.
  - intros fs m d HW _ _ Hok. by apply W_insert.
  - intros fs n HW _ _ Hok. by apply W_delete.
Qed.

(** ** The steps of an installation *)

Lemma W_pure {A} (f : fsys -> A + errno) fs : W fs -> wp b (pure_op f) (λ _, W) W fs.
Proof. intros HW. by apply wp_pure_op. Qed.

Lemma W_read s fs : W fs -> wp b (sys_read s) (λ _, W) W fs.
Proof.
  intros HW. apply wp_op; [|done]. unfold fs_read. by destruct (fs_stat fs s) as [[]|].
Qed.

Lemma W_open_trunc s mode fs :
  W fs -> T (resolve s) ->
  wp b (sys_open_trunc s mode) (λ r fs', W fs' /\ forall fd, r = inl fd -> fd = resolve s) W fs.
Proof.
  intros HW HT. apply wp_op; [|done].
  destruct (open_trunc_cases s mode fs (proj1 HW)) as [(e & ->)|(m & -> & _ & _ & _ & _ & Hok)];
    cbn [fst snd]; (split; [|naive_solver]); [done|]. by apply W_insert.
Qed.

Lemma W_write fd bs fs : W fs -> T fd -> wp b (sys_write fd bs) (λ _, W) W fs.
Proof.
  intros HW HT. apply wp_write; [|done].
  destruct (append_cases fd bs fs (proj1 HW)) as [(e & -> & _)|(m & d & _ & -> & Hok)]; [done|].
  by apply W_insert.
Qed.

Lemma W_write_full fd bs fs : W fs -> T fd -> wp b (write_full fd bs) (λ _, W) W fs.
Proof.
  intros HW HT. unfold write_full. wp_step. eapply wp_conseq; [by apply W_write| |done].
  intros. by wp_step.
Qed.

Lemma W_write_loop fuel fd bs fs : W fs -> T fd -> wp b (write_loop fuel fd bs) (λ _, W) W fs.
Proof.
  intros HW HT. revert bs fs HW. induction fuel as [|fuel IH]; intros [|x bs] fs HW; cbn [write_loop];
    try by wp_step.
  wp_step. eapply wp_conseq; [by apply W_write| |done]. intros [[|n]|e] fs' HW'; try by wp_step. by apply IH.
Qed.

Lemma W_bind {A A'} (m : M A) (k : A -> M A') fs :
  wp b m (λ _, W) W fs -> (forall a fs', W fs' -> wp b (k a) (λ _, W) W fs') -> wp b (m ≫= k) (λ _, W) W fs.
Proof. intros Hm Hk. wp_step. eapply wp_conseq; [exact Hm| |done]. intros a fs' HW. by apply Hk. Qed.

Lemma W_and_then (m k : M Z) fs :
  wp b m (λ _, W) W fs -> (forall fs', W fs' -> wp b k (λ _, W) W fs') -> wp b (m ?; k) (λ _, W) W fs.
Proof.
  intros Hm Hk. wp_step. eapply wp_conseq; [exact Hm| |done]. intros a fs' HW. cbn beta.
  case_if; [by apply Hk|done].
Qed.

Lemma W_fclose_text fd text fs : W fs -> T fd -> wp b (fclose_text fd text) (λ _, W) W fs.
Proof.
  intros HW HT. unfold fclose_text. apply W_bind; [by apply W_write_loop|].
  intros w fs' HW'. apply W_bind; [by apply W_pure|]. intros. by wp_step.
Qed.

Lemma W_owner_add fd s fs : W fs -> T fd -> wp b (txn_owner_add fd s) (λ _, W) W fs.
Proof.
  intros HW HT. unfold txn_owner_add. wp_step; [|by wp_step].
  apply W_and_then; [by apply W_write_full|]. intros. by apply W_write_full.
Qed.

(** Strings of staged paths. *)
Lemma stage_comps : comps HERALD_TXN_STAGE = p_stage.
Proof. by vm_compute. Qed.

Lemma stage_good : Forall good_name p_stage.
Proof. rewrite <- stage_comps. apply (resolve_good HERALD_TXN_STAGE). Qed.

Lemma stage_resolve n s out :
  txn_stage_path n s = Some out ->
  safe_rel s = true /\ out = HERALD_TXN_STAGE ++ SLASH :: s /\ resolve out = p_stage ++ comps s.
Proof.
  unfold txn_stage_path. intros H. destruct (safe_rel s) eqn:Es; [|done]. cbn [andb] in H.
  destruct (fits _ _); [|done]. injection H as <-. split; [done|]. split; [done|].
  assert (E : comps (HERALD_TXN_STAGE ++ SLASH :: s) = p_stage ++ comps s) by (by rewrite comps_app, stage_comps).
  rewrite <- E. apply resolve_plain. rewrite E. apply good_no_dotdot, Forall_app.
  split; [apply stage_good|by apply safe_rel_good].
Qed.

Lemma T_stage r : r ≠ [] -> R r -> T (p_stage ++ r).
Proof. intros Hne HR. right. by exists r. Qed.

Lemma W_delete_queue s fs : W fs -> wp b (queue_delete s) (λ _, W) W fs.
Proof.
  intros HW. assert (HT : T p_delete) by (by left). unfold queue_delete. wp_step; [|by wp_step].
  wp_step. apply wp_op; [|intros _; split; [intros e; by wp_step|done]].
  unfold fs_open_append. destruct (fs_stat fs TXN_DELETE) as [[m d| |]|e]; cbn [fst snd]; try by wp_step.
  change (resolve TXN_DELETE) with p_delete.
  apply W_bind.
  - apply W_and_then; [by apply W_write_full|]. intros. apply W_and_then; [by apply W_write_full|].
    intros. wp_step. by apply W_pure.
  - intros a fs' HW'. wp_step; [wp_step; by apply W_pure|]. apply W_bind; [by apply W_pure|]. intros. by wp_step.
Qed.

Lemma W_queue_each ss fs : W fs -> wp b (queue_each ss) (λ _, W) W fs.
Proof.
  revert fs. induction ss as [|s ss IH]; intros fs HW; cbn [queue_each]; [by wp_step|].
  apply W_and_then; [by apply W_delete_queue|]. apply IH.
Qed.

Lemma W_remove_stale id p fs : W fs -> wp b (txn_remove_stale id p) (λ _, W) W fs.
Proof.
  intros HW. unfold txn_remove_stale. wp_step; [by wp_step|].
  apply W_bind; [by apply W_read|]. intros [[mo old]|[]] fs' HW'; try by wp_step.
  apply W_bind; [by apply W_read|]. intros [[mn new]|e] fs2 HW2; [|by wp_step]. by apply W_queue_each.
Qed.

Lemma W_owner_finish fd id fs : W fs -> wp b (owner_finish fd id) (λ _, W) W fs.
Proof.
  intros HW. unfold owner_finish. apply W_bind; [by apply W_pure|]. intros f fs1 HW1.
  apply W_bind; [by apply W_pure|]. intros c fs2 HW2. wp_step; [by wp_step|].
  destruct (txn_stage_path _ _); [by apply W_remove_stale|by wp_step].
Qed.

(** ** Owner list, archive, anchors, policies, database *)

Lemma owner_comps id : SLASH ∉ id -> comps (tail (owner_list id)) = owner_rel id.
Proof.
  intros H. change (tail (owner_list id)) with (B "etc/aegis/herald/owners" ++ SLASH :: (id ++ B ".list")).
  rewrite comps_app. rewrite (comps_name (id ++ B ".list")); [by vm_compute|].
  split; [by destruct id|]. split; [|split].
  - intros E. apply (f_equal length) in E. rewrite length_app in E. simpl in E. lia.
  - intros E. apply (f_equal length) in E. rewrite length_app in E. simpl in E. lia.
  - rewrite elem_of_app. intros [?|E]; [done|]. revert E. by apply has_char_false.
Qed.

Lemma W_owner_open id fs :
  W fs -> R (owner_rel id) ->
  wp b (txn_owner_open id)
    (λ r fs', W fs' /\ forall fd, r = inl fd -> T fd /\ SLASH ∉ id) W fs.
Proof.
  intros HW HR. unfold txn_owner_open. wp_step; [|wp_step; split; [done|naive_solver]].
  boolify. assert (Hid : SLASH ∉ id) by (by apply has_char_false).
  destruct (txn_stage_path _ _) as [s|] eqn:Es; [|wp_step; split; [done|naive_solver]].
  apply stage_resolve in Es as (Hs & -> & Er). rewrite owner_comps in Er by done.
  assert (HT : T (p_stage ++ owner_rel id)) by (by apply T_stage).
  assert (Hw : wants_dir (tail (owner_list id)) = false).
  { change (tail (owner_list id)) with (B "etc/aegis/herald/owners" ++ SLASH :: (id ++ B ".list")).
    apply wants_dir_snoc. pose proof (safe_rel_good _ Hs) as Hg. rewrite owner_comps in Hg by done.
    unfold owner_rel in Hg. by do 4 (apply Forall_inv_tail in Hg); apply Forall_inv in Hg. }
  destruct (safe_rel_tidy HERALD_TXN_STAGE _ Hs Hw) as [Ht Ec]; [rewrite stage_comps; apply stage_good|].
  wp_step. eapply wp_conseq; [apply (wp_parent_dirs b W (p_stage ++ owner_rel id)); [|done|done|]| |done].
  { by apply W_file_closed. }
  { by rewrite Ec, stage_comps, owner_comps. }
  intros p fs1 [HW1 _]. cbn beta. wp_step; [|wp_step; split; [done|naive_solver]].
  eapply wp_conseq; [apply W_open_trunc; [done|by rewrite Er]| |done].
  intros r fs2 [HW2 Hfd]. split; [done|]. intros fd ->. split; [|done]. rewrite (Hfd fd eq_refl), Er. done.
Qed.

Lemma W_extract buf allowed fd fs :
  W fs -> T fd -> dir_prefixes allowed -> (forall r, r ≠ [] -> footprint allowed r -> R r) ->
  wp b (tar_extract_mem_owned buf HERALD_TXN_STAGE allowed fd) (λ _, W) W fs.
Proof.
  intros HW HT Ha HR.
  assert (Hsub : forall fs', confined HERALD_TXN_STAGE allowed (Some fd) fs fs' -> W fs').
  { intros fs' (Hok & _ & Hs). split; [done|]. intros q Hq. rewrite Hs; [by apply HW|].
    intros [[= ->] | (r & -> & Hne & Hf)]; [done|]. apply Hq. rewrite stage_comps. apply T_stage; auto. }
  unfold tar_extract_mem_owned.
  eapply wp_conseq; [apply (confined_walk b HERALD_TXN_STAGE allowed (Some fd) fs)| |done].
  - rewrite stage_comps. apply stage_good.
  - done.
  - split; [apply HW|]. split; [|done]. rewrite stage_comps. by apply W_stage.
  - intros x fs'. apply Hsub.
Qed.

Lemma W_stage_files buf id allowed fs :
  W fs -> R (owner_rel id) -> dir_prefixes allowed -> (forall r, r ≠ [] -> footprint allowed r -> R r) ->
  wp b (stage_files buf id allowed)
    (λ r fs', W fs' /\ forall fd, r = Some fd -> T fd /\ SLASH ∉ id) W fs.
Proof.
  intros HW Ho Ha HR. unfold stage_files. wp_step.
  eapply wp_conseq; [by apply W_owner_open| |done]. intros [fd|e] fs1 [HW1 Hfd]; [|by wp_step].
  destruct (Hfd fd eq_refl) as [HT Hid].
  wp_step. eapply wp_conseq; [by apply W_extract| |done]. intros x fs2 HW2.
  assert (Hsome : wp b (mret (Some fd)) (λ r fs', W fs' /\ forall fd, r = Some fd -> T fd /\ SLASH ∉ id) W fs2).
  { wp_step. split; [done|]. by intros ? [= <-]. }
  destruct x; [exact Hsome..|]. wp_step. apply wp_pure_op; [by wp_step|]. intros _. split; [|done]. intros. by wp_step.
Qed.

Lemma W_anchor_register p fs : W fs -> R anchors_rel -> wp b (anchor_register p) (λ _, W) W fs.
Proof.
  intros HW HR. assert (HT : T (resolve staged_anchors)).
  { change (resolve staged_anchors) with (p_stage ++ anchors_rel). by apply T_stage. }
  unfold anchor_register. wp_step; [by wp_step|]. apply W_bind; [by apply W_read|]. intros f fs1 HW1.
  wp_step; [by wp_step|].
  wp_step. apply wp_op; [|intros _; split; [intros e; by wp_step|done]].
  assert (Hgo : forall fs2, W fs2 -> wp b (_ ← fclose_text (resolve staged_anchors)
                  ((SLASH :: rstrip (is_c SLASH) p) ++ [LF]); mret 0) (λ _, W) W fs2).
  { intros fs2 HW2. apply W_bind; [by apply W_fclose_text|]. intros. by wp_step. }
  unfold fs_open_create_append.
  destruct (fs_stat fs1 staged_anchors) as [[m d| |]|e] eqn:Es; cbn [fst snd]; try (by wp_step); [by apply Hgo|].
  destruct e; cbn [fst snd]; try by wp_step.
  destruct (walk fs1 [] (resolve staged_anchors)) eqn:Ew; cbn [fst snd]; [by wp_step|].
  apply Hgo. apply W_insert; [done|done|]. apply ok_insert; [apply HW1|apply resolve_good|done|by vm_compute|].
  intros Hg. apply stat_ENOENT in Es; [congruence|apply HW1].
Qed.

Lemma policy_comps name :
  SLASH ∉ name -> safe_rel (policy_rel name) = true -> comps (policy_rel name) `prefix_of` policy_path name.
Proof.
  intros Hn _. change (policy_rel name) with (B "etc/aegis/caps.d" ++ SLASH :: name).
  rewrite comps_app. change (comps (B "etc/aegis/caps.d")) with [B "etc"; B "aegis"; B "caps.d"].
  unfold comps. rewrite split_on_none by done. rewrite filter_cons. case_decide; by eexists.
Qed.

Lemma W_write_policy fd name caps fs :
  W fs -> T fd -> SLASH ∉ name -> R (policy_path name) ->
  wp b (write_policy fd name caps) (λ _, W) W fs.
Proof.
  intros HW HT Hn HR. unfold write_policy. apply W_bind.
  2:{ intros a fs' HW'. wp_step; [by wp_step|]. apply W_bind; [by apply W_pure|]. intros. by wp_step. }
  unfold staged_policy_path. destruct (fits 256 _); [|by wp_step].
  destruct (txn_stage_path _ _) as [cp|] eqn:Es; [|by wp_step].
  apply stage_resolve in Es as (Hs & -> & Er).
  assert (HTp : T (p_stage ++ comps (policy_rel name))).
  { assert (Hne : comps (policy_rel name) ≠ []).
    { change (policy_rel name) with (B "etc/aegis/caps.d" ++ SLASH :: name). rewrite comps_app. by vm_compute. }
    apply T_stage; [done|]. eapply Hup; [exact HR|by apply policy_comps|done]. }
  wp_step. eapply wp_conseq; [apply W_open_trunc; [done|by rewrite Er]| |done].
  intros [cf|e] fs1 [HW1 Hfd]; [|by wp_step]. rewrite (Hfd cf eq_refl), Er.
  apply W_and_then; [by apply W_fclose_text|]. intros. by apply W_owner_add.
Qed.

Lemma W_write_policies fd l fs :
  W fs -> T fd -> (forall bc, bc ∈ l -> SLASH ∉ bc_binary bc /\ R (policy_path (bc_binary bc))) ->
  wp b (write_policies fd l) (λ _, W) W fs.
Proof.
  intros HW HT. revert fs HW. induction l as [|bc l IH]; intros fs HW Hl; cbn [write_policies]; [by wp_step|].
  apply W_and_then.
  - apply W_write_policy; [done|done|apply Hl; set_solver..].
  - intros fs' HW'. apply IH; [done|]. set_solver.
Qed.

Lemma W_register_anchors fd l fs :
  W fs -> R anchors_rel -> wp b (register_anchors fd l) (λ _, W) W fs.
Proof.
  intros HW HR. revert fs HW. induction l as [|p l IH]; intros fs HW; cbn [register_anchors]; [by wp_step|].
  wp_step; [by apply IH|]. apply W_bind; [by apply W_anchor_register|]. intros r fs' HW'.
  wp_step; [by apply IH|]. apply W_bind; [by apply W_pure|]. intros. by wp_step.
Qed.

Lemma staged_path_ok : db_path_ok staged_path.
Proof.
  split; [|by vm_compute; lia]. exists (HERALD_TXN_STAGE ++ B "/etc/aegis/herald"), (B "db").
  split; [by vm_compute|]. split; [unfold good_name; vm_compute; split_and!; set_solver|].
  change (comps (HERALD_TXN_STAGE ++ B "/etc/aegis/herald")) with
    (resolve (HERALD_TXN_STAGE ++ B "/etc/aegis/herald")). apply resolve_good.
Qed.

Lemma W_db_put e fs : W fs -> R db_rel -> R db_tmp_rel -> wp b (db_put staged_path e) (λ _, W) W fs.
Proof.
  intros HW HR HR'. unfold db_put. destruct (de_id e); [by wp_step|]. unfold db_load.
  apply W_bind. { apply W_bind; [by apply W_read|]. intros. by wp_step. }
  intros [es|] fs1 HW1; [|by wp_step]. destruct (put_entries e es) as [es'|]; [|by wp_step].
  assert (Hp : resolve staged_path = p_stage ++ db_rel) by (by vm_compute).
  assert (Ht : resolve (staged_path ++ B ".tmp") = p_stage ++ db_tmp_rel) by (by vm_compute).
  assert (HT : T (p_stage ++ db_rel)) by (by apply T_stage).
  assert (Hfr : forall fs2, fs_ok fs2 ->
            db_frame fs1 (resolve staged_path) (resolve (staged_path ++ B ".tmp")) fs2 -> W fs2).
  { intros fs2 Hok Hf. split; [done|]. intros q Hq. rewrite Hp, Ht in Hf. destruct (Hf q) as [E|(Hn & Hd & Hs)].
    - intros ->. done.
    - intros ->. apply Hq. by apply T_stage.
    - rewrite E. by apply HW1.
    - destruct Hq. eapply T_up; [exact HW1|exact HT|exact Hs|].
      destruct q; [by rewrite (ok_root _ Hok) in Hd|]. simpl. congruence. }
  eapply wp_conseq; [apply (wp_db_write_all b staged_path es' fs1 staged_path_ok); apply HW1|..].
  - intros a fs2 [(_ & H1 & _ & H3)|(_ & H1 & _ & H3)]; by apply Hfr.
  - intros fs2 [(H1 & _ & H3)|(H1 & _ & H3)]; by apply Hfr.
Qed.

Lemma W_exists_at p fs : W fs -> wp b (exists_at p) (λ _, W) W fs.
Proof. intros HW. unfold exists_at. apply W_bind; [by apply W_pure|]. intros. by wp_step. Qed.

Lemma W_policy_exists name fs : W fs -> wp b (policy_exists name) (λ _, W) W fs.
Proof.
  intros HW. unfold policy_exists. apply W_bind; [by apply W_exists_at|]. intros [] fs' HW'; [by wp_step|].
  destruct (staged_policy_path _ _); [by apply W_exists_at|by wp_step].
Qed.

Lemma W_db_found dbp id fs : W fs -> wp b (db_found dbp id) (λ _, W) W fs.
Proof.
  intros HW. unfold db_found, db_find, db_load.
  repeat (apply W_bind; [|intros; by wp_step]). by apply W_read.
Qed.

End Frames.

(** * The checks before anything is written *)

Section Checks.

Context (b : bool) (fs : fsys).
Hypothesis Hok : fs_ok fs.

Local Notation same := (λ fs', fs' = fs).

Lemma same_bind {A A'} (m : M A) (k : A -> M A') (P : A -> Prop) (Q : A' -> fsys -> Prop) :
  wp b m (λ a fs', fs' = fs /\ P a) same fs -> (forall a, P a -> wp b (k a) Q same fs) -> wp b (m ≫= k) Q same fs.
Proof. intros Hm Hk. wp_step. eapply wp_conseq; [exact Hm| |done]. intros a ? [-> Ha]. by apply Hk. Qed.

Lemma same_exists_at p q :
  resolve p = q -> wants_dir p = false ->
  wp b (exists_at p) (λ r fs', fs' = fs /\ (b = false -> r = false -> get fs q = None)) same fs.
Proof.
  intros Hp Hw. unfold exists_at. wp_step. apply wp_pure_op.
  - wp_step. split; [done|]. intros _ Hr. destruct (get fs q) as [n|] eqn:E; [|done].
    rewrite <- Hp in E. rewrite (stat_get fs Hok p n E Hw) in Hr. done.
  - intros ->. split; [|done]. intros e. wp_step. done.
Qed.

Lemma same_any {A} (m : M A) : wp b m (λ _, same) same fs -> wp b m (λ a fs', fs' = fs /\ True) same fs.
Proof. intros H. eapply wp_conseq; [exact H| |done]. done. Qed.

Lemma same_policy_exists name :
  bare name -> (length name < 64)%nat ->
  wp b (policy_exists name) (λ r fs', fs' = fs /\ (b = false -> r = false -> get fs (policy_path name) = None)) same fs.
Proof.
  intros (H1 & H2 & H3 & H4) Hl. unfold policy_exists.
  assert (Hg : good_name name) by done.
  rewrite fit_id by (unfold CAPS_DIR; rewrite length_app; simpl; lia).
  destruct (resolve_child (B "/etc/aegis/caps.d") [B "etc"; B "aegis"; B "caps.d"] name) as [Hr _]; [by vm_compute| |done|].
  { change [B "etc"; B "aegis"; B "caps.d"] with (resolve (B "/etc/aegis/caps.d")). apply resolve_good. }
  eapply same_bind.
  { apply (same_exists_at _ (policy_path name)); [exact Hr|].
    exact (wants_dir_snoc (B "/etc/aegis/caps.d") name Hg). }
  intros live Hlive. destruct live; [wp_step; split; [done|congruence]|].
  assert (Hfin : forall m : M bool, wp b m (λ _, same) same fs ->
    wp b m (λ r fs', fs' = fs /\ (b = false -> r = false -> get fs (policy_path name) = None)) same fs).
  { intros m Hm. eapply wp_conseq; [exact Hm| |done]. intros r fs' ->. auto. }
  apply Hfin. destruct (staged_policy_path _ _) as [s|]; [|by wp_step].
  unfold exists_at. wp_step. apply wp_pure_op; [by wp_step|]. intros _. split; [|done]. intros. by wp_step.
Qed.

Lemma same_db_found dbp id :
  wp b (db_found dbp id)
    (λ r fs', fs' = fs /\ (b = false -> run_calm (db_found dbp id) fs = Some r)) same fs.
Proof.
  destruct b.
  - unfold db_found, db_find, db_load. repeat wp_step. apply wp_op.
    + assert ((fs_read dbp fs).2 = fs) as -> by (unfold fs_read; by destruct (fs_stat fs dbp) as [[]|]).
      by repeat wp_step.
    + intros _. split; [|done]. intros. by repeat wp_step.
  - apply wp_readonly; [apply _|]. auto.
Qed.

Lemma same_check_bincaps reinstall l :
  Forall (λ bc, bare (bc_binary bc) /\ (length (bc_binary bc) < 64)%nat) l ->
  wp b (check_bincaps reinstall l)
    (λ r fs', fs' = fs /\ (r = 0 -> forall bc, bc ∈ l ->
       SLASH ∉ bc_binary bc /\ words_allowed (bc_caps bc) /\
       (b = false -> reinstall = false -> get fs (policy_path (bc_binary bc)) = None))) same fs.
Proof.
  induction 1 as [|bc l [Hb Hl] _ IH]; cbn [check_bincaps].
  { wp_step. split; [done|]. set_solver. }
  wp_step; [wp_step; split; [done|lia]|]. wp_step; [wp_step; split; [done|lia]|]. boolify.
  eapply same_bind; [by apply same_policy_exists|]. intros e He. wp_step; [wp_step; split; [done|lia]|].
  eapply wp_conseq; [exact IH| |done]. intros r fs' [-> Hr]. split; [done|].
  intros Hz bc' [-> | Hin]%elem_of_cons; [|by apply Hr]. split; [by apply has_char_false|].
  split; [by apply caps_ok_words|]. intros Hf ->. apply He; [done|]. by destruct e.
Qed.

Lemma same_check_app dbp m :
  manifest_ok m -> m_is_system m = false ->
  wp b (check_app dbp m)
    (λ r fs', fs' = fs /\ (r = 0 -> app_guards m /\
       (b = false -> run_calm (db_found dbp (m_id m)) fs = Some None ->
        forall n, n ∈ policies m -> get fs (policy_path n) = None))) same fs.
Proof.
  intros Hm Hs. unfold check_app. wp_step; [wp_step; split; [done|lia]|]. wp_step; [wp_step; split; [done|lia]|].
  boolify. assert (He : m_exec m = m_id m) by (by apply beq_true).
  assert (Hc : words_allowed (m_caps m)).
  { destruct (beq (m_caps m) []) eqn:Ec; [apply beq_true in Ec as ->; intros t Ht; by apply elem_of_nil in Ht|].
    apply caps_ok_words. by destruct (caps_ok (m_caps m)). }
  assert (Hbare : bare (m_exec m) /\ (length (m_exec m) < 64)%nat).
  { destruct (mo_exec _ Hm) as [[|[]] []]; [done|congruence]. }
  set (first := λ r : Z, r = 0 -> b = false -> run_calm (db_found dbp (m_id m)) fs = Some None ->
                  beq (m_caps m) [] = false -> get fs (policy_path (m_exec m)) = None).
  assert (Hfirst : wp b (if beq (m_caps m) [] then mret 0 else
     e ← policy_exists (m_exec m);
     if e : bool then prev ← db_found dbp (m_id m); mret (match prev with Some _ => 0 | None => -1 end)
     else mret 0) (λ r fs', fs' = fs /\ first r) same fs).
  { unfold first. destruct (beq (m_caps m) []) eqn:Ec; [by wp_step|].
    eapply same_bind; [apply same_policy_exists; apply Hbare|]. intros [] Hex.
    - eapply same_bind; [apply same_db_found|]. intros prev Hprev. wp_step. split; [done|].
      intros Hz Hb Hrun. rewrite (Hprev Hb) in Hrun. injection Hrun as ->. done.
    - wp_step. split; [done|]. auto. }
  wp_step. eapply wp_conseq; [exact Hfirst| |done]. intros r fs' [-> Hr]. cbn beta.
  case_if; [|split; [done|lia]]. boolify.
  eapply same_bind; [apply same_db_found|]. intros prev Hprev.
  eapply wp_conseq; [apply same_check_bincaps| |done].
  { eapply Forall_impl; [exact (mo_bincaps _ Hm)|]. cbn beta. tauto. }
  intros r2 fs' [-> Hr2]. split; [done|]. intros Hz. specialize (Hr2 Hz). split.
  - split; [done|done|]. intros bc Hbc. destruct (Hr2 bc Hbc) as (? & ? & _). done.
  - intros Hb Hrun n Hn. unfold policies in Hn. apply elem_of_app in Hn as [Hn|Hn].
    + destruct (beq (m_caps m) []) eqn:Ec; [by apply elem_of_nil in Hn|].
      apply list_elem_of_singleton in Hn as ->. by apply Hr.
    + apply list_elem_of_fmap in Hn as (bc & -> & Hbc). apply (Hr2 bc Hbc); [done|].
      rewrite (Hprev Hb) in Hrun. by injection Hrun as ->.
Qed.

End Checks.

(** * Installing a package *)

(** What installing [m] may change. *)
Definition touch (m : herald_manifest_t) : path -> Prop :=
  if m_is_system m then staging (entitled m None)
  else match prefixes m with
       | Some ps => staging (entitled m (Some ps))
       | None => λ _, False
       end.

(** What a successful installation of [m] on [fs] has checked. *)
Definition accepted (b : bool) (fs : fsys) (m : herald_manifest_t) : Prop :=
  m_is_system m = false ->
  app_guards m /\
  (b = false -> run_calm (db_found staged_path (m_id m)) fs = Some None ->
   forall n, n ∈ policies m -> get fs (policy_path n) = None).

Section Install.

Context `{Out : Outside} (b allow_downgrade : bool) (buf : bytes) (fs : fsys).
Hypothesis Hok : fs_ok fs.
Hypothesis Hstage : get fs p_stage = Some Dir.

Lemma tar_find_pure name : exists r, forall w, tar_find_mem buf name w = Ret r w.
Proof.
  cut (forall fuel off zr, exists r, forall w,
         tar_walk fuel (Find (strip_dot_slash name)) buf off zr w = Ret r w); [intros H; apply H|].
  intros fuel. induction fuel as [|fuel IH]; intros off zr; cbn [tar_walk]; [by eexists|].
  case_match; [by eexists|]. destruct (read_header buf off) as [| | |e]; try by eexists.
  - case_match; [by eexists|]. apply IH.
  - case_match; [apply IH|]. case_match; [by eexists|]. apply IH.
Qed.

Lemma pkg_manifest_pure w : pkg_manifest buf w = Ret (manifest_of buf) w.
Proof.
  destruct (tar_find_pure (B "manifest")) as [r Hr]. unfold manifest_of, run_calm, pkg_manifest.
  unfold mbind, M_bind. by rewrite !Hr.
Qed.

Lemma manifest_of_ok m : manifest_of buf = Some m -> manifest_ok m.
Proof.
  destruct (tar_find_pure (B "manifest")) as [r Hr]. unfold manifest_of, run_calm, pkg_manifest.
  unfold mbind, M_bind. rewrite Hr. cbn. destruct r; try done. apply parse_accepted_ok.
Qed.

Lemma declared_legal fuel np s l : declared fuel np s = Some l -> Forall (λ p, path_illegal p = false) l.
Proof.
  revert np s l. induction fuel as [|fuel IH]; intros np s l H; cbn [declared] in H; [by injection H as <-|].
  case_match; [by injection H as <-|]. destruct (drop_while is_blank s); [by injection H as <-|].
  case_match; [done|]. apply fmap_Some in H as (l' & Hl & ->). constructor; [done|]. by eapply IH.
Qed.

Lemma prefixes_dirs m ps : manifest_ok m -> prefixes m = Some ps -> Forall (λ p, wants_dir p = true) ps.
Proof.
  intros Hm H. unfold prefixes in H. apply fmap_Some in H as (l & Hl & ->). constructor.
  - unfold bundle_prefix. destruct (mo_id _ Hm) as [_ [_ Hlen]].
    rewrite fit_id by (rewrite !length_app; simpl; lia). unfold wants_dir.
    apply bool_decide_eq_true. by rewrite app_assoc, last_snoc.
  - eapply Forall_impl; [by eapply declared_legal|]. intros p Hp. unfold path_illegal in Hp.
    by destruct (wants_dir p), (starts_with [SLASH] p).
Qed.

Lemma entitled_up m allowed : up_closed (entitled m allowed).
Proof.
  intros r r' [(f & Hf & Hr)|Hr] Hp _.
  - left. exists f. split; [done|by etrans].
  - right. by eapply footprint_prefix.
Qed.

Lemma entitled_own m allowed f : f ∈ own_files m -> entitled m allowed f.
Proof. intros H. left. by exists f. Qed.

Lemma W_record m allowed fd fs' :
  let T := staging (entitled m allowed) in
  within T fs fs' -> T fd -> wp b (record_package staged_path buf m fd) (λ _, within T fs) (within T fs) fs'.
Proof.
  intros T HW HT. unfold record_package.
  apply W_and_then; [apply W_owner_finish; try done; apply entitled_up|].
  intros fs2 HW2. apply W_db_put; try done; [apply entitled_up|apply entitled_own; unfold own_files; set_solver..].
Qed.

Lemma wp_install_system m :
  m_is_system m = true ->
  wp b (install_system staged_path buf m) (λ r fs', within (touch m) fs fs' /\ (r = 0 -> accepted b fs m))
    (within (touch m) fs) fs.
Proof.
  intros Hs. unfold touch. rewrite Hs. set (T := staging (entitled m None)).
  eapply wp_conseq; [|intros a fs' HW; split; [exact HW|]; intros _ Hf; congruence|done].
  assert (HW : within T fs fs) by done.
  unfold install_system. destruct (tar_find_pure (B "var/lib/lorica-update/pending")) as [r Hr].
  eapply wp_ext.
  { intros w. unfold mbind, M_bind. rewrite Hr. exact eq_refl. }
  assert (Hgo : wp b (o ← stage_files buf (m_id m) None;
                      match o with None => mret (-1) | Some fd => record_package staged_path buf m fd end)
                  (λ _, within T fs) (within T fs) fs).
  { wp_step. eapply wp_conseq; [apply (W_stage_files b (entitled m None) fs)| |done]; try done.
    - apply entitled_up.
    - apply entitled_own. unfold own_files. set_solver.
    - intros p _ _. by right.
    - intros [fd|] fs1 [HW1 Hfd]; [|by wp_step]. apply W_record; [done|by apply Hfd]. }
  destruct r; [exact Hgo|by wp_step|exact Hgo].
Qed.

Lemma wp_install_app m :
  manifest_ok m -> m_is_system m = false ->
  wp b (install_app staged_path buf m) (λ r fs', within (touch m) fs fs' /\ (r = 0 -> accepted b fs m))
    (within (touch m) fs) fs.
Proof.
  intros Hm Hs. unfold touch. rewrite Hs. unfold install_app. wp_step.
  eapply wp_conseq; [by apply same_check_app| |].
  2:{ intros fs' ->. done. }
  intros r fs' [-> Hr]. cbn beta. case_if; [|split; [done|lia]]. boolify.
  destruct (Hr Heqb0) as [Hg Hfresh]. clear Hr.
  destruct (prefixes m) as [ps|] eqn:Ep; [|wp_step; split; [done|lia]].
  set (T := staging (entitled m (Some ps))).
  eapply wp_conseq; [|intros a fs' HW; split; [exact HW|]; intros _ _; by split|done].
  assert (HW : within T fs fs) by done. pose proof (entitled_up m (Some ps)) as Hup.
  assert (Hown : forall f, f ∈ own_files m -> entitled m (Some ps) f) by (intros; by apply entitled_own).
  wp_step. eapply wp_conseq; [apply (W_stage_files b (entitled m (Some ps)) fs)| |done]; try done.
  { apply Hown. unfold own_files. set_solver. }
  { by apply (prefixes_dirs m). }
  { intros p _ Hf. by right. }
  intros [fd|] fs1 [HW1 Hfd]; [|by wp_step]. destruct (Hfd fd eq_refl) as [HT Hid].
  apply W_and_then. { apply W_register_anchors; try done. apply Hown. unfold own_files. set_solver. }
  intros fs2 HW2. apply W_and_then.
  { wp_step; [by wp_step|]. apply W_write_policy; try done.
    - by rewrite (ag_exec _ Hg).
    - apply Hown. unfold own_files. set_solver. }
  intros fs3 HW3. apply W_and_then; [|intros fs4 HW4; by apply W_record].
  apply W_write_policies; try done. intros bc Hbc. split; [by apply (ag_bincaps _ Hg)|].
  apply Hown. unfold own_files. rewrite fmap_cons, elem_of_app. right. apply list_elem_of_further.
  apply list_elem_of_fmap_2. by apply list_elem_of_fmap_2.
Qed.

Lemma wp_install_bytes :
  let unchanged fs' := match manifest_of buf with
                       | Some m => within (touch m) fs fs'
                       | None => fs' = fs
                       end in
  wp b (install_bytes allow_downgrade staged_path buf)
    (λ r fs', unchanged fs' /\ (r = 0 -> exists m, manifest_of buf = Some m /\ accepted b fs m))
    unchanged fs.
Proof.
  intros unchanged. unfold install_bytes. eapply wp_ext.
  { intros w. unfold mbind at 1, M_bind at 1. rewrite pkg_manifest_pure. exact eq_refl. }
  unfold unchanged. destruct (manifest_of buf) as [m|] eqn:Em; [|wp_step; split; [done|lia]].
  pose proof (manifest_of_ok m Em) as Hm. clear unchanged.
  assert (Hid : within (touch m) fs fs) by done.
  wp_step. eapply wp_conseq; [apply same_db_found| |].
  2:{ intros fs' ->. done. }
  intros cur fs' [-> _]. cbn beta zeta. wp_step; [wp_step; split; [done|lia]|].
  assert (Hfin : forall p : M Z,
    wp b p (λ r fs', within (touch m) fs fs' /\ (r = 0 -> accepted b fs m)) (within (touch m) fs) fs ->
    wp b p (λ r fs', within (touch m) fs fs' /\ (r = 0 -> exists m', Some m = Some m' /\ accepted b fs m'))
      (within (touch m) fs) fs).
  { intros p Hp. eapply wp_conseq; [exact Hp| |done]. intros r fs' [H1 H2]. split; [done|]. eauto. }
  wp_step; apply Hfin; [by apply wp_install_system|by apply wp_install_app].
Qed.

End Install.


(** A declared prefix that reaches the policy of [n]. *)
Definition reaches_policy (P n : bytes) : Prop :=
  comps P `prefix_of` policy_path n \/ policy_path n `prefix_of` comps P.

Lemma prefix_policy n f m :
  f ∈ own_files m -> policy_path n `prefix_of` f -> n = m_exec m \/ n ∈ bc_binary <$> m_bincaps m.
Proof.
  unfold own_files. intros [Hf|Hf]%elem_of_app Hp.
  - exfalso. assert (Hx : forall g : path, g !! 2%nat ≠ Some (B "caps.d") -> ~ policy_path n `prefix_of` g).
    { intros g Hg [k ->]. done. }
    revert Hp. apply Hx. rewrite !elem_of_cons, elem_of_nil in Hf.
    destruct Hf as [-> |[-> |[-> |[-> |[]]]]]; vm_compute; congruence.
  - apply list_elem_of_fmap in Hf as (x & -> & Hx). destruct Hp as [k Hk].
    injection Hk as -> _. by apply elem_of_cons in Hx.
Qed.


(** * Authentication *)

Section Authentic.

Context `{Out : Outside} (allow_downgrade : bool).
Implicit Types (fs : fsys) (w : world).

(** A package file with a valid detached signature next to it. *)
Definition signed fs (path : bytes) (buf : bytes) : Prop :=
  exists sig, file_data fs path = Some buf /\ file_data fs (path ++ B ".sig") = Some sig /\
    herald_verify_p256_sha256 herald_trusted_key buf sig = true.

Lemma wp_load_verified b path fs :
  wp b (load_verified_pkg path)
    (λ r fs', fs' = fs /\ forall buf m, r = Some (buf, m) -> signed fs path buf /\ manifest_of buf = Some m)
    (λ fs', fs' = fs) fs.
Proof.
  unfold load_verified_pkg. eapply (same_bind b fs); [by apply wp_read_file|].
  assert (Hno : wp b (mret None) (λ r fs', fs' = fs /\ forall buf m, r = Some (buf, m) ->
            signed fs path buf /\ manifest_of buf = Some m) (λ fs', fs' = fs) fs).
  { wp_step. split; [done|congruence]. }
  intros f Hf. destruct f as [buf|]; [|exact Hno]. destruct Hf as [Hf|[_ ?]]; [|done].
  wp_step; [exact Hno|]. eapply (same_bind b fs); [by apply wp_read_file|].
  intros g Hg. destruct g as [sig|]; [|exact Hno]. destruct Hg as [Hg|[_ ?]]; [|done].
  wp_step; [exact Hno|]. boolify.
  destruct (tar_find_pure buf (B "manifest")) as [r Hr]. eapply wp_ext.
  { intros w. unfold mbind, M_bind. rewrite Hr. exact eq_refl. }
  wp_step. split; [done|]. intros buf' m. destruct r as [|off size|]; try done.
  destruct (manifest_parse _) as [m'|] eqn:Em; [|done]. intros [= <- <-]. split; [by exists sig|].
  unfold manifest_of, run_calm, pkg_manifest, mbind, M_bind. by rewrite Hr.
Qed.

(** no unsigned software.  If the file has no valid signature next to it,
    [herald install <file>] changes nothing on disk and does not report
    success, whatever fails on the way. *)
Theorem cmd_install_unsigned path w :
  (forall buf, ~ signed (w_fs w) path buf) -> env_ok true w ->
  w_fs (outcome_world (cmd_install allow_downgrade path w)) = w_fs w /\
  (forall r w', cmd_install allow_downgrade path w = Ret r w' -> r = 1).
Proof.
  intros Hn Hw.
  assert (H : wp true (cmd_install allow_downgrade path) (λ r fs', fs' = w_fs w /\ r = 1) (λ fs', fs' = w_fs w) (w_fs w)).
  { unfold cmd_install. eapply (same_bind true (w_fs w)); [apply wp_load_verified|].
    intros [[buf m]|] Hp; [|by wp_step]. destruct (Hp buf m eq_refl) as [Hs _]. by destruct (Hn buf). }
  pose proof (wp_use _ _ _ _ w H Hw) as Hu.
  destruct (cmd_install _ _ w) as [r w'|w']; cbn [outcome_world]; destruct Hu as [_ Hu].
  - destruct Hu as [-> ->]. split; [done|]. by intros r w2 [= <- _].
  - split; [done|]. done.
Qed.

(** ** Downloads *)

Definition p_cache : path := resolve HERALD_CACHE_DIR.

(** The download cache and the directories above it. *)
Definition in_cache (q : path) : Prop := q `prefix_of` p_cache \/ exists c, q = p_cache ++ [c].

(** curl, as herald relies on it: it writes the file it is told to write and no
    other, and when it reports success that file holds what the server serves. *)
Definition fetches (served : bytes -> bytes) : Prop :=
  forall url out fs, fs_ok fs ->
  let frame fs' := fs_ok fs' /\ forall q, q ≠ resolve out -> fs' !! q = fs !! q in
  wp true (herald_fetch url out) (λ r fs', frame fs' /\ (r = 0 -> file_data fs' out = Some (served url))) frame fs.

Definition package_url (st : herald_stanza_t) : bytes := fit 800 (st_base_url st ++ SLASH :: st_filename st).

Definition cached_name (st : herald_stanza_t) : Prop :=
  good_name (st_name st ++ B ".hpkg") /\ (length (st_name st) < 64)%nat.

Definition only_cache (fs fs' : fsys) : Prop := fs_ok fs' /\ forall q, ~ in_cache q -> fs' !! q = fs !! q.

Lemma cache_path_resolve st : cached_name st -> resolve (cache_path st) = p_cache ++ [st_name st ++ B ".hpkg"].
Proof.
  intros [Hg Hl]. unfold cache_path. rewrite fit_id.
  2:{ rewrite length_app. cbn [length]. rewrite length_app. unfold HERALD_CACHE_DIR. simpl. lia. }
  apply resolve_child; [by vm_compute| |done]. apply (resolve_good HERALD_CACHE_DIR).
Qed.

Lemma cache_prefixes s :
  s ∈ slash_prefixes HERALD_CACHE_DIR ++ [HERALD_CACHE_DIR] -> resolve s `prefix_of` p_cache.
Proof.
  assert (H : forallb (λ s, bool_decide (resolve s `prefix_of` p_cache))
            (slash_prefixes HERALD_CACHE_DIR ++ [HERALD_CACHE_DIR]) = true) by (vm_compute; reflexivity).
  intros Hs. apply list_elem_of_In in Hs. rewrite forallb_forall in H. specialize (H s Hs).
  by apply bool_decide_eq_true in H.
Qed.

Lemma wp_mkdir_all_cache ss fs0 fs :
  (forall s, s ∈ ss -> resolve s `prefix_of` p_cache) -> only_cache fs0 fs ->
  wp true (mkdir_all ss) (λ _, only_cache fs0) (only_cache fs0) fs.
Proof.
  revert fs. induction ss as [|s ss IH]; intros fs Hss HI; cbn [mkdir_all]; [by wp_step|].
  wp_step. apply wp_op.
  - destruct (mkdir_cases s fs (proj1 HI)) as [(-> & _)|(-> & _ & _ & Hok)]; apply IH; try set_solver.
    split; [done|]. intros q Hq. cbn [snd]. rewrite lookup_insert_ne; [by apply HI|].
    intros <-. apply Hq. left. apply Hss. set_solver.
  - intros _. split; [|done]. intros e. apply IH; [set_solver|done].
Qed.

Lemma wp_fetch_each served fs0 set fs :
  fetches served -> Forall cached_name set -> only_cache fs0 fs ->
  wp true (fetch_each set)
    (λ r fs', only_cache fs0 fs' /\ (r = 0 -> Forall (λ st, hex32 (herald_sha256 (served (package_url st))) = st_sha256 st) set))
    (only_cache fs0) fs.
Proof.
  intros Hf Hset. revert fs. induction Hset as [|st set Hc _ IH]; intros fs HI; cbn [fetch_each].
  { wp_step. split; [done|]. by constructor. }
  assert (Hsub : forall fs', fs_ok fs' -> (forall q, q ≠ resolve (cache_path st) -> fs' !! q = fs !! q) -> only_cache fs0 fs').
  { intros fs' Hok Hq. split; [done|]. intros q Hn. rewrite Hq; [by apply HI|].
    intros ->. apply Hn. right. rewrite cache_path_resolve by done. by eexists. }
  wp_step. eapply wp_conseq; [apply (Hf (package_url st) (cache_path st) fs); apply HI| |].
  2:{ intros fs' [Hok Hq]. by apply Hsub. }
  intros r fs1 [[Hok Hq] Hdata]. specialize (Hsub fs1 Hok Hq). cbn beta.
  wp_step; [wp_step; split; [done|lia]|]. boolify. specialize (Hdata Heqb).
  unfold read_cached. wp_step. wp_step.
  eapply wp_conseq; [apply (wp_read_file true _ fs1 (λ fs', fs' = fs1)); done| |by intros ? ->].
  intros p fs' [-> Hp]. wp_step. rewrite Hdata in Hp.
  destruct p as [pb|]; [|wp_step; split; [done|lia]].
  destruct Hp as [Hp|[_ ?]]; [injection Hp as ->|done].
  destruct (beq _ _) eqn:Eh; [|wp_step; split; [done|lia]]. apply beq_true in Eh.
  eapply wp_conseq; [by apply IH| |done]. intros r' fs' [H1 H2]. split; [done|]. intros Hz.
  constructor; [done|]. by apply H2.
Qed.


(** ** An update that waits for its kernel *)

Lemma fgets_take_app n p k :
  LF ∉ p -> fgets_take (length p + n) (p ++ k) = (p ++ (fgets_take n k).1, (fgets_take n k).2).
Proof.
  induction p as [|c p IH]; intros Hp; [exact (surjective_pairing _)|]. apply not_elem_of_cons in Hp as [Hc Hp].
  cbn [length app Nat.add fgets_take]. rewrite (proj2 (Z.eqb_neq c LF)) by congruence. by rewrite IH.
Qed.

Lemma state_line p k d :
  LF ∉ p -> NUL ∉ p -> p ≠ [] -> (length p <= 31)%nat -> d = p ++ k ->
  exists l r, fgets 32 d = Some (l, r) /\ starts_with p (cstr l) = true.
Proof.
  intros Hlf Hnul Hne Hlen ->. exists (p ++ (fgets_take (31 - length p) k).1), (fgets_take (31 - length p) k).2.
  split.
  - unfold fgets. destruct (p ++ k) eqn:E; [by destruct p|]. rewrite <- E. f_equal.
    replace (32 - 1)%nat with (length p + (31 - length p))%nat by lia. by apply fgets_take_app.
  - apply starts_with_spec. unfold cstr, take_while. rewrite span_true; [by eexists|].
    by apply Forall_not_c.
Qed.

Lemma wp_recover_pending d fs :
  file_data fs TXN_STATE = Some d -> starts_with (B "pending-kernel") d = true ->
  wp true txn_recover (λ r fs', fs' = fs /\ r ≠ 0) (λ fs', fs' = fs) fs.
Proof.
  intros Hd Hp. apply starts_with_spec in Hp as [k Hk].
  destruct (state_line (B "pending-kernel") k d) as (l & r & Hf & Hs); [by apply has_char_false..|done|simpl; lia|done|].
  assert (Hread : fs_read TXN_STATE fs = (inl ((default (0, d) (match (fs_read TXN_STATE fs).1 with inl x => Some x | _ => None end)).1, d), fs)).
  { unfold file_data in Hd. unfold fs_read in *. destruct (fs_stat fs TXN_STATE) as [[]|]; cbn in *; congruence. }
  unfold txn_recover, read_state. wp_step. wp_step. apply wp_op_injected.
  - rewrite Hread. cbn [fst snd]. wp_step. rewrite Hf. cbn [fmap option_fmap option_map].
    rewrite Hs. by wp_step.
  - intros _. split; [|done]. intros e He. wp_step. destruct e; [done|..]; by wp_step.
Qed.

(** while an update waits for its kernel, herald does nothing else.  If the
    state file says "pending-kernel", every invocation but [recover <arg>]
    exits with status 1 and leaves the disk alone, under any faults. *)
Theorem main_waits_for_kernel argv d w :
  file_data (w_fs w) TXN_STATE = Some d -> starts_with (B "pending-kernel") d = true ->
  (forall arg, argv ≠ [B "recover"; arg]) -> env_ok true w ->
  w_fs (outcome_world (main allow_downgrade argv w)) = w_fs w /\
  (forall r w', main allow_downgrade argv w = Ret r w' -> r = 1).
Proof.
  intros Hd Hp Hargv Hw.
  assert (H : wp true (main allow_downgrade argv) (λ r fs', fs' = w_fs w /\ r = 1) (λ fs', fs' = w_fs w) (w_fs w)).
  { unfold main. eapply (same_bind true (w_fs w) _ _ (λ r, r ≠ 0)); [by apply (wp_recover_pending d)|].
    intros r Hr. assert (Hblock : wp true (if negb (r =? 0) then mret 1 else run_command allow_downgrade argv)
      (λ r fs', fs' = w_fs w /\ r = 1) (λ fs', fs' = w_fs w) (w_fs w)).
    { rewrite (proj2 (Z.eqb_neq r 0)) by done. by wp_step. }
    destruct argv as [|cmd [|arg [|]]]; try exact Hblock.
    destruct ((r =? 1) && beq cmd (B "recover")) eqn:Hc; [|exact Hblock].
    apply andb_prop in Hc as [_ ->%beq_true]. by destruct (Hargv arg). }
  pose proof (wp_use _ _ _ _ w H Hw) as Hu.
  destruct (main _ _ w) as [r w'|w']; cbn [outcome_world]; destruct Hu as [_ Hu].
  - destruct Hu as [-> ->]. split; [done|]. by intros r w2 [= <- _].
  - split; [done|]. done.
Qed.

End Authentic.

(** * Witnesses *)

(** Archives and machines to run the commands on. *)
Definition oct_field (n : nat) : bytes := (λ k, 48 + (Z.of_nat n / 8 ^ Z.of_nat k) mod 8) <$> rev (seq 0 11).

Definition tar_file (p : string) (data : bytes) : bytes :=
  mk_header (B p) (B "0000644") (oct_field (length data)) 48 ++ pad_to ((length data + 511) / 512 * 512) data.

Definition text (ls : list string) : bytes := ls ≫= λ l, B l ++ [LF].

Definition archive (manifest : list string) (files : list (string * bytes)) : bytes :=
  tar_file "manifest" (text manifest) ++ (files ≫= λ '(p, d), tar_file p d) ++ zeros 1024.

(** A system with a policy for reboot, and a signed package to install. *)
Definition machine (db pkg : bytes) : fsys :=
  tree [("/etc", Dir); ("/etc/aegis", Dir); ("/etc/aegis/caps.d", Dir); ("/etc/aegis/herald", Dir);
        ("/etc/aegis/caps.d/reboot", Reg 420 (text ["service POWER"]));
        ("/etc/aegis/herald/db", Reg 420 db);
        ("/apps", Dir); ("/tmp", Dir); ("/tmp/p.hpkg", Reg 420 pkg); ("/tmp/p.hpkg.sig", Reg 420 (B "sig"))]%string.

(** The exit status and a file after running a command without faults. *)
Definition run_then_read (m : M Z) (p : bytes) (fs : fsys) : option Z * option bytes :=
  match m (calm_world fs) with
  | Ret r w => (Some r, data_at (w_fs w) (resolve p))
  | Crashed w => (None, data_at (w_fs w) (resolve p))
  end.

Definition reboot_policy : bytes := B "/etc/aegis/caps.d/reboot".

Definition dock : bytes :=
  archive ["id=dock"; "name=Dock"; "version=2"; "exec=dock"; "caps=FB IPC"]%string
          [("apps/dock/dock", B "ELF")]%string.

Definition dock_stage : fsys := prepared [] [("/apps", Dir)]%string
  [("/etc", Dir); ("/etc/aegis", Dir); ("/etc/aegis/caps.d", Dir); ("/etc/aegis/herald", Dir)]%string.

Definition dock_manifest : herald_manifest_t :=
  Manifest (B "dock") (B "Dock") (B "2") (B "dock") false (B "FB IPC") [] [] [].

Lemma dock_manifest_of : manifest_of dock = Some dock_manifest.
Proof. vm_compute. reflexivity. Qed.

Lemma dock_stage_ok : fs_ok dock_stage.
Proof. apply fs_okb_sound. vm_compute. reflexivity. Qed.



Definition unsigned_machine : fsys := delete (resolve (B "/tmp/p.hpkg.sig")) (machine [] dock).

Lemma cmd_install_unsigned_witness :
  w_fs (outcome_world (@cmd_install toy_outside false (B "/tmp/p.hpkg") (crash_world 9 unsigned_machine))) =
  unsigned_machine.
Proof.
  apply (@cmd_install_unsigned toy_outside false (B "/tmp/p.hpkg") (crash_world 9 unsigned_machine));
    [|apply crash_world_ok].
  intros buf (sig & _ & Hs & _). vm_compute in Hs. discriminate Hs.
Defined.

Lemma main_waits_for_kernel_witness :
  let fs := <[p_state := Reg 384 (B "pending-kernel" ++ [LF])]> sample_txn in
  w_fs (outcome_world (@main toy_outside false [B "upgrade"] (crash_world 5 fs))) = fs.
Proof.
  intros fs. apply (@main_waits_for_kernel toy_outside false [B "upgrade"] (B "pending-kernel" ++ [LF])).
  - vm_compute. reflexivity.
  - vm_compute. reflexivity.
  - discriminate.
  - apply crash_world_ok.
Defined.

(** A downloader that writes the same bytes for every URL. *)
Definition write_file (data out : bytes) : M Z :=
  f ← sys_open_trunc out 420;
  match f with
  | inr _ => mret (-1)
  | inl fd => write_loop (length data) fd data
  end.

Definition serving (data : bytes) : Outside := {|
  br_sha256 := @br_sha256 toy_outside;
  br_ecdsa_i31_vrfy_asn1 := @br_ecdsa_i31_vrfy_asn1 toy_outside;
  herald_trusted_key := @herald_trusted_key toy_outside;
  herald_fetch := λ _ out, write_file data out
|}.

Lemma serving_fetches data : @fetches (serving data) (λ _, data).
Proof.
  intros url out fs Hok frame. cbn [herald_fetch serving]. unfold write_file.
  assert (Hid : frame fs) by done.
  wp_step. apply wp_op; [|intros _; split; [intros e; wp_step; split; [done|lia]|done]].
  destruct (open_trunc_cases out 420 fs Hok) as [(e & ->)|(m & -> & _ & _ & Hwd & Hne & Hok')]; cbn [fst snd].
  { wp_step. split; [done|lia]. }
  assert (Hins : forall d, frame (<[resolve out := Reg m d]> (<[resolve out := Reg m []]> fs))).
  { intros d. split.
    - apply ok_insert; [done|apply resolve_good| |done|].
      + eapply walk_dir; [done|]. simpl. rewrite get_lookup by done. apply lookup_insert_eq.
      + rewrite get_lookup by done. by rewrite lookup_insert_eq.
    - intros q Hq. by rewrite !lookup_insert_ne. }
  eapply wp_conseq; [apply wp_write_loop; [apply lookup_insert_eq|done]| |].
  2:{ intros fs' (_ & d & ->). apply Hins. }
  intros r fs' (d & -> & Hd & _). split; [apply Hins|]. intros Hz. rewrite (Hd Hz). cbn [app].
  unfold file_data, fs_read. rewrite (stat_get _ (proj1 (Hins data)) out (Reg m data)); [done| |done].
  rewrite get_lookup by done. apply lookup_insert_eq.
Qed.

Definition pinned_dock : herald_stanza_t :=
  Stanza (B "dock") (B "2") [] (B "pool/dock.hpkg") (to_hex (@br_sha256 toy_outside dock)) [] [] [] [] (B "http://repo").


(** * Where a guard does not do what its comment says *)

(** the declared prefix "etc/" passes the check that is meant to keep packages
    out of the policy tree (it only refuses prefixes that begin with
    "etc/aegis/"), so an application package can ship a policy as a raw file.
    Here a signed package with no caps= line replaces the policy of the system
    binary reboot and grants it INSTALL, which is not on the allow-list. *)
Theorem declared_prefix_reaches_policies :
  let evil := archive ["id=evil"; "name=Evil"; "version=1"; "exec=evil"; "paths=etc/"]%string
                [("etc/aegis/caps.d/reboot", text ["service VFS_READ INSTALL"])]%string in
  run_then_read (@cmd_install toy_outside false (B "/tmp/p.hpkg")) reboot_policy (machine [] evil) =
    (Some 0, Some (text ["service VFS_READ INSTALL"]%string)).
Proof. vm_compute. reflexivity. Qed.

(** the collision guard only holds for a first installation.  Version 1 of a
    package is installed; version 2 adds the line caps.reboot=, and since the
    package is in the database the guard treats the existing policy of the
    system binary reboot as the package's own and overwrites it. *)
Theorem reinstall_takes_over_policy :
  let db := db_text [DbEntry (B "evil") (B "1") (B "evil") (B "00")] in
  let evil := archive ["id=evil"; "name=Evil"; "version=2"; "exec=evil"; "caps.reboot=VFS_READ"]%string [] in
  run_then_read (@cmd_install toy_outside false (B "/tmp/p.hpkg")) reboot_policy (machine db evil) =
    (Some 0, Some (text ["service VFS_READ"]%string)) /\
  run_then_read (@cmd_install toy_outside false (B "/tmp/p.hpkg")) reboot_policy (machine [] evil) =
    (Some 1, Some (text ["service POWER"]%string)).
Proof. vm_compute. done. Qed.

Lemma same_db_find b dbp id fs :
  wp b (db_find dbp id)
    (λ r fs', fs' = fs /\ (r = None \/ r = Some (default None (run_calm (db_found dbp id) fs)))) (λ fs', fs' = fs) fs.
Proof.
  unfold db_find, db_load. wp_step. wp_step. apply wp_op_injected.
  - assert (E : (fs_read dbp fs).2 = fs) by (unfold fs_read; by destruct (fs_stat fs dbp) as [[]|]).
    rewrite E. repeat wp_step. split; [done|].
    unfold run_calm, db_found, db_find, db_load, mbind, M_bind, sys_read, op. cbn [w_sched calm_world w_fs].
    destruct (fs_read dbp fs) as [[[m d]|e] fs2]; cbn; [by right|]. destruct e; cbn; auto.
  - intros _. split; [|done]. intros e He. repeat wp_step. split; [done|]. left. by destruct e.
Qed.

(** a system package cannot be removed.  Its manifest may leave exec empty and
    [install_bytes] then records an empty exec; [cmd_remove] takes an empty exec
    for a corrupt database entry, so it refuses, under any faults, although the
    owner list it would use is there. *)
Theorem system_package_not_removable id e w :
  run_calm (db_found live_path id) (w_fs w) = Some (Some e) -> de_exec e = [] -> env_ok true w ->
  w_fs (outcome_world (cmd_remove id w)) = w_fs w /\ (forall r w', cmd_remove id w = Ret r w' -> r = 1).
Proof.
  intros Hf He Hw.
  assert (Hu : wp true (cmd_remove id) (λ r fs', fs' = w_fs w /\ r = 1) (λ fs', fs' = w_fs w) (w_fs w)).
  { unfold cmd_remove. wp_step; [by wp_step|]. eapply (same_bind true (w_fs w)); [apply same_db_find|].
    intros f [-> | ->]; [by wp_step|]. rewrite Hf. change (default None (Some (Some e))) with (Some e); cbv iota. rewrite He. by wp_step. }
  pose proof (wp_use _ _ _ _ w Hu Hw) as Hr.
  destruct (cmd_remove id w) as [r w'|w']; cbn [outcome_world]; destruct Hr as [_ Hr].
  - destruct Hr as [-> ->]. split; [done|]. by intros r w2 [= <- _].
  - split; [done|]. done.
Qed.

(** A system package, installed and then asked to be removed. *)
Definition base_system : bytes :=
  archive ["id=base"; "name=Base"; "version=1"; "class=system"]%string [("bin/base", B "ELF")]%string.

Definition with_base : fsys :=
  w_fs (outcome_world (@cmd_install toy_outside false (B "/tmp/p.hpkg") (calm_world (machine [] base_system)))).

Lemma system_package_not_removable_witness :
  exists e, run_calm (db_found live_path (B "base")) with_base = Some (Some e) /\ de_exec e = [] /\
  w_fs (outcome_world (cmd_remove (B "base") (calm_world with_base))) = with_base.
Proof.
  assert (E : match run_calm (db_found live_path (B "base")) with_base with
              | Some (Some e) => de_exec e = [] | _ => False end) by (vm_compute; reflexivity).
  destruct (run_calm (db_found live_path (B "base")) with_base) as [[e|]|] eqn:Er; [|destruct E..].
  exists e. split; [reflexivity|]. split; [exact E|].
  assert (G : forall fs, run_calm (db_found live_path (B "base")) fs = Some (Some e) ->
                w_fs (outcome_world (cmd_remove (B "base") (calm_world fs))) = fs).
  { intros fs Hf. exact (proj1 (system_package_not_removable (B "base") e (calm_world fs) Hf E (calm_world_ok _ true))). }
  exact (G with_base Er).
Defined.
