(* ===== verification/GlyphTerm.v ===== *)
(** The terminal emulator core (src/user/lib/glyph/glyph_term.c, glyph_term.h).

    The state of [glyph_term_t] is a record of records: geometry, cell grid
    (a ring of [total_rows] lines), cursor, pen, parser, selection, settings.
    C [int] arithmetic that can leave the range is written with [i32].  A grid
    access computes the index the C code computes; an index outside the
    allocation makes the operation [None], so "is [Some]" states memory safety.

    [glyph_term_feed] is a byte-at-a-time state machine ([feed_byte]).  The
    theorems are in [GlyphTermSafety]. *)

From S2P Require Import Prelude CString.
Local Open Scope Z_scope.

(** * Definitions *)

Definition GLYPH_TERM_SCROLLBACK : Z := 500.
Definition GLYPH_TERM_SB_WIDTH : Z := 8.
Definition TERM_DEFAULT_COLOR : Z := 4294967295.
Definition GLYPH_TERM_DYN : Z := 4294967294.
Definition ATTR_BOLD : Z := 1.
Definition ATTR_UNDERLINE : Z := 4.
Definition ATTR_REVERSE : Z := 8.

Record glyph_term_cell_t := Cell { c_ch : byte; c_fg : Z; c_bg : Z; c_attrs : Z }.

Definition blank : glyph_term_cell_t := Cell SP TERM_DEFAULT_COLOR TERM_DEFAULT_COLOR 0.

Record geometry := Geometry {
  cols : Z; rows : Z; total_rows : Z; scrollback : Z;
  cell_w : Z; cell_h : Z; pad_x : Z; pad_y : Z; font_px : Z
}.

(** The current SGR colours and attributes. *)
Record pen := Pen { cur_fg : Z; cur_bg : Z; cur_attrs : Z }.

(** Escape parser: 0 normal, 1 ESC, 2 CSI, 3 OSC, 4 ESC inside an OSC. *)
Record parser := Parser {
  esc_state : Z; esc_params : list Z; esc_nparam : nat; esc_private : bool; osc_buf : bytes
}.

Record selection := Selection {
  sel_active : bool; sel_done : bool;
  sel_start_col : Z; sel_start_row : Z; sel_end_col : Z; sel_end_row : Z
}.

Record settings := Settings {
  master_fd : Z; theme : nat; cursor_style : Z; cursor_blink : bool; cursor_visible : bool
}.

Record glyph_term_t := Term {
  geo : geometry;
  grid : list glyph_term_cell_t;
  cx : Z; cy : Z;
  saved_cx : Z; saved_cy : Z;
  tpen : pen;
  scroll_top : Z; scroll_offset : Z;
  esc : parser;
  sel : selection;
  sb_dragging : bool;
  admin : bool; admin_changed : bool;
  conf : settings
}.

(** ** Field updates *)

Definition set_grid (t : glyph_term_t) (g : list glyph_term_cell_t) : glyph_term_t :=
  Term (geo t) g (cx t) (cy t) (saved_cx t) (saved_cy t) (tpen t) (scroll_top t) (scroll_offset t)
    (esc t) (sel t) (sb_dragging t) (admin t) (admin_changed t) (conf t).

Definition set_cursor (t : glyph_term_t) (x y : Z) : glyph_term_t :=
  Term (geo t) (grid t) x y (saved_cx t) (saved_cy t) (tpen t) (scroll_top t) (scroll_offset t)
    (esc t) (sel t) (sb_dragging t) (admin t) (admin_changed t) (conf t).

Definition save_cursor (t : glyph_term_t) : glyph_term_t :=
  Term (geo t) (grid t) (cx t) (cy t) (cx t) (cy t) (tpen t) (scroll_top t) (scroll_offset t)
    (esc t) (sel t) (sb_dragging t) (admin t) (admin_changed t) (conf t).

Definition set_pen (t : glyph_term_t) (p : pen) : glyph_term_t :=
  Term (geo t) (grid t) (cx t) (cy t) (saved_cx t) (saved_cy t) p (scroll_top t) (scroll_offset t)
    (esc t) (sel t) (sb_dragging t) (admin t) (admin_changed t) (conf t).

Definition set_scroll (t : glyph_term_t) (top off : Z) : glyph_term_t :=
  Term (geo t) (grid t) (cx t) (cy t) (saved_cx t) (saved_cy t) (tpen t) top off
    (esc t) (sel t) (sb_dragging t) (admin t) (admin_changed t) (conf t).

Definition set_esc (t : glyph_term_t) (e : parser) : glyph_term_t :=
  Term (geo t) (grid t) (cx t) (cy t) (saved_cx t) (saved_cy t) (tpen t) (scroll_top t)
    (scroll_offset t) e (sel t) (sb_dragging t) (admin t) (admin_changed t) (conf t).

Definition set_sel (t : glyph_term_t) (s : selection) : glyph_term_t :=
  Term (geo t) (grid t) (cx t) (cy t) (saved_cx t) (saved_cy t) (tpen t) (scroll_top t)
    (scroll_offset t) (esc t) s (sb_dragging t) (admin t) (admin_changed t) (conf t).

Definition set_dragging (t : glyph_term_t) (d : bool) : glyph_term_t :=
  Term (geo t) (grid t) (cx t) (cy t) (saved_cx t) (saved_cy t) (tpen t) (scroll_top t)
    (scroll_offset t) (esc t) (sel t) d (admin t) (admin_changed t) (conf t).

Definition set_admin (t : glyph_term_t) (a changed : bool) : glyph_term_t :=
  Term (geo t) (grid t) (cx t) (cy t) (saved_cx t) (saved_cy t) (tpen t) (scroll_top t)
    (scroll_offset t) (esc t) (sel t) (sb_dragging t) a changed (conf t).

Definition set_conf (t : glyph_term_t) (c : settings) : glyph_term_t :=
  Term (geo t) (grid t) (cx t) (cy t) (saved_cx t) (saved_cy t) (tpen t) (scroll_top t)
    (scroll_offset t) (esc t) (sel t) (sb_dragging t) (admin t) (admin_changed t) c.

Definition set_visible (t : glyph_term_t) (v : bool) : glyph_term_t :=
  let c := conf t in
  set_conf t (Settings (master_fd c) (theme c) (cursor_style c) (cursor_blink c) v).

Definition esc_to (t : glyph_term_t) (state : Z) : glyph_term_t :=
  let e := esc t in
  set_esc t (Parser state (esc_params e) (esc_nparam e) (esc_private e) (osc_buf e)).

(** ** The grid *)

(** [x % y] with the C sign, brought into range by adding [y] once. *)
Definition ring (x total : Z) : Z := let r := Z.rem x total in if r <? 0 then r + total else r.

Definition grid_index (t : glyph_term_t) (ring_row col : Z) : option nat :=
  let i := ring_row * cols (geo t) + col in
  if (0 <=? i) && (i <? Z.of_nat (length (grid t))) then Some (Z.to_nat i) else None.

(** The cell the user sees at a visible position, through [scroll_offset]. *)
Definition grid_cell (t : glyph_term_t) (vis_row col : Z) : option nat :=
  grid_index t (ring (scroll_top t - scroll_offset t + vis_row) (total_rows (geo t))) col.

(** The cell of the output path, which ignores [scroll_offset]. *)
Definition grid_cell_abs (t : glyph_term_t) (vis_row col : Z) : option nat :=
  grid_index t (ring (scroll_top t + vis_row) (total_rows (geo t))) col.

Definition put_abs (t : glyph_term_t) (row col : Z) (c : glyph_term_cell_t) : option glyph_term_t :=
  i ← grid_cell_abs t row col; Some (set_grid t (<[i := c]> (grid t))).

Fixpoint blank_abs (t : glyph_term_t) (ps : list (Z * Z)) : option glyph_term_t :=
  match ps with
  | [] => Some t
  | (r, c) :: ps => t' ← put_abs t r c blank; blank_abs t' ps
  end.

(** [for (i = a; i < b; i++)] *)
Definition range (a b : Z) : list Z := seqZ a (b - a).

(** Positions of the rows [r0 <= r < r1], all columns. *)
Definition rows_cells (t : glyph_term_t) (r0 r1 : Z) : list (Z * Z) :=
  range r0 r1 ≫= λ r, (λ c, (r, c)) <$> range 0 (cols (geo t)).

Definition line_cells (row c0 c1 : Z) : list (Z * Z) := (λ c, (row, c)) <$> range c0 c1.

Fixpoint blank_raw (g : list glyph_term_cell_t) (idx : list Z) : option (list glyph_term_cell_t) :=
  match idx with
  | [] => Some g
  | i :: idx => if (0 <=? i) && (i <? Z.of_nat (length g))
               then blank_raw (<[Z.to_nat i := blank]> g) idx else None
  end.

Definition term_scroll (t : glyph_term_t) : option glyph_term_t :=
  let g := geo t in
  let top := Z.rem (scroll_top t + 1) (total_rows g) in
  let new_bottom := Z.rem (top + rows g - 1) (total_rows g) in
  g' ← blank_raw (grid t) ((λ i, new_bottom * cols g + i) <$> range 0 (cols g));
  Some (set_cursor (set_scroll (set_grid t g') top (scroll_offset t)) (cx t) (rows g - 1)).

(** [cy++; if (cy >= rows) term_scroll(tp);] *)
Definition line_feed (t : glyph_term_t) : option glyph_term_t :=
  let t := set_cursor t (cx t) (i32 (cy t + 1)) in
  if rows (geo t) <=? cy t then term_scroll t else Some t.

(** Store a character, advance, wrap. *)
Definition put_char (t : glyph_term_t) (c : glyph_term_cell_t) : option glyph_term_t :=
  t ← put_abs t (cy t) (cx t) c;
  let t := set_cursor t (i32 (cx t + 1)) (cy t) in
  if cols (geo t) <=? cx t then line_feed (set_cursor t 0 (cy t)) else Some t.

Definition printable (ch : byte) : bool := (32 <=? ch) && (ch <=? 126).

Fixpoint glyph_term_puts (t : glyph_term_t) (msg : bytes) : option glyph_term_t :=
  match msg with
  | [] => Some t
  | ch :: msg =>
      t ← (if ch =? LF then line_feed (set_cursor t 0 (cy t))
           else if printable ch
           then put_char t (Cell ch TERM_DEFAULT_COLOR TERM_DEFAULT_COLOR 0)
           else Some t);
      glyph_term_puts t msg
  end.

(** ** Control sequences *)

Definition TERM_PAL (idx : Z) : Z := Z.lor 16777216 idx.
Definition default_pen : pen := Pen TERM_DEFAULT_COLOR TERM_DEFAULT_COLOR 0.
Definition rgb (r g b : Z) : Z :=
  Z.lor (Z.lor (Z.shiftl (Z.land r 255) 16) (Z.shiftl (Z.land g 255) 8)) (Z.land b 255).

(** The SGR parameters that take no operands. *)
Definition sgr_simple (p : Z) (s : pen) : pen :=
  let '(Pen fg bg attrs) := s in
  if p =? 0 then default_pen
  else if p =? 1 then Pen fg bg (Z.lor attrs ATTR_BOLD)
  else if p =? 4 then Pen fg bg (Z.lor attrs ATTR_UNDERLINE)
  else if p =? 7 then Pen fg bg (Z.lor attrs ATTR_REVERSE)
  else if p =? 22 then Pen fg bg (Z.land attrs (u8 (Z.lnot ATTR_BOLD)))
  else if p =? 24 then Pen fg bg (Z.land attrs (u8 (Z.lnot ATTR_UNDERLINE)))
  else if p =? 27 then Pen fg bg (Z.land attrs (u8 (Z.lnot ATTR_REVERSE)))
  else if (30 <=? p) && (p <=? 37) then
    Pen (TERM_PAL (p - 30 + (if Z.land attrs ATTR_BOLD =? 0 then 0 else 8))) bg attrs
  else if p =? 39 then Pen TERM_DEFAULT_COLOR bg attrs
  else if (40 <=? p) && (p <=? 47) then Pen fg (TERM_PAL (p - 40)) attrs
  else if p =? 49 then Pen fg TERM_DEFAULT_COLOR attrs
  else if (90 <=? p) && (p <=? 97) then Pen (TERM_PAL (p - 90 + 8)) bg attrs
  else if (100 <=? p) && (p <=? 107) then Pen fg (TERM_PAL (p - 100 + 8)) attrs
  else s.

Definition set_color (is_fg : bool) (c : Z) (s : pen) : pen :=
  if is_fg then Pen c (cur_bg s) (cur_attrs s) else Pen (cur_fg s) c (cur_attrs s).

Fixpoint sgr (ps : list Z) (s : pen) : pen :=
  match ps with
  | [] => s
  | p :: rest =>
      if (p =? 38) || (p =? 48) then
        match rest with
        | 5 :: idx :: rest' =>
            sgr rest' (if (0 <=? idx) && (idx <? 256) then set_color (p =? 38) (TERM_PAL idx) s else s)
        | 2 :: r :: g :: b :: rest' => sgr rest' (set_color (p =? 38) (rgb r g b) s)
        | _ => sgr rest s
        end
      else sgr rest (sgr_simple p s)
  end.

Definition param (e : parser) (i : nat) (dflt : Z) : Z :=
  if (i <? esc_nparam e)%nat then nth i (esc_params e) 0 else dflt.

Definition clear_screen (t : glyph_term_t) : option glyph_term_t :=
  blank_abs t (rows_cells t 0 (rows (geo t))).

(** A completed CSI sequence with final byte [final]. *)
Definition term_csi (t : glyph_term_t) (final : byte) : option glyph_term_t :=
  let e := esc t in
  let g := geo t in
  let n := param e 0 0 in
  let m := if n <? 1 then 1 else n in
  if final =? 65 then (* A *)
    let y := i32 (cy t - m) in Some (set_cursor t (cx t) (if y <? 0 then 0 else y))
  else if final =? 66 then (* B *)
    let y := i32 (cy t + m) in Some (set_cursor t (cx t) (if rows g <=? y then rows g - 1 else y))
  else if final =? 67 then (* C *)
    let x := i32 (cx t + m) in Some (set_cursor t (if cols g <=? x then cols g - 1 else x) (cy t))
  else if final =? 68 then (* D *)
    let x := i32 (cx t - m) in Some (set_cursor t (if x <? 0 then 0 else x) (cy t))
  else if (final =? 72) || (final =? 102) then (* H, f *)
    let row := param e 0 1 in
    let col := param e 1 1 in
    let y := (if row <? 1 then 1 else row) - 1 in
    let x := (if col <? 1 then 1 else col) - 1 in
    Some (set_cursor t (if cols g <=? x then cols g - 1 else x)
                       (if rows g <=? y then rows g - 1 else y))
  else if final =? 74 then (* J *)
    if n =? 2 then t ← clear_screen t; Some (set_cursor t 0 0)
    else if n =? 0 then
      blank_abs t (line_cells (cy t) (cx t) (cols g) ++ rows_cells t (cy t + 1) (rows g))
    else Some t
  else if final =? 75 then (* K *)
    if n =? 0 then blank_abs t (line_cells (cy t) (cx t) (cols g))
    else if n =? 2 then blank_abs t (line_cells (cy t) 0 (cols g))
    else Some t
  else if final =? 109 then (* m *)
    Some (set_pen t (if (esc_nparam e =? 0)%nat then default_pen
                     else sgr (take (esc_nparam e) (esc_params e)) (tpen t)))
  else if final =? 104 then (* h *)
    if esc_private e then
      if n =? 25 then Some (set_visible t true)
      else if n =? 1049 then t ← clear_screen (save_cursor t); Some (set_cursor t 0 0)
      else Some t
    else Some t
  else if final =? 108 then (* l *)
    if esc_private e then
      if n =? 25 then Some (set_visible t false)
      else if n =? 1049 then t ← clear_screen t; Some (set_cursor t (saved_cx t) (saved_cy t))
      else Some t
    else Some t
  else Some t.

(** A completed OSC string: only "777;admin;<n>" is acted on. *)
Definition term_osc (t : glyph_term_t) : glyph_term_t :=
  let pfx := B "777;admin;" in
  let s := cstr (osc_buf (esc t)) in
  if starts_with pfx s then
    let a := match drop (length pfx) s with [] => false | c :: _ => negb (c =? 48) end in
    if Bool.eqb a (admin t) then t else set_admin t a true
  else t.

(** The flag and the new state, as the consumer polls it. *)
Definition glyph_term_admin_take_change (t : glyph_term_t) : option bool * glyph_term_t :=
  if admin_changed t then (Some (admin t), set_admin t (admin t) false) else (None, t).

Definition OSC_MAX : nat := 63.

Definition is_digit_byte (ch : byte) : bool := (48 <=? ch) && (ch <=? 57).

(** One byte inside a CSI sequence. *)
Definition csi_byte (t : glyph_term_t) (ch : byte) : option glyph_term_t :=
  let '(Parser st ps np priv osc) := esc t in
  if (ch =? 63) && (np =? 0)%nat then Some (set_esc t (Parser st ps np true osc))
  else if is_digit_byte ch then
    let np := if (np =? 0)%nat then 1%nat else np in
    let i := (np - 1)%nat in
    Some (set_esc t (Parser st (<[i := i32 (nth i ps 0 * 10 + (ch - 48))]> ps) np priv osc))
  else if ch =? 59 then
    if (np <? 8)%nat then Some (set_esc t (Parser st (<[np := 0]> ps) (S np) priv osc)) else Some t
  else if (64 <=? ch) && (ch <=? 126) then
    t ← term_csi t ch;
    let e := esc t in
    Some (set_esc t (Parser 0 (esc_params e) (esc_nparam e) false (osc_buf e)))
  else Some (set_esc t (Parser 0 ps np false osc)).

(** One byte of ordinary text. *)
Definition text_byte (t : glyph_term_t) (ch : byte) : option glyph_term_t :=
  if ch =? ESC then Some (esc_to t 1)
  else if ch =? LF then line_feed t
  else if ch =? CR then Some (set_cursor t 0 (cy t))
  else if (ch =? 8) || (ch =? 127) then
    Some (if 0 <? cx t then set_cursor t (cx t - 1) (cy t) else t)
  else if ch =? TAB then
    let t := set_cursor t (Z.land (i32 (cx t + 8)) (Z.lnot 7)) (cy t) in
    if cols (geo t) <=? cx t then line_feed (set_cursor t 0 (cy t)) else Some t
  else if printable ch then
    put_char t (Cell ch (cur_fg (tpen t)) (cur_bg (tpen t)) (cur_attrs (tpen t)))
  else Some t.

Definition feed_byte (t : glyph_term_t) (ch : byte) : option glyph_term_t :=
  let '(Parser st ps np priv osc) := esc t in
  if st =? 1 then
    Some (if ch =? 91 then set_esc t (Parser 2 (<[1%nat := 0]> (<[0%nat := 0]> ps)) 0 false osc)
          else if ch =? 93 then set_esc t (Parser 3 ps np priv [])
          else esc_to t 0)
  else if st =? 3 then
    Some (if ch =? BEL then esc_to (term_osc t) 0
          else if ch =? ESC then esc_to t 4
          else if (length osc <? OSC_MAX)%nat then set_esc t (Parser st ps np priv (osc ++ [ch]))
          else t)
  else if st =? 4 then
    Some (esc_to (if ch =? 92 then term_osc t else t) 0)
  else if st =? 2 then csi_byte t ch
  else text_byte t ch.

Fixpoint feed_bytes (t : glyph_term_t) (data : bytes) : option glyph_term_t :=
  match data with
  | [] => Some t
  | ch :: data => t ← feed_byte t ch; feed_bytes t data
  end.

(** Snap to the bottom on new output. *)
Definition snap (t : glyph_term_t) : glyph_term_t :=
  if 0 <? scroll_offset t then set_scroll t (scroll_top t) 0 else t.

Definition glyph_term_feed (t : glyph_term_t) (data : bytes) : option glyph_term_t :=
  feed_bytes (snap t) data.

(** ** Scrollbar and mouse *)

Definition clamp (lo hi x : Z) : Z := let x := if x <? lo then lo else x in if hi <? x then hi else x.

Definition sb_set_from_y (t : glyph_term_t) (y : Z) : glyph_term_t :=
  let g := geo t in
  let track_h := rows g * cell_h g in
  let total := GLYPH_TERM_SCROLLBACK + rows g in
  let thumb_h := Z.quot (rows g * track_h) total in
  let thumb_h := if thumb_h <? 16 then 16 else thumb_h in
  let usable := track_h - thumb_h in
  if usable <=? 0 then t else
  let rel_y := clamp 0 track_h (y - pad_y g) in
  let offset := Z.quot (GLYPH_TERM_SCROLLBACK * (usable - rel_y)) usable in
  set_scroll t (scroll_top t) (clamp 0 GLYPH_TERM_SCROLLBACK offset).

Definition sb_hit (t : glyph_term_t) (x : Z) : bool :=
  let sb_x := pad_x (geo t) + cols (geo t) * cell_w (geo t) in
  (sb_x <=? x) && (x <? sb_x + GLYPH_TERM_SB_WIDTH).

(** The grid position under a pixel, clamped: column, then row. *)
Definition cell_at (t : glyph_term_t) (x y : Z) : Z * Z :=
  let g := geo t in
  let col := Z.quot (x - pad_x g) (cell_w g) in
  let row := Z.quot (y - pad_y g) (cell_h g) in
  let col := if col <? 0 then 0 else col in
  let col := if cols g <=? col then cols g - 1 else col in
  let row := if row <? 0 then 0 else row in
  let row := if rows g <=? row then rows g - 1 else row in
  (col, row).

Definition glyph_term_mouse_down (t : glyph_term_t) (x y : Z) : Z * glyph_term_t :=
  if sb_hit t x then (1, sb_set_from_y (set_dragging t true) y) else
  let '(col, row) := cell_at t x y in
  (1, set_sel t (Selection true false col row col row)).

Definition glyph_term_mouse_move (t : glyph_term_t) (x y : Z) : Z * glyph_term_t :=
  let s := sel t in
  if sb_dragging t then (1, sb_set_from_y t y)
  else if negb (sel_active s) || sel_done s then (0, t)
  else
    let '(col, row) := cell_at t x y in
    if negb (col =? sel_end_col s) || negb (row =? sel_end_row s)
    then (1, set_sel t (Selection true (sel_done s) (sel_start_col s) (sel_start_row s) col row))
    else (0, t).

Definition glyph_term_mouse_up (t : glyph_term_t) (x y : Z) : Z * glyph_term_t :=
  let s := sel t in
  if sb_dragging t then (1, set_dragging t false)
  else if negb (sel_active s) then (0, t)
  else
    let '(col, row) := cell_at t x y in
    let click := (sel_start_col s =? col) && (sel_start_row s =? row) in
    (1, set_sel t (Selection (negb click) (if click then sel_done s else true)
                     (sel_start_col s) (sel_start_row s) col row)).

Definition glyph_term_scroll (t : glyph_term_t) (direction : Z) : Z * glyph_term_t :=
  let o := scroll_offset t in
  let o := if 0 <? direction
           then (if GLYPH_TERM_SCROLLBACK <? o + 3 then GLYPH_TERM_SCROLLBACK else o + 3)
           else (if o - 3 <? 0 then 0 else o - 3) in
  (1, set_scroll t (scroll_top t) o).

Definition glyph_term_scroll_back (t : glyph_term_t) (lines : Z) : glyph_term_t :=
  let o := i32 (scroll_offset t + lines) in
  let o := if GLYPH_TERM_SCROLLBACK <? o then GLYPH_TERM_SCROLLBACK else o in
  set_scroll t (scroll_top t) (if o <? 0 then 0 else o).

(** ** Selection *)

Definition glyph_term_has_selection (t : glyph_term_t) : bool :=
  sel_active (sel t) && sel_done (sel t).

Definition glyph_term_clear_selection (t : glyph_term_t) : glyph_term_t :=
  let s := sel t in
  set_sel t (Selection false false (sel_start_col s) (sel_start_row s) (sel_end_col s) (sel_end_row s)).

(** Start row and column, end row and column, in row-major order. *)
Definition sel_normalize (s : selection) : Z * Z * Z * Z :=
  let '(Selection _ _ sc sr ec er) := s in
  if (er <? sr) || ((sr =? er) && (ec <? sc)) then (er, ec, sr, sc) else (sr, sc, er, ec).

Definition cell_in_sel (r c sr sc er ec : Z) : bool :=
  if (r <? sr) || (er <? r) then false
  else if (r =? sr) && (r =? er) then (sc <=? c) && (c <=? ec)
  else if r =? sr then sc <=? c
  else if r =? er then c <=? ec
  else true.

Definition char_at (t : glyph_term_t) (r c : Z) : option byte :=
  i ← grid_cell t r c; c_ch <$> grid t !! i.

(** The characters of one row of the selection, trailing spaces stripped. *)
Definition row_chars (t : glyph_term_t) (r c_start c_end : Z) : option bytes :=
  s ← mapM (char_at t r) (range c_start (c_end + 1)); Some (rstrip (is_c SP) s).

(** The copy loop over the rows [r .. er]; [room] is [max - 1 - pos]. *)
Fixpoint copy_rows (t : glyph_term_t) (sr sc er ec : Z) (rs : list Z) (room : nat) : option bytes :=
  match rs, room with
  | [], _ => Some []
  | _, O => Some []
  | r :: rs, _ =>
      let c_start := if r =? sr then sc else 0 in
      let c_end := if r =? er then ec else cols (geo t) - 1 in
      s ← row_chars t r c_start c_end;
      let out := take room s in
      let room := (room - length out)%nat in
      let nl := if (r <? er) && (0 <? room)%nat then [LF] else [] in
      rest ← copy_rows t sr sc er ec rs (room - length nl);
      Some (out ++ nl ++ rest)
  end.

Definition glyph_term_copy_selection (t : glyph_term_t) (max : Z) : option bytes :=
  if (max <=? 0) || negb (sel_active (sel t)) then Some [] else
  let '(sr, sc, er, ec) := sel_normalize (sel t) in
  copy_rows t sr sc er ec (range sr (er + 1)) (Z.to_nat (max - 1)).

(** ** Keys, lifecycle, settings *)

Definition glyph_term_translate_key (key : byte) : bytes :=
  if key =? 241 then [ESC; 91; 65]
  else if key =? 242 then [ESC; 91; 66]
  else if key =? 243 then [ESC; 91; 67]
  else if key =? 244 then [ESC; 91; 68]
  else [key].

(** [glyph_term_create] when the allocations succeed. *)
Definition glyph_term_create (ncols nrows cw ch px py : Z) : glyph_term_t :=
  let total := nrows + GLYPH_TERM_SCROLLBACK in
  Term (Geometry ncols nrows total GLYPH_TERM_SCROLLBACK cw ch px py 16)
    (repeat blank (Z.to_nat (total * ncols))) 0 0 0 0 default_pen 0 0
    (Parser 0 (repeat 0 8) 0 false []) (Selection false false 0 0 0 0) false false false
    (Settings (-1) 0 0 true true).

(** The window size pushed to the pty, if there is one. *)
Definition glyph_term_apply_winsize (t : glyph_term_t) : option (Z * Z * Z * Z) :=
  if master_fd (conf t) <? 0 then None
  else Some (u16 (rows (geo t)), u16 (cols (geo t)),
             u16 (cols (geo t) * cell_w (geo t)), u16 (rows (geo t) * cell_h (geo t))).

(** The cells [src[0 .. cc-1]] of visible row [r], read from the old grid. *)
Definition old_row (t : glyph_term_t) (r cc : Z) : option (list glyph_term_cell_t) :=
  mapM (λ c, i ← grid_cell t r 0; grid t !! (i + Z.to_nat c)%nat) (range 0 cc).

Fixpoint copy_old (t : glyph_term_t) (ncols cc : Z) (rs : list Z) (ng : list glyph_term_cell_t) :
    option (list glyph_term_cell_t) :=
  match rs with
  | [] => Some ng
  | r :: rs =>
      row ← old_row t r cc;
      copy_old t ncols cc rs (list_inserts (Z.to_nat (r * ncols)) row ng)
  end.

(** The result is the return value and the new state; [alloc] tells whether
    [calloc] succeeds. *)
Definition glyph_term_resize (t : glyph_term_t) (ncols nrows cw ch fpx : Z) (alloc : bool) :
    option (Z * glyph_term_t) :=
  if (ncols <? 1) || (nrows <? 1) || negb alloc then Some (-1, t) else
  let g := geo t in
  let fpx := if fpx <? 1 then font_px g else fpx in
  let total := nrows + scrollback g in
  let cr := if nrows <? rows g then nrows else rows g in
  let cc := if ncols <? cols g then ncols else cols g in
  ng ← copy_old t ncols cc (range 0 cr) (repeat blank (Z.to_nat (total * ncols)));
  let x := if ncols <=? cx t then ncols - 1 else cx t in
  let y := if nrows <=? cy t then nrows - 1 else cy t in
  let s := sel t in
  Some (0, Term (Geometry ncols nrows total (scrollback g) cw ch (pad_x g) (pad_y g) fpx) ng x y
    (saved_cx t) (saved_cy t) (tpen t) 0 0 (esc t)
    (Selection false false (sel_start_col s) (sel_start_row s) (sel_end_col s) (sel_end_row s))
    (sb_dragging t) (admin t) (admin_changed t) (conf t)).

Definition TERM_NTHEMES : Z := 6.

Definition glyph_term_set_theme (t : glyph_term_t) (scheme : Z) : glyph_term_t :=
  let scheme := if scheme <? 0 then 0 else scheme in
  let scheme := if TERM_NTHEMES <=? scheme then TERM_NTHEMES - 1 else scheme in
  let c := conf t in
  set_conf t (Settings (master_fd c) (Z.to_nat scheme) (cursor_style c) (cursor_blink c) (cursor_visible c)).

Definition glyph_term_set_cursor_style (t : glyph_term_t) (style : Z) : glyph_term_t :=
  let c := conf t in
  set_conf t (Settings (master_fd c) (theme c) style (cursor_blink c) (cursor_visible c)).

Definition glyph_term_set_cursor_blink (t : glyph_term_t) (on : Z) : glyph_term_t :=
  let c := conf t in
  set_conf t (Settings (master_fd c) (theme c) (cursor_style c) (negb (on =? 0)) (cursor_visible c)).

(** ** Colours *)

(** Foreground, background, cursor and selection colours of a scheme, and its
    sixteen ANSI colours; [GLYPH_TERM_DYN] follows the desktop theme. *)
Record glyph_term_theme_t := Theme {
  th_ansi : list Z; th_fg : Z; th_bg : Z; th_cursor : Z; th_selection : Z
}.

Definition ansi_colors : list Z :=
  [0x000000; 0xCC0000; 0x00CC00; 0xCCAA00; 0x4488CC; 0xCC00CC; 0x00CCCC; 0xCCCCCC;
   0x555555; 0xFF5555; 0x55FF55; 0xFFFF55; 0x5599FF; 0xFF55FF; 0x55FFFF; 0xFFFFFF].

Definition s_term_themes : list glyph_term_theme_t :=
  [Theme ansi_colors GLYPH_TERM_DYN GLYPH_TERM_DYN GLYPH_TERM_DYN 0x004488CC;
   Theme [0x073642; 0xdc322f; 0x859900; 0xb58900; 0x268bd2; 0xd33682; 0x2aa198; 0xeee8d5;
          0x002b36; 0xcb4b16; 0x586e75; 0x657b83; 0x839496; 0x6c71c4; 0x93a1a1; 0xfdf6e3]
         0x839496 0x002b36 0x839496 0x073642;
   Theme [0x073642; 0xdc322f; 0x859900; 0xb58900; 0x268bd2; 0xd33682; 0x2aa198; 0xeee8d5;
          0x002b36; 0xcb4b16; 0x586e75; 0x657b83; 0x839496; 0x6c71c4; 0x93a1a1; 0xfdf6e3]
         0x657b83 0xfdf6e3 0x657b83 0xeee8d5;
   Theme [0x282828; 0xcc241d; 0x98971a; 0xd79921; 0x458588; 0xb16286; 0x689d6a; 0xa89984;
          0x928374; 0xfb4934; 0xb8bb26; 0xfabd2f; 0x83a598; 0xd3869b; 0x8ec07c; 0xebdbb2]
         0xebdbb2 0x282828 0xebdbb2 0x504945;
   Theme [0x3b4252; 0xbf616a; 0xa3be8c; 0xebcb8b; 0x81a1c1; 0xb48ead; 0x88c0d0; 0xe5e9f0;
          0x4c566a; 0xbf616a; 0xa3be8c; 0xebcb8b; 0x81a1c1; 0xb48ead; 0x8fbcbb; 0xeceff4]
         0xd8dee9 0x2e3440 0xd8dee9 0x434c5e;
   Theme [0x21222c; 0xff5555; 0x50fa7b; 0xf1fa8c; 0xbd93f9; 0xff79c6; 0x8be9fd; 0xf8f8f2;
          0x6272a4; 0xff6e6e; 0x69ff94; 0xffffa5; 0xd6acff; 0xff92df; 0xa4ffff; 0xffffff]
         0xf8f8f2 0x282a36 0xf8f8f2 0x44475a].

(** The xterm palette [init_ansi_256] builds. *)
Definition ansi_256 : list Z :=
  ansi_colors ++
  ((λ i, rgb (i / 36 * 51) (i / 6 mod 6 * 51) (i mod 6 * 51)) <$> seqZ 0 216) ++
  ((λ i, rgb (8 + i * 10) (8 + i * 10) (8 + i * 10)) <$> seqZ 0 24).

(** A stored colour as RGB; the theme's own colours and the desktop's
    [C_TERM_FG], [C_TERM_BG] are arguments. *)
Definition term_resolve (th : glyph_term_theme_t) (desk_fg desk_bg : Z) (v : Z) (is_bg : bool) : option Z :=
  if v =? TERM_DEFAULT_COLOR then
    Some (if is_bg then (if th_bg th =? GLYPH_TERM_DYN then desk_bg else th_bg th)
          else (if th_fg th =? GLYPH_TERM_DYN then desk_fg else th_fg th))
  else if Z.land v 0xFF000000 =? 0x01000000 then
    let idx := Z.land v 255 in
    if idx <? 16 then th_ansi th !! Z.to_nat idx else ansi_256 !! Z.to_nat idx
  else Some (Z.land v 0x00FFFFFF).
