(* ===== verification/GlyphTermSafety.v ===== *)
(** Safety and behaviour of the terminal emulator of [GlyphTerm].

    [good] is the invariant of a running terminal: the grid has the size the
    geometry says, the cursor and the saved cursor are inside the screen, the
    parser's arrays are within bounds.  Feeding bytes preserves it as long as
    no control-sequence parameter comes close to the range of [int]; the two
    hypotheses this needs are sharp, as the counterexamples at the end show. *)

From S2P Require Import Prelude CString GlyphTerm.
Local Open Scope Z_scope.

(** * Definitions *)

(** Everything but the cursor. *)
Record shaped (t : glyph_term_t) : Prop := {
  sh_cols : 0 < cols (geo t) <= 2 ^ 16;
  sh_rows : 0 < rows (geo t) <= 2 ^ 16;
  sh_back : 0 <= scrollback (geo t);
  sh_total : total_rows (geo t) = rows (geo t) + scrollback (geo t);
  sh_grid : Z.of_nat (length (grid t)) = total_rows (geo t) * cols (geo t);
  sh_top : 0 <= scroll_top t < total_rows (geo t);
  sh_offset : 0 <= scroll_offset t <= GLYPH_TERM_SCROLLBACK;
  sh_params : length (esc_params (esc t)) = 8%nat;
  sh_nparam : (esc_nparam (esc t) <= 8)%nat;
  sh_osc : (length (osc_buf (esc t)) <= OSC_MAX)%nat
}.

Definition inside (t : glyph_term_t) (x y : Z) : Prop :=
  0 <= x < cols (geo t) /\ 0 <= y < rows (geo t).

Record good (t : glyph_term_t) : Prop := {
  gd_shaped : shaped t;
  gd_cursor : inside t (cx t) (cy t);
  gd_saved : inside t (saved_cx t) (saved_cy t)
}.

(** No parameter is close enough to [INT_MAX] for a cursor movement to wrap. *)
Definition PARAM_LIMIT : Z := 2 ^ 31 - 2 ^ 17.

Definition small_params (t : glyph_term_t) : bool :=
  forallb (λ p, p <=? PARAM_LIMIT) (esc_params (esc t)).

(** ... at every point of the run over [data]. *)
Fixpoint tame (t : glyph_term_t) (data : bytes) : bool :=
  match data with
  | [] => true
  | ch :: data =>
      small_params t &&
      match feed_byte t ch with Some t' => tame t' data | None => true end
  end.

(** What the text operations leave alone. *)
Definition keeps (t t' : glyph_term_t) : Prop :=
  geo t' = geo t /\ saved_cx t' = saved_cx t /\ saved_cy t' = saved_cy t /\
  esc t' = esc t /\ tpen t' = tpen t /\ scroll_offset t' = scroll_offset t.

(** The cell a visible position shows to the output path. *)
Definition screen (t : glyph_term_t) (r c : Z) : option glyph_term_cell_t :=
  grid_cell_abs t r c ≫= λ i, grid t !! i.

(** * Grid accesses *)

Section Grid.

Lemma ring_range x total : 0 < total -> 0 <= ring x total < total.
Proof.
  intros Ht. unfold ring. pose proof (Z.rem_bound_abs x total ltac:(lia)) as H.
  destruct (Z.rem x total <? 0) eqn:E; boolify; lia.
Qed.

Lemma ring_small x total : 0 <= x < total -> ring x total = x.
Proof.
  intros H. unfold ring. rewrite Z.rem_small by done.
  destruct (x <? 0) eqn:E; boolify; lia.
Qed.

Lemma ring_mod x total : 0 < total -> ring x total = x mod total.
Proof.
  intros Ht. unfold ring. destruct (decide (0 <= x)) as [Hx|Hx].
  - rewrite Z.rem_mod_nonneg by lia. pose proof (Z.mod_pos_bound x total Ht).
    destruct (x mod total <? 0) eqn:E; boolify; lia.
  - pose proof (Z.rem_opp_l (- x) total ltac:(lia)) as H. rewrite Z.opp_involutive in H.
    rewrite H, Z.rem_mod_nonneg by lia.
    pose proof (Z.mod_pos_bound (- x) total Ht). destruct (decide ((- x) mod total = 0)) as [E|E].
    + rewrite E. assert (x mod total = 0) as ->; [|done].
      apply Z.mod_opp_l_z in E; [|lia]. by rewrite Z.opp_involutive in E.
    + pose proof (Z.mod_opp_l_nz (- x) total ltac:(lia) E) as H'. rewrite Z.opp_involutive in H'.
      destruct (_ <? 0) eqn:El; boolify; lia.
Qed.

Lemma grid_index_ok t rr c :
  shaped t -> 0 <= rr < total_rows (geo t) -> 0 <= c < cols (geo t) ->
  grid_index t rr c = Some (Z.to_nat (rr * cols (geo t) + c)) /\
  (Z.to_nat (rr * cols (geo t) + c) < length (grid t))%nat.
Proof.
  intros Hs Hr Hc. unfold grid_index. pose proof (sh_grid _ Hs) as Hg.
  assert (0 <= rr * cols (geo t) + c < Z.of_nat (length (grid t))) by nia.
  rewrite (proj2 (Z.leb_le _ _)), (proj2 (Z.ltb_lt _ _)) by lia. split; [done|lia].
Qed.

Lemma total_pos t : shaped t -> 0 < total_rows (geo t).
Proof. intros []. lia. Qed.

Lemma cell_abs_ok t r c :
  shaped t -> 0 <= c < cols (geo t) ->
  exists i, grid_cell_abs t r c = Some i /\ (i < length (grid t))%nat.
Proof.
  intros Hs Hc. unfold grid_cell_abs.
  destruct (grid_index_ok t (ring (scroll_top t + r) (total_rows (geo t))) c) as [E Hi];
    [done|by apply ring_range, total_pos|done|]. eauto.
Qed.

Lemma cell_view_ok t r c :
  shaped t -> 0 <= c < cols (geo t) ->
  exists i, grid_cell t r c = Some i /\ (i < length (grid t))%nat.
Proof.
  intros Hs Hc. unfold grid_cell.
  destruct (grid_index_ok t (ring (scroll_top t - scroll_offset t + r) (total_rows (geo t))) c)
    as [E Hi]; [done|by apply ring_range, total_pos|done|]. eauto.
Qed.

Lemma shaped_set_grid t g : shaped t -> length g = length (grid t) -> shaped (set_grid t g).
Proof. intros [] Hl. constructor; cbn; try done. by rewrite Hl. Qed.

Lemma put_abs_ok t r c x :
  shaped t -> 0 <= c < cols (geo t) ->
  exists g, put_abs t r c x = Some (set_grid t g) /\ length g = length (grid t).
Proof.
  intros Hs Hc. destruct (cell_abs_ok t r c Hs Hc) as (i & E & _). unfold put_abs. rewrite E.
  cbn. eexists. split; [done|]. apply length_insert.
Qed.

Lemma blank_abs_ok t ps :
  shaped t -> Forall (λ p, 0 <= p.2 < cols (geo t)) ps ->
  exists g, blank_abs t ps = Some (set_grid t g) /\ length g = length (grid t).
Proof.
  intros Hs Hps. revert t Hs Hps. induction ps as [|[r c] ps IH]; intros t Hs Hps.
  - exists (grid t). split; [|done]. cbn. by destruct t.
  - apply Forall_cons in Hps as [Hc Hps]. destruct (put_abs_ok t r c blank Hs Hc) as (g & E & Hl).
    cbn [blank_abs]. rewrite E. cbn.
    destruct (IH (set_grid t g) (shaped_set_grid t g Hs Hl) Hps) as (g' & E' & Hl').
    exists g'. rewrite E'. split; [done|]. by rewrite Hl'.
Qed.

Lemma blank_raw_ok g l :
  Forall (λ i, 0 <= i < Z.of_nat (length g)) l ->
  exists g', blank_raw g l = Some g' /\ length g' = length g.
Proof.
  revert g. induction l as [|i l IH]; intros g H; [by exists g|].
  apply Forall_cons in H as [Hi H]. cbn [blank_raw].
  rewrite (proj2 (Z.leb_le _ _)), (proj2 (Z.ltb_lt _ _)) by lia. cbn [andb].
  destruct (IH (<[Z.to_nat i := blank]> g)) as (g' & E & Hl); [by rewrite length_insert|].
  exists g'. by rewrite Hl, length_insert.
Qed.

Lemma range_spec a b x : x ∈ range a b <-> a <= x < b.
Proof. unfold range. rewrite elem_of_seqZ. lia. Qed.

Lemma rows_cells_ok t r0 r1 : Forall (λ p, 0 <= p.2 < cols (geo t)) (rows_cells t r0 r1).
Proof.
  apply Forall_forall. intros [r c] H. unfold rows_cells in H.
  apply list_elem_of_bind in H as (r' & H & _). apply list_elem_of_fmap in H as (c' & [= -> ->] & H).
  by apply range_spec in H.
Qed.

Lemma line_cells_ok t row c0 : 0 <= c0 -> Forall (λ p, 0 <= p.2 < cols (geo t)) (line_cells row c0 (cols (geo t))).
Proof.
  intros H0. apply Forall_forall. intros [r c] H. unfold line_cells in H.
  apply list_elem_of_fmap in H as (c' & [= -> ->] & H). apply range_spec in H. cbn. lia.
Qed.

End Grid.

(** * Text *)

Section Text.

Lemma keeps_refl t : keeps t t.
Proof. by unfold keeps. Qed.

Lemma keeps_trans t1 t2 t3 : keeps t1 t2 -> keeps t2 t3 -> keeps t1 t3.
Proof. unfold keeps. intros (?&?&?&?&?&?) (?&?&?&?&?&?). split_and!; congruence. Qed.

Lemma shaped_cursor t x y : shaped t -> shaped (set_cursor t x y).
Proof. by intros []. Qed.

Lemma rem_small_range x total : 0 <= x -> 0 < total -> 0 <= Z.rem x total < total.
Proof. intros. rewrite Z.rem_mod_nonneg by lia. by apply Z.mod_pos_bound. Qed.

Lemma term_scroll_ok t :
  shaped t ->
  exists t', term_scroll t = Some t' /\ shaped t' /\ keeps t t' /\ cx t' = cx t /\
    cy t' = rows (geo t) - 1.
Proof.
  intros Hs. pose proof (total_pos t Hs) as Ht. pose proof Hs as [Hc Hr Hb Htot Hg Htop Hoff Hp Hnp Ho].
  unfold term_scroll. cbn zeta.
  pose proof (rem_small_range (scroll_top t + 1) (total_rows (geo t)) ltac:(lia) Ht) as Ht1.
  set (top := Z.rem (scroll_top t + 1) (total_rows (geo t))) in *.
  pose proof (rem_small_range (top + rows (geo t) - 1) (total_rows (geo t)) ltac:(lia) Ht) as Hb1.
  destruct (blank_raw_ok (grid t)
    ((λ i, Z.rem (top + rows (geo t) - 1) (total_rows (geo t)) * cols (geo t) + i) <$> range 0 (cols (geo t))))
    as (g' & E & Hl).
  { apply Forall_forall. intros i Hi. apply list_elem_of_fmap in Hi as (c & -> & Hi).
    apply range_spec in Hi. rewrite Hg. nia. }
  rewrite E. cbn. eexists. split; [done|].
  split; [constructor; cbn; try done; by rewrite Hl|]. split_and!; done.
Qed.

Lemma line_feed_ok t :
  shaped t -> 0 <= cx t < cols (geo t) -> 0 <= cy t < rows (geo t) ->
  exists t', line_feed t = Some t' /\ shaped t' /\ keeps t t' /\ cx t' = cx t /\
    inside t' (cx t') (cy t').
Proof.
  intros Hs Hx Hy. unfold line_feed. cbn zeta.
  pose proof (sh_rows _ Hs). rewrite i32_small by (unfold in_i32; lia).
  cbn [geo set_cursor cy].
  destruct (rows (geo t) <=? cy t + 1) eqn:E; boolify.
  - destruct (term_scroll_ok (set_cursor t (cx t) (cy t + 1))) as (t' & Et & Hs' & Hk & Ex & Ey).
    { by apply shaped_cursor. }
    exists t'. split; [done|]. split; [done|]. cbn in *. split; [done|]. split; [done|].
    unfold inside. destruct Hk as (-> & _). cbn. rewrite Ex, Ey. lia.
  - eexists. split; [done|]. split; [by apply shaped_cursor|].
    split; [by unfold keeps|]. split; [done|]. unfold inside. cbn. lia.
Qed.

Lemma put_char_ok t c :
  shaped t -> inside t (cx t) (cy t) ->
  exists t', put_char t c = Some t' /\ shaped t' /\ keeps t t' /\ inside t' (cx t') (cy t').
Proof.
  intros Hs [Hx Hy]. unfold put_char.
  destruct (put_abs_ok t (cy t) (cx t) c Hs Hx) as (g & E & Hl). rewrite E. cbn.
  pose proof (shaped_set_grid t g Hs Hl) as Hs'. pose proof (sh_cols _ Hs).
  rewrite i32_small by (unfold in_i32; lia).
  destruct (cols (geo t) <=? cx t + 1) eqn:El; boolify.
  - destruct (line_feed_ok (set_cursor (set_grid t g) 0 (cy t))) as (t' & Et & Hst & Hk & Ex & Hin);
      [by apply shaped_cursor|cbn; lia..|].
    exists t'. split; [done|]. split; [done|]. split; [done|]. done.
  - eexists. split; [done|]. split; [by apply shaped_cursor|]. split; [done|].
    unfold inside. cbn. lia.
Qed.

Lemma tab_stop x : 0 <= x < 2 ^ 30 -> 0 <= Z.land (i32 (x + 8)) (Z.lnot 7).
Proof. intros H. rewrite i32_small by (unfold in_i32; lia). apply Z.land_nonneg. lia. Qed.

Lemma text_byte_ok t ch :
  shaped t -> inside t (cx t) (cy t) ->
  exists t', text_byte t ch = Some t' /\ shaped t' /\ inside t' (cx t') (cy t') /\
    geo t' = geo t /\ saved_cx t' = saved_cx t /\ saved_cy t' = saved_cy t /\
    esc_params (esc t') = esc_params (esc t).
Proof.
  intros Hs [Hx Hy]. pose proof (sh_cols _ Hs) as Hc. unfold text_byte.
  assert (Hk : forall t' o, o = Some t' -> shaped t' -> keeps t t' -> inside t' (cx t') (cy t') ->
    exists t', o = Some t' /\ shaped t' /\ inside t' (cx t') (cy t') /\
      geo t' = geo t /\ saved_cx t' = saved_cx t /\ saved_cy t' = saved_cy t /\
      esc_params (esc t') = esc_params (esc t)).
  { intros t' o -> Hst (?&?&?&He&?) Hin. exists t'. rewrite He. auto 10. }
  assert (Hcur : forall x y, inside t x y -> exists t', Some (set_cursor t x y) = Some t' /\
      shaped t' /\ inside t' (cx t') (cy t') /\
      geo t' = geo t /\ saved_cx t' = saved_cx t /\ saved_cy t' = saved_cy t /\
      esc_params (esc t') = esc_params (esc t)).
  { intros x y Hin. eexists. split; [done|]. split; [by apply shaped_cursor|]. done. }
  destruct (ch =? ESC).
  { eexists. split; [done|]. split; [by destruct Hs|]. done. }
  destruct (ch =? LF).
  { destruct (line_feed_ok t Hs Hx Hy) as (t' & E & ? & ? & ? & ?). by eapply Hk. }
  destruct (ch =? CR); [apply Hcur; unfold inside; lia|].
  destruct ((ch =? 8) || (ch =? 127)).
  { destruct (0 <? cx t) eqn:E; boolify; [apply Hcur; unfold inside; lia|].
    by apply (Hk t); [|..|apply keeps_refl|]. }
  destruct (ch =? TAB).
  { cbn [geo set_cursor cx cy]. pose proof (tab_stop (cx t) ltac:(lia)).
    destruct (cols (geo t) <=? _) eqn:E; boolify.
    - destruct (line_feed_ok (set_cursor (set_cursor t (Z.land (i32 (cx t + 8)) (Z.lnot 7)) (cy t)) 0 (cy t)))
        as (t' & Et & ? & ? & ? & ?); [by do 2 apply shaped_cursor|cbn; lia..|]. by eapply Hk.
    - apply Hcur. unfold inside. lia. }
  destruct (printable ch).
  - destruct (put_char_ok t (Cell ch (cur_fg (tpen t)) (cur_bg (tpen t)) (cur_attrs (tpen t))))
      as (t' & E & ? & ? & ?); [done|done|]. by eapply Hk.
  - by apply (Hk t); [|..|apply keeps_refl|].
Qed.

End Text.

(** * Control sequences *)

Section Control.

Lemma good_cursor t x y : good t -> inside t x y -> good (set_cursor t x y).
Proof. intros [H1 H2 H3] H. constructor; [by apply shaped_cursor|done|done]. Qed.

Lemma good_grid t g : good t -> length g = length (grid t) -> good (set_grid t g).
Proof. intros [H1 H2 H3] H. constructor; [by apply shaped_set_grid|done|done]. Qed.

Lemma good_esc t e :
  good t -> length (esc_params e) = 8%nat -> (esc_nparam e <= 8)%nat ->
  (length (osc_buf e) <= OSC_MAX)%nat -> good (set_esc t e).
Proof. intros [[] H2 H3] ? ? ?. constructor; [constructor; cbn; done|done|done]. Qed.

Lemma good_conf t c : good t -> good (set_conf t c).
Proof. intros [[] H2 H3]. constructor; [constructor; cbn; done|done|done]. Qed.

Lemma good_pen t p : good t -> good (set_pen t p).
Proof. intros [[] H2 H3]. constructor; [constructor; cbn; done|done|done]. Qed.

Lemma good_admin t a c : good t -> good (set_admin t a c).
Proof. intros [[] H2 H3]. constructor; [constructor; cbn; done|done|done]. Qed.

Lemma good_saved t : good t -> good (save_cursor t).
Proof. intros [[] H2 H3]. constructor; [constructor; cbn; done|done|done]. Qed.

Lemma clear_screen_ok t :
  good t -> exists g, clear_screen t = Some (set_grid t g) /\ length g = length (grid t).
Proof. intros [Hs _ _]. apply blank_abs_ok; [done|apply rows_cells_ok]. Qed.

Lemma param_bound t i d :
  small_params t = true -> d <= PARAM_LIMIT -> param (esc t) i d <= PARAM_LIMIT.
Proof.
  intros H Hd. unfold param. destruct (i <? _)%nat; [|done].
  unfold small_params in H. rewrite forallb_forall in H.
  destruct (nth_in_or_default i (esc_params (esc t)) 0) as [Hin|E]; [|rewrite E; vm_compute; done].
  apply Z.leb_le. by apply H.
Qed.

Ltac csi_cursor :=
  eexists; split; [reflexivity|]; split; [apply good_cursor; [done|]; unfold inside; repeat case_if; boolify; lia|done].

Lemma csi_move_ok t ch :
  good t -> small_params t = true -> ch ∈ [65; 66; 67; 68; 72; 102] ->
  exists t', term_csi t ch = Some t' /\ good t' /\ geo t' = geo t /\ esc t' = esc t.
Proof.
  intros Hg Hp Hch. pose proof (gd_cursor _ Hg) as [Hx Hy].
  pose proof (sh_cols _ (gd_shaped _ Hg)). pose proof (sh_rows _ (gd_shaped _ Hg)).
  pose proof (param_bound t 0 0 Hp ltac:(done)). pose proof (param_bound t 0 1 Hp ltac:(done)).
  pose proof (param_bound t 1 1 Hp ltac:(done)). unfold PARAM_LIMIT in *.
  set (m := if param (esc t) 0 0 <? 1 then 1 else param (esc t) 0 0).
  assert (Hm : 1 <= m <= 2 ^ 31 - 2 ^ 17) by (unfold m; case_if; boolify; lia).
  rewrite !elem_of_cons, elem_of_nil in Hch. unfold term_csi. cbn zeta. fold m.
  destruct Hch as [Hch|[Hch|[Hch|[Hch|[Hch|[Hch|[]]]]]]]; rewrite Hch; cbn [Z.eqb Pos.eqb orb];
    rewrite ?i32_small by (unfold in_i32; lia); csi_cursor.
Qed.

Lemma csi_other_ok t ch :
  good t -> ch ∉ [65; 66; 67; 68; 72; 102] ->
  exists t', term_csi t ch = Some t' /\ good t' /\ geo t' = geo t /\ esc t' = esc t.
Proof.
  intros Hg Hch. pose proof (gd_cursor _ Hg) as [Hx Hy]. pose proof (gd_shaped _ Hg) as Hs.
  rewrite !not_elem_of_cons in Hch. destruct Hch as (?&?&?&?&?&?&_).
  unfold term_csi. cbn zeta.
  do 4 rewrite (proj2 (Z.eqb_neq ch _)) by done.
  rewrite (proj2 (Z.eqb_neq ch 72)), (proj2 (Z.eqb_neq ch 102)) by done. cbn [orb].
  assert (Hid : exists t', Some t = Some t' /\ good t' /\ geo t' = geo t /\ esc t' = esc t) by eauto.
  assert (Hblank : forall ps, Forall (λ p, 0 <= p.2 < cols (geo t)) ps ->
    exists t', blank_abs t ps = Some t' /\ good t' /\ geo t' = geo t /\ esc t' = esc t).
  { intros ps Hps. destruct (blank_abs_ok t ps Hs Hps) as (g & -> & Hl).
    exists (set_grid t g). split; [done|]. split; [by apply good_grid|done]. }
  destruct (ch =? 74).
  { destruct (_ =? 2).
    - destruct (clear_screen_ok t Hg) as (g & -> & Hl). cbn. eexists. split; [done|].
      split; [|done]. apply good_cursor; [by apply good_grid|]. unfold inside. cbn. lia.
    - destruct (_ =? 0); [|done]. apply Hblank. apply Forall_app.
      split; [apply line_cells_ok; lia|apply rows_cells_ok]. }
  destruct (ch =? 75).
  { destruct (_ =? 0); [apply Hblank, line_cells_ok; lia|].
    destruct (_ =? 2); [apply Hblank, line_cells_ok; lia|done]. }
  destruct (ch =? 109).
  { eexists. split; [done|]. split; [by apply good_pen|done]. }
  assert (Hvis : forall v, exists t', Some (set_visible t v) = Some t' /\ good t' /\ geo t' = geo t /\ esc t' = esc t).
  { intros v. eexists. split; [done|]. split; [by apply good_conf|done]. }
  destruct (ch =? 104).
  { destruct (esc_private _); [|done]. destruct (_ =? 25); [apply Hvis|].
    destruct (_ =? 1049); [|done]. pose proof (good_saved t Hg) as Hg'.
    destruct (clear_screen_ok _ Hg') as (g & -> & Hl). cbn. eexists. split; [done|].
    split; [|done]. apply good_cursor; [by apply good_grid|]. unfold inside. cbn. lia. }
  destruct (ch =? 108); [|done].
  destruct (esc_private _); [|done]. destruct (_ =? 25); [apply Hvis|].
  destruct (_ =? 1049); [|done].
  destruct (clear_screen_ok t Hg) as (g & -> & Hl). cbn. eexists. split; [done|].
  split; [|done]. apply good_cursor; [by apply good_grid|]. apply (gd_saved _ Hg).
Qed.

Lemma term_csi_ok t ch :
  good t -> small_params t = true ->
  exists t', term_csi t ch = Some t' /\ good t' /\ geo t' = geo t /\ esc t' = esc t.
Proof.
  intros Hg Hp. destruct (decide (ch ∈ [65; 66; 67; 68; 72; 102])).
  - by apply csi_move_ok.
  - by apply csi_other_ok.
Qed.

Lemma csi_byte_ok t ch :
  good t -> small_params t = true -> exists t', csi_byte t ch = Some t' /\ good t' /\ geo t' = geo t.
Proof.
  intros Hg Hp. unfold csi_byte. destruct (esc t) as [st ps np priv osc] eqn:Ee.
  pose proof (gd_shaped _ Hg) as Hs. pose proof (sh_params _ Hs) as H8.
  pose proof (sh_nparam _ Hs) as Hn. pose proof (sh_osc _ Hs) as Ho. rewrite Ee in *. cbn in H8, Hn, Ho.
  assert (Hset : forall e, length (esc_params e) = 8%nat -> (esc_nparam e <= 8)%nat -> osc_buf e = osc ->
    exists t', Some (set_esc t e) = Some t' /\ good t' /\ geo t' = geo t).
  { intros e H1 H2 H3. eexists. split; [done|]. split; [|done]. apply good_esc; try done. by rewrite H3. }
  destruct (_ && _); [by apply Hset|].
  destruct (is_digit_byte ch).
  { apply Hset; cbn; [by rewrite length_insert| |done]. destruct np; cbn; lia. }
  destruct (ch =? 59).
  { destruct (np <? 8)%nat eqn:En; [|eauto]. apply Nat.ltb_lt in En.
    apply Hset; cbn; [by rewrite length_insert|lia|done]. }
  destruct (_ && _); [|by apply Hset].
  destruct (term_csi_ok t ch Hg Hp) as (t' & -> & Hg' & Hgeo & Hesc). cbn.
  eexists. split; [done|]. split; [|done]. rewrite Hesc, Ee. cbn. by apply good_esc.
Qed.

Lemma feed_byte_ok t ch :
  good t -> small_params t = true -> exists t', feed_byte t ch = Some t' /\ good t' /\ geo t' = geo t.
Proof.
  intros Hg Hp. pose proof (csi_byte_ok t ch Hg Hp) as Hcsi.
  unfold feed_byte. destruct (esc t) as [st ps np priv osc] eqn:Ee.
  pose proof (gd_shaped _ Hg) as Hs. pose proof (sh_params _ Hs) as H8.
  pose proof (sh_nparam _ Hs) as Hn. pose proof (sh_osc _ Hs) as Ho. rewrite Ee in *. cbn in H8, Hn, Ho.
  assert (Hto : forall t' st', good t' -> esc t' = esc t -> good (esc_to t' st')).
  { intros t' st' Hg' He. unfold esc_to. rewrite He, Ee. by apply good_esc. }
  assert (Hosc : good (term_osc t) /\ esc (term_osc t) = esc t /\ geo (term_osc t) = geo t).
  { unfold term_osc. repeat case_if; (split; [|done]); try done; by apply good_admin. }
  destruct Hosc as (Hg1 & He1 & Hgeo1).
  destruct (st =? 1).
  { eexists. split; [done|]. repeat case_if.
    - split; [|done]. apply good_esc; cbn; [done|by rewrite !length_insert|lia|done].
    - split; [|done]. apply good_esc; cbn; [done..|lia].
    - split; [by apply Hto|done]. }
  destruct (st =? 3).
  { eexists. split; [done|]. repeat case_if; try (split; [by apply Hto|done]); [|done].
    split; [|done]. apply Nat.ltb_lt in Heqb1. apply good_esc; cbn; [done..|].
    rewrite length_app. cbn. lia. }
  destruct (st =? 4).
  { eexists. split; [done|]. case_if; (split; [by apply Hto|done]). }
  destruct (st =? 2); [done|].
  destruct Hg as [_ Hc Hsv]. destruct (text_byte_ok t ch Hs Hc) as (t' & E & Hs' & Hc' & Hgeo & Ex & Ey & _).
  exists t'. split; [done|]. split; [|done]. constructor; [done..|].
  unfold inside in *. by rewrite Ex, Ey, Hgeo.
Qed.

Lemma feed_bytes_ok data t :
  good t -> tame t data = true ->
  exists t', feed_bytes t data = Some t' /\ good t' /\ geo t' = geo t.
Proof.
  revert t. induction data as [|ch data IH]; intros t Hg Ht; [by exists t|].
  cbn [tame] in Ht. apply andb_prop in Ht as [Hp Ht].
  destruct (feed_byte_ok t ch Hg Hp) as (t1 & E & Hg1 & Hgeo1). rewrite E in Ht.
  destruct (IH t1 Hg1 Ht) as (t2 & E2 & Hg2 & Hgeo2).
  exists t2. cbn [feed_bytes]. rewrite E. cbn. split; [done|]. split; [done|congruence].
Qed.

End Control.

(** * What scrolling and printing show *)

Section View.

Lemma screen_lookup t r c :
  shaped t -> 0 <= c < cols (geo t) ->
  screen t r c =
  grid t !! Z.to_nat ((scroll_top t + r) mod total_rows (geo t) * cols (geo t) + c).
Proof.
  intros Hs Hc. unfold screen, grid_cell_abs.
  pose proof (total_pos t Hs). rewrite ring_mod by done.
  destruct (grid_index_ok t ((scroll_top t + r) mod total_rows (geo t)) c Hs) as [E _];
    [by apply Z.mod_pos_bound|done|]. by rewrite E.
Qed.

Lemma blank_raw_lookup g l g' j :
  Forall (λ i, 0 <= i < Z.of_nat (length g)) l -> blank_raw g l = Some g' ->
  g' !! j = if decide (Z.of_nat j ∈ l) then Some blank else g !! j.
Proof.
  revert g. induction l as [|i l IH]; intros g Hl E.
  - injection E as <-. by rewrite decide_False by set_solver.
  - apply Forall_cons in Hl as [Hi Hl]. cbn [blank_raw] in E.
    rewrite (proj2 (Z.leb_le _ _)), (proj2 (Z.ltb_lt _ _)) in E by lia. cbn [andb] in E.
    rewrite (IH (<[Z.to_nat i := blank]> g)); [|by rewrite length_insert|done].
    destruct (decide (Z.of_nat j ∈ l)) as [Hj|Hj]; [by rewrite decide_True by set_solver|].
    destruct (decide (i = Z.of_nat j)) as [->|Hne].
    + rewrite decide_True by set_solver. rewrite Nat2Z.id. apply list_lookup_insert_eq. lia.
    + rewrite decide_False by set_solver. apply list_lookup_insert_ne. lia.
Qed.

(** Two cells of the grid are the same exactly when row and column are. *)
Lemma index_inj n r c r' c' :
  0 <= c < n -> 0 <= c' < n -> r * n + c = r' * n + c' -> r = r' /\ c = c'.
Proof. intros. assert (r = r') by nia. nia. Qed.

Lemma mod_shift_ne x a b total :
  0 <= a < b -> b < total -> (x + a) mod total ≠ (x + b) mod total.
Proof.
  intros Ha Hb E.
  pose proof (Z.div_mod (x + a) total ltac:(lia)). pose proof (Z.div_mod (x + b) total ltac:(lia)).
  pose proof (Z.mod_pos_bound (x + a) total ltac:(lia)).
  set (k := (x + b) / total - (x + a) / total).
  assert (b - a = total * k) by (unfold k; lia).
  assert (k <= 0 \/ 1 <= k) as [Hk|Hk] by lia; nia.
Qed.

Lemma term_scroll_fields t t' :
  shaped t -> term_scroll t = Some t' ->
  geo t' = geo t /\ scroll_top t' = (scroll_top t + 1) mod total_rows (geo t) /\
  blank_raw (grid t) ((λ i, (scroll_top t' + rows (geo t) - 1) mod total_rows (geo t) * cols (geo t) + i)
                        <$> range 0 (cols (geo t))) = Some (grid t').
Proof.
  intros Hs E. pose proof Hs as [Hc Hr Hb Htot Hg Htop _ _ _ _]. unfold term_scroll in E.
  cbn zeta in E. rewrite (Z.rem_mod_nonneg (scroll_top t + 1)) in E by lia.
  pose proof (Z.mod_pos_bound (scroll_top t + 1) (total_rows (geo t)) ltac:(lia)).
  rewrite Z.rem_mod_nonneg in E by lia.
  destruct (blank_raw _ _) as [g'|] eqn:Eb; [|done]. injection E as <-. cbn. done.
Qed.

Lemma term_scroll_view t t' :
  shaped t -> term_scroll t = Some t' ->
  (forall r c, 0 <= r < rows (geo t) - 1 -> 0 <= c < cols (geo t) -> screen t' r c = screen t (r + 1) c) /\
  (forall c, 0 <= c < cols (geo t) -> screen t' (rows (geo t) - 1) c = Some blank).
Proof.
  intros Hs E. destruct (term_scroll_ok t Hs) as (t2 & E2 & Hs' & Hk & _).
  rewrite E in E2. injection E2 as <-.
  destruct (term_scroll_fields t t' Hs E) as (Hgeo & Htop & Hb). clear Hk.
  pose proof Hs as [Hc Hr Hsb Htot Hg Ht _ _ _ _].
  set (T := total_rows (geo t)) in *. set (n := cols (geo t)) in *.
  assert (Hrow : forall r, (scroll_top t' + r) mod T = (scroll_top t + 1 + r) mod T).
  { intros r. rewrite Htop. by rewrite Z.add_mod_idemp_l by lia. }
  assert (HF : Forall (λ i, 0 <= i < Z.of_nat (length (grid t)))
     ((λ i, (scroll_top t' + rows (geo t) - 1) mod T * n + i) <$> range 0 n)).
  { apply Forall_forall. intros i Hi. apply list_elem_of_fmap in Hi as (c & -> & Hi).
    apply range_spec in Hi. rewrite Hg.
    pose proof (Z.mod_pos_bound (scroll_top t' + rows (geo t) - 1) T ltac:(lia)). nia. }
  assert (Hlook : forall r c, 0 <= c < n -> screen t' r c =
    if decide ((scroll_top t + 1 + r) mod T = (scroll_top t + rows (geo t)) mod T) then Some blank
    else grid t !! Z.to_nat ((scroll_top t + 1 + r) mod T * n + c)).
  { intros r c Hcc. rewrite screen_lookup by (done || (rewrite Hgeo; done)).
    rewrite Hgeo. fold T n. rewrite Hrow.
    rewrite (blank_raw_lookup _ _ _ _ HF Hb).
    replace (scroll_top t' + rows (geo t) - 1) with (scroll_top t' + (rows (geo t) - 1)) by lia.
    rewrite Hrow. replace (scroll_top t + 1 + (rows (geo t) - 1)) with (scroll_top t + rows (geo t)) by lia.
    pose proof (Z.mod_pos_bound (scroll_top t + 1 + r) T ltac:(lia)).
    pose proof (Z.mod_pos_bound (scroll_top t + rows (geo t)) T ltac:(lia)).
    rewrite Z2Nat.id by nia. apply decide_ext. split.
    - intros Hin. apply list_elem_of_fmap in Hin as (c' & Ec & Hc'). apply range_spec in Hc'.
      by eapply index_inj in Ec as [? _].
    - intros ->. apply list_elem_of_fmap. exists c. split; [done|]. by apply range_spec. }
  split.
  - intros r c Hrr Hcc. rewrite Hlook by done. rewrite screen_lookup by done. fold T n.
    rewrite decide_False.
    + by replace (scroll_top t + 1 + r) with (scroll_top t + (r + 1)) by lia.
    + replace (scroll_top t + 1 + r) with (scroll_top t + (1 + r)) by lia.
      destruct (decide (rows (geo t) = T)) as [HE|].
      * rewrite HE. intros Hm. replace (scroll_top t + T) with (scroll_top t + 1 * T) in Hm by lia.
        rewrite Z.mod_add in Hm by lia. replace (scroll_top t) with (scroll_top t + 0) in Hm at 2 by lia.
        symmetry in Hm. revert Hm. apply mod_shift_ne; lia.
      * apply mod_shift_ne; lia.
  - intros c Hcc. rewrite Hlook by done. rewrite decide_True; [done|].
    by replace (scroll_top t + 1 + (rows (geo t) - 1)) with (scroll_top t + rows (geo t)) by lia.
Qed.

(** Storing a cell changes that position of the screen and no other. *)
Lemma put_abs_view t r c x :
  shaped t -> 0 <= r < rows (geo t) -> 0 <= c < cols (geo t) ->
  exists t', put_abs t r c x = Some t' /\ shaped t' /\ (exists g, t' = set_grid t g) /\
    forall r' c', 0 <= r' < rows (geo t) -> 0 <= c' < cols (geo t) ->
    screen t' r' c' = if decide (r' = r /\ c' = c) then Some x else screen t r' c'.
Proof.
  intros Hs Hr Hc. pose proof Hs as [Hcs Hrs Hsb Htot Hg Ht _ _ _ _].
  unfold put_abs, grid_cell_abs. rewrite ring_mod by lia.
  set (T := total_rows (geo t)) in *.
  pose proof (Z.mod_pos_bound (scroll_top t + r) T ltac:(lia)) as Hm.
  destruct (grid_index_ok t ((scroll_top t + r) mod T) c Hs Hm Hc) as [E Hi]. rewrite E. cbn.
  set (i := Z.to_nat _) in *. eexists. split; [done|].
  assert (Hs' : shaped (set_grid t (<[i := x]> (grid t)))).
  { apply shaped_set_grid; [done|]. apply length_insert. }
  split; [done|]. split; [by eexists|]. intros r' c' Hr' Hc'.
  rewrite !screen_lookup by done. cbn. fold T.
  pose proof (Z.mod_pos_bound (scroll_top t + r') T ltac:(lia)) as Hm'.
  destruct (decide (r' = r /\ c' = c)) as [[-> ->]|Hne].
  - by apply list_lookup_insert_eq.
  - apply list_lookup_insert_ne. unfold i. intros Ei. apply Hne.
    apply Z2Nat.inj in Ei; [|nia..]. apply index_inj in Ei as [Er ->]; [|done..].
    split; [|done]. destruct (decide (r < r')).
    + exfalso. revert Er. apply mod_shift_ne; lia.
    + destruct (decide (r' < r)); [|lia]. exfalso. symmetry in Er. revert Er. apply mod_shift_ne; lia.
Qed.

End View.

(** * Theorems *)

(** C24: feeding any bytes to a well-formed terminal is memory safe and keeps it
    well formed: every grid access is inside the allocation, the cursor stays on
    the screen and the parser's arrays within bounds, as long as no parameter of
    a control sequence comes within 2^17 of the range of [int]. *)
Theorem glyph_term_feed_safe t data :
  good t -> tame (snap t) data = true ->
  exists t', glyph_term_feed t data = Some t' /\ good t' /\ geo t' = geo t.
Proof.
  intros Hg Ht. assert (Hs : good (snap t) /\ geo (snap t) = geo t).
  { unfold snap. case_if; [|done]. split; [|done]. destruct Hg as [[] H2 H3].
    constructor; [constructor; cbn; (done || lia)|done|done]. }
  destruct Hs as [Hs <-]. by apply feed_bytes_ok.
Qed.

(** scrolling moves the screen up by one line and blanks the bottom line. *)
Theorem term_scroll_screen t :
  shaped t ->
  exists t', term_scroll t = Some t' /\ shaped t' /\
    (forall r c, 0 <= r < rows (geo t) - 1 -> 0 <= c < cols (geo t) -> screen t' r c = screen t (r + 1) c) /\
    (forall c, 0 <= c < cols (geo t) -> screen t' (rows (geo t) - 1) c = Some blank).
Proof.
  intros Hs. destruct (term_scroll_ok t Hs) as (t' & E & Hs' & _). exists t'.
  split; [done|]. split; [done|]. by apply term_scroll_view.
Qed.

(** a printable byte in the normal state is stored at the cursor with the
    current colours and nothing else on the screen changes, when the cursor is
    not in the last column; then the cursor advances by one. *)
Theorem feed_printable t ch :
  good t -> esc_state (esc t) = 0 -> printable ch = true -> cx t + 1 < cols (geo t) ->
  exists t', glyph_term_feed t [ch] = Some t' /\ cx t' = cx t + 1 /\ cy t' = cy t /\
    forall r c, 0 <= r < rows (geo t) -> 0 <= c < cols (geo t) ->
    screen t' r c = if decide (r = cy t /\ c = cx t)
                    then Some (Cell ch (cur_fg (tpen t)) (cur_bg (tpen t)) (cur_attrs (tpen t)))
                    else screen t r c.
Proof.
  intros Hg He Hp Hx. unfold glyph_term_feed. cbn [feed_bytes].
  assert (Hs : shaped (snap t) /\ (forall r c, screen (snap t) r c = screen t r c) /\
    geo (snap t) = geo t /\ cx (snap t) = cx t /\ cy (snap t) = cy t /\ esc (snap t) = esc t /\
    tpen (snap t) = tpen t).
  { unfold snap. destruct Hg as [Hs _ _]. case_if; [|done]. split; [|done].
    destruct Hs. constructor; cbn; (done || lia). }
  destruct Hs as (Hs & Hscr & Hgeo & Ex & Ey & Ee & Ep).
  pose proof (gd_cursor _ Hg) as [Hcx Hcy]. pose proof (sh_cols _ (gd_shaped _ Hg)).
  unfold feed_byte. rewrite Ee. destruct (esc t) as [st ps np priv osc]. cbn in He. subst st. cbn [Z.eqb].
  unfold text_byte. pose proof Hp as Hp'. unfold printable in Hp'. boolify.
  rewrite (proj2 (Z.eqb_neq ch ESC)), (proj2 (Z.eqb_neq ch LF)), (proj2 (Z.eqb_neq ch CR)),
    (proj2 (Z.eqb_neq ch 8)), (proj2 (Z.eqb_neq ch 127)), (proj2 (Z.eqb_neq ch TAB))
    by (unfold ESC, LF, CR, TAB; lia). cbn [orb]. rewrite Hp.
  unfold put_char. rewrite Ex, Ey, Ep.
  destruct (put_abs_view (snap t) (cy t) (cx t) (Cell ch (cur_fg (tpen t)) (cur_bg (tpen t)) (cur_attrs (tpen t))))
    as (t1 & E1 & Hs1 & (g & ->) & Hv); [done|by rewrite Hgeo..|].
  rewrite E1. cbn [mbind option_bind]. cbn. rewrite Ex, Ey, Hgeo, i32_small by (unfold in_i32; lia).
  rewrite (proj2 (Z.leb_gt _ _)) by lia. cbn.
  eexists. split; [done|]. split; [done|]. split; [done|].
  intros r c Hr Hc. rewrite <- Hscr. rewrite <- Hgeo in Hr, Hc. exact (Hv r c Hr Hc).
Qed.

(** ** Selection *)

(** Columns of row [r] inside a normalised selection. *)
Definition sel_c0 (sr sc r : Z) : Z := if r =? sr then sc else 0.
Definition sel_c1 (t : glyph_term_t) (er ec r : Z) : Z := if r =? er then ec else cols (geo t) - 1.

(** The text of the rows of a selection, in order. *)
Definition sel_lines (t : glyph_term_t) (sr sc er ec : Z) (rs : list Z) : list (option bytes) :=
  (λ r, row_chars t r (sel_c0 sr sc r) (sel_c1 t er ec r)) <$> rs.

Definition sel_inside (t : glyph_term_t) : Prop :=
  sel_active (sel t) = true ->
  inside t (sel_start_col (sel t)) (sel_start_row (sel t)) /\
  inside t (sel_end_col (sel t)) (sel_end_row (sel t)).

Section Selecting.

Lemma char_at_ok t r c : shaped t -> 0 <= c < cols (geo t) -> is_Some (char_at t r c).
Proof.
  intros Hs Hc. unfold char_at. destruct (cell_view_ok t r c Hs Hc) as (i & -> & Hi). cbn.
  destruct (lookup_lt_is_Some_2 (grid t) i Hi) as [x ->]. by eexists.
Qed.

Lemma row_chars_ok t r c0 c1 :
  shaped t -> 0 <= c0 -> c1 < cols (geo t) -> is_Some (row_chars t r c0 c1).
Proof.
  intros Hs H0 H1. unfold row_chars.
  assert (H : is_Some (mapM (char_at t r) (range c0 (c1 + 1)))).
  { apply mapM_is_Some_2. apply Forall_forall. intros c Hc. apply range_spec in Hc.
    apply char_at_ok; [done|lia]. }
  destruct H as [s ->]. by eexists.
Qed.

(** The copy loop produces a prefix of the lines joined by newlines. *)
Lemma copy_rows_spec t sr sc er ec n a room :
  a + Z.of_nat n = er + 1 ->
  (forall r, a <= r <= er -> is_Some (row_chars t r (sel_c0 sr sc r) (sel_c1 t er ec r))) ->
  exists ls, sel_lines t sr sc er ec (seqZ a (Z.of_nat n)) = Some <$> ls /\
    copy_rows t sr sc er ec (seqZ a (Z.of_nat n)) room = Some (take room (join LF ls)).
Proof.
  revert a room. induction n as [|n IH]; intros a room Hn Hok.
  { exists []. cbn. split; [done|]. by rewrite take_nil. }
  rewrite Nat2Z.inj_succ, seqZ_cons by lia. rewrite Z.pred_succ.
  destruct (Hok a ltac:(lia)) as [s Es].
  destruct room as [|room].
  { destruct (IH (Z.succ a) O) as (ls & El & _); [lia|intros; apply Hok; lia|].
    exists (s :: ls). unfold sel_lines in *. rewrite !fmap_cons, Es, El. done. }
  cbn [copy_rows]. fold (sel_c0 sr sc a) (sel_c1 t er ec a). rewrite Es. cbn [mbind option_bind].
  set (room' := (S room - length (take (S room) s))%nat).
  destruct (decide (a = er)) as [->|Hne].
  - assert (n = 0%nat) as -> by lia. exists [s]. unfold sel_lines. cbn. rewrite Es.
    rewrite Z.ltb_irrefl. change (seqZ (Z.succ er) (Z.of_nat 0)) with (@nil Z). split; [done|].
    cbn. by rewrite app_nil_r.
  - rewrite (proj2 (Z.ltb_lt a er)) by lia. cbn [andb].
    assert (Hroom : room' = (S room - length s)%nat).
    { unfold room'. rewrite length_take. lia. }
    destruct (IH (Z.succ a) (room' - length (if (0 <? room')%nat then [LF] else []))%nat)
      as (ls & El & Ec); [lia|intros; apply Hok; lia|].
    exists (s :: ls). split; [unfold sel_lines in *; by rewrite !fmap_cons, Es, El|].
    rewrite Ec. cbn [mbind option_bind]. f_equal.
    assert (Hls : exists x l, ls = x :: l).
    { destruct n as [|n]; [lia|]. destruct ls; [|eauto]. unfold sel_lines in El.
      rewrite Nat2Z.inj_succ, seqZ_cons in El by lia. done. }
    destruct Hls as (x & l & ->). change (join LF (s :: x :: l)) with (s ++ LF :: join LF (x :: l)).
    rewrite take_app. f_equal. rewrite <- Hroom.
    destruct room' as [|k]; cbn; [done|]. by rewrite Nat.sub_0_r.
Qed.

Lemma normalize_inside t :
  sel_inside t -> sel_active (sel t) = true ->
  let '(sr, sc, er, ec) := sel_normalize (sel t) in
  inside t sc sr /\ inside t ec er /\ (sr < er \/ (sr = er /\ sc <= ec)).
Proof.
  intros H Ha. destruct (H Ha) as [H1 H2]. unfold sel_normalize. destruct (sel t) as [? ? sc sr ec er].
  cbn in H1, H2. case_if.
  - split; [done|]. split; [done|]. apply orb_prop in Heqb as [?|?]; boolify; lia.
  - split; [done|]. split; [done|]. apply orb_false_elim in Heqb as [E1 E2].
    apply andb_false_iff in E2 as [?|?]; boolify; lia.
Qed.

Lemma cell_at_inside t x y : shaped t -> inside t (cell_at t x y).1 (cell_at t x y).2.
Proof.
  intros Hs. pose proof (sh_cols _ Hs). pose proof (sh_rows _ Hs). unfold cell_at, inside. cbn.
  repeat case_if; boolify; lia.
Qed.

End Selecting.

(** copying a selection reads only cells of the grid and never writes past
    the caller's buffer: it returns the selected rows, trailing spaces stripped
    and joined by newlines, cut to [max - 1] bytes. *)
Theorem copy_selection_spec t max :
  shaped t -> sel_inside t -> sel_active (sel t) = true -> 0 < max ->
  let '(sr, sc, er, ec) := sel_normalize (sel t) in
  exists ls out, sel_lines t sr sc er ec (range sr (er + 1)) = Some <$> ls /\
    glyph_term_copy_selection t max = Some out /\ out = take (Z.to_nat (max - 1)) (join LF ls) /\
    Z.of_nat (length out) <= max - 1.
Proof.
  intros Hs Hi Ha Hm. pose proof (normalize_inside t Hi Ha) as Hn.
  unfold glyph_term_copy_selection. rewrite Ha, (proj2 (Z.leb_gt max 0)) by lia. cbn [negb orb].
  destruct (sel_normalize (sel t)) as [[[sr sc] er] ec]. destruct Hn as ([Hc1 Hr1] & [Hc2 Hr2] & Ho).
  destruct (copy_rows_spec t sr sc er ec (Z.to_nat (er + 1 - sr)) sr (Z.to_nat (max - 1)))
    as (ls & El & Ec); [lia| |].
  { intros r Hr. apply row_chars_ok; [done| |]; unfold sel_c0, sel_c1; case_if; lia. }
  unfold range. rewrite Z2Nat.id in El, Ec by lia. exists ls, (take (Z.to_nat (max - 1)) (join LF ls)).
  split; [done|]. split; [done|]. split; [done|]. rewrite length_take. lia.
Qed.

(** a selection made with the mouse never points outside the screen: the
    three mouse handlers preserve [sel_inside] whatever the pixel coordinates. *)
Theorem mouse_selection_inside t x y :
  shaped t -> sel_inside t ->
  sel_inside (glyph_term_mouse_down t x y).2 /\ sel_inside (glyph_term_mouse_move t x y).2 /\
  sel_inside (glyph_term_mouse_up t x y).2.
Proof.
  intros Hs Hi. pose proof (cell_at_inside t x y Hs) as Hc.
  assert (Hsb : forall t' y', sel_inside t' -> sel_inside (sb_set_from_y t' y')).
  { intros t' y' H. unfold sb_set_from_y. cbn zeta. case_if; [done|]. exact H. }
  unfold glyph_term_mouse_down, glyph_term_mouse_move, glyph_term_mouse_up. cbn zeta.
  destruct (cell_at t x y) as [col row]. cbn in Hc. split_and!.
  - case_if; [by apply Hsb|]. intros _. done.
  - case_if; [by apply Hsb|]. case_if; [done|]. case_if; [|done]. intros _. cbn. boolify.
    split; [|done]. by apply Hi.
  - case_if; [done|]. case_if; [done|]. boolify. intros _. cbn. split; [|done]. by apply Hi.
Qed.

(** ** Resizing and creation *)

(** The cell the user sees at a visible position. *)
Definition view (t : glyph_term_t) (r c : Z) : option glyph_term_cell_t :=
  grid_cell t r c ≫= λ i, grid t !! i.

Section Resizing.

Lemma view_lookup t r c :
  shaped t -> 0 <= c < cols (geo t) ->
  view t r c = grid t !! Z.to_nat (ring (scroll_top t - scroll_offset t + r) (total_rows (geo t)) * cols (geo t) + c).
Proof.
  intros Hs Hc. unfold view, grid_cell. pose proof (total_pos t Hs).
  destruct (grid_index_ok t (ring (scroll_top t - scroll_offset t + r) (total_rows (geo t))) c Hs) as [E _];
    [by apply ring_range|done|]. by rewrite E.
Qed.

Lemma old_row_ok t r cc :
  shaped t -> 0 <= cc <= cols (geo t) ->
  exists row, old_row t r cc = Some row /\ length row = Z.to_nat cc /\
    forall c, 0 <= c < cc -> row !! Z.to_nat c = view t r c.
Proof.
  intros Hs Hc. unfold old_row. pose proof (total_pos t Hs) as Ht.
  pose proof (ring_range (scroll_top t - scroll_offset t + r) _ Ht) as Hr.
  set (rr := ring _ _) in *. pose proof (sh_cols _ Hs). pose proof (sh_grid _ Hs) as Hg.
  assert (E0 : grid_cell t r 0 = Some (Z.to_nat (rr * cols (geo t)))).
  { unfold grid_cell. fold rr. destruct (grid_index_ok t rr 0 Hs Hr) as [-> _]; [lia|].
    by rewrite Z.add_0_r. }
  rewrite E0. cbn.
  assert (Hf : forall c, 0 <= c < cc -> grid t !! (Z.to_nat (rr * cols (geo t)) + Z.to_nat c)%nat = view t r c).
  { intros c Hcc. rewrite view_lookup by (done || lia). fold rr.
    rewrite Z2Nat.inj_add by nia. done. }
  assert (Hsome : is_Some (mapM (λ c, grid t !! (Z.to_nat (rr * cols (geo t)) + Z.to_nat c)%nat) (range 0 cc))).
  { apply mapM_is_Some_2, Forall_forall. intros c Hcc. apply range_spec in Hcc.
    apply lookup_lt_is_Some_2. nia. }
  destruct Hsome as [row Erow]. exists row. split; [done|].
  apply mapM_Some in Erow. split.
  - rewrite <- (Forall2_length _ _ _ Erow). unfold range. rewrite length_seqZ. lia.
  - intros c Hcc. rewrite <- Hf by done.
    assert (Hin : range 0 cc !! Z.to_nat c = Some c).
    { unfold range. rewrite lookup_seqZ_lt by lia. f_equal. lia. }
    destruct (Forall2_lookup_l _ _ _ _ _ Erow Hin) as (x & -> & Hx). by rewrite Hx.
Qed.

Lemma copy_old_ok t ncols cc n a ng :
  shaped t -> 0 < cc <= ncols -> cc <= cols (geo t) -> 0 <= a ->
  (a + Z.of_nat n) * ncols <= Z.of_nat (length ng) ->
  exists g, copy_old t ncols cc (seqZ a (Z.of_nat n)) ng = Some g /\ length g = length ng /\
    forall r c, 0 <= r -> 0 <= c < ncols -> r * ncols + c < Z.of_nat (length ng) ->
    g !! Z.to_nat (r * ncols + c) =
      if decide (a <= r < a + Z.of_nat n /\ c < cc) then view t r c else ng !! Z.to_nat (r * ncols + c).
Proof.
  intros Hs Hcc Hcc' Ha. revert a ng Ha. induction n as [|n IH]; intros a ng Ha Hl.
  { exists ng. split; [done|]. split; [done|]. intros r c Hr Hc Hi. rewrite decide_False by lia. done. }
  rewrite Nat2Z.inj_succ, seqZ_cons, Z.pred_succ by lia. cbn [copy_old].
  destruct (old_row_ok t a cc Hs ltac:(lia)) as (row & -> & Hlen & Hrow). cbn.
  destruct (IH (Z.succ a) (list_inserts (Z.to_nat (a * ncols)) row ng)) as (g & -> & Hg & Hlook);
    [lia|rewrite length_inserts; lia|].
  exists g. rewrite length_inserts in Hg, Hlook. split; [done|]. split; [done|].
  intros r c Hr Hc Hi. rewrite Hlook by done.
  destruct (decide (Z.succ a <= r < Z.succ a + Z.of_nat n /\ c < cc)) as [Hd|Hd].
  { by rewrite decide_True by lia. }
  destruct (decide (r = a /\ c < cc)) as [[-> Hc']|Hd'].
  - assert (0 <= a * ncols) by nia.
    rewrite decide_True by lia. rewrite list_lookup_inserts by (rewrite ?Hlen; lia).
    rewrite <- Hrow by lia. f_equal. lia.
  - rewrite decide_False by lia. assert (0 <= a * ncols) by nia.
    assert (Hout : r * ncols + c < a * ncols \/ a * ncols + cc <= r * ncols + c).
    { destruct (decide (r = a)) as [->|]; [lia|].
      assert (r + 1 <= a \/ a + 1 <= r) as [?|?] by lia; nia. }
    assert (0 <= r * ncols) by nia. destruct Hout; [apply list_lookup_inserts_lt; lia|].
    apply list_lookup_inserts_ge. rewrite Hlen. lia.
Qed.

End Resizing.

(** resizing keeps a terminal's shape and brings the cursor onto the new
    screen; the part of the view that fits is preserved cell by cell and the
    rest of the new screen is blank. *)
Theorem glyph_term_resize_spec t ncols nrows cw ch fpx :
  shaped t -> inside t (cx t) (cy t) -> 0 < ncols <= 2 ^ 16 -> 0 < nrows <= 2 ^ 16 ->
  exists t', glyph_term_resize t ncols nrows cw ch fpx true = Some (0, t') /\ shaped t' /\
    cols (geo t') = ncols /\ rows (geo t') = nrows /\ inside t' (cx t') (cy t') /\
    forall r c, 0 <= r < nrows -> 0 <= c < ncols ->
    screen t' r c = if decide (r < rows (geo t) /\ c < cols (geo t)) then view t r c else Some blank.
Proof.
  intros Hs [Hx Hy] Hc Hr. pose proof Hs as [Hcs Hrs Hsb Htot Hg Ht _ Hp Hnp Ho].
  unfold glyph_term_resize.
  rewrite (proj2 (Z.ltb_ge ncols 1)), (proj2 (Z.ltb_ge nrows 1)) by lia. cbn [orb negb].
  set (cr := if nrows <? rows (geo t) then nrows else rows (geo t)).
  set (cc := if ncols <? cols (geo t) then ncols else cols (geo t)).
  assert (Hcr : cr = Z.min nrows (rows (geo t))) by (unfold cr; case_if; boolify; lia).
  assert (Hcc : cc = Z.min ncols (cols (geo t))) by (unfold cc; case_if; boolify; lia).
  set (total := nrows + scrollback (geo t)).
  destruct (copy_old_ok t ncols cc (Z.to_nat cr) 0 (repeat blank (Z.to_nat (total * ncols))))
    as (g & Eg & Hl & Hlook); [done|lia..| |].
  { rewrite repeat_length. nia. }
  rewrite Z2Nat.id in Eg, Hlook by lia. rewrite repeat_length in Hl, Hlook.
  unfold range. rewrite Z.sub_0_r, Eg. cbn. eexists. split; [done|].
  match goal with |- shaped ?x /\ _ => set (t' := x) end.
  assert (Hs' : shaped t').
  { constructor; cbn; try done; try lia. rewrite Hl. nia. }
  split; [done|]. split; [done|]. split; [done|]. split.
  { unfold inside. cbn. split; case_if; boolify; lia. }
  intros r c Hrr Hcc'. rewrite screen_lookup by done. cbn.
  rewrite !Z.add_0_l, Z.mod_small by lia. rewrite Hlook by nia. rewrite Z.add_0_l.
  destruct (decide (0 <= r < cr /\ c < cc)); [by rewrite decide_True by lia|].
  rewrite decide_False by lia. apply lookup_repeat. nia.
Qed.

Lemma create_good ncols nrows cw ch px py :
  0 < ncols <= 2 ^ 16 -> 0 < nrows <= 2 ^ 16 -> good (glyph_term_create ncols nrows cw ch px py).
Proof.
  intros Hc Hr. unfold glyph_term_create, GLYPH_TERM_SCROLLBACK. constructor.
  - constructor; unfold GLYPH_TERM_SCROLLBACK, OSC_MAX;
      cbn [geo cols rows scrollback total_rows grid scroll_top scroll_offset esc esc_params esc_nparam osc_buf];
      rewrite ?repeat_length; cbn [length]; nia.
  - unfold inside. cbn. lia.
  - unfold inside. cbn. lia.
Qed.

(** a fresh terminal satisfies the invariant. *)
Theorem glyph_term_create_good ncols nrows cw ch px py :
  0 < ncols <= 2 ^ 16 -> 0 < nrows <= 2 ^ 16 -> good (glyph_term_create ncols nrows cw ch px py).
Proof. apply create_good. Qed.

(** ** Where the hypotheses are needed *)

(** the parameter bound is needed.  From a fresh terminal, the bytes
    "ab", ESC, "[2147483647C", "x" make the cursor column wrap to a negative
    value, and storing the "x" accesses the grid out of bounds. *)
Theorem csi_overflow_out_of_bounds :
  good (glyph_term_create 80 24 8 16 0 0) /\
  glyph_term_feed (glyph_term_create 80 24 8 16 0 0) (B "ab" ++ ESC :: B "[2147483647Cx") = None.
Proof.
  split; [apply create_good; lia|vm_compute; reflexivity].
Qed.

(** the saved cursor is not clamped by a resize.  Saving the cursor with
    ESC[?1049h, shrinking the window, and leaving the alternate screen with
    ESC[?1049l puts the cursor outside the screen; the next character is then
    stored out of bounds. *)
Theorem resize_saved_cursor_out_of_bounds :
  exists t1 t2, glyph_term_feed (glyph_term_create 3 1 8 16 0 0) (B "ab" ++ ESC :: B "[?1049h") = Some t1 /\
    good t1 /\ glyph_term_resize t1 1 1 8 16 16 true = Some (0, t2) /\
    glyph_term_feed t2 (repeat LF 499 ++ ESC :: B "[?1049lx") = None.
Proof.
  assert (Hg0 : good (glyph_term_create 3 1 8 16 0 0)) by (apply create_good; lia).
  destruct (feed_bytes_ok (B "ab" ++ ESC :: B "[?1049h") _ Hg0) as (t1 & E1 & Hg & _);
    [vm_compute; reflexivity|].
  assert (Ht1 : t1 = default (glyph_term_create 3 1 8 16 0 0)
    (glyph_term_feed (glyph_term_create 3 1 8 16 0 0) (B "ab" ++ ESC :: B "[?1049h"))).
  { unfold glyph_term_feed. change (snap (glyph_term_create 3 1 8 16 0 0)) with (glyph_term_create 3 1 8 16 0 0).
    by rewrite E1. }
  exists t1. destruct (glyph_term_resize t1 1 1 8 16 16 true) as [[r t2]|] eqn:E2.
  2:{ rewrite Ht1 in E2. vm_compute in E2. discriminate E2. }
  exists t2. split; [exact E1|]. split; [done|]. split.
  - f_equal. f_equal. rewrite Ht1 in E2. vm_compute in E2. congruence.
  - assert (Ht2 : Some (r, t2) = glyph_term_resize (default (glyph_term_create 3 1 8 16 0 0)
      (glyph_term_feed (glyph_term_create 3 1 8 16 0 0) (B "ab" ++ ESC :: B "[?1049h"))) 1 1 8 16 16 true)
      by congruence.
    assert (t2 = default t1 (snd <$> Some (r, t2))) as -> by done. rewrite Ht2, Ht1. vm_compute. reflexivity.
Qed.

(** an omitted first parameter is lost.  "ESC[;5H" should move the cursor to
    row 1, column 5 (an omitted parameter means 1), but the ';' only opens the
    first parameter, so the 5 is read as the row. *)
Theorem csi_empty_parameter_lost :
  let t := glyph_term_create 80 24 8 16 0 0 in
  let t' := glyph_term_feed t (ESC :: B "[;5H") in
  cx <$> t' = Some 0 /\ cy <$> t' = Some 4.
Proof. vm_compute. done. Qed.

(** * Witnesses *)

Definition term0 : glyph_term_t := glyph_term_create 10 4 8 16 2 2.

(** A terminal with the text "hi" selected. *)
Definition term_sel : glyph_term_t :=
  set_sel (default term0 (glyph_term_feed term0 (B "hi"))) (Selection true true 3 0 0 0).

Lemma term0_good : good term0.
Proof. apply create_good; lia. Qed.

Lemma glyph_term_feed_safe_witness :
  exists t', glyph_term_feed term0 (B "a" ++ ESC :: B "[31mb" ++ ESC :: B "[2;3Hc") = Some t' /\ good t'.
Proof.
  destruct (glyph_term_feed_safe term0 (B "a" ++ ESC :: B "[31mb" ++ ESC :: B "[2;3Hc") term0_good)
    as (t' & E & Hg & _); [vm_compute; reflexivity|].
  exists t'. split; [exact E|exact Hg].
Defined.

Lemma term_scroll_screen_witness :
  exists t', term_scroll term0 = Some t' /\ screen t' 3 0 = Some blank.
Proof.
  destruct (term_scroll_screen term0 (gd_shaped _ term0_good)) as (t' & E & _ & _ & H).
  exists t'. split; [exact E|]. apply (H 0). split; [lia|reflexivity].
Defined.

Lemma feed_printable_witness :
  exists t', glyph_term_feed term0 [65] = Some t' /\ cx t' = 1.
Proof.
  destruct (feed_printable term0 65 term0_good eq_refl eq_refl) as (t' & E & Hx & _); [reflexivity|].
  exists t'. split; [exact E|exact Hx].
Defined.

Lemma term_sel_shaped : shaped term_sel.
Proof.
  destruct (feed_bytes_ok (B "hi") term0 term0_good) as (t' & E & [Hs _ _] & _); [vm_compute; reflexivity|].
  unfold term_sel, glyph_term_feed. change (snap term0) with term0. rewrite E. by destruct Hs.
Qed.

Lemma copy_selection_spec_witness :
  let '(sr, sc, er, ec) := sel_normalize (sel term_sel) in
  exists ls out, sel_lines term_sel sr sc er ec (range sr (er + 1)) = Some <$> ls /\
    glyph_term_copy_selection term_sel 16 = Some out /\ Z.of_nat (length out) <= 15.
Proof.
  pose proof (copy_selection_spec term_sel 16 term_sel_shaped) as H.
  assert (Hi : sel_inside term_sel).
  { assert (cols (geo term_sel) = 10 /\ rows (geo term_sel) = 4) as [Ec Er] by (vm_compute; done).
    intros _. unfold inside. rewrite Ec, Er. cbn [term_sel set_sel sel sel_start_col sel_start_row sel_end_col sel_end_row].
    lia. }
  specialize (H Hi eq_refl ltac:(lia)). cbn [sel_normalize term_sel set_sel sel] in *.
  destruct H as (ls & out & H1 & H2 & _ & H4). exists ls, out. split; [exact H1|]. split; [exact H2|exact H4].
Defined.

Lemma mouse_selection_inside_witness : sel_inside (glyph_term_mouse_down term0 (-50) 10000).2.
Proof.
  apply (mouse_selection_inside term0 (-50) 10000 (gd_shaped _ term0_good)). intros H. discriminate H.
Defined.

Lemma glyph_term_resize_spec_witness :
  exists t', glyph_term_resize term0 6 2 8 16 0 true = Some (0, t') /\ rows (geo t') = 2.
Proof.
  destruct (glyph_term_resize_spec term0 6 2 8 16 0 (gd_shaped _ term0_good) (gd_cursor _ term0_good))
    as (t' & E & _ & _ & Hr & _); [lia|lia|].
  exists t'. split; [exact E|exact Hr].
Defined.

Lemma glyph_term_create_good_witness : good (glyph_term_create 80 24 8 16 0 0).
Proof. apply glyph_term_create_good; lia. Defined.
