(* ===== verification/Gpt.v ===== *)
(** The installer's partition-table writer (src/user/lib/libinstall/gpt.c).

    A disk is a finite map from block numbers to blocks; a device says which
    block writes the kernel accepts.  Buffers are byte lists filled with
    [splice], at the offsets of the C [memcpy] calls, with 64 bit LBA
    arithmetic kept modulo 2^64.

    The theorems: the table-driven CRC-32 is the bitwise one; a successful run
    leaves a protective MBR, two headers that point at each other, carry
    correct checksums and agree on the usable range, and two copies of the
    entry array; the partitions are disjoint and inside the usable range. *)

From S2P Require Import Prelude CString.
Local Open Scope Z_scope.

(** * Definitions *)

(** ** CRC-32 *)

Definition POLY : Z := 0xEDB88320.

(** One turn of the inner loop of [crc32_init]. *)
Definition crc32_bit (c : Z) : Z :=
  Z.lxor (Z.shiftr c 1) (if Z.land c 1 =? 0 then 0 else POLY).

Definition crc32_table : list Z := (λ i, Nat.iter 8 crc32_bit i) <$> seqZ 0 256.

Definition crc32_byte (crc b : Z) : Z :=
  Z.lxor (Z.shiftr crc 8) (nth (Z.to_nat (Z.land (Z.lxor crc b) 255)) crc32_table 0).

Definition crc32_calc (data : bytes) : Z := Z.lxor (foldl crc32_byte 0xFFFFFFFF data) 0xFFFFFFFF.

(** The same checksum one bit at a time, without the table. *)
Definition crc32_reference (data : bytes) : Z :=
  Z.lxor (foldl (λ crc b, Nat.iter 8 crc32_bit (Z.lxor crc b)) 0xFFFFFFFF data) 0xFFFFFFFF.

(** ** Sectors *)

Definition zeroes (n : nat) : bytes := repeat 0 n.

Definition write_protective_mbr (disk_sectors : Z) : bytes :=
  let sz := if 0xFFFFFFFF <? u64 (disk_sectors - 1) then 0xFFFFFFFF else u32 (disk_sectors - 1) in
  let mbr := splice 446 [0; 0; 2; 0; 0xEE; 0xFF; 0xFF; 0xFF; 1; 0; 0; 0] (zeroes 512) in
  let mbr := splice 458 (le_bytes 4 sz) mbr in
  splice 510 [0x55; 0xAA] mbr.

Definition ESP_GUID : bytes :=
  [0x28; 0x73; 0x2A; 0xC1; 0x1F; 0xF8; 0xD2; 0x11; 0xBA; 0x4B; 0x00; 0xA0; 0xC9; 0x3E; 0xC9; 0x3B].
Definition AEGIS_ROOT_GUID : bytes :=
  [0x24; 0x8F; 0x61; 0xA3; 0x76; 0x0C; 0x3D; 0x4B; 0x00; 0x01; 0x00; 0x00; 0x00; 0x00; 0x00; 0x00].

Definition ESP_ALIGN_BYTES : Z := 1024 * 1024.
Definition ESP_SIZE_BYTES : Z := 8 * 1024 * 1024.

(** The LBA arithmetic at the top of [install_write_gpt], in 64 bits. *)
Record layout := Layout {
  esp_start : Z; esp_end : Z; root_start : Z; root_end : Z;
  entry_lbas : Z; last_lba : Z; first_usable : Z; last_usable : Z
}.

Definition plan (disk_blocks block_size : Z) : layout :=
  let esp_start := ESP_ALIGN_BYTES / block_size in
  let esp_lbas := ESP_SIZE_BYTES / block_size in
  let esp_end := u64 (esp_start + esp_lbas - 1) in
  let root_start := u64 (esp_end + 1) in
  let entry_lbas := (128 * 128 + block_size - 1) / block_size in
  let last_lba := u64 (disk_blocks - 1) in
  let last_usable := u64 (last_lba - entry_lbas - 1) in
  Layout esp_start esp_end root_start last_usable entry_lbas last_lba (2 + entry_lbas) last_usable.

(** [sizeof(entries)] *)
Definition ENTRY_BYTES : nat := 128 * 128.

(** The partition entry array. *)
Definition gpt_entries (l : layout) : bytes :=
  let e := zeroes ENTRY_BYTES in
  let e := splice 0 ESP_GUID e in
  let e := splice 16 [1; 2; 3; 4] e in
  let e := splice 32 (le_bytes 8 (esp_start l)) e in
  let e := splice 40 (le_bytes 8 (esp_end l)) e in
  let e := splice 128 AEGIS_ROOT_GUID e in
  let e := splice 144 [5; 6; 7; 8] e in
  let e := splice 160 (le_bytes 8 (root_start l)) e in
  splice 168 (le_bytes 8 (root_end l)) e.

(** A header before its checksum is filled in. *)
Definition gpt_header_raw (l : layout) (my_lba alt_lba entry_lba entry_crc : Z) : bytes :=
  let s := zeroes 512 in
  let s := splice 0 (B "EFI PART") s in
  let s := splice 8 (le_bytes 4 0x00010000) s in
  let s := splice 12 (le_bytes 4 92) s in
  let s := splice 24 (le_bytes 8 my_lba) s in
  let s := splice 32 (le_bytes 8 alt_lba) s in
  let s := splice 40 (le_bytes 8 (first_usable l)) s in
  let s := splice 48 (le_bytes 8 (last_usable l)) s in
  let s := splice 56 [0xAE; 0x61; 0x15; 0x00] s in
  let s := splice 72 (le_bytes 8 entry_lba) s in
  let s := splice 80 (le_bytes 4 128) s in
  let s := splice 84 (le_bytes 4 128) s in
  splice 88 (le_bytes 4 entry_crc) s.

Definition gpt_header (l : layout) (my_lba alt_lba entry_lba entry_crc : Z) : bytes :=
  let s := gpt_header_raw l my_lba alt_lba entry_lba entry_crc in
  splice 16 (le_bytes 4 (crc32_calc (take 92 s))) s.

(** ** Writing *)

Abbreviation disk := (gmap Z bytes).

(** Which block writes the kernel accepts. *)
Abbreviation device := (Z -> bool).

Definition write_block (dev : device) (lba : Z) (data : bytes) (block_size : Z) (d : disk) :
    option disk :=
  let data := take (Z.to_nat block_size) data in
  if dev lba then Some (<[lba := data ++ zeroes (Z.to_nat block_size - length data)]> d) else None.

(** One of the two loops that write the entry array from LBA [dst] on: the
    disk it leaves, and whether every write was accepted. *)
Fixpoint write_entries (dev : device) (n : nat) (i dst : Z) (entries : bytes) (block_size : Z)
    (d : disk) : disk * bool :=
  match n with
  | O => (d, true)
  | S n =>
      let off := i * block_size in
      let to_copy := if Z.of_nat ENTRY_BYTES <? off + block_size then Z.of_nat ENTRY_BYTES - off else block_size in
      match write_block dev (u64 (dst + i)) (slice (Z.to_nat off) (Z.to_nat to_copy) entries) block_size d with
      | Some d => write_entries dev n (i + 1) dst entries block_size d
      | None => (d, false)
      end
  end.

Inductive gpt_error :=
  | DiskTooSmall | MbrFailed | PrimaryHeaderFailed | EntriesFailed | BackupEntriesFailed
  | BackupHeaderFailed.

(** The disk after the call, and the error reported with -1, if any. *)
Definition outcome : Type := disk * option gpt_error.

Definition block_or (o : option disk) (d : disk) (e : gpt_error) (k : disk -> outcome) : outcome :=
  match o with Some d => k d | None => (d, Some e) end.

Definition entries_or (r : disk * bool) (e : gpt_error) (k : disk -> outcome) : outcome :=
  let '(d, ok) := r in if ok : bool then k d else (d, Some e).

Definition install_write_gpt (dev : device) (disk_blocks block_size : Z) (d : disk) : outcome :=
  let l := plan disk_blocks block_size in
  if root_end l <=? root_start l then (d, Some DiskTooSmall) else
  block_or (write_block dev 0 (write_protective_mbr disk_blocks) block_size d) d MbrFailed (λ d,
  let entries := gpt_entries l in
  let entry_crc := crc32_calc entries in
  block_or (write_block dev 1 (gpt_header l 1 (last_lba l) 2 entry_crc) block_size d) d
    PrimaryHeaderFailed (λ d,
  entries_or (write_entries dev (Z.to_nat (entry_lbas l)) 0 2 entries block_size d) EntriesFailed (λ d,
  let backup := u64 (last_lba l - entry_lbas l) in
  entries_or (write_entries dev (Z.to_nat (entry_lbas l)) 0 backup entries block_size d)
    BackupEntriesFailed (λ d,
  block_or (write_block dev (last_lba l) (gpt_header l (last_lba l) 1 backup entry_crc) block_size d) d
    BackupHeaderFailed (λ d, (d, None)))))).

(** * The checksum *)

Section Crc.

Lemma land_1_odd c : (Z.land c 1 =? 0) = negb (Z.odd c).
Proof.
  pose proof (Z.land_ones c 1 ltac:(lia)) as H. change (Z.ones 1) with 1 in H.
  change (2 ^ 1) with 2 in H. rewrite H, Zmod_odd.
  by destruct (Z.odd c).
Qed.

Lemma crc32_bit_lxor a b : crc32_bit (Z.lxor a b) = Z.lxor (crc32_bit a) (crc32_bit b).
Proof.
  unfold crc32_bit. rewrite !land_1_odd, Z.shiftr_lxor.
  assert (Z.odd (Z.lxor a b) = xorb (Z.odd a) (Z.odd b)) as ->.
  { rewrite <- !Z.bit0_odd. apply Z.lxor_spec. }
  apply Z.bits_inj'. intros n Hn. rewrite !Z.lxor_spec.
  destruct (Z.odd a), (Z.odd b); cbn [negb xorb]; rewrite ?Z.bits_0;
    destruct (Z.testbit (Z.shiftr a 1) n), (Z.testbit (Z.shiftr b 1) n), (Z.testbit POLY n); done.
Qed.

Lemma crc32_bits_lxor n a b :
  Nat.iter n crc32_bit (Z.lxor a b) = Z.lxor (Nat.iter n crc32_bit a) (Nat.iter n crc32_bit b).
Proof. induction n as [|n IH]; [done|]. by rewrite !Nat.iter_succ, IH, crc32_bit_lxor. Qed.

Lemma crc32_bit_even k : crc32_bit (2 * k) = k.
Proof.
  unfold crc32_bit. rewrite land_1_odd, Z.odd_mul. cbn [Z.odd andb negb].
  rewrite Z.lxor_0_r, Z.shiftr_div_pow2 by lia. change (2 ^ 1) with 2.
  rewrite (Z.mul_comm 2), Z.div_mul; lia.
Qed.

Lemma crc32_bits_shift n k : Nat.iter n crc32_bit (Z.shiftl k (Z.of_nat n)) = k.
Proof.
  revert k. induction n as [|n IH]; intros k; [apply Z.shiftl_0_r|].
  rewrite Nat.iter_succ_r. rewrite Z.shiftl_mul_pow2 by lia.
  rewrite Nat2Z.inj_succ, Z.pow_succ_r by lia.
  replace (k * (2 * 2 ^ Z.of_nat n)) with (2 * (k * 2 ^ Z.of_nat n)) by lia.
  rewrite crc32_bit_even, <- Z.shiftl_mul_pow2 by lia. apply IH.
Qed.

Lemma split_low_byte x : x = Z.lxor (Z.shiftl (Z.shiftr x 8) 8) (Z.land x 255).
Proof.
  apply Z.bits_inj'. intros n Hn. rewrite Z.lxor_spec, Z.land_spec.
  change 255 with (Z.ones 8). destruct (decide (n < 8)).
  - rewrite Z.shiftl_spec_low, Z.ones_spec_low by lia. by rewrite andb_true_r, xorb_false_l.
  - rewrite Z.shiftl_spec, Z.shiftr_spec, Z.ones_spec_high by lia.
    rewrite andb_false_r, xorb_false_r. f_equal. lia.
Qed.

Lemma crc32_table_lookup i : 0 <= i < 256 -> nth (Z.to_nat i) crc32_table 0 = Nat.iter 8 crc32_bit i.
Proof.
  intros Hi. unfold crc32_table. rewrite nth_lookup, list_lookup_fmap.
  assert (seqZ 0 256 !! Z.to_nat i = Some i) as -> by (apply lookup_seqZ; lia). done.
Qed.

(** One table step is eight bit steps. *)
Lemma crc32_byte_bits crc b : is_byte b -> crc32_byte crc b = Nat.iter 8 crc32_bit (Z.lxor crc b).
Proof.
  intros Hb. unfold is_byte in Hb. rewrite (split_low_byte (Z.lxor crc b)), crc32_bits_lxor.
  rewrite (crc32_bits_shift 8). unfold crc32_byte.
  assert (Hr : 0 <= Z.land (Z.lxor crc b) 255 < 256).
  { change 255 with (Z.ones 8). rewrite Z.land_ones by lia. apply Z.mod_pos_bound. lia. }
  rewrite crc32_table_lookup by done. f_equal.
  rewrite Z.shiftr_lxor. rewrite (Z.shiftr_div_pow2 b) by lia. change (2 ^ 8) with 256.
  rewrite Z.div_small by lia. by rewrite Z.lxor_0_r.
Qed.

Lemma crc32_equiv data : Forall is_byte data -> crc32_calc data = crc32_reference data.
Proof.
  intros H. unfold crc32_calc, crc32_reference. f_equal. generalize 0xFFFFFFFF.
  induction H as [|b data Hb _ IH]; intros crc; [done|]. cbn [foldl].
  by rewrite crc32_byte_bits, IH.
Qed.

End Crc.

(** the table-driven checksum is the standard bit-by-bit CRC-32, on every
    byte string. *)
Theorem crc32_calc_reference data : Forall is_byte data -> crc32_calc data = crc32_reference data.
Proof. apply crc32_equiv. Qed.

(** The checksum has the published check value of CRC-32 (ISO-HDLC). *)
Theorem crc32_check_value : crc32_calc (B "123456789") = 0xCBF43926.
Proof. vm_compute. reflexivity. Qed.

(** * The layout *)

(** What firmware checks of a header at [my_lba] whose entry array is [entries]. *)
Record header_valid (h entries : bytes) (my_lba alt_lba entry_lba first last : Z) : Prop := {
  hv_signature : slice 0 8 h = B "EFI PART";
  hv_revision : le_value (slice 8 4 h) = 0x00010000;
  hv_size : le_value (slice 12 4 h) = 92;
  hv_crc : le_value (slice 16 4 h) = crc32_calc (splice 16 (zeroes 4) (take 92 h));
  hv_my_lba : le_value (slice 24 8 h) = my_lba;
  hv_alt_lba : le_value (slice 32 8 h) = alt_lba;
  hv_first : le_value (slice 40 8 h) = first;
  hv_last : le_value (slice 48 8 h) = last;
  hv_entry_lba : le_value (slice 72 8 h) = entry_lba;
  hv_count : le_value (slice 80 4 h) * le_value (slice 84 4 h) = Z.of_nat (length entries);
  hv_entry_crc : le_value (slice 88 4 h) = crc32_calc entries
}.

(** The partition [i] of an entry array: first and last LBA. *)
Definition partition (entries : bytes) (i : nat) : Z * Z :=
  (le_value (slice (128 * i + 32) 8 entries), le_value (slice (128 * i + 40) 8 entries)).

Definition block_sizes : list Z := [512; 1024; 2048; 4096].

Section LayoutFacts.

Lemma lxor_u32 a b : 0 <= a < 2 ^ 32 -> 0 <= b < 2 ^ 32 -> 0 <= Z.lxor a b < 2 ^ 32.
Proof.
  intros [Ha1 Ha2] [Hb1 Hb2]. assert (0 <= Z.lxor a b) by (apply Z.lxor_nonneg; lia).
  split; [done|].
  pose proof (proj1 (Z.bounded_iff_bits_nonneg 32 a ltac:(lia) Ha1) Ha2) as Ba.
  pose proof (proj1 (Z.bounded_iff_bits_nonneg 32 b ltac:(lia) Hb1) Hb2) as Bb.
  apply Z.bounded_iff_bits_nonneg; [lia..|]. intros l Hl. by rewrite Z.lxor_spec, Ba, Bb.
Qed.

Lemma crc32_bit_u32 c : 0 <= c < 2 ^ 32 -> 0 <= crc32_bit c < 2 ^ 32.
Proof.
  intros Hc. unfold crc32_bit. apply lxor_u32.
  - rewrite Z.shiftr_div_pow2 by lia. change (2 ^ 1) with 2.
    split; [apply Z.div_pos; lia|]. apply Z.div_lt_upper_bound; lia.
  - case_if; vm_compute; split; done.
Qed.

Lemma crc32_bits_u32 n c : 0 <= c < 2 ^ 32 -> 0 <= Nat.iter n crc32_bit c < 2 ^ 32.
Proof. intros Hc. induction n as [|n IH]; [done|]. rewrite Nat.iter_succ. by apply crc32_bit_u32. Qed.

Lemma crc32_u32 data : Forall is_byte data -> 0 <= crc32_calc data < 2 ^ 32.
Proof.
  intros H. rewrite crc32_equiv by done. unfold crc32_reference. apply lxor_u32; [|lia].
  assert (Hc : 0 <= 0xFFFFFFFF < 2 ^ 32) by lia. revert Hc. generalize 0xFFFFFFFF.
  induction H as [|b data Hb _ IH]; intros crc Hc; [done|]. cbn [foldl]. apply IH.
  apply crc32_bits_u32, lxor_u32; [done|]. unfold is_byte in Hb. lia.
Qed.

Lemma splice_bytes off bs buf :
  Forall is_byte bs -> Forall is_byte buf -> Forall is_byte (splice off bs buf).
Proof.
  intros H1 H2. unfold splice. rewrite !Forall_app. split_and!; [|done|].
  - by apply Forall_take.
  - by apply Forall_drop.
Qed.

Lemma zeroes_bytes n : Forall is_byte (zeroes n).
Proof. unfold zeroes. induction n; constructor; [unfold is_byte; lia|done]. Qed.

Lemma lit_bytes bs : forallb (λ b, (0 <=? b) && (b <? 256)) bs = true -> Forall is_byte bs.
Proof.
  intros H. apply Forall_forall. intros b Hb. rewrite forallb_forall in H.
  apply list_elem_of_In, H in Hb. boolify. unfold is_byte. lia.
Qed.

Lemma gpt_entries_bytes l : Forall is_byte (gpt_entries l).
Proof.
  unfold gpt_entries. cbn zeta.
  repeat (apply splice_bytes; [first [apply le_bytes_is_byte | by apply lit_bytes]|]).
  apply zeroes_bytes.
Qed.

Lemma header_raw_bytes l a b c d : Forall is_byte (gpt_header_raw l a b c d).
Proof.
  unfold gpt_header_raw. cbn zeta.
  repeat (apply splice_bytes; [first [apply le_bytes_is_byte | by apply lit_bytes]|]).
  apply zeroes_bytes.
Qed.

Lemma entry_bytes_val : Z.of_nat ENTRY_BYTES = 16384.
Proof. reflexivity. Qed.

Lemma gpt_entries_length l : length (gpt_entries l) = ENTRY_BYTES.
Proof.
  assert (Hn : (176 <= ENTRY_BYTES)%nat) by (pose proof entry_bytes_val; lia).
  unfold gpt_entries. cbn zeta. revert Hn. generalize ENTRY_BYTES. intros n Hn.
  assert (H : forall off bs buf, (off + length bs <= 176)%nat -> length buf = n ->
                length (splice off bs buf) = n).
  { intros off bs buf H1 H2. rewrite length_splice; lia. }
  repeat (apply H; [rewrite ?length_le_bytes; cbn [length ESP_GUID AEGIS_ROOT_GUID]; lia|]).
  apply repeat_length.
Qed.

Lemma header_fields l my alt elba crc :
  let h := gpt_header l my alt elba crc in
  slice 0 8 h = B "EFI PART" /\ slice 8 4 h = le_bytes 4 0x00010000 /\ slice 12 4 h = le_bytes 4 92 /\
  slice 16 4 h = le_bytes 4 (crc32_calc (take 92 (gpt_header_raw l my alt elba crc))) /\
  splice 16 (zeroes 4) (take 92 h) = take 92 (gpt_header_raw l my alt elba crc) /\
  slice 24 8 h = le_bytes 8 my /\ slice 32 8 h = le_bytes 8 alt /\
  slice 40 8 h = le_bytes 8 (first_usable l) /\ slice 48 8 h = le_bytes 8 (last_usable l) /\
  slice 72 8 h = le_bytes 8 elba /\ slice 80 4 h = le_bytes 4 128 /\ slice 84 4 h = le_bytes 4 128 /\
  slice 88 4 h = le_bytes 4 crc.
Proof. cbn zeta. split_and!; reflexivity. Qed.

Lemma partition_fields l :
  slice 32 8 (gpt_entries l) = le_bytes 8 (esp_start l) /\
  slice 40 8 (gpt_entries l) = le_bytes 8 (esp_end l) /\
  slice 160 8 (gpt_entries l) = le_bytes 8 (root_start l) /\
  slice 168 8 (gpt_entries l) = le_bytes 8 (root_end l).
Proof. split_and!; reflexivity. Qed.

End LayoutFacts.

(** The [n] blocks from [dst] on, put together. *)
Definition read_blocks (d : disk) (dst : Z) (n : nat) : option bytes :=
  mjoin <$> mapM (λ i, d !! (dst + i)) (seqZ 0 (Z.of_nat n)).

Lemma bs_cases bs : bs ∈ block_sizes -> bs = 512 \/ bs = 1024 \/ bs = 2048 \/ bs = 4096.
Proof. unfold block_sizes. set_solver. Qed.

Section Writing.

Context (dev : device) (bs : Z) (blocks : Z).
Hypothesis Hbs : bs ∈ block_sizes.
Hypothesis Hdev : forall lba, 0 <= lba < blocks -> dev lba = true.
Hypothesis Hblocks : blocks < 2 ^ 63.

Lemma write_block_ok lba data d :
  0 <= lba < blocks ->
  exists blk, write_block dev lba data bs d = Some (<[lba := blk]> d) /\
    (length data <= Z.to_nat bs -> take (length data) blk = data)%nat /\
    (length data = Z.to_nat bs -> blk = data).
Proof.
  intros Hl. unfold write_block. rewrite Hdev by done. eexists. split; [done|]. split.
  - intros H. rewrite (take_ge data) by done. apply take_app_length.
  - intros H. rewrite (take_ge data) by lia. rewrite H, Nat.sub_diag. apply app_nil_r.
Qed.

Lemma entry_chunk i entries :
  length entries = ENTRY_BYTES -> 0 <= i -> (i + 1) * bs <= 16384 ->
  (if Z.of_nat ENTRY_BYTES <? i * bs + bs then Z.of_nat ENTRY_BYTES - i * bs else bs) = bs /\
  length (slice (Z.to_nat (i * bs)) (Z.to_nat bs) entries) = Z.to_nat bs.
Proof.
  intros He Hi Hb. pose proof entry_bytes_val as Hv. pose proof (bs_cases bs Hbs). split.
  - case_if; boolify; lia.
  - apply length_slice. rewrite He. nia.
Qed.

Lemma write_entries_ok n i dst entries d :
  length entries = ENTRY_BYTES -> 0 <= i -> (i + Z.of_nat n) * bs <= 16384 ->
  0 <= dst -> dst + i + Z.of_nat n <= blocks ->
  exists d', write_entries dev n i dst entries bs d = (d', true) /\
    (forall j, i <= j < i + Z.of_nat n ->
       d' !! (dst + j) = Some (slice (Z.to_nat (j * bs)) (Z.to_nat bs) entries)) /\
    (forall lba, lba < dst + i \/ dst + i + Z.of_nat n <= lba -> d' !! lba = d !! lba).
Proof.
  intros He. revert i d. induction n as [|n IH]; intros i d Hi Hn Hd Hb.
  { exists d. split; [done|]. split; [lia|done]. }
  pose proof (bs_cases bs Hbs) as Hc.
  cbn [write_entries]. destruct (entry_chunk i entries He Hi) as [-> Hl]; [nia|].
  rewrite u64_small by lia.
  destruct (write_block_ok (dst + i) (slice (Z.to_nat (i * bs)) (Z.to_nat bs) entries) d)
    as (blk & -> & _ & Hblk); [lia|]. cbn. rewrite (Hblk Hl).
  destruct (IH (i + 1) (<[dst + i := slice (Z.to_nat (i * bs)) (Z.to_nat bs) entries]> d))
    as (d' & E & H1 & H2); [lia..|].
  exists d'. split; [done|]. split.
  - intros j Hj. destruct (decide (j = i)) as [->|]; [|apply H1; lia].
    rewrite H2 by lia. apply lookup_insert_eq.
  - intros lba Hlba. rewrite H2 by lia. apply lookup_insert_ne. lia.
Qed.

Lemma join_slices k e n :
  (n * k <= length e)%nat -> mjoin ((λ i, slice (i * k) k e) <$> seq 0 n) = take (n * k) e.
Proof.
  induction n as [|n IH]; intros Hl; [done|].
  rewrite seq_S, fmap_app, join_app, IH by lia. cbn. rewrite app_nil_r.
  unfold slice. rewrite <- (take_drop (n * k) (take (k + n * k) e)).
  rewrite take_take, Nat.min_l by lia. f_equal.
  by rewrite take_drop_commute, (Nat.add_comm (n * k) k).
Qed.

Lemma read_entries d dst entries n :
  length entries = ENTRY_BYTES -> Z.of_nat n * bs = 16384 ->
  (forall j, 0 <= j < Z.of_nat n ->
     d !! (dst + j) = Some (slice (Z.to_nat (j * bs)) (Z.to_nat bs) entries)) ->
  read_blocks d dst n = Some entries.
Proof.
  intros He Hn Hd. unfold read_blocks. pose proof (bs_cases bs Hbs) as Hc.
  assert (E : mapM (λ i, d !! (dst + i)) (seqZ 0 (Z.of_nat n)) =
    Some ((λ i, slice (i * Z.to_nat bs) (Z.to_nat bs) entries) <$> seq 0 n)).
  { apply mapM_Some. unfold seqZ. rewrite Nat2Z.id.
    apply Forall2_fmap_l, Forall2_fmap_r, Forall_Forall2_diag, Forall_forall.
    intros i Hi. apply elem_of_seq in Hi. unfold compose. rewrite Z.add_0_r, Hd by lia.
    by rewrite Z2Nat.inj_mul, Nat2Z.id by lia. }
  rewrite E. cbn. f_equal. pose proof entry_bytes_val as Hv.
  assert (Hnk : (n * Z.to_nat bs = ENTRY_BYTES)%nat) by (rewrite <- (Nat2Z.id n) at 1; nia).
  rewrite join_slices by lia. rewrite Hnk, <- He. by apply firstn_all.
Qed.

End Writing.

Section Plan.

Context (bs blocks : Z).
Hypothesis Hbs : bs ∈ block_sizes.
Hypothesis Hblocks : blocks < 2 ^ 63.
Hypothesis Hroom : 9 * 1024 * 1024 + 2 * 16384 < blocks * bs.

Local Notation l := (plan blocks bs).

(** Everything the arithmetic of [plan] yields, once nothing wraps around. *)
Lemma plan_facts :
  entry_lbas l * bs = 16384 /\ 0 < entry_lbas l /\ first_usable l = 2 + entry_lbas l /\
  last_lba l = blocks - 1 /\ last_usable l = blocks - entry_lbas l - 2 /\ root_end l = last_usable l /\
  esp_start l * bs = ESP_ALIGN_BYTES /\ (esp_end l - esp_start l + 1) * bs = ESP_SIZE_BYTES /\
  root_start l = esp_end l + 1 /\ first_usable l <= esp_start l <= esp_end l /\
  root_start l < root_end l /\ 0 <= last_lba l < 2 ^ 63 /\
  0 <= last_lba l - entry_lbas l.
Proof.
  destruct (bs_cases bs Hbs) as [E|[E|[E|E]]]; unfold plan, ESP_ALIGN_BYTES, ESP_SIZE_BYTES; rewrite E in *;
    cbn [entry_lbas first_usable last_lba last_usable root_end esp_start esp_end root_start];
    match goal with |- context [u64 (?a / ?b + ?c / ?b - 1)] =>
      let x := eval vm_compute in (a / b) in let y := eval vm_compute in (c / b) in
      change (a / b) with x; change (c / b) with y end;
    match goal with |- context [(128 * 128 + ?b - 1) / ?b] =>
      let x := eval vm_compute in ((128 * 128 + b - 1) / b) in
      change ((128 * 128 + b - 1) / b) with x end;
    rewrite (u64_small (blocks - 1)) by lia; rewrite !u64_small by (rewrite ?u64_small; lia);
    rewrite ?u64_small by lia; lia.
Qed.

Lemma le_value_8 v : 0 <= v < 2 ^ 64 -> le_value (le_bytes 8 v) = v.
Proof. intros. rewrite le_value_bytes. by apply Z.mod_small. Qed.

Lemma le_value_4 v : 0 <= v < 2 ^ 32 -> le_value (le_bytes 4 v) = v.
Proof. intros. rewrite le_value_bytes. by apply Z.mod_small. Qed.

Lemma gpt_header_valid my alt elba :
  0 <= my < 2 ^ 64 -> 0 <= alt < 2 ^ 64 -> 0 <= elba < 2 ^ 64 ->
  header_valid (gpt_header l my alt elba (crc32_calc (gpt_entries l))) (gpt_entries l)
    my alt elba (first_usable l) (last_usable l).
Proof.
  intros Hm Ha He. destruct plan_facts as (Hn & Hpos & Hf & Hl & Hlu & _ & _ & _ & _ & _ & _ & Hll & Hle).
  pose proof (bs_cases bs Hbs) as Hcases.
  pose proof (crc32_u32 _ (gpt_entries_bytes l)) as Hc.
  destruct (header_fields l my alt elba (crc32_calc (gpt_entries l)))
    as (F0&F8&F12&F16&Fz&F24&F32&F40&F48&F72&F80&F84&F88).
  assert (Hr : 0 <= crc32_calc (take 92 (gpt_header_raw l my alt elba (crc32_calc (gpt_entries l)))) < 2 ^ 32).
  { apply crc32_u32, Forall_take, header_raw_bytes. }
  constructor.
  - exact F0.
  - rewrite F8. reflexivity.
  - rewrite F12. reflexivity.
  - rewrite F16, Fz. exact (le_value_4 _ Hr).
  - rewrite F24. exact (le_value_8 _ Hm).
  - rewrite F32. exact (le_value_8 _ Ha).
  - rewrite F40. apply le_value_8. clear -Hn Hpos Hf Hcases. nia.
  - rewrite F48. apply le_value_8. clear -Hl Hlu Hpos Hle Hll Hn Hcases Hroom. nia.
  - rewrite F72. exact (le_value_8 _ He).
  - rewrite F80, F84, gpt_entries_length, entry_bytes_val. reflexivity.
  - rewrite F88. exact (le_value_4 _ Hc).
Qed.

End Plan.

(** C35: a successful run writes a valid GPT.  On a device that accepts writes to
    the whole disk, with room for the two partitions, [install_write_gpt]
    succeeds; the two headers then carry correct checksums, point at each
    other and at the two copies of the same entry array; the two partitions of
    that array are disjoint, inside the usable range, the first one exactly
    the size of the ESP image; and no block of the usable range was touched. *)
Theorem install_write_gpt_valid dev blocks bs d :
  bs ∈ block_sizes -> blocks < 2 ^ 63 -> 9 * 1024 * 1024 + 2 * 16384 < blocks * bs ->
  (forall lba, 0 <= lba < blocks -> dev lba = true) ->
  let n := entry_lbas (plan blocks bs) in
  exists d' h1 h2 entries,
    install_write_gpt dev blocks bs d = (d', None) /\
    take 512 <$> d' !! 0 = Some (write_protective_mbr blocks) /\
    take 512 <$> d' !! 1 = Some h1 /\ take 512 <$> d' !! (blocks - 1) = Some h2 /\
    read_blocks d' 2 (Z.to_nat n) = Some entries /\
    read_blocks d' (blocks - 1 - n) (Z.to_nat n) = Some entries /\
    header_valid h1 entries 1 (blocks - 1) 2 (2 + n) (blocks - n - 2) /\
    header_valid h2 entries (blocks - 1) 1 (blocks - 1 - n) (2 + n) (blocks - n - 2) /\
    (let '(s1, e1) := partition entries 0 in let '(s2, e2) := partition entries 1 in
     2 + n <= s1 /\ (e1 - s1 + 1) * bs = ESP_SIZE_BYTES /\ e1 < s2 < e2 /\ e2 <= blocks - n - 2) /\
    (forall lba, 2 + n <= lba < blocks - 1 - n -> d' !! lba = d !! lba).
Proof.
  intros Hbs Hb Hroom Hdev n.
  destruct (plan_facts bs blocks Hbs Hb Hroom)
    as (Hn & Hpos & Hf & Hl & Hlu & Hre & Hes & Hesz & Hrs & Hord & Hrr & Hlr & Hbk).
  fold n in Hn, Hpos, Hf, Hlu, Hbk. set (l := plan blocks bs) in *. rewrite Hl in *.
  assert (H512 : (512 <= Z.to_nat bs)%nat) by (destruct (bs_cases bs Hbs) as [|[|[|]]]; lia).
  assert (Hlen : forall my alt elba crc, length (gpt_header l my alt elba crc) = 512%nat)
    by (intros; reflexivity).
  assert (Hmlen : length (write_protective_mbr blocks) = 512%nat) by reflexivity.
  unfold install_write_gpt. fold l. rewrite Hl. fold n.
  rewrite (proj2 (Z.leb_gt (root_end l) (root_start l))) by lia.
  destruct (write_block_ok dev bs blocks Hdev 0 (write_protective_mbr blocks) d) as (b0 & -> & T0 & _); [lia|].
  cbn [block_or entries_or]. rewrite Hmlen in T0. specialize (T0 H512).
  set (entries := gpt_entries l) in *. set (crc := crc32_calc entries) in *.
  destruct (write_block_ok dev bs blocks Hdev 1 (gpt_header l 1 (blocks - 1) 2 crc) (<[0 := b0]> d))
    as (b1 & -> & T1 & _); [lia|]. cbn [block_or entries_or]. rewrite Hlen in T1. specialize (T1 H512).
  set (d1 := <[1 := b1]> (<[0 := b0]> d)).
  assert (He : length entries = ENTRY_BYTES) by apply gpt_entries_length.
  destruct (write_entries_ok dev bs blocks Hbs Hdev Hb (Z.to_nat n) 0 2 entries d1)
    as (d2 & -> & A2 & U2); [done|lia..|]. cbn [block_or entries_or].
  rewrite (u64_small (blocks - 1 - n)) by lia.
  destruct (write_entries_ok dev bs blocks Hbs Hdev Hb (Z.to_nat n) 0 (blocks - 1 - n) entries d2)
    as (d3 & -> & A3 & U3); [done|lia..|]. cbn [block_or entries_or].
  destruct (write_block_ok dev bs blocks Hdev (blocks - 1) (gpt_header l (blocks - 1) 1 (blocks - 1 - n) crc) d3)
    as (b2 & -> & T2 & _); [lia|]. rewrite Hlen in T2. specialize (T2 H512).
  set (d4 := <[blocks - 1 := b2]> d3).
  assert (U4 : forall lba, lba ≠ blocks - 1 -> d4 !! lba = d3 !! lba).
  { intros lba Hne. apply lookup_insert_ne. lia. }
  rewrite Z2Nat.id in A2, U2, A3, U3 by lia.
  exists d4, (gpt_header l 1 (blocks - 1) 2 crc), (gpt_header l (blocks - 1) 1 (blocks - 1 - n) crc), entries.
  split; [done|].
  destruct (partition_fields l) as (P1 & P2 & P3 & P4).
  split_and!.
  - rewrite U4, U3, U2 by lia. unfold d1. rewrite lookup_insert_ne, lookup_insert_eq by lia.
    exact (f_equal Some T0).
  - rewrite U4, U3, U2 by lia. unfold d1. rewrite lookup_insert_eq. exact (f_equal Some T1).
  - unfold d4. rewrite lookup_insert_eq. exact (f_equal Some T2).
  - apply (read_entries bs Hbs); [done|lia|]. intros j Hj. rewrite U4, U3 by lia. apply A2. lia.
  - apply (read_entries bs Hbs); [done|lia|]. intros j Hj. rewrite U4 by lia. apply A3. lia.
  - rewrite <- Hlu, <- Hf. apply gpt_header_valid; (done || lia).
  - rewrite <- Hlu, <- Hf. apply gpt_header_valid; (done || lia).
  - unfold partition, entries. change (128 * 0 + 32)%nat with 32%nat. change (128 * 0 + 40)%nat with 40%nat.
    change (128 * 1 + 32)%nat with 160%nat. change (128 * 1 + 40)%nat with 168%nat.
    rewrite P1, P2, P3, P4, !le_value_8 by (unfold ESP_ALIGN_BYTES, ESP_SIZE_BYTES in *; nia). lia.
  - intros lba Hlba. rewrite U4, U3, U2 by lia. unfold d1. by rewrite !lookup_insert_ne by lia.
Qed.

Lemma crc32_calc_reference_witness : crc32_calc [1; 2; 255] = crc32_reference [1; 2; 255].
Proof. apply crc32_calc_reference. repeat constructor; unfold is_byte; lia. Defined.

(** A 16 MiB disk. *)
Lemma install_write_gpt_valid_witness :
  exists d', install_write_gpt (λ _, true) 32768 512 ∅ = (d', None) /\
    forall lba, 2 + entry_lbas (plan 32768 512) <= lba < 32768 - 1 - entry_lbas (plan 32768 512) ->
      d' !! lba = None.
Proof.
  destruct (install_write_gpt_valid (λ _, true) 32768 512 ∅)
    as (d' & _ & _ & _ & E & _ & _ & _ & _ & _ & _ & _ & _ & U).
  - unfold block_sizes. set_solver.
  - lia.
  - lia.
  - done.
  - exists d'. split; [exact E|]. intros lba H. rewrite (U lba H). apply lookup_empty.
Defined.

(** A device of [blocks] blocks, which refuses writes past its end. *)
Definition sized_device (blocks : Z) : device := λ lba, (0 <=? lba) && (lba <? blocks).

(** the guard against small disks is evaluated after its operand wrapped
    around: on a disk of 10 blocks [last_lba - entry_lbas - 1] is close to
    2^64, the run is not refused with "disk too small", and the MBR and the
    first blocks are overwritten before a write past the end fails. *)
Theorem gpt_small_disk_guard_wraps :
  let '(d', e) := install_write_gpt (sized_device 10) 10 512 ∅ in
  e = Some EntriesFailed /\ d' !! 0 ≠ None /\ d' !! 1 ≠ None /\ d' !! 9 ≠ None.
Proof. vm_compute. split_and!; done. Qed.
