(* ===== verification/Dhcp.v ===== *)
(** The DHCP client daemon (src/user/bin/dhcp/main.c).

    The module's static variables are the record [globals]; a [uint32_t] that
    the C code fills with [memcpy] is the little-endian value of its four
    bytes, so the byte order conversions are explicit.  What the daemon meets
    from outside is scripted: the datagrams and timeouts its socket delivers,
    whether each [sendto], [socket] and [open] succeeds, the clock and the
    network card's address.  What it does is a log of events.  A read outside
    a buffer, or a loop that runs out of fuel, is [None].

    The [main] loop never returns; [main_step] is one turn of it.

    The theorems: option parsing stays in bounds, terminates and decodes
    exactly the type-length-value list; an acquisition that succeeds followed
    the four-message exchange; every turn of [main] completes and is paced. *)

From S2P Require Import Prelude CString.
Local Open Scope Z_scope.

(** * Definitions *)

(** ** Byte order *)

Definition bswap (n : nat) (x : Z) : Z := le_value (rev (le_bytes n x)).
Definition htonl (x : Z) : Z := bswap 4 x.
Definition ntohl (x : Z) : Z := bswap 4 x.
Definition htons (x : Z) : Z := bswap 2 x.

(** ** Module state *)

Record globals := Globals {
  s_mac : bytes;
  s_xid : Z;
  s_offered_ip : Z;
  s_server_ip : Z;
  s_ip : Z;
  s_mask : Z;
  s_gateway : Z;
  s_dns : Z;
  s_lease : Z;
  s_has_dns : bool
}.

Definition set_mac v g := Globals v (s_xid g) (s_offered_ip g) (s_server_ip g) (s_ip g) (s_mask g) (s_gateway g) (s_dns g) (s_lease g) (s_has_dns g).
Definition set_xid v g := Globals (s_mac g) v (s_offered_ip g) (s_server_ip g) (s_ip g) (s_mask g) (s_gateway g) (s_dns g) (s_lease g) (s_has_dns g).
Definition set_offered v g := Globals (s_mac g) (s_xid g) v (s_server_ip g) (s_ip g) (s_mask g) (s_gateway g) (s_dns g) (s_lease g) (s_has_dns g).
Definition set_server v g := Globals (s_mac g) (s_xid g) (s_offered_ip g) v (s_ip g) (s_mask g) (s_gateway g) (s_dns g) (s_lease g) (s_has_dns g).
Definition set_ip v g := Globals (s_mac g) (s_xid g) (s_offered_ip g) (s_server_ip g) v (s_mask g) (s_gateway g) (s_dns g) (s_lease g) (s_has_dns g).
Definition set_mask v g := Globals (s_mac g) (s_xid g) (s_offered_ip g) (s_server_ip g) (s_ip g) v (s_gateway g) (s_dns g) (s_lease g) (s_has_dns g).
Definition set_gateway v g := Globals (s_mac g) (s_xid g) (s_offered_ip g) (s_server_ip g) (s_ip g) (s_mask g) v (s_dns g) (s_lease g) (s_has_dns g).
Definition set_dns v b g := Globals (s_mac g) (s_xid g) (s_offered_ip g) (s_server_ip g) (s_ip g) (s_mask g) (s_gateway g) v (s_lease g) b.
Definition set_lease v g := Globals (s_mac g) (s_xid g) (s_offered_ip g) (s_server_ip g) (s_ip g) (s_mask g) (s_gateway g) (s_dns g) v (s_has_dns g).

Definition s_backoff : list Z := [4; 8; 16; 32; 32].
Definition MAX_ATTEMPTS : Z := 5.
Definition MAX_RETRIES : nat := 3.

(** ** Helpers *)

Definition make_xid (mac : bytes) (now : Z) : Z :=
  let x := Z.lor (Z.lor (Z.shiftl (byte_at mac 2) 24) (Z.shiftl (byte_at mac 3) 16))
                 (Z.lor (Z.shiftl (byte_at mac 4) 8) (byte_at mac 5)) in
  Z.lxor x (u32 now).

Definition dotted (ip : Z) : bytes :=
  join DOT (print_dec <$> le_bytes 4 ip).

Definition ip_to_str (ip_nbo : Z) (bufsz : nat) : bytes := fit bufsz (dotted ip_nbo).

(** The loop of [prefix_len]; 33 turns exceed the 32 shifts that empty [m]. *)
Fixpoint count_ones (fuel : nat) (n m : Z) : option Z :=
  match fuel with
  | O => None
  | S fuel =>
      if Z.land m 0x80000000 =? 0 then Some n
      else count_ones fuel (n + 1) (u32 (Z.shiftl m 1))
  end.

Definition prefix_len (mask_nbo : Z) : option Z := count_ones 33 0 (ntohl mask_nbo).

(** ** Option parsing *)

(** Four bytes of [buf] from [off] on, as [memcpy] into a [uint32_t] reads them. *)
Definition rd32 (buf : bytes) (off : nat) : option Z :=
  if (off + 4 <=? length buf)%nat then Some (le_value (slice off 4 buf)) else None.

Definition defaults (g : globals) : globals :=
  set_server 0 (set_lease 3600 (set_dns 0 false (set_gateway 0 (set_mask (htonl 0xffffff00) g)))).

(** The [switch]: the option [tag] of [olen] bytes at [opts + i]. *)
Definition set_option (tag olen : Z) (opts : bytes) (i : nat) (st : globals * Z) : option (globals * Z) :=
  let '(g, msg_type) := st in
  if tag =? 1 then
    if olen =? 4 then v ← rd32 opts i; Some (set_mask v g, msg_type) else Some st
  else if tag =? 3 then
    if 4 <=? olen then v ← rd32 opts i; Some (set_gateway v g, msg_type) else Some st
  else if tag =? 6 then
    if 4 <=? olen then v ← rd32 opts i; Some (set_dns v true g, msg_type) else Some st
  else if tag =? 51 then
    if olen =? 4 then tmp ← rd32 opts i; Some (set_lease (ntohl tmp) g, msg_type) else Some st
  else if tag =? 53 then
    if olen =? 1 then t ← opts !! i; Some (g, t) else Some st
  else if tag =? 54 then
    if olen =? 4 then v ← rd32 opts i; Some (set_server v g, msg_type) else Some st
  else Some st.

Fixpoint parse_loop (fuel : nat) (opts : bytes) (len i : nat) (st : globals * Z) : option (globals * Z) :=
  match fuel with
  | O => None
  | S fuel =>
      if (i <? len)%nat then
        tag ← opts !! i;
        let i := S i in
        if tag =? 255 then Some st
        else if tag =? 0 then parse_loop fuel opts len i st
        else if (len <=? i)%nat then Some st
        else
          olen ← opts !! i;
          let i := S i in
          if (len <? i + Z.to_nat olen)%nat then Some st
          else
            st ← set_option tag olen opts i st;
            parse_loop fuel opts len (i + Z.to_nat olen) st
      else Some st
  end.

(** The new globals and [*msg_type_out]. *)
Definition parse_options (opts : bytes) (len : nat) (g : globals) : option (globals * Z) :=
  parse_loop (S len) opts len 0 (defaults g, 0).

(** ** Packets: [dhcp_pkt_t] as its 548 bytes *)

Definition PKT_LEN : nat := 548.
Definition OPTIONS_OFF : nat := 240.

Definition pkt_base (g : globals) : bytes :=
  let p := repeat 0 PKT_LEN in
  let p := splice 0 [1; 1; 6] p in
  let p := splice 4 (le_bytes 4 (htonl (s_xid g))) p in
  let p := splice 10 (le_bytes 2 (htons 0x8000)) p in
  let p := splice 28 (s_mac g) p in
  splice 236 (le_bytes 4 (htonl 0x63825363)) p.

Definition pkt_add_discover (g : globals) (p : bytes) : bytes :=
  splice OPTIONS_OFF
    ([53; 1; 1] ++ [55; 4] ++ [1; 3; 6; 51] ++ [61; 7; 1] ++ s_mac g ++ [255]) p.

Definition pkt_add_request (g : globals) (p : bytes) (offered_ip server_ip : Z) : bytes :=
  splice OPTIONS_OFF
    ([53; 1; 3] ++ [55; 4] ++ [1; 3; 6; 51] ++
     (if offered_ip =? 0 then [] else [50; 4] ++ le_bytes 4 offered_ip) ++
     (if server_ip =? 0 then [] else [54; 4] ++ le_bytes 4 server_ip) ++
     [61; 7; 1] ++ s_mac g ++ [255]) p.

(** [pkt.xid] as the C code compares it. *)
Definition pkt_xid (p : bytes) : Z := le_value (slice 4 4 p).

(** ** The outside, and the log *)

Inductive recv :=
  | RTimeout
  | RPacket (data : bytes) (from : Z).

Inductive event :=
  | ESend (dst : Z) (pkt : bytes)
  | ENetcfg (ip mask gateway : Z)
  | EResolv (text : bytes)
  | EStderr (text : bytes)
  | ESleep (seconds : Z)
  | EClose.

Record daemon := Daemon {
  g : globals;
  e_macs : list bytes;
  e_times : list Z;
  e_socks : list bool;
  e_sends : list bool;
  e_opens : list bool;
  e_recvs : list recv;
  e_log : list event
}.

Definition M (A : Type) : Type := daemon -> option (A * daemon).
#[global] Instance M_ret : MRet M := λ A x w, Some (x, w).
#[global] Instance M_bind : MBind M := λ A B f m w,
  match m w with Some (x, w) => f x w | None => None end.

Definition get : M globals := λ w, Some (g w, w).
Definition modify (f : globals -> globals) : M unit := λ w,
  Some (tt, Daemon (f (g w)) (e_macs w) (e_times w) (e_socks w) (e_sends w) (e_opens w) (e_recvs w) (e_log w)).
Definition emit (e : event) : M unit := λ w,
  Some (tt, Daemon (g w) (e_macs w) (e_times w) (e_socks w) (e_sends w) (e_opens w) (e_recvs w) (e_log w ++ [e])).
Definition lift {A} (o : option A) : M A := λ w, match o with Some x => Some (x, w) | None => None end.

(** A script that has run out: calls succeed, the clock shows 0. *)
Definition time : M Z := λ w,
  Some (hd 0 (e_times w),
        Daemon (g w) (e_macs w) (tl (e_times w)) (e_socks w) (e_sends w) (e_opens w) (e_recvs w) (e_log w)).
Definition open_udp_sock : M bool := λ w,
  Some (hd true (e_socks w),
        Daemon (g w) (e_macs w) (e_times w) (tl (e_socks w)) (e_sends w) (e_opens w) (e_recvs w) (e_log w)).
Definition sendto (dst : Z) (pkt : bytes) : M bool := λ w,
  let ok := hd true (e_sends w) in
  Some (ok, Daemon (g w) (e_macs w) (e_times w) (e_socks w) (tl (e_sends w)) (e_opens w) (e_recvs w)
              (if ok then e_log w ++ [ESend dst pkt] else e_log w)).
Definition open_resolv : M bool := λ w,
  Some (hd true (e_opens w),
        Daemon (g w) (e_macs w) (e_times w) (e_socks w) (e_sends w) (tl (e_opens w)) (e_recvs w) (e_log w)).
(** [sys_netcfg] op 1: the card's address, all zero when there is none. *)
Definition netcfg_mac : M bytes := λ w,
  Some (hd (repeat 0 6) (e_macs w),
        Daemon (g w) (tl (e_macs w)) (e_times w) (e_socks w) (e_sends w) (e_opens w) (e_recvs w) (e_log w)).

Definition INADDR_BROADCAST : Z := 0xffffffff.
Definition send_broadcast (pkt : bytes) : M bool := sendto INADDR_BROADCAST pkt.
Definition send_unicast (pkt : bytes) (server_ip_nbo : Z) : M bool := sendto server_ip_nbo pkt.

(** ** Applying a configuration *)

Definition write_resolv_conf : M unit :=
  ok ← open_resolv;
  if ok : bool then
    g ← get;
    emit (EResolv
      ((if s_has_dns g then B "nameserver " ++ dotted (s_dns g) ++ [LF] else []) ++
       B "nameserver 1.1.1.1" ++ [LF] ++ B "nameserver 8.8.8.8" ++ [LF]))
  else mret tt.

Definition apply_config : M unit :=
  c ← get;
  _ ← emit (ENetcfg (s_ip c) (s_mask c) (s_gateway c));
  _ ← write_resolv_conf;
  plen ← lift (prefix_len (s_mask c));
  let text := B "[DHCP] acquired " ++ ip_to_str (s_ip c) 20 ++ B "/" ++ print_dec plen ++ B " gw " ++
              ip_to_str (s_gateway c) 20 ++ B " lease " ++ print_dec (s_lease c) ++ B "s" in
  if s_has_dns c then emit (EStderr (text ++ B " dns " ++ ip_to_str (s_dns c) 24 ++ [LF]))
  else emit (EStderr (text ++ [LF])).

(** ** The exchanges *)

Inductive waited := WTimeout | WGot | WNak.

(** [recvfrom] into [reply], the length test and the transaction test, shared
    by the three receive loops: the bytes received, or [None] to [continue]. *)
Definition accept (xid : Z) (data : bytes) : option (option bytes) :=
  let reply := take PKT_LEN data in
  if (length reply <? 240)%nat then Some None
  else rx ← rd32 reply 4; if rx =? xid then Some (Some reply) else Some None.

Definition reply_options (reply : bytes) (g : globals) : option (globals * Z) :=
  parse_options (drop OPTIONS_OFF reply) (length reply - OPTIONS_OFF) g.

(** The receive loop of SELECTING. *)
Fixpoint wait_offer (xid : Z) (recvs : list recv) (g : globals) : option (waited * globals * list recv) :=
  match recvs with
  | [] => Some (WTimeout, g, [])
  | RTimeout :: recvs => Some (WTimeout, g, recvs)
  | RPacket data from :: recvs =>
      a ← accept xid data;
      match a with
      | None => wait_offer xid recvs g
      | Some reply =>
          '(g, msg_type) ← reply_options reply g;
          if msg_type =? 2 then
            yiaddr ← rd32 reply 16;
            let g := set_offered yiaddr g in
            let g := if s_server_ip g =? 0 then set_server from g else g in
            Some (WGot, g, recvs)
          else wait_offer xid recvs g
      end
  end.

(** The receive loop of REQUESTING and of RENEWING. *)
Fixpoint wait_ack (xid : Z) (recvs : list recv) (g : globals) : option (waited * globals * list recv) :=
  match recvs with
  | [] => Some (WTimeout, g, [])
  | RTimeout :: recvs => Some (WTimeout, g, recvs)
  | RPacket data from :: recvs =>
      a ← accept xid data;
      match a with
      | None => wait_ack xid recvs g
      | Some reply =>
          '(g, msg_type) ← reply_options reply g;
          if msg_type =? 5 then yiaddr ← rd32 reply 16; Some (WGot, set_ip yiaddr g, recvs)
          else if msg_type =? 6 then Some (WNak, g, recvs)
          else wait_ack xid recvs g
      end
  end.

Definition receive (wait : list recv -> globals -> option (waited * globals * list recv)) : M waited := λ w,
  match wait (e_recvs w) (g w) with
  | Some (r, g, recvs) =>
      Some (r, Daemon g (e_macs w) (e_times w) (e_socks w) (e_sends w) (e_opens w) recvs (e_log w))
  | None => None
  end.

(** [for (retry = 0; retry < MAX_RETRIES && !got; retry++)] *)
Fixpoint retry (n : nat) (send : M bool) (wait : M waited) : M waited :=
  match n with
  | O => mret WTimeout
  | S n =>
      ok ← send;
      if ok : bool then
        r ← wait;
        match r with WTimeout => retry n send wait | _ => mret r end
      else retry n send wait
  end.

Definition got (r : waited) : bool := match r with WGot => true | _ => false end.

Definition try_acquire : M bool :=
  c ← get;
  let pkt := pkt_add_discover c (pkt_base c) in
  offer ← retry MAX_RETRIES (send_broadcast pkt) (receive (wait_offer (pkt_xid pkt)));
  if negb (got offer) then mret false
  else
    c ← get;
    let pkt := pkt_add_request c (pkt_base c) (s_offered_ip c) (s_server_ip c) in
    ack ← retry MAX_RETRIES (send_broadcast pkt) (receive (wait_ack (pkt_xid pkt)));
    mret (got ack).

Definition try_renew : M bool :=
  c ← get;
  let pkt := pkt_base c in
  let pkt := splice 10 [0; 0] pkt in
  let pkt := splice 12 (le_bytes 4 (s_ip c)) pkt in
  now ← time;
  _ ← modify (set_xid (make_xid (s_mac c) now));
  c ← get;
  let pkt := splice 4 (le_bytes 4 (htonl (s_xid c))) pkt in
  let pkt := pkt_add_request c pkt 0 0 in
  ack ← retry MAX_RETRIES (c ← get; send_unicast pkt (s_server_ip c)) (receive (wait_ack (pkt_xid pkt)));
  mret (got ack).

(** ** [main] *)

Inductive phase :=
  | Probe               (* waiting for a network card *)
  | Attempt (n : Z)     (* the [for] loop, at [attempt = n] *)
  | Bound.              (* the [while (1)] loop *)

Definition has_mac (mac : bytes) : bool := existsb (λ b, negb (b =? 0)) mac.

Definition backoff (n : Z) : option Z :=
  s_backoff !! Z.to_nat (if n <? MAX_ATTEMPTS then n - 1 else MAX_ATTEMPTS - 1).

Definition main_step (p : phase) : M phase :=
  match p with
  | Probe =>
      mac ← netcfg_mac;
      _ ← modify (set_mac mac);
      if has_mac mac then mret (Attempt 0) else _ ← emit (ESleep 4); mret Probe
  | Attempt n =>
      _ ← (if 0 <? n then
             delay ← lift (backoff n);
             _ ← emit (EStderr (B "[DHCP] retry " ++ print_dec n ++ B ", waiting " ++ print_dec delay ++ B "s" ++ [LF]));
             emit (ESleep delay)
           else mret tt);
      now ← time;
      _ ← modify (λ g, set_xid (make_xid (s_mac g) now) g);
      fd ← open_udp_sock;
      if negb fd then mret (Attempt (i32 (n + 1)))
      else
        ok ← try_acquire;
        if ok : bool then _ ← apply_config; mret Bound
        else _ ← emit EClose; mret (Attempt (i32 (n + 1)))
  | Bound =>
      c ← get;
      let t1 := s_lease c / 2 in
      let t1 := if t1 <? 30 then 30 else t1 in
      _ ← emit (ESleep t1);
      now ← time;
      _ ← modify (λ g, set_xid (make_xid (s_mac g) now) g);
      ok ← try_renew;
      if ok : bool then
        c ← get;
        _ ← emit (EStderr (B "[DHCP] renewed lease, next renewal in " ++ print_dec (s_lease c / 2) ++ B "s" ++ [LF]));
        mret Bound
      else
        _ ← emit (EStderr (B "[DHCP] renewal failed, restarting" ++ [LF]));
        _ ← emit EClose;
        mret (Attempt 0)
  end.

Fixpoint main_steps (n : nat) (p : phase) : M phase :=
  match n with
  | O => mret p
  | S n => p ← main_step p; main_steps n p
  end.

(** * Option parsing *)

(** The reference reading: a list of fields, each with its value. *)
Inductive field :=
  | Pad
  | Opt (tag : Z) (value : bytes).

Definition encode_field (f : field) : bytes :=
  match f with Pad => [0] | Opt tag value => tag :: Z.of_nat (length value) :: value end.

Definition field_ok (f : field) : Prop :=
  match f with Pad => True | Opt tag value => tag ≠ 0 /\ tag ≠ 255 end.

(** What a field sets: the addresses when four bytes long (the router and name
    server lists: their first entry), the lease time in network order. *)
Definition apply_field (st : globals * Z) (f : field) : globals * Z :=
  let '(g, t) := st in
  match f with
  | Opt 1 ([_; _; _; _] as v) => (set_mask (le_value v) g, t)
  | Opt 3 (a :: b :: c :: d :: _) => (set_gateway (le_value [a; b; c; d]) g, t)
  | Opt 6 (a :: b :: c :: d :: _) => (set_dns (le_value [a; b; c; d]) true g, t)
  | Opt 51 ([_; _; _; _] as v) => (set_lease (ntohl (le_value v)) g, t)
  | Opt 53 [v] => (g, v)
  | Opt 54 ([_; _; _; _] as v) => (set_server (le_value v) g, t)
  | _ => st
  end.

Section Parsing.

Implicit Types (opts : bytes) (st : globals * Z).

Lemma rd32_total opts i : (i + 4 <= length opts)%nat -> is_Some (rd32 opts i).
Proof. intros H. unfold rd32. rewrite (proj2 (Nat.leb_le _ _)) by lia. by eexists. Qed.

Lemma set_option_total tag olen opts i st :
  (i + Z.to_nat olen <= length opts)%nat -> is_Some (set_option tag olen opts i st).
Proof.
  intros H. destruct st as [c t]. unfold set_option.
  repeat case_if; boolify; try by eexists.
  all: try (destruct (rd32_total opts i) as [v ->]; [lia|by eexists]).
  destruct (lookup_lt_is_Some_2 opts i) as [v ->]; [lia|by eexists].
Qed.

Lemma parse_loop_total fuel opts len i st :
  (len <= length opts)%nat -> (len - i < fuel)%nat -> is_Some (parse_loop fuel opts len i st).
Proof.
  intros Hlen. revert i st. induction fuel as [|fuel IH]; intros i st Hf; [lia|]. cbn [parse_loop].
  case_if; boolify; [|by eexists].
  destruct (lookup_lt_is_Some_2 opts i) as [tag ->]; [lia|]. cbn.
  case_if; [by eexists|]. case_if; [apply IH; lia|]. case_if; boolify; [by eexists|].
  destruct (lookup_lt_is_Some_2 opts (S i)) as [olen ->]; [lia|]. cbn.
  case_if; boolify; [by eexists|].
  destruct (set_option_total tag olen opts (S (S i)) st) as [st' ->]; [lia|]. cbn. apply IH. lia.
Qed.

Lemma reply_options_total reply c : is_Some (reply_options reply c).
Proof.
  apply parse_loop_total; [|lia]. rewrite length_drop. done.
Qed.

Lemma slice_app_mid a v b : slice (length a) (length v) (a ++ v ++ b) = v.
Proof. unfold slice. rewrite drop_app_length. apply take_app_length. Qed.

Lemma rd32_app a v b : length v = 4%nat -> rd32 (a ++ v ++ b) (length a) = Some (le_value v).
Proof.
  intros Hv. unfold rd32. rewrite !length_app, Hv. rewrite (proj2 (Nat.leb_le _ _)) by lia.
  by rewrite <- Hv, slice_app_mid.
Qed.

Lemma rd32_app4 x x0 x1 x2 a v b :
  rd32 (a ++ (x :: x0 :: x1 :: x2 :: v) ++ b) (length a) = Some (le_value [x; x0; x1; x2]).
Proof.
  change (x :: x0 :: x1 :: x2 :: v) with ([x; x0; x1; x2] ++ v). rewrite <- app_assoc.
  by apply rd32_app.
Qed.

Lemma set_option_field tag v a b st :
  set_option tag (Z.of_nat (length v)) (a ++ v ++ b) (length a) st = Some (apply_field st (Opt tag v)).
Proof.
  destruct st as [c t]. unfold set_option.
  destruct (decide (tag ∈ [1; 3; 6; 51; 53; 54])) as [Hin|Hout].
  - repeat (apply elem_of_cons in Hin as [->|Hin]); [..|by apply not_elem_of_nil in Hin];
      cbn [Z.eqb Pos.eqb];
      destruct v as [|x [|x0 [|x1 [|x2 [|x3 v]]]]]; cbn [length];
      rewrite ?rd32_app4; try done;
      repeat case_if; boolify; try lia; cbn; try done.
    by rewrite lookup_app_r, Nat.sub_diag by done.
  - assert (apply_field (c, t) (Opt tag v) = (c, t)) as ->.
    { cbn. destruct tag as [|tag|]; try done.
      repeat (destruct tag as [tag|tag|]; try done); exfalso; apply Hout; set_solver. }
    repeat case_if; boolify; try done; subst; exfalso; apply Hout; set_solver.
Qed.

Lemma parse_loop_fields fs tail pre fuel st :
  Forall field_ok fs -> tail = [] \/ (exists r, tail = 255 :: r) ->
  let opts := pre ++ concat (encode_field <$> fs) ++ tail in
  (length opts - length pre < fuel)%nat ->
  parse_loop fuel opts (length opts) (length pre) st = Some (foldl apply_field st fs).
Proof.
  intros Hfs Htail. revert pre fuel st. induction Hfs as [|f fs Hf _ IH]; intros pre fuel st opts Hfuel.
  { destruct fuel as [|fuel]; [lia|]. cbn [parse_loop]. unfold opts. cbn [fmap list_fmap concat foldl].
    rewrite app_nil_l. destruct Htail as [->|[r ->]]; case_if; boolify; rewrite ?length_app in *; cbn in *; try lia; try done.
    by rewrite (list_lookup_middle pre r 255 (length pre)). }
  destruct fuel as [|fuel]; [lia|]. cbn [parse_loop foldl].
  assert (E : opts = (pre ++ encode_field f) ++ concat (encode_field <$> fs) ++ tail).
  { unfold opts. cbn [fmap list_fmap concat]. by rewrite <- !app_assoc. }
  specialize (IH (pre ++ encode_field f) fuel). rewrite <- E in IH.
  assert (Hlen : (length pre + length (encode_field f) <= length opts)%nat)
    by (rewrite E, !length_app; lia).
  rewrite (proj2 (Nat.ltb_lt _ _)) by (destruct f; cbn in *; lia).
  destruct f as [|tag v].
  - assert (opts !! length pre = Some 0) as ->
      by by apply list_lookup_middle. cbn [mbind option_bind Z.eqb].
    rewrite length_app in IH. cbn in IH, Hlen. rewrite Nat.add_1_r in IH.
    destruct st. apply IH. lia.
  - destruct Hf as [H0 H255].
    assert (opts !! length pre = Some tag) as ->
      by by apply list_lookup_middle. cbn [mbind option_bind].
    rewrite (proj2 (Z.eqb_neq _ _) H255), (proj2 (Z.eqb_neq _ _) H0). cbn in Hlen.
    rewrite (proj2 (Nat.leb_gt _ _)) by lia.
    assert (opts !! S (length pre) = Some (Z.of_nat (length v))) as ->
      by (unfold opts; rewrite lookup_app_r by lia; by replace (S (length pre) - length pre)%nat with 1%nat by lia).
    cbn [mbind option_bind]. rewrite Nat2Z.id, (proj2 (Nat.ltb_ge _ _)) by lia.
    assert (set_option tag (Z.of_nat (length v)) opts (S (S (length pre))) st = Some (apply_field st (Opt tag v))) as ->.
    { rewrite E. cbn [encode_field]. rewrite <- (set_option_field tag v (pre ++ [tag; Z.of_nat (length v)])
        (concat (encode_field <$> fs) ++ tail)).
      f_equal; [by rewrite <- !app_assoc|rewrite length_app; cbn; lia]. }
    cbn [mbind option_bind]. rewrite length_app in IH. cbn [encode_field length] in IH.
    replace (S (S (length pre)) + length v)%nat with (length pre + S (S (length v)))%nat by lia.
    apply IH. lia.
Qed.

(** ** What parsing leaves alone, and what its result depends on *)

Definition settings (c : globals) : Z * Z * Z * Z * bool * Z :=
  (s_mask c, s_gateway c, s_dns c, s_lease c, s_has_dns c, s_server_ip c).

Definition identity (c : globals) : bytes * Z * Z * Z := (s_mac c, s_xid c, s_offered_ip c, s_ip c).

(** Two states of the loop that agree on the settings and the message type,
    started from [c1] and [c2]. *)
Definition same_parse (c1 c2 : globals) (st1 st2 : globals * Z) : Prop :=
  settings (fst st1) = settings (fst st2) /\ snd st1 = snd st2 /\
  identity (fst st1) = identity c1 /\ identity (fst st2) = identity c2.

Lemma set_option_same c1 c2 tag olen opts i st1 st2 st1' :
  same_parse c1 c2 st1 st2 -> set_option tag olen opts i st1 = Some st1' ->
  exists st2', set_option tag olen opts i st2 = Some st2' /\ same_parse c1 c2 st1' st2'.
Proof.
  destruct st1 as [a t1], st2 as [b t2]. unfold same_parse, settings, identity. cbn [fst snd].
  intros (Hs & -> & Ha & Hb) E. unfold set_option in *. simplify_eq.
  repeat case_if; try (simplify_eq; eexists; split; [done|]; cbn; split_and!; congruence).
  all: match goal with |- context [?o ≫= _] => destruct o end; cbn in E; simplify_eq; eexists;
    (split; [done|]); cbn; split_and!; congruence.
Qed.

Lemma parse_loop_same c1 c2 fuel opts len i st1 st2 st1' :
  same_parse c1 c2 st1 st2 -> parse_loop fuel opts len i st1 = Some st1' ->
  exists st2', parse_loop fuel opts len i st2 = Some st2' /\ same_parse c1 c2 st1' st2'.
Proof.
  revert i st1 st2. induction fuel as [|fuel IH]; intros i st1 st2 HR E; [done|]. cbn [parse_loop] in *.
  case_if; [|simplify_eq; by eexists].
  destruct (opts !! i) as [tag|]; cbn [mbind option_bind] in *; [|done].
  case_if; [simplify_eq; by eexists|]. case_if; [by eapply IH|]. case_if; [simplify_eq; by eexists|].
  destruct (opts !! S i) as [olen|]; cbn [mbind option_bind] in *; [|done].
  case_if; [simplify_eq; by eexists|].
  destruct (set_option tag olen opts (S (S i)) st1) as [st|] eqn:E1; cbn [mbind option_bind] in *; [|done].
  destruct (set_option_same _ _ _ _ _ _ _ _ _ HR E1) as (st2' & -> & HR'). cbn [mbind option_bind].
  by eapply IH.
Qed.

Lemma reply_options_same reply c1 c2 c1' t :
  reply_options reply c1 = Some (c1', t) ->
  exists c2', reply_options reply c2 = Some (c2', t) /\
    settings c1' = settings c2' /\ identity c1' = identity c1 /\ identity c2' = identity c2.
Proof.
  intros E. eapply (parse_loop_same c1 c2) in E as ((c2' & t') & E' & H1 & H2 & H3 & H4).
  - cbn [fst snd] in *. subst t'. exists c2'. by split_and!.
  - by split_and!.
Qed.

End Parsing.

(** [parse_options] reads the option area as the sequence of
    type-length-value fields it encodes, with any padding between them, up to
    the end marker or the end of the packet: it terminates, stays inside the
    area, and leaves what the fields say over the defaults, the last one
    winning. *)
Theorem parse_options_decodes fs tail c :
  Forall field_ok fs -> tail = [] \/ (exists r, tail = 255 :: r) ->
  let opts := concat (encode_field <$> fs) ++ tail in
  parse_options opts (length opts) c = Some (foldl apply_field (defaults c, 0) fs).
Proof.
  intros Hfs Ht opts. unfold parse_options. apply (parse_loop_fields fs tail []); [done..|].
  apply Nat.lt_succ_r, Nat.le_sub_l.
Qed.

Lemma parse_options_decodes_witness :
  let opts := [0; 53; 1; 5; 51; 4; 0; 0; 14; 16; 54; 4; 10; 0; 2; 2; 255; 9] in
  let c := Globals [] 0 0 0 0 0 0 0 0 false in
  (λ '(c, t), (t, s_lease c, s_server_ip c)) <$> parse_options opts (length opts) c =
    Some (5, 3600, le_value [10; 0; 2; 2]).
Proof.
  cbn zeta.
  change [0; 53; 1; 5; 51; 4; 0; 0; 14; 16; 54; 4; 10; 0; 2; 2; 255; 9] with
    (concat (encode_field <$> [Pad; Opt 53 [5]; Opt 51 [0; 0; 14; 16]; Opt 54 [10; 0; 2; 2]]) ++ [255; 9]).
  rewrite parse_options_decodes; [reflexivity| |].
  - repeat constructor; done.
  - right. by exists [9].
Defined.

(** * Packets *)

Section Packets.

Implicit Type c : globals.

Lemma mac_bytes c : length (s_mac c) = 6%nat -> exists a1 a2 a3 a4 a5 a6, s_mac c = [a1; a2; a3; a4; a5; a6].
Proof.
  destruct (s_mac c) as [|a1 [|a2 [|a3 [|a4 [|a5 [|a6 [|]]]]]]]; try done. by repeat eexists.
Qed.

(** The transaction id of every packet the client builds. *)
Lemma discover_xid c :
  length (s_mac c) = 6%nat -> pkt_xid (pkt_add_discover c (pkt_base c)) = le_value (le_bytes 4 (htonl (s_xid c))).
Proof.
  intros (a1 & a2 & a3 & a4 & a5 & a6 & Hm)%mac_bytes. unfold pkt_add_discover, pkt_base. rewrite Hm. reflexivity.
Qed.

Lemma request_xid c ip srv :
  length (s_mac c) = 6%nat -> pkt_xid (pkt_add_request c (pkt_base c) ip srv) = le_value (le_bytes 4 (htonl (s_xid c))).
Proof.
  intros (a1 & a2 & a3 & a4 & a5 & a6 & Hm)%mac_bytes. unfold pkt_add_request, pkt_base. rewrite Hm.
  by destruct (ip =? 0), (srv =? 0).
Qed.

Lemma bswap_u32 x : le_value (le_bytes 4 (bswap 4 x)) = bswap 4 x.
Proof.
  unfold bswap. rewrite le_value_bytes. apply Z.mod_small.
  pose proof (le_value_range (rev (le_bytes 4 x))) as H. rewrite length_rev, length_le_bytes in H.
  apply H. apply Forall_rev, le_bytes_is_byte.
Qed.

End Packets.

(** the REQUEST packet is well formed on the wire: 548 bytes, the client's
    transaction id and hardware address in their places, and an option area
    that encodes exactly the message type, the parameter list, the offered
    address, the server identifier and the client identifier. *)
Theorem request_wire c ip srv :
  length (s_mac c) = 6%nat -> ip ≠ 0 -> srv ≠ 0 ->
  let p := pkt_add_request c (pkt_base c) ip srv in
  length p = PKT_LEN /\ slice 0 4 p = [1; 1; 6; 0] /\ slice 4 4 p = le_bytes 4 (htonl (s_xid c)) /\
  slice 10 2 p = [128; 0] /\ slice 28 6 p = s_mac c /\ slice 236 4 p = [0x63; 0x82; 0x53; 0x63] /\
  drop OPTIONS_OFF p =
    concat (encode_field <$> [Opt 53 [3]; Opt 55 [1; 3; 6; 51]; Opt 50 (le_bytes 4 ip);
                              Opt 54 (le_bytes 4 srv); Opt 61 (1 :: s_mac c)]) ++
    255 :: repeat 0 277.
Proof.
  intros (a1 & a2 & a3 & a4 & a5 & a6 & Hm)%mac_bytes Hip Hsrv p.
  unfold p, pkt_add_request, pkt_base. rewrite Hm.
  rewrite (proj2 (Z.eqb_neq _ _) Hip), (proj2 (Z.eqb_neq _ _) Hsrv). repeat split.
Qed.

Definition sample_globals : globals :=
  Globals [82; 84; 0; 18; 52; 86] 0x1234ABCD 0 0 0 0 0 0 0 false.

Lemma request_wire_witness :
  slice 4 4 (pkt_add_request sample_globals (pkt_base sample_globals) 0x0F02000A 0x0202000A) =
    [0x12; 0x34; 0xAB; 0xCD].
Proof. destruct (request_wire sample_globals 0x0F02000A 0x0202000A) as (_ & _ & -> & _); reflexivity || lia. Defined.

(** * The exchanges *)

(** A datagram the receive loops act on: long enough, with transaction id
    [xid], of message type [t], offering [yiaddr] with settings [s]. *)
Record message (xid : Z) (data : bytes) (t yiaddr : Z) (s : Z * Z * Z * Z * bool * Z) : Prop := {
  m_length : (240 <= length data)%nat;
  m_xid : rd32 (take PKT_LEN data) 4 = Some xid;
  m_yiaddr : rd32 (take PKT_LEN data) 16 = Some yiaddr;
  m_options : forall c, exists c', reply_options (take PKT_LEN data) c = Some (c', t) /\ settings c' = s
}.

Section Exchange.

Implicit Types (c : globals) (w : daemon).

Lemma accept_total xid data : is_Some (accept xid data).
Proof.
  unfold accept. case_if; boolify; [by eexists|].
  destruct (rd32_total (take PKT_LEN data) 4) as [rx ->]; [lia|]. cbn. case_if; by eexists.
Qed.

Lemma accept_reply xid data reply :
  accept xid data = Some (Some reply) ->
  reply = take PKT_LEN data /\ (240 <= length reply)%nat /\ rd32 reply 4 = Some xid.
Proof.
  unfold accept. case_if; boolify; [done|].
  destruct (rd32 _ 4) as [rx|] eqn:E; cbn; [|done]. case_if; boolify; [|done]. intros [= <-]. by subst.
Qed.

(** The identity of the transaction, which no loop changes. *)
Definition transaction c : bytes * Z := (s_mac c, s_xid c).

Lemma reply_options_transaction reply c c' t :
  reply_options reply c = Some (c', t) -> transaction c' = transaction c.
Proof.
  intros (_ & _ & _ & H & _)%(reply_options_same _ _ c). unfold identity, transaction in *. congruence.
Qed.

Lemma reply_message xid data reply c c' t yi :
  accept xid data = Some (Some reply) -> reply_options reply c = Some (c', t) ->
  rd32 reply 16 = Some yi -> message xid data t yi (settings c').
Proof.
  intros (-> & Hl & Hx)%accept_reply Ho Hy. split; [|done..|].
  - rewrite length_take in Hl. lia.
  - intros c0. destruct (reply_options_same _ _ c0 _ _ Ho) as (c2 & H1 & H2 & _). by exists c2.
Qed.

(** What a receive loop guarantees whatever its outcome. *)
Definition wait_ok (wait : list recv -> globals -> option (waited * globals * list recv)) : Prop :=
  forall recvs c, exists r c' skip recvs',
    wait recvs c = Some (r, c', recvs') /\ recvs = skip ++ recvs' /\ transaction c' = transaction c.

Lemma wait_offer_ok xid : wait_ok (wait_offer xid).
Proof.
  intros recvs. induction recvs as [|[|data from] recvs IH]; intros c; cbn [wait_offer].
  { by exists WTimeout, c, [], []. }
  { by exists WTimeout, c, [RTimeout], recvs. }
  destruct (accept_total xid data) as [[reply|] Ea]; rewrite Ea; cbn [mbind option_bind].
  2: { destruct (IH c) as (r & c' & skip & recvs' & -> & -> & E). by exists r, c', (RPacket data from :: skip), recvs'. }
  destruct (reply_options_total reply c) as [[c1 t] Eo]; rewrite Eo; cbn [mbind option_bind].
  apply reply_options_transaction in Eo. case_if.
  - apply accept_reply in Ea as (_ & Hl & _). destruct (rd32_total reply 16) as [yi ->]; [lia|].
    cbn [mbind option_bind]. eexists _, _, [RPacket data from], recvs. split; [done|]. split; [done|].
    rewrite <- Eo. by case_if.
  - destruct (IH c1) as (r & c' & skip & recvs' & -> & -> & E).
    exists r, c', (RPacket data from :: skip), recvs'. by rewrite E.
Qed.

Lemma wait_ack_ok xid : wait_ok (wait_ack xid).
Proof.
  intros recvs. induction recvs as [|[|data from] recvs IH]; intros c; cbn [wait_ack].
  { by exists WTimeout, c, [], []. }
  { by exists WTimeout, c, [RTimeout], recvs. }
  destruct (accept_total xid data) as [[reply|] Ea]; rewrite Ea; cbn [mbind option_bind].
  2: { destruct (IH c) as (r & c' & skip & recvs' & -> & -> & E). by exists r, c', (RPacket data from :: skip), recvs'. }
  destruct (reply_options_total reply c) as [[c1 t] Eo]; rewrite Eo; cbn [mbind option_bind].
  apply reply_options_transaction in Eo. repeat case_if.
  - apply accept_reply in Ea as (_ & Hl & _). destruct (rd32_total reply 16) as [yi ->]; [lia|].
    cbn [mbind option_bind]. by eexists _, _, [RPacket data from], recvs.
  - by eexists _, _, [RPacket data from], recvs.
  - destruct (IH c1) as (r & c' & skip & recvs' & -> & -> & E).
    exists r, c', (RPacket data from :: skip), recvs'. by rewrite E.
Qed.

Lemma wait_offer_got xid recvs c c' recvs' :
  wait_offer xid recvs c = Some (WGot, c', recvs') ->
  exists skip data from yi s,
    recvs = skip ++ RPacket data from :: recvs' /\ message xid data 2 yi s /\ s_offered_ip c' = yi /\
    s_server_ip c' = (if s.2 =? 0 then from else s.2).
Proof.
  revert c. induction recvs as [|[|data from] recvs IH]; intros c; cbn [wait_offer]; [done..|].
  assert (Hrec : forall c1, wait_offer xid recvs c1 = Some (WGot, c', recvs') -> exists skip data0 from0 yi s,
    RPacket data from :: recvs = skip ++ RPacket data0 from0 :: recvs' /\ message xid data0 2 yi s /\
    s_offered_ip c' = yi /\ s_server_ip c' = (if s.2 =? 0 then from0 else s.2)).
  { intros c1 (skip & d0 & f0 & yi & s & -> & H)%IH. by exists (RPacket data from :: skip), d0, f0, yi, s. }
  destruct (accept xid data) as [[reply|]|] eqn:Ea; cbn [mbind option_bind]; [|apply Hrec|done].
  destruct (reply_options reply c) as [[c1 t]|] eqn:Eo; cbn [mbind option_bind]; [|done].
  case_if; boolify; [subst t|apply Hrec].
  destruct (rd32 reply 16) as [yi|] eqn:Ey; cbn [mbind option_bind]; [|done]. intros [= <- <-].
  exists [], data, from, yi, (settings c1). split; [done|]. split; [by eapply reply_message|]. cbn.
  by destruct (s_server_ip c1 =? 0).
Qed.

Lemma wait_ack_got xid recvs c c' recvs' :
  wait_ack xid recvs c = Some (WGot, c', recvs') ->
  exists skip data from yi,
    recvs = skip ++ RPacket data from :: recvs' /\ message xid data 5 yi (settings c') /\ s_ip c' = yi.
Proof.
  revert c. induction recvs as [|[|data from] recvs IH]; intros c; cbn [wait_ack]; [done..|].
  assert (Hrec : forall c1, wait_ack xid recvs c1 = Some (WGot, c', recvs') -> exists skip data0 from0 yi,
    RPacket data from :: recvs = skip ++ RPacket data0 from0 :: recvs' /\
    message xid data0 5 yi (settings c') /\ s_ip c' = yi).
  { intros c1 (skip & d0 & f0 & yi & -> & H)%IH. by exists (RPacket data from :: skip), d0, f0, yi. }
  destruct (accept xid data) as [[reply|]|] eqn:Ea; cbn [mbind option_bind]; [|apply Hrec|done].
  destruct (reply_options reply c) as [[c1 t]|] eqn:Eo; cbn [mbind option_bind]; [|done].
  repeat case_if; boolify; [subst t|done|apply Hrec].
  destruct (rd32 reply 16) as [yi|] eqn:Ey; cbn [mbind option_bind]; [|done]. intros [= <- <-].
  exists [], data, from, yi. split; [done|]. split; [|done]. exact (reply_message _ _ _ _ _ _ _ Ea Eo Ey).
Qed.

(** The retry loop: [k] successful sends, the last of which was answered. *)
Lemma retry_got n dst pkt wait w w' :
  wait_ok wait -> retry n (sendto dst pkt) (receive wait) w = Some (WGot, w') ->
  exists k skip mid c,
    (1 <= k <= n)%nat /\ e_log w' = e_log w ++ repeat (ESend dst pkt) k /\
    e_recvs w = skip ++ mid /\ transaction c = transaction (g w) /\
    wait mid c = Some (WGot, g w', e_recvs w').
Proof.
  intros Hok. revert w. induction n as [|n IH]; intros w; cbn [retry]; [done|].
  unfold mbind at 1, M_bind at 1, sendto at 1.
  destruct (hd true (e_sends w)); cbn [negb].
  - unfold mbind at 1, M_bind at 1, receive at 1. cbn [e_recvs g].
    destruct (Hok (e_recvs w) (g w)) as (r & c' & skip & recvs' & E & Hs & Ht). rewrite E.
    destruct r; [|intros [= <-]; exists 1%nat, [], (e_recvs w), (g w); cbn; auto with lia|done].
    intros (k & skip' & mid & c & Hk & Hl & Hr & Ht' & Hw)%IH. cbn in Hl, Hr, Ht'.
    exists (S k), (skip ++ skip'), mid, c. cbn [repeat]. split; [lia|].
    rewrite Hl, Hs, Hr, <- !app_assoc. split_and!; try done. by rewrite Ht', Ht.
  - intros (k & skip' & mid & c & Hk & H)%IH. exists k, skip', mid, c. cbn in H. auto with lia.
Qed.

End Exchange.

(** C36: a successful acquisition followed the DHCP exchange.  The client sent one
    to three DISCOVERs, took an OFFER of its transaction, sent one to three
    REQUESTs for the offered address to the server that the offer named (or
    that sent it), and took a later ACK of the same transaction; nothing else
    was sent.  Address, mask, gateway, resolver and lease are those of the
    ACK. *)
Theorem try_acquire_exchange w w' :
  length (s_mac (g w)) = 6%nat -> try_acquire w = Some (true, w') ->
  exists skip1 offer from skip2 ack from' k1 k2 ip s ip' c1,
    let xid := htonl (s_xid (g w)) in
    let server := if s.2 =? 0 then from else s.2 in
    e_recvs w = skip1 ++ RPacket offer from :: skip2 ++ RPacket ack from' :: e_recvs w' /\
    message xid offer 2 ip s /\ message xid ack 5 ip' (settings (g w')) /\ s_ip (g w') = ip' /\
    transaction c1 = transaction (g w) /\ (1 <= k1 <= 3)%nat /\ (1 <= k2 <= 3)%nat /\
    e_log w' = e_log w ++
      repeat (ESend INADDR_BROADCAST (pkt_add_discover (g w) (pkt_base (g w)))) k1 ++
      repeat (ESend INADDR_BROADCAST (pkt_add_request c1 (pkt_base c1) ip server)) k2.
Proof.
  intros Hm. unfold try_acquire, get. unfold mbind at 1, M_bind at 1.
  unfold mbind at 1, M_bind at 1.
  destruct (retry _ _ _ w) as [[offer w1]|] eqn:E1; [|done].
  destruct offer; cbn [got negb]; [done| |done].
  apply retry_got in E1 as (k1 & skip & mid & c & Hk1 & Hl1 & Hr1 & Ht1 & Hw1); [|apply wait_offer_ok].
  destruct (wait_offer_ok (pkt_xid (pkt_add_discover (g w) (pkt_base (g w)))) mid c) as (? & ? & ? & ? & Hw1' & _ & Htw).
  rewrite Hw1 in Hw1'. injection Hw1' as <- <- <-.
  apply wait_offer_got in Hw1 as (skip1 & data1 & from1 & yi1 & s1 & -> & Hm1 & Hoff & Hsrv).
  unfold mbind at 1, M_bind at 1. unfold mbind at 1, M_bind at 1.
  destruct (retry _ _ _ w1) as [[ack w2]|] eqn:E2; [|done].
  unfold mret, M_ret. intros [= Hgot <-]. destruct ack; try done.
  apply retry_got in E2 as (k2 & skip2 & mid2 & c2 & Hk2 & Hl2 & Hr2 & Ht2 & Hw2); [|apply wait_ack_ok].
  apply wait_ack_got in Hw2 as (skip3 & data2 & from2 & yi2 & -> & Hm2 & Hip).
  assert (Ht : transaction (g w1) = transaction (g w)) by congruence.
  pose proof Ht as [= Hmac Hxid].
  rewrite discover_xid in Hm1 by done. rewrite request_xid in Hm2 by congruence.
  unfold htonl in Hm1, Hm2. rewrite bswap_u32 in Hm1, Hm2. rewrite Hxid in Hm2.
  rewrite Hr1, Hr2, Hl2, Hl1, Hoff, Hsrv.
  exists (skip ++ skip1), data1, from1, (skip2 ++ skip3), data2, from2, k1, k2, yi1, s1, yi2, (g w1).
  cbn zeta. rewrite <- !app_assoc. split_and!; first [done | apply Hk1 | apply Hk2].
Qed.

(** A server's reply to [sample_globals]: type [t], address [ip], and the given options. *)
Definition sample_reply (xid t : Z) (ip : bytes) (opts : bytes) : bytes :=
  splice 16 ip (splice 4 (le_bytes 4 (htonl xid)) (repeat 0 240)) ++ [53; 1; t] ++ opts ++ [255].

Definition sample_daemon (recvs : list recv) : daemon :=
  Daemon sample_globals [] [] [] [] [] recvs [].

Definition server_option : bytes := [54; 4; 10; 0; 2; 2].

Definition sample_exchange : list recv :=
  [RPacket [1; 2; 3] 7;
   RPacket (sample_reply 0x1234ABCD 2 [10; 0; 2; 15] server_option) 0x0202000A;
   RPacket (sample_reply 0x1234ABCD 5 [10; 0; 2; 15] (server_option ++ [51; 4; 0; 0; 0; 60])) 0x0202000A].

Lemma try_acquire_exchange_witness :
  exists w', try_acquire (sample_daemon sample_exchange) = Some (true, w') /\ length (e_log w') = 2%nat /\
    exists skip1 offer from rest, sample_exchange = skip1 ++ RPacket offer from :: rest.
Proof.
  destruct (try_acquire (sample_daemon sample_exchange)) as [[b w']|] eqn:E; [|by vm_compute in E].
  assert (b = true) as -> by (vm_compute in E; congruence).
  exists w'. split; [done|]. split; [vm_compute in E; injection E as <-; done|].
  destruct (try_acquire_exchange (sample_daemon sample_exchange) w' eq_refl E)
    as (skip1 & offer & from & skip2 & ack & from' & _ & _ & _ & _ & _ & _ & H & _).
  cbn [e_recvs sample_daemon] in H. by exists skip1, offer, from, (skip2 ++ RPacket ack from' :: e_recvs w').
Defined.

(** * The daemon *)

Section Daemon.

(** [m] always completes, and only appends to the log. *)
Definition completes {A} (m : M A) : Prop :=
  forall w, exists x w' evs, m w = Some (x, w') /\ e_log w' = e_log w ++ evs.

Lemma completes_ret {A} (x : A) : completes (mret x).
Proof. intros w. exists x, w, []. by rewrite app_nil_r. Qed.

Lemma completes_bind {A B} (m : M A) (k : A -> M B) :
  completes m -> (forall x, completes (k x)) -> completes (m ≫= k).
Proof.
  intros Hm Hk w. destruct (Hm w) as (x & w1 & e1 & E1 & L1). destruct (Hk x w1) as (y & w2 & e2 & E2 & L2).
  exists y, w2, (e1 ++ e2). unfold mbind, M_bind. rewrite E1, E2, L2, L1, app_assoc. done.
Qed.

Lemma completes_lift {A} (o : option A) : is_Some o -> completes (lift o).
Proof. intros [x ->] w. exists x, w, []. by rewrite app_nil_r. Qed.

Lemma completes_emit e : completes (emit e).
Proof. intros w. by exists tt, (Daemon (g w) (e_macs w) (e_times w) (e_socks w) (e_sends w) (e_opens w) (e_recvs w) (e_log w ++ [e])), [e]. Qed.

Lemma completes_sendto dst pkt : completes (sendto dst pkt).
Proof.
  intros w. unfold sendto. eexists _, _, (if hd true (e_sends w) then [ESend dst pkt] else []).
  split; [done|]. cbn. case_if; by rewrite ?app_nil_r.
Qed.

Lemma completes_quiet {A} (m : M A) : (forall w, exists x w', m w = Some (x, w') /\ e_log w' = e_log w) -> completes m.
Proof. intros H w. destruct (H w) as (x & w' & E & L). exists x, w', []. by rewrite app_nil_r. Qed.

Lemma completes_receive wait : wait_ok wait -> completes (receive wait).
Proof.
  intros H. apply completes_quiet. intros w. unfold receive.
  destruct (H (e_recvs w) (g w)) as (r & c & skip & recvs & -> & _). by repeat eexists.
Qed.

Lemma completes_retry n send wait : completes send -> completes wait -> completes (retry n send wait).
Proof.
  intros Hs Hw. induction n as [|n IH]; cbn [retry]; [apply completes_ret|].
  apply completes_bind; [done|]. intros [|]; [|done]. apply completes_bind; [done|].
  intros [| |]; [done|apply completes_ret..].
Qed.

Lemma count_ones_total fuel k n m :
  0 <= k <= 32 -> 0 <= m < 2 ^ 32 -> (2 ^ k | m) -> 32 < k + Z.of_nat fuel -> is_Some (count_ones fuel n m).
Proof.
  revert k n m. induction fuel as [|fuel IH]; intros k n m Hk Hm Hd Hf; [lia|].
  cbn [count_ones]. case_if; [by eexists|]. boolify.
  destruct (decide (k = 32)) as [->|].
  { exfalso. destruct Hd as [q Hq]. assert (E : m = 0) by lia. rewrite E in Heqb. by apply Heqb. }
  apply (IH (k + 1)); [lia|apply u32_range| |lia].
  unfold u32. rewrite Z.shiftl_mul_pow2 by lia. destruct Hd as [q ->].
  apply Z.mod_divide; [lia|]. rewrite <- Znumtheory.Zmod_div_mod; [|lia..|].
  - rewrite <- Z.mul_assoc, <- Z.pow_add_r by lia. apply Z.mod_mul. lia.
  - exists (2 ^ (32 - (k + 1))). rewrite <- Z.pow_add_r by lia. f_equal. lia.
Qed.

Lemma prefix_len_total m : is_Some (prefix_len m).
Proof.
  apply (count_ones_total 33 0); [lia| |apply Z.divide_1_l|lia].
  unfold ntohl, bswap. pose proof (le_value_range (rev (le_bytes 4 m))) as H.
  rewrite length_rev, length_le_bytes in H. apply H. apply Forall_rev, le_bytes_is_byte.
Qed.

Lemma backoff_total n : 0 < n -> exists d, backoff n = Some d /\ 4 <= d.
Proof.
  intros Hn. unfold backoff, MAX_ATTEMPTS. case_if; boolify.
  - assert (n ∈ [1; 2; 3; 4]) as H by (rewrite !elem_of_cons; lia).
    repeat (apply elem_of_cons in H as [->|H]; [by eexists|]). by apply not_elem_of_nil in H.
  - by exists 32.
Qed.

Ltac completes :=
  repeat first
    [ apply completes_ret | apply completes_emit | apply completes_sendto
    | apply completes_lift, prefix_len_total
    | apply completes_retry | apply completes_receive, wait_offer_ok | apply completes_receive, wait_ack_ok
    | apply completes_bind; [|intro]
    | case_if
    | apply completes_quiet; intros ?; by repeat eexists ].

Lemma completes_try_acquire : completes try_acquire.
Proof. unfold try_acquire, send_broadcast. completes. Qed.

Lemma completes_try_renew : completes try_renew.
Proof. unfold try_renew, send_unicast. completes. Qed.

Lemma completes_apply_config : completes apply_config.
Proof. unfold apply_config, write_resolv_conf. completes. Qed.

(** [m] completes and sleeps at least four seconds on the way. *)
Definition sleeps {A} (m : M A) : Prop :=
  forall w, exists x w' evs s, m w = Some (x, w') /\ e_log w' = e_log w ++ evs /\ ESleep s ∈ evs /\ 4 <= s.

Lemma sleeps_emit s : 4 <= s -> sleeps (emit (ESleep s)).
Proof. intros Hs w. eexists _, _, [ESleep s], s. split; [done|]. split; [done|]. split; [set_solver|done]. Qed.

Lemma sleeps_first {A B} (m : M A) (k : A -> M B) :
  sleeps m -> (forall x, completes (k x)) -> sleeps (m ≫= k).
Proof.
  intros Hm Hk w. destruct (Hm w) as (x & w1 & e1 & s & E1 & L1 & Hs). destruct (Hk x w1) as (y & w2 & e2 & E2 & L2).
  exists y, w2, (e1 ++ e2), s. unfold mbind, M_bind. rewrite E1, E2, L2, L1, app_assoc. set_solver.
Qed.

Lemma sleeps_then {A B} (m : M A) (k : A -> M B) :
  completes m -> (forall x, sleeps (k x)) -> sleeps (m ≫= k).
Proof.
  intros Hm Hk w. destruct (Hm w) as (x & w1 & e1 & E1 & L1). destruct (Hk x w1) as (y & w2 & e2 & s & E2 & L2 & Hs).
  exists y, w2, (e1 ++ e2), s. unfold mbind, M_bind. rewrite E1, E2, L2, L1, app_assoc. set_solver.
Qed.

Lemma attempt_completes n : completes (
  now ← time;
  _ ← modify (λ g, set_xid (make_xid (s_mac g) now) g);
  fd ← open_udp_sock;
  if negb fd then mret (Attempt (i32 (n + 1)))
  else
    ok ← try_acquire;
    if ok : bool then _ ← apply_config; mret Bound
    else _ ← emit EClose; mret (Attempt (i32 (n + 1)))).
Proof.
  pose proof completes_try_acquire. pose proof completes_apply_config.
  repeat first [done | completes].
Qed.

Lemma attempt_sleeps n : 0 < n -> sleeps (main_step (Attempt n)).
Proof.
  intros Hn. destruct (backoff_total n Hn) as (d & E & Hd). cbn [main_step].
  rewrite (proj2 (Z.ltb_lt 0 n)), E by lia. apply sleeps_first; [|intros; apply attempt_completes].
  change (lift (Some d) ≫= ?k) with (k d). apply sleeps_then; [completes|]. intros. by apply sleeps_emit.
Qed.

Lemma bound_sleeps : sleeps (main_step Bound).
Proof.
  pose proof completes_try_renew. cbn [main_step]. apply sleeps_then; [completes|]. intros c. cbn zeta.
  apply sleeps_first; [apply sleeps_emit; case_if; boolify; lia|]. intros. repeat first [done | completes].
Qed.

End Daemon.

(** every turn of [main] completes, whatever the network delivers and
    whichever calls fail: no receive loop or option scan hangs or reads
    outside its buffer.  And the daemon does not spin: a turn either sleeps at
    least four seconds, or finds the network card, or is a first attempt. *)
Theorem main_step_paced p w :
  exists p' w' evs, main_step p w = Some (p', w') /\ e_log w' = e_log w ++ evs /\
    ((exists s, ESleep s ∈ evs /\ 4 <= s) \/ (p = Probe /\ p' = Attempt 0) \/ exists n, p = Attempt n /\ n <= 0).
Proof.
  destruct p as [|n|].
  - cbn [main_step]. unfold mbind, M_bind, netcfg_mac, modify. destruct (has_mac (hd (repeat 0 6) (e_macs w))).
    + eexists _, _, []. split; [done|]. cbn. rewrite app_nil_r. auto.
    + eexists _, _, [ESleep 4]. split; [done|]. split; [done|]. left. exists 4. split; [set_solver|lia].
  - destruct (decide (0 < n)) as [Hn|Hn].
    + destruct (attempt_sleeps n Hn w) as (x & w' & evs & s & E & L & Hs). eauto 10.
    + cbn [main_step]. rewrite (proj2 (Z.ltb_ge 0 n)) by lia.
      destruct (attempt_completes n w) as (x & w' & evs & E & L).
      exists x, w', evs. split; [exact E|]. split; [done|]. right. right. exists n. split; [done|lia].
  - destruct (bound_sleeps w) as (x & w' & evs & s & E & L & Hs). eauto 10.
Qed.

(** * Renewals *)

(** A run from the first attempt with a card present. *)
Definition sample_run (n : nat) (recvs : list recv) : option (phase * daemon) :=
  main_steps n (Attempt 0) (sample_daemon recvs).

(** The transaction id when the clock shows 0. *)
Definition sample_xid : Z := make_xid (s_mac sample_globals) 0.

Definition last_netcfg (w : daemon) : option event :=
  last (List.filter (λ e, match e with ENetcfg _ _ _ => true | _ => false end) (e_log w)).

(** a renewal whose ACK carries another address, mask or resolver changes
    the client's variables but is never applied: the interface keeps the
    address of the first lease, although the client answers for the new one. *)
Theorem renewal_not_applied :
  let recvs :=
    [RPacket (sample_reply sample_xid 2 [10; 0; 2; 15] server_option) 0x0202000A;
     RPacket (sample_reply sample_xid 5 [10; 0; 2; 15] server_option) 0x0202000A;
     RPacket (sample_reply sample_xid 5 [10; 0; 2; 99] server_option) 0x0202000A] in
  exists w, sample_run 2 recvs = Some (Bound, w) /\
    s_ip (g w) = le_value [10; 0; 2; 99] /\
    last_netcfg w = Some (ENetcfg (le_value [10; 0; 2; 15]) (le_value [255; 255; 255; 0]) 0).
Proof. eexists. split; [vm_compute; reflexivity|]. split; vm_compute; reflexivity. Qed.

(** an ACK without a server identifier makes the client forget its server:
    parsing resets the variable and only the OFFER falls back to the sender's
    address, so the renewals go to 0.0.0.0. *)
Theorem renewal_server_forgotten :
  let recvs :=
    [RPacket (sample_reply sample_xid 2 [10; 0; 2; 15] []) 0x0202000A;
     RPacket (sample_reply sample_xid 5 [10; 0; 2; 15] []) 0x0202000A] in
  exists w pkt, sample_run 2 recvs = Some (Attempt 0, w) /\ ESend 0 pkt ∈ e_log w.
Proof.
  eexists _, _. split; [vm_compute; reflexivity|]. cbn [e_log].
  do 6 (apply elem_of_cons; right). apply elem_of_cons. by left.
Qed.
