(* ===== verification/Vigil.v ===== *)
(** vigil, the init process and service supervisor (src/user/bin/vigil/main.c),
    and vigictl, its control program (src/user/bin/vigictl/main.c).

    The supervisor's state is the table [s_svcs] with the counters beside it,
    the kernel's view of vigil's children, and the trace of what vigil emitted.
    Nothing vigil decides depends on whether a log line reached the disk, so the
    logging calls are trace events here and [persistent_log] gives the event of
    that name its effect on the file system of [Posix].

    The kernel is an oracle: [k_fork n children] is the answer to the n-th fork,
    [k_dead] the deaths [waitpid] reports next.  A death is reported only for a
    child, and once. *)

From S2P Require Import Prelude CString Posix HeraldTxn HeraldDb HeraldRepo.
Local Open Scope Z_scope.

(** * Definitions *)

Definition VIGIL_MAX_SERVICES : nat := 32.
Definition VIGIL_CMD_PATH : bytes := B "/run/vigil.cmd".
Definition VIGIL_SERVICES_DIR : bytes := B "/etc/vigil/services".
Definition VIGIL_PID_PATH : bytes := B "/run/vigil.pid".
Definition VIGIL_ERROR_LOG : bytes := B "/run/vigil-errors.log".
Definition VIGIL_LOG : bytes := B "/var/log/vigil.log".
Definition VIGIL_PREVIOUS_LOG : bytes := B "/var/log/vigil.previous.log".
Definition VIGIL_LOG_MAX : Z := 64 * 1024.
Definition VIGIL_ERROR_MAX : Z := 128.

Inductive policy_t := POLICY_RESPAWN | POLICY_ONESHOT.

#[global] Instance policy_eq_dec : EqDecision policy_t.
Proof. solve_decision. Defined.

Record service_t := Service {
  s_name : bytes;
  s_run_cmd : bytes;
  s_mode : bytes;
  s_cmdline_tok : bytes;
  s_policy : policy_t;
  s_max_restarts : Z;
  s_pid : Z;
  s_restarts : Z;
  s_active : bool;
  s_expected_stop : bool
}.

Definition set_pid (s : service_t) (p : Z) : service_t :=
  Service (s_name s) (s_run_cmd s) (s_mode s) (s_cmdline_tok s) (s_policy s) (s_max_restarts s)
    p (s_restarts s) (s_active s) (s_expected_stop s).
Definition set_restarts (s : service_t) (n : Z) : service_t :=
  Service (s_name s) (s_run_cmd s) (s_mode s) (s_cmdline_tok s) (s_policy s) (s_max_restarts s)
    (s_pid s) n (s_active s) (s_expected_stop s).
Definition set_active (s : service_t) (a : bool) : service_t :=
  Service (s_name s) (s_run_cmd s) (s_mode s) (s_cmdline_tok s) (s_policy s) (s_max_restarts s)
    (s_pid s) (s_restarts s) a (s_expected_stop s).
Definition set_expected_stop (s : service_t) (e : bool) : service_t :=
  Service (s_name s) (s_run_cmd s) (s_mode s) (s_cmdline_tok s) (s_policy s) (s_max_restarts s)
    (s_pid s) (s_restarts s) (s_active s) e.

Inductive event :=
  | EvStarted (i : nat) (pid : Z)
  | EvKill (pid : Z) (sig : Z)
  | EvError (line : bytes)                    (** a line of the error log *)
  | EvPersist (level subject detail : bytes)  (** a call of [persistent_log] *)
  | EvStatus (line : bytes).

Record kernel := Kernel {
  k_children : gset Z;
  k_fork : nat -> gset Z -> Z + Z;  (** the child, or [errno] *)
  k_nfork : nat;
  k_dead : list (Z * wstatus)
}.

Record sup := Sup {
  svcs : list service_t;
  error_count : Z;
  kern : kernel;
  trace : list event  (** newest first *)
}.

Definition SIGTERM : Z := 15.
Definition SIGKILL : Z := 9.

(** ** Kernel calls *)

Definition fork (k : kernel) : (Z + Z) * kernel :=
  match k_fork k (k_nfork k) (k_children k) with
  | inl p => (inl p, Kernel ({[p]} ∪ k_children k) (k_fork k) (S (k_nfork k)) (k_dead k))
  | inr e => (inr e, Kernel (k_children k) (k_fork k) (S (k_nfork k)) (k_dead k))
  end.

(** [waitpid(-1, &status, WNOHANG)] *)
Definition waitpid (k : kernel) : option (Z * wstatus) * kernel :=
  match k_dead k with
  | [] => (None, k)
  | (p, st) :: rest =>
      if decide (p ∈ k_children k)
      then (Some (p, st), Kernel (k_children k ∖ {[p]}) (k_fork k) (k_nfork k) rest)
      else (None, Kernel (k_children k) (k_fork k) (k_nfork k) rest)
  end.

(** ** Errors *)

Definition emit (s : sup) (e : event) : sup := Sup (svcs s) (error_count s) (kern s) (e :: trace s).

Definition service_error (name detail : bytes) (s : sup) : sup :=
  let who := match name with [] => B "service" | _ => name end in
  let line := fit 256 (who ++ B ": " ++ detail ++ [LF]) in
  if error_count s <? VIGIL_ERROR_MAX then
    Sup (svcs s) (error_count s + 1) (kern s) (EvPersist (B "error") who detail :: EvError line :: trace s)
  else if error_count s =? VIGIL_ERROR_MAX then
    Sup (svcs s) (error_count s + 1) (kern s)
      (EvPersist (B "error") (B "vigil") (B "error limit reached; later errors are console-only") :: trace s)
  else s.

(** ** Services *)

Definition put (s : sup) (i : nat) (svc : service_t) : sup :=
  Sup (<[i := svc]> (svcs s)) (error_count s) (kern s) (trace s).

(** [start_service(&s_svcs[i])] in the parent; the child execs [run_cmd]. *)
Definition start_service (i : nat) (s : sup) : sup :=
  match svcs s !! i with
  | None => s
  | Some svc =>
      if 0 <? s_pid svc then s else
      let '(r, k) := fork (kern s) in
      match r with
      | inl p => Sup (<[i := set_pid svc p]> (svcs s)) (error_count s) k (EvStarted i p :: trace s)
      | inr e => service_error (s_name svc) (B "fork failed (errno=" ++ print_dec e ++ B ")")
                   (Sup (svcs s) (error_count s) k (trace s))
      end
  end.

Definition failed (st : wstatus) : bool :=
  match st with Exited c => negb (c =? 0) | Signaled _ => true end.

Definition death_detail (st : wstatus) : bytes :=
  match st with
  | Exited c => B "exited with status " ++ print_dec c
  | Signaled g => B "terminated by signal " ++ print_dec g
  end.

(** The index of the service that runs as [p]: where the loop over the table
    finds it. *)
Fixpoint find_pid (p : Z) (l : list service_t) : option nat :=
  match l with
  | [] => None
  | x :: l => if s_pid x =? p then Some 0%nat else S <$> find_pid p l
  end.

(** The body of the reaping loop for one dead child. *)
Definition reap (p : Z) (st : wstatus) (s : sup) : sup :=
  match find_pid p (svcs s) with
  | None => s
  | Some i =>
      match svcs s !! i with
      | None => s
      | Some svc =>
          let expected := s_expected_stop svc in
          let svc := set_expected_stop (set_pid svc (-1)) false in
          let s := put s i svc in
          let s := if negb expected && failed st then service_error (s_name svc) (death_detail st) s else s in
          if negb (s_active svc) then s
          else if decide (s_policy svc = POLICY_ONESHOT) then put s i (set_active svc false)
          else if s_max_restarts svc <=? s_restarts svc then put s i (set_active svc false)
          else start_service i (put s i (set_restarts svc (s_restarts svc + 1)))
      end
  end.

(** [while ((dead = waitpid(...)) > 0)]; every turn consumes a reported death. *)
Fixpoint reap_all (fuel : nat) (s : sup) : sup :=
  match fuel with
  | O => s
  | S fuel =>
      let '(r, k) := waitpid (kern s) in
      let s := Sup (svcs s) (error_count s) k (trace s) in
      match r with
      | None => s
      | Some (p, st) => reap_all fuel (reap p st s)
      end
  end.

(** Retry services a failed fork left without a process. *)
Fixpoint retry_from (i n : nat) (s : sup) : sup :=
  match n with
  | O => s
  | S n =>
      let s := match svcs s !! i with
               | Some svc => if s_active svc && (s_pid svc <=? 0) then start_service i s else s
               | None => s
               end in
      retry_from (S i) n s
  end.

(** ** Commands *)

(** [read_file]: at most [bufsz - 1] bytes, line ends and blanks stripped. *)
Definition is_line_end (c : byte) : bool := (c =? LF) || (c =? CR) || (c =? SP).
Definition file_text (bufsz : nat) (data : bytes) : bytes := rstrip is_line_end (take (bufsz - 1) data).

Definition status_line (svc : service_t) : bytes :=
  B "vigil: service " ++ s_name svc ++ B " pid=" ++ print_dec (s_pid svc) ++ B " restarts=" ++
  print_dec (s_restarts svc) ++ [LF].

(** What a command does to the service at [i]. *)
Definition command_one (cmd : bytes) (i : nat) (s : sup) : sup :=
  match svcs s !! i with
  | None => s
  | Some svc =>
      if beq cmd (B "stop") || beq cmd (B "restart") then
        let restart := beq cmd (B "restart") in
        let running := 0 <? s_pid svc in
        let s := if running then emit s (EvKill (s_pid svc) SIGTERM) else s in
        let svc := if running then set_expected_stop svc true else svc in
        let svc := set_active svc restart in
        if restart then
          let s := put s i (set_restarts svc 0) in
          if running then s else start_service i s
        else put s i svc
      else if beq cmd (B "start") then
        start_service i (put s i (set_restarts (set_active svc true) 0))
      else s
  end.

Fixpoint command_each (cmd name : bytes) (i n : nat) (s : sup) : sup :=
  match n with
  | O => s
  | S n =>
      let s := match svcs s !! i with
               | Some svc => if beq (s_name svc) name then command_one cmd i s else s
               | None => s
               end in
      command_each cmd name (S i) n s
  end.

(** [process_cmd] on the contents of the command file. *)
Definition run_cmd (text : bytes) (s : sup) : sup :=
  match cstr text with
  | [] => s
  | (_ :: _) as cmd =>
      if starts_with (B "status") cmd then
        foldl (λ s svc, emit s (EvStatus (status_line svc))) s (svcs s)
      else
        match cut SP cmd with
        | None => s
        | Some (verb, name) => command_each verb name 0 (length (svcs s)) s
        end
  end.

(** ** The supervisor *)

(** One turn of the main loop: the command file, if SIGUSR1 arrived and it could
    be read, and the deaths reported in this turn. *)
Record input := Input { in_cmd : option bytes; in_dead : list (Z * wstatus) }.

Definition feed_kernel (s : sup) (d : list (Z * wstatus)) : sup :=
  let k := kern s in
  Sup (svcs s) (error_count s) (Kernel (k_children k) (k_fork k) (k_nfork k) d) (trace s).

Definition supervise (inp : input) (s : sup) : sup :=
  let s := match in_cmd inp with
           | Some data => run_cmd (file_text 192 data) s
           | None => s
           end in
  let s := feed_kernel s (in_dead inp) in
  let s := reap_all (length (in_dead inp)) s in
  retry_from 0 (length (svcs s)) s.

(** The services that are started at boot: the filters of [main]. *)
Definition gated (boot_mode cmdline : bytes) (svc : service_t) : bool :=
  (negb (beq (s_mode svc) []) && negb (beq (s_mode svc) boot_mode)) ||
  (negb (beq (s_cmdline_tok svc) []) && negb (contains (s_cmdline_tok svc) cmdline)).

Fixpoint boot_from (boot_mode cmdline : bytes) (i n : nat) (s : sup) : sup :=
  match n with
  | O => s
  | S n =>
      let s := match svcs s !! i with
               | Some svc => if gated boot_mode cmdline svc then put s i (set_active svc false)
                             else start_service i s
               | None => s
               end in
      boot_from boot_mode cmdline (S i) n s
  end.

(** ** Shutdown *)

Definition running (svc : service_t) : bool := 0 <? s_pid svc.

Definition kill_all (sig : Z) (s : sup) : sup :=
  foldl (λ s svc, if running svc then emit s (EvKill (s_pid svc) sig) else s) s (svcs s).

Definition forget (p : Z) (s : sup) : sup :=
  Sup ((λ svc, if s_pid svc =? p then set_pid svc (-1) else svc) <$> svcs s) (error_count s) (kern s) (trace s).

Fixpoint forget_all (fuel : nat) (s : sup) : sup :=
  match fuel with
  | O => s
  | S fuel =>
      let '(r, k) := waitpid (kern s) in
      let s := Sup (svcs s) (error_count s) k (trace s) in
      match r with
      | None => s
      | Some (p, _) => forget_all fuel (forget p s)
      end
  end.

(** The waiting loop; [rounds] lists the deaths of each second. *)
Fixpoint drain (n : nat) (rounds : list (list (Z * wstatus))) (s : sup) : sup :=
  match n with
  | O => s
  | S n =>
      if negb (existsb running (svcs s)) then s else
      let d := default [] (head rounds) in
      drain n (tail rounds) (forget_all (length d) (feed_kernel s d))
  end.

Definition shutdown_all (rounds : list (list (Z * wstatus))) (s : sup) : sup :=
  kill_all SIGKILL (drain 5 rounds (kill_all SIGTERM s)).

(** ** Files *)

Definition vigil_read_file (path : bytes) (bufsz : nat) : M (option bytes) :=
  f ← sys_read path;
  mret (match f with inl (_, data) => Some (file_text bufsz data) | inr _ => None end).

(** [process_cmd] *)
Definition process_cmd (s : sup) : M sup :=
  r ← vigil_read_file VIGIL_CMD_PATH 192;
  match r with
  | None | Some [] => mret s
  | Some text => _ ← sys_unlink VIGIL_CMD_PATH; mret (run_cmd text s)
  end.

(** [open(path, O_WRONLY | O_CREAT | O_APPEND, 0644)], one line, [close]. *)
Definition append_line (path line : bytes) : M unit :=
  f ← sys_open_create_append path 420;
  match f with
  | inr _ => mret tt
  | inl fd => _ ← write_loop (length line) fd line; _ ← sys_close fd; mret tt
  end.

Definition file_size (fd : path) (fs : fsys) : Z + errno :=
  match fs !! fd with Some (Reg _ d) => inl (Z.of_nat (length d)) | _ => inr EIO end.

Definition log_line (boot_id : bytes) (ms : Z) (level subject detail : bytes) : bytes :=
  fit 512 (B "boot=" ++ (match boot_id with [] => B "unknown" | _ => boot_id end) ++ B " ms=" ++ print_dec ms ++
           B " level=" ++ level ++ SP :: subject ++ B ": " ++ detail ++ [LF]).

Definition persistent_log (boot_id : bytes) (ms : Z) (level subject detail : bytes) : M unit :=
  let line := log_line boot_id ms level subject detail in
  f ← sys_open_create_append VIGIL_LOG 420;
  match f with
  | inr _ => mret tt
  | inl fd =>
      st ← pure_op (file_size fd);
      _ ← match st with
          | inl size => if size + Z.of_nat (length line) <=? VIGIL_LOG_MAX
                        then write_loop (length line) fd line else mret 0
          | inr _ => mret 0
          end;
      _ ← sys_close fd; mret tt
  end.

Record previous_boot_t := PreviousBoot { pb_exists : bool; pb_clean : bool; pb_errors : Z; pb_boot_id : bytes }.

Definition is_id_end (c : byte) : bool := (c =? SP) || (c =? CR) || (c =? LF).

(** The body of the loop of [read_previous_boot]. *)
Definition previous_line (p : previous_boot_t) (l : bytes) : previous_boot_t :=
  let line := cstr l in
  let id := if beq (pb_boot_id p) [] && starts_with (B "boot=") line
            then take 32 (take_while (λ c, negb (is_id_end c)) (drop 5 line)) else pb_boot_id p in
  PreviousBoot (pb_exists p) (pb_clean p || contains (B "end=clean") line)
    (if contains (B "level=error") line || contains (B "level=panic") line then pb_errors p + 1 else pb_errors p) id.

Definition read_previous_boot : M previous_boot_t :=
  f ← sys_read VIGIL_PREVIOUS_LOG;
  mret (match f with
        | inr _ => PreviousBoot false false 0 []
        | inl (_, data) => foldl previous_line (PreviousBoot true false 0 []) (fgets_lines 512 data)
        end).

(** [make_boot_id]: [random] is what reading /dev/urandom delivered, [seed] the
    clock and the process id mixed together. *)
Fixpoint mix (n : nat) (x : Z) : bytes :=
  match n with
  | O => []
  | S n => let x := u64 (x * 1103515245 + 12345) in u8 (Z.shiftr x 16) :: mix n x
  end.

Definition make_boot_id (random : bytes) (seed : Z) : bytes :=
  to_hex (if (length random =? 16)%nat then random else mix 16 seed).

(** The split of [s] at the first occurrence of [pat] ([strstr]). *)
Fixpoint find_str (pat acc s : bytes) : option (bytes * bytes) :=
  if starts_with pat s then Some (rev acc, s)
  else match s with [] => None | c :: s => find_str pat (c :: acc) s end.

(** The line of the kernel log that is reported, and its level. *)
Definition kernel_summary (buf : bytes) : option (bytes * bytes) :=
  let line '(before, hit) :=
    let start := match rcut LF before with Some (_, l) => l | None => before end in
    fit 256 (take_while (λ c, negb ((c =? CR) || (c =? LF))) (start ++ hit)) in
  match find_str (B "[PANIC]") [] buf with
  | Some x => Some (B "panic", line x)
  | None =>
  match find_str (B "[ASSERT] FAIL") [] buf with
  | Some x => Some (B "panic", line x)
  | None =>
  match find_str (B "not cleanly unmounted") [] buf with
  | Some x => Some (B "warning", line x)
  | None => None
  end
  end
  end.

Definition log_kernel_summary (boot_id : bytes) (ms : Z) : M unit :=
  r ← vigil_read_file (B "/proc/dmesg") 4096;
  match r with
  | None | Some [] => mret tt
  | Some buf =>
      match kernel_summary (cstr buf) with
      | None => mret tt
      | Some (kind, summary) =>
          _ ← persistent_log boot_id ms kind (B "kernel") summary;
          append_line VIGIL_ERROR_LOG (fit 320 (B "Kernel: " ++ summary ++ [LF]))
      end
  end.

Definition previous_report (prev : previous_boot_t) : bytes :=
  let id := match pb_boot_id prev with [] => B "unknown" | i => i end in
  if negb (pb_clean prev) then
    B "Previous boot " ++ id ++ B " ended uncleanly (panic, reset, or power loss); see " ++ VIGIL_PREVIOUS_LOG ++ [LF]
  else B "Previous boot " ++ id ++ B " recorded " ++ print_dec (pb_errors prev) ++ B " error(s); see " ++
       VIGIL_PREVIOUS_LOG ++ [LF].

(** [clock] gives the readings of [prof_ms] in order. *)
Definition diagnostics_init (boot_id boot_mode : bytes) (clock : nat -> Z) : M unit :=
  _ ← sys_mkdir (B "/var");
  _ ← sys_mkdir (B "/var/log");
  st ← sys_lstat VIGIL_LOG;
  fresh ← match st with
          | inl _ => r ← sys_rename VIGIL_LOG VIGIL_PREVIOUS_LOG; mret (rc r =? 0)
          | inr _ => mret true
          end;
  f ← (if fresh : bool then sys_open_trunc VIGIL_LOG 420 else sys_open_create_append VIGIL_LOG 420);
  _ ← match f with inl fd => zero (sys_close fd) | inr _ => mret 0 end;
  _ ← sys_unlink VIGIL_ERROR_LOG;
  _ ← persistent_log boot_id (clock 0%nat) (B "info") (B "vigil") (B "start mode=" ++ boot_mode);
  _ ← log_kernel_summary boot_id (clock 1%nat);
  prev ← read_previous_boot;
  if negb (pb_exists prev) || (pb_clean prev && (pb_errors prev =? 0)) then mret tt else
  _ ← append_line VIGIL_ERROR_LOG (fit 256 (previous_report prev));
  if negb (pb_clean prev)
  then persistent_log boot_id (clock 2%nat) (B "warning") (B "previous-boot") (B "ended uncleanly (panic, reset, or power loss)")
  else mret tt.

(** ** Loading services *)

Definition service_file (name file : bytes) : bytes :=
  fit 320 (VIGIL_SERVICES_DIR ++ SLASH :: name ++ SLASH :: file).

Definition parse_policy (pol : bytes) : policy_t * Z :=
  (if starts_with (B "oneshot") pol then POLICY_ONESHOT else POLICY_RESPAWN,
   match find_str (B "max_restarts=") [] pol with
   | Some (_, hit) => atoi (drop 13 hit)
   | None => 5
   end).

(** A file that may be missing: the buffer keeps its default. *)
Definition text_or (dflt : bytes) (r : option bytes) : bytes :=
  match r with Some t => cstr t | None => dflt end.

Definition load_service (name : bytes) (l : list service_t) : M (list service_t) :=
  if (VIGIL_MAX_SERVICES <=? length l)%nat then mret l else
  r ← vigil_read_file (service_file name (B "run")) 256;
  match r with
  | None | Some [] => mret l
  | Some run =>
      pol ← vigil_read_file (service_file name (B "policy")) 128;
      mode ← vigil_read_file (service_file name (B "mode")) 16;
      tok ← vigil_read_file (service_file name (B "cmdline")) 48;
      let '(policy, max) := parse_policy (text_or (B "respawn") pol) in
      mret (l ++ [Service (fit 64 name) (cstr run) (text_or [] mode) (text_or [] tok) policy max (-1) 0 true false])
  end.

(** The directory entries [getdents64] reports, with their types. *)
Definition fs_dents (s : bytes) (fs : fsys) : (list (name * bool) + errno) * fsys :=
  match (fs_list s fs).1 with
  | inr e => (inr e, fs)
  | inl l => (inl ((λ n, (n, bool_decide (get fs (resolve s ++ [n]) = Some Dir))) <$> l), fs)
  end.

Definition sys_getdents (s : bytes) : M (list (name * bool) + errno) := op (fs_dents s).

Fixpoint load_each (ns : list (name * bool)) (l : list service_t) : M (list service_t) :=
  match ns with
  | [] => mret l
  | (n, is_dir) :: ns =>
      l' ← (if negb (starts_with [DOT] n) && is_dir then load_service n l else mret l);
      load_each ns l'
  end.

Definition scan_services : M (list service_t) :=
  d ← sys_getdents VIGIL_SERVICES_DIR;
  match d with
  | inr _ => mret []
  | inl ns => load_each ns []
  end.

(** The built-in service when none was found. *)
Definition getty : service_t :=
  Service (B "getty") (B "/bin/login") [] [] POLICY_RESPAWN 5 (-1) 0 true false.

(** ** First boot *)

Definition installer_paths : list bytes :=
  [B "/apps/gui-installer/gui-installer"; B "/apps/gui-installer/app.ini"; B "/bin/installer";
   B "/etc/aegis/caps.d/gui-installer"; B "/etc/aegis/caps.d/installer"].

Fixpoint unlink_each (ps : list bytes) : M unit :=
  match ps with [] => mret tt | p :: ps => _ ← sys_unlink p; unlink_each ps end.

Definition exists_file (p : bytes) : M bool :=
  a ← sys_access p; mret (match a with inl _ => true | inr _ => false end).

(** [access(p, X_OK)] for the superuser. *)
Definition executable (p : bytes) : M bool :=
  a ← sys_access p;
  mret (match a with
        | inl (Reg mode _) => negb (Z.land mode 73 =? 0)
        | inl _ => true
        | inr _ => false
        end).

Definition remove_installers_if_installed (is_live : bool) : M unit :=
  if is_live then mret tt else
  a ← exists_file (B "/apps/gui-installer/gui-installer");
  c ← (if a : bool then mret true else exists_file (B "/bin/installer"));
  if negb c then mret tt else
  _ ← unlink_each installer_paths;
  _ ← sys_rmdir (B "/apps/gui-installer");
  _ ← sys_unlink (B "/etc/aegis/autologin");
  _ ← sys_sync; mret tt.

(** [configure] is the run of /bin/configure as a child that is waited for. *)
Definition run_first_boot_setup (configure : M unit) : M unit :=
  done ← exists_file (B "/etc/aegis/configured");
  if done : bool then mret tt else
  present ← executable (B "/bin/configure");
  if negb present then
    f ← sys_open_trunc (B "/etc/aegis/configured") 420;
    match f with
    | inr _ => mret tt
    | inl fd => _ ← sys_write fd (B "1" ++ [LF]); _ ← sys_close fd; _ ← sys_sync; mret tt
    end
  else
    _ ← configure;
    now ← exists_file (B "/etc/aegis/configured");
    if now : bool then _ ← sys_unlink (B "/bin/configure"); _ ← sys_sync; mret tt else mret tt.

(** ** Booting *)

Definition boot_mode_of (cmdline : bytes) (bastion : bool) : bytes :=
  if contains (B "boot=graphical") cmdline then B "graphical"
  else if contains (B "boot=text") cmdline then B "text"
  else if bastion then B "graphical" else B "text".

(** The notice about an unfinished update. *)
Definition update_notice : bytes :=
  B "System update incomplete; run lorica-update to finish, or 'herald recover rollback'".

Definition append_notice : M unit :=
  f ← sys_open_create_append VIGIL_ERROR_LOG 420;
  match f with
  | inr _ => mret tt
  | inl fd =>
      _ ← write_loop (length update_notice) fd update_notice;
      _ ← write_loop 1 fd [LF];
      _ ← sys_close fd; mret tt
  end.

(** [main] up to the supervisor's loop: the table with its services started. *)
Definition boot (random : bytes) (seed pid : Z) (clock : nat -> Z) (configure : M unit) (k : kernel) : M sup :=
  c ← vigil_read_file (B "/proc/cmdline") 256;
  let cmdline := text_or [] c in
  bastion ← (if contains (B "boot=graphical") cmdline || contains (B "boot=text") cmdline then mret false
             else executable (B "/bin/bastion"));
  let mode := boot_mode_of cmdline bastion in
  let id := make_boot_id random seed in
  _ ← diagnostics_init id mode clock;
  p ← exists_file (B "/etc/aegis/update/pending");
  u ← (if p : bool then mret true else exists_file (B "/etc/aegis/herald/transaction/state"));
  _ ← (if u : bool then
         _ ← append_notice;
         persistent_log id (clock 3%nat) (B "error") (B "lorica-update") update_notice
       else mret tt);
  f ← sys_open_trunc VIGIL_PID_PATH 420;
  _ ← match f with
      | inr _ => mret tt
      | inl fd => _ ← sys_write fd (print_dec pid ++ [LF]); _ ← sys_close fd; mret tt
      end;
  _ ← run_first_boot_setup configure;
  _ ← remove_installers_if_installed (contains (B "aegis_live") cmdline);
  l ← scan_services;
  let l := match l with [] => [getty] | _ => l end in
  mret (boot_from mode cmdline 0 (length l) (Sup l 0 k [])).

(** [main] after its loop: the argument of the reboot call, 1 after SIGINT. *)
Definition power_down (rounds : list (list (Z * wstatus))) (boot_id : bytes) (ms : Z) (got_reboot : bool) (s : sup) :
  M (sup * Z) :=
  let s := shutdown_all rounds s in
  _ ← persistent_log boot_id ms (B "info") (B "vigil") (B "end=clean");
  _ ← sys_sync;
  mret (s, if got_reboot then 1 else 0).

(** ** vigictl *)

(** The text vigictl writes for a command line, if it writes any. *)
Definition vigictl_text (argv : list bytes) : option bytes :=
  match argv with
  | [] => None
  | cmd :: args =>
      if beq cmd (B "status") then Some (B "status")
      else match args with
           | arg :: _ => if beq cmd (B "start") || beq cmd (B "stop") || beq cmd (B "restart")
                         then Some (fit 192 (cmd ++ SP :: arg)) else None
           | [] => None
           end
  end.

Definition write_cmd (cmd : bytes) : M Z :=
  f ← sys_open_trunc VIGIL_CMD_PATH 384;
  match f with
  | inr _ => mret (-1)
  | inl fd => _ ← sys_write fd cmd; _ ← sys_write fd [LF]; _ ← sys_close fd; mret 0
  end.

Definition read_vigil_pid : M Z :=
  f ← sys_read VIGIL_PID_PATH;
  mret (match f with
        | inr _ => -1
        | inl (_, data) => match take 31 data with [] => -1 | buf => atoi (cstr buf) end
        end).

Definition SIGUSR1 : Z := 10.

(** The exit status of vigictl and the signal it sent, if it sent one; [argv]
    without the program's name. *)
Definition vigictl (argv : list bytes) : M (Z * option (Z * Z)) :=
  match argv with
  | [] => mret (1, None)
  | cmd :: _ =>
      pid ← read_vigil_pid;
      if pid <=? 0 then mret (1, None)
      else if beq cmd (B "shutdown") then mret (0, Some (pid, SIGTERM))
      else match vigictl_text argv with
      | None => mret (1, None)
      | Some text =>
          w ← write_cmd text;
          mret (if w <? 0 then (1, None) else (0, Some (pid, SIGUSR1)))
      end
  end.
