(* ===== verification/VigilSafety.v ===== *)
(** The supervisor of vigil: its invariant, and what follows from it.

    The invariant ties the service table to the kernel's process table: every
    child of vigil is the process of exactly one service.  On top of it: the
    restart budget bounds how often a service is started, every pass leaves the
    active services running, a stopped service stays stopped, and shutdown
    reaches every child.  The last part is about the log file and the first
    boot. *)

From S2P Require Import Prelude CString Posix PosixLogic HeraldTxn HeraldTxnSpecs Vigil.
Local Open Scope Z_scope.

(** * Definitions *)

(** The service at [i] runs as process [p]. *)
Definition runs (l : list service_t) (i : nat) (p : Z) : Prop :=
  exists svc, l !! i = Some svc /\ s_pid svc = p /\ 0 < p.

(** The table and the set of children describe the same processes. *)
Record links (l : list service_t) (C : gset Z) : Prop := {
  li_child p : p ∈ C <-> exists i, runs l i p;
  li_one i j p : runs l i p -> runs l j p -> i = j
}.

(** The kernel hands out process ids that are positive and not in use. *)
Definition fork_fresh (k : kernel) : Prop := forall n C p, k_fork k n C = inl p -> 0 < p /\ p ∉ C.

Definition is_error (e : event) : bool := match e with EvError _ => true | _ => false end.

Definition service_ok (svc : service_t) : Prop := 0 <= s_restarts svc <= Z.max 0 (s_max_restarts svc).

Record sup_ok (s : sup) : Prop := {
  so_links : links (svcs s) (k_children (kern s));
  so_services : Forall service_ok (svcs s);
  so_fork : fork_fresh (kern s);
  so_count : 0 <= error_count s <= VIGIL_ERROR_MAX + 1;
  so_errors : Z.of_nat (length (filter (λ e, is_error e = true) (trace s))) = Z.min (error_count s) VIGIL_ERROR_MAX
}.

(** How often the service at [i] was started. *)
Definition is_start (i : nat) (e : event) : bool := match e with EvStarted j _ => (j =? i)%nat | _ => false end.

Definition starts (i : nat) (tr : list event) : Z := Z.of_nat (length (filter (λ e, is_start i e = true) tr)).

(** The starts a service has left before the supervisor gives up on it. *)
Definition budget (svc : service_t) : Z :=
  if s_active svc then Z.max 0 (s_max_restarts svc - s_restarts svc) + (if s_pid svc <=? 0 then 1 else 0) else 0.

Definition budget_at (i : nat) (s : sup) : Z := match svcs s !! i with Some svc => budget svc | None => 0 end.

(** Starts so far plus starts left: what the supervisor never increases. *)
Definition potential (i : nat) (s : sup) : Z := starts i (trace s) + budget_at i s.

Definition all_running (s : sup) : Prop :=
  forall i svc, svcs s !! i = Some svc -> s_active svc = true -> 0 < s_pid svc.

Definition run_passes (inps : list input) (s : sup) : sup := foldl (λ s inp, supervise inp s) s inps.

(** * The process table *)

Section Links.

Implicit Types (l : list service_t) (C : gset Z) (i j : nat) (p : Z).

Lemma runs_insert l i svc svc' j p :
  l !! i = Some svc ->
  runs (<[i := svc']> l) j p <-> (j = i /\ s_pid svc' = p /\ 0 < p) \/ (j ≠ i /\ runs l j p).
Proof.
  intros Hi. assert (Hl : (i < length l)%nat) by (by eapply lookup_lt_Some). unfold runs. split.
  - intros (x & Hx & Hp & H0). destruct (decide (j = i)) as [->|].
    + rewrite list_lookup_insert_eq in Hx by done. injection Hx as <-. by left.
    + rewrite list_lookup_insert_ne in Hx by done. right. split; [done|]. by exists x.
  - intros [(-> & Hp & H0)|(Hne & x & Hx & Hp & H0)].
    + exists svc'. by rewrite list_lookup_insert_eq.
    + exists x. by rewrite list_lookup_insert_ne.
Qed.

Lemma links_same l C i svc svc' :
  links l C -> l !! i = Some svc -> s_pid svc' = s_pid svc -> links (<[i := svc']> l) C.
Proof.
  intros [Hc H1] Hi Hp.
  assert (Hr : forall j p, runs (<[i := svc']> l) j p <-> runs l j p).
  { intros j p. rewrite (runs_insert _ _ svc) by done. split.
    - intros [(-> & <- & H0)|[_ H]]; [|done]. exists svc. by rewrite <- Hp.
    - intros H. destruct (decide (j = i)) as [->|]; [|by right]. left.
      destruct H as (x & Hx & <- & H0). rewrite Hi in Hx. by injection Hx as <-. }
  split.
  - intros p. rewrite Hc. by setoid_rewrite Hr.
  - intros a b p Ha Hb. apply (H1 a b p); by apply Hr.
Qed.

Lemma links_start l C i svc p :
  links l C -> l !! i = Some svc -> s_pid svc <= 0 -> 0 < p -> p ∉ C ->
  links (<[i := set_pid svc p]> l) ({[p]} ∪ C).
Proof.
  intros [Hc H1] Hi Hn H0 Hp. split.
  - intros q. rewrite elem_of_union, elem_of_singleton. split.
    + intros [-> | Hq].
      * exists i. rewrite (runs_insert _ _ svc) by done. by left.
      * apply Hc in Hq as [j Hj]. exists j. rewrite (runs_insert _ _ svc) by done. right. split; [|done].
        intros ->. destruct Hj as (x & Hx & <- & ?). rewrite Hi in Hx. injection Hx as <-. lia.
    + intros [j Hj]. rewrite (runs_insert _ _ svc) in Hj by done.
      cbn [set_pid s_pid] in Hj.
      destruct Hj as [(_ & <- & _)|[_ Hj]]; [by left|]. right. apply Hc. by exists j.
  - intros a b q Ha Hb. rewrite (runs_insert _ _ svc) in Ha by done. rewrite (runs_insert _ _ svc) in Hb by done.
    cbn [set_pid s_pid] in Ha, Hb.
    destruct Ha as [(-> & Ea & _)|[Hna Ha]], Hb as [(-> & Eb & _)|[Hnb Hb]]; [done|..].
    + destruct Hp. apply Hc. rewrite Ea. by exists b.
    + destruct Hp. apply Hc. rewrite Eb. by exists a.
    + by apply (H1 a b q).
Qed.

Lemma links_clear l C i svc svc' :
  links l C -> l !! i = Some svc -> 0 < s_pid svc -> s_pid svc' <= 0 ->
  links (<[i := svc']> l) (C ∖ {[s_pid svc]}).
Proof.
  intros [Hc H1] Hi H0 Hn.
  assert (Hii : runs l i (s_pid svc)) by (by exists svc). split.
  - intros q. rewrite elem_of_difference, elem_of_singleton, Hc. split.
    + intros [[j Hj] Hq]. exists j. rewrite (runs_insert _ _ svc) by done. right. split; [|done].
      intros ->. apply Hq. destruct Hj as (x & Hx & <- & _). rewrite Hi in Hx. by injection Hx as <-.
    + intros [j Hj]. rewrite (runs_insert _ _ svc) in Hj by done.
      destruct Hj as [(_ & ? & ?)|[Hne Hj]]; [lia|]. split; [by exists j|].
      intros ->. apply Hne. by apply (H1 j i (s_pid svc)).
  - intros a b q Ha Hb. rewrite (runs_insert _ _ svc) in Ha by done. rewrite (runs_insert _ _ svc) in Hb by done.
    destruct Ha as [(_ & ? & ?)|[_ Ha]]; [lia|]. destruct Hb as [(_ & ? & ?)|[_ Hb]]; [lia|]. by apply (H1 a b q).
Qed.

Lemma find_pid_spec p l i :
  find_pid p l = Some i -> exists svc, l !! i = Some svc /\ s_pid svc = p.
Proof.
  revert i. induction l as [|x l IH]; intros i H; cbn [find_pid] in H; [done|].
  destruct (s_pid x =? p) eqn:E; boolify.
  - injection H as <-. by exists x.
  - destruct (find_pid p l) as [k|]; [|done]. injection H as <-. by apply IH.
Qed.

Lemma find_pid_None p l i svc : find_pid p l = None -> l !! i = Some svc -> s_pid svc ≠ p.
Proof.
  revert i. induction l as [|x l IH]; intros i H Hi; cbn [find_pid] in H; [done|].
  destruct (s_pid x =? p) eqn:E; boolify; [done|].
  destruct (find_pid p l) as [k|] eqn:Ef; [done|]. destruct i as [|i]; cbn in Hi.
  - by injection Hi as <-.
  - by eapply IH.
Qed.

End Links.

(** * The invariant *)

Section Invariant.

Implicit Types (s : sup) (i : nat) (svc : service_t).

Lemma lookup_put s i svc svc' j :
  svcs s !! i = Some svc -> svcs (put s i svc') !! j = if decide (j = i) then Some svc' else svcs s !! j.
Proof.
  intros Hi. cbn [put svcs]. destruct (decide (j = i)) as [->|].
  - apply list_lookup_insert_eq. by eapply lookup_lt_Some.
  - by apply list_lookup_insert_ne.
Qed.

Lemma ok_put s i svc svc' :
  sup_ok s -> svcs s !! i = Some svc -> s_pid svc' = s_pid svc -> service_ok svc' -> sup_ok (put s i svc').
Proof.
  intros [H1 H2 H3 H4 H5] Hi Hp Hs. split; try done.
  - by eapply links_same.
  - by apply Forall_insert.
Qed.

Lemma ok_emit s e : sup_ok s -> is_error e = false -> sup_ok (emit s e).
Proof.
  intros [H1 H2 H3 H4 H5] He. split; try done. cbn [emit trace error_count]. rewrite filter_cons.
  rewrite decide_False by congruence. done.
Qed.

Lemma ok_service_error n d s : sup_ok s -> sup_ok (service_error n d s).
Proof.
  intros [H1 H2 H3 H4 H5]. unfold service_error, VIGIL_ERROR_MAX in *.
  destruct (error_count s <? 128) eqn:E; [|destruct (error_count s =? 128) eqn:E2]; boolify.
  - split; try done; cbn [error_count trace svcs kern]; unfold VIGIL_ERROR_MAX; [lia|].
    rewrite !filter_cons, decide_False, decide_True by done. cbn [length]. lia.
  - split; try done; cbn [error_count trace svcs kern]; unfold VIGIL_ERROR_MAX; [lia|].
    rewrite filter_cons, decide_False by done. lia.
  - by split.
Qed.

Lemma service_error_svcs n d s : svcs (service_error n d s) = svcs s.
Proof. unfold service_error. by repeat case_match. Qed.

Lemma service_error_kern n d s : kern (service_error n d s) = kern s.
Proof. unfold service_error. by repeat case_match. Qed.

Lemma service_error_starts n d s i : starts i (trace (service_error n d s)) = starts i (trace s).
Proof.
  unfold service_error. repeat case_match; cbn [trace]; unfold starts; rewrite ?filter_cons; repeat case_decide; done.
Qed.

Lemma ok_start s i : sup_ok s -> sup_ok (start_service i s).
Proof.
  intros Hok. unfold start_service. destruct (svcs s !! i) as [svc|] eqn:Hi; [|done].
  destruct (0 <? s_pid svc) eqn:Ep; [done|]. boolify. unfold fork.
  destruct Hok as [H1 H2 H3 H4 H5].
  destruct (k_fork (kern s) (k_nfork (kern s)) (k_children (kern s))) as [p|e] eqn:Ef.
  - destruct (H3 _ _ _ Ef) as [H0 Hp]. split; cbn [svcs kern k_children error_count trace]; try done.
    + by apply links_start.
    + apply Forall_insert; [done|]. rewrite Forall_lookup in H2. exact (H2 i svc Hi).
  - apply ok_service_error. by split.
Qed.

Lemma service_ok_at s i svc : sup_ok s -> svcs s !! i = Some svc -> service_ok svc.
Proof. intros H Hi. pose proof (so_services s H) as Hf. rewrite Forall_lookup in Hf. by eapply Hf. Qed.

(** The death of a child, from the moment the kernel reports it. *)
Definition without (p : Z) s : sup :=
  Sup (svcs s) (error_count s)
    (Kernel (k_children (kern s) ∖ {[p]}) (k_fork (kern s)) (k_nfork (kern s)) (k_dead (kern s))) (trace s).

Lemma reap_unfold p st s :
  reap p st s =
    match find_pid p (svcs s) with
    | None => s
    | Some i =>
        match svcs s !! i with
        | None => s
        | Some svc0 =>
            let svc := set_expected_stop (set_pid svc0 (-1)) false in
            let s1 := put s i svc in
            let s2 := if negb (s_expected_stop svc0) && failed st
                      then service_error (s_name svc0) (death_detail st) s1 else s1 in
            if negb (s_active svc0) then s2
            else if decide (s_policy svc0 = POLICY_ONESHOT) then put s2 i (set_active svc false)
            else if s_max_restarts svc0 <=? s_restarts svc0 then put s2 i (set_active svc false)
            else start_service i (put s2 i (set_restarts svc (s_restarts svc0 + 1)))
        end
    end.
Proof. reflexivity. Qed.

Lemma ok_reap p st s : sup_ok s -> p ∈ k_children (kern s) -> sup_ok (reap p st (without p s)).
Proof.
  intros Hok Hp. pose proof Hok as [[Hc H1] H2 H3 H4 H5].
  destruct (proj1 (Hc p) Hp) as (i0 & svc0 & Hi0 & Hp0 & H0).
  rewrite reap_unfold. cbn [without svcs].
  destruct (find_pid p (svcs s)) as [i|] eqn:Ef.
  2:{ by destruct (find_pid_None _ _ _ _ Ef Hi0). }
  destruct (find_pid_spec _ _ _ Ef) as (svc & Hi & Hpi). rewrite Hi. cbn zeta.
  set (s1 := put _ _ _).
  assert (Hok1 : sup_ok s1).
  { split; cbn [s1 put svcs kern without k_children error_count trace]; try done.
    - rewrite <- Hpi. eapply links_clear; try done; cbn; lia.
    - apply Forall_insert; [done|]. exact (service_ok_at s i svc Hok Hi). }
  assert (Hi1 : svcs s1 !! i = Some (set_expected_stop (set_pid svc (-1)) false)).
  { cbn [s1 put svcs]. apply list_lookup_insert_eq. by eapply lookup_lt_Some. }
  set (s2 := if negb (s_expected_stop svc) && failed st then _ else s1).
  assert (Hok2 : sup_ok s2) by (unfold s2; case_match; [by apply ok_service_error|done]).
  assert (Hi2 : svcs s2 !! i = Some (set_expected_stop (set_pid svc (-1)) false)).
  { unfold s2. case_match; [by rewrite service_error_svcs|done]. }
  pose proof (service_ok_at s i svc Hok Hi) as Hsvc. unfold service_ok in Hsvc.
  clearbody s2. case_match; [done|].
  case_decide; [by eapply ok_put|]. destruct (s_max_restarts svc <=? s_restarts svc) eqn:Em; boolify.
  - by eapply ok_put.
  - apply ok_start. eapply ok_put; try done. unfold service_ok. cbn. lia.
Qed.

Lemma ok_feed s d : sup_ok s -> sup_ok (feed_kernel s d).
Proof. intros [H1 H2 H3 H4 H5]. by split. Qed.

Lemma reap_all_S fuel s :
  reap_all (S fuel) s =
    match k_dead (kern s) with
    | [] => s
    | (p, st) :: rest =>
        if decide (p ∈ k_children (kern s)) then reap_all fuel (reap p st (without p (feed_kernel s rest)))
        else feed_kernel s rest
    end.
Proof.
  cbn [reap_all]. unfold waitpid. destruct (k_dead (kern s)) as [|[p st] rest]; [by destruct s|].
  by case_decide.
Qed.

Lemma ok_reap_all fuel s : sup_ok s -> sup_ok (reap_all fuel s).
Proof.
  revert s. induction fuel as [|fuel IH]; intros s Hok; [done|]. rewrite reap_all_S.
  destruct (k_dead (kern s)) as [|[p st] rest]; [done|]. case_decide; [|by apply ok_feed].
  apply IH, ok_reap; [by apply ok_feed|done].
Qed.

Lemma ok_retry n i s : sup_ok s -> sup_ok (retry_from i n s).
Proof.
  revert i s. induction n as [|n IH]; intros i s Hok; [done|]. cbn [retry_from]. apply IH.
  repeat case_match; try done. by apply ok_start.
Qed.

Lemma ok_command_one cmd i s : sup_ok s -> sup_ok (command_one cmd i s).
Proof.
  intros Hok. unfold command_one. destruct (svcs s !! i) as [svc|] eqn:Hi; [|done].
  pose proof (service_ok_at s i svc Hok Hi) as Hs. unfold service_ok in Hs.
  assert (Hz : forall svc', service_ok (set_restarts svc' 0)) by (intros; unfold service_ok; cbn; lia).
  destruct (_ || _).
  - set (s1 := if 0 <? s_pid svc then emit s _ else s). set (svc1 := if 0 <? s_pid svc then _ else svc).
    assert (Hok1 : sup_ok s1) by (unfold s1; case_match; [by apply ok_emit|done]).
    assert (Hi1 : svcs s1 !! i = Some svc) by (unfold s1; by case_match).
    assert (Hp1 : s_pid svc1 = s_pid svc) by (unfold svc1; by case_match).
    assert (Hr1 : service_ok (set_active svc1 (beq cmd (B "restart")))) by (unfold svc1; by case_match).
    clearbody s1 svc1. destruct (beq cmd (B "restart")).
    + assert (Hput : sup_ok (put s1 i (set_restarts (set_active svc1 true) 0))) by (by eapply ok_put).
      case_match; [done|by apply ok_start].
    + by eapply ok_put.
  - case_match; [|done]. apply ok_start. by eapply ok_put.
Qed.

Lemma ok_command_each cmd name n i s : sup_ok s -> sup_ok (command_each cmd name i n s).
Proof.
  revert i s. induction n as [|n IH]; intros i s Hok; [done|]. cbn [command_each]. apply IH.
  repeat case_match; try done. by apply ok_command_one.
Qed.

Lemma ok_run_cmd text s : sup_ok s -> sup_ok (run_cmd text s).
Proof.
  intros Hok. unfold run_cmd. destruct (cstr text) as [|c cmd]; [done|]. case_match.
  - assert (H0 : forall l s, sup_ok s -> sup_ok (foldl (λ s svc, emit s (EvStatus (status_line svc))) s l)).
    { induction l as [|x l IH]; intros s' Hs'; [done|]. cbn [foldl]. apply IH. by apply ok_emit. }
    by apply H0.
  - destruct (cut SP _) as [[verb name]|]; [by apply ok_command_each|done].
Qed.

Lemma ok_supervise inp s : sup_ok s -> sup_ok (supervise inp s).
Proof.
  intros Hok. unfold supervise. apply ok_retry, ok_reap_all, ok_feed.
  destruct (in_cmd inp); [by apply ok_run_cmd|done].
Qed.

Lemma ok_boot mode cmdline n i s : sup_ok s -> sup_ok (boot_from mode cmdline i n s).
Proof.
  revert i s. induction n as [|n IH]; intros i s Hok; [done|]. cbn [boot_from]. apply IH.
  destruct (svcs s !! i) as [svc|] eqn:Hi; [|done]. case_match; [|by apply ok_start].
  eapply ok_put; try done. exact (service_ok_at s i svc Hok Hi).
Qed.

(** * The restart budget *)

Lemma start_lookup i s svc :
  svcs s !! i = Some svc ->
  exists p, svcs (start_service i s) = <[i := set_pid svc p]> (svcs s) /\
    ((p = s_pid svc /\ starts i (trace (start_service i s)) = starts i (trace s)) \/
     (s_pid svc <= 0 /\ (fork_fresh (kern s) -> 0 < p) /\
      starts i (trace (start_service i s)) = starts i (trace s) + 1)) /\
    forall j, j ≠ i -> starts j (trace (start_service i s)) = starts j (trace s).
Proof.
  intros Hi. assert (Hid : svcs s = <[i := set_pid svc (s_pid svc)]> (svcs s)).
  { symmetry. apply list_insert_id. rewrite Hi. by destruct svc. }
  unfold start_service. rewrite Hi. destruct (0 <? s_pid svc) eqn:Ep; [by exists (s_pid svc); auto|].
  boolify. unfold fork. destruct (k_fork _ _ _) as [p|e] eqn:Ef; cbn [svcs trace].
  - exists p. split; [done|]. split; [right; split_and!|].
    + lia.
    + intros Hf. by destruct (Hf _ _ _ Ef).
    + unfold starts. rewrite filter_cons, decide_True by (cbn; by rewrite Nat.eqb_refl). cbn [length]. lia.
    + intros j Hj. unfold starts. rewrite filter_cons, decide_False; [done|]. cbn. rewrite Nat.eqb_eq. congruence.
  - exists (s_pid svc). rewrite service_error_svcs. split; [done|].
    split; [left; split; [done|]; by rewrite service_error_starts|]. intros. by rewrite service_error_starts.
Qed.

Lemma potential_put i j s svc svc' :
  svcs s !! i = Some svc -> budget svc' <= budget svc -> potential j (put s i svc') <= potential j s.
Proof.
  intros Hi Hb. unfold potential, budget_at. rewrite (lookup_put _ _ svc) by done. cbn [put trace].
  case_decide as Hd; [subst j; rewrite Hi|]; lia.
Qed.

Lemma potential_start i j s svc :
  fork_fresh (kern s) -> svcs s !! i = Some svc -> s_active svc = true ->
  potential j (start_service i s) <= potential j s.
Proof.
  intros Hf Hi Ha. destruct (start_lookup i s svc Hi) as (p & Hs & Hc & Hj).
  unfold potential, budget_at. rewrite Hs. destruct (decide (j = i)) as [->|].
  - rewrite list_lookup_insert_eq, Hi by (by eapply lookup_lt_Some).
    unfold budget. cbn [set_pid s_active s_max_restarts s_restarts s_pid]. rewrite Ha.
    destruct Hc as [[-> ->]|(Hn & Hp & ->)]; [lia|]. specialize (Hp Hf).
    destruct (s_pid svc <=? 0) eqn:E1; [|lia]. destruct (p <=? 0) eqn:E2; lia.
  - rewrite list_lookup_insert_ne by done. rewrite Hj by done. lia.
Qed.

Lemma start_kern i s : k_fork (kern (start_service i s)) = k_fork (kern s).
Proof.
  unfold start_service. destruct (svcs s !! i); [|done]. case_match; [done|].
  unfold fork. destruct (k_fork _ _ _); [done|]. by rewrite service_error_kern.
Qed.

Lemma potential_service_error n d i s : potential i (service_error n d s) = potential i s.
Proof. unfold potential, budget_at. by rewrite service_error_svcs, service_error_starts. Qed.

Lemma potential_reap p st j s :
  fork_fresh (kern s) -> 0 < p -> potential j (reap p st s) <= potential j s.
Proof.
  intros Hf H0. rewrite reap_unfold. destruct (find_pid p (svcs s)) as [i|] eqn:Ef; [|done].
  destruct (find_pid_spec _ _ _ Ef) as (svc & Hi & Hpi). rewrite Hi. cbn zeta.
  set (dead := set_expected_stop (set_pid svc (-1)) false).
  set (s1 := put s i dead). set (s2 := if negb (s_expected_stop svc) && failed st then _ else s1).
  assert (Hl : svcs s2 = <[i := dead]> (svcs s)) by (unfold s2; case_match; [by rewrite service_error_svcs|done]).
  assert (Hk : kern s2 = kern s) by (unfold s2; case_match; [by rewrite service_error_kern|done]).
  assert (Ht : starts j (trace s2) = starts j (trace s)) by (unfold s2; case_match; [by rewrite service_error_starts|done]).
  assert (Hi2 : svcs s2 !! i = Some dead) by (rewrite Hl; apply list_lookup_insert_eq; by eapply lookup_lt_Some).
  clearbody s2. clear s1.
  assert (Hput : forall x, budget x <= budget svc -> potential j (put s2 i x) <= potential j s).
  { intros x Hx. unfold potential, budget_at. rewrite (lookup_put _ _ dead) by done. cbn [put trace]. rewrite Ht.
    case_decide as Hd; [subst j; rewrite Hi; lia|]. rewrite Hl, list_lookup_insert_ne by done. lia. }
  assert (Hbud : s_active svc = true -> budget svc = Z.max 0 (s_max_restarts svc - s_restarts svc)).
  { intros Ha. unfold budget. rewrite Ha. destruct (s_pid svc <=? 0) eqn:E; boolify; lia. }
  assert (Hnn : 0 <= budget svc) by (unfold budget; repeat case_match; lia).
  destruct (s_active svc) eqn:Ea; cbn [negb].
  - case_decide; [by apply Hput|]. destruct (s_max_restarts svc <=? s_restarts svc) eqn:Em; [by apply Hput|]. boolify.
    etrans; [|apply (Hput (set_restarts dead (s_restarts svc + 1)))].
    + eapply potential_start.
      * unfold fork_fresh. cbn [put kern]. by rewrite Hk.
      * cbn [put svcs]. apply list_lookup_insert_eq. by eapply lookup_lt_Some.
      * exact Ea.
    + rewrite Hbud by done. unfold budget, dead. cbn [set_restarts set_expected_stop set_pid s_active s_max_restarts s_restarts s_pid].
      rewrite Ea. cbn [Z.leb Z.compare]. lia.
  - etrans; [|apply (Hput dead)].
    + unfold potential, budget_at. rewrite (lookup_put _ _ dead) by done. cbn [put trace].
      case_decide as Hd; [subst j; rewrite Hi2|]; lia.
    + unfold budget, dead. cbn [set_expected_stop set_pid s_active]. by rewrite Ea.
Qed.

Lemma potential_reap_all fuel j s : sup_ok s -> potential j (reap_all fuel s) <= potential j s.
Proof.
  revert s. induction fuel as [|fuel IH]; intros s Hok; [done|]. rewrite reap_all_S.
  destruct (k_dead (kern s)) as [|[p st] rest]; [done|]. case_decide as Hp; [|done].
  etrans; [apply IH, ok_reap; [by apply ok_feed|done]|].
  etrans; [apply potential_reap|done].
  - exact (so_fork s Hok).
  - apply (so_links s Hok) in Hp as (i & svc & _ & _ & ?). done.
Qed.

Lemma potential_retry n i j s : sup_ok s -> potential j (retry_from i n s) <= potential j s.
Proof.
  revert i s. induction n as [|n IH]; intros i s Hok; [done|]. cbn [retry_from].
  set (s1 := match svcs s !! i with Some svc => _ | None => s end).
  assert (Hok1 : sup_ok s1) by (unfold s1; repeat case_match; try done; by apply ok_start).
  etrans; [by apply IH|]. unfold s1. destruct (svcs s !! i) as [svc|] eqn:Hi; [|done].
  destruct (s_active svc && (s_pid svc <=? 0)) eqn:Ea; [|done]. boolify.
  eapply potential_start; [exact (so_fork s Hok)|done|done].
Qed.

Lemma potential_supervise d j s : sup_ok s -> potential j (supervise (Input None d) s) <= potential j s.
Proof.
  intros Hok. unfold supervise. cbn [in_cmd in_dead].
  pose proof (ok_feed s d Hok) as Hfeed.
  etrans; [apply potential_retry; by apply ok_reap_all|]. etrans; [by apply potential_reap_all|done].
Qed.

Lemma potential_passes inps j s :
  sup_ok s -> Forall (λ inp, in_cmd inp = None) inps ->
  sup_ok (run_passes inps s) /\ potential j (run_passes inps s) <= potential j s.
Proof.
  intros Hok Hn. revert s Hok. induction Hn as [|[cmd d] inps Hc _ IH]; intros s Hok; [done|].
  cbn in Hc. subst cmd. cbn [run_passes foldl].
  destruct (IH (supervise (Input None d) s)) as [H1 H2]; [by apply ok_supervise|].
  split; [exact H1|]. etrans; [exact H2|]. by apply potential_supervise.
Qed.

Lemma potential_boot mode cmdline n i j s : sup_ok s ->
  (forall svc, i <= j -> svcs s !! j = Some svc -> s_active svc = true)%nat ->
  potential j (boot_from mode cmdline i n s) <= potential j s.
Proof.
  revert i s. induction n as [|n IH]; intros i s Hok Ha; [done|]. cbn [boot_from].
  set (s1 := match svcs s !! i with Some svc => _ | None => s end).
  assert (Hok1 : sup_ok s1).
  { unfold s1. destruct (svcs s !! i) as [svc|] eqn:Hi; [|done]. case_match; [|by apply ok_start].
    eapply ok_put; try done. exact (service_ok_at s i svc Hok Hi). }
  assert (Hother : j ≠ i -> svcs s1 !! j = svcs s !! j /\ starts j (trace s1) = starts j (trace s)).
  { intros Hne. unfold s1. destruct (svcs s !! i) as [svc|] eqn:Hi; [|done]. case_match.
    - split; [|done]. rewrite (lookup_put _ _ svc) by done. by rewrite decide_False.
    - destruct (start_lookup i s svc Hi) as (p & -> & _ & Hj).
      rewrite list_lookup_insert_ne by done. split; [done|by apply Hj]. }
  destruct (decide (j = i)) as [->|Hne].
  - assert (Hle : potential i s1 <= potential i s).
    { unfold s1. destruct (svcs s !! i) as [svc|] eqn:Hi; [|done]. case_match.
      - eapply potential_put; [done|]. unfold budget. cbn [set_active s_active]. repeat case_match; lia.
      - eapply potential_start; [exact (so_fork s Hok)|done|]. by apply Ha. }
    etrans; [|exact Hle]. apply IH; [done|]. intros svc Hlt. lia.
  - destruct (Hother Hne) as [H1 H2]. etrans; [apply IH; [done|]|].
    + intros svc Hlt Hs. rewrite H1 in Hs. apply (Ha svc); [lia|done].
    + unfold potential, budget_at. by rewrite H1, H2.
Qed.

(** ** Forks that succeed *)

Definition forks_succeed (k : kernel) : Prop := forall n C, exists p, k_fork k n C = inl p.

Lemma start_running i s svc :
  fork_fresh (kern s) -> forks_succeed (kern s) -> svcs s !! i = Some svc ->
  exists p, 0 < p /\ svcs (start_service i s) = <[i := set_pid svc p]> (svcs s).
Proof.
  intros Hf Hs Hi. unfold start_service. rewrite Hi. destruct (0 <? s_pid svc) eqn:Ep; boolify.
  - exists (s_pid svc). split; [done|]. symmetry. apply list_insert_id. rewrite Hi. by destruct svc.
  - unfold fork. destruct (Hs (k_nfork (kern s)) (k_children (kern s))) as [p E]. rewrite E.
    exists p. split; [|done]. by apply Hf in E as [? _].
Qed.

Definition running_upto (n : nat) s : Prop :=
  forall i svc, (i < n)%nat -> svcs s !! i = Some svc -> s_active svc = true -> 0 < s_pid svc.

Lemma retry_running n i s :
  fork_fresh (kern s) -> forks_succeed (kern s) -> running_upto i s -> running_upto (i + n) (retry_from i n s).
Proof.
  revert i s. induction n as [|n IH]; intros i s Hf Hs Hr; [by rewrite Nat.add_0_r|].
  cbn [retry_from]. rewrite <- Nat.add_succ_comm. set (s1 := match svcs s !! i with Some svc => _ | None => s end).
  assert (Hk : k_fork (kern s1) = k_fork (kern s)) by (unfold s1; repeat case_match; try done; apply start_kern).
  apply IH; [unfold fork_fresh; by rewrite Hk|unfold forks_succeed; by rewrite Hk|].
  intros j svc Hj Hsvc Ha. unfold s1 in Hsvc. destruct (svcs s !! i) as [x|] eqn:Hi.
  2:{ apply (Hr j svc); [|done..]. assert (j ≠ i) by congruence. lia. }
  destruct (s_active x && (s_pid x <=? 0)) eqn:Ex.
  - destruct (start_running i s x Hf Hs Hi) as (p & Hp & E). rewrite E in Hsvc.
    destruct (decide (j = i)) as [->|].
    + rewrite list_lookup_insert_eq in Hsvc by (by eapply lookup_lt_Some). by injection Hsvc as <-.
    + rewrite list_lookup_insert_ne in Hsvc by done. apply (Hr j svc); [lia|done..].
  - destruct (decide (j = i)) as [->|]; [|apply (Hr j svc); [lia|done..]].
    rewrite Hi in Hsvc. injection Hsvc as ->. rewrite Ha in Ex. cbn [andb] in Ex. boolify. lia.
Qed.

Lemma start_length i s : length (svcs (start_service i s)) = length (svcs s).
Proof.
  unfold start_service. destruct (svcs s !! i); [|done]. case_match; [done|]. unfold fork.
  destruct (k_fork _ _ _); [by cbn [svcs]; rewrite length_insert|]. by rewrite service_error_svcs.
Qed.

Lemma retry_length n i s : length (svcs (retry_from i n s)) = length (svcs s).
Proof.
  revert i s. induction n as [|n IH]; intros i s; [done|]. cbn [retry_from]. rewrite IH.
  repeat case_match; try done. apply start_length.
Qed.

Lemma reap_kern p st s : k_fork (kern (reap p st s)) = k_fork (kern s).
Proof.
  rewrite reap_unfold. destruct (find_pid p (svcs s)); [|done]. destruct (svcs s !! _); [|done]. cbn zeta.
  set (s2 := if negb _ && failed st then _ else _).
  assert (Hk : kern s2 = kern s) by (unfold s2; case_match; [by rewrite service_error_kern|done]). clearbody s2.
  repeat case_match; cbn [put kern]; rewrite ?start_kern; cbn [put kern]; by rewrite Hk.
Qed.

Lemma reap_all_kern fuel s : k_fork (kern (reap_all fuel s)) = k_fork (kern s).
Proof.
  revert s. induction fuel as [|fuel IH]; intros s; [done|]. rewrite reap_all_S.
  destruct (k_dead (kern s)) as [|[p st] rest]; [done|]. case_decide; [|done]. rewrite IH. by rewrite reap_kern.
Qed.

Lemma command_one_kern cmd i s : k_fork (kern (command_one cmd i s)) = k_fork (kern s).
Proof.
  unfold command_one. destruct (svcs s !! i); [|done].
  repeat case_match; cbn [put kern emit]; rewrite ?start_kern; done.
Qed.

Lemma command_each_kern cmd name n i s : k_fork (kern (command_each cmd name i n s)) = k_fork (kern s).
Proof.
  revert i s. induction n as [|n IH]; intros i s; [done|]. cbn [command_each]. rewrite IH.
  repeat case_match; try done. apply command_one_kern.
Qed.

Lemma run_cmd_kern text s : k_fork (kern (run_cmd text s)) = k_fork (kern s).
Proof.
  unfold run_cmd. destruct (cstr text) as [|c cmd]; [done|]. case_match.
  - assert (H0 : forall l s, kern (foldl (λ s svc, emit s (EvStatus (status_line svc))) s l) = kern s).
    { induction l as [|x l IH]; intros s'; [done|]. cbn [foldl]. by rewrite IH. }
    by rewrite H0.
  - destruct (cut SP _) as [[verb name]|]; [apply command_each_kern|done].
Qed.

End Invariant.

(** The table and the kernel as vigil finds them. *)
Record at_boot (l : list service_t) (k : kernel) : Prop := {
  ab_services : Forall (λ svc, s_pid svc <= 0 /\ s_restarts svc = 0 /\ s_active svc = true) l;
  ab_children : k_children k = ∅;
  ab_fork : fork_fresh k
}.

Lemma boot_ok l k : at_boot l k -> sup_ok (Sup l 0 k []).
Proof.
  intros [H1 H2 H3]. rewrite Forall_lookup in H1. split; cbn [svcs kern error_count trace]; try done.
  - rewrite H2. split.
    + intros p. split; [set_solver|]. intros (i & svc & Hi & <- & H0). destruct (H1 i svc Hi). lia.
    + intros i j p (svc & Hi & <- & H0). destruct (H1 i svc Hi). lia.
  - apply Forall_lookup. intros i svc Hi. destruct (H1 i svc Hi) as (_ & E & _). unfold service_ok. lia.
Qed.

Definition booted (mode cmdline : bytes) (l : list service_t) (k : kernel) : sup :=
  boot_from mode cmdline 0 (length l) (Sup l 0 k []).

(** C9: the supervisor's invariant.  From boot on, whatever commands arrive and
    whatever children die in whatever order, after every pass each child of
    vigil is the process of exactly one service and each positive pid in the
    table is a living child; the restart counters stay between 0 and the
    service's limit; and at most 128 errors are written to the error log,
    counted exactly. *)
Theorem supervisor_invariant mode cmdline l k inps :
  at_boot l k -> sup_ok (run_passes inps (booted mode cmdline l k)).
Proof.
  intros Hb. assert (Hok : sup_ok (booted mode cmdline l k)) by (apply ok_boot; by apply boot_ok).
  revert Hok. generalize (booted mode cmdline l k). induction inps as [|inp inps IH]; intros s Hok; [done|].
  cbn [run_passes foldl]. apply IH. by apply ok_supervise.
Qed.

(** C37: a crashing service is not restarted for ever.  As long as no command is
    given, a service is started at most once plus [max_restarts] times from
    boot on, however often it dies and however often a fork fails and is
    retried. *)
Theorem restart_budget mode cmdline l k inps i svc :
  at_boot l k -> l !! i = Some svc -> Forall (λ inp, in_cmd inp = None) inps ->
  starts i (trace (run_passes inps (booted mode cmdline l k))) <= 1 + Z.max 0 (s_max_restarts svc).
Proof.
  intros Hb Hi Hn. pose proof (boot_ok l k Hb) as Hok0.
  assert (Hs : s_pid svc <= 0 /\ s_restarts svc = 0 /\ s_active svc = true).
  { pose proof (ab_services l k Hb) as H. rewrite Forall_lookup in H. by apply (H i). }
  assert (Hok : sup_ok (booted mode cmdline l k)) by (by apply ok_boot).
  destruct (potential_passes inps i _ Hok Hn) as [_ H1].
  assert (H2 : potential i (booted mode cmdline l k) <= potential i (Sup l 0 k [])).
  { apply potential_boot; [done|]. cbn [svcs]. intros x _ Hx. rewrite Hi in Hx. injection Hx as <-. apply Hs. }
  assert (H3 : potential i (Sup l 0 k []) = 1 + Z.max 0 (s_max_restarts svc)).
  { unfold potential, budget_at, budget. cbn [svcs trace]. rewrite Hi. destruct Hs as (Hp & -> & ->).
    destruct (s_pid svc <=? 0) eqn:E; boolify; [|lia]. change (starts i []) with 0. lia. }
  assert (H4 : 0 <= budget_at i (run_passes inps (booted mode cmdline l k))).
  { unfold budget_at, budget. repeat case_match; lia. }
  unfold potential at 1 in H1. lia.
Qed.

(** no active service is left without a process.  If the kernel can fork,
    every pass of the supervisor, whatever it reaps and whatever command it
    carries out, ends with a process for each active service. *)
Theorem pass_leaves_active_running inp s :
  sup_ok s -> forks_succeed (kern s) -> all_running (supervise inp s).
Proof.
  intros Hok Hs. unfold supervise.
  set (s1 := match in_cmd inp with Some data => _ | None => s end).
  assert (Hok1 : sup_ok s1) by (unfold s1; case_match; [by apply ok_run_cmd|done]).
  assert (Hk1 : k_fork (kern s1) = k_fork (kern s)) by (unfold s1; case_match; [apply run_cmd_kern|done]).
  set (s2 := reap_all _ _).
  assert (Hok2 : sup_ok s2) by (apply ok_reap_all; by apply ok_feed).
  assert (Hk2 : k_fork (kern s2) = k_fork (kern s)) by (unfold s2; by rewrite reap_all_kern).
  pose proof (retry_running (length (svcs s2)) 0 s2 (so_fork _ Hok2)) as Hr.
  intros i svc Hi Ha. eapply Hr; [..|exact Hi|exact Ha].
  - unfold forks_succeed. by rewrite Hk2.
  - intros j x Hj. lia.
  - rewrite Nat.add_0_l, <- (retry_length (length (svcs s2)) 0 s2). by eapply lookup_lt_Some.
Qed.

(** * Commands *)

Section Commands.

Implicit Types (s : sup) (i : nat) (svc : service_t).

(** The text survives the way through the command file: vigictl adds a newline,
    vigil strips it and cuts the line at the first blank. *)
Lemma command_text verb name s :
  verb ∈ [B "start"; B "stop"; B "restart"] ->
  name ≠ [] -> (length name <= 180)%nat -> NUL ∉ name -> (forall c, last name = Some c -> is_line_end c = false) ->
  forall text, vigictl_text [verb; name] = Some text ->
  run_cmd (file_text 192 (text ++ [LF])) s = command_each verb name 0 (length (svcs s)) s.
Proof.
  intros Hv Hne Hlen Hnul Hlast text Ht.
  assert (Hverb : (length verb <= 7)%nat /\ SP ∉ verb /\ NUL ∉ verb /\ verb ≠ [] /\
            starts_with (B "status") (verb ++ SP :: name) = false /\
            vigictl_text [verb; name] = Some (fit 192 (verb ++ SP :: name))).
  { rewrite !elem_of_cons, elem_of_nil in Hv.
    destruct Hv as [-> |[-> |[-> |[]]]]; (split; [simpl; lia|]); (split; [by apply has_char_false|]);
      (split; [by apply has_char_false|]); (split; [done|]); by split. }
  destruct Hverb as (Hl & Hsp & Hvn & Hv0 & Hst & Hx). rewrite Hx in Ht. injection Ht as <-.
  rewrite fit_id by (rewrite length_app; simpl; lia).
  assert (Hfile : file_text 192 ((verb ++ SP :: name) ++ [LF]) = verb ++ SP :: name).
  { unfold file_text. rewrite take_ge by (rewrite !length_app; simpl; lia). unfold rstrip.
    rewrite rev_app_distr. cbn [rev app]. destruct name as [|c name _] using rev_ind; [done|].
    specialize (Hlast c). rewrite last_snoc in Hlast. specialize (Hlast eq_refl).
    assert (E : rev (verb ++ SP :: name ++ [c]) = c :: rev (verb ++ SP :: name)).
    { by rewrite app_comm_cons, app_assoc, rev_app_distr. }
    rewrite E. unfold drop_while. cbn [span]. change (is_line_end LF) with true. cbn iota. cbn [span]. rewrite Hlast.
    cbn [snd]. rewrite <- E. by rewrite rev_involutive. }
  rewrite Hfile. unfold run_cmd. rewrite cstr_id.
  2:{ rewrite elem_of_app, elem_of_cons. intros [?|[?|?]]; [done| |done]. by unfold NUL, SP in *. }
  destruct (verb ++ SP :: name) eqn:Ev; [by destruct verb|]. rewrite Hst, <- Ev.
  assert (Hc : cut SP (verb ++ SP :: name) = Some (verb, name)) by (by apply cut_spec). by rewrite Hc.
Qed.

(** What "stop" does to the table: the named services become inactive, the
    others stay, nothing is started. *)
Lemma stop_each name n i s :
  let s' := command_each (B "stop") name i n s in
  (forall j, svcs s' !! j = match svcs s !! j with
                            | Some svc => if (beq (s_name svc) name && (i <=? j) && (j <? i + n))%nat
                                          then Some (set_active (if running svc then set_expected_stop svc true else svc) false)
                                          else Some svc
                            | None => None
                            end) /\
  forall j, starts j (trace s') = starts j (trace s).
Proof.
  revert i s. induction n as [|n IH]; intros i s s'.
  { split; [|done]. intros j. unfold s'. cbn [command_each]. destruct (svcs s !! j) as [svc|]; [|done].
    destruct (beq (s_name svc) name); [|done]. cbn [andb].
    destruct (i <=? j)%nat eqn:E1; [|done]. rewrite (proj2 (Nat.ltb_ge j (i + 0))); [done|]. boolify. lia. }
  unfold s'. cbn [command_each]. clear s'.
  set (s1 := match svcs s !! i with Some svc => _ | None => s end).
  assert (H1 : (forall j, svcs s1 !! j = match svcs s !! j with
                 | Some svc => if (beq (s_name svc) name && (j =? i))%nat
                               then Some (set_active (if running svc then set_expected_stop svc true else svc) false)
                               else Some svc
                 | None => None end) /\ forall j, starts j (trace s1) = starts j (trace s)).
  { unfold s1. destruct (svcs s !! i) as [svc|] eqn:Hi.
    2:{ split; [|done]. intros j. destruct (svcs s !! j) as [x|] eqn:Ej; [|done].
        destruct (beq _ _); [|done]. destruct (j =? i)%nat eqn:E; [|done]. boolify. congruence. }
    destruct (beq (s_name svc) name) eqn:En.
    2:{ split; [|done]. intros j. destruct (svcs s !! j) as [x|] eqn:Ej; [|done].
        destruct (j =? i)%nat eqn:E; [|by rewrite andb_false_r]. boolify. subst j. rewrite Hi in Ej. injection Ej as <-.
        by rewrite En. }
    unfold command_one. rewrite Hi. change (beq (B "stop") (B "stop") || beq (B "stop") (B "restart")) with true.
    change (beq (B "stop") (B "restart")) with false. cbv iota zeta. change (0 <? s_pid svc) with (running svc).
    split.
    - intros j. rewrite (lookup_put _ _ svc) by (by destruct (running svc)).
      destruct (decide (j = i)) as [->|Hne].
      + rewrite Hi, En, Nat.eqb_refl. done.
      + rewrite (proj2 (Nat.eqb_neq j i)) by done.
        destruct (running svc); cbn [emit svcs]; destruct (svcs s !! j); by rewrite ?andb_false_r.
    - intros j. cbn [put trace]. destruct (running svc); [|done]. unfold starts. cbn [emit trace].
      by rewrite filter_cons, decide_False. }
  destruct H1 as [H1 H2]. destruct (IH (S i) s1) as [H3 H4]. split.
  - intros j. rewrite H3, H1. destruct (svcs s !! j) as [svc|]; [|done].
    destruct (beq (s_name svc) name) eqn:En; cbn [andb]; [|by rewrite En].
    destruct (j =? i)%nat eqn:E; boolify.
    + subst j. rewrite (proj2 (Nat.leb_le i i)), (proj2 (Nat.ltb_lt i (i + S n))) by lia. cbn [andb].
      destruct (running svc); cbn [set_active set_expected_stop s_name]; rewrite En;
        rewrite (proj2 (Nat.leb_gt (S i) i)) by lia; done.
    + rewrite En. cbn [andb]. replace (S i <=? j)%nat with (i <=? j)%nat.
      2:{ destruct (i <=? j)%nat eqn:E1, (S i <=? j)%nat eqn:E2; boolify; try done; lia. }
      by replace (i + S n)%nat with (S i + n)%nat by lia.
  - intros j. by rewrite H4.
Qed.

(** a stopped service stays stopped.  After [vigictl stop <name>] has been
    carried out, and until the next command, no service of that name is started
    again, whatever dies and however many passes follow; and its death is not
    reported as an error of the service. *)
Theorem stop_is_permanent name text d inps i svc s :
  sup_ok s -> svcs s !! i = Some svc -> s_name svc = name ->
  name ≠ [] -> (length name <= 180)%nat -> NUL ∉ name -> (forall c, last name = Some c -> is_line_end c = false) ->
  vigictl_text [B "stop"; name] = Some text -> Forall (λ inp, in_cmd inp = None) inps ->
  starts i (trace (run_passes inps (supervise (Input (Some (text ++ [LF])) d) s))) <= starts i (trace s) /\
  exists svc', svcs (run_cmd (file_text 192 (text ++ [LF])) s) !! i = Some svc' /\ s_active svc' = false /\
    (running svc = true -> s_expected_stop svc' = true).
Proof.
  intros Hok Hi Hn Hne Hlen Hnul Hlast Htext Hinps.
  pose proof (command_text (B "stop") name s ltac:(set_solver) Hne Hlen Hnul Hlast text Htext) as Hcmd.
  destruct (stop_each name (length (svcs s)) 0 s) as [Hl Ht]. cbn zeta in Hl, Ht. rewrite <- Hcmd in Hl, Ht.
  set (s1 := run_cmd (file_text 192 (text ++ [LF])) s) in *.
  assert (Hok1 : sup_ok s1) by (by apply ok_run_cmd).
  assert (Hi1 : svcs s1 !! i = Some (set_active (if running svc then set_expected_stop svc true else svc) false)).
  { rewrite Hl, Hi, Hn, beq_refl. rewrite (proj2 (Nat.ltb_lt i (0 + length (svcs s)))); [done|].
    by eapply lookup_lt_Some. }
  split.
  - assert (Hpot : potential i s1 = starts i (trace s)).
    { unfold potential, budget_at. rewrite Hi1, Ht. unfold budget. cbn [set_active s_active]. lia. }
    assert (Hpass : supervise (Input (Some (text ++ [LF])) d) s = supervise (Input None d) s1) by done.
    rewrite Hpass. pose proof (ok_supervise (Input None d) s1 Hok1) as Hok2.
    pose proof (potential_supervise d i s1 Hok1) as Hp2.
    destruct (potential_passes inps i _ Hok2 Hinps) as [_ Hp3].
    assert (H4 : 0 <= budget_at i (run_passes inps (supervise (Input None d) s1))).
    { unfold budget_at, budget. repeat case_match; lia. }
    unfold potential at 1 in Hp3. lia.
  - eexists. split; [exact Hi1|]. split; [done|]. intros ->. done.
Qed.

End Commands.

(** * Shutdown *)

Section Shutdown.

Implicit Types (s : sup).

Lemma kill_fold sig l s :
  let s' := foldl (λ s svc, if running svc then emit s (EvKill (s_pid svc) sig) else s) s l in
  svcs s' = svcs s /\ kern s' = kern s /\ (forall i, starts i (trace s') = starts i (trace s)) /\
  (forall e, e ∈ trace s -> e ∈ trace s') /\
  (forall svc, svc ∈ l -> running svc = true -> EvKill (s_pid svc) sig ∈ trace s').
Proof.
  revert s. induction l as [|x l IH]; intros s; cbn [foldl]; [split_and!; try done; set_solver|].
  set (s1 := if running x then _ else s).
  assert (H1 : svcs s1 = svcs s /\ kern s1 = kern s /\ (forall i, starts i (trace s1) = starts i (trace s)) /\
           (forall e, e ∈ trace s -> e ∈ trace s1) /\ (running x = true -> EvKill (s_pid x) sig ∈ trace s1)).
  { unfold s1. destruct (running x); [|by split_and!]. split_and!; try done.
    - intros e He. cbn [emit trace]. by apply list_elem_of_further.
    - intros _. cbn [emit trace]. apply list_elem_of_here. }
  destruct H1 as (E1 & E2 & E3 & E4 & E5). destruct (IH s1) as (F1 & F2 & F3 & F4 & F5).
  split_and!; [congruence|congruence| |auto|].
  - intros i. by rewrite F3.
  - intros svc [-> | Hin]%elem_of_cons Hr; [by apply F4, E5|by apply F5].
Qed.

Lemma kill_all_spec sig s :
  let s' := kill_all sig s in
  svcs s' = svcs s /\ kern s' = kern s /\ (forall i, starts i (trace s') = starts i (trace s)) /\
  (forall e, e ∈ trace s -> e ∈ trace s') /\
  (forall svc, svc ∈ svcs s -> running svc = true -> EvKill (s_pid svc) sig ∈ trace s').
Proof. apply kill_fold. Qed.

Lemma links_forget l C p :
  links l C -> p ∈ C -> links ((λ svc, if s_pid svc =? p then set_pid svc (-1) else svc) <$> l) (C ∖ {[p]}).
Proof.
  intros [Hc H1] Hp.
  assert (Hr : forall i q, runs ((λ svc, if s_pid svc =? p then set_pid svc (-1) else svc) <$> l) i q <->
            (q ≠ p /\ runs l i q)).
  { intros i q. unfold runs. split.
    - intros (x & Hx & Hq & H0). rewrite list_lookup_fmap in Hx. destruct (l !! i) as [y|] eqn:Ey; [|done].
      injection Hx as <-. destruct (s_pid y =? p) eqn:E; boolify; cbn in Hq; [lia|]. split; [congruence|]. by exists y.
    - intros [Hne (x & Hx & Hq & H0)]. exists x. rewrite list_lookup_fmap, Hx. cbn.
      rewrite (proj2 (Z.eqb_neq _ _)) by congruence. done. }
  split.
  - intros q. rewrite elem_of_difference, elem_of_singleton, Hc. setoid_rewrite Hr. naive_solver.
  - intros i j q Hi Hj. apply Hr in Hi as [_ Hi]. apply Hr in Hj as [_ Hj]. by apply (H1 i j q).
Qed.

Definition linked s : Prop := links (svcs s) (k_children (kern s)).

Lemma forget_all_linked fuel s : linked s -> linked (forget_all fuel s) /\ trace (forget_all fuel s) = trace s.
Proof.
  revert s. induction fuel as [|fuel IH]; intros s Hl; [done|]. cbn [forget_all]. unfold waitpid.
  destruct (k_dead (kern s)) as [|[p st] rest]; [done|]. case_decide as Hp; [|done].
  match goal with |- linked (forget_all fuel ?s1) /\ _ => destruct (IH s1) as [H1 H2] end.
  - by apply links_forget.
  - by rewrite H2.
Qed.

Lemma drain_linked n rounds s : linked s -> linked (drain n rounds s) /\ trace (drain n rounds s) = trace s.
Proof.
  revert rounds s. induction n as [|n IH]; intros rounds s Hl; [done|]. cbn [drain]. case_match; [done|].
  match goal with |- linked (drain n _ (forget_all ?f ?s1)) /\ _ => destruct (forget_all_linked f s1) as [H1 H2]; [exact Hl|] end.
  match goal with |- linked (drain n ?r ?s2) /\ _ => destruct (IH r s2) as [H3 H4]; [exact H1|] end.
  split; [done|]. by rewrite H4, H2.
Qed.

(** shutdown reaches every child.  Whatever exits during the five seconds of
    grace, every child vigil had receives SIGTERM, every child that is left at
    the end receives SIGKILL, and nothing is started. *)
Theorem shutdown_reaches_all rounds s :
  sup_ok s ->
  let s' := shutdown_all rounds s in
  (forall p, p ∈ k_children (kern s) -> EvKill p SIGTERM ∈ trace s') /\
  (forall p, p ∈ k_children (kern s') -> EvKill p SIGKILL ∈ trace s') /\
  (forall i, starts i (trace s') = starts i (trace s)).
Proof.
  intros Hok s'. pose proof (so_links s Hok) as Hl. unfold s', shutdown_all.
  destruct (kill_all_spec SIGTERM s) as (A1 & A2 & A3 & A4 & A5). set (s1 := kill_all SIGTERM s) in *.
  assert (Hl1 : linked s1) by (unfold linked; by rewrite A1, A2).
  destruct (drain_linked 5 rounds s1 Hl1) as [Hl2 Ht2]. set (s2 := drain 5 rounds s1) in *.
  destruct (kill_all_spec SIGKILL s2) as (B1 & B2 & B3 & B4 & B5).
  assert (Hkill : forall sx p, linked sx -> p ∈ k_children (kern sx) ->
            exists svc, svc ∈ svcs sx /\ running svc = true /\ s_pid svc = p).
  { intros sx p [Hc _] Hp. apply Hc in Hp as (i & svc & Hi & <- & H0). exists svc.
    split; [by eapply list_elem_of_lookup_2|]. split; [|done]. unfold running. lia. }
  split_and!.
  - intros p Hp. apply B4. rewrite Ht2. destruct (Hkill s p Hl Hp) as (svc & Hin & Hr & <-). by apply A5.
  - intros p Hp. rewrite B2 in Hp. destruct (Hkill s2 p Hl2 Hp) as (svc & Hin & Hr & <-). by apply B5.
  - intros i. by rewrite B3, Ht2, A3.
Qed.

End Shutdown.

(** * The persistent log *)

Section Log.

Definition p_log : path := resolve VIGIL_LOG.

Definition log_bounded (fs : fsys) : Prop :=
  fs_ok fs /\ forall d, data_at fs p_log = Some d -> Z.of_nat (length d) <= VIGIL_LOG_MAX.

(** A write that is not short extends the file by all of the text or not at all. *)
Lemma wp_append_loop b fuel out bs m d0 fs :
  fs !! out = Some (Reg m d0) -> (length bs <= fuel)%nat ->
  let ext fs' := exists d', fs' = <[out := Reg m d']> fs /\ (d' = d0 \/ d' = d0 ++ bs) in
  wp b (write_loop fuel out bs) (λ _, ext) ext fs.
Proof.
  intros Ho Hf ext. assert (Hid : ext fs) by (exists d0; split; [by rewrite insert_id|by left]).
  destruct bs as [|x bs]; [by destruct fuel; cbn [write_loop]; wp_step|].
  destruct fuel as [|fuel]; [simpl in Hf; lia|]. cbn [write_loop]. wp_step. apply wp_write.
  - unfold fs_append. rewrite Ho. cbn [fst snd length].
    rewrite (drop_ge (x :: bs) (S (length bs))) by (simpl; lia).
    destruct fuel; cbn [write_loop]; wp_step; eexists; eauto.
  - intros _. split; [|done]. intros e. by wp_step.
Qed.

Lemma open_create_append_cases s mode fs :
  fs_ok fs ->
  (exists e, fs_open_create_append s mode fs = (inr e, fs)) \/
  (exists m d, fs_open_create_append s mode fs = (inl (resolve s), fs) /\ fs !! resolve s = Some (Reg m d)) \/
  (fs_open_create_append s mode fs = (inl (resolve s), <[resolve s := Reg mode []]> fs) /\
   get fs (resolve s) = None /\ fs_ok (<[resolve s := Reg mode []]> fs)).
Proof.
  intros Hok. unfold fs_open_create_append. destruct (fs_stat fs s) as [[m d| |]|e] eqn:Es; try (left; by eexists).
  - right. left. apply stat_inl in Es as [Hg _]. exists m, d. split; [done|]. destruct (resolve s); [done|]. exact Hg.
  - destruct e; try (left; by eexists). destruct (walk fs [] (resolve s)) eqn:Ew; [left; by eexists|].
    apply stat_ENOENT in Es; [|done]. right. right. split; [done|]. split; [done|].
    apply ok_insert; [done|apply resolve_good|done| |congruence]. intros E. by rewrite E in Es.
Qed.

Lemma insert_again_ok fs p m d d' : fs_ok fs -> fs !! p = Some (Reg m d) -> fs_ok (<[p := Reg m d']> fs).
Proof.
  intros Hok Hp. assert (Hne : p ≠ []) by (intros ->; rewrite (ok_root _ Hok) in Hp; done).
  apply ok_insert; [done|by apply (ok_names _ Hok) in Hp| |done|].
  - eapply walk_dir; [done|]. simpl. rewrite get_lookup by done. exact Hp.
  - rewrite get_lookup by done. congruence.
Qed.

(** the log never outgrows its limit.  Whatever is logged, and wherever a call
    fails or the machine stops, a log of at most 64 KiB stays within 64 KiB. *)
Theorem persistent_log_bounded boot_id ms level subject detail w :
  log_bounded (w_fs w) -> env_ok true w ->
  log_bounded (w_fs (outcome_world (persistent_log boot_id ms level subject detail w))).
Proof.
  intros Hb Hw.
  assert (H : wp true (persistent_log boot_id ms level subject detail) (λ _, log_bounded) log_bounded (w_fs w)).
  2:{ pose proof (wp_use _ _ _ _ w H Hw) as Hu.
      destruct (persistent_log _ _ _ _ _ w); cbn [outcome_world]; apply Hu. }
  unfold persistent_log. set (line := log_line _ _ _ _ _). clearbody line.
  wp_step. apply wp_op; [|intros _; split; [intros e; by wp_step|done]].
  assert (Hgo : forall fs m d, log_bounded fs -> fs !! p_log = Some (Reg m d) ->
    wp true (st ← pure_op (file_size p_log);
      _ ← match st with
          | inl size => if size + Z.of_nat (length line) <=? VIGIL_LOG_MAX
                        then write_loop (length line) p_log line else mret 0
          | inr _ => mret 0
          end;
      _ ← sys_close p_log; mret tt) (λ _, log_bounded) log_bounded fs).
  { intros fs m d Hf Hd.
    assert (Hclose : forall fs', log_bounded fs' -> wp true (_ ← sys_close p_log; mret tt) (λ _, log_bounded) log_bounded fs').
    { intros fs' Hf'. wp_step. apply wp_pure_op; [by wp_step|]. intros _. split; [|done]. intros. by wp_step. }
    wp_step. apply wp_pure_op.
    2:{ intros _. split; [|done]. intros e. wp_step. wp_step. by apply Hclose. }
    unfold file_size. rewrite Hd. wp_step. wp_step; [|wp_step; by apply Hclose]. boolify.
    assert (Hext : forall fs', (exists d', fs' = <[p_log := Reg m d']> fs /\ (d' = d \/ d' = d ++ line)) -> log_bounded fs').
    { intros fs' (d' & -> & Hd'). split; [by eapply insert_again_ok; [apply Hf|]|].
      intros x Hx. unfold data_at in Hx. rewrite lookup_insert_eq in Hx. injection Hx as <-.
      destruct Hd' as [-> | ->].
      - apply Hf. unfold data_at. by rewrite Hd.
      - rewrite length_app. lia. }
    eapply wp_conseq; [by apply wp_append_loop| |exact Hext]. intros r fs' He. apply Hclose. by apply Hext. }
  destruct (open_create_append_cases VIGIL_LOG 420 (w_fs w) (proj1 Hb)) as [(e & ->)|[(m & d & -> & Hd)|(-> & _ & Hok)]];
    cbn [fst snd].
  - by wp_step.
  - by apply (Hgo _ m d).
  - apply (Hgo _ 420 []); [|apply lookup_insert_eq]. split; [done|].
    intros x Hx. unfold data_at, p_log in Hx. rewrite lookup_insert_eq in Hx. by injection Hx as <-.
Qed.

End Log.

(** * The first boot of an installed system *)

Section FirstBoot.

Implicit Types (fs : fsys).

Lemma wp_mono (b : bool) {A} (m : M A) (Q Q' : A -> fsys -> Prop) (C : fsys -> Prop) fs :
  wp b m Q' C fs -> (forall a fs', Q' a fs' -> Q a fs') -> wp b m Q C fs.
Proof. intros H HQ. by eapply wp_conseq. Qed.

Lemma calm_exists_file p fs C :
  fs_ok fs -> wants_dir p = false ->
  wp false (exists_file p) (λ r fs', fs' = fs /\ (r = true <-> get fs (resolve p) ≠ None)) C fs.
Proof.
  intros Hok Hd. unfold exists_file. wp_step. apply wp_pure_op; [|done]. wp_step. split; [done|].
  destruct (get fs (resolve p)) as [n|] eqn:E.
  - rewrite (stat_get fs Hok p n E Hd). done.
  - destruct (fs_stat fs p) as [n|e] eqn:Es; [|naive_solver]. apply stat_inl in Es as [Hg _]. congruence.
Qed.

Definition only_at (q : path) fs fs' : Prop := fs_ok fs' /\ forall q', q' ≠ q -> fs' !! q' = fs !! q'.

Lemma calm_unlink p fs C :
  fs_ok fs -> wants_dir p = false ->
  wp false (sys_unlink p) (λ _ fs', only_at (resolve p) fs fs' /\ data_at fs' (resolve p) = None) C fs.
Proof.
  intros Hok Hd. apply wp_op; [|done].
  destruct (unlink_cases p fs Hok) as [(e & E & _)|(n & E & _ & _ & _ & Hok')]; rewrite E; cbn [snd].
  - split; [done|]. unfold data_at. destruct (fs !! resolve p) as [[m d| |]|] eqn:Ep; try done.
    assert (Hg : get fs (resolve p) = Some (Reg m d)).
    { rewrite get_lookup; [done|]. intros Hn. rewrite Hn in Ep. by rewrite (ok_root _ Hok) in Ep. }
    unfold fs_unlink in E. by rewrite (stat_get fs Hok p _ Hg Hd) in E.
  - split; [split; [done|]; intros q Hq; by rewrite lookup_delete_ne by congruence|].
    unfold data_at. by rewrite lookup_delete_eq.
Qed.

Lemma calm_unlink_each ps fs C :
  fs_ok fs -> Forall (λ p, wants_dir p = false) ps ->
  wp false (unlink_each ps)
    (λ _ fs', fs_ok fs' /\ (forall p, p ∈ ps -> data_at fs' (resolve p) = None) /\
              (forall q, data_at fs q = None -> data_at fs' q = None) /\
              (forall q, q ∉ resolve <$> ps -> fs' !! q = fs !! q)) C fs.
Proof.
  intros Hok Hps. revert fs Hok. induction Hps as [|p ps Hp _ IH]; intros fs Hok; cbn [unlink_each].
  { wp_step. split_and!; try done. set_solver. }
  wp_step. eapply wp_mono; [by apply calm_unlink|]. intros r fs1 [[Hok1 Hq] Hn].
  eapply wp_mono; [by apply IH|]. intros ? fs2 (Hok2 & H1 & H2 & H3).
  assert (Hmono : forall q, data_at fs q = None -> data_at fs1 q = None).
  { intros q Hd. destruct (decide (q = resolve p)) as [->|Hne]; [done|]. unfold data_at in *. by rewrite Hq. }
  split_and!; [done| |by auto|].
  - intros x [-> | Hx]%elem_of_cons; [by apply H2|by apply H1].
  - intros q Hx. rewrite fmap_cons, not_elem_of_cons in Hx. destruct Hx as [Hx1 Hx2].
    rewrite H3 by done. by apply Hq.
Qed.

Definition live_only : list bytes := installer_paths ++ [B "/etc/aegis/autologin"].

(** an installed system does not keep the live media's privileges.  On a
    fault-free boot: the live system is left alone; on an installed system that
    still has an installer, the installers, their policies and the passwordless
    auto-login are gone afterwards and no other file changed (only the empty
    bundle directory); and once the installers are gone nothing is touched, so
    an auto-login the user chose later is kept. *)
Theorem installed_boot_cleans is_live w :
  env_ok false w -> fs_ok (w_fs w) ->
  let fs := w_fs w in
  let present := get fs (resolve (B "/apps/gui-installer/gui-installer")) ≠ None \/
                 get fs (resolve (B "/bin/installer")) ≠ None in
  exists w', remove_installers_if_installed is_live w = Ret tt w' /\
    ((is_live = true \/ ~ present) -> w_fs w' = fs) /\
    (is_live = false -> present ->
       (forall p, p ∈ live_only -> data_at (w_fs w') (resolve p) = None) /\
       (forall q, q ∉ resolve <$> (B "/apps/gui-installer") :: live_only -> w_fs w' !! q = fs !! q)).
Proof.
  intros Hw Hok fs present.
  assert (H : wp false (remove_installers_if_installed is_live)
    (λ _ fs', ((is_live = true \/ ~ present) -> fs' = fs) /\
       (is_live = false -> present ->
         (forall p, p ∈ live_only -> data_at fs' (resolve p) = None) /\
         (forall q, q ∉ resolve <$> (B "/apps/gui-installer") :: live_only -> fs' !! q = fs !! q)))
    (λ _, False) fs).
  2:{ pose proof (wp_use _ _ _ _ w H Hw) as Hu.
      destruct (remove_installers_if_installed is_live w) as [[] w'|w']; [|by destruct Hu].
      exists w'. split; [done|apply Hu]. }
  unfold remove_installers_if_installed. destruct is_live; [wp_step; naive_solver|].
  wp_step. eapply wp_mono; [by apply calm_exists_file|]. intros a fs' [-> Ha]. cbn beta.
  wp_step. eapply (wp_mono _ _ _ (λ c fs', fs' = fs /\ (c = true <-> present))).
  { destruct a; cbv iota; [apply wp_ret; split; [done|]; unfold present; naive_solver|].
    eapply wp_mono; [by apply calm_exists_file|]. intros c fs' [-> Hc]. split; [done|].
    unfold present. rewrite Hc. split; [naive_solver|]. intros [Hx|Hx]; [|done].
    exfalso. apply Ha in Hx. done. }
  intros c fs' [-> Hc]. cbn beta. wp_step.
  { wp_step. boolify. split; [done|]. intros _ Hp. apply Hc in Hp. congruence. }
  boolify. assert (Hpres : present) by (by apply Hc).
  wp_step. eapply wp_mono; [apply calm_unlink_each; [done|by repeat constructor]|].
  intros ? fs1 (Hok1 & H1 & H2 & H3). cbn beta.
  wp_step. apply wp_op; [|done].
  set (fs2 := (fs_rmdir (B "/apps/gui-installer") fs1).2).
  assert (Hrm : fs_ok fs2 /\ (forall q, data_at fs1 q = None -> data_at fs2 q = None) /\
            (forall q, q ≠ resolve (B "/apps/gui-installer") -> fs2 !! q = fs1 !! q)).
  { unfold fs2. destruct (rmdir_cases (B "/apps/gui-installer") fs1 Hok1) as [(e & ->)|(-> & _ & Hok2)]; [done|].
    cbn [snd]. split; [done|]. split.
    - intros q Hq. unfold data_at in *. destruct (decide (q = resolve (B "/apps/gui-installer"))) as [->|].
      + by rewrite lookup_delete_eq.
      + by rewrite lookup_delete_ne.
    - intros q Hq. by rewrite lookup_delete_ne. }
  clearbody fs2. destruct Hrm as (Hok2 & R1 & R2).
  wp_step. eapply wp_mono; [by apply calm_unlink|]. intros ? fs3 [[Hok3 Hq] Hn]. cbn beta.
  wp_step. apply wp_pure_op; [|done]. wp_step. split; [naive_solver|]. intros _ _. split.
  - unfold live_only. intros p [Hp| ->%list_elem_of_singleton]%elem_of_app; [|done].
    destruct (decide (resolve p = resolve (B "/etc/aegis/autologin"))) as [->|]; [done|].
    unfold data_at. rewrite Hq by done. apply R1. by apply H1.
  - intros q Hx. unfold live_only in Hx. rewrite fmap_cons, fmap_app in Hx.
    rewrite not_elem_of_cons, not_elem_of_app in Hx. destruct Hx as (Hx1 & Hx2 & Hx3).
    rewrite Hq by (intros ->; apply Hx3; by apply list_elem_of_singleton). rewrite R2 by done. by apply H3.
Qed.

(** the first-boot exception is closed.  On an image that ships no
    /bin/configure, a fault-free boot leaves the marker /etc/aegis/configured
    behind, so the kernel's first-boot grant ends with the first boot. *)
Theorem first_boot_window_closed configure w :
  env_ok false w -> fs_ok (w_fs w) -> get (w_fs w) (resolve (B "/etc/aegis")) = Some Dir ->
  get (w_fs w) (resolve (B "/bin/configure")) = None ->
  exists w', run_first_boot_setup configure w = Ret tt w' /\
    get (w_fs w') (resolve (B "/etc/aegis/configured")) ≠ None.
Proof.
  intros Hw Hok Hdir Hconf. set (fs := w_fs w) in *.
  set (p := resolve (B "/etc/aegis/configured")).
  assert (H : wp false (run_first_boot_setup configure) (λ _ fs', get fs' p ≠ None) (λ _, False) fs).
  2:{ pose proof (wp_use _ _ _ _ w H Hw) as Hu.
      destruct (run_first_boot_setup configure w) as [[] w'|w']; [|by destruct Hu].
      exists w'. split; [done|apply Hu]. }
  unfold run_first_boot_setup. wp_step. eapply wp_mono; [by apply calm_exists_file|].
  intros r fs' [-> Hr]. cbn beta. destruct r; [wp_step; by apply Hr|].
  assert (Hnone : get fs p = None).
  { destruct (get fs p) eqn:E; [|done]. assert (false = true) by (apply Hr; unfold p in E; by rewrite E). done. }
  unfold executable. wp_step. wp_step. apply wp_pure_op; [|done]. wp_step.
  destruct (fs_stat fs (B "/bin/configure")) as [n|e] eqn:Es.
  { apply stat_inl in Es as [Hg _]. congruence. }
  cbn [negb]. wp_step. apply wp_op; [|done].
  assert (Hopen : fs_open_trunc (B "/etc/aegis/configured") 420 fs = (inl p, <[p := Reg 420 []]> fs)).
  { unfold fs_open_trunc. fold p. rewrite Hnone.
    change (walk fs [] p) with (walk fs [] (resolve (B "/etc/aegis") ++ [B "configured"])).
    rewrite (walk_of_parent fs Hok) by done. done. }
  rewrite Hopen. cbn [fst snd]. wp_step. apply wp_write; [|done].
  unfold fs_append. rewrite lookup_insert_eq. cbn [fst snd]. wp_step. apply wp_pure_op; [|done].
  wp_step. apply wp_pure_op; [|done]. wp_step. rewrite get_lookup by done. by rewrite lookup_insert_eq.
Qed.

End FirstBoot.

(** * Restarting *)

(** a restart is a stop for some services.  [vigictl restart] on a running
    service that is oneshot, or has no restarts in its policy, terminates it; when
    its process ends the supervisor makes it inactive and does not start it. *)
Theorem restart_only_stops i svc st s :
  sup_ok s -> svcs s !! i = Some svc -> running svc = true ->
  s_policy svc = POLICY_ONESHOT \/ s_max_restarts svc <= 0 ->
  let s' := reap (s_pid svc) st (command_one (B "restart") i s) in
  EvKill (s_pid svc) SIGTERM ∈ trace s' /\ starts i (trace s') = starts i (trace s) /\
  exists svc', svcs s' !! i = Some svc' /\ s_active svc' = false /\ s_pid svc' = -1.
Proof.
  intros Hok Hi Hr Hp s'. unfold s'. pose proof (ok_command_one (B "restart") i s Hok) as [[_ Hone] _ _ _ _].
  set (svc1 := set_restarts (set_active (set_expected_stop svc true) true) 0).
  assert (E : command_one (B "restart") i s = put (emit s (EvKill (s_pid svc) SIGTERM)) i svc1).
  { unfold command_one. rewrite Hi. unfold running in Hr. by rewrite Hr. }
  rewrite E in *. set (s1 := put _ i svc1) in *.
  assert (Hlen : (i < length (svcs s))%nat) by (by eapply lookup_lt_Some).
  assert (Hi1 : svcs s1 !! i = Some svc1) by (by apply list_lookup_insert_eq).
  rewrite reap_unfold. destruct (find_pid (s_pid svc) (svcs s1)) as [j|] eqn:Ef.
  2:{ by destruct (find_pid_None _ _ _ _ Ef Hi1). }
  destruct (find_pid_spec _ _ _ Ef) as (x & Hj & Hx).
  assert (j = i) as ->.
  { unfold running in Hr. apply (Hone j i (s_pid svc)); eexists; (split; [done|split; [done|lia]]). }
  rewrite Hi1. cbn [svc1 set_restarts set_active set_expected_stop s_expected_stop s_active s_policy negb andb
    s_max_restarts s_restarts].
  replace (s_max_restarts svc <=? 0) with (if decide (s_max_restarts svc <= 0) then true else false)
    by (case_decide; lia).
  assert (Hs : starts i (EvKill (s_pid svc) SIGTERM :: trace s) = starts i (trace s)) by done.
  destruct (decide (s_policy svc = POLICY_ONESHOT)); [|destruct Hp; [done|]; rewrite decide_True by done];
    cbn [put trace s1 emit]; (split; [left|]; split; [exact Hs|]); eexists;
    (split; [apply list_lookup_insert_eq; unfold s1; cbn [put svcs emit]; rewrite ?length_insert; exact Hlen|split; reflexivity]).
Qed.

(** * Witnesses *)

Section Witnesses.

(** A kernel that hands out the number above all that are in use; every third
    fork fails. *)
Definition above (C : gset Z) : Z := 1 + foldr Z.max 0 (elements C).

Lemma above_spec C : 0 < above C /\ above C ∉ C.
Proof.
  assert (H : forall l, 0 <= foldr Z.max 0 l /\ forall x, x ∈ l -> x <= foldr Z.max 0 l).
  { induction l as [|y l [IH1 IH2]]; simpl; [split; [lia|]; intros x Hx; by apply elem_of_nil in Hx|].
    split; [lia|]. intros x [-> |Hx]%elem_of_cons; [lia|]. specialize (IH2 x Hx). lia. }
  unfold above. destruct (H (elements C)) as [H1 H2]. split; [lia|]. rewrite <- elem_of_elements.
  intros Hin%H2. lia.
Qed.

Definition flaky : kernel :=
  Kernel ∅ (λ n C, if (n mod 3 =? 2)%nat then inr 11 else inl (above C)) 0 [].

Lemma flaky_fresh : fork_fresh flaky.
Proof. intros n C p H. cbn [k_fork flaky] in H. case_match; [done|]. injection H as <-. apply above_spec. Qed.

Definition steady : kernel := Kernel ∅ (λ _ C, inl (above C)) 0 [].

Lemma steady_fresh : fork_fresh steady.
Proof. intros n C p H. injection H as <-. apply above_spec. Qed.

Definition sample_table : list service_t :=
  [getty; Service (B "dhcp") (B "/bin/dhcp") [] [] POLICY_RESPAWN 2 (-1) 0 true false;
   Service (B "setup") (B "/bin/setup") [] [] POLICY_ONESHOT 5 (-1) 0 true false].

Lemma sample_boot k : k_children k = ∅ -> fork_fresh k -> at_boot sample_table k.
Proof. intros H1 H2. split; [by repeat constructor|done|done]. Qed.

(** dhcp dies three times, and one fork of its restarts fails; getty is restarted by hand in between. *)
Definition crashes (p : Z) : input := Input None [(p, Signaled 11)].

Definition sample_passes : list input :=
  [crashes 2; crashes 2; Input (Some (B "restart getty" ++ [LF])) [(1, Signaled 15)]; crashes 4; crashes 4].

Lemma supervisor_invariant_witness :
  sup_ok (run_passes sample_passes (booted (B "text") [] sample_table flaky)).
Proof. apply (supervisor_invariant (B "text") [] sample_table flaky). by apply sample_boot; [|apply flaky_fresh]. Defined.

Lemma restart_budget_witness :
  starts 1 (trace (run_passes (crashes 2 :: repeat (crashes 4) 5) (booted (B "text") [] sample_table steady))) = 3 /\
  starts 1 (trace (run_passes (crashes 2 :: repeat (crashes 4) 5) (booted (B "text") [] sample_table steady))) <= 1 + Z.max 0 2.
Proof.
  split; [vm_compute; reflexivity|].
  apply (restart_budget (B "text") [] sample_table steady (crashes 2 :: repeat (crashes 4) 5) 1
           (Service (B "dhcp") (B "/bin/dhcp") [] [] POLICY_RESPAWN 2 (-1) 0 true false)); [|done|by repeat constructor].
  by apply sample_boot; [|apply steady_fresh].
Defined.

Lemma steady_ok : sup_ok (booted (B "text") [] sample_table steady).
Proof. apply ok_boot, boot_ok, sample_boot; [done|apply steady_fresh]. Qed.

Lemma pass_leaves_active_running_witness :
  all_running (supervise (crashes 2) (booted (B "text") [] sample_table steady)) /\
  EvStarted 1 4 ∈ trace (supervise (crashes 2) (booted (B "text") [] sample_table steady)).
Proof.
  split.
  - apply (pass_leaves_active_running (crashes 2)); [apply steady_ok|]. intros n C. by eexists.
  - vm_compute. left.
Defined.

Lemma stop_is_permanent_witness :
  starts 1 (trace (run_passes [crashes 3] (supervise (Input (Some (B "stop dhcp" ++ [LF])) [(2, Signaled 15)])
    (booted (B "text") [] sample_table steady)))) <= 1.
Proof.
  apply (stop_is_permanent (B "dhcp") (B "stop dhcp") [(2, Signaled 15)] [crashes 3] 1
    (Service (B "dhcp") (B "/bin/dhcp") [] [] POLICY_RESPAWN 2 2 0 true false)
    (booted (B "text") [] sample_table steady)); try done.
  - apply steady_ok.
  - simpl. lia.
  - by apply has_char_false.
  - intros c [= <-]. done.
  - by repeat constructor.
Defined.

Lemma shutdown_reaches_all_witness :
  EvKill 3 SIGTERM ∈ trace (shutdown_all [[(1, Exited 0)]] (booted (B "text") [] sample_table steady)) /\
  EvKill 3 SIGKILL ∈ trace (shutdown_all [[(1, Exited 0)]] (booted (B "text") [] sample_table steady)).
Proof.
  destruct (shutdown_reaches_all [[(1, Exited 0)]] _ steady_ok) as (H1 & H2 & _). split.
  - apply H1. vm_compute. reflexivity.
  - apply H2. vm_compute. reflexivity.
Defined.

Lemma restart_only_stops_witness :
  starts 2 (trace (reap 3 (Signaled 15) (command_one (B "restart") 2 (booted (B "text") [] sample_table steady)))) = 1.
Proof.
  apply (restart_only_stops 2 (Service (B "setup") (B "/bin/setup") [] [] POLICY_ONESHOT 5 3 0 true false)
           (Signaled 15) (booted (B "text") [] sample_table steady)); [apply steady_ok|done|done|by left].
Defined.

Definition logging_fs (n : nat) : fsys :=
  tree [("/var", Dir); ("/var/log", Dir); ("/var/log/vigil.log", Reg 420 (repeat LF n))]%string.

(** The line would fit, but the machine stops before it is written. *)
Lemma persistent_log_bounded_witness :
  log_bounded (w_fs (outcome_world (persistent_log (B "b") 7 (B "info") (B "vigil") (B "x") (crash_world 2 (logging_fs 100))))).
Proof.
  apply persistent_log_bounded; [|apply crash_world_ok]. split; [apply fs_okb_sound; vm_compute; reflexivity|].
  intros d Hd. vm_compute in Hd. injection Hd as <-. vm_compute. discriminate.
Defined.

Definition installed_fs : fsys :=
  tree [("/bin", Dir); ("/bin/installer", Reg 493 (B "ELF")); ("/etc", Dir); ("/etc/aegis", Dir);
    ("/etc/aegis/autologin", Reg 420 (B "root")); ("/etc/aegis/caps.d", Dir);
    ("/etc/aegis/caps.d/installer", Reg 420 (B "admin DISK_ADMIN"))]%string.

Lemma installed_fs_ok : fs_ok installed_fs.
Proof. apply fs_okb_sound. vm_compute. reflexivity. Qed.

Lemma installed_boot_cleans_witness :
  exists w', remove_installers_if_installed false (calm_world installed_fs) = Ret tt w' /\
    data_at (w_fs w') (resolve (B "/etc/aegis/autologin")) = None.
Proof.
  destruct (installed_boot_cleans false (calm_world installed_fs) (calm_world_ok _ _) installed_fs_ok)
    as (w' & E & _ & H).
  exists w'. split; [exact E|]. apply H; [reflexivity| |].
  - right. vm_compute. discriminate.
  - unfold live_only. apply elem_of_app. right. by apply list_elem_of_singleton.
Defined.

Lemma first_boot_window_closed_witness :
  exists w', run_first_boot_setup (mret tt) (calm_world installed_fs) = Ret tt w' /\
    get (w_fs w') (resolve (B "/etc/aegis/configured")) ≠ None.
Proof.
  apply (first_boot_window_closed (mret tt) (calm_world installed_fs) (calm_world_ok _ _) installed_fs_ok);
    vm_compute; reflexivity.
Defined.

End Witnesses.
