(* ===== verification/StshEnv.v ===== *)
(** The environment of stsh (src/user/bin/stsh/env.c): a table of at most 64
    strings KEY=VALUE of at most 255 bytes, searched from the front.

    The table refines a finite map from names to values. *)

From S2P Require Import Prelude CString.
Local Open Scope Z_scope.

(** * Definitions *)

Definition ENV_MAX : nat := 64.

(** [s_env_store], as many entries as [s_env_count] says. *)
Abbreviation env := (list (list Z)).

Definition env_init (envp : list bytes) : env := take ENV_MAX (fit 256 <$> envp).

(** The test of every search. *)
Definition env_match (key e : bytes) : bool :=
  starts_with key e && (byte_at e (length key) =? EQUALS).

Fixpoint env_get (key : bytes) (en : env) : option bytes :=
  match en with
  | [] => None
  | e :: en => if env_match key e then Some (drop (S (length key)) e) else env_get key en
  end.

Definition env_entry (key value : bytes) : bytes := fit 256 (key ++ EQUALS :: value).

(** The first entry for [key] is overwritten. *)
Fixpoint env_update (key value : bytes) (en : env) : option env :=
  match en with
  | [] => None
  | e :: en => if env_match key e then Some (env_entry key value :: en)
               else cons e <$> env_update key value en
  end.

Definition env_set (key value : bytes) (en : env) : env :=
  match env_update key value en with
  | Some en' => en'
  | None => if (ENV_MAX <=? length en)%nat then en else en ++ [env_entry key value]
  end.

(** [None] is the result -1. *)
Fixpoint env_unset (key : bytes) (en : env) : option env :=
  match en with
  | [] => None
  | e :: en => if env_match key e then Some en else cons e <$> env_unset key en
  end.

Definition env_print_all (en : env) : bytes := concat ((λ e, e ++ [LF]) <$> en).

(** Characters of a variable's name. *)
Definition is_lower (c : byte) : bool := (97 <=? c) && (c <=? 122).
Definition is_upper (c : byte) : bool := (65 <=? c) && (c <=? 90).
Definition is_name_start (c : byte) : bool := (c =? 95) || is_lower c || is_upper c.
Definition is_name_char (c : byte) : bool := is_name_start c || is_decimal c.

(** A run of at most [n] characters that satisfy [p], and what follows it. *)
Definition span_n (n : nat) (p : byte -> bool) (s : bytes) : bytes * bytes :=
  let w := take n (take_while p s) in (w, drop (length w) s).

(** What [env_expand] appends for a '$' that is followed by [s], and the rest of
    the source. *)
Definition expand_dollar (last_exit : Z) (en : env) (s : bytes) : bytes * bytes :=
  match s with
  | [] => ([36], [])
  | c :: r =>
      if c =? 63 then (print_dec last_exit, r)
      else if c =? 123 then
        let '(name, r) := span_n 127 (not_c 125) r in
        let r := match r with d :: r' => if d =? 125 then r' else r | [] => [] end in
        (default [] (env_get name en), r)
      else
        match span_n 127 is_name_char s with
        | ([], _) => ([36], s)
        | (name, r) => (default [] (env_get name en), r)
        end
  end.

(** The loop; [room] bytes are free in [dst]. *)
Fixpoint expand_loop (fuel room : nat) (last_exit : Z) (en : env) (s : bytes) : bytes :=
  match fuel, room, s with
  | S fuel, S room', c :: s =>
      if c =? 36 then
        let '(v, r) := expand_dollar last_exit en s in
        let v := take room v in
        v ++ expand_loop fuel (room - length v) last_exit en r
      else c :: expand_loop fuel room' last_exit en s
  | _, _, _ => []
  end.

Definition env_expand (src : bytes) (dstlen : nat) (last_exit : Z) (en : env) : bytes :=
  expand_loop (length src) (dstlen - 1) last_exit en src.

(** ** The abstract environment *)

(** What the table means: the first entry for a name counts. *)
Fixpoint env_abs (en : env) : gmap bytes bytes :=
  match en with
  | [] => ∅
  | e :: en =>
      match cut EQUALS e with
      | Some (k, v) => <[k := v]> (env_abs en)
      | None => env_abs en
      end
  end.

Definition env_keys (en : env) : list bytes :=
  omap (λ e, fst <$> cut EQUALS e) en.

(** The type of the table: as many strings as fit, each in its slot. *)
Record env_ok (en : env) : Prop := {
  eo_count : (length en <= ENV_MAX)%nat;
  eo_slots : Forall (λ e, (length e < 256)%nat) en;
  eo_unique : NoDup (env_keys en)
}.

(** * Properties *)

Section Properties.

Implicit Types (en : env) (key value e : bytes).

Lemma env_match_spec key e :
  EQUALS ∉ key -> env_match key e = true <-> exists v, cut EQUALS e = Some (key, v) /\ v = drop (S (length key)) e.
Proof.
  intros Hk. unfold env_match. rewrite andb_true_iff, starts_with_spec, Z.eqb_eq. split.
  - intros [[r ->] Hb]. destruct r as [|c r].
    + unfold byte_at in Hb. rewrite app_nil_r, lookup_ge_None_2 in Hb by lia. done.
    + unfold byte_at in Hb. rewrite list_lookup_middle in Hb by done. simpl in Hb. subst c.
      exists r. split; [by apply cut_spec|]. by rewrite drop_app_ge, Nat.sub_succ_l, Nat.sub_diag by lia.
  - intros (v & Hc & _). apply cut_spec in Hc as [-> _]. split; [by eexists|].
    unfold byte_at. by rewrite list_lookup_middle.
Qed.

Lemma env_match_false key e k v :
  EQUALS ∉ key -> env_match key e = false -> cut EQUALS e = Some (k, v) -> k ≠ key.
Proof.
  intros Hk Hm Hc ->. assert (env_match key e = true); [|congruence]. apply env_match_spec; [done|].
  exists v. split; [done|]. apply cut_spec in Hc as [-> _].
  by rewrite drop_app_ge, Nat.sub_succ_l, Nat.sub_diag by lia.
Qed.

Lemma env_get_abs key en : EQUALS ∉ key -> env_get key en = env_abs en !! key.
Proof.
  intros Hk. induction en as [|e en IH]; cbn [env_get env_abs]; [done|].
  destruct (env_match key e) eqn:E.
  - apply env_match_spec in E as (v & -> & ->); [|done]. by rewrite lookup_insert_eq.
  - rewrite IH. destruct (cut EQUALS e) as [[k v]|] eqn:Ec; [|done].
    rewrite lookup_insert_ne; [done|]. by eapply env_match_false.
Qed.

Lemma cut_entry key value : EQUALS ∉ key -> (length key < 255)%nat ->
  cut EQUALS (env_entry key value) = Some (key, take (254 - length key) value).
Proof.
  intros Hk Hl. apply cut_spec. split; [|done]. unfold env_entry, fit. change (256 - 1)%nat with 255%nat.
  rewrite take_app_ge by lia. f_equal. replace (255 - length key)%nat with (S (254 - length key)) by lia. done.
Qed.

Lemma env_update_abs key value en en' :
  EQUALS ∉ key -> (length key < 255)%nat -> env_update key value en = Some en' ->
  env_abs en' = <[key := take (254 - length key) value]> (env_abs en) /\ env_keys en' = env_keys en.
Proof.
  intros Hk Hl. revert en'. induction en as [|e en IH]; intros en' H; cbn [env_update] in H; [done|].
  destruct (env_match key e) eqn:E.
  - injection H as <-. cbn [env_abs env_keys omap]. unfold env_keys. cbn [omap list_omap].
    rewrite cut_entry by done. apply env_match_spec in E as (v & -> & _); [|done].
    split; [|done]. by rewrite insert_insert_eq.
  - destruct (env_update key value en) as [en1|]; [|done]. injection H as <-.
    destruct (IH en1 eq_refl) as [H1 H2]. cbn [env_abs]. unfold env_keys in *. cbn [omap list_omap].
    destruct (cut EQUALS e) as [[k v]|] eqn:Ec; [|done]. cbn. rewrite H1, H2. split; [|done].
    rewrite insert_insert_ne; [done|]. by eapply env_match_false.
Qed.

Lemma env_update_None key value en : EQUALS ∉ key -> env_update key value en = None -> env_abs en !! key = None.
Proof.
  intros Hk. rewrite <- env_get_abs by done. induction en as [|e en IH]; cbn [env_update env_get]; [done|].
  destruct (env_match key e); [done|]. destruct (env_update key value en); [done|]. auto.
Qed.

Lemma env_abs_snoc en e k v :
  cut EQUALS e = Some (k, v) -> env_abs en !! k = None -> env_abs (en ++ [e]) = <[k := v]> (env_abs en).
Proof.
  intros Hc. induction en as [|x en IH]; cbn [env_abs app]; [by rewrite Hc|].
  destruct (cut EQUALS x) as [[k' v']|]; intros Hn; [|by auto].
  destruct (decide (k' = k)) as [->|Hne]; [by rewrite lookup_insert_eq in Hn|].
  rewrite lookup_insert_ne in Hn by done. rewrite IH by done. by rewrite insert_insert_ne.
Qed.

Lemma env_keys_abs key en : key ∈ env_keys en <-> is_Some (env_abs en !! key).
Proof.
  unfold env_keys. induction en as [|e en IH]; cbn [omap list_omap env_abs].
  { rewrite elem_of_nil, lookup_empty. by split; [|intros [? [=]]]. }
  destruct (cut EQUALS e) as [[k v]|]; [|done]. cbn. rewrite elem_of_cons, IH.
  destruct (decide (k = key)) as [->|Hne]; [rewrite lookup_insert_eq|rewrite lookup_insert_ne by done]; naive_solver.
Qed.

Lemma env_unset_abs key en en' :
  EQUALS ∉ key -> NoDup (env_keys en) -> env_unset key en = Some en' ->
  is_Some (env_abs en !! key) /\ env_abs en' = delete key (env_abs en) /\ env_keys en' `sublist_of` env_keys en.
Proof.
  intros Hk. revert en'. unfold env_keys. induction en as [|e en IH]; intros en' Hnd H; cbn [env_unset] in H; [done|].
  cbn [omap list_omap env_abs] in *. destruct (env_match key e) eqn:E.
  - injection H as <-. apply env_match_spec in E as (v & Hc & _); [|done]. rewrite Hc in *. cbn in Hnd.
    inversion Hnd as [|? ? Hni Hnd']; subst. rewrite lookup_insert_eq. split; [done|].
    split; [|cbn; by constructor]. rewrite delete_insert_id; [done|].
    apply eq_None_not_Some. by rewrite <- env_keys_abs.
  - destruct (env_unset key en) as [en1|]; [|done]. injection H as <-. cbn [omap list_omap env_abs].
    destruct (cut EQUALS e) as [[k v]|] eqn:Ec.
    + cbn in Hnd. inversion Hnd as [|? ? Hni Hnd']; subst. destruct (IH en1 Hnd' eq_refl) as (H1 & H2 & H3).
      assert (Hne : k ≠ key) by (by eapply env_match_false).
      rewrite lookup_insert_ne by done. split; [done|]. split; [|cbn; by constructor].
      rewrite H2. by rewrite delete_insert_ne.
    + destruct (IH en1 Hnd eq_refl) as (H1 & H2 & H3). done.
Qed.

Lemma env_unset_None key en : EQUALS ∉ key -> env_unset key en = None -> env_abs en !! key = None.
Proof.
  intros Hk. rewrite <- env_get_abs by done. induction en as [|e en IH]; cbn [env_unset env_get]; [done|].
  destruct (env_match key e); [done|]. destruct (env_unset key en); [done|]. auto.
Qed.

Lemma env_entry_length key value : (length (env_entry key value) < 256)%nat.
Proof. unfold env_entry. apply length_fit. lia. Qed.

Lemma env_set_ok key value en :
  EQUALS ∉ key -> (length key < 255)%nat -> env_ok en -> env_ok (env_set key value en).
Proof.
  intros Hk Hl [H1 H2 H3]. unfold env_set. destruct (env_update key value en) as [en'|] eqn:E.
  - destruct (env_update_abs _ _ _ _ Hk Hl E) as [_ Hkeys].
    assert (Hlen : length en' = length en /\ Forall (λ e, (length e < 256)%nat) en').
    { clear Hkeys H1 H3. revert en' E. induction H2 as [|e en He Hen IH]; intros en' E; cbn [env_update] in E; [done|].
      destruct (env_match key e); [injection E as <-; split; [done|]; constructor; [apply env_entry_length|done]|].
      destruct (env_update key value en) as [en1|]; [|done]. injection E as <-.
      destruct (IH en1 eq_refl) as [E1 E2]. split; [cbn; by rewrite E1|by constructor]. }
    destruct Hlen as [Hlen Hall]. split; [by rewrite Hlen|done|by rewrite Hkeys].
  - destruct (ENV_MAX <=? length en)%nat eqn:Em; boolify; [by split|]. split.
    + rewrite length_app. simpl. lia.
    + apply Forall_app. split; [done|]. constructor; [apply env_entry_length|done].
    + unfold env_keys in *. rewrite omap_app. cbn [omap list_omap]. rewrite cut_entry by done. cbn.
      apply NoDup_app. split; [done|]. split; [|apply NoDup_singleton].
      intros k Hin ->%list_elem_of_singleton. apply env_keys_abs in Hin as [v Hv].
      by rewrite (env_update_None _ _ _ Hk E) in Hv.
Qed.

(** the environment is a map from names to values.  A name is a string
    without '=' that leaves room for one in its slot.  Looking up finds what the
    map has; setting replaces or adds the value (cut to the 255 bytes of a slot)
    unless the name is new and all 64 slots are taken, in which case nothing
    changes; unsetting removes the name and reports whether it was there.  The
    table stays well formed. *)
Theorem env_refines_map key value en :
  env_ok en -> EQUALS ∉ key -> (length key < 255)%nat ->
  env_get key en = env_abs en !! key /\
  env_ok (env_set key value en) /\
  env_abs (env_set key value en) =
    (if bool_decide (env_abs en !! key = None) && (ENV_MAX <=? length en)%nat then env_abs en
     else <[key := take (254 - length key) value]> (env_abs en)) /\
  match env_unset key en with
  | Some en' => is_Some (env_abs en !! key) /\ env_ok en' /\ env_abs en' = delete key (env_abs en)
  | None => env_abs en !! key = None
  end.
Proof.
  intros Hok Hk Hl. split; [by apply env_get_abs|]. split; [by apply env_set_ok|]. split.
  - unfold env_set. destruct (env_update key value en) as [en'|] eqn:E.
    + destruct (env_update_abs _ _ _ _ Hk Hl E) as [-> _]. rewrite bool_decide_false; [done|].
      rewrite <- env_get_abs by done. clear Hok. revert en' E. induction en as [|e en IH]; intros en' E; [done|].
      cbn [env_update env_get] in *. destruct (env_match key e); [done|].
      destruct (env_update key value en) as [en1|]; [|done]. by eapply IH.
    + pose proof (env_update_None _ _ _ Hk E) as Hn. rewrite bool_decide_true by done. cbn [andb].
      destruct (ENV_MAX <=? length en)%nat; [done|]. apply env_abs_snoc; [by apply cut_entry|done].
  - destruct (env_unset key en) as [en'|] eqn:E; [|by apply env_unset_None].
    destruct Hok as [H1 H2 H3]. destruct (env_unset_abs _ _ _ Hk H3 E) as (Hs & Ha & Hsub).
    split; [done|]. split; [|done].
    assert (Hl' : (length en' <= length en)%nat /\ Forall (λ e, (length e < 256)%nat) en').
    { clear -E H2. revert en' E. induction H2 as [|e en He Hen IH]; intros en' E; cbn [env_unset] in E; [done|].
      destruct (env_match key e); [injection E as <-; cbn; split; [lia|done]|].
      destruct (env_unset key en) as [en1|]; [|done]. injection E as <-.
      destruct (IH en1 eq_refl) as [E1 E2]. split; [cbn; lia|by constructor]. }
    split; [lia|apply Hl'|by eapply sublist_NoDup].
Qed.

End Properties.

Lemma env_refines_map_witness :
  env_get (B "HOME") (env_set (B "HOME") (B "/root") [B "PATH=/bin"; B "HOME=/"]) = Some (B "/root").
Proof.
  assert (Hok : env_ok [B "PATH=/bin"; B "HOME=/"]).
  { split; [vm_compute; lia|repeat constructor; vm_compute; lia|]. vm_compute.
    repeat constructor; [|intros H; by apply elem_of_nil in H]. intros H. apply list_elem_of_singleton in H. discriminate H. }
  assert (Hk : EQUALS ∉ B "HOME") by (apply has_char_false; reflexivity).
  destruct (env_refines_map (B "HOME") (B "/root") _ Hok Hk ltac:(vm_compute; lia)) as (_ & Hok' & Habs & _).
  destruct (env_refines_map (B "HOME") (B "/root") _ Hok' Hk ltac:(vm_compute; lia)) as (-> & _).
  rewrite Habs. vm_compute. reflexivity.
Defined.
