(* ===== verification/StshLexer.v ===== *)
(** The tokenizer of stsh (src/user/bin/stsh/lexer.c).

    A program text becomes a list of tokens; words keep their quotes and
    dollar constructs.  The token array and the arena for the words have fixed
    sizes; a program that does not fit is refused.  The arena is only ever
    appended to, so a word is represented by its text. *)

From S2P Require Import Prelude CString.
Local Open Scope Z_scope.

(** * Definitions *)

Inductive toktype_t :=
  | T_WORD | T_PIPE | T_AND | T_OR | T_SEMI | T_AMP
  | T_LT | T_GT | T_GTGT | T_DGT | T_DGTAMP | T_GTAMP | T_DLESS
  | T_LPAREN | T_RPAREN | T_NEWLINE | T_EOF.

#[global] Instance toktype_eq_dec : EqDecision toktype_t.
Proof. solve_decision. Defined.

Record tok_t := Tok { t_type : toktype_t; t_text : option bytes }.

Definition op_tok (t : toktype_t) : tok_t := Tok t None.
Definition word_tok (w : bytes) : tok_t := Tok T_WORD (Some w).

Definition SQ : byte := 39.
Definition DQ : byte := 34.
Definition BQ : byte := 96.
Definition BSL : byte := 92.
Definition DOLLAR : byte := 36.
Definition LPAR : byte := 40.
Definition RPAR : byte := 41.
Definition LT : byte := 60.
Definition GT : byte := 62.
Definition AMP : byte := 38.
Definition BAR : byte := 124.
Definition SEMI : byte := 59.

(** Characters that end an unquoted word. *)
Definition is_meta (c : byte) : bool :=
  (c =? SP) || (c =? TAB) || (c =? LF) || (c =? BAR) || (c =? AMP) || (c =? SEMI) || (c =? LT) || (c =? GT) ||
  (c =? LPAR) || (c =? RPAR).

(** Where [lex_word] is: outside quotes, in a quotation, or in $( ... ) with
    [S depth] open parentheses. *)
Inductive lmode := LPlain | LSingle | LDouble | LBack | LSubst (depth : nat).

Definition put (c : byte) (wr : bytes * bytes) : bytes * bytes := (c :: wr.1, wr.2).

(** The raw word at the front of [s] and what follows it. *)
Fixpoint lex_word (m : lmode) (s : bytes) : bytes * bytes :=
  match s with
  | [] => ([], [])
  | c :: r =>
      match m with
      | LPlain =>
          if is_meta c then ([], s)
          else if c =? SQ then put c (lex_word LSingle r)
          else if c =? DQ then put c (lex_word LDouble r)
          else if c =? BQ then put c (lex_word LBack r)
          else match r with
               | d :: r' =>
                   if (c =? DOLLAR) && (d =? LPAR) then put c (put d (lex_word (LSubst 0) r'))
                   else if c =? BSL then put c (put d (lex_word LPlain r'))
                   else put c (lex_word LPlain r)
               | [] => ([c], [])
               end
      | LSingle => put c (lex_word (if c =? SQ then LPlain else LSingle) r)
      | LDouble =>
          if c =? DQ then put c (lex_word LPlain r)
          else match r with
               | d :: r' => if c =? BSL then put c (put d (lex_word LDouble r')) else put c (lex_word LDouble r)
               | [] => ([c], [])
               end
      | LBack => put c (lex_word (if c =? BQ then LPlain else LBack) r)
      | LSubst depth =>
          if c =? LPAR then put c (lex_word (LSubst (S depth)) r)
          else if c =? RPAR then
            put c (lex_word (match depth with O => LPlain | S d => LSubst d end) r)
          else put c (lex_word (LSubst depth) r)
      end
  end.

Definition is_tabspace (c : byte) : bool := (c =? SP) || (c =? TAB).

(** ** Here documents *)

(** The delimiter after << and the rest of the text from the next line on. *)
Definition heredoc_delim (s : bytes) : bool * bytes * bytes :=
  let '(strip, s) := match s with c :: r => if c =? 45 then (true, r) else (false, s) | [] => (false, s) end in
  let s := drop_while is_tabspace s in
  let '(stop, s) := match s with
                    | c :: r => if (c =? SQ) || (c =? DQ) then (is_c c, r)
                                else ((λ x, is_tabspace x || (x =? LF)), s)
                    | [] => (is_c LF, s)
                    end in
  let delim := take 63 (take_while (λ x, negb (stop x)) s) in
  (strip, delim, tail (drop_while (not_c LF) (drop (length delim) s))).

(** The body up to the line that is the delimiter, and what follows that line. *)
Fixpoint heredoc_body (fuel : nat) (strip : bool) (delim s : bytes) : bytes * bytes :=
  match fuel, s with
  | S fuel, _ :: _ =>
      let ls := if strip then drop_while (is_c TAB) s else s in
      let line := take_while (not_c LF) ls in
      let rest := tail (drop_while (not_c LF) ls) in
      if beq line delim then ([], rest)
      else let '(b, r) := heredoc_body fuel strip delim rest in (line ++ LF :: b, r)
  | _, _ => ([], s)
  end.

(** ** The token loop *)

(** [LexWild]: the arena is full and the text of the last here document is not
    terminated.  [LexFull] is the result -1. *)
Inductive lex_result := LexOk (ts : list tok_t) | LexWild | LexFull.

Section Tokenize.

Context (maxtoks arenalen : nat).

(** What one round of the loop emits: the tokens, the arena bytes in use and the
    rest of the text. *)
Inductive lex_step :=
  | SSkip (rest : bytes)
  | SOp (t : toktype_t) (rest : bytes)
  | SHere (body rest : bytes)
  | SWord (w rest : bytes).

(** The round at a text that does not start with a blank. *)
Definition lex_round (c : byte) (r : bytes) : lex_step :=
  let next x := match r with d :: _ => d =? x | [] => false end in
  if c =? HASH then SSkip (drop_while (not_c LF) r)
  else if c =? LF then SOp T_NEWLINE r
  else if c =? BAR then if next BAR then SOp T_OR (tail r) else SOp T_PIPE r
  else if c =? AMP then if next AMP then SOp T_AND (tail r) else SOp T_AMP r
  else if c =? SEMI then SOp T_SEMI r
  else if c =? LPAR then SOp T_LPAREN r
  else if c =? RPAR then SOp T_RPAREN r
  else if c =? LT then
    if next LT then
      let '(strip, delim, text) := heredoc_delim (tail r) in
      let '(body, rest) := heredoc_body (length text) strip delim text in
      SHere body rest
    else SOp T_LT r
  else if c =? GT then
    if next GT then SOp T_GTGT (tail r) else if next AMP then SOp T_GTAMP (tail r) else SOp T_GT r
  else if (c =? 50) && next GT then
    match r with
    | _ :: a :: d :: r' => if (a =? AMP) && (d =? 49) then SOp T_DGTAMP r' else SOp T_DGT (tail r)
    | _ => SOp T_DGT (tail r)
    end
  else let '(w, rest) := lex_word LPlain (c :: r) in SWord w rest.

(** [ts] are the tokens so far, [used] bytes of the arena are taken, and [wild]
    says that a here document was not terminated. *)
Fixpoint tokenize_loop (fuel : nat) (s : bytes) (ts : list tok_t) (used : nat) (wild : bool) : lex_result :=
  match drop_while is_tabspace s with
  | [] => if wild then LexWild else LexOk ts
  | c :: r =>
      match fuel with
      | O => LexFull
      | S fuel =>
          match lex_round c r with
          | SSkip rest => tokenize_loop fuel rest ts used wild
          | SOp t rest =>
              if (maxtoks - 1 <=? length ts)%nat then LexFull
              else tokenize_loop fuel rest (ts ++ [op_tok t]) used wild
          | SHere body rest =>
              if (maxtoks - 1 <=? length ts)%nat then LexFull
              else
                let fits := (used + length body <? arenalen - 1)%nat in
                let used := if fits then (used + length body + 1)%nat else (arenalen - 1)%nat in
                if (maxtoks - 2 <=? length ts + 1)%nat then LexFull
                else tokenize_loop fuel rest (ts ++ [op_tok T_DLESS; word_tok body; op_tok T_NEWLINE]) used
                       (wild || negb fits)
          | SWord w rest =>
              if (maxtoks - 1 <=? length ts)%nat then LexFull
              else
                let used := Nat.min (arenalen - 1) (used + length w + 1) in
                if (arenalen - 1 <=? used)%nat then LexFull
                else tokenize_loop fuel rest (ts ++ [word_tok w]) used wild
          end
      end
  end.

Definition tokenize (text : bytes) : lex_result := tokenize_loop (length text) text [] 0 false.

End Tokenize.

(** The bytes of the arena a token takes. *)
Definition tok_size (t : tok_t) : nat := match t_text t with Some w => S (length w) | None => 0 end.
Definition arena_size (ts : list tok_t) : nat := sum_list (tok_size <$> ts).

(** The text of an operator token. *)
Definition op_text (t : toktype_t) : option bytes :=
  match t with
  | T_PIPE => Some (B "|") | T_AND => Some (B "&&") | T_OR => Some (B "||") | T_SEMI => Some (B ";")
  | T_AMP => Some (B "&") | T_LT => Some (B "<") | T_GT => Some (B ">") | T_GTGT => Some (B ">>")
  | T_DGT => Some (B "2>") | T_DGTAMP => Some (B "2>&1") | T_GTAMP => Some (B ">&")
  | T_LPAREN => Some (B "(") | T_RPAREN => Some (B ")") | T_NEWLINE => Some [LF]
  | T_WORD | T_DLESS | T_EOF => None
  end.

(** A word that is one token: quotes and substitutions are closed, and it starts
    neither a comment nor "2>". *)
Definition raw_word (w : bytes) : bool :=
  match w with
  | [] => false
  | c :: _ => negb (c =? HASH) && negb (starts_with (B "2>") w) && bool_decide (lex_word LPlain (w ++ [SP]) = (w, [SP]))
  end.

(** Printing a token, a blank after each. *)
Definition print_tok (t : tok_t) : option bytes :=
  match t with
  | Tok T_WORD (Some w) => if raw_word w then Some (w ++ [SP]) else None
  | Tok t None => (λ x, x ++ [SP]) <$> op_text t
  | _ => None
  end.

Fixpoint print_toks (ts : list tok_t) : option bytes :=
  match ts with
  | [] => Some []
  | t :: ts => match print_tok t, print_toks ts with Some a, Some b => Some (a ++ b) | _, _ => None end
  end.

(** * Properties *)

Section Properties.

(** One character of [lex_word]. *)
Lemma lex_word_cons m c r :
  lex_word m (c :: r) =
    match m with
    | LPlain =>
        if is_meta c then ([], c :: r)
        else if c =? SQ then put c (lex_word LSingle r)
        else if c =? DQ then put c (lex_word LDouble r)
        else if c =? BQ then put c (lex_word LBack r)
        else match r with
             | d :: r' =>
                 if (c =? DOLLAR) && (d =? LPAR) then put c (put d (lex_word (LSubst 0) r'))
                 else if c =? BSL then put c (put d (lex_word LPlain r'))
                 else put c (lex_word LPlain r)
             | [] => ([c], [])
             end
    | LSingle => put c (lex_word (if c =? SQ then LPlain else LSingle) r)
    | LDouble =>
        if c =? DQ then put c (lex_word LPlain r)
        else match r with
             | d :: r' => if c =? BSL then put c (put d (lex_word LDouble r')) else put c (lex_word LDouble r)
             | [] => ([c], [])
             end
    | LBack => put c (lex_word (if c =? BQ then LPlain else LBack) r)
    | LSubst depth =>
        if c =? LPAR then put c (lex_word (LSubst (S depth)) r)
        else if c =? RPAR then put c (lex_word (match depth with O => LPlain | S d => LSubst d end) r)
        else put c (lex_word (LSubst depth) r)
    end.
Proof. reflexivity. Qed.

(** Induction over the rounds of [lex_word], which takes one or two characters. *)
Lemma lex_ind (P : lmode -> bytes -> Prop) :
  (forall m, P m []) ->
  (forall m c r, (forall m', P m' r) -> (forall m' d r', r = d :: r' -> P m' r') -> P m (c :: r)) ->
  forall m s, P m s.
Proof.
  intros H0 HS. assert (H : forall s, (forall m, P m s) /\ (forall m c, P m (c :: s))).
  { induction s as [|d s [IH1 IH2]].
    - split; [done|]. intros m c. apply HS; [done|]. intros ? ? ? [=].
    - split; [done|]. intros m c. apply HS; [done|]. intros m' d' r' [= <- <-]. done. }
  intros m s. apply H.
Qed.

Lemma lex_word_app m s : (lex_word m s).1 ++ (lex_word m s).2 = s.
Proof.
  revert m s. refine (lex_ind _ _ _); [by intros []|]. intros m c r H1 H2. rewrite lex_word_cons.
  assert (Hp : forall m', (put c (lex_word m' r)).1 ++ (put c (lex_word m' r)).2 = c :: r).
  { intros m'. unfold put. cbn. by rewrite H1. }
  assert (Hpp : forall m' d r', r = d :: r' -> (put c (put d (lex_word m' r'))).1 ++ (put c (put d (lex_word m' r'))).2 = c :: r).
  { intros m' d r' E. unfold put. cbn. rewrite (H2 m' d r' E). by rewrite E. }
  destruct m; repeat case_if; try apply Hp; try done; destruct r; try done; repeat case_if; try (by apply Hp); by apply Hpp.
Qed.

Lemma lex_word_shrinks c r : is_meta c = false -> (length (lex_word LPlain (c :: r)).2 <= length r)%nat.
Proof.
  intros Hm. pose proof (lex_word_app LPlain (c :: r)) as H. apply (f_equal length) in H.
  rewrite length_app in H. cbn [length] in H.
  assert (Hne : (lex_word LPlain (c :: r)).1 ≠ []).
  { rewrite lex_word_cons, Hm. repeat case_if; try done; (destruct r; [done|]; by repeat case_if). }
  destruct (lex_word LPlain (c :: r)).1; [done|]. cbn [length] in H. lia.
Qed.

Lemma heredoc_body_shrinks fuel strip delim s : (length (heredoc_body fuel strip delim s).2 <= length s)%nat.
Proof.
  revert s. induction fuel as [|fuel IH]; intros s; [done|]. destruct s as [|c s]; [done|]. cbn [heredoc_body].
  set (ls := if strip then _ else _).
  assert (Hls : (length ls <= length (c :: s))%nat) by (unfold ls; case_if; [apply drop_while_length|done]).
  assert (Hr : (length (tail (drop_while (not_c LF) ls)) <= length ls)%nat).
  { pose proof (drop_while_length (not_c LF) ls). destruct (drop_while (not_c LF) ls); simpl in *; lia. }
  case_if; [simpl in *; lia|]. specialize (IH (tail (drop_while (not_c LF) ls))).
  destruct (heredoc_body _ _ _ _) as [b r']. cbn [snd] in *. lia.
Qed.

Lemma heredoc_delim_shrinks s : (length (heredoc_delim s).2 <= length s)%nat.
Proof.
  unfold heredoc_delim. set (p := match s with [] => _ | _ => _ end).
  assert (H1 : (length p.2 <= length s)%nat) by (unfold p; destruct s; [done|]; case_if; simpl; lia).
  destruct p as [strip s1]. cbn [snd] in H1. pose proof (drop_while_length is_tabspace s1) as H2.
  set (q := match drop_while is_tabspace s1 with [] => _ | _ => _ end).
  assert (H3 : (length q.2 <= length (drop_while is_tabspace s1))%nat)
    by (unfold q; destruct (drop_while is_tabspace s1); [done|]; case_if; simpl; lia).
  destruct q as [stop s2]. cbn [snd] in *. set (delim := take 63 _).
  pose proof (drop_while_length (not_c LF) (drop (length delim) s2)) as H4. rewrite length_drop in H4.
  destruct (drop_while (not_c LF) (drop (length delim) s2)); simpl in *; lia.
Qed.

Definition step_rest (st : lex_step) : bytes :=
  match st with SSkip r | SOp _ r | SHere _ r | SWord _ r => r end.

Lemma tail_length (s : bytes) : (length (tail s) <= length s)%nat.
Proof. destruct s; simpl; lia. Qed.

Lemma lex_round_shrinks c r : is_tabspace c = false -> (length (step_rest (lex_round c r)) <= length r)%nat.
Proof.
  intros Hb. unfold lex_round. pose proof (tail_length r) as Ht.
  repeat match goal with |- context [if ?b then _ else _] => destruct b eqn:? end; cbn [step_rest]; try lia.
  - apply drop_while_length.
  - pose proof (heredoc_delim_shrinks (tail r)) as H1. destruct (heredoc_delim (tail r)) as [[strip delim] text].
    pose proof (heredoc_body_shrinks (length text) strip delim text) as H2.
    destruct (heredoc_body (length text) strip delim text) as [body rest]. cbn [snd step_rest] in *. lia.
  - destruct r as [|? [|? [|? ?]]]; try case_if; cbn [step_rest tail length]; lia.
  - assert (Hm : is_meta c = false).
    { unfold is_meta, is_tabspace in *. boolify. rewrite !orb_false_iff. repeat split; lia. }
    pose proof (lex_word_shrinks c r Hm) as H1. destruct (lex_word LPlain (c :: r)) as [w rest]. exact H1.
Qed.

Lemma drop_while_round p (s : bytes) c r : drop_while p s = c :: r -> p c = false /\ (length r < length s)%nat.
Proof.
  intros H. split; [by eapply drop_while_head|]. pose proof (drop_while_length p s) as Hl. rewrite H in Hl. simpl in Hl. lia.
Qed.

Section Limits.

Context (maxtoks arenalen : nat).

Lemma tokenize_loop_fuel f1 f2 s ts used wild :
  (length s <= f1)%nat -> (length s <= f2)%nat ->
  tokenize_loop maxtoks arenalen f1 s ts used wild = tokenize_loop maxtoks arenalen f2 s ts used wild.
Proof.
  revert f2 s ts used wild. induction f1 as [|f1 IH]; intros f2 s ts used wild H1 H2.
  { destruct s; [|simpl in H1; lia]. by destruct f2. }
  destruct f2 as [|f2]; [destruct s; [done|simpl in H2; lia]|]. cbn [tokenize_loop].
  destruct (drop_while is_tabspace s) as [|c r] eqn:E; [done|]. apply drop_while_round in E as [Hb Hl].
  pose proof (lex_round_shrinks c r Hb) as Hs. destruct (lex_round c r); cbn [step_rest] in Hs; repeat case_if; try done; apply IH; lia.
Qed.

(** the tokenizer always comes to an end: a text has at most as many rounds as
    characters, and more do not change the result. *)
Theorem tokenize_terminates text fuel :
  (length text <= fuel)%nat -> tokenize maxtoks arenalen text = tokenize_loop maxtoks arenalen fuel text [] 0 false.
Proof. intros H. by apply tokenize_loop_fuel. Qed.

Lemma arena_size_app a b : arena_size (a ++ b) = (arena_size a + arena_size b)%nat.
Proof. unfold arena_size. by rewrite fmap_app, sum_list_with_app || (induction a; simpl; lia). Qed.

Lemma tokenize_loop_wild fuel s ts used ts' : tokenize_loop maxtoks arenalen fuel s ts used true ≠ LexOk ts'.
Proof.
  revert s ts used. induction fuel as [|fuel IH]; intros s ts used; cbn [tokenize_loop];
    destruct (drop_while is_tabspace s) as [|c r]; try done.
  destruct (lex_round c r); repeat case_if; try done; apply IH.
Qed.

Lemma tokenize_loop_bounds fuel s ts used ts' :
  (length ts <= maxtoks - 1)%nat -> (arena_size ts <= used)%nat -> (used <= arenalen - 1)%nat ->
  tokenize_loop maxtoks arenalen fuel s ts used false = LexOk ts' ->
  (length ts' <= maxtoks - 1)%nat /\ (arena_size ts' <= arenalen - 1)%nat.
Proof.
  revert s ts used. induction fuel as [|fuel IH]; intros s ts used H1 H2 H3; cbn [tokenize_loop];
    (destruct (drop_while is_tabspace s) as [|c r]; [intros [= <-]; lia|]); [done|].
  destruct (lex_round c r) as [r'|t r'|body r'|w r'].
  - by apply IH.
  - case_if; [done|]. boolify. apply IH; rewrite ?length_app, ?arena_size_app; unfold arena_size in *; cbn; lia.
  - do 2 (case_if; [done|]). boolify. destruct (used + length body <? arenalen - 1)%nat eqn:E; cbn [negb orb].
    + boolify. apply IH; rewrite ?length_app, ?arena_size_app; cbn [length arena_size fmap list_fmap sum_list sum_list_with tok_size t_text op_tok word_tok] in *; unfold arena_size in *; cbn; lia.
    + intros H. by apply tokenize_loop_wild in H.
  - do 2 (case_if; [done|]). boolify.
    apply IH; rewrite ?length_app, ?arena_size_app; cbn [length arena_size fmap list_fmap sum_list sum_list_with tok_size t_text op_tok word_tok] in *; unfold arena_size in *; cbn; lia.
Qed.

(** the tokenizer stays inside its buffers.  When it succeeds, the tokens and
    the end marker fit in the token array, and the words with their terminators
    fit in the arena. *)
Theorem tokenize_in_bounds text ts :
  (2 <= maxtoks)%nat -> tokenize maxtoks arenalen text = LexOk ts ->
  (length ts + 1 <= maxtoks)%nat /\ (arena_size ts <= arenalen - 1)%nat.
Proof.
  intros Hm H. apply tokenize_loop_bounds in H; [|simpl; lia|done|lia]. lia.
Qed.

(** ** Round trip *)

Lemma lex_word_extend m s w r : lex_word m (s ++ [SP]) = (w, [SP]) -> lex_word m (s ++ SP :: r) = (w, SP :: r).
Proof.
  revert m s w. refine (lex_ind _ _ _).
  - intros m w H. cbn [app] in *. rewrite lex_word_cons in *.
    destruct m; try (by cbn in H). by injection H as <-.
  - intros m c s H1 H2 w H. cbn [app] in *. rewrite lex_word_cons in *.
    assert (Hp : forall m', put c (lex_word m' (s ++ [SP])) = (w, [SP]) -> put c (lex_word m' (s ++ SP :: r)) = (w, SP :: r)).
    { intros m' E. destruct (lex_word m' (s ++ [SP])) as [w1 r1] eqn:E1. injection E as <- ->.
      by rewrite (H1 m' w1 E1). }
    assert (Hpp : forall m' d s', s = d :: s' -> put c (put d (lex_word m' (s' ++ [SP]))) = (w, [SP]) ->
              put c (put d (lex_word m' (s' ++ SP :: r))) = (w, SP :: r)).
    { intros m' d s' Es E. destruct (lex_word m' (s' ++ [SP])) as [w1 r1] eqn:E1. injection E as <- ->.
      by rewrite (H2 m' d s' Es w1 E1). }
    destruct m; repeat case_if; try (by apply Hp); try (by injection H as <- E; destruct s);
      (destruct s as [|d s]; cbn [app] in *; repeat case_if; try (by apply Hp); try (by eapply Hpp); done).
Qed.

Lemma raw_word_spec w r :
  raw_word w = true -> exists c w', w = c :: w' /\ is_tabspace c = false /\ lex_round c (w' ++ SP :: r) = SWord w (SP :: r).
Proof.
  destruct w as [|c w]; [done|]. cbn [raw_word]. rewrite !andb_true_iff, !negb_true_iff, bool_decide_eq_true.
  intros [[Hh H0] H1]. exists c, w. split; [done|].
  assert (Hm : is_meta c = false).
  { destruct (is_meta c) eqn:E; [|done]. cbn [app] in H1. rewrite lex_word_cons, E in H1. done. }
  apply (lex_word_extend _ _ _ r) in H1. cbn [app] in H1.
  unfold is_meta in Hm. boolify. split; [unfold is_tabspace; by rewrite orb_false_iff, !Z.eqb_neq|].
  unfold lex_round. rewrite H1.
  repeat match goal with H : c ≠ ?x |- context [c =? ?x] => rewrite (proj2 (Z.eqb_neq c x) H) end.
  destruct (c =? 50) eqn:E2; [|done]. boolify. subst c. destruct w as [|d w]; cbn [app andb]; [done|].
  destruct (d =? GT) eqn:Ed; [|done]. boolify. subst d. done.
Qed.

Lemma op_text_spec t x r :
  op_text t = Some x -> exists c x', x = c :: x' /\ is_tabspace c = false /\ lex_round c (x' ++ SP :: r) = SOp t (SP :: r).
Proof. destruct t; intros [= <-]; (do 2 eexists; split; [reflexivity|]; split; [reflexivity|first [reflexivity | destruct r; reflexivity]]). Qed.

Lemma tokenize_loop_print fuel ts s ts0 used :
  print_toks ts = Some s -> (length s <= fuel)%nat ->
  (length ts0 + length ts <= maxtoks - 1)%nat -> (used + arena_size ts < arenalen - 1)%nat ->
  tokenize_loop maxtoks arenalen fuel s ts0 used false = LexOk (ts0 ++ ts).
Proof.
  revert s ts0 used fuel. induction ts as [|t ts IH]; intros s ts0 used fuel Hp Hf Ht Hu; cbn [print_toks] in Hp.
  { injection Hp as <-. rewrite app_nil_r. by destruct fuel. }
  destruct (print_tok t) as [a|] eqn:Et; [|done]. destruct (print_toks ts) as [b|]; [|done]. injection Hp as <-.
  assert (Hsp : drop_while is_tabspace (SP :: b) = drop_while is_tabspace b).
  { unfold drop_while. cbn [span]. change (is_tabspace SP) with true. by destruct (span is_tabspace b). }
  assert (Hblank : forall fuel used ts0, tokenize_loop maxtoks arenalen fuel (SP :: b) ts0 used false =
                              tokenize_loop maxtoks arenalen fuel b ts0 used false)
    by (intros [] ? ?; cbn [tokenize_loop]; by rewrite Hsp).
  assert (Hsz : arena_size (t :: ts) = (tok_size t + arena_size ts)%nat) by done.
  rewrite length_app in Hf. cbn [length] in Ht. replace (ts0 ++ t :: ts) with ((ts0 ++ [t]) ++ ts) by (by rewrite <- app_assoc).
  assert (Hround : forall c x', a = (c :: x') ++ [SP] -> is_tabspace c = false ->
    forall st, lex_round c (x' ++ SP :: b) = st -> step_rest st = SP :: b ->
      (match st with SOp ty _ => t = op_tok ty | SWord w _ => t = word_tok w | _ => False end) ->
    tokenize_loop maxtoks arenalen fuel (a ++ b) ts0 used false = LexOk ((ts0 ++ [t]) ++ ts)).
  { intros c x' -> Hb st Hst Hrest Hty. rewrite <- app_assoc. cbn [app].
    destruct fuel as [|fuel]; [simpl in Hf; lia|]. cbn [tokenize_loop].
    assert (Hd : drop_while is_tabspace (c :: x' ++ SP :: b) = c :: x' ++ SP :: b).
    { unfold drop_while. cbn [span]. by rewrite Hb. }
    rewrite Hd, Hst. cbn [length app] in Hf. rewrite length_app in Hf. cbn [length] in Hf.
    destruct st as [|ty r|body r|w r]; cbn [step_rest] in Hrest; try done; subst.
    - rewrite (proj2 (Nat.leb_gt _ _)) by lia. rewrite Hblank. apply IH; [done|lia|rewrite length_app; simpl; lia|].
      rewrite Hsz in Hu. simpl in Hu. lia.
    - rewrite (proj2 (Nat.leb_gt _ _)) by lia. rewrite Hsz in Hu. cbn in Hu.
      rewrite Nat.min_r by lia. rewrite (proj2 (Nat.leb_gt _ _)) by lia. rewrite Hblank.
      apply IH; [done|lia|rewrite length_app; simpl; lia|lia]. }
  destruct t as [ty [w|]]; cbn [print_tok] in Et.
  - destruct ty; try done. destruct (raw_word w) eqn:Ew; [|done]. injection Et as <-.
    destruct (raw_word_spec w b Ew) as (c & w' & -> & Hb & Hr). by eapply Hround.
  - destruct (op_text ty) as [x|] eqn:Eo; [|by destruct ty].
    assert (Ea : a = x ++ [SP]) by (destruct ty; simpl in Et; try done; by injection Et as <-).
    destruct (op_text_spec ty x b Eo) as (c & x' & -> & Hb & Hr). by eapply Hround.
Qed.


End Limits.

End Properties.

(** * Witnesses *)

Definition sample_toks : list tok_t :=
  [word_tok (B "echo"); word_tok ([DQ] ++ B "a $(id -u) b" ++ [DQ]); op_tok T_PIPE; word_tok (B "wc"); op_tok T_DGTAMP;
   op_tok T_AND; word_tok (B "x=$((1+2))"); op_tok T_NEWLINE].

Definition sample_text : bytes := default [] (print_toks sample_toks).


Lemma tokenize_in_bounds_witness :
  tokenize 256 32768 sample_text = LexOk sample_toks /\ (length sample_toks + 1 <= 256)%nat.
Proof.
  assert (E : tokenize 256 32768 sample_text = LexOk sample_toks) by (vm_compute; reflexivity).
  split; [exact E|]. apply (tokenize_in_bounds 256 32768 sample_text sample_toks); [lia|exact E].
Defined.

Lemma tokenize_terminates_witness :
  tokenize 256 32768 (B "echo hi") = tokenize_loop 256 32768 100 (B "echo hi") [] 0 false.
Proof. apply (tokenize_terminates 256 32768 (B "echo hi") 100). cbn. lia. Defined.
