(* ===== verification/StshArith.v ===== *)
(** The arithmetic of $(( )) in stsh (src/user/bin/stsh/run.c, from [struct ap] to
    [arith_eval]): a recursive-descent evaluator of C-like integer expressions
    with assignments to the environment.

    A [long] is a [Z]; an operation whose result does not fit is undefined
    behaviour and makes the evaluation [AUndef].  The evaluator is proved against
    a reference semantics of expression trees, for every tree printed with as few
    parentheses as precedence and associativity allow. *)

From S2P Require Import Prelude CString StshEnv StshLexer.
Local Open Scope Z_scope.

(** * Definitions *)

Inductive ares (A : Type) :=
  | AVal (a : A) (s : bytes) (en : env)
  | AUndef
  | AFuel.
Arguments AVal {A} a s en.
Arguments AUndef {A}.
Arguments AFuel {A}.

(** A parser works on the text that is left and the environment. *)
Definition ap (A : Type) : Type := bytes -> env -> ares A.

Definition aret {A} (a : A) : ap A := λ s en, AVal a s en.
Definition abind {A C} (m : ap A) (f : A -> ap C) : ap C := λ s en,
  match m s en with AVal a s' en' => f a s' en' | AUndef => AUndef | AFuel => AFuel end.

Notation "x ⇐ m ; k" := (abind m (λ x, k)) (at level 20, m at level 100, k at level 200, right associativity) : lorica_scope.

Definition LONG_MIN : Z := - 2 ^ 63.
Definition LONG_MAX : Z := 2 ^ 63 - 1.

(** A [long] result. *)
Definition fits_long (v : Z) : option Z := if (LONG_MIN <=? v) && (v <=? LONG_MAX) then Some v else None.

(** ** strtol(s, &end, 0) *)

Definition digit_value (c : byte) : Z :=
  if is_decimal c then c - 48 else if is_lower c then c - 87 else if is_upper c then c - 55 else 255.

Definition is_digit_of (base : Z) (c : byte) : bool := digit_value c <? base.

Definition digits_value (base : Z) (ds : bytes) : Z := foldl (λ v c, v * base + digit_value c) 0 ds.

(** The digits after the base prefix. *)
Definition number_base (s : bytes) : Z * bytes :=
  match s with
  | z :: r =>
      if z =? 48 then
        match r with
        | x :: d :: _ => if ((x =? 120) || (x =? 88)) && is_digit_of 16 d then (16, tail r) else (8, s)
        | _ => (8, s)
        end
      else (10, s)
  | [] => (10, s)
  end.

Definition strtol0 (s : bytes) : Z * bytes :=
  let t := drop_while is_atoi_space s in
  let '(neg, t) := match t with
                   | c :: r => if c =? 45 then (true, r) else if c =? 43 then (false, r) else (false, t)
                   | [] => (false, t)
                   end in
  let '(base, t) := number_base t in
  match span (is_digit_of base) t with
  | ([], _) => (0, s)
  | (ds, r) =>
      let v := digits_value base ds in
      (if neg : bool then Z.max LONG_MIN (- v) else Z.min LONG_MAX v, r)
  end.

(** The value of a variable. *)
Definition env_long (name : bytes) (en : env) : Z :=
  match env_get name en with Some v => (strtol0 v).1 | None => 0 end.

(** ** The grammar *)

Definition ar_ws : ap unit := λ s en, AVal tt (drop_while is_tabspace s) en.

(** The name at the front of [s], cut to its buffer, and what follows it. *)
Definition ar_name (s : bytes) : bytes * bytes := (take 63 (take_while is_name_char s), drop_while is_name_char s).

Definition ar_prim (expr : ap Z) : ap Z :=
  _ ⇐ ar_ws;
  λ s en,
    match s with
    | [] => AVal 0 s en
    | c :: r =>
        if c =? LPAR then
          (v ⇐ expr; _ ⇐ ar_ws;
           λ s en, AVal v (match s with d :: r => if d =? RPAR then r else s | [] => s end) en) r en
        else if is_decimal c then let '(v, r) := strtol0 s in AVal v r en
        else if is_name_start c then let '(nm, r) := ar_name s in AVal (env_long nm en) r en
        else AVal 0 s en
    end.

Definition lift (o : option Z) : ap Z := λ s en, match o with Some v => AVal v s en | None => AUndef end.

Definition of_bool (b : bool) : Z := if b then 1 else 0.

Fixpoint ar_un (expr : ap Z) (fuel : nat) : ap Z :=
  match fuel with
  | O => λ _ _, AFuel
  | S fuel =>
      _ ⇐ ar_ws;
      λ s en,
        match s with
        | [] => ar_prim expr s en
        | c :: r =>
            if c =? 45 then (v ⇐ ar_un expr fuel; lift (fits_long (- v))) r en
            else if c =? 43 then ar_un expr fuel r en
            else if c =? 33 then (v ⇐ ar_un expr fuel; aret (of_bool (v =? 0))) r en
            else if c =? 126 then (v ⇐ ar_un expr fuel; aret (Z.lnot v)) r en
            else ar_prim expr s en
        end
  end.

(** The operators of one level: the operator at the front of the text, with the
    text after it. *)
Definition optable : Type := bytes -> option ((Z -> Z -> option Z) * bytes).

Definition bool_op (f : Z -> Z -> bool) (v w : Z) : option Z := Some (of_bool (f v w)).

Definition op_div (v d : Z) : option Z := if d =? 0 then Some 0 else fits_long (Z.quot v d).
Definition op_rem (v d : Z) : option Z :=
  if d =? 0 then Some 0 else if (v =? LONG_MIN) && (d =? -1) then None else Some (Z.rem v d).

Definition mul_op : optable := λ s,
  match s with
  | c :: r => if c =? 42 then Some (λ v w, fits_long (v * w), r)
              else if c =? 47 then Some (op_div, r)
              else if c =? 37 then Some (op_rem, r) else None
  | [] => None
  end.

Definition add_op : optable := λ s,
  match s with
  | c :: r => if c =? 43 then Some (λ v w, fits_long (v + w), r)
              else if c =? 45 then Some (λ v w, fits_long (v - w), r) else None
  | [] => None
  end.

Definition cmp_op : optable := λ s,
  match s with
  | c :: r =>
      let eq := match r with d :: _ => d =? EQUALS | [] => false end in
      if (c =? LT) && eq then Some (bool_op Z.leb, tail r)
      else if (c =? GT) && eq then Some (bool_op (λ v w, w <=? v), tail r)
      else if c =? LT then Some (bool_op Z.ltb, r)
      else if c =? GT then Some (bool_op (λ v w, w <? v), r) else None
  | [] => None
  end.

Definition two_chars (a b : byte) (s : bytes) : option bytes :=
  match s with c :: d :: r => if (c =? a) && (d =? b) then Some r else None | _ => None end.

Definition eq_op : optable := λ s,
  match two_chars EQUALS EQUALS s with
  | Some r => Some (bool_op Z.eqb, r)
  | None => match two_chars 33 EQUALS s with
            | Some r => Some (bool_op (λ v w, negb (v =? w)), r)
            | None => None
            end
  end.

Definition and_op : optable := λ s, (λ r, (bool_op (λ v w, negb (v =? 0) && negb (w =? 0)), r)) <$> two_chars AMP AMP s.
Definition or_op : optable := λ s, (λ r, (bool_op (λ v w, negb (v =? 0) || negb (w =? 0)), r)) <$> two_chars BAR BAR s.

(** The loop of a level. *)
Fixpoint level_loop (op : optable) (sub : ap Z) (fuel : nat) (v : Z) : ap Z :=
  match fuel with
  | O => λ _ _, AFuel
  | S fuel =>
      _ ⇐ ar_ws;
      λ s en,
        match op s with
        | None => AVal v s en
        | Some (f, r) => (w ⇐ sub; v' ⇐ lift (f v w); level_loop op sub fuel v') r en
        end
  end.

Definition level (op : optable) (sub : ap Z) : ap Z :=
  v ⇐ sub; λ s en, level_loop op sub (S (length s)) v s en.

Definition ar_mul (expr : ap Z) : ap Z := level mul_op (λ s, ar_un expr (S (length s)) s).
Definition ar_add (expr : ap Z) : ap Z := level add_op (ar_mul expr).
Definition ar_cmp (expr : ap Z) : ap Z := level cmp_op (ar_add expr).
Definition ar_eq (expr : ap Z) : ap Z := level eq_op (ar_cmp expr).
Definition ar_and (expr : ap Z) : ap Z := level and_op (ar_eq expr).
Definition ar_or (expr : ap Z) : ap Z := level or_op (ar_and expr).

(** The operator before '=' in a compound assignment. *)
Definition assign_op (c : byte) : option (Z -> Z -> option Z) :=
  if c =? 43 then Some (λ v w, fits_long (v + w))
  else if c =? 45 then Some (λ v w, fits_long (v - w))
  else if c =? 42 then Some (λ v w, fits_long (v * w))
  else if c =? 47 then Some op_div
  else if c =? 37 then Some op_rem
  else None.

(** The target of an assignment at the front of [s], the operator of a compound
    one, and the text of the right-hand side. *)
Definition assign_target (s : bytes) : option (bytes * option (Z -> Z -> option Z) * bytes) :=
  match s with
  | [] => None
  | c :: _ =>
      if is_name_start c then
        let '(nm, q) := ar_name s in
        match drop_while is_tabspace q with
        | [] => None
        | x :: r =>
            let eq := match r with d :: _ => d =? EQUALS | [] => false end in
            if (x =? EQUALS) && negb eq then Some (nm, None, r)
            else match assign_op x with
                 | Some f => if eq then Some (nm, Some f, tail r) else None
                 | None => None
                 end
        end
      else None
  end.

Definition set_long (nm : bytes) (v : Z) : ap Z := λ s en, AVal v s (env_set nm (print_dec v) en).

Fixpoint ar_assign (fuel : nat) : ap Z :=
  match fuel with
  | O => λ _ _, AFuel
  | S fuel =>
      _ ⇐ ar_ws;
      λ s en,
        match assign_target s with
        | Some (nm, None, r) => (v ⇐ ar_assign fuel; set_long nm v) r en
        | Some (nm, Some f, r) =>
            (rhs ⇐ ar_assign fuel;
             λ s en, (v ⇐ lift (f (env_long nm en) rhs); set_long nm v) s en) r en
        | None => ar_or (ar_assign fuel) s en
        end
  end.

Definition arith_eval (expr : bytes) (en : env) : ares Z := ar_assign (S (length expr)) expr en.

(** ** Reference semantics *)

Inductive unop := Neg | Plus | Not | Compl.
Inductive binop := Mul | Div | Rem | Add | Sub | Le | Ge | Lt | Gt | Eq | Ne | And | Or.

Inductive aexp :=
  | Num (n : Z)
  | Var (x : bytes)
  | Un (o : unop) (e : aexp)
  | Bin (o : binop) (a b : aexp)
  | Assign (x : bytes) (o : option binop) (e : aexp).

Definition un_value (o : unop) (v : Z) : option Z :=
  match o with
  | Neg => fits_long (- v)
  | Plus => Some v
  | Not => Some (of_bool (v =? 0))
  | Compl => Some (Z.lnot v)
  end.

Definition bin_value (o : binop) (v w : Z) : option Z :=
  match o with
  | Mul => fits_long (v * w)
  | Div => op_div v w
  | Rem => op_rem v w
  | Add => fits_long (v + w)
  | Sub => fits_long (v - w)
  | Le => Some (of_bool (v <=? w))
  | Ge => Some (of_bool (w <=? v))
  | Lt => Some (of_bool (v <? w))
  | Gt => Some (of_bool (w <? v))
  | Eq => Some (of_bool (v =? w))
  | Ne => Some (of_bool (negb (v =? w)))
  | And => Some (of_bool (negb (v =? 0) && negb (w =? 0)))
  | Or => Some (of_bool (negb (v =? 0) || negb (w =? 0)))
  end.

(** Evaluation from left to right; [None] is undefined behaviour. *)
Fixpoint eval (e : aexp) (en : env) : option (Z * env) :=
  match e with
  | Num n => Some (n, en)
  | Var x => Some (env_long x en, en)
  | Un o e => '(v, en) ← eval e en; v ← un_value o v; Some (v, en)
  | Bin o a b => '(v, en) ← eval a en; '(w, en) ← eval b en; v ← bin_value o v w; Some (v, en)
  | Assign x o e =>
      '(w, en) ← eval e en;
      v ← match o with None => Some w | Some o => bin_value o (env_long x en) w end;
      Some (v, env_set x (print_dec v) en)
  end.

Definition un_text (o : unop) : bytes :=
  match o with Neg => B "-" | Plus => B "+" | Not => B "!" | Compl => B "~" end.

Definition bin_text (o : binop) : bytes :=
  match o with
  | Mul => B "*" | Div => B "/" | Rem => B "%" | Add => B "+" | Sub => B "-"
  | Le => B "<=" | Ge => B ">=" | Lt => B "<" | Gt => B ">" | Eq => B "==" | Ne => B "!=" | And => B "&&" | Or => B "||"
  end.

(** Precedence: the levels of the grammar, tightest last. *)
Definition bin_prec (o : binop) : nat :=
  match o with
  | Or => 1 | And => 2 | Eq | Ne => 3 | Le | Ge | Lt | Gt => 4 | Add | Sub => 5 | Mul | Div | Rem => 6
  end.

Definition prec (e : aexp) : nat :=
  match e with Num _ | Var _ => 8 | Un _ _ => 7 | Bin o _ _ => bin_prec o | Assign _ _ _ => 0 end.

Definition parens (b : bool) (s : bytes) : bytes := if b then LPAR :: s ++ [RPAR] else s.

(** [e] where an expression of level [l] is expected. *)
Fixpoint pr (l : nat) (e : aexp) : bytes :=
  parens (prec e <? l)%nat
    match e with
    | Num n => print_dec n
    | Var x => x
    | Un o e => un_text o ++ pr 7 e
    | Bin o a b => pr (bin_prec o) a ++ bin_text o ++ pr (S (bin_prec o)) b
    | Assign x o e => x ++ match o with Some o => bin_text o | None => [] end ++ EQUALS :: pr 0 e
    end.

(** Names as the grammar knows them, within the name buffer; numbers that a
    [long] can hold. *)
Definition good_var (x : bytes) : Prop :=
  (exists c r, x = c :: r /\ is_name_start c = true) /\ Forall (λ c, is_name_char c = true) x /\ (length x <= 63)%nat.

Fixpoint good (e : aexp) : Prop :=
  match e with
  | Num n => 0 <= n <= LONG_MAX
  | Var x => good_var x
  | Un _ e => good e
  | Bin _ a b => good a /\ good b
  | Assign x o e => good_var x /\ (match o with Some o => (5 <= bin_prec o)%nat | None => True end) /\ good e
  end.

(** * Properties *)

(** ** Numbers *)

Section Numbers.

Lemma dec_digits_spec fuel n acc :
  0 <= n < 10 ^ Z.of_nat fuel -> (0 < fuel)%nat ->
  exists ds, dec_digits fuel n acc = ds ++ acc /\ Forall (λ c, is_decimal c = true) ds /\
    (forall v, foldl (λ v c, v * 10 + digit_value c) v ds = v * 10 ^ Z.of_nat (length ds) + n) /\
    (exists c r, ds = c :: r /\ (c = 48 -> n = 0 /\ r = [])).
Proof.
  revert n acc. induction fuel as [|fuel IH]; intros n acc Hn Hf; [lia|]. cbn [dec_digits].
  assert (Hd : is_decimal (48 + n mod 10) = true /\ digit_value (48 + n mod 10) = n mod 10).
  { pose proof (Z.mod_pos_bound n 10). assert (is_decimal (48 + n mod 10) = true) as E by (unfold is_decimal; lia).
    split; [done|]. unfold digit_value. rewrite E. lia. }
  destruct Hd as [Hd Hv]. destruct (n <? 10) eqn:E; boolify.
  - exists [48 + n mod 10]. rewrite Z.mod_small in * by lia. split; [done|]. split; [by constructor|]. split.
    + intros v. cbn [foldl length]. rewrite Hv. lia.
    + do 2 eexists. split; [done|]. intros. split; [lia|done].
  - assert (Hf' : (0 < fuel)%nat).
    { destruct fuel; [|lia]. change (10 ^ Z.of_nat 1) with 10 in Hn. lia. }
    assert (Hq : 0 <= n / 10 < 10 ^ Z.of_nat fuel).
    { split; [apply Z.div_pos; lia|]. apply Z.div_lt_upper_bound; [lia|]. rewrite Nat2Z.inj_succ, Z.pow_succ_r in Hn by lia. lia. }
    destruct (IH (n / 10) ((48 + n mod 10) :: acc) Hq Hf') as (ds & -> & H1 & H2 & c & r & -> & H3).
    exists ((c :: r) ++ [48 + n mod 10]). split; [by rewrite <- app_assoc|]. split; [by apply Forall_app; split; [|constructor]|]. split.
    + intros v. rewrite foldl_app, H2. cbn [foldl]. rewrite Hv, length_app. cbn [length].
      rewrite Nat2Z.inj_add, Z.pow_add_r by lia. pose proof (Z_div_mod_eq_full n 10). change (10 ^ Z.of_nat 1) with 10. nia.
    + exists c, (r ++ [48 + n mod 10]). split; [done|]. intros Hc. destruct (H3 Hc) as [H4 _].
      assert (1 <= n / 10) by (apply Z.div_le_lower_bound; lia). lia.
Qed.

(** The text after a number or a name. *)
Definition stop_tok (s : bytes) : Prop :=
  match s with [] => True | c :: _ => is_name_char c = false /\ is_tabspace c = false end.

Lemma stop_tok_ws s : stop_tok s -> drop_while is_tabspace s = s.
Proof. destruct s as [|c s]; [done|]. intros [_ H]. unfold drop_while. cbn [span]. by rewrite H. Qed.

Lemma span_stop_tok p ds rest :
  Forall (λ c, p c = true) ds -> (forall c, is_name_char c = false -> p c = false) -> stop_tok rest ->
  span p (ds ++ rest) = (ds, rest).
Proof.
  intros Hd Hp Hs. rewrite span_true by done. destruct rest as [|c rest]; [by rewrite app_nil_r|].
  destruct Hs as [Hs _]. unfold take_while, drop_while. rewrite span_stop by auto. cbn. by rewrite app_nil_r.
Qed.

Lemma digit_not_name base c : base <= 36 -> is_name_char c = false -> is_digit_of base c = false.
Proof.
  unfold is_name_char, is_name_start, is_digit_of, digit_value. intros Hb H. boolify.
  rewrite H0, H2, H1. lia.
Qed.

Lemma strtol0_unsigned n rest : 0 <= n <= LONG_MAX -> stop_tok rest -> strtol0 (dec_digits 20 n [] ++ rest) = (n, rest).
Proof.
  unfold LONG_MAX. intros Hn Hr.
  destruct (dec_digits_spec 20 n [] ltac:(lia) ltac:(lia)) as (ds & -> & H1 & H2 & c & r & -> & H3).
  rewrite app_nil_r. assert (Hc : 48 <= c <= 57).
  { inversion H1 as [|? ? Hx]; subst. unfold is_decimal in Hx. lia. }
  unfold strtol0. cbn [app].
  assert (Hws : drop_while is_atoi_space (c :: r ++ rest) = c :: r ++ rest).
  { unfold drop_while. cbn [span]. replace (is_atoi_space c) with false; [done|]. unfold is_atoi_space. lia. }
  rewrite Hws, (proj2 (Z.eqb_neq c 45)), (proj2 (Z.eqb_neq c 43)) by lia.
  destruct (decide (c = 48)) as [Ez|Hne].
  - destruct (H3 Ez) as [-> ->]. subst c. cbn [app].
    assert (Hb : number_base (48 :: rest) = (8, 48 :: rest)).
    { unfold number_base. cbn. destruct rest as [|x [|d rest]]; try done. destruct Hr as [Hr _].
      replace ((x =? 120) || (x =? 88)) with false; [done|]. symmetry. apply orb_false_iff.
      split; apply Z.eqb_neq; intros ->; by vm_compute in Hr. }
    rewrite Hb. change (48 :: rest) with ([48] ++ rest).
    rewrite (span_stop_tok _ [48]); [done|by constructor| |done]. intros x. apply digit_not_name. lia.
  - assert (Hb : number_base (c :: r ++ rest) = (10, (c :: r) ++ rest)).
    { unfold number_base. by rewrite (proj2 (Z.eqb_neq c 48)) by done. }
    rewrite Hb, (span_stop_tok _ (c :: r)); [| |intros x; apply digit_not_name; lia|done].
    + unfold digits_value. rewrite H2. f_equal. unfold LONG_MAX. lia.
    + eapply Forall_impl; [exact H1|]. cbn beta. intros x Hx. unfold is_digit_of, digit_value. rewrite Hx. unfold is_decimal in Hx. lia.
Qed.

(** A number that is stored in a variable is read back. *)
Lemma strtol0_print v : LONG_MIN <= v <= LONG_MAX -> (strtol0 (print_dec v)).1 = v.
Proof.
  intros Hv. unfold print_dec. destruct (v <? 0) eqn:E; boolify.
  - unfold LONG_MIN, LONG_MAX in *.
    destruct (dec_digits_spec 20 (- v) [] ltac:(lia) ltac:(lia)) as (ds & Ed & H1 & H2 & c & r & -> & H3).
    rewrite Ed, app_nil_r.
    assert (Es : strtol0 (45 :: c :: r) =
      let '(base, t) := number_base (c :: r) in
      match span (is_digit_of base) t with
      | ([], _) => (0, 45 :: c :: r)
      | (ds, t) => (Z.max LONG_MIN (- digits_value base ds), t)
      end) by reflexivity.
    rewrite Es.
    assert (Hb : number_base (c :: r) = (10, c :: r)).
    { unfold number_base. destruct (decide (c = 48)) as [->|Hne]; [destruct (H3 eq_refl); lia|].
      by rewrite (proj2 (Z.eqb_neq c 48)) by done. }
    assert (Hsp : span (is_digit_of 10) ((c :: r) ++ []) = (c :: r, [])).
    { apply span_stop_tok; [|intros x; apply digit_not_name; lia|done].
      eapply Forall_impl; [exact H1|]. cbn beta. intros x Hx. unfold is_digit_of, digit_value. rewrite Hx. unfold is_decimal in Hx. lia. }
    rewrite app_nil_r in Hsp. rewrite Hb, Hsp. cbn [fst]. unfold digits_value. rewrite H2. unfold LONG_MIN. lia.
  - rewrite <- (app_nil_r (dec_digits 20 v [])). rewrite strtol0_unsigned; [done|lia|done].
Qed.

End Numbers.

(** ** Totality *)

Section Totality.

(** On texts shorter than [k] the parser comes back, with no more text. *)
Definition fine (k : nat) {A} (p : ap A) : Prop :=
  forall s en, (length s < k)%nat ->
  match p s en with AVal _ s' _ => (length s' <= length s)%nat | AUndef => True | AFuel => False end.

Lemma fine_bind k {A C} (m : ap A) (f : A -> ap C) : fine k m -> (forall a, fine k (f a)) -> fine k (abind m f).
Proof.
  intros Hm Hf s en Hs. unfold abind. specialize (Hm s en Hs). destruct (m s en) as [a s' en'| |]; [|done|done].
  specialize (Hf a s' en' ltac:(lia)). destruct (f a s' en'); [lia|done|done].
Qed.

Lemma fine_ws k : fine k ar_ws.
Proof. intros s en Hs. apply drop_while_length. Qed.

Lemma fine_lift k o : fine k (lift o).
Proof. intros s en Hs. unfold lift. by destruct o. Qed.

Lemma fine_ret k {A} (a : A) : fine k (aret a).
Proof. intros s en Hs. cbn. lia. Qed.

Lemma strtol0_shrinks s : (length (strtol0 s).2 <= length s)%nat.
Proof.
  unfold strtol0. pose proof (drop_while_length is_atoi_space s) as H1.
  set (t := drop_while is_atoi_space s) in *. clearbody t.
  set (p := match t with [] => _ | _ => _ end).
  assert (H2 : (length p.2 <= length t)%nat) by (unfold p; destruct t; repeat case_if; simpl; lia).
  destruct p as [neg t1]. cbn [snd] in H2.
  assert (H3 : (length (number_base t1).2 <= length t1)%nat).
  { unfold number_base. destruct t1 as [|z [|x [|d r]]]; repeat case_if; simpl; lia. }
  destruct (number_base t1) as [base t2]. cbn [snd] in H3.
  pose proof (drop_while_length (is_digit_of base) t2) as H4. unfold drop_while in H4.
  destruct (span (is_digit_of base) t2) as [[|d ds] r]; cbn [snd] in *; lia.
Qed.

Lemma fine_prim k expr : fine k expr -> fine (S k) (ar_prim expr).
Proof.
  intros He. unfold ar_prim. apply fine_bind; [apply fine_ws|]. intros _ s en Hs. destruct s as [|c r]; [done|].
  cbn [length] in Hs. case_if.
  - assert (Hf : fine k (v ⇐ expr; _ ⇐ ar_ws; λ s en, AVal v (match s with d :: r => if d =? RPAR then r else s | [] => s end) en)).
    { apply fine_bind; [done|]. intros v. apply fine_bind; [apply fine_ws|]. intros _ t en' Ht.
      destruct t as [|d t]; [done|]. case_if; simpl; lia. }
    specialize (Hf r en ltac:(lia)). destruct (abind _ _ r en); [simpl; lia|done|done].
  - case_if.
    + pose proof (strtol0_shrinks (c :: r)). by destruct (strtol0 (c :: r)).
    + case_if; [|done]. apply (drop_while_length is_name_char (c :: r)).
Qed.

Lemma fine_un k expr fuel : fine k expr -> fine (Nat.min (S k) fuel) (ar_un expr fuel).
Proof.
  intros He. induction fuel as [|fuel IH]; [intros s en Hs; lia|]. cbn [ar_un].
  apply fine_bind; [apply fine_ws|]. intros _ s en Hs.
  assert (Hp : match ar_prim expr s en with AVal _ s' _ => (length s' <= length s)%nat | AUndef => True | AFuel => False end)
    by (apply (fine_prim k expr He); lia).
  destruct s as [|c r]; [done|]. cbn [length] in Hs.
  assert (Hr : forall (q : Z -> ap Z), (forall v, fine (Nat.min (S k) fuel) (q v)) ->
    match (v ⇐ ar_un expr fuel; q v) r en with
    | AVal _ s' _ => (length s' <= length (c :: r))%nat | AUndef => True | AFuel => False end).
  { intros q Hq. pose proof (fine_bind _ _ _ IH Hq r en ltac:(lia)) as Hf. destruct (abind _ _ r en); [simpl; lia|done|done]. }
  repeat case_if; try done.
  - apply Hr. intros v. apply fine_lift.
  - specialize (IH r en ltac:(lia)). destruct (ar_un expr fuel r en); [simpl; lia|done|done].
  - apply Hr. intros v. apply fine_ret.
  - apply Hr. intros v. apply fine_ret.
Qed.

(** An operator is at least one character. *)
Definition op_shrinks (op : optable) : Prop := forall s f r, op s = Some (f, r) -> (length r < length s)%nat.

Lemma fine_loop k op sub fuel v : fine k sub -> op_shrinks op -> fine (Nat.min k fuel) (level_loop op sub fuel v).
Proof.
  intros Hs Ho. revert v. induction fuel as [|fuel IH]; intros v; [intros s en Hk; lia|]. cbn [level_loop].
  apply fine_bind; [apply fine_ws|]. intros _ s en Hk. destruct (op s) as [[f r]|] eqn:E; [|done]. apply Ho in E.
  assert (Hf : fine (Nat.min k fuel) (w ⇐ sub; v' ⇐ lift (f v w); level_loop op sub fuel v')).
  { apply fine_bind; [intros t en' Ht; apply Hs; lia|]. intros w. apply fine_bind; [apply fine_lift|]. done. }
  specialize (Hf r en ltac:(lia)). destruct (abind _ _ r en); [lia|done|done].
Qed.

Lemma fine_level k op sub : fine k sub -> op_shrinks op -> fine k (level op sub).
Proof.
  intros Hs Ho. unfold level. apply fine_bind; [done|]. intros v s en Hk.
  by apply (fine_loop k op sub (S (length s)) v Hs Ho); lia.
Qed.

(** The tables of the six binary levels. *)
Definition table (l : nat) : optable :=
  match l with 1%nat => or_op | 2%nat => and_op | 3%nat => eq_op | 4%nat => cmp_op | 5%nat => add_op | _ => mul_op end.

Lemma two_chars_shrinks a b s r : two_chars a b s = Some r -> (length r < length s)%nat.
Proof. unfold two_chars. destruct s as [|c [|d s]]; try done. case_if; [|done]. intros [= <-]. simpl. lia. Qed.

Lemma table_shrinks l : op_shrinks (table l).
Proof.
  intros s f r H. destruct l as [|[|[|[|[|[|l]]]]]]; cbn [table] in H.
  2,3: unfold or_op, and_op in H; apply fmap_Some in H as (t & H & [= _ ->]); by apply two_chars_shrinks in H.
  2:{ unfold eq_op in H. destruct (two_chars EQUALS EQUALS s) eqn:E1; [injection H as _ <-; by apply two_chars_shrinks in E1|].
      destruct (two_chars 33 EQUALS s) eqn:E2; [|done]. injection H as _ <-. by apply two_chars_shrinks in E2. }
  all: unfold mul_op, add_op, cmp_op in H; (destruct s as [|c s]; [done|]); pose proof (tail_length s);
    repeat case_match; try done; (injection H as _ <- || simplify_eq); simpl in *; lia.
Qed.

Lemma fine_or k expr : fine k expr -> fine (S k) (ar_or expr).
Proof.
  intros He. unfold ar_or, ar_and, ar_eq, ar_cmp, ar_add, ar_mul.
  repeat (apply fine_level; [|first [apply (table_shrinks 1)|apply (table_shrinks 2)|apply (table_shrinks 3)|
    apply (table_shrinks 4)|apply (table_shrinks 5)|apply (table_shrinks 6)]]).
  intros s en Hs. apply (fine_un k expr (S (length s)) He). lia.
Qed.

Lemma assign_target_shrinks s nm o r : assign_target s = Some (nm, o, r) -> (length r < length s)%nat.
Proof.
  unfold assign_target, ar_name. destruct s as [|c s]; [done|]. case_if; [|done].
  pose proof (drop_while_length is_name_char (c :: s)) as H1. pose proof (drop_while_length is_tabspace (drop_while is_name_char (c :: s))) as H2.
  destruct (drop_while is_tabspace (drop_while is_name_char (c :: s))) as [|x t]; [done|]. pose proof (tail_length t) as H3.
  case_if; [intros [= _ _ <-]; simpl in *; lia|]. destruct (assign_op x); [|done]. case_if; [|done].
  intros [= _ _ <-]; simpl in *; lia.
Qed.

Lemma fine_assign k : fine k (ar_assign k).
Proof.
  induction k as [|k IH]; [intros s en Hs; lia|]. cbn [ar_assign]. apply fine_bind; [apply fine_ws|]. intros _ s en Hs.
  destruct (assign_target s) as [[[nm o] r]|] eqn:E; [|exact (fine_or k _ IH s en Hs)].
  apply assign_target_shrinks in E.
  assert (Hset : forall v, fine k (set_long nm v)) by (intros v t en' Ht; cbn; lia).
  destruct o as [f|].
  - assert (Hf : fine k (rhs ⇐ ar_assign k; λ s en, (v ⇐ lift (f (env_long nm en) rhs); set_long nm v) s en)).
    { apply fine_bind; [done|]. intros rhs t en' Ht.
      exact (fine_bind k _ _ (fine_lift k _) Hset t en' Ht). }
    specialize (Hf r en ltac:(lia)). destruct (abind _ _ r en); [lia|done|done].
  - pose proof (fine_bind k _ _ IH Hset r en ltac:(lia)) as Hf. destruct (abind _ _ r en); [lia|done|done].
Qed.

(** every expression text is evaluated: whatever the text, the evaluator comes
    back, with a value or at an operation that C leaves undefined. *)
Theorem arith_eval_total expr en : arith_eval expr en ≠ AFuel.
Proof.
  unfold arith_eval. pose proof (fine_assign (S (length expr)) expr en ltac:(lia)) as H. by destruct (ar_assign _ _ _).
Qed.

(** One round of the loop of a level. *)
Lemma level_loop_step op sub fuel v s en :
  level_loop op sub (S fuel) v s en =
    match op (drop_while is_tabspace s) with
    | None => AVal v (drop_while is_tabspace s) en
    | Some (f, r) =>
        match sub r en with
        | AVal w s' en' => match f v w with Some v' => level_loop op sub fuel v' s' en' | None => AUndef end
        | AUndef => AUndef
        | AFuel => AFuel
        end
    end.
Proof.
  cbn [level_loop]. unfold abind at 1. unfold ar_ws. destruct (op (drop_while is_tabspace s)) as [[f r]|]; [|done].
  unfold abind. destruct (sub r en) as [w s' en'| |]; [|done|done]. unfold lift. by destruct (f v w).
Qed.

(** More rounds than characters make no difference. *)
Lemma level_loop_fuel k op sub f1 f2 v s en :
  fine k sub -> op_shrinks op -> (length s < k)%nat -> (length s < f1)%nat -> (length s < f2)%nat ->
  level_loop op sub f1 v s en = level_loop op sub f2 v s en.
Proof.
  intros Hs Ho. revert f2 v s en. induction f1 as [|f1 IH]; intros f2 v s en Hk H1 H2; [lia|].
  destruct f2 as [|f2]; [lia|]. rewrite !level_loop_step.
  pose proof (drop_while_length is_tabspace s) as Hd. destruct (op (drop_while is_tabspace s)) as [[f r]|] eqn:E; [|done].
  apply Ho in E. pose proof (Hs r en ltac:(lia)) as Hr. destruct (sub r en) as [w s' en'| |]; [|done|done].
  destruct (f v w); [|done]. apply IH; lia.
Qed.

End Totality.

(** ** Correctness *)

Section Correctness.

(** What evaluating [e] leaves, with [rest] after its text. *)
Definition spec (e : aexp) (rest : bytes) (en : env) : ares Z :=
  match eval e en with Some (v, en') => AVal v rest en' | None => AUndef end.

(** No operator of level [l] or tighter follows. *)
Definition follow (l : nat) (rest : bytes) : Prop :=
  stop_tok rest /\ forall k, (1 <= k <= 6)%nat -> (l <= k)%nat -> table k rest = None.

(** The end of a whole expression. *)
Definition at_end (rest : bytes) : Prop := match rest with [] => True | c :: _ => c = RPAR end.

Definition lev (l : nat) (expr : ap Z) : ap Z :=
  match l with
  | 1%nat => ar_or expr | 2%nat => ar_and expr | 3%nat => ar_eq expr | 4%nat => ar_cmp expr | 5%nat => ar_add expr
  | 6%nat => ar_mul expr | 7%nat => λ s, ar_un expr (S (length s)) s | _ => ar_prim expr
  end.

Lemma lev_step l expr : (1 <= l <= 6)%nat -> lev l expr = level (table l) (lev (S l) expr).
Proof. intros H. destruct l as [|[|[|[|[|[|[|l]]]]]]]; first [lia | reflexivity]. Qed.

(** The text [t] is read as [e] at level [l]. *)
Definition reads (l n : nat) (t : bytes) (e : aexp) : Prop :=
  forall rest en, follow l rest -> (length (t ++ rest) <= n)%nat -> lev l (ar_assign n) (t ++ rest) en = spec e rest en.

(** The same with the loop of the level still to run over what follows. *)
Definition reads_loop (l n : nat) (t : bytes) (e : aexp) : Prop :=
  forall rest en, follow (S l) rest -> (length (t ++ rest) <= n)%nat ->
    lev l (ar_assign n) (t ++ rest) en =
    match eval e en with
    | Some (v, en') => level_loop (table l) (lev (S l) (ar_assign n)) (S (length rest)) v rest en'
    | None => AUndef
    end.

Lemma follow_weaken l l' rest : follow l rest -> (l <= l')%nat -> follow l' rest.
Proof. intros [H1 H2] Hl. split; [done|]. intros k Hk Hk'. apply H2; lia. Qed.

Lemma reads_to_loop l n t e : (1 <= l <= 6)%nat -> reads (S l) n t e -> reads_loop l n t e.
Proof.
  intros Hl Hr rest en Hf Hn. rewrite lev_step by done. unfold level, abind. rewrite Hr by done. unfold spec.
  by destruct (eval e en) as [[v en']|].
Qed.

Lemma loop_to_reads l n t e : (1 <= l <= 6)%nat -> reads_loop l n t e -> reads l n t e.
Proof.
  intros Hl Hr rest en Hf Hn. rewrite Hr by (done || (eapply follow_weaken; [done|lia])). unfold spec.
  destruct (eval e en) as [[v en']|]; [|done].
  rewrite level_loop_step, stop_tok_ws by apply Hf. by rewrite (proj2 Hf l) by lia.
Qed.

Lemma reads_down l n t e : (1 <= l <= 6)%nat -> reads (S l) n t e -> reads l n t e.
Proof. intros Hl H. apply loop_to_reads; [done|]. by apply reads_to_loop. Qed.

(** The first character of an expression. *)
Definition head_ok (s : bytes) : Prop :=
  exists c r, s = c :: r /\ is_tabspace c = false /\ c ≠ EQUALS.

Lemma name_start_head c : is_name_start c = true -> is_tabspace c = false /\ c ≠ EQUALS /\ is_decimal c = false /\
  c ≠ LPAR /\ c ≠ 45 /\ c ≠ 43 /\ c ≠ 33 /\ c ≠ 126.
Proof.
  unfold is_name_start, is_lower, is_upper, is_tabspace, is_decimal, SP, TAB, EQUALS, LPAR. intros H.
  assert (Hr : c = 95 \/ 97 <= c <= 122 \/ 65 <= c <= 90) by lia. clear H.
  split_and!; try lia; destruct Hr as [-> |[?|?]]; try done; lia.
Qed.

Lemma decimal_head c : is_decimal c = true -> is_tabspace c = false /\ c ≠ EQUALS /\ is_name_start c = false /\
  c ≠ LPAR /\ c ≠ 45 /\ c ≠ 43 /\ c ≠ 33 /\ c ≠ 126.
Proof.
  unfold is_name_start, is_lower, is_upper, is_tabspace, is_decimal, SP, TAB, EQUALS, LPAR. intros H.
  assert (Hr : 48 <= c <= 57) by lia. clear H. split_and!; lia.
Qed.

Lemma print_dec_head n : 0 <= n <= LONG_MAX -> exists c r, print_dec n = c :: r /\ is_decimal c = true.
Proof.
  unfold LONG_MAX. intros Hn. unfold print_dec. rewrite (proj2 (Z.ltb_ge n 0)) by lia.
  destruct (dec_digits_spec 20 n [] ltac:(lia) ltac:(lia)) as (ds & -> & H1 & _ & c & r & -> & _).
  exists c, r. rewrite app_nil_r. split; [done|]. by inversion H1.
Qed.

Lemma un_text_head o : exists c, un_text o = [c] /\ is_tabspace c = false /\ c ≠ EQUALS /\ is_name_start c = false.
Proof. destruct o; eexists; (split; [reflexivity|]); split_and!; done. Qed.

Lemma pr_head l e : good e -> head_ok (pr l e).
Proof.
  revert l. assert (Hpar : forall (b : bool) s, head_ok s -> head_ok (parens b s)).
  { intros [] s Hs; [|done]. exists LPAR, (s ++ [RPAR]). done. }
  induction e as [n|x|o e IH|o a IHa b IHb|x o e IH]; intros l Hg; cbn [pr]; apply Hpar; cbn [good] in Hg.
  - destruct (print_dec_head n Hg) as (c & r & -> & Hd). apply decimal_head in Hd. exists c, r. naive_solver.
  - destruct Hg as [(c & r & -> & Hs) _]. apply name_start_head in Hs. exists c, r. naive_solver.
  - destruct (un_text_head o) as (c & -> & H). exists c, (pr 7 e). naive_solver.
  - destruct Hg as [Ha _]. destruct (IHa (bin_prec o) Ha) as (c & r & -> & H). eexists c, _. split; [reflexivity|]. done.
  - destruct Hg as [[(c & r & -> & Hs) _] _]. apply name_start_head in Hs. eexists c, _. split; [reflexivity|]. naive_solver.
Qed.

(** A binary operator in front of an expression is recognised at its level and at
    no tighter one. *)
Lemma bin_table o s : head_ok s -> exists f, table (bin_prec o) (bin_text o ++ s) = Some (f, s) /\ forall v w, f v w = bin_value o v w.
Proof.
  intros (c & r & -> & _ & Hc). destruct o; cbn; try (eexists; split; [reflexivity|done]).
  all: unfold cmp_op; cbn; rewrite (proj2 (Z.eqb_neq c EQUALS) Hc); cbn; (eexists; split; [reflexivity|done]).
Qed.

Lemma bin_follow o s : head_ok s -> follow (S (bin_prec o)) (bin_text o ++ s).
Proof.
  intros (c & r & -> & _ & Hc). split; [by destruct o|]. intros k Hk Hl.
  assert (Hcases : (k = 1 \/ k = 2 \/ k = 3 \/ k = 4 \/ k = 5 \/ k = 6)%nat) by lia.
  destruct Hcases as [-> |[-> |[-> |[-> |[-> | ->]]]]]; destruct o; cbn in Hl; try lia; done.
Qed.

Lemma ws_head c s : is_tabspace c = false -> drop_while is_tabspace (c :: s) = c :: s.
Proof. intros H. unfold drop_while. cbn [span]. by rewrite H. Qed.

Lemma ar_name_app x rest : good_var x -> stop_tok rest -> ar_name (x ++ rest) = (x, rest).
Proof.
  intros (_ & Hx & Hl) Hr. unfold ar_name, take_while, drop_while. rewrite span_stop_tok by done. cbn [fst snd].
  by rewrite take_ge.
Qed.

Lemma reads_num n k : 0 <= k <= LONG_MAX -> reads 8 n (print_dec k) (Num k).
Proof.
  intros Hk rest en [Hr _] _. destruct (print_dec_head k Hk) as (c & r & E & Hd).
  pose proof (decimal_head c Hd) as (Hb & _ & _ & H1 & _). cbn [lev]. unfold ar_prim, abind, ar_ws.
  assert (Hs : strtol0 (print_dec k ++ rest) = (k, rest)).
  { unfold print_dec. rewrite (proj2 (Z.ltb_ge k 0)) by lia. by apply strtol0_unsigned. }
  rewrite E in *. cbn [app] in *. rewrite ws_head by done. rewrite (proj2 (Z.eqb_neq c LPAR)), Hd, Hs by done. done.
Qed.

Lemma reads_var n x : good_var x -> reads 8 n x (Var x).
Proof.
  intros Hx rest en [Hr _] _. pose proof (ar_name_app x rest Hx Hr) as Hn. destruct Hx as [(c & r & -> & Hs) _].
  pose proof (name_start_head c Hs) as (Hb & _ & Hd & H1 & _). cbn [lev app] in *. unfold ar_prim, abind, ar_ws.
  rewrite ws_head by done. rewrite (proj2 (Z.eqb_neq c LPAR)), Hd, Hs, Hn by done. done.
Qed.

(** The whole expression [t] is read as [e]. *)
Definition reads_whole (n : nat) (t : bytes) (e : aexp) : Prop :=
  forall rest en, at_end rest -> (length (t ++ rest) < n)%nat -> ar_assign n (t ++ rest) en = spec e rest en.

Lemma at_end_stop rest : at_end rest -> stop_tok rest.
Proof. destruct rest as [|c rest]; [done|]. by intros ->. Qed.

Lemma at_end_follow l rest : at_end rest -> follow l rest.
Proof.
  intros H. split; [by apply at_end_stop|]. intros k Hk _. destruct rest as [|c rest].
  - destruct k as [|[|[|[|[|[|k]]]]]]; done.
  - cbn in H. subst c. destruct k as [|[|[|[|[|[|[|k]]]]]]]; first [lia|destruct rest; done].
Qed.

Lemma reads_parens n t e : reads_whole n t e -> reads 8 n (LPAR :: t ++ [RPAR]) e.
Proof.
  intros Hw rest en [Hr _] Hn. cbn [length app] in Hn. rewrite <- app_assoc in Hn. cbn [lev app]. unfold ar_prim. unfold abind at 1, ar_ws at 1.
  rewrite ws_head by done. cbn [Z.eqb]. change (LPAR =? LPAR) with true. cbv iota.
  rewrite <- app_assoc. cbn [app]. unfold abind at 1. rewrite Hw by (done || exact Hn).
  unfold spec. destruct (eval e en) as [[v en']|]; [|done]. unfold abind, ar_ws. rewrite ws_head by done. done.
Qed.

Definition plain_head (s : bytes) : Prop :=
  exists c r, s = c :: r /\ is_tabspace c = false /\ c ≠ 45 /\ c ≠ 43 /\ c ≠ 33 /\ c ≠ 126.

Lemma reads_un_prim n t e : plain_head t -> reads 8 n t e -> reads 7 n t e.
Proof.
  intros (c & r & -> & Hb & H1 & H2 & H3 & H4) Hr rest en Hf Hn. rewrite <- (Hr rest en) by (done || (eapply follow_weaken; [done|lia])).
  cbn [lev app ar_un]. unfold abind at 1, ar_ws at 1. rewrite ws_head by done.
  by rewrite (proj2 (Z.eqb_neq c 45)), (proj2 (Z.eqb_neq c 43)), (proj2 (Z.eqb_neq c 33)), (proj2 (Z.eqb_neq c 126)) by done.
Qed.

Lemma reads_un n o t e : reads 7 n t e -> reads 7 n (un_text o ++ t) (Un o e).
Proof.
  intros Hr rest en Hf Hn. assert (Hn' : (length (t ++ rest) <= n)%nat).
  { rewrite <- app_assoc, length_app in Hn. lia. }
  specialize (Hr rest en Hf Hn'). cbn [lev] in *. unfold spec in *. cbn [eval].
  assert (Hstep : forall c (q : Z -> option Z), is_tabspace c = false ->
    (forall fuel, ar_un (ar_assign n) (S fuel) (c :: t ++ rest) en =
                  match ar_un (ar_assign n) fuel (t ++ rest) en with
                  | AVal v s' en' => match q v with Some w => AVal w s' en' | None => AUndef end
                  | AUndef => AUndef | AFuel => AFuel end) ->
    ar_un (ar_assign n) (S (length (c :: t ++ rest))) (c :: t ++ rest) en =
    match match eval e en with Some (v, en0) => match q v with Some w => Some (w, en0) | None => None end | None => None end with
    | Some (v, en') => AVal v rest en' | None => AUndef end).
  { intros c q Hc Hq. rewrite Hq. cbn [length]. rewrite Hr. destruct (eval e en) as [[v en']|]; [|done]. by destruct (q v). }
  assert (Hgo : forall c, is_tabspace c = false ->
    forall fuel, ar_un (ar_assign n) (S fuel) (c :: t ++ rest) en =
      (if c =? 45 then (v ⇐ ar_un (ar_assign n) fuel; lift (fits_long (- v))) (t ++ rest) en
       else if c =? 43 then ar_un (ar_assign n) fuel (t ++ rest) en
       else if c =? 33 then (v ⇐ ar_un (ar_assign n) fuel; aret (of_bool (v =? 0))) (t ++ rest) en
       else if c =? 126 then (v ⇐ ar_un (ar_assign n) fuel; aret (Z.lnot v)) (t ++ rest) en
       else ar_prim (ar_assign n) (c :: t ++ rest) en)).
  { intros c Hc fuel. cbn [ar_un]. unfold abind at 1, ar_ws at 1. by rewrite ws_head. }
  destruct o; [apply (Hstep 45 (un_value Neg)) | apply (Hstep 43 (un_value Plus)) |
    apply (Hstep 33 (un_value Not)) | apply (Hstep 126 (un_value Compl))]; try done;
    intros fuel; rewrite Hgo by done; cbn; unfold abind; by destruct (ar_un _ fuel _ en).
Qed.

Lemma fine_lev n l : (1 <= l)%nat -> fine (S n) (lev l (ar_assign n)).
Proof.
  intros Hl. pose proof (fine_assign n) as Hn.
  assert (H8 : fine (S n) (ar_prim (ar_assign n))) by (by apply fine_prim).
  assert (H7 : fine (S n) (lev 7 (ar_assign n))).
  { intros s en Hs. apply (fine_un n _ (S (length s)) Hn). lia. }
  assert (Hdown : forall k, (1 <= k <= 6)%nat -> fine (S n) (lev (S k) (ar_assign n)) -> fine (S n) (lev k (ar_assign n))).
  { intros k Hk H. rewrite lev_step by done. apply fine_level; [done|apply table_shrinks]. }
  assert (H6 := Hdown 6%nat ltac:(lia) H7). assert (H5 := Hdown 5%nat ltac:(lia) H6). assert (H4 := Hdown 4%nat ltac:(lia) H5).
  assert (H3 := Hdown 3%nat ltac:(lia) H4). assert (H2 := Hdown 2%nat ltac:(lia) H3). assert (H1 := Hdown 1%nat ltac:(lia) H2).
  destruct l as [|[|[|[|[|[|[|[|l]]]]]]]]; first [lia|assumption].
Qed.

Lemma reads_bin n o ta tb a b :
  head_ok tb -> reads_loop (bin_prec o) n ta a -> reads (S (bin_prec o)) n tb b ->
  reads_loop (bin_prec o) n (ta ++ bin_text o ++ tb) (Bin o a b).
Proof.
  intros Hh Ha Hb rest en Hf Hn. rewrite <- !app_assoc in *.
  assert (Hhr : head_ok (tb ++ rest)).
  { destruct Hh as (c & r & -> & H). by exists c, (r ++ rest). }
  assert (Hlen : (length (tb ++ rest) < length (bin_text o ++ tb ++ rest))%nat).
  { rewrite (length_app (bin_text o)). destruct o; simpl; lia. }
  assert (Hlen2 : (length (bin_text o ++ tb ++ rest) <= n)%nat) by (rewrite (length_app ta) in Hn; lia).
  rewrite Ha by (done || by apply bin_follow). cbn [eval]. destruct (eval a en) as [[v en1]|]; [|done]. cbn [mbind option_bind].
  destruct (bin_table o (tb ++ rest) Hhr) as (f & Ht & Hfv).
  rewrite level_loop_step, (stop_tok_ws (bin_text o ++ tb ++ rest)) by apply (bin_follow o _ Hhr). rewrite Ht.
  rewrite Hb by (done || lia). unfold spec. destruct (eval b en1) as [[w en2]|]; [|done]. cbn [mbind option_bind].
  rewrite Hfv. destruct (bin_value o v w) as [x|]; [|done]. cbn [mbind option_bind].
  assert (Hr : (length rest <= length (tb ++ rest))%nat) by (rewrite length_app; lia).
  apply (level_loop_fuel (S n)); [apply fine_lev; lia|apply table_shrinks|lia|lia|lia].
Qed.

(** What may follow a name that is not the target of an assignment. *)
Definition no_assign (rest : bytes) : Prop :=
  stop_tok rest /\
  match rest with
  | [] => True
  | c :: r =>
      let eq := match r with d :: _ => d =? EQUALS | [] => false end in
      (c =? EQUALS) && negb eq = false /\ (assign_op c = None \/ eq = false)
  end.

Lemma no_assign_bin o s : head_ok s -> no_assign (bin_text o ++ s).
Proof.
  intros (c & r & -> & _ & Hc). apply Z.eqb_neq in Hc.
  destruct o; (split; [done|]); cbn; rewrite ?Hc; split; try done; try (by left); by right.
Qed.

Lemma at_end_no_assign rest : at_end rest -> no_assign rest.
Proof. intros H. split; [by apply at_end_stop|]. destruct rest as [|c rest]; [done|]. cbn in H. subst c. split; [done|by left]. Qed.

Lemma no_target e l rest : good e -> (1 <= l)%nat -> no_assign rest -> assign_target (pr l e ++ rest) = None.
Proof.
  revert l rest. induction e as [k|x|o e IH|o a IHa b IHb|x o e IH]; intros l rest Hg Hl Hr; cbn [pr good] in *;
    (destruct (prec _ <? l)%nat eqn:El; cbn [parens]; [done|]); boolify; cbn [prec] in *.
  - destruct (print_dec_head k Hg) as (c & r & -> & Hd). cbn [app assign_target].
    apply decimal_head in Hd as (_ & _ & -> & _). done.
  - pose proof (ar_name_app x rest Hg (proj1 Hr)) as Hn. destruct Hg as [(c & r & -> & Hs) _]. cbn [app] in *.
    unfold assign_target. rewrite Hs, Hn, stop_tok_ws by apply Hr. destruct rest as [|d rest]; [done|].
    destruct Hr as [_ [H1 H2]]. rewrite H1. destruct H2 as [-> | ->]; [done|]. by destruct (assign_op d).
  - destruct (un_text_head o) as (c & -> & _ & _ & H). cbn [app assign_target]. by rewrite H.
  - destruct Hg as [Ha Hb]. rewrite <- !app_assoc. apply IHa; [done|destruct o; simpl; lia|]. apply no_assign_bin.
    destruct (pr_head (S (bin_prec o)) b Hb) as (c & r & -> & H). by exists c, (r ++ rest).
  - lia.
Qed.

(** The text of an assignment. *)
Lemma assign_target_text x o s :
  good_var x -> head_ok s -> match o with Some o => (5 <= bin_prec o)%nat | None => True end ->
  exists f, assign_target (x ++ match o with Some o => bin_text o | None => [] end ++ EQUALS :: s) = Some (x, f, s) /\
    match o, f with Some o, Some f => forall v w, f v w = bin_value o v w | None, None => True | _, _ => False end.
Proof.
  intros Hx (c & r & -> & _ & Hc) Ho. apply Z.eqb_neq in Hc.
  set (t := match o with Some o => bin_text o | None => [] end ++ EQUALS :: c :: r).
  assert (Hst : stop_tok t) by (unfold t; destruct o as [[]|]; done).
  pose proof (ar_name_app x t Hx Hst) as Hn. destruct Hx as [(d & y & -> & Hs) _]. cbn [app] in *.
  unfold assign_target. rewrite Hs, Hn, stop_tok_ws by done. unfold t. destruct o as [o|].
  - destruct o; cbn in Ho; try lia; cbn; (eexists; split; [reflexivity|done]).
  - cbn. rewrite Hc. cbn. by eexists.
Qed.

Lemma reads_assign n x o t e :
  good_var x -> head_ok t -> match o with Some o => (5 <= bin_prec o)%nat | None => True end ->
  reads_whole n t e -> reads_whole (S n) (x ++ match o with Some o => bin_text o | None => [] end ++ EQUALS :: t) (Assign x o e).
Proof.
  intros Hx Ht Ho Hw rest en Hr Hn. cbn [ar_assign]. unfold abind at 1, ar_ws at 1.
  assert (Htr : head_ok (t ++ rest)) by (destruct Ht as (c & r & -> & H); by exists c, (r ++ rest)).
  destruct (assign_target_text x o (t ++ rest) Hx Htr Ho) as (f & Htgt & Hf).
  assert (Hlen : (length (t ++ rest) < n)%nat).
  { rewrite <- app_assoc, (length_app x) in Hn. destruct Hx as [(c & r & -> & _) _]. rewrite <- app_assoc in Hn. cbn [app length] in Hn.
    rewrite length_app in Hn. simpl in Hn. lia. }
  rewrite <- !app_assoc. cbn [app].
  assert (Hws : forall s, drop_while is_tabspace (x ++ s) = x ++ s).
  { intros s. destruct Hx as [(c & r & -> & Hs) _]. apply name_start_head in Hs as [Hb _]. cbn [app]. by apply ws_head. }
  rewrite Hws. rewrite Htgt. unfold spec. cbn [eval].
  destruct o as [o|], f as [f|]; try done.
  - unfold abind at 1. rewrite Hw by done. unfold spec. destruct (eval e en) as [[w en1]|]; [|done]. cbn [mbind option_bind].
    unfold abind, lift. rewrite Hf. destruct (bin_value o (env_long x en1) w); done.
  - unfold abind at 1. rewrite Hw by done. unfold spec. by destruct (eval e en) as [[w en1]|].
Qed.

Lemma reads_whole_or n t e :
  head_ok t -> (forall rest, at_end rest -> assign_target (t ++ rest) = None) -> reads 1 n t e -> reads_whole (S n) t e.
Proof.
  intros Ht Hn Hr rest en He Hl. cbn [ar_assign]. unfold abind at 1, ar_ws at 1.
  assert (Hws : drop_while is_tabspace (t ++ rest) = t ++ rest).
  { destruct Ht as (c & r & -> & Hb & _). cbn [app]. by apply ws_head. }
  rewrite Hws, Hn by done. apply Hr; [by apply at_end_follow|]. lia.
Qed.

(** An expression is read at every level up to its own. *)
Definition low (n : nat) (e : aexp) : Prop := forall l, (1 <= l <= prec e)%nat -> reads l n (pr l e) e.

Lemma pr_same l l' e : (l <= prec e)%nat -> (l' <= prec e)%nat -> pr l e = pr l' e.
Proof.
  intros H1 H2. destruct e; cbn [pr]; rewrite (proj2 (Nat.ltb_ge _ l)), (proj2 (Nat.ltb_ge _ l')) by done; done.
Qed.

Lemma pr_paren l e : (prec e < l)%nat -> pr l e = LPAR :: pr 0 e ++ [RPAR].
Proof.
  intros H. destruct e; cbn [pr]; rewrite (proj2 (Nat.ltb_lt _ l)) by done; rewrite (proj2 (Nat.ltb_ge _ 0)) by lia; done.
Qed.

(** From its own level downwards. *)
Lemma low_from n e : (prec e <= 8)%nat -> reads (prec e) n (pr (prec e) e) e -> (prec e = 8%nat -> plain_head (pr 8 e)) -> low n e.
Proof.
  intros H8 Hp Hh. assert (H : forall k l, (l + k = prec e)%nat -> (1 <= l)%nat -> reads l n (pr l e) e).
  { induction k as [|k IH]; intros l Hk Hl; [replace l with (prec e) by lia; done|].
    assert (HS : reads (S l) n (pr l e) e) by (rewrite (pr_same l (S l)) by lia; apply IH; lia).
    destruct (decide (l = 7%nat)) as [->|Hne].
    - apply reads_un_prim; [|done]. rewrite (pr_same 7 8) by lia. apply Hh. lia.
    - apply reads_down; [lia|done]. }
  intros l Hl. apply (H (prec e - l)%nat); lia.
Qed.

(** From the whole expression to every level. *)
Lemma all_levels n e : (prec e <= 8)%nat -> low n e -> reads_whole n (pr 0 e) e ->
  forall l, (1 <= l <= 8)%nat -> reads l n (pr l e) e.
Proof.
  intros H8 Hlow Hw. assert (H : forall k l, (l + k = 8)%nat -> (prec e < l)%nat -> (1 <= l)%nat -> reads l n (pr l e) e).
  { induction k as [|k IH]; intros l Hk Hp Hl.
    - replace l with 8%nat in * by lia. rewrite pr_paren by done. by apply reads_parens.
    - assert (HS : reads (S l) n (pr l e) e) by (rewrite pr_paren, <- (pr_paren (S l)) by lia; apply IH; lia).
      destruct (decide (l = 7%nat)) as [->|Hne]; [|apply reads_down; [lia|done]].
      apply reads_un_prim; [|done]. rewrite pr_paren by done. exists LPAR, (pr 0 e ++ [RPAR]). done. }
  intros l Hl. destruct (decide (prec e < l)%nat); [apply (H (8 - l)%nat); lia|]. apply Hlow. lia.
Qed.

Lemma whole_from_low e : good e -> (1 <= prec e)%nat -> (forall n, low n e) -> forall n, reads_whole n (pr 0 e) e.
Proof.
  intros Hg Hp Hlow [|n]; [intros rest en _ Hn; lia|]. rewrite (pr_same 0 1) by lia.
  apply reads_whole_or; [by apply pr_head| |apply Hlow; lia]. intros rest Hr.
  apply no_target; [done|lia|by apply at_end_no_assign].
Qed.

(** An operation is read with its loop still running. *)
Definition own_loop (n : nat) (e : aexp) : Prop :=
  (1 <= prec e <= 6)%nat -> reads_loop (prec e) n (pr (prec e) e) e.

Lemma prec_max e : (prec e <= 8)%nat.
Proof. destruct e as [| | |[]|]; cbn; lia. Qed.

Lemma own_loop_bin n o a b :
  good b -> low n a -> reads_whole n (pr 0 a) a -> own_loop n a -> low n b -> reads_whole n (pr 0 b) b -> own_loop n (Bin o a b).
Proof.
  intros Hg A1 A2 A3 B1 B2 Hp. cbn [prec] in *.
  assert (E : pr (bin_prec o) (Bin o a b) = pr (bin_prec o) a ++ bin_text o ++ pr (S (bin_prec o)) b).
  { cbn [pr prec]. by rewrite Nat.ltb_irrefl. }
  rewrite E. apply reads_bin; [by apply pr_head| |apply all_levels; [apply prec_max|done|done|lia]].
  destruct (decide (prec a = bin_prec o)) as [Ea|Ea]; [rewrite <- Ea in *; by apply A3|].
  apply reads_to_loop; [done|].
  assert (Hsame : pr (bin_prec o) a = pr (S (bin_prec o)) a).
  { destruct (decide (prec a < bin_prec o)%nat); [|apply pr_same; lia].
    by rewrite (pr_paren (bin_prec o)), (pr_paren (S (bin_prec o))) by lia. }
  rewrite Hsame. apply all_levels; [apply prec_max|done|done|lia].
Qed.

Lemma reads_all e : good e -> (forall n, low n e) /\ (forall n, own_loop n e) /\ (forall n, reads_whole n (pr 0 e) e).
Proof.
  induction e as [k|x|o e IH|o a IHa b IHb|x o e IH]; intros Hg.
  - assert (Hlow : forall n, low n (Num k)).
    { intros n. apply low_from; [done|by apply reads_num|]. intros _.
      destruct (print_dec_head k Hg) as (c & r & E & Hd). exists c, r. split; [exact E|]. apply decimal_head in Hd. naive_solver. }
    split; [done|]. split; [intros n Hp; cbn in Hp; lia|]. apply whole_from_low; [done|cbn; lia|done].
  - assert (Hlow : forall n, low n (Var x)).
    { intros n. apply low_from; [done|by apply reads_var|]. intros _.
      destruct Hg as [(c & r & -> & Hs) _]. exists c, r. split; [done|]. apply name_start_head in Hs. naive_solver. }
    split; [done|]. split; [intros n Hp; cbn in Hp; lia|]. apply whole_from_low; [done|cbn; lia|done].
  - destruct (IH Hg) as (IH1 & _ & IH2).
    assert (Hlow : forall n, low n (Un o e)).
    { intros n. apply low_from; [cbn; lia| |done]. apply reads_un. apply all_levels; [apply prec_max|done|done|lia]. }
    split; [done|]. split; [intros n Hp; cbn in Hp; lia|]. apply whole_from_low; [done|cbn; lia|done].
  - pose proof Hg as [Hga Hgb]. destruct (IHa Hga) as (A1 & A2 & A3). destruct (IHb Hgb) as (B1 & _ & B3).
    assert (Hp : (1 <= bin_prec o <= 6)%nat) by (destruct o; cbn; lia).
    assert (Hown : forall n, own_loop n (Bin o a b)) by (intros n; by apply own_loop_bin).
    assert (Hlow : forall n, low n (Bin o a b)).
    { intros n. apply low_from; [apply prec_max| |intros E; cbn in E; lia]. apply loop_to_reads; [done|]. by apply Hown. }
    split; [done|]. split; [done|]. apply whole_from_low; [done|cbn; lia|done].
  - split; [intros n l Hl; cbn in Hl; lia|]. split; [intros n Hp; cbn in Hp; lia|].
    destruct Hg as (Hx & Ho & Hg). destruct (IH Hg) as (_ & _ & IH2). intros [|n]; [intros rest en _ Hn; lia|].
    change (pr 0 (Assign x o e)) with (x ++ match o with Some o => bin_text o | None => [] end ++ EQUALS :: pr 0 e).
    apply reads_assign; [done|by apply pr_head|done|done].
Qed.

(** C30: arithmetic expansion computes what the expression means.  For every
    expression tree, built from numbers, variables, the unary and binary operators
    and assignments, the text written with as few parentheses as precedence and
    left associativity allow is evaluated from left to right to the value of the
    tree, with the assignments made in the environment; an operation that
    overflows [long] is the only thing that stops it. *)
Theorem arith_eval_correct e en :
  good e ->
  arith_eval (pr 0 e) en =
  match eval e en with Some (v, en') => AVal v [] en' | None => AUndef end.
Proof.
  intros Hg. destruct (reads_all e Hg) as (_ & _ & Hw). unfold arith_eval. rewrite <- (app_nil_r (pr 0 e)) at 2.
  apply (Hw (S (length (pr 0 e))) [] en); [done|]. rewrite app_nil_r. lia.
Qed.

End Correctness.

(** (1 + x) * -2 < y += 3 - (2 - 1): an assignment is the loosest operator, so it
    is printed in parentheses here. *)
Definition sample_exp : aexp :=
  Bin Lt (Bin Mul (Bin Add (Num 1) (Var (B "x"))) (Un Neg (Num 2)))
         (Assign (B "y") (Some Add) (Bin Sub (Num 3) (Bin Sub (Num 2) (Num 1)))).

Lemma sample_good : good sample_exp.
Proof.
  assert (H : forall x, is_name_start x = true -> is_name_char x = true -> good_var [x]).
  { intros x H1 H2. split; [by exists x, []|]. split; [by constructor|simpl; lia]. }
  cbn. split_and!; try (by apply H); unfold LONG_MAX; lia.
Qed.

Lemma arith_eval_correct_witness :
  pr 0 sample_exp = B "(1+x)*-2<(y+=3-(2-1))" /\
  arith_eval (pr 0 sample_exp) [B "x=4"; B "y=0x10"] = AVal 1 [] [B "x=4"; B "y=18"].
Proof.
  split; [vm_compute; reflexivity|]. rewrite (arith_eval_correct sample_exp _ sample_good). vm_compute. reflexivity.
Defined.
