(* ===== verification/StshExpand.v ===== *)
(** Word expansion in stsh (src/user/bin/stsh/run.c, from [read_dollar] to
    [sh_capture]) and the state of the shell.

    The shell's global variables are the record [shell].  Its surroundings (the
    kernel, the file system, the programs it runs, libc's [glob] and [fnmatch])
    are the class [Kernel].  A computation ends normally, ends the process, meets
    undefined behaviour ([Wild]) or runs out of fuel ([Spent]).

    Pointers matter in two places, and are modelled there: positional parameters
    may point into a buffer that is gone, and the words of a [for] loop are
    offsets into one static buffer. *)

From S2P Require Import Prelude CString Posix StshEnv StshLexer StshArith.
Local Open Scope Z_scope.

(** * Definitions *)

Definition MAX_PIPELINE : nat := 8.
Definition MAX_ARGV : nat := 64.
Definition LINE_SIZE : nat := 4096.
Definition MAX_PARAMS : nat := 64.
Definition MAX_FUNCS : nat := 64.

(** ** Commands and their surroundings *)

Record cmd_t := Cmd {
  c_argv : list bytes;
  c_stdin : option bytes;
  c_stdout : option bytes;
  c_append : bool;
  c_stderr : option bytes;
  c_err2out : bool;
  c_dup : Z;
  c_heredoc : option bytes
}.

Definition no_cmd : cmd_t := Cmd [] None None false None false 0 None.

(** What a file descriptor is connected to. *)
Inductive source := InHere (body : bytes) | InFile (path : bytes) | InFd (n : Z).
Inductive sink := OutFd (n : Z) | OutPipe (n : nat) | OutFile (path : bytes) (append : bool).

#[global] Instance sink_eq_dec : EqDecision sink.
Proof. solve_decision. Defined.

Record fdt := Fds { fd_in : source; fd_out : sink; fd_err : sink }.

(** One stage of a pipeline of external programs, as [run_pipeline] sets up the
    child: what is done to its descriptors in order, and the paths [exec_cmd]
    tries. *)
Inductive fdact :=
  | FPipeIn (k : nat) | FPipeOut (k : nat) | FOpenIn (path : bytes) | FHere (body : bytes)
  | FOpenOut (path : bytes) (append : bool) | FOpenErr (path : bytes) | FErrToOut | FDup (n : Z).

Record stage := Stage { st_argv : list bytes; st_env : env; st_paths : list bytes; st_fds : list fdact }.

Class Kernel (kw : Type) := {
  k_pid : Z;
  k_pipe : kw -> bool * kw;                          (** pipe(2) succeeds *)
  k_fork : kw -> bool * kw;                          (** pipe and fork succeed *)
  k_glob : bytes -> kw -> list bytes;
  k_fnmatch : bytes -> bytes -> bool;
  k_exec_ok : bytes -> kw -> bool;                   (** access(p, X_OK) == 0 *)
  k_file : bytes -> kw -> option bytes;              (** what fopen and fread deliver *)
  k_open_in : bytes -> kw -> bool;
  k_open_out : bytes -> bool -> kw -> bool * kw;
  k_getline : source -> kw -> option bytes * kw;     (** a line; [None] at the end *)
  k_chdir : bytes -> kw -> bool * kw;
  k_umask : option Z -> kw -> Z * kw;
  k_caps : list bytes -> env -> kw -> Z * bytes * kw;  (** the capability builtins *)
  (** the stages, not waited for if the flag is set; the statuses, and what was
      written *)
  k_pipeline : fdt -> bool -> list stage -> kw -> option (list wstatus) * list (sink * bytes) * kw;
  k_exec : fdt -> stage -> kw -> option Z * list (sink * bytes) * kw
}.

(** ** The shell *)

Inductive flow_t := FLOW_NONE | FLOW_BREAK | FLOW_CONTINUE | FLOW_RETURN.

#[global] Instance flow_eq_dec : EqDecision flow_t.
Proof. solve_decision. Defined.

(** A pointer to a string. *)
Inductive ptr := PNull | PStr (s : bytes) | PWild.

Record func := Func { fn_name : bytes; fn_toks : list tok_t }.

Record shell (kw : Type) := Shell {
  sh_env : env;
  sh_exit : Z;
  sh_arg0 : bytes;
  sh_params : list ptr;
  sh_nparams : nat;
  sh_flow : flow_t;
  sh_flow_n : Z;
  sh_funcs : list func;
  sh_wbuf : bytes;                (** the static buffer of [run_for], as far as it was written *)
  sh_fds : fdt;
  sh_out : list (sink * bytes);   (** what was written, newest first *)
  sh_pipes : nat;
  sh_kw : kw
}.
Arguments Shell {kw}.
Arguments sh_env {kw}. Arguments sh_exit {kw}. Arguments sh_arg0 {kw}. Arguments sh_params {kw}.
Arguments sh_nparams {kw}. Arguments sh_flow {kw}. Arguments sh_flow_n {kw}. Arguments sh_funcs {kw}.
Arguments sh_wbuf {kw}. Arguments sh_fds {kw}. Arguments sh_out {kw}. Arguments sh_pipes {kw}. Arguments sh_kw {kw}.

Section Shell.

Context {kw : Type}.

Definition with_env (e : env) (s : shell kw) : shell kw :=
  Shell e (sh_exit s) (sh_arg0 s) (sh_params s) (sh_nparams s) (sh_flow s) (sh_flow_n s) (sh_funcs s) (sh_wbuf s)
    (sh_fds s) (sh_out s) (sh_pipes s) (sh_kw s).
Definition with_exit (x : Z) (s : shell kw) : shell kw :=
  Shell (sh_env s) x (sh_arg0 s) (sh_params s) (sh_nparams s) (sh_flow s) (sh_flow_n s) (sh_funcs s) (sh_wbuf s)
    (sh_fds s) (sh_out s) (sh_pipes s) (sh_kw s).
Definition with_params (a : bytes) (ps : list ptr) (n : nat) (s : shell kw) : shell kw :=
  Shell (sh_env s) (sh_exit s) a ps n (sh_flow s) (sh_flow_n s) (sh_funcs s) (sh_wbuf s)
    (sh_fds s) (sh_out s) (sh_pipes s) (sh_kw s).
Definition with_flow (f : flow_t) (n : Z) (s : shell kw) : shell kw :=
  Shell (sh_env s) (sh_exit s) (sh_arg0 s) (sh_params s) (sh_nparams s) f n (sh_funcs s) (sh_wbuf s)
    (sh_fds s) (sh_out s) (sh_pipes s) (sh_kw s).
Definition with_funcs (fs : list func) (s : shell kw) : shell kw :=
  Shell (sh_env s) (sh_exit s) (sh_arg0 s) (sh_params s) (sh_nparams s) (sh_flow s) (sh_flow_n s) fs (sh_wbuf s)
    (sh_fds s) (sh_out s) (sh_pipes s) (sh_kw s).
Definition with_wbuf (w : bytes) (s : shell kw) : shell kw :=
  Shell (sh_env s) (sh_exit s) (sh_arg0 s) (sh_params s) (sh_nparams s) (sh_flow s) (sh_flow_n s) (sh_funcs s) w
    (sh_fds s) (sh_out s) (sh_pipes s) (sh_kw s).
Definition with_fds (f : fdt) (s : shell kw) : shell kw :=
  Shell (sh_env s) (sh_exit s) (sh_arg0 s) (sh_params s) (sh_nparams s) (sh_flow s) (sh_flow_n s) (sh_funcs s) (sh_wbuf s)
    f (sh_out s) (sh_pipes s) (sh_kw s).
Definition with_out (o : list (sink * bytes)) (s : shell kw) : shell kw :=
  Shell (sh_env s) (sh_exit s) (sh_arg0 s) (sh_params s) (sh_nparams s) (sh_flow s) (sh_flow_n s) (sh_funcs s) (sh_wbuf s)
    (sh_fds s) o (sh_pipes s) (sh_kw s).
Definition with_pipes (n : nat) (s : shell kw) : shell kw :=
  Shell (sh_env s) (sh_exit s) (sh_arg0 s) (sh_params s) (sh_nparams s) (sh_flow s) (sh_flow_n s) (sh_funcs s) (sh_wbuf s)
    (sh_fds s) (sh_out s) n (sh_kw s).
Definition with_kw (w : kw) (s : shell kw) : shell kw :=
  Shell (sh_env s) (sh_exit s) (sh_arg0 s) (sh_params s) (sh_nparams s) (sh_flow s) (sh_flow_n s) (sh_funcs s) (sh_wbuf s)
    (sh_fds s) (sh_out s) (sh_pipes s) w.

Inductive res (A : Type) :=
  | Done (a : A) (s : shell kw)
  | Quit (code : Z) (s : shell kw)
  | Wild
  | Spent.

Definition sh (A : Type) : Type := shell kw -> res A.

End Shell.
Arguments Done {kw A}. Arguments Quit {kw A}. Arguments Wild {kw A}. Arguments Spent {kw A}.
Arguments sh : clear implicits.
Arguments res : clear implicits.

#[global] Instance sh_ret kw : MRet (sh kw) := λ _ a s, Done a s.
#[global] Instance sh_bind kw : MBind (sh kw) := λ _ _ f m s,
  match m s with Done a s' => f a s' | Quit c s' => Quit c s' | Wild => Wild | Spent => Spent end.

Definition gets {kw A} (f : shell kw -> A) : sh kw A := λ s, Done (f s) s.
Definition modify {kw} (f : shell kw -> shell kw) : sh kw () := λ s, Done tt (f s).
Definition wild {kw A} : sh kw A := λ _, Wild.
Definition spent {kw A} : sh kw A := λ _, Spent.
Definition quit {kw A} (c : Z) : sh kw A := λ s, Quit c s.

(** A kernel call. *)
Definition kernel {kw A} (f : kw -> A * kw) : sh kw A := λ s, let '(a, w) := f (sh_kw s) in Done a (with_kw w s).

Definition set_exit {kw} (x : Z) : sh kw () := modify (with_exit x).
Definition get_exit {kw} : sh kw Z := gets sh_exit.
Definition put_out {kw} (t : bytes) : sh kw () := modify (λ s, with_out ((fd_out (sh_fds s), t) :: sh_out s) s).
Definition wrote {kw} (l : list (sink * bytes)) : sh kw () := modify (λ s, with_out (rev l ++ sh_out s) s).

(** ** Field builder *)

Record fb := Fb {
  fb_argv : list nat;     (** offsets in the arena *)
  fb_max : nat;
  fb_arena : bytes;
  fb_used : nat;
  fb_cap : nat;
  fb_start : nat;
  fb_has : bool;
  fb_quoted : bool;
  fb_noglob : bool
}.

(** Store a byte at [u], inside or at the end of what was written. *)
Definition aput (a : bytes) (u : nat) (c : byte) : bytes := take u a ++ c :: drop (S u) a.

(** The string at an offset. *)
Definition astr (a : bytes) (u : nat) : bytes := cstr (drop u a).

Definition fb_putc (b : fb) (c : byte) : fb :=
  if (fb_used b <? fb_cap b - 1)%nat
  then Fb (fb_argv b) (fb_max b) (aput (fb_arena b) (fb_used b) c) (S (fb_used b)) (fb_cap b) (fb_start b) true
         (fb_quoted b) (fb_noglob b)
  else b.

Definition fb_puts (b : fb) (s : bytes) : fb := foldl fb_putc b s.

Definition fb_quote (b : fb) : fb :=
  Fb (fb_argv b) (fb_max b) (fb_arena b) (fb_used b) (fb_cap b) (fb_start b) (fb_has b) true (fb_noglob b).

(** A NUL if there is room for one. *)
Definition fb_nul (b : fb) : fb :=
  if (fb_used b <? fb_cap b)%nat
  then Fb (fb_argv b) (fb_max b) (aput (fb_arena b) (fb_used b) NUL) (S (fb_used b)) (fb_cap b) (fb_start b) (fb_has b)
         (fb_quoted b) (fb_noglob b)
  else b.

Definition fb_arg (b : fb) (off : nat) : fb :=
  if (length (fb_argv b) <? fb_max b)%nat
  then Fb (fb_argv b ++ [off]) (fb_max b) (fb_arena b) (fb_used b) (fb_cap b) (fb_start b) (fb_has b) (fb_quoted b)
         (fb_noglob b)
  else b.

(** Start the next field. *)
Definition fb_next (b : fb) : fb :=
  Fb (fb_argv b) (fb_max b) (fb_arena b) (fb_used b) (fb_cap b) (fb_used b) false false (fb_noglob b).

(** One match of [glob], copied behind the field; [None] if the pointer would lie
    outside the arena. *)
Definition fb_match (ob : option fb) (m : bytes) : option fb :=
  match ob with
  | None => None
  | Some b =>
      if (length (fb_argv b) <? fb_max b)%nat then
        if (fb_cap b <=? fb_used b)%nat then None
        else let off := fb_used b in
             let h := fb_has b in
             let b := fb_nul (fb_puts b m) in
             Some (fb_arg (Fb (fb_argv b) (fb_max b) (fb_arena b) (fb_used b) (fb_cap b) (fb_start b) h (fb_quoted b)
                             (fb_noglob b)) off)
      else Some b
  end.

Definition is_glob_char (c : byte) : bool := (c =? 42) || (c =? 63) || (c =? 91).

(** The values of the fields. *)
Definition fb_values (b : fb) : list bytes := astr (fb_arena b) <$> fb_argv b.

Section Expand.

Context {kw : Type} `{K : Kernel kw}.

(** [run_program], which command substitution calls in a child. *)
Context (run_program : bytes -> sh kw ()).

Definition fb_finish (b : fb) : sh kw fb :=
  if negb (fb_has b) then mret b else
  let b := fb_nul b in
  let field := astr (fb_arena b) (fb_start b) in
  if negb (fb_quoted b) && negb (fb_noglob b) && existsb is_glob_char field then
    ms ← gets (λ s, k_glob field (sh_kw s));
    match ms with
    | [] => mret (fb_next (fb_arg b (fb_start b)))
    | _ => match foldl fb_match (Some b) ms with
           | None => wild
           | Some b => mret (fb_next b)
           end
    end
  else mret (fb_next (fb_arg b (fb_start b))).

Definition is_ifs (c : byte) : bool := (c =? SP) || (c =? TAB) || (c =? LF).

(** Split on white space: every run of it ends a field. *)
Fixpoint fb_split (v : bytes) (skipping : bool) (b : fb) : sh kw fb :=
  match v with
  | [] => mret b
  | c :: v =>
      if is_ifs c then
        if skipping then fb_split v true b
        else b ← fb_finish b; fb_split v true b
      else fb_split v false (fb_putc b c)
  end.

Definition fb_emit_value (b : fb) (v : bytes) (unquoted : bool) : sh kw fb :=
  if unquoted then fb_split v false b else mret (fb_puts b v).

(** [sh_capture] into an empty buffer of [cap] bytes: the child runs [cmd] with its
    output connected to a pipe; only what it wrote and what it did to the
    surroundings remain. *)
Definition sh_capture (cmd : bytes) (cap : nat) : sh kw bytes := λ s,
  let '(ok, w) := k_fork (sh_kw s) in
  if negb ok then Done [] (with_kw w s) else
  let n := sh_pipes s in
  let fds := sh_fds s in
  let child := with_pipes (S n) (with_fds (Fds (fd_in fds) (OutPipe n) (fd_err fds)) (with_out [] (with_kw w s))) in
  let finish (c : shell kw) :=
    let mine := λ x : sink * bytes, bool_decide (x.1 = OutPipe n) in
    let text := concat (snd <$> rev (List.filter mine (sh_out c))) in
    let rest := List.filter (λ x, negb (mine x)) (sh_out c) in
    Done (cstr (rstrip (is_c LF) (take (cap - 1) text)))
      (with_pipes (sh_pipes c) (with_out (rest ++ sh_out s) (with_kw (sh_kw c) s))) in
  match run_program (take (LINE_SIZE - 1) cmd) child with
  | Done _ c => finish c
  | Quit _ c => finish c
  | Wild => Wild
  | Spent => Spent
  end.

(** Text of a parameter. *)
Definition ptr_text (p : ptr) : sh kw bytes :=
  match p with PNull => mret [] | PStr s => mret s | PWild => wild end.

Fixpoint params_text (ps : list ptr) : sh kw bytes :=
  match ps with
  | [] => mret []
  | p :: ps => t ← ptr_text p; r ← params_text ps;
               mret (match ps with [] => t | _ => t ++ SP :: r end)
  end.

(** The text up to the parenthesis that closes [depth] open ones, and the rest
    from that parenthesis on. *)
Fixpoint until_close (depth : nat) (s : bytes) : bytes * bytes :=
  match s with
  | [] => ([], [])
  | c :: r =>
      if c =? LPAR then let '(a, b) := until_close (S depth) r in (c :: a, b)
      else if c =? RPAR then
        match depth with
        | O => ([], s)
        | S d => let '(a, b) := until_close d r in (c :: a, b)
        end
      else let '(a, b) := until_close depth r in (c :: a, b)
  end.

Definition skip_char (c : byte) (s : bytes) : bytes :=
  match s with d :: r => if d =? c then r else s | [] => [] end.

Definition env_or_param (name : bytes) : sh kw bytes := gets (λ s, default [] (env_get name (sh_env s))).

(** [read_dollar] after the '$', for a buffer of [outcap] bytes: the value and the
    rest of the word. *)
Definition read_dollar (expand_one : bytes -> nat -> sh kw bytes) (p : bytes) (outcap : nat) : sh kw (bytes * bytes) :=
  let out (v : bytes) (r : bytes) := mret (take (outcap - 1) v, r) in
  match p with
  | [] => out [DOLLAR] p
  | c :: r =>
      if c =? 63 then x ← get_exit; out (print_dec x) r
      else if c =? DOLLAR then out (print_dec k_pid) r
      else if c =? HASH then n ← gets sh_nparams; out (print_dec (Z.of_nat n)) r
      else if (c =? 64) || (c =? 42) then
        ps ← gets (λ s, take (sh_nparams s) (sh_params s)); t ← params_text ps; out t r
      else if is_decimal c then
        let idx := Z.to_nat (c - 48) in
        if (idx =? 0)%nat then a ← gets sh_arg0; out a r
        else n ← gets sh_nparams;
             if (idx <=? n)%nat
             then q ← gets (λ s, default PNull (sh_params s !! (idx - 1)%nat)); t ← ptr_text q; out t r
             else out [] r
      else if c =? LPAR then
        match r with
        | d :: r' =>
            if d =? LPAR then
              let '(ex, r) := until_close 0 r' in
              let r := skip_char RPAR (skip_char RPAR r) in
              ex2 ← expand_one (take (LINE_SIZE - 1) ex) LINE_SIZE;
              en ← gets sh_env;
              match arith_eval ex2 en with
              | AVal v _ en => _ ← modify (with_env en); out (print_dec v) r
              | AUndef => wild
              | AFuel => spent
              end
            else
              let '(cmd, r) := until_close 0 r in
              t ← sh_capture (take (LINE_SIZE - 1) cmd) outcap; mret (t, skip_char RPAR r)
        | [] => t ← sh_capture [] outcap; mret (t, [])
        end
      else if c =? 123 then
        let '(nm, r) := span_n 127 (not_c 125) r in
        v ← env_or_param nm; out v (skip_char 125 r)
      else if is_name_start c then
        let '(nm, r) := span_n 127 is_name_char p in
        v ← env_or_param nm; out v r
      else out [DOLLAR] p
  end.

(** Back-quoted command at the front of [r]. *)
Definition read_back (r : bytes) : sh kw (bytes * bytes) :=
  t ← sh_capture (take (LINE_SIZE - 1) (take_while (not_c BQ) r)) LINE_SIZE;
  mret (t, skip_char BQ (drop_while (not_c BQ) r)).

Definition fb_of (max cap start : nat) (arena : bytes) (noglob : bool) : fb :=
  Fb [] max arena start cap start false false noglob.

Definition join_fields (vs : list bytes) : bytes := join SP vs.

(** The loop of [expand_word]; [dq] says that it is inside double quotes. *)
Fixpoint expand_chars (fuel : nat) (dq : bool) (p : bytes) (b : fb) : sh kw fb :=
  match fuel with
  | O => spent
  | S fuel =>
      let expand_one (raw : bytes) (outcap : nat) : sh kw bytes :=
        b ← expand_chars fuel false raw (fb_of 16 LINE_SIZE 0 [] true);
        b ← fb_finish b;
        mret (take (outcap - 1) (join_fields (fb_values b))) in
      match p with
      | [] => mret b
      | c :: r =>
          if dq then
            if c =? DQ then expand_chars fuel false r b
            else if c =? DOLLAR then
              '(v, q) ← read_dollar expand_one r LINE_SIZE;
              expand_chars fuel true q (fb_puts b v)
            else if c =? BQ then
              '(v, q) ← read_back r;
              expand_chars fuel true q (fb_puts b v)
            else match r with
                 | d :: r' =>
                     if (c =? BSL) && ((d =? DQ) || (d =? BSL) || (d =? DOLLAR) || (d =? BQ))
                     then expand_chars fuel true r' (fb_putc b d)
                     else expand_chars fuel true r (fb_putc b c)
                 | [] => expand_chars fuel true r (fb_putc b c)
                 end
          else if c =? SQ then
            expand_chars fuel false (skip_char SQ (drop_while (not_c SQ) r)) (fb_puts (fb_quote b) (take_while (not_c SQ) r))
          else if c =? DQ then expand_chars fuel true r (fb_quote b)
          else if c =? BSL then
            match r with
            | d :: r' => expand_chars fuel false r' (fb_putc (fb_quote b) d)
            | [] => expand_chars fuel false [] (fb_quote b)
            end
          else if c =? DOLLAR then
            '(v, q) ← read_dollar expand_one r LINE_SIZE;
            b ← fb_emit_value b v true;
            expand_chars fuel false q b
          else if c =? BQ then
            '(v, q) ← read_back r;
            b ← fb_emit_value b v true;
            expand_chars fuel false q b
          else expand_chars fuel false r (fb_putc b c)
      end
  end.

Definition expand_word (raw : bytes) (b : fb) : sh kw fb :=
  b ← expand_chars (S (length raw)) false raw b; fb_finish b.

Definition expand_one (raw : bytes) (outcap : nat) : sh kw bytes :=
  b ← expand_word raw (fb_of 16 LINE_SIZE 0 [] true);
  mret (take (outcap - 1) (join_fields (fb_values b))).

(** All words of a command into one arena. *)
Fixpoint expand_words (raw : list bytes) (b : fb) : sh kw fb :=
  match raw with
  | [] => mret b
  | w :: raw => b ← expand_word w (fb_next b); expand_words raw b
  end.

End Expand.
