(* ===== verification/StshRun.v ===== *)
(** The executor of stsh (src/user/bin/stsh/run.c from [is_assignment] on, exec.c,
    main.c): builtins, redirections, simple commands, pipelines, control flow and
    functions.

    The code parses and executes in one pass over the token array.  A position in
    it, the index [*pi] of the source, is the list of the tokens from there on.
    With [run] false a construct is passed over.  The parameter [in_loop] of the
    source is never looked at and is left out. *)

From S2P Require Import Prelude CString Posix StshEnv StshLexer StshArith StshExpand.
Local Open Scope Z_scope.

(** * Definitions *)

Abbreviation pos := (list tok_t).

Definition ty (p : pos) : toktype_t := match p with t :: _ => t_type t | [] => T_EOF end.
Definition ty_is (t : toktype_t) (p : pos) : bool := bool_decide (ty p = t).

Definition is_kw (p : pos) (w : string) : bool :=
  match p with
  | Tok T_WORD (Some t) :: _ => beq t (B w)
  | _ => false
  end.

Definition tok_text (p : pos) : bytes := match p with Tok _ (Some t) :: _ => t | _ => [] end.

Fixpoint skip_seps (p : pos) : pos :=
  match p with
  | t :: q => if decide (t_type t = T_NEWLINE \/ t_type t = T_SEMI) then skip_seps q else p
  | [] => []
  end.

Fixpoint skip_newlines (p : pos) : pos :=
  match p with t :: q => if decide (t_type t = T_NEWLINE) then skip_newlines q else p | [] => [] end.

Definition skip_kw (w : string) (p : pos) : pos := if is_kw p w then tail p else p.
Definition skip_tok (t : toktype_t) (p : pos) : pos := if ty_is t p then tail p else p.

Definition at_block_end (p : pos) : bool :=
  ty_is T_EOF p || ty_is T_RPAREN p || is_kw p "then" || is_kw p "else" || is_kw p "elif" || is_kw p "fi" ||
  is_kw p "do" || is_kw p "done" || is_kw p "esac" || is_kw p "}".

Definition is_compound_start (p : pos) : bool :=
  ty_is T_LPAREN p || is_kw p "if" || is_kw p "for" || is_kw p "while" || is_kw p "until" || is_kw p "case" || is_kw p "{".

(** ** Parsing a simple command *)

Definition set_stdin (c : cmd_t) (f : bytes) : cmd_t :=
  Cmd (c_argv c) (Some f) (c_stdout c) (c_append c) (c_stderr c) (c_err2out c) (c_dup c) (c_heredoc c).
Definition set_stdout (c : cmd_t) (f : bytes) (app : bool) : cmd_t :=
  Cmd (c_argv c) (c_stdin c) (Some f) app (c_stderr c) (c_err2out c) (c_dup c) (c_heredoc c).
Definition set_stderr (c : cmd_t) (f : bytes) : cmd_t :=
  Cmd (c_argv c) (c_stdin c) (c_stdout c) (c_append c) (Some f) (c_err2out c) (c_dup c) (c_heredoc c).
Definition set_err2out (c : cmd_t) : cmd_t :=
  Cmd (c_argv c) (c_stdin c) (c_stdout c) (c_append c) (c_stderr c) true (c_dup c) (c_heredoc c).
Definition set_dup (c : cmd_t) (n : Z) : cmd_t :=
  Cmd (c_argv c) (c_stdin c) (c_stdout c) (c_append c) (c_stderr c) (c_err2out c) n (c_heredoc c).
Definition set_heredoc (c : cmd_t) (b : bytes) : cmd_t :=
  Cmd (c_argv c) (c_stdin c) (c_stdout c) (c_append c) (c_stderr c) (c_err2out c) (c_dup c) (Some b).
Definition set_argv (c : cmd_t) (a : list bytes) : cmd_t :=
  Cmd a (c_stdin c) (c_stdout c) (c_append c) (c_stderr c) (c_err2out c) (c_dup c) (c_heredoc c).

(** The effect of a redirection operator with the word after it. *)
Definition redirect (t : toktype_t) (w : bytes) (c : cmd_t) : option cmd_t :=
  match t with
  | T_LT => Some (set_stdin c w)
  | T_DLESS => Some (set_heredoc c w)
  | T_GT => Some (set_stdout c w false)
  | T_GTGT => Some (set_stdout c w true)
  | T_DGT => Some (set_stderr c w)
  | T_GTAMP => Some (set_dup c (atoi w))
  | _ => None
  end.

(** The raw words, the redirections and the position after the command. *)
Fixpoint parse_simple (p : pos) (raw : list bytes) (c : cmd_t) : list bytes * cmd_t * pos :=
  match p with
  | [] => (raw, c, [])
  | t :: q =>
      if decide (t_type t = T_WORD) then
        if (length raw =? 0)%nat && at_block_end p then (raw, c, p)
        else parse_simple q (if (length raw <? MAX_ARGV)%nat then raw ++ [tok_text p] else raw) c
      else if decide (t_type t = T_DGTAMP) then parse_simple q raw (set_err2out c)
      else match redirect (t_type t) (tok_text q) c with
           | None => (raw, c, p)
           | Some c' =>
               match q with
               | w :: q' => if decide (t_type w = T_WORD) then parse_simple q' raw c' else parse_simple q raw c
               | [] => parse_simple q raw c
               end
           end
  end.

Definition is_assignment (w : bytes) : bool :=
  match w with
  | c :: r => is_name_start c && match drop_while is_name_char r with d :: _ => d =? EQUALS | [] => false end
  | [] => false
  end.

(** ** External commands (exec.c) *)

(** The candidates of a PATH search. *)
Definition path_candidates (path name : bytes) : list bytes :=
  (λ d, d ++ SLASH :: name) <$>
    filter (λ d, (0 < length d)%nat /\ Z.of_nat (length d) < 512 - 2 - Z.of_nat (length name)) (split_on COLON path).

(** What [exec_cmd] tries. *)
Definition exec_paths (name : bytes) (en : env) : list bytes :=
  if has_char SLASH name then [name]
  else
    let path := match env_get (B "PATH") en with Some (_ :: _ as p) => p | _ => B "/bin:/usr/bin" end in
    path_candidates path name ++ [fit 512 (B "/apps/" ++ name ++ SLASH :: name)].

Definition opt_act {A} (o : option A) (f : A -> fdact) : list fdact := match o with Some a => [f a] | None => [] end.

(** What the child of stage [i] of [n] does to its descriptors. *)
Definition stage_fds (i n : nat) (c : cmd_t) : list fdact :=
  (if (0 <? i)%nat then [FPipeIn (i - 1)] else []) ++
  (if (i <? n - 1)%nat then [FPipeOut i] else []) ++
  opt_act (c_stdin c) FOpenIn ++
  opt_act (c_heredoc c) (λ b, FHere (take 4000 b)) ++
  opt_act (c_stdout c) (λ f, FOpenOut f (c_append c)) ++
  opt_act (c_stderr c) FOpenErr ++
  (if c_err2out c then [FErrToOut] else []) ++
  (if c_dup c =? 0 then [] else [FDup (c_dup c)]).

Definition stages (cmds : list cmd_t) (en : env) : list stage :=
  imap (λ i c, Stage (c_argv c) en (match c_argv c with name :: _ => exec_paths name en | [] => [] end)
                 (stage_fds i (length cmds) c)) cmds.

Definition wait_code (st : wstatus) : Z := match st with Exited c => c | Signaled g => 128 + g end.

Definition builtin_names : list bytes :=
  B <$> ["cd"; "exit"; "export"; "unset"; "set"; "read"; "shift"; "return"; "break"; "continue"; ":"; "true"; "false";
         "."; "source"; "exec"; "env"; "command"; "umask"; "type"; "caps"; "sandbox"; "grant"; "admin"; "deadmin"; "help"]%string.

Definition is_builtin_name (n : bytes) : bool := bool_decide (n ∈ builtin_names).

Definition func_find (name : bytes) (fs : list func) : option func := find (λ f, beq (fn_name f) name) fs.

(** The function table after a definition. *)
Fixpoint func_replace (f : func) (fs : list func) : option (list func) :=
  match fs with
  | [] => None
  | g :: fs => if beq (fn_name g) (fn_name f) then Some (f :: fs) else cons g <$> func_replace f fs
  end.

Definition func_define (f : func) (fs : list func) : list func :=
  match func_replace f fs with
  | Some fs => fs
  | None => if (length fs <? MAX_FUNCS)%nat then fs ++ [f] else fs
  end.

Fixpoint print_base8 (fuel : nat) (n : Z) (acc : bytes) : bytes :=
  match fuel with
  | O => acc
  | S fuel => let acc := (48 + n mod 8) :: acc in if n <? 8 then acc else print_base8 fuel (n / 8) acc
  end.

(** printf("%03o\n", n) *)
Definition print_umask (n : Z) : bytes :=
  let t := print_base8 22 n [] in repeat 48 (3 - length t) ++ t ++ [LF].

Section Run.

Context {kw : Type} `{K : Kernel kw}.

Definition run_set_params (arg0 : bytes) (ps : list ptr) : sh kw () :=
  let ps := take MAX_PARAMS ps in
  modify (λ s, with_params arg0 (ps ++ drop (length ps) (sh_params s)) (length ps) s).

Definition run_pipeline (cmds : list cmd_t) : sh kw () :=
  if (length cmds <? 1)%nat || (MAX_PIPELINE <? length cmds)%nat then set_exit 1 else
  en ← gets sh_env; fds ← gets sh_fds;
  '(r, out) ← kernel (k_pipeline fds false (stages cmds en));
  _ ← wrote out;
  set_exit (match r with Some sts => match last sts with Some st => wait_code st | None => 1 end | None => 1 end).

Definition run_pipeline_bg (cmds : list cmd_t) : sh kw () :=
  en ← gets sh_env; fds ← gets sh_fds;
  '(_, out) ← kernel (k_pipeline fds true (stages cmds en));
  wrote out.

(** ** Redirections of builtins and functions *)

Record saved := Saved { sv_in : option source; sv_out : option sink; sv_err : option sink }.

Definition set_fds (f : fdt -> fdt) : sh kw () := modify (λ s, with_fds (f (sh_fds s)) s).

(** A step of [redir_apply]; [None] is the result -1, with what was redirected so
    far left as it is. *)
Definition redir_step (m : sh kw (option saved)) (f : saved -> sh kw (option saved)) : sh kw (option saved) :=
  r ← m; match r with Some sv => f sv | None => mret None end.

Definition redir_apply (c : cmd_t) : sh kw (option saved) :=
  redir_step (redir_step (redir_step (redir_step (redir_step (redir_step
    (mret (Some (Saved None None None)))
    (λ sv, match c_stdin c with
           | None => mret (Some sv)
           | Some f =>
               ok ← gets (λ s, k_open_in f (sh_kw s));
               if negb ok then mret None else
               fds ← gets sh_fds;
               _ ← set_fds (λ d, Fds (InFile f) (fd_out d) (fd_err d));
               mret (Some (Saved (Some (fd_in fds)) (sv_out sv) (sv_err sv)))
           end))
    (λ sv, match c_heredoc c with
           | None => mret (Some sv)
           | Some body =>
               ok ← kernel k_pipe;
               if negb ok then mret (Some sv) else
               fds ← gets sh_fds;
               _ ← set_fds (λ d, Fds (InHere (take 4000 body)) (fd_out d) (fd_err d));
               mret (Some (Saved (match sv_in sv with Some x => Some x | None => Some (fd_in fds) end) (sv_out sv) (sv_err sv)))
           end))
    (λ sv, match c_stdout c with
           | None => mret (Some sv)
           | Some f =>
               ok ← kernel (k_open_out f (c_append c));
               if negb ok then mret None else
               fds ← gets sh_fds;
               _ ← set_fds (λ d, Fds (fd_in d) (OutFile f (c_append c)) (fd_err d));
               mret (Some (Saved (sv_in sv) (Some (fd_out fds)) (sv_err sv)))
           end))
    (λ sv, match c_stderr c with
           | None => mret (Some sv)
           | Some f =>
               ok ← kernel (k_open_out f false);
               if negb ok then mret None else
               fds ← gets sh_fds;
               _ ← set_fds (λ d, Fds (fd_in d) (fd_out d) (OutFile f false));
               mret (Some (Saved (sv_in sv) (sv_out sv) (Some (fd_err fds))))
           end))
    (λ sv, if negb (c_err2out c) then mret (Some sv) else
           fds ← gets sh_fds;
           _ ← set_fds (λ d, Fds (fd_in d) (fd_out d) (fd_out d));
           mret (Some (Saved (sv_in sv) (sv_out sv) (Some (fd_err fds))))))
    (λ sv, if c_dup c =? 0 then mret (Some sv) else
           fds ← gets sh_fds;
           _ ← set_fds (λ d, Fds (fd_in d) (if c_dup c =? 2 then fd_err d else fd_out d) (fd_err d));
           mret (Some (Saved (sv_in sv) (match sv_out sv with Some x => Some x | None => Some (fd_out fds) end) (sv_err sv)))).

Definition redir_restore (sv : saved) : sh kw () :=
  set_fds (λ d, Fds (default (fd_in d) (sv_in sv)) (default (fd_out d) (sv_out sv)) (default (fd_err d) (sv_err sv))).

Definition need_redir (c : cmd_t) : bool :=
  match c_stdin c, c_heredoc c, c_stdout c, c_stderr c with None, None, None, None => c_err2out c | _, _, _, _ => true end.

(** Run [m] under the redirections of [c]. *)
Definition redirected (c : cmd_t) (m : sh kw ()) : sh kw Z :=
  if need_redir c then
    r ← redir_apply c;
    match r with
    | None => _ ← set_exit 1; mret 1
    | Some sv => _ ← m; _ ← redir_restore sv; get_exit
    end
  else _ ← m; get_exit.

(** ** Builtins *)

Definition find_in_path (name : bytes) : sh kw (option bytes) :=
  if has_char SLASH name then
    ok ← gets (λ s, k_exec_ok name (sh_kw s)); mret (if ok : bool then Some (fit 512 name) else None)
  else
    gets (λ s, fit 512 <$> find (λ c, k_exec_ok c (sh_kw s))
                 (path_candidates (default (B "/bin") (env_get (B "PATH") (sh_env s))) name)).

Definition arg_int (argv : list bytes) (dflt : Z) : Z := match argv !! 1%nat with Some a => atoi a | None => dflt end.

(** [shift n]; a negative count reads in front of the array. *)
Definition do_shift (n : Z) : sh kw () :=
  if n <? 0 then wild else
  modify (λ s, let np := sh_nparams s in
               let n := Nat.min (Z.to_nat n) np in
               let ps := sh_params s in
               with_params (sh_arg0 s) (take (np - n) (drop n ps) ++ drop (np - n) ps) (np - n) s).

(** The variables of [read] and the words of the line. *)
Fixpoint read_vars (vars toks : list bytes) : sh kw () :=
  match vars with
  | [] => mret tt
  | [v] => modify (λ s, with_env (env_set v (join SP toks) (sh_env s)) s)
  | v :: vars =>
      _ ← modify (λ s, with_env (env_set v (default [] (head toks)) (sh_env s)) s);
      read_vars vars (tail toks)
  end.

Fixpoint unset_each (l : list bytes) (en : env) : env :=
  match l with [] => en | k :: l => unset_each l (default en (env_unset k en)) end.

Definition export_each (l : list bytes) (en : env) : env :=
  foldl (λ en a, match cut EQUALS a with Some (k, v) => env_set k v en | None => en end) en l.

Fixpoint type_each (l : list bytes) (rc : Z) : sh kw Z :=
  match l with
  | [] => mret rc
  | nm :: l =>
      fs ← gets sh_funcs;
      match func_find nm fs with
      | Some _ => _ ← put_out (nm ++ B " is a function" ++ [LF]); type_each l rc
      | None =>
          if is_builtin_name nm then _ ← put_out (nm ++ B " is a shell builtin" ++ [LF]); type_each l rc
          else f ← find_in_path nm;
               match f with
               | Some p => _ ← put_out (nm ++ B " is " ++ p ++ [LF]); type_each l rc
               | None => type_each l 1
               end
      end
  end.

Section Builtins.

Context (run_program : bytes -> sh kw ()).

Definition run_script (path : bytes) (args : list bytes) : sh kw Z :=
  f ← gets (λ s, k_file path (sh_kw s));
  match f with
  | None => _ ← set_exit 127; mret 127
  | Some data =>
      s0 ← gets sh_arg0; sp ← gets (λ s, take (sh_nparams s) (sh_params s));
      _ ← run_set_params path (PStr <$> args);
      _ ← run_program (cstr (take (2 ^ 18 - 1) data));
      _ ← run_set_params s0 sp;
      get_exit
  end.

Definition shell_builtin (argv : list bytes) : sh kw () :=
  match argv with
  | [] => mret tt
  | c :: args =>
      let named w := beq c (B w) in
      if named "command"%string then
        match args with
        | flag :: nm :: _ =>
            if beq flag (B "-v") || beq flag (B "-V") then
              fs ← gets sh_funcs;
              match func_find nm fs with
              | Some _ => _ ← put_out (nm ++ [LF]); set_exit 0
              | None =>
                  if is_builtin_name nm then _ ← put_out (nm ++ [LF]); set_exit 0
                  else p ← find_in_path nm;
                       match p with
                       | Some p => _ ← put_out (p ++ [LF]); set_exit 0
                       | None => set_exit 1
                       end
              end
            else run_pipeline [set_argv no_cmd args]
        | _ :: _ => run_pipeline [set_argv no_cmd args]
        | [] => set_exit 0
        end
      else if named ":"%string || named "true"%string then set_exit 0
      else if named "false"%string then set_exit 1
      else if named "break"%string then _ ← modify (with_flow FLOW_BREAK (arg_int argv 1)); set_exit 0
      else if named "continue"%string then _ ← modify (with_flow FLOW_CONTINUE (arg_int argv 1)); set_exit 0
      else if named "return"%string then
        x ← get_exit; n ← gets sh_flow_n; _ ← modify (with_flow FLOW_RETURN n); set_exit (arg_int argv x)
      else if named "shift"%string then _ ← do_shift (arg_int argv 1); set_exit 0
      else if named "unset"%string then _ ← modify (λ s, with_env (unset_each args (sh_env s)) s); set_exit 0
      else if named "export"%string then
        _ ← (match args with
             | [] => en ← gets sh_env; put_out (env_print_all en)
             | _ => modify (λ s, with_env (export_each args (sh_env s)) s)
             end);
        set_exit 0
      else if named "set"%string then
        _ ← (match args with
             | a :: ps => if beq a (B "--") then a0 ← gets sh_arg0; run_set_params a0 (PStr <$> ps) else mret tt
             | [] => mret tt
             end);
        set_exit 0
      else if named "read"%string then
        src ← gets (λ s, fd_in (sh_fds s));
        l ← kernel (k_getline src);
        match l with
        | None => set_exit 1
        | Some line => _ ← read_vars args (tokens is_tabspace (cstr (take (LINE_SIZE - 1) line))); set_exit 0
        end
      else if named "cd"%string then
        en ← gets sh_env;
        let path := match args with p :: _ => p | [] => default (B "/") (env_get (B "HOME") en) end in
        ok ← kernel (k_chdir path);
        set_exit (if ok : bool then 0 else 1)
      else if named "exit"%string then x ← get_exit; quit (arg_int argv x)
      else if named "."%string || named "source"%string then
        match args with
        | f :: ps => _ ← run_script f ps; mret tt
        | [] => set_exit 1
        end
      else if named "exec"%string then
        match args with
        | [] => mret tt
        | prog :: _ =>
            full ← (if starts_with [SLASH] prog then mret (Some prog) else find_in_path prog);
            match full with
            | None => set_exit 127
            | Some full =>
                en ← gets sh_env; fds ← gets sh_fds;
                '(r, out) ← kernel (k_exec fds (Stage args en [full] []));
                _ ← wrote out;
                match r with Some code => quit code | None => set_exit 127 end
            end
        end
      else if named "umask"%string then
        match args with
        | [] => m ← kernel (k_umask None); _ ← put_out (print_umask m); set_exit 0
        | a :: _ => _ ← kernel (k_umask (Some (digits_value 8 (take_while (is_digit_of 8) a)))); set_exit 0
        end
      else if named "type"%string then rc ← type_each args 0; set_exit rc
      else if named "env"%string then en ← gets sh_env; _ ← put_out (env_print_all en); set_exit 0
      else if named "help"%string then
        _ ← put_out (B "stsh: POSIX-ish shell (if/for/while/case, functions, globbing)" ++ [LF]); set_exit 0
      else if named "caps"%string || named "sandbox"%string || named "grant"%string || named "admin"%string || named "deadmin"%string then
        en ← gets sh_env;
        '(x, out) ← kernel (k_caps argv en);
        _ ← put_out out; set_exit x
      else mret tt
  end.

End Builtins.

(** ** Commands *)

Section Commands.

Context (run_list run_and_or : pos -> bool -> sh kw (pos * Z)) (run_program : bytes -> sh kw ()).

Definition get_status {A} (p : A) : sh kw (A * Z) := x ← get_exit; mret (p, x).

(** Leading assignments; the words that are left and whether there were any. *)
Fixpoint assign_all (raw : list bytes) (had : bool) : sh kw (list bytes * bool) :=
  match raw with
  | w :: raw' =>
      if is_assignment w then
        match cut EQUALS w with
        | Some (k, rhs) =>
            v ← expand_one run_program rhs LINE_SIZE;
            _ ← modify (λ s, with_env (env_set k v (sh_env s)) s);
            assign_all raw' true
        | None => mret (raw, had)
        end
      else mret (raw, had)
  | [] => mret ([], had)
  end.

Definition expand_opt (o : option bytes) : sh kw (option bytes) :=
  match o with
  | None => mret None
  | Some w => v ← expand_one run_program w LINE_SIZE; mret (Some v)
  end.

Definition expand_redirs (c : cmd_t) : sh kw cmd_t :=
  i ← expand_opt (c_stdin c); o ← expand_opt (c_stdout c); e ← expand_opt (c_stderr c);
  mret (Cmd (c_argv c) i o (c_append c) e (c_err2out c) (c_dup c) (c_heredoc c)).

Definition argbuf : fb := fb_of MAX_ARGV (LINE_SIZE * 2) 0 [] false.

(** The parameters that [set --] stored point into the buffer of the command, which
    is gone when it returns. *)
Definition dangle (argv : list bytes) : sh kw () :=
  match argv with
  | c :: a :: _ =>
      if beq c (B "set") && beq a (B "--")
      then modify (λ s, with_params (sh_arg0 s) (repeat PWild (sh_nparams s) ++ drop (sh_nparams s) (sh_params s)) (sh_nparams s) s)
      else mret tt
  | _ => mret tt
  end.

Definition call_function (f : func) (args : list bytes) : sh kw () :=
  s0 ← gets sh_arg0; sp ← gets (λ s, take (sh_nparams s) (sh_params s));
  _ ← run_set_params s0 (PStr <$> args);
  _ ← run_and_or (fn_toks f) true;
  _ ← run_set_params s0 sp;
  fl ← gets sh_flow;
  if decide (fl = FLOW_RETURN) then modify (λ s, with_flow FLOW_NONE (sh_flow_n s) s) else mret tt.

(** What a parsed command does; [amp] says that '&' follows it. *)
Definition simple_body (raw : list bytes) (cmd : cmd_t) (amp : bool) : sh kw Z :=
  '(words, had) ← assign_all raw false;
  b ← expand_words run_program words argbuf;
  let argv := fb_values b in
  match argv with
  | [] => _ ← (if had : bool then set_exit 0 else mret tt); get_exit
  | name :: args =>
      cmd ← expand_redirs cmd;
      let cmd := set_argv cmd argv in
      fs ← gets sh_funcs;
      match func_find name fs with
      | Some f => redirected cmd (call_function f args)
      | None =>
          if is_builtin_name name then
            r ← redirected cmd (shell_builtin run_program argv);
            _ ← dangle argv;
            mret r
          else if amp then _ ← run_pipeline_bg [cmd]; _ ← set_exit 0; get_exit
          else _ ← run_pipeline [cmd]; get_exit
      end
  end.

Definition run_simple (p : pos) (run : bool) : sh kw (pos * Z) :=
  let '(raw, cmd, q) := parse_simple p [] no_cmd in
  v ← (if negb run || (length raw =? 0)%nat then get_exit else simple_body raw cmd (ty_is T_AMP q));
  mret (q, v).

(** Pass over a list up to the word that closes it. *)
Fixpoint skip_to (fuel : nat) (closer : string) (p : pos) : sh kw pos :=
  match fuel with
  | O => spent
  | S fuel =>
      if ty_is T_EOF p || is_kw p closer then mret p else
      '(q, _) ← run_and_or p false;
      let q := skip_seps q in
      skip_to fuel closer (if (length q =? length p)%nat then tail q else q)
  end.

Fixpoint if_loop (fuel : nat) (p : pos) (run taken : bool) : sh kw (pos * bool * Z) :=
  match fuel with
  | O => spent
  | S fuel =>
      '(p, cond) ← run_list p (run && negb taken);
      let p := skip_kw "then" (skip_seps p) in
      let dobody := run && negb taken && (cond =? 0) in
      '(p, result) ← run_list p dobody;
      let taken := taken || dobody in
      let p := skip_seps p in
      if is_kw p "elif" then if_loop fuel (tail p) run taken
      else if is_kw p "else" then
        let db := run && negb taken in
        '(p, result) ← run_list (tail p) db;
        mret (skip_seps p, taken || db, result)
      else mret (p, taken, result)
  end.

Definition run_if (fuel : nat) (p : pos) (run : bool) : sh kw (pos * Z) :=
  '(p, taken, result) ← if_loop fuel (tail p) run false;
  mret (skip_kw "fi" p, if taken : bool then result else 0).

(** What a loop does after its body: [None] to go on, or the flow it leaves. *)
Definition after_body : sh kw (bool) :=
  fl ← gets sh_flow; n ← gets sh_flow_n;
  match fl with
  | FLOW_NONE => mret true
  | FLOW_BREAK =>
      _ ← modify (with_flow (if n - 1 <=? 0 then FLOW_NONE else FLOW_BREAK) (n - 1)); mret false
  | FLOW_CONTINUE =>
      _ ← modify (with_flow (if n - 1 <=? 0 then FLOW_NONE else FLOW_CONTINUE) (n - 1)); mret (n - 1 <=? 0)
  | FLOW_RETURN => mret false
  end.

(** The words after [in], expanded into the static buffer. *)
Fixpoint for_words (p : pos) (run : bool) (b : fb) : sh kw (pos * fb) :=
  match p with
  | Tok T_WORD (Some w) :: q =>
      if is_kw p "do" then mret (p, b)
      else if run then b ← expand_word run_program w (fb_next b); for_words q run b
      else for_words q run b
  | _ => mret (p, b)
  end.

(** [val] of one round: an offset in the static buffer, or a parameter's index. *)
Definition for_value (v : nat + nat) : sh kw bytes :=
  match v with
  | inl off => gets (λ s, astr (sh_wbuf s) off)
  | inr k => q ← gets (λ s, default PNull (sh_params s !! k));
             match q with PStr t => mret t | _ => wild end
  end.

Fixpoint for_loop (vals : list (nat + nat)) (var : bytes) (body : pos) (result : Z) : sh kw Z :=
  match vals with
  | [] => mret result
  | v :: vals =>
      t ← for_value v;
      _ ← (match var with [] => mret tt | _ => modify (λ s, with_env (env_set var t (sh_env s)) s) end);
      '(_, result) ← run_list body true;
      go ← after_body;
      if go : bool then for_loop vals var body result else mret result
  end.

(** The end of a loop: past its [done]. *)
Definition past_done (fuel : nat) (body : pos) : sh kw pos := q ← skip_to fuel "done" body; mret (skip_kw "done" q).

Definition run_for (fuel : nat) (p : pos) (run : bool) : sh kw (pos * Z) :=
  let p := tail p in
  let '(var, p) := if ty_is T_WORD p then (take 63 (tok_text p), tail p) else ([], p) in
  wb ← gets sh_wbuf;
  let use_params := negb (is_kw p "in") in
  '(p, b) ← (if use_params then mret (p, fb_of 256 (LINE_SIZE * 8) 0 wb false)
             else for_words (tail p) run (fb_of 256 (LINE_SIZE * 8) 0 wb false));
  _ ← modify (with_wbuf (fb_arena b));
  let body := skip_kw "do" (skip_seps p) in
  if negb run then q ← past_done fuel body; get_status q else
  x ← get_exit; n ← gets sh_nparams;
  result ← for_loop (if use_params then inr <$> seq 0 n else inl <$> fb_argv b) var body x;
  q ← past_done fuel body;
  mret (q, result).

Definition WHILE_MAX : Z := 1000000.

Fixpoint while_loop (guard : nat) (cond body : pos) (is_until : bool) (result : Z) : sh kw Z :=
  match guard with
  | O => mret result
  | S guard =>
      '(_, c) ← run_list cond true;
      if negb (if is_until then negb (c =? 0) else c =? 0) then mret result else
      '(_, result) ← run_list body true;
      go ← after_body;
      if go : bool then while_loop guard cond body is_until result else mret result
  end.

Definition run_while (fuel : nat) (p : pos) (run is_until : bool) : sh kw (pos * Z) :=
  let cond := tail p in
  '(scan, _) ← run_list cond false;
  let body := skip_kw "do" scan in
  x ← get_exit;
  if negb run then q ← past_done fuel body; get_status q else
  result ← while_loop (Z.to_nat WHILE_MAX) cond body is_until x;
  q ← past_done fuel body;
  mret (q, result).

(** The patterns of a case item; whether one matched. *)
Fixpoint case_patterns (fuel : nat) (p : pos) (word : bytes) (matched this : bool) : sh kw (pos * bool) :=
  match fuel with
  | O => spent
  | S fuel =>
      '(p, this) ← (if ty_is T_WORD p then
                      pat ← expand_one run_program (tok_text p) LINE_SIZE;
                      mret (tail p, this || (negb matched && k_fnmatch pat word))
                    else mret (p, this));
      if ty_is T_PIPE p then case_patterns fuel (tail p) word matched this else mret (p, this)
  end.

Definition at_dsemi (p : pos) : bool := ty_is T_SEMI p && ty_is T_SEMI (tail p).

Fixpoint case_body (fuel : nat) (p : pos) (dobody : bool) (result : Z) : sh kw (pos * Z) :=
  match fuel with
  | O => spent
  | S fuel =>
      let p := skip_newlines p in
      if at_dsemi p || ty_is T_EOF p || is_kw p "esac" then mret (p, result) else
      '(q, s) ← run_and_or p dobody;
      let result := if dobody then s else result in
      if at_dsemi q then mret (q, result) else
      let r := if ty_is T_SEMI q || ty_is T_NEWLINE q then tail q else q in
      case_body fuel (if (length r =? length p)%nat then tail r else r) dobody result
  end.

Fixpoint case_items (fuel : nat) (p : pos) (word : bytes) (run matched : bool) (result : Z) : sh kw (pos * bool * Z) :=
  match fuel with
  | O => spent
  | S fuel =>
      if ty_is T_EOF p || is_kw p "esac" then mret (p, matched, result) else
      let p := skip_tok T_LPAREN p in
      '(p, this) ← case_patterns fuel p word matched false;
      let p := skip_tok T_RPAREN p in
      let dobody := run && negb matched && this in
      '(p, result) ← case_body fuel p dobody result;
      let matched := matched || dobody in
      let p := if at_dsemi p then tail (tail p) else p in
      case_items fuel (skip_seps p) word run matched result
  end.

Definition run_case (fuel : nat) (p : pos) (run : bool) : sh kw (pos * Z) :=
  let p := tail p in
  word ← (if ty_is T_WORD p then expand_one run_program (tok_text p) LINE_SIZE else mret []);
  let p := if ty_is T_WORD p then tail p else p in
  let p := skip_seps (skip_kw "in" p) in
  x ← get_exit;
  '(p, matched, result) ← case_items fuel p word run false x;
  mret (skip_kw "esac" p, if matched : bool then result else 0).

Definition run_brace (p : pos) (run : bool) : sh kw (pos * Z) :=
  '(q, r) ← run_list (tail p) run; mret (skip_kw "}" q, r).

(** The child of a subshell keeps nothing but its exit status, what it wrote and
    what it did to the surroundings. *)
Definition in_child (m : sh kw (pos * Z)) : sh kw Z := λ s,
  let finish (code : Z) (c : shell kw) :=
    Done (code mod 256) (with_pipes (sh_pipes c) (with_out (sh_out c) (with_kw (sh_kw c) s))) in
  match m s with
  | Done _ c => finish (sh_exit c) c
  | Quit code c => finish code c
  | Wild => Wild
  | Spent => Spent
  end.

Definition run_subshell (p : pos) (run : bool) : sh kw (pos * Z) :=
  let body := tail p in
  if negb run then '(q, _) ← run_list body false; get_status (skip_tok T_RPAREN q) else
  ok ← kernel k_fork;
  if negb ok then wild else
  code ← in_child (run_list body true);
  '(q, _) ← run_list body false;
  _ ← set_exit code;
  mret (skip_tok T_RPAREN q, code).

Definition is_funcdef (p : pos) : bool :=
  match p with
  | Tok T_WORD (Some _) :: a :: b :: _ => bool_decide (t_type a = T_LPAREN) && bool_decide (t_type b = T_RPAREN)
  | _ => false
  end.

Definition define_func (p : pos) : sh kw pos :=
  let body := skip_newlines (tail (tail (tail p))) in
  '(q, _) ← run_and_or body false;
  let f := Func (take 63 (tok_text p)) (take (length body - length q) body) in
  _ ← modify (λ s, with_funcs (func_define f (sh_funcs s)) s);
  _ ← set_exit 0;
  mret q.

Definition run_command (fuel : nat) (p : pos) (run : bool) : sh kw (pos * Z) :=
  if is_funcdef p then q ← define_func p; get_status q
  else if is_compound_start p then
    if is_kw p "if" then run_if fuel p run
    else if is_kw p "for" then run_for fuel p run
    else if is_kw p "while" then run_while fuel p run false
    else if is_kw p "until" then run_while fuel p run true
    else if is_kw p "case" then run_case fuel p run
    else if is_kw p "{" then run_brace p run
    else run_subshell p run
  else run_simple p run.

(** One stage of a pipeline, ready to run. *)
Definition expand_stage (raw : list bytes) (cmd : cmd_t) : sh kw cmd_t :=
  '(words, _) ← assign_all raw false;
  b ← expand_words run_program words argbuf;
  cmd ← expand_redirs cmd;
  mret (set_argv cmd (fb_values b)).

(** The stages of a pipeline from [p] on; [None] if it is a single command. *)
Fixpoint pipe_stages (fuel : nat) (p : pos) (run : bool) (cmds : list cmd_t) (first : bool) :
  sh kw (option (pos * list cmd_t)) :=
  match fuel with
  | O => spent
  | S fuel =>
      let '(raw, cmd, q) := parse_simple p [] no_cmd in
      if first && negb (ty_is T_PIPE q) then mret None else
      cmds ← (if run && (length cmds <? MAX_PIPELINE)%nat
              then c ← expand_stage raw cmd; mret (cmds ++ [c])
              else mret cmds);
      if ty_is T_PIPE q then pipe_stages fuel (skip_newlines (tail q)) run cmds false
      else mret (Some (q, cmds))
  end.

Definition run_pipeline_node (fuel : nat) (p : pos) (run : bool) : sh kw (pos * Z) :=
  if is_compound_start p || is_funcdef p then run_command fuel p run else
  r ← pipe_stages fuel p run [] true;
  match r with
  | None => run_simple p run
  | Some (q, cmds) =>
      if negb run then get_status q
      else if ty_is T_AMP q then _ ← run_pipeline_bg cmds; _ ← set_exit 0; get_status q
      else _ ← run_pipeline cmds; get_status q
  end.

Fixpoint and_or_loop (fuel : nat) (p : pos) (run : bool) (status : Z) : sh kw (pos * Z) :=
  match fuel with
  | O => spent
  | S fuel' =>
      if ty_is T_AND p || ty_is T_OR p then
        let dorun := run && (if ty_is T_AND p then status =? 0 else negb (status =? 0)) in
        '(q, s2) ← run_pipeline_node fuel' (skip_newlines (tail p)) dorun;
        and_or_loop fuel' q run (if dorun then s2 else status)
      else mret (p, status)
  end.

Definition and_or_step (fuel : nat) (p : pos) (run : bool) : sh kw (pos * Z) :=
  '(p, status) ← run_pipeline_node fuel p run;
  and_or_loop fuel p run status.

Fixpoint list_loop (fuel : nat) (p : pos) (run : bool) (status : Z) : sh kw (pos * Z) :=
  match fuel with
  | O => spent
  | S fuel =>
      let p := skip_seps p in
      if at_block_end p then mret (p, status) else
      '(p, status) ← run_and_or p run;
      fl ← gets sh_flow;
      if negb (bool_decide (fl = FLOW_NONE)) then mret (p, status)
      else if ty_is T_AMP p then list_loop fuel (tail p) run status
      else if ty_is T_SEMI p || ty_is T_NEWLINE p then list_loop fuel p run status
      else if at_block_end p then mret (p, status)
      else list_loop fuel p run status
  end.

Definition list_step (fuel : nat) (p : pos) (run : bool) : sh kw (pos * Z) :=
  x ← get_exit; list_loop fuel p run x.

Definition program_step (text : bytes) : sh kw () :=
  match tokenize 256 (8192 * 4) text with
  | LexFull => set_exit 2
  | LexWild => wild
  | LexOk ts =>
      _ ← run_list ts true;
      fl ← gets sh_flow;
      if decide (fl = FLOW_RETURN) then modify (λ s, with_flow FLOW_NONE (sh_flow_n s) s) else mret tt
  end.

End Commands.

(** The functions tied together; [fuel] bounds the depth of calls and the rounds
    of each loop but those of [while]. *)
Fixpoint run_list (fuel : nat) (p : pos) (run : bool) : sh kw (pos * Z) :=
  match fuel with
  | O => spent
  | S fuel => list_step (run_and_or fuel) fuel p run
  end
with run_and_or (fuel : nat) (p : pos) (run : bool) : sh kw (pos * Z) :=
  match fuel with
  | O => spent
  | S fuel => and_or_step (run_list fuel) (run_and_or fuel) (run_program fuel) fuel p run
  end
with run_program (fuel : nat) (text : bytes) : sh kw () :=
  match fuel with
  | O => spent
  | S fuel => program_step (run_list fuel) text
  end.

End Run.
