(* ===== verification/StshMain.v ===== *)
(** The entry points of stsh (src/user/bin/stsh/main.c, [sh_incomplete] in run.c), a
    concrete kernel to run programs on, and programs on which the shell does not
    do what its comments say. *)

From S2P Require Import Prelude CString Posix StshEnv StshLexer StshArith StshExpand StshRun.
Local Open Scope Z_scope.

(** * Definitions *)

(** The scan for open quotations; true if the text needs another line. *)
Fixpoint open_quote (sq dq : bool) (s : bytes) : bool :=
  match s with
  | [] => sq || dq
  | c :: r =>
      if sq then open_quote (negb (c =? SQ)) dq r
      else if dq then
        if c =? DQ then open_quote sq false r
        else match r with
             | d :: r' => if c =? BSL then open_quote sq dq r' else open_quote sq dq r
             | [] => open_quote sq dq r
             end
      else if c =? SQ then open_quote true dq r
      else if c =? DQ then open_quote sq true r
      else match r with
           | d :: _ => if (c =? BSL) && (d =? LF) then true else open_quote sq dq r
           | [] => open_quote sq dq r
           end
  end.

Definition is_word_sep (c : byte) : bool := (c =? SP) || (c =? TAB) || (c =? LF) || (c =? SEMI).

Definition kw_depth (depth : nat) (w : bytes) : nat :=
  if beq w (B "if") || beq w (B "for") || beq w (B "while") || beq w (B "until") || beq w (B "case") then S depth
  else if beq w (B "fi") || beq w (B "done") || beq w (B "esac") then pred depth
  else depth.

Definition sh_incomplete (buf : bytes) : bool :=
  open_quote false false buf || bool_decide (last buf = Some BSL) ||
  (0 <? foldl kw_depth 0 (tokens is_word_sep buf))%nat.

Section Main.

Context {kw : Type} `{K : Kernel kw}.

(** The loop of [main] over the lines the editor delivers. *)
Fixpoint repl (fuel : nat) (lines : list bytes) (acc : bytes) : sh kw () :=
  match lines with
  | [] => mret tt
  | line :: lines =>
      match line, acc with
      | [], [] => repl fuel lines acc
      | _, _ =>
          let acc := if (length acc + length line + 2 <? 2 ^ 16)%nat then acc ++ line ++ [LF] else acc in
          if sh_incomplete acc then repl fuel lines acc
          else
            _ ← (if (1 <? length acc)%nat then run_program fuel acc else mret tt);
            repl fuel lines []
      end
  end.

(** [main]; the result is the exit status. *)
Definition stsh_main (fuel : nat) (argv : list bytes) (envp : list bytes) (lines : list bytes) : sh kw Z :=
  _ ← modify (with_env (env_init envp));
  _ ← modify (λ s, match env_get (B "PATH") (sh_env s) with
                   | Some _ => s
                   | None => with_env (env_set (B "PATH") (B "/bin") (sh_env s)) s
                   end);
  match argv with
  | a0 :: flag :: text :: ops =>
      if beq flag (B "-c") then
        _ ← run_set_params (match ops with a :: _ => a | [] => a0 end) (PStr <$> tail ops);
        _ ← run_program fuel text; get_exit
      else if starts_with [45] flag then _ ← repl fuel lines []; get_exit
      else run_script (run_program fuel) flag (text :: ops)
  | _ :: file :: _ =>
      if starts_with [45] file then _ ← repl fuel lines []; get_exit
      else run_script (run_program fuel) file []
  | _ => _ ← repl fuel lines []; get_exit
  end.

End Main.

(** ** A machine to run programs on *)

(** The surroundings record the programs that were run.  [echo] writes its
    arguments, [fail] exits with 1, every other program does nothing. *)
Definition stage_out (f : fdt) (l : list fdact) : sink :=
  foldl (λ o a, match a with FOpenOut p app => OutFile p app | FDup 2 => fd_err f | _ => o end) (fd_out f) l.

Definition toy_output (f : fdt) (st : stage) : list (sink * bytes) :=
  match st_argv st with
  | c :: args => if beq c (B "echo") then [(stage_out f (st_fds st), join SP args ++ [LF])] else []
  | [] => []
  end.

Definition toy_status (st : stage) : wstatus :=
  if bool_decide (head (st_argv st) = Some (B "fail")) then Exited 1 else Exited 0.

(** Files below /ro cannot be written. *)
#[global] Instance toy : Kernel (list (list bytes)) := {|
  k_pid := 7;
  k_pipe w := (true, w);
  k_fork w := (true, w);
  k_glob _ _ := [];
  k_fnmatch p s := beq p s;
  k_exec_ok _ _ := true;
  k_file _ _ := None;
  k_open_in _ _ := true;
  k_open_out f _ w := (negb (starts_with (B "/ro/") f), w);
  k_getline _ w := (None, w);
  k_chdir _ w := (true, w);
  k_umask _ w := (18, w);
  k_caps _ _ w := (0, [], w);
  k_pipeline f _ l w :=
    (Some (toy_status <$> l), match last l with Some st => toy_output f st | None => [] end, w ++ (st_argv <$> l));
  k_exec _ _ w := (None, [], w)
|}.

Definition toy_start : shell (list (list bytes)) :=
  Shell [B "PATH=/bin"] 0 (B "stsh") (repeat PNull 64) 0 FLOW_NONE 0 [] [] (Fds (InFd 0) (OutFd 1) (OutFd 2)) [] 0 [].

(** The text on standard output and the final state. *)
Definition toy_run (text : string) : option (bytes * shell (list (list bytes))) :=
  match run_program 60 (B text) toy_start with
  | Done _ s => Some (concat (snd <$> rev (sh_out s)), s)
  | _ => None
  end.

Definition toy_text (text : string) : option bytes := fst <$> toy_run text.

Definition lines_of (l : list string) : bytes := concat ((λ s, B s ++ [LF]) <$> l).

(** * What the programs show *)

(** Sanity: expansion, loops, conditionals, functions and substitution work
    together. *)
Example sample_program :
  toy_text "f() { echo f $1; return 3; }; for x in a b; do if test $x; then f $x; fi; done; echo $? $((2+3*4)); y=$(echo q r); echo [$y]"
  = Some (lines_of ["f a"; "f b"; "3 14"; "[q r]"]).
Proof. vm_compute. reflexivity. Qed.

(** the words of a [for] loop live in one static buffer.  An inner [for] loop
    overwrites the words the outer one has not reached yet: of the two rounds of
    the outer loop here, the second runs with a word of the inner one instead of
    "b". *)
Theorem nested_for_overwrites_words :
  toy_text "for x in a b; do for y in 1 2; do echo $x$y; done; done" = Some (lines_of ["a1"; "a2"; "21"; "22"]).
Proof. vm_compute. reflexivity. Qed.

(** passing over a command is not free of effects.  The word of a [case] is
    expanded although the branch it is in is not taken, so the program inside its
    command substitution runs; and a function defined in such a branch is
    defined. *)
Theorem skipped_code_has_effects :
  (exists s, toy_run "if fail; then case $(rm -rf data) in x) echo x;; esac; fi" = Some ([], s) /\
             [B "rm"; B "-rf"; B "data"] ∈ sh_kw s) /\
  toy_text "if fail; then g() { echo g; }; fi; g" = Some (lines_of ["g"]).
Proof.
  split; [|vm_compute; reflexivity].
  eexists. split; [vm_compute; reflexivity|]. vm_compute. right. left.
Qed.

(** [set --] leaves pointers behind.  The parameters it stores point into the
    buffer of the command itself; using one afterwards reads memory that is no
    longer in use. *)
Theorem set_params_dangle : run_program 60 (B "set -- a b; echo $1") toy_start = Wild.
Proof. vm_compute. reflexivity. Qed.

(** [break] outside a loop breaks the shell.  The flow it sets is never reset,
    so of every list that follows only the first command is run. *)
Theorem break_outside_loop_sticks :
  match run_program 60 (B "break") toy_start with
  | Done _ s =>
      match run_program 60 (B "echo a; echo b") s with
      | Done _ s => concat (snd <$> rev (sh_out s)) = lines_of ["a"] /\ sh_flow s = FLOW_BREAK
      | _ => False
      end
  | _ => False
  end.
Proof. vm_compute. split; reflexivity. Qed.

(** an empty quotation is no argument: the word is dropped, so the program sees
    one argument less. *)
Theorem empty_argument_lost :
  exists s, toy_run "test '' = x" = Some ([], s) /\ sh_kw s = [[B "test"; B "="; B "x"]].
Proof. eexists. split; vm_compute; reflexivity. Qed.

(** a redirection that cannot be made leaves the earlier ones in place.  The
    standard input of the shell itself stays connected to the file. *)
Theorem failed_redirection_leaks :
  exists s, toy_run "type x < data > /ro/f" = Some ([], s) /\ fd_in (sh_fds s) = InFile (B "data").
Proof. eexists. split; vm_compute; reflexivity. Qed.

(** the status of an [if] whose first branch was taken is overwritten by the
    branches that are passed over: here the list fails but counts as a success. *)
Theorem if_status_overwritten :
  toy_text "if test; then fail; else if test; then test; fi; fi && echo success" = Some (lines_of ["success"]).
Proof. vm_compute. reflexivity. Qed.

(** a pipeline of more than eight stages is cut to eight without a word. *)
Theorem long_pipeline_cut :
  exists s, toy_run "a | b | c | d | e | f | g | h | i" = Some ([], s) /\ length (sh_kw s) = 8%nat /\ [B "i"] ∉ sh_kw s.
Proof.
  eexists. split; [vm_compute; reflexivity|]. split; [vm_compute; reflexivity|].
  intros H. repeat (apply elem_of_cons in H as [H|H]; [vm_compute in H; discriminate H|]). by apply elem_of_nil in H.
Qed.
