(* ===== verification/StshSkip.v ===== *)
(** Passing over code in stsh: with [run] false the executor only moves on.

    The code relies on this to find the end of a construct: branches that are not
    taken, loop bodies, the rest of a list after [break].  It holds for code
    without [case] and without function definitions (see [StshMain] for what goes
    wrong there): the state is unchanged, whatever it is, and the pass ends. *)

From S2P Require Import Prelude CString Posix StshEnv StshLexer StshArith StshExpand StshRun StshMain.
Local Open Scope nat_scope.

(** * Definitions *)

(** No [case] and no function definition from [p] on. *)
Definition quiet (p : pos) : Prop :=
  forall q, q `suffix_of` p -> is_funcdef q = false /\ is_kw q "case" = false.

Definition quietb (p : pos) : bool :=
  forallb (λ i, negb (is_funcdef (drop i p)) && negb (is_kw (drop i p) "case")) (seq 0 (S (length p))).

(** The result is a later position, in the same state. *)
Definition passed {kw} (p : pos) (s : shell kw) (r : res kw (pos * Z)) : Prop :=
  exists q v, r = Done (q, v) s /\ q `suffix_of` p.

(** * Positions *)

Create HintDb stsh.

Section Positions.

Implicit Types (p q r : pos).

Lemma suffix_trans p q r : p `suffix_of` q -> q `suffix_of` r -> p `suffix_of` r.
Proof. intros H1 H2. by trans q. Qed.

Lemma suffix_tail p : tail p `suffix_of` p.
Proof. destruct p as [|t p]; [done|]. by exists [t]. Qed.

Lemma suffix_skip_seps p : skip_seps p `suffix_of` p.
Proof. induction p as [|t p IH]; cbn [skip_seps]; [done|]. case_decide; [|done]. by apply suffix_cons_r. Qed.

Lemma suffix_skip_newlines p : skip_newlines p `suffix_of` p.
Proof. induction p as [|t p IH]; cbn [skip_newlines]; [done|]. case_decide; [|done]. by apply suffix_cons_r. Qed.

Lemma suffix_skip_kw w p : skip_kw w p `suffix_of` p.
Proof. unfold skip_kw. case_match; [apply suffix_tail|done]. Qed.

Lemma suffix_skip_tok t p : skip_tok t p `suffix_of` p.
Proof. unfold skip_tok. case_match; [apply suffix_tail|done]. Qed.

Lemma suffix_of_tail p q : q `suffix_of` p -> tail q `suffix_of` p.
Proof. intros H. eapply suffix_trans; [apply suffix_tail|done]. Qed.

Lemma parse_simple_suffix p raw c : (parse_simple p raw c).2 `suffix_of` p.
Proof.
  revert raw c. induction p as [p IH] using (induction_ltof1 _ length). unfold ltof in IH. intros raw c.
  destruct p as [|t q]; [done|]. cbn [parse_simple].
  assert (Hq : forall raw c, (parse_simple q raw c).2 `suffix_of` t :: q).
  { intros. apply suffix_cons_r, IH. simpl. lia. }
  repeat (case_decide || case_match); try done; try apply Hq.
  apply suffix_cons_r, suffix_cons_r, IH. simpl. lia.
Qed.

(** A position that does not move is where the command could not start. *)
Lemma parse_simple_progress p c :
  (parse_simple p [] c).2 = p -> ty p = T_WORD -> at_block_end p = true \/ p = [].
Proof.
  intros Hp Ht. destruct p as [|t q]; [by right|]. left. cbn [ty] in Ht. cbn [parse_simple] in Hp.
  rewrite decide_True in Hp by done. destruct (at_block_end (t :: q)); [done|]. exfalso.
  pose proof (suffix_length _ _ (parse_simple_suffix q [tok_text (t :: q)] c)) as Hl. simpl in Hp, Hl.
  apply (f_equal length) in Hp. simpl in Hp. unfold MAX_ARGV in Hp. simpl in Hp. lia.
Qed.

Lemma quiet_suffix p q : quiet p -> q `suffix_of` p -> quiet q.
Proof. intros H Hq r Hr. apply H. by eapply suffix_trans. Qed.

Lemma quietb_spec p : quietb p = true -> quiet p.
Proof.
  unfold quietb. rewrite forallb_forall. intros H q [k Hk]. specialize (H (length k)).
  rewrite Hk, drop_app_length in H. rewrite in_seq, length_app in H. specialize (H ltac:(lia)).
  apply andb_prop in H as [H1 H2]. by rewrite !negb_true_iff in *.
Qed.

End Positions.

#[export] Hint Resolve suffix_tail suffix_skip_seps suffix_skip_newlines suffix_skip_kw suffix_skip_tok suffix_of_tail : stsh.

(** * Passing over *)

Section Skip.

Context {kw : Type} `{K : Kernel kw}.

Implicit Types (s : shell kw) (p q : pos).

Lemma bind_Done {A C} (m : sh kw A) (f : A -> sh kw C) s a s' : m s = Done a s' -> (m ≫= f) s = f a s'.
Proof. intros H. unfold mbind, sh_bind. by rewrite H. Qed.

(** What is known of the recursive calls on positions of at most [n] tokens. *)
Definition passes (n : nat) (m : pos -> bool -> sh kw (pos * Z)) : Prop :=
  forall p s, quiet p -> length p <= n -> passed p s (m p false s).

Lemma passed_trans p q s r : q `suffix_of` p -> passed q s r -> passed p s r.
Proof. intros Hq (q' & v & -> & Hs). exists q', v. split; [done|]. by eapply suffix_trans. Qed.

Section Calls.

Context (run_list run_and_or : pos -> bool -> sh kw (pos * Z)) (run_program : bytes -> sh kw ()) (n : nat).
Context (HL : passes n run_list) (HA : passes n run_and_or).

(** The call made at a later position, and the code that goes on from there. *)
Lemma use_passes (m : pos -> bool -> sh kw (pos * Z)) {C} (f : pos * Z -> sh kw C) p q s (P : res kw C -> Prop) :
  passes n m -> quiet p -> q `suffix_of` p -> length q <= n ->
  (forall q' v, q' `suffix_of` q -> P (f (q', v) s)) -> P ((m q false ≫= f) s).
Proof.
  intros Hm Hp Hq Hl Hf. destruct (Hm q s) as (q' & v & E & Hs); [by eapply quiet_suffix|done|].
  rewrite (bind_Done _ _ _ _ _ E). by apply Hf.
Qed.

Lemma skip_to_passes fuel w p s :
  quiet p -> length p <= n -> length p < fuel ->
  exists q, skip_to run_and_or fuel w p s = Done q s /\ q `suffix_of` p.
Proof.
  revert p. induction fuel as [|fuel IH]; intros p Hq Hn Hf; [lia|]. cbn [skip_to].
  destruct (ty_is T_EOF p || is_kw p w) eqn:E; [by exists p|].
  assert (Hne : p <> []) by (intros ->; done).
  apply (use_passes run_and_or _ p p s (λ r, exists q, r = Done q s /\ q `suffix_of` p) HA Hq); [done|done|].
  intros q v Hs. cbn beta iota.
  set (q2 := if (length (skip_seps q) =? length p) then tail (skip_seps q) else skip_seps q).
  assert (Hs2 : q2 `suffix_of` p).
  { unfold q2. case_match; [apply suffix_of_tail|]; (eapply suffix_trans; [apply suffix_skip_seps|done]). }
  assert (Hl2 : length q2 < length p).
  { pose proof (suffix_length _ _ (suffix_trans _ _ _ (suffix_skip_seps q) Hs)) as Hl. unfold q2.
    destruct (length (skip_seps q) =? length p) eqn:El; boolify; [|lia].
    destruct (skip_seps q); [destruct p; simpl in *; done|]. simpl in *. lia. }
  destruct (IH q2) as (q3 & -> & Hs3); [by eapply quiet_suffix|lia|lia|]. exists q3. split; [done|]. by eapply suffix_trans.
Qed.

Lemma past_done_passes fuel p s :
  quiet p -> length p <= n -> length p < fuel ->
  exists q, past_done run_and_or fuel p s = Done q s /\ q `suffix_of` p.
Proof.
  intros Hq Hn Hf. unfold past_done. destruct (skip_to_passes fuel "done" p s Hq Hn Hf) as (q & E & Hs).
  rewrite (bind_Done _ _ _ _ _ E). exists (skip_kw "done" q). split; [done|].
  eapply suffix_trans; [apply suffix_skip_kw|done].
Qed.

Lemma if_loop_passes fuel p s (run taken : bool) :
  run && negb taken = false -> quiet p -> length p <= n -> length p < fuel ->
  exists q v, if_loop run_list fuel p run taken s = Done (q, taken, v) s /\ q `suffix_of` p.
Proof.
  intros Hrt. revert p. induction fuel as [|fuel IH]; intros p Hq Hn Hf; [lia|]. cbn [if_loop]. rewrite Hrt. cbn [andb].
  apply (use_passes run_list _ p p s (λ r, exists q v, r = Done (q, taken, v) s /\ q `suffix_of` p) HL Hq); [done|done|].
  intros q1 v1 Hs1. cbn beta iota. set (p2 := skip_kw "then" (skip_seps q1)).
  assert (Hs2 : p2 `suffix_of` p).
  { eapply suffix_trans; [apply suffix_skip_kw|]. by eapply suffix_trans; [apply suffix_skip_seps|]. }
  apply (use_passes run_list _ p p2 s (λ r, exists q v, r = Done (q, taken, v) s /\ q `suffix_of` p) HL Hq);
    [done|apply suffix_length in Hs2; lia|].
  intros q3 v3 Hs3. cbn beta iota. rewrite orb_false_r.
  assert (Hs4 : skip_seps q3 `suffix_of` p) by (eapply suffix_trans; [apply suffix_skip_seps|]; by eapply suffix_trans).
  pose proof (suffix_length _ _ Hs4) as Hl4. set (p4 := skip_seps q3) in *. clearbody p4.
  destruct (is_kw p4 "elif") eqn:E1; [|destruct (is_kw p4 "else") eqn:E2].
  - assert (Hlt : length (tail p4) < length p4) by (destruct p4; [done|simpl; lia]).
    destruct (IH (tail p4)) as (q & v & -> & Hs); [eapply quiet_suffix; [done|by apply suffix_of_tail]|lia|lia|].
    exists q, v. split; [done|]. eapply suffix_trans; [done|]. by apply suffix_of_tail.
  - rewrite Hrt. apply (use_passes run_list _ p (tail p4) s (λ r, exists q v, r = Done (q, taken, v) s /\ q `suffix_of` p) HL Hq);
      [by apply suffix_of_tail|pose proof (suffix_length _ _ (suffix_tail p4)); lia|].
    intros q5 v5 Hs5. cbn beta iota. rewrite orb_false_r. exists (skip_seps q5), v5. split; [done|].
    eapply suffix_trans; [apply suffix_skip_seps|]. eapply suffix_trans; [done|]. by apply suffix_of_tail.
  - exists p4, v3. done.
Qed.

Lemma status_passed p q s : q `suffix_of` p -> passed p s (get_status q s).
Proof. intros H. by exists q, (sh_exit s). Qed.

Lemma for_words_passes p b s : exists q, for_words run_program p false b s = Done (q, b) s /\ q `suffix_of` p.
Proof.
  induction p as [|t p IH]; cbn [for_words]; [by eexists|].
  destruct t as [ty [w|]]; [|by destruct ty; eexists]. destruct ty; try by eexists.
  destruct (is_kw _ "do"); [by eexists|]. destruct IH as (q & -> & Hs). exists q. split; [done|]. by apply suffix_cons_r.
Qed.

Lemma with_wbuf_same s : with_wbuf (sh_wbuf s) s = s.
Proof. by destruct s. Qed.

Lemma run_for_passes fuel p s :
  quiet p -> length (tail p) <= n -> length p < fuel -> passed (tail p) s (run_for run_list run_and_or run_program fuel p false s).
Proof.
  intros Hq Hn Hf. unfold run_for.
  set (vp := if ty_is T_WORD (tail p) then _ else _).
  assert (Hv : vp.2 `suffix_of` tail p) by (unfold vp; case_match; [apply suffix_tail|done]).
  destruct vp as [var p1]. cbn [snd] in Hv. rewrite (bind_Done _ _ s (sh_wbuf s) s) by done.
  assert (Hw : exists p2, (if negb (is_kw p1 "in") then mret (p1, fb_of 256 (LINE_SIZE * 8) 0 (sh_wbuf s) false)
     else for_words run_program (tail p1) false (fb_of 256 (LINE_SIZE * 8) 0 (sh_wbuf s) false)) s =
     Done (p2, fb_of 256 (LINE_SIZE * 8) 0 (sh_wbuf s) false) s /\ p2 `suffix_of` tail p).
  { destruct (is_kw p1 "in"); cbn [negb]; [|by exists p1].
    destruct (for_words_passes (tail p1) (fb_of 256 (LINE_SIZE * 8) 0 (sh_wbuf s) false) s) as (p2 & -> & Hs).
    exists p2. split; [done|]. eapply suffix_trans; [done|]. by apply suffix_of_tail. }
  destruct Hw as (p2 & Ew & Hs2). rewrite (bind_Done _ _ _ _ _ Ew). cbn beta iota.
  change (fb_arena (fb_of 256 (LINE_SIZE * 8) 0 (sh_wbuf s) false)) with (sh_wbuf s).
  rewrite (bind_Done _ _ s tt s) by (unfold modify; by rewrite with_wbuf_same). cbn [negb].
  set (body := skip_kw "do" (skip_seps p2)).
  assert (Hb : body `suffix_of` tail p).
  { eapply suffix_trans; [apply suffix_skip_kw|]. by eapply suffix_trans; [apply suffix_skip_seps|]. }
  assert (Hbp : body `suffix_of` p) by (eapply suffix_trans; [done|apply suffix_tail]).
  pose proof (suffix_length _ _ Hb) as Hlb. pose proof (suffix_length _ _ Hbp) as Hlp.
  destruct (past_done_passes fuel body s) as (q & E & Hs); [by eapply quiet_suffix|lia|lia|].
  rewrite (bind_Done _ _ _ _ _ E). apply status_passed. by eapply suffix_trans.
Qed.

Lemma run_while_passes fuel p s is_until :
  quiet p -> length (tail p) <= n -> length p < fuel -> passed (tail p) s (run_while run_list run_and_or fuel p false is_until s).
Proof.
  intros Hq Hn Hf. unfold run_while.
  apply (use_passes run_list _ p (tail p) s (passed (tail p) s) HL Hq); [apply suffix_tail|done|].
  intros q1 v1 Hs1. cbn beta iota. rewrite (bind_Done _ _ s (sh_exit s) s) by done. cbn [negb].
  assert (Hb : skip_kw "do" q1 `suffix_of` tail p) by (eapply suffix_trans; [apply suffix_skip_kw|done]).
  assert (Hbp : skip_kw "do" q1 `suffix_of` p) by (eapply suffix_trans; [done|apply suffix_tail]).
  pose proof (suffix_length _ _ Hb) as Hlb. pose proof (suffix_length _ _ Hbp) as Hlp.
  destruct (past_done_passes fuel (skip_kw "do" q1) s) as (q & E & Hs); [by eapply quiet_suffix|lia|lia|].
  rewrite (bind_Done _ _ _ _ _ E). apply status_passed. by eapply suffix_trans.
Qed.

Lemma run_simple_passes p s : passed p s (run_simple run_and_or run_program p false s).
Proof.
  unfold run_simple. pose proof (parse_simple_suffix p [] no_cmd) as Hs.
  destruct (parse_simple p [] no_cmd) as [[raw cmd] q]. cbn [negb orb snd] in *. by apply status_passed.
Qed.

Lemma run_if_passes fuel p s :
  quiet p -> length (tail p) <= n -> length p < fuel -> passed (tail p) s (run_if run_list fuel p false s).
Proof.
  intros Hq Hn Hf. unfold run_if. pose proof (suffix_length _ _ (suffix_tail p)) as Hl.
  destruct (if_loop_passes fuel (tail p) s false false eq_refl) as (q & v & E & Hs); [eapply quiet_suffix; [done|apply suffix_tail]|done|lia|].
  rewrite (bind_Done _ _ _ _ _ E). cbn beta iota. exists (skip_kw "fi" q), 0%Z. split; [done|].
  eapply suffix_trans; [apply suffix_skip_kw|done].
Qed.

(** Tokens that end a simple command without being part of it. *)
Definition ends_simple (t : toktype_t) : bool :=
  match t with T_AND | T_OR | T_SEMI | T_AMP | T_NEWLINE => true | _ => false end.

(** A command that can start is left behind. *)
Definition moves p q : Prop := at_block_end p = false -> ends_simple (ty p) = false -> length q < length p.

Lemma run_command_passes fuel p s :
  quiet p -> length (tail p) <= n -> length p < fuel -> is_compound_start p = true ->
  passed (tail p) s (run_command run_list run_and_or run_program fuel p false s).
Proof.
  intros Hq Hn Hf Hc. unfold run_command. destruct (Hq p) as [-> Hcase]; [done|]. rewrite Hc, Hcase.
  assert (Hlist : forall C (f : pos * Z -> sh kw C) (P : res kw C -> Prop),
    (forall q v, q `suffix_of` tail p -> P (f (q, v) s)) -> P ((run_list (tail p) false ≫= f) s)).
  { intros C f P Hf'. apply (use_passes run_list f p (tail p) s P HL Hq); [apply suffix_tail|done|done]. }
  destruct (is_kw p "if"); [by apply run_if_passes|]. destruct (is_kw p "for"); [by apply run_for_passes|].
  destruct (is_kw p "while"); [by apply run_while_passes|]. destruct (is_kw p "until"); [by apply run_while_passes|].
  destruct (is_kw p "{").
  - unfold run_brace. apply Hlist. intros q v Hs. exists (skip_kw "}" q), v. split; [done|].
    eapply suffix_trans; [apply suffix_skip_kw|done].
  - unfold run_subshell. cbn [negb]. apply Hlist. intros q v Hs. cbn beta iota. apply status_passed.
    eapply suffix_trans; [apply suffix_skip_tok|done].
Qed.

Lemma parse_simple_moves p :
  at_block_end p = false -> ends_simple (ty p) = false -> is_compound_start p = false -> ty p <> T_PIPE ->
  length (parse_simple p [] no_cmd).2 < length p.
Proof.
  intros Hb He Hc Hp. destruct p as [|t q]; [done|]. cbn [parse_simple ty] in *.
  assert (Hq : forall raw c, length (parse_simple q raw c).2 < length (t :: q)).
  { intros. pose proof (suffix_length _ _ (parse_simple_suffix q raw c)). simpl. lia. }
  case_decide; [rewrite Hb; cbn [length andb Nat.eqb]; apply Hq|]. case_decide; [apply Hq|].
  destruct t as [ty x]. cbn [t_type] in *.
  destruct ty; cbn [redirect]; try done;
    destruct q as [|w q']; try apply Hq; (case_decide; [|apply Hq]);
    match goal with |- length (parse_simple q' ?r ?c).2 < _ =>
      pose proof (suffix_length _ _ (parse_simple_suffix q' r c)); cbn [length]; lia end.
Qed.

Lemma pipe_stages_passes fuel p s cmds first :
  quiet p -> length p < fuel ->
  exists r, pipe_stages run_program fuel p false cmds first s = Done r s /\
    match r with
    | None => first = true /\ ty_is T_PIPE (parse_simple p [] no_cmd).2 = false
    | Some (q, _) => q `suffix_of` p /\ (first = true -> length q < length p)
    end.
Proof.
  revert p cmds first. induction fuel as [|fuel IH]; intros p cmds first Hq Hf; [lia|]. cbn [pipe_stages].
  pose proof (parse_simple_suffix p [] no_cmd) as Hs. destruct (parse_simple p [] no_cmd) as [[raw cmd] q].
  cbn [snd] in *. destruct (ty_is T_PIPE q) eqn:Et; cbn [negb].
  2:{ destruct first; cbn [andb]; [exists None; done|]. exists (Some (q, cmds)). split; [done|]. by split. }
  rewrite andb_false_r. cbn [andb]. rewrite (bind_Done _ _ s cmds s) by done.
  assert (Hl : length (tail q) < length q) by (destruct q; [done|simpl; lia]).
  assert (Hs2 : skip_newlines (tail q) `suffix_of` p).
  { eapply suffix_trans; [apply suffix_skip_newlines|]. by apply suffix_of_tail. }
  pose proof (suffix_length _ _ Hs) as Hl1. pose proof (suffix_length _ _ (suffix_skip_newlines (tail q))) as Hl2.
  destruct (IH (skip_newlines (tail q)) cmds false) as (r & -> & Hr); [by eapply quiet_suffix|lia|].
  exists r. split; [done|]. destruct r as [[q' c']|]; [|by destruct Hr]. destruct Hr as [Hr _].
  split; [by eapply suffix_trans|]. intros _. pose proof (suffix_length _ _ Hr). lia.
Qed.

Lemma node_passes fuel p s :
  quiet p -> length (tail p) <= n -> length p < fuel ->
  exists q v, run_pipeline_node run_list run_and_or run_program fuel p false s = Done (q, v) s /\ q `suffix_of` p /\ moves p q.
Proof.
  intros Hq Hn Hf. unfold run_pipeline_node. destruct (Hq p) as [Hfd _]; [done|]. rewrite Hfd, orb_false_r.
  destruct (is_compound_start p) eqn:Ec.
  { destruct (run_command_passes fuel p s Hq Hn Hf Ec) as (q & v & -> & Hs). exists q, v. split; [done|].
    split; [eapply suffix_trans; [done|apply suffix_tail]|]. intros _ _. pose proof (suffix_length _ _ Hs) as Hl.
    destruct p; [done|]. simpl in *. lia. }
  destruct (pipe_stages_passes fuel p s [] true Hq Hf) as (r & E & Hr). rewrite (bind_Done _ _ _ _ _ E).
  destruct r as [[q c]|]; cbn beta iota.
  - destruct Hr as [Hs Hl]. exists q, (sh_exit s). split; [done|]. split; [done|]. intros _ _. by apply Hl.
  - destruct Hr as [_ Hr]. unfold run_simple. pose proof (parse_simple_suffix p [] no_cmd) as Hs.
    pose proof (parse_simple_moves p) as Hm.
    destruct (parse_simple p [] no_cmd) as [[raw cmd] q] eqn:Ep. cbn [negb orb snd] in *.
    exists q, (sh_exit s). split; [done|]. split; [done|]. intros Hb He. apply Hm; try done.
    intros Hp. destruct p as [|t p]; [done|]. cbn [ty] in Hp. cbn [parse_simple] in Ep.
    rewrite !decide_False in Ep by (rewrite Hp; done). rewrite Hp in Ep. cbn [redirect] in Ep. injection Ep as _ _ <-.
    unfold ty_is in Hr. cbn [ty] in Hr. by rewrite Hp in Hr.
Qed.

Lemma and_or_loop_passes fuel p s v :
  quiet p -> length p <= S n -> S (length p) < fuel ->
  exists q w, and_or_loop run_list run_and_or run_program fuel p false v s = Done (q, w) s /\ q `suffix_of` p /\
    (ty p = T_AND \/ ty p = T_OR -> length q < length p).
Proof.
  revert p v. induction fuel as [|fuel IH]; intros p v Hq Hn Hf; [lia|]. cbn [and_or_loop].
  destruct (ty_is T_AND p || ty_is T_OR p) eqn:E.
  2:{ exists p, v. split; [done|]. split; [done|]. unfold ty_is in E. apply orb_false_elim in E as [E1 E2].
      rewrite bool_decide_eq_false in *. naive_solver. }
  cbn [andb]. assert (Hlt : length (tail p) < length p) by (destruct p; [done|simpl; lia]).
  assert (Hs1 : skip_newlines (tail p) `suffix_of` p).
  { eapply suffix_trans; [apply suffix_skip_newlines|apply suffix_tail]. }
  pose proof (suffix_length _ _ (suffix_skip_newlines (tail p))) as Hl1.
  destruct (node_passes fuel (skip_newlines (tail p)) s) as (q & w & Eq & Hs & _);
    [by eapply quiet_suffix|pose proof (suffix_length _ _ (suffix_tail (skip_newlines (tail p)))); lia|lia|].
  rewrite (bind_Done _ _ _ _ _ Eq). cbn beta iota. pose proof (suffix_length _ _ Hs) as Hl2.
  assert (Hsq : q `suffix_of` p) by (by eapply suffix_trans).
  destruct (IH q v) as (q2 & w2 & -> & Hs2 & _); [by eapply quiet_suffix|lia|lia|].
  exists q2, w2. split; [done|]. split; [by eapply suffix_trans|]. intros _. pose proof (suffix_length _ _ Hs2). lia.
Qed.

(** After a list element something is left behind, or the next token is '&'. *)
Definition advances p q : Prop :=
  at_block_end p = false -> ty p <> T_SEMI -> ty p <> T_NEWLINE -> ty p <> T_AMP -> length q < length p.

Lemma and_or_step_passes fuel p s :
  quiet p -> length p <= S n -> S (length p) < fuel ->
  exists q v, and_or_step run_list run_and_or run_program fuel p false s = Done (q, v) s /\ q `suffix_of` p /\ advances p q.
Proof.
  intros Hq Hn Hf. unfold and_or_step.
  destruct (node_passes fuel p s) as (q & v & E & Hs & Hm);
    [done|destruct p; simpl in *; lia|lia|].
  rewrite (bind_Done _ _ _ _ _ E). cbn beta iota. pose proof (suffix_length _ _ Hs) as Hl.
  destruct (and_or_loop_passes fuel q s v) as (q2 & w & -> & Hs2 & Hlt); [by eapply quiet_suffix|lia|lia|].
  exists q2, w. split; [done|]. split; [by eapply suffix_trans|]. intros Hb H1 H2 H3.
  pose proof (suffix_length _ _ Hs2) as Hl2. destruct (ends_simple (ty p)) eqn:Ee; [|specialize (Hm Hb Ee); lia].
  destruct (decide (length q = length p)) as [El|]; [|lia].
  assert (q = p) as -> by (destruct Hs as [k ->]; destruct k; [done|]; rewrite length_app in El; simpl in El; lia).
  apply Hlt. destruct (ty p); try done; [by left|by right].
Qed.

End Calls.

Lemma list_loop_passes run_and_or n fuel p s v :
  (forall p s, quiet p -> length p <= n -> exists q v, run_and_or p false s = Done (q, v) s /\ q `suffix_of` p /\ advances p q) ->
  quiet p -> length p <= n -> length p < fuel ->
  passed p s (list_loop run_and_or fuel p false v s).
Proof.
  intros HA. revert p v. induction fuel as [|fuel IH]; intros p v Hq Hn Hf; [lia|]. cbn [list_loop].
  pose proof (suffix_skip_seps p) as Hs1. pose proof (suffix_length _ _ Hs1) as Hl1.
  assert (Hsep : ty (skip_seps p) <> T_SEMI /\ ty (skip_seps p) <> T_NEWLINE).
  { clear. induction p as [|t p IH]; cbn [skip_seps]; [done|]. case_decide; [done|]. cbn [ty]. naive_solver. }
  set (p1 := skip_seps p) in *. clearbody p1. destruct (at_block_end p1) eqn:Eb; [by exists p1, v|].
  destruct (HA p1 s) as (q & w & E & Hs & Hadv); [by eapply quiet_suffix|lia|]. rewrite (bind_Done _ _ _ _ _ E). cbn beta iota.
  rewrite (bind_Done _ _ s (sh_flow s) s) by done. pose proof (suffix_length _ _ Hs) as Hl2.
  assert (Hsq : q `suffix_of` p) by (by eapply suffix_trans).
  assert (Hgo : forall q', q' `suffix_of` q -> length q' < length p -> passed p s (list_loop run_and_or fuel q' false w s)).
  { intros q' Hq' Hlt. eapply passed_trans; [|apply IH]; [by eapply suffix_trans| |lia|lia].
    eapply quiet_suffix; [done|]. by eapply suffix_trans. }
  case_match; [by exists q, w|].
  destruct (ty_is T_AMP q) eqn:Ea.
  { apply Hgo; [apply suffix_tail|]. destruct q; [done|]. simpl in *. lia. }
  assert (Hlt : length q < length p1).
  { destruct (decide (ty p1 = T_AMP)) as [Hamp|Hamp]; [|apply Hadv; naive_solver].
    destruct (decide (length q = length p1)) as [El|]; [|lia]. exfalso.
    assert (q = p1) as -> by (destruct Hs as [k ->]; destruct k; [done|]; rewrite length_app in El; simpl in El; lia).
    unfold ty_is in Ea. by rewrite Hamp in Ea. }
  case_match; [apply Hgo; [done|lia]|]. case_match; [by exists q, w|]. apply Hgo; [done|lia].
Qed.

(** passing over code is total and has no effect.  For code without [case] and
    function definitions, from any state of the shell (in the middle of a
    [break], too), [run_list] and [run_and_or] with [run] false come back within
    2n + 5 and 2n + 4 nested calls for n tokens, at a later position, with the
    state unchanged. *)
Theorem skip_is_pure fuel p s :
  quiet p ->
  (2 * length p + 5 <= fuel -> passed p s (run_list fuel p false s)) /\
  (2 * length p + 4 <= fuel -> passed p s (run_and_or fuel p false s)).
Proof.
  revert fuel p s. assert (H : forall n, (forall fuel p s, 2 * n + 5 <= fuel -> quiet p -> length p <= n -> passed p s (run_list fuel p false s)) /\
    (forall fuel p s, 2 * n + 4 <= fuel -> quiet p -> length p <= n ->
       exists q v, run_and_or fuel p false s = Done (q, v) s /\ q `suffix_of` p /\ advances p q)).
  { induction n as [|n [IHL IHA]].
    - assert (HA : forall fuel p s, 4 <= fuel -> quiet p -> length p <= 0 ->
         exists q v, run_and_or fuel p false s = Done (q, v) s /\ q `suffix_of` p /\ advances p q).
      { intros f p s' Hf Hq Hl. destruct p; [|simpl in Hl; lia]. exists [], (sh_exit s').
        split; [|done]. do 3 (destruct f as [|f]; [lia|]). reflexivity. }
      split; [|exact HA]. intros f p s' Hf Hq Hl. destruct f as [|f]; [lia|]. cbn [run_list]. unfold list_step.
      rewrite (bind_Done _ _ s' (sh_exit s') s') by done. apply (list_loop_passes _ 0); try done; [|lia].
      intros; apply HA; [lia|done|done].
    - assert (HA : forall fuel p s, 2 * S n + 4 <= fuel -> quiet p -> length p <= S n ->
         exists q v, run_and_or fuel p false s = Done (q, v) s /\ q `suffix_of` p /\ advances p q).
      { intros f p s' Hf Hq Hl. destruct f as [|f]; [lia|]. cbn [run_and_or].
        apply (and_or_step_passes _ _ _ n); [| |done|done|lia].
        - intros p' s'' Hq' Hl'. apply IHL; [lia|done|done].
        - intros p' s'' Hq' Hl'. destruct (IHA f p' s'') as (q & v & E & Hs & _); [lia|done|done|]. by exists q, v. }
      split; [|exact HA]. intros f p s' Hf Hq Hl. destruct f as [|f]; [lia|]. cbn [run_list]. unfold list_step.
      rewrite (bind_Done _ _ s' (sh_exit s') s') by done. apply (list_loop_passes _ (S n)); try done; [|lia].
      intros; apply HA; [lia|done|done]. }
  intros fuel p s Hq. destruct (H (length p)) as [HL HA]. split; intros Hf; [by apply HL|].
  destruct (HA fuel p s Hf Hq) as (q & v & -> & Hs & _); [done|]. by exists q, v.
Qed.

End Skip.

(** * Witness *)

(** if fail; then echo $(rm x); fi; echo done *)
Definition skip_sample : pos :=
  [word_tok (B "if"); word_tok (B "fail"); op_tok T_SEMI; word_tok (B "then"); word_tok (B "echo"); word_tok (B "$(rm x)");
   op_tok T_SEMI; word_tok (B "fi"); op_tok T_SEMI; word_tok (B "echo"); word_tok (B "ok")].

Lemma skip_is_pure_witness :
  tokenize 256 32768 (B "if fail; then echo $(rm x); fi; echo ok") = LexOk skip_sample /\
  passed skip_sample toy_start (run_list 30 skip_sample false toy_start).
Proof.
  split; [vm_compute; reflexivity|].
  assert (Hq : quiet skip_sample) by (apply quietb_spec; vm_compute; reflexivity).
  refine (proj1 (skip_is_pure 30 skip_sample toy_start Hq) _). simpl. lia.
Defined.
