(* ===== verification/StshSemantics.v ===== *)
(** The control flow of stsh against a natural semantics.

    Programs are given as trees: simple commands, lists, && and ||, if, while,
    until, for, brace groups and subshells.  [exec] says what a tree does, rule by
    rule; the executor, which walks over the tokens of the printed tree, passing
    over what is not taken and going back for loops, is shown to do just that. *)

From S2P Require Import Prelude CString Posix StshEnv StshLexer StshArith StshExpand StshRun StshMain StshSkip.
Local Open Scope nat_scope.

(** * Definitions *)

(** ** Trees and their tokens *)

Inductive item := IWord (w : bytes) | IRedir (op : toktype_t) (w : bytes) | IErrOut.

Inductive com :=
  | Simple (l : list item)
  | Seq (a b : com)
  | AndIf (a b : com)
  | OrIf (a b : com)
  | If (c t : com)
  | IfElse (c t e : com)
  | While (until : bool) (c b : com)
  | For (x : bytes) (ws : list bytes) (b : com)
  | Brace (b : com)
  | Subshell (b : com).

Definition kw_tok (w : string) : tok_t := word_tok (B w).

Definition item_toks (i : item) : pos :=
  match i with
  | IWord w => [word_tok w]
  | IRedir op w => [op_tok op; word_tok w]
  | IErrOut => [op_tok T_DGTAMP]
  end.

Definition items_toks (l : list item) : pos := concat (item_toks <$> l).

Fixpoint toks (c : com) : pos :=
  match c with
  | Simple l => items_toks l
  | Seq a b => toks a ++ op_tok T_SEMI :: toks b
  | AndIf a b => toks a ++ op_tok T_AND :: toks b
  | OrIf a b => toks a ++ op_tok T_OR :: toks b
  | If c t => kw_tok "if" :: toks c ++ op_tok T_SEMI :: kw_tok "then" :: toks t ++ [op_tok T_SEMI; kw_tok "fi"]
  | IfElse c t e =>
      kw_tok "if" :: toks c ++ op_tok T_SEMI :: kw_tok "then" :: toks t ++
      op_tok T_SEMI :: kw_tok "else" :: toks e ++ [op_tok T_SEMI; kw_tok "fi"]
  | While u c b =>
      kw_tok (if u then "until" else "while") :: toks c ++ op_tok T_SEMI :: kw_tok "do" :: toks b ++
      [op_tok T_SEMI; kw_tok "done"]
  | For x ws b =>
      kw_tok "for" :: word_tok x :: kw_tok "in" :: (word_tok <$> ws) ++ op_tok T_SEMI :: kw_tok "do" :: toks b ++
      [op_tok T_SEMI; kw_tok "done"]
  | Brace b => kw_tok "{" :: toks b ++ [op_tok T_SEMI; kw_tok "}"]
  | Subshell b => op_tok T_LPAREN :: toks b ++ [op_tok T_RPAREN]
  end.

(** ** Well-formed trees *)

Definition is_redir (t : toktype_t) : bool :=
  match t with T_LT | T_DLESS | T_GT | T_GTGT | T_DGT | T_GTAMP => true | _ => false end.

Definition item_ok (i : item) : bool := match i with IRedir op _ => is_redir op | _ => true end.

(** A command starts with a word that is not reserved. *)
Definition simple_ok (l : list item) : bool :=
  match l with
  | IWord w :: l => negb (at_block_end [word_tok w]) && negb (is_compound_start [word_tok w]) && forallb item_ok l
  | _ => false
  end.

Definition is_seq (c : com) : bool := match c with Seq _ _ => true | _ => false end.
Definition is_node (c : com) : bool := match c with Seq _ _ | AndIf _ _ | OrIf _ _ => false | _ => true end.

Fixpoint wf (c : com) : bool :=
  match c with
  | Simple l => simple_ok l
  | Seq a b => negb (is_seq a) && wf a && wf b
  | AndIf a b | OrIf a b => negb (is_seq a) && is_node b && wf a && wf b
  | If c t => wf c && wf t
  | IfElse c t e => wf c && wf t && wf e
  | While _ c b => wf c && wf b
  | For x ws b => negb (is_kw [word_tok x] "in") && forallb (λ w, negb (beq w (B "do"))) ws && wf b
  | Brace b | Subshell b => wf b
  end.

(** ** What a tree does *)

Section Semantics.

Context {kw : Type} `{K : Kernel kw}.

Implicit Types (s : shell kw).

(** The status that passing over a tree reports. *)
Fixpoint skip_status (c : com) s : Z :=
  match c with
  | Simple _ | While _ _ _ | For _ _ _ | Subshell _ => sh_exit s
  | Seq _ b => skip_status b s
  | AndIf a _ | OrIf a _ => skip_status a s
  | If _ _ | IfElse _ _ _ => 0%Z
  | Brace b => skip_status b s
  end.

(** What follows the body of a loop: whether it goes on. *)
Definition after s : bool * shell kw :=
  match sh_flow s with
  | FLOW_NONE => (true, s)
  | FLOW_BREAK =>
      (false, with_flow (if (sh_flow_n s - 1 <=? 0)%Z then FLOW_NONE else FLOW_BREAK) (sh_flow_n s - 1) s)
  | FLOW_CONTINUE =>
      ((sh_flow_n s - 1 <=? 0)%Z,
       with_flow (if (sh_flow_n s - 1 <=? 0)%Z then FLOW_NONE else FLOW_CONTINUE) (sh_flow_n s - 1) s)
  | FLOW_RETURN => (false, s)
  end.

Definition calm s : Prop := sh_flow s = FLOW_NONE.

(** The variable of a [for] loop for one round. *)
Definition for_bind (x : bytes) (off : nat) s : shell kw :=
  match x with [] => s | _ => with_env (env_set x (astr (sh_wbuf s) off) (sh_env s)) s end.

Definition goes_on (until : bool) (v : Z) : bool := if until then negb (v =? 0)%Z else (v =? 0)%Z.

Definition for_buffer s : fb := fb_of 256 (LINE_SIZE * 8) 0 (sh_wbuf s) false.

(** [exec c s v s']: from [s] the tree ends in [s'] with status [v].  There is no rule
    for a [break], [continue] or [return] that leaves a loop from inside with
    something still to leave, or that leaves a brace group or the first branch of
    an if with an else: there the executor passes over code on the way out. *)
Inductive exec : com -> shell kw -> Z -> shell kw -> Prop :=
  | ESimple l s v s' :
      (exists f0, forall f, f0 <= f -> run_simple (run_and_or f) (run_program f) (items_toks l) true s = Done ([], v) s') ->
      exec (Simple l) s v s'
  | ESeq_stop a b s v s' : exec a s v s' -> ~ calm s' -> exec (Seq a b) s v s'
  | ESeq a b s v s1 w s2 : exec a s v s1 -> calm s1 -> exec b s1 w s2 -> exec (Seq a b) s w s2
  | EAnd a b s s1 w s2 : exec a s 0%Z s1 -> calm s1 -> exec b s1 w s2 -> exec (AndIf a b) s w s2
  | EAnd_stop a b s v s1 : exec a s v s1 -> calm s1 -> v <> 0%Z -> exec (AndIf a b) s v s1
  | EOr a b s v s1 w s2 : exec a s v s1 -> calm s1 -> v <> 0%Z -> exec b s1 w s2 -> exec (OrIf a b) s w s2
  | EOr_stop a b s s1 : exec a s 0%Z s1 -> calm s1 -> exec (OrIf a b) s 0%Z s1
  | EIf_then c t s s1 w s2 : exec c s 0%Z s1 -> calm s1 -> exec t s1 w s2 -> exec (If c t) s w s2
  | EIf_not c t s v s1 : exec c s v s1 -> calm s1 -> v <> 0%Z -> exec (If c t) s 0%Z s1
  | EIfElse_then c t e s s1 w s2 :
      exec c s 0%Z s1 -> calm s1 -> exec t s1 w s2 -> calm s2 -> exec (IfElse c t e) s (skip_status e s2) s2
  | EIfElse_else c t e s v s1 w s2 :
      exec c s v s1 -> calm s1 -> v <> 0%Z -> exec e s1 w s2 -> exec (IfElse c t e) s w s2
  | EWhile u c b s v s' :
      exec_while u c b (Z.to_nat WHILE_MAX) (sh_exit s) s v s' -> calm s' -> exec (While u c b) s v s'
  | EFor x ws b s bf s1 v s' :
      (exists f0, forall f, f0 <= f -> for_words (run_program f) (word_tok <$> ws) true (for_buffer s) s = Done ([], bf) s1) ->
      exec_for (take 63 x) b (fb_argv bf) (sh_exit s1) (with_wbuf (fb_arena bf) s1) v s' -> calm s' ->
      exec (For x ws b) s v s'
  | EBrace b s v s' : exec b s v s' -> calm s' -> exec (Brace b) s v s'
  | ESubshell b s w v s' :
      k_fork (sh_kw s) = (true, w) -> exec b (with_kw w s) v s' ->
      let s2 := with_pipes (sh_pipes s') (with_out (sh_out s') (with_kw (sh_kw s') (with_kw w s))) in
      exec (Subshell b) s (sh_exit s' mod 256)%Z (with_exit (sh_exit s' mod 256)%Z s2)
with exec_while : bool -> com -> com -> nat -> Z -> shell kw -> Z -> shell kw -> Prop :=
  | WGuard u c b r s : exec_while u c b 0 r s r s
  | WStop u c b n r s v s1 :
      calm s -> exec c s v s1 -> calm s1 -> goes_on u v = false -> exec_while u c b (S n) r s r s1
  | WNext u c b n r s v s1 w s2 s3 x s' :
      calm s -> exec c s v s1 -> calm s1 -> goes_on u v = true -> exec b s1 w s2 -> after s2 = (true, s3) ->
      exec_while u c b n w s3 x s' -> exec_while u c b (S n) r s x s'
  | WLeave u c b n r s v s1 w s2 s3 :
      calm s -> exec c s v s1 -> calm s1 -> goes_on u v = true -> exec b s1 w s2 -> after s2 = (false, s3) ->
      exec_while u c b (S n) r s w s3
with exec_for : bytes -> com -> list nat -> Z -> shell kw -> Z -> shell kw -> Prop :=
  | FDone x b r s : exec_for x b [] r s r s
  | FNext x b o os r s w s2 s3 v s' :
      calm s -> exec b (for_bind x o s) w s2 -> after s2 = (true, s3) -> exec_for x b os w s3 v s' ->
      exec_for x b (o :: os) r s v s'
  | FLeave x b o os r s w s2 s3 :
      calm s -> exec b (for_bind x o s) w s2 -> after s2 = (false, s3) -> exec_for x b (o :: os) r s w s3.

End Semantics.

(** * Tokens *)

Section Tokens.

Implicit Types (p q rest : pos) (c : com).

(** What may follow a command, a list element and a list. *)
Definition node_end rest : bool :=
  match ty rest with T_EOF | T_SEMI | T_AND | T_OR | T_RPAREN | T_NEWLINE => true | _ => false end.
Definition andor_end rest : bool := match ty rest with T_EOF | T_SEMI | T_RPAREN | T_NEWLINE => true | _ => false end.
Definition list_end rest : bool := andor_end rest && at_block_end (skip_seps rest).

Lemma andor_end_node rest : andor_end rest = true -> node_end rest = true.
Proof. unfold andor_end, node_end. by destruct (ty rest). Qed.

Lemma list_end_andor rest : list_end rest = true -> andor_end rest = true.
Proof. unfold list_end. by intros [? _]%andb_prop. Qed.

(** The first token of a command. *)
Definition starts (t : tok_t) : Prop := at_block_end [t] = false /\ (t_type t = T_WORD \/ t_type t = T_LPAREN).

Lemma starts_kw w : at_block_end [kw_tok w] = false -> starts (kw_tok w).
Proof. intros H. split; [done|by left]. Qed.

Lemma toks_head c : wf c = true -> exists t q, toks c = t :: q /\ starts t.
Proof.
  induction c as [l|a IHa b _|a IHa b _|a IHa b _|c _ t _|c _ t _ e _|u c _ b _|x ws b _|b _|b _]; intros Hw; cbn [wf toks] in *;
    boolify.
  - destruct l as [|[w| |] l]; try done. cbn [simple_ok] in Hw. boolify. exists (word_tok w), (items_toks l).
    split; [done|]. split; [done|by left].
  - destruct (IHa ltac:(done)) as (t & q & -> & H'). by eexists _, _.
  - destruct (IHa ltac:(done)) as (t & q & -> & H'). by eexists _, _.
  - destruct (IHa ltac:(done)) as (t & q & -> & H'). by eexists _, _.
  - eexists _, _. split; [reflexivity|]. by apply starts_kw.
  - eexists _, _. split; [reflexivity|]. by apply starts_kw.
  - eexists _, _. split; [reflexivity|]. by destruct u; apply starts_kw.
  - eexists _, _. split; [reflexivity|]. by apply starts_kw.
  - eexists _, _. split; [reflexivity|]. by apply starts_kw.
  - eexists _, _. split; [reflexivity|]. split; [done|by right].
Qed.

Lemma at_block_end_head t q : at_block_end (t :: q) = at_block_end [t].
Proof. reflexivity. Qed.

Lemma starts_skip_seps t q : starts t -> skip_seps (t :: q) = t :: q.
Proof. intros [_ [H|H]]; cbn [skip_seps]; rewrite H; by rewrite decide_False by naive_solver. Qed.

Lemma starts_skip_newlines t q : starts t -> skip_newlines (t :: q) = t :: q.
Proof. intros [_ [H|H]]; cbn [skip_newlines]; rewrite H; by rewrite decide_False by done. Qed.

Lemma toks_skip_seps c rest : wf c = true -> skip_seps (toks c ++ rest) = toks c ++ rest.
Proof. intros (t & q & -> & H)%toks_head. by apply starts_skip_seps. Qed.

Lemma toks_skip_newlines c rest : wf c = true -> skip_newlines (toks c ++ rest) = toks c ++ rest.
Proof. intros (t & q & -> & H)%toks_head. by apply starts_skip_newlines. Qed.

Lemma toks_not_end c rest : wf c = true -> at_block_end (toks c ++ rest) = false.
Proof. intros (t & q & -> & H & _)%toks_head. exact H. Qed.

(** A position inside a construct that was left early. *)
Definition mid q : Prop :=
  ty_is T_AND q = false /\ ty_is T_OR q = false /\
  is_kw (skip_seps q) "elif" = false /\ is_kw (skip_seps q) "else" = false /\ is_kw (skip_seps q) "fi" = false /\
  ty_is T_AND (skip_seps q) = false /\ ty_is T_OR (skip_seps q) = false.

Lemma not_end_kws p : at_block_end p = false ->
  is_kw p "elif" = false /\ is_kw p "else" = false /\ is_kw p "fi" = false /\ is_kw p "then" = false.
Proof. unfold at_block_end. intros H. by boolify. Qed.

Lemma mid_before c rest : wf c = true -> mid (op_tok T_SEMI :: toks c ++ rest).
Proof.
  intros Hw. split; [done|]. split; [done|]. change (skip_seps (op_tok T_SEMI :: toks c ++ rest)) with (skip_seps (toks c ++ rest)).
  rewrite toks_skip_seps by done. pose proof (toks_not_end c rest Hw) as Hn. apply not_end_kws in Hn as (H1 & H2 & H3 & _).
  split; [done|]. split; [done|]. split; [done|]. destruct (toks_head c Hw) as (t & q & -> & _ & [Ht|Ht]);
    unfold ty_is; cbn [ty app]; by rewrite Ht.
Qed.

Lemma skip_seps_idem p : skip_seps (skip_seps p) = skip_seps p.
Proof. induction p as [|t p IH]; cbn [skip_seps]; [done|]. case_decide as E; [done|]. cbn [skip_seps]. by rewrite decide_False. Qed.

Lemma mid_skip_seps q : mid q -> mid (skip_seps q).
Proof. intros (H1 & H2 & H3 & H4 & H5 & H6 & H7). unfold mid. rewrite skip_seps_idem. done. Qed.

(** The items of a command are parsed up to its end, whatever follows. *)
Lemma parse_items l (raw : list bytes) (d0 : cmd_t) :
  forallb item_ok l = true -> raw <> [] ->
  exists r d, forall rest, node_end rest = true -> parse_simple (items_toks l ++ rest) raw d0 = (r, d, rest).
Proof.
  revert raw d0. induction l as [|i l IH]; intros raw d0 Hl Hr; cbn [forallb] in Hl.
  - exists raw, d0. intros rest He. cbn [items_toks fmap list_fmap concat app]. destruct rest as [|t q]; [done|].
    unfold node_end in He. cbn [ty] in He. cbn [parse_simple].
    rewrite !decide_False by (intros E; by rewrite E in He). by destruct (t_type t).
  - boolify. change (items_toks (i :: l)) with (item_toks i ++ items_toks l).
    assert (Hlen : (length raw =? 0) = false) by (by destruct raw).
    destruct i as [w|op w|]; cbn [item_toks item_ok] in *.
    + destruct (IH (if length raw <? MAX_ARGV then raw ++ [w] else raw) d0) as (r & d & Hp);
        [done|case_match; [by destruct raw|done]|]. exists r, d. intros rest He. rewrite <- app_assoc. cbn [app parse_simple].
      rewrite decide_True by done. rewrite Hlen. cbn [andb tok_text word_tok]. by apply Hp.
    + destruct (redirect op w d0) as [c'|] eqn:Er; [|by destruct op].
      destruct (IH raw c') as (r & d & Hp); [done|done|]. exists r, d. intros rest He. rewrite <- app_assoc. cbn [app parse_simple].
      rewrite !decide_False by (cbn; by destruct op). cbn [t_type op_tok tok_text word_tok]. rewrite Er.
      rewrite decide_True by done. by apply Hp.
    + destruct (IH raw (set_err2out d0)) as (r & d & Hp); [done|done|]. exists r, d. intros rest He.
      rewrite <- app_assoc. cbn [app parse_simple]. rewrite decide_False by done. rewrite decide_True by done. by apply Hp.
Qed.

Lemma parse_command l :
  simple_ok l = true ->
  exists r d, (length r =? 0) = false /\ forall rest, node_end rest = true -> parse_simple (items_toks l ++ rest) [] no_cmd = (r, d, rest).
Proof.
  intros Hl. destruct l as [|[w| |] l]; try done. cbn [simple_ok] in Hl. boolify.
  destruct (parse_items l [w] no_cmd) as (r & d & Hp); [done|done|].
  assert (E : forall rest, node_end rest = true -> parse_simple (items_toks (IWord w :: l) ++ rest) [] no_cmd = (r, d, rest)).
  { intros rest He. change (items_toks (IWord w :: l)) with ([word_tok w] ++ items_toks l). rewrite <- app_assoc.
    cbn [app parse_simple]. rewrite decide_True by done.
    rewrite at_block_end_head, H. cbn [length Nat.eqb andb]. unfold MAX_ARGV. cbn [Nat.ltb Nat.leb app tok_text word_tok]. by apply Hp. }
  exists r, d. split; [|done]. specialize (E [] eq_refl). rewrite app_nil_r in E.
  (* a word stays in the list once it is there *)
  assert (Hkeep : forall p (raw : list bytes) (d0 : cmd_t), raw <> [] -> (parse_simple p raw d0).1.1 <> []).
  { clear. induction p as [p IH] using (induction_ltof1 _ length). unfold ltof in IH. intros raw d0 Hr.
    destruct p as [|t q]; [done|]. cbn [parse_simple].
    repeat (case_decide || case_match); try done; try (apply IH; [simpl; lia|]); try done; by destruct raw. }
  specialize (Hp [] eq_refl). rewrite app_nil_r in Hp. specialize (Hkeep (items_toks l) [w] no_cmd ltac:(done)).
  rewrite Hp in Hkeep. cbn in Hkeep. by destruct r.
Qed.

End Tokens.

(** * Passing over a tree *)

Section Exact.

Context {kw : Type} `{K : Kernel kw}.

Implicit Types (s : shell kw) (p q rest : pos) (c : com).

Local Notation node f g := (run_pipeline_node (run_list f) (run_and_or f) (run_program f) g).
Local Notation and_or f g := (and_or_step (run_list f) (run_and_or f) (run_program f) g).
Local Notation chain f g := (and_or_loop (run_list f) (run_and_or f) (run_program f) g).
Local Notation elems f g := (list_loop (run_and_or f) g).

(** The && and || on the left spine of a tree. *)
Fixpoint ops c : nat := match c with AndIf a _ | OrIf a _ => S (ops a) | _ => 0 end.

Lemma is_funcdef_two t a q : a <> T_LPAREN -> ty q = a -> is_funcdef (t :: q) = false.
Proof.
  intros Ha Hq. unfold is_funcdef. destruct t as [x [w|]], x; try done. destruct q as [|a' [|b q]]; try done.
  cbn [ty] in Hq. by rewrite (bool_decide_eq_false_2 (t_type a' = T_LPAREN)) by congruence.
Qed.

(** No tree looks like a function definition after its first word. *)
Lemma is_funcdef_before t c rest : wf c = true -> is_funcdef (t :: toks c ++ rest) = false.
Proof.
  intros Hw. destruct (toks_head c Hw) as (a & q & E & Ha & Ht). rewrite E. destruct Ht as [Ht|Ht].
  { apply (is_funcdef_two _ T_WORD); [done|]. exact Ht. }
  assert (Hq : ty (q ++ rest) <> T_RPAREN).
  { clear -Hw E Ht. revert a q E Ht.
    induction c as [l|a IHa b _|a IHa b _|a IHa b _|c _ t _|c _ t _ e _|u c _ b _|x ws b _|b _|b _]; intros a' q E Ht; cbn [wf toks] in *;
      boolify; try (injection E as <- <-; done).
    - destruct l as [|[w| |] l]; try done. injection E as <- <-. done.
    - destruct (toks_head a) as (a2 & q2 & E2 & _); [done|]. rewrite E2 in E. injection E as <- <-.
      specialize (IHa ltac:(done) a2 q2 E2 Ht). destruct q2; [done|]. exact IHa.
    - destruct (toks_head a) as (a2 & q2 & E2 & _); [done|]. rewrite E2 in E. injection E as <- <-.
      specialize (IHa ltac:(done) a2 q2 E2 Ht). destruct q2; [done|]. exact IHa.
    - destruct (toks_head a) as (a2 & q2 & E2 & _); [done|]. rewrite E2 in E. injection E as <- <-.
      specialize (IHa ltac:(done) a2 q2 E2 Ht). destruct q2; [done|]. exact IHa.
    - injection E as <- <-. destruct (toks_head b) as (a2 & q2 & -> & Hb & _); [done|]. cbn [app ty]. intros Hr.
      unfold at_block_end, ty_is in Hb. cbn [ty] in Hb. rewrite Hr in Hb. done. }
  unfold is_funcdef. destruct t as [x [w|]], x; try done. cbn [app]. destruct (q ++ rest) as [|b q']; [done|].
  cbn [ty] in Hq. by rewrite (bool_decide_eq_false_2 (t_type b = T_RPAREN)), andb_false_r.
Qed.

Lemma items_start l : simple_ok l = true -> exists w l', l = IWord w :: l' /\ is_compound_start [word_tok w] = false /\ forallb item_ok l' = true.
Proof. destruct l as [|[w| |] l]; try done. cbn [simple_ok]. intros H. boolify. by exists w, l. Qed.

Lemma simple_not_compound l rest :
  simple_ok l = true -> node_end rest = true -> is_compound_start (items_toks l ++ rest) || is_funcdef (items_toks l ++ rest) = false.
Proof.
  intros (w & l' & -> & Hc & Hl)%items_start He. change (items_toks (IWord w :: l')) with (word_tok w :: items_toks l').
  cbn [app]. apply orb_false_intro; [exact Hc|]. destruct l' as [|[w'|op w'|] l']; cbn [app].
  - unfold node_end in He. apply (is_funcdef_two _ (ty rest)); [|done]. by destruct (ty rest).
  - by apply (is_funcdef_two _ T_WORD).
  - apply (is_funcdef_two _ op); [|done]. cbn in Hl. by destruct op.
  - by apply (is_funcdef_two _ T_DGTAMP).
Qed.

Lemma node_simple f g l rest run s :
  simple_ok l = true -> node_end rest = true ->
  node f (S g) (items_toks l ++ rest) run s = run_simple (run_and_or f) (run_program f) (items_toks l ++ rest) run s.
Proof.
  intros Hl He. unfold run_pipeline_node. rewrite simple_not_compound by done.
  destruct (parse_command l Hl) as (r & d & _ & Hp). cbn [pipe_stages]. rewrite Hp by done.
  replace (ty_is T_PIPE rest) with false; [done|]. unfold node_end in He. unfold ty_is. by destruct (ty rest).
Qed.

Lemma node_compound f g t p run :
  is_compound_start [t] = true -> is_funcdef (t :: p) = false ->
  node f g (t :: p) run = run_command (run_list f) (run_and_or f) (run_program f) g (t :: p) run.
Proof. intros Hc Hf. unfold run_pipeline_node. by replace (is_compound_start (t :: p)) with true. Qed.

Lemma run_command_compound f g t p run :
  is_compound_start [t] = true -> is_funcdef (t :: p) = false ->
  run_command (run_list f) (run_and_or f) (run_program f) g (t :: p) run =
    if is_kw [t] "if" then run_if (run_list f) g (t :: p) run
    else if is_kw [t] "for" then run_for (run_list f) (run_and_or f) (run_program f) g (t :: p) run
    else if is_kw [t] "while" then run_while (run_list f) (run_and_or f) g (t :: p) run false
    else if is_kw [t] "until" then run_while (run_list f) (run_and_or f) g (t :: p) run true
    else if is_kw [t] "case" then run_case (run_and_or f) (run_program f) g (t :: p) run
    else if is_kw [t] "{" then run_brace (run_list f) (t :: p) run
    else run_subshell (run_list f) (t :: p) run.
Proof. intros Hc Hf. unfold run_command. rewrite Hf. by replace (is_compound_start (t :: p)) with true. Qed.

Lemma for_not_funcdef x q : is_funcdef (kw_tok "for" :: word_tok x :: q) = false.
Proof. by apply (is_funcdef_two _ T_WORD). Qed.

(** Where a list is at its end. *)
Lemma list_end_kw w rest : at_block_end [kw_tok w] = true -> list_end (op_tok T_SEMI :: kw_tok w :: rest) = true.
Proof. intros H. exact H. Qed.

Lemma list_end_rparen rest : list_end (op_tok T_RPAREN :: rest) = true.
Proof. reflexivity. Qed.

Lemma skip_seps_end rest : ty_is T_SEMI rest || ty_is T_NEWLINE rest = false -> skip_seps rest = rest.
Proof.
  intros H. destruct rest as [|t q]; [done|]. cbn [skip_seps]. unfold ty_is in H. cbn [ty] in H.
  apply orb_false_elim in H as [H1%bool_decide_eq_false H2%bool_decide_eq_false].
  by rewrite decide_False by naive_solver.
Qed.

(** The loop over list elements at the end of the list. *)
Lemma elems_end f g rest run v s :
  list_end rest = true -> elems f (S g) rest run v s = Done (skip_seps rest, v) s.
Proof. intros [_ H]%andb_prop. cbn [list_loop]. by rewrite H. Qed.

(** One element: what the loop does once the element is done. *)
Lemma elems_step f g c rest run x s q v s' :
  wf c = true -> run_and_or f (toks c ++ rest) run s = Done (q, v) s' ->
  elems f (S g) (toks c ++ rest) run x s =
    (if negb (bool_decide (sh_flow s' = FLOW_NONE)) then mret (q, v)
     else if ty_is T_AMP q then elems f g (tail q) run v
     else if ty_is T_SEMI q || ty_is T_NEWLINE q then elems f g q run v
     else if at_block_end q then mret (q, v) else elems f g q run v) s'.
Proof.
  intros Hw E. cbn [list_loop]. rewrite toks_skip_seps, toks_not_end by done. rewrite (bind_Done _ _ _ _ _ E). done.
Qed.

(** The last element of a list, in a calm state. *)
Lemma elems_last f g c rest run x s v s' :
  wf c = true -> list_end rest = true -> run_and_or f (toks c ++ rest) run s = Done (rest, v) s' -> calm s' ->
  elems f (S (S g)) (toks c ++ rest) run x s = Done (skip_seps rest, v) s'.
Proof.
  intros Hw He E Hc. rewrite (elems_step _ _ _ _ _ _ _ _ _ _ Hw E). rewrite bool_decide_true by done. cbn [negb].
  replace (ty_is T_AMP rest) with false by (apply list_end_andor in He; unfold andor_end in He; unfold ty_is; by destruct (ty rest)).
  destruct (ty_is T_SEMI rest || ty_is T_NEWLINE rest) eqn:Es; [by apply elems_end|].
  pose proof He as [_ Hb]%andb_prop. rewrite skip_seps_end in Hb by done. rewrite Hb. by rewrite skip_seps_end.
Qed.

(** An element followed by ';' and another list. *)
Lemma elems_next f g c d rest run x s v s' :
  wf c = true -> wf d = true -> run_and_or f (toks c ++ op_tok T_SEMI :: toks d ++ rest) run s = Done (op_tok T_SEMI :: toks d ++ rest, v) s' ->
  calm s' -> elems f (S g) (toks c ++ op_tok T_SEMI :: toks d ++ rest) run x s = elems f g (toks d ++ rest) run v s'.
Proof.
  intros Hw Hd E Hc. rewrite (elems_step _ _ _ _ _ _ _ _ _ _ Hw E). rewrite bool_decide_true by done. cbn [negb].
  change (ty_is T_AMP (op_tok T_SEMI :: toks d ++ rest)) with false. cbn iota.
  change (ty_is T_SEMI (op_tok T_SEMI :: toks d ++ rest)) with true. cbn [orb]. destruct g as [|g]; [done|].
  cbn [list_loop]. change (skip_seps (op_tok T_SEMI :: toks d ++ rest)) with (skip_seps (toks d ++ rest)). done.
Qed.

Lemma chain_end f g rest run v s : andor_end rest = true -> chain f (S g) rest run v s = Done (rest, v) s.
Proof.
  intros H. cbn [and_or_loop]. replace (ty_is T_AND rest || ty_is T_OR rest) with false; [done|].
  unfold andor_end in H. unfold ty_is. by destruct (ty rest).
Qed.

Lemma chain_op f g (o : toktype_t) c rest run v s :
  o = T_AND \/ o = T_OR -> wf c = true ->
  chain f (S g) (op_tok o :: toks c ++ rest) run v s =
    (let dorun := run && (if ty_is T_AND (op_tok o :: rest) then (v =? 0)%Z else negb (v =? 0)%Z) in
     '(q, s2) ← node f g (toks c ++ rest) dorun; chain f g q run (if dorun then s2 else v)) s.
Proof.
  intros Ho Hw. cbn [and_or_loop].
  replace (ty_is T_AND (op_tok o :: toks c ++ rest) || ty_is T_OR (op_tok o :: toks c ++ rest)) with true by (by destruct Ho as [-> | ->]).
  cbn [tail]. by rewrite toks_skip_newlines.
Qed.

(** Passing over a tree with at least [n] fuel: as a command, as the first part of
    a chain of && and ||, as a list, and as the body of a loop. *)
Definition skips_node c n : Prop := forall f g rest s,
  n <= f -> n <= g -> node_end rest = true -> calm s -> node f g (toks c ++ rest) false s = Done (rest, skip_status c s) s.
Definition skips_chain c n : Prop := forall f g rest s,
  n <= f -> n <= g -> node_end rest = true -> calm s ->
  and_or f (ops c + g) (toks c ++ rest) false s = chain f g rest false (skip_status c s) s.
Definition skips_list c n : Prop := forall f g x rest s,
  n <= f -> n <= g -> list_end rest = true -> calm s ->
  elems f g (toks c ++ rest) false x s = Done (skip_seps rest, skip_status c s) s.
Definition skips_body c n : Prop := forall f g rest s,
  n <= f -> n <= g -> calm s ->
  skip_to (run_and_or f) g "done" (toks c ++ op_tok T_SEMI :: kw_tok "done" :: rest) s = Done (kw_tok "done" :: rest) s.

Record skips c n : Prop := Skips {
  sk_node : is_node c = true -> skips_node c n;
  sk_chain : is_seq c = false -> skips_chain c n;
  sk_list : skips_list c n;
  sk_body : skips_body c n }.

Lemma skips_more c n m : n <= m -> skips c n -> skips c m.
Proof.
  intros Hm [H1 H2 H3 H4]. split; [intros Hn|intros Hn| |]; red; intros;
    [apply H1|apply H2|apply H3|apply H4]; try done; lia.
Qed.

Lemma node_chain c n : is_node c = true -> skips_node c n -> skips_chain c n.
Proof.
  intros Hc H f g rest s Hf Hg He Hs. replace (ops c) with 0 by (by destruct c). cbn [Nat.add]. unfold and_or_step.
  by rewrite (bind_Done _ _ _ _ _ (H f g rest s Hf Hg He Hs)).
Qed.

Lemma chain_run_and_or c n f rest s :
  skips_chain c n -> n + ops c + 2 <= f -> andor_end rest = true -> calm s ->
  run_and_or f (toks c ++ rest) false s = Done (rest, skip_status c s) s.
Proof.
  intros H Hf He Hs. destruct f as [|f]; [lia|]. cbn [run_and_or]. replace f with (ops c + S (f - ops c - 1)) at 4 by lia.
  rewrite H by (try done; try lia; by apply andor_end_node). by apply chain_end.
Qed.

Lemma not_end_not_done c p : wf c = true -> ty_is T_EOF (toks c ++ p) || is_kw (toks c ++ p) "done" = false.
Proof. intros Hw. pose proof (toks_not_end c p Hw) as H. unfold at_block_end in H. boolify. apply orb_false_intro; done. Qed.

(** One element of the body that is passed over. *)
Lemma skip_to_step f g c p st s :
  wf c = true -> run_and_or f (toks c ++ op_tok T_SEMI :: p) false s = Done (op_tok T_SEMI :: p, st) s -> skip_seps p = p ->
  skip_to (run_and_or f) (S g) "done" (toks c ++ op_tok T_SEMI :: p) s = skip_to (run_and_or f) g "done" p s.
Proof.
  intros Hw E Hp. cbn [skip_to]. rewrite not_end_not_done by done. rewrite (bind_Done _ _ _ _ _ E). cbn beta iota.
  change (skip_seps (op_tok T_SEMI :: p)) with (skip_seps p). rewrite Hp.
  replace (length p =? length (toks c ++ op_tok T_SEMI :: p)) with false; [done|].
  symmetry. apply Nat.eqb_neq. rewrite length_app. simpl. lia.
Qed.

Lemma chain_skips c n : wf c = true -> is_seq c = false -> (is_node c = true -> skips_node c n) -> skips_chain c n -> skips c (n + ops c + 3).
Proof.
  intros Hw Hc Hn H. split.
  - intros Hnode f g rest s Hf Hg. apply Hn; [done|lia|lia].
  - intros _ f g rest s Hf Hg. apply H; lia.
  - intros f g x rest s Hf Hg He Hs. replace g with (S (S (g - 2))) by lia. apply elems_last; try done.
    apply (chain_run_and_or c n); [done|lia|by apply list_end_andor|done].
  - intros f g rest s Hf Hg Hs. replace g with (S (S (g - 2))) by lia.
    erewrite skip_to_step; [done|done|apply (chain_run_and_or c n); [done|lia|done|done]|done].
Qed.

Lemma node_skips c n : wf c = true -> is_node c = true -> skips_node c n -> skips c (n + 3).
Proof.
  intros Hw Hc H. apply (skips_more _ (n + ops c + 3)); [destruct c; simpl in *; try done; lia|].
  apply chain_skips; [done|by destruct c|done|by apply node_chain].
Qed.

Lemma skips_run_list c n f rest s :
  skips_list c n -> S n <= f -> list_end rest = true -> calm s ->
  run_list f (toks c ++ rest) false s = Done (skip_seps rest, skip_status c s) s.
Proof.
  intros H Hf He Hs. destruct f as [|f]; [lia|]. cbn [run_list]. unfold list_step.
  rewrite (bind_Done _ _ s (sh_exit s) s) by done. apply H; [lia|lia|done|done].
Qed.

Lemma skip_op o a b n m :
  o = T_AND \/ o = T_OR -> wf b = true -> is_node b = true -> skips_chain a n -> skips_node b m -> forall f g rest s,
  n + m <= f -> n + m <= g -> node_end rest = true -> calm s ->
  and_or f (S (ops a) + g) (toks a ++ op_tok o :: toks b ++ rest) false s = chain f g rest false (skip_status a s) s.
Proof.
  intros Ho Hb Hn Ha Hbn f g rest s Hf Hg He Hs. replace (S (ops a) + g) with (ops a + S g) by lia.
  rewrite Ha; [|lia|lia|by destruct Ho as [-> | ->]|done]. rewrite chain_op by done. cbn zeta. cbn [andb].
  rewrite (bind_Done _ _ _ _ _ (Hbn f g rest s ltac:(lia) ltac:(lia) He Hs)). done.
Qed.

Lemma skip_and a b n m : wf b = true -> is_node b = true -> skips_chain a n -> skips_node b m -> skips_chain (AndIf a b) (n + m).
Proof. intros Hb Hn Ha Hbn f g rest s. cbn [toks ops skip_status]. rewrite <- app_assoc. apply (skip_op T_AND a b n m); auto. Qed.

Lemma skip_or a b n m : wf b = true -> is_node b = true -> skips_chain a n -> skips_node b m -> skips_chain (OrIf a b) (n + m).
Proof. intros Hb Hn Ha Hbn f g rest s. cbn [toks ops skip_status]. rewrite <- app_assoc. apply (skip_op T_OR a b n m); auto. Qed.

Lemma skip_seq a b n m : wf a = true -> wf b = true -> is_seq a = false -> skips a n -> skips b m -> skips (Seq a b) (n + m + ops a + 3).
Proof.
  intros Hwa Hwb Hna Ha Hb. split; [done|done| |].
  - intros f g x rest s Hf Hg He Hs. cbn [toks skip_status]. rewrite <- app_assoc. cbn [app]. replace g with (S (g - 1)) by lia.
    erewrite elems_next; [|done|done|apply (chain_run_and_or a n); [by apply (sk_chain a n)|lia|done|done]|done].
    apply (sk_list b m); [done|lia|lia|done|done].
  - intros f g rest s Hf Hg Hs. cbn [toks]. rewrite <- app_assoc. cbn [app]. replace g with (S (g - 1)) by lia.
    erewrite skip_to_step; [|done|apply (chain_run_and_or a n); [by apply (sk_chain a n)|lia|done|done]|by apply toks_skip_seps].
    apply (sk_body b m); [done|lia|lia|done].
Qed.

(** The tokens of compound commands, with what follows. *)
Lemma toks_if c t rest :
  toks (If c t) ++ rest =
  kw_tok "if" :: toks c ++ op_tok T_SEMI :: kw_tok "then" :: toks t ++ op_tok T_SEMI :: kw_tok "fi" :: rest.
Proof. cbn [toks app]. by rewrite <- !app_assoc; cbn [app]; rewrite <- !app_assoc. Qed.

Lemma toks_ifelse c t e rest :
  toks (IfElse c t e) ++ rest =
  kw_tok "if" :: toks c ++ op_tok T_SEMI :: kw_tok "then" :: toks t ++ op_tok T_SEMI :: kw_tok "else" :: toks e ++
  op_tok T_SEMI :: kw_tok "fi" :: rest.
Proof. cbn [toks app]. by do 4 (rewrite <- ?app_assoc; cbn [app]). Qed.

Lemma toks_while u c b rest :
  toks (While u c b) ++ rest =
  kw_tok (if u then "until" else "while") :: toks c ++ op_tok T_SEMI :: kw_tok "do" :: toks b ++ op_tok T_SEMI :: kw_tok "done" :: rest.
Proof. cbn [toks app]. by rewrite <- !app_assoc; cbn [app]; rewrite <- !app_assoc. Qed.

Lemma toks_for x ws b rest :
  toks (For x ws b) ++ rest =
  kw_tok "for" :: word_tok x :: kw_tok "in" :: (word_tok <$> ws) ++ op_tok T_SEMI :: kw_tok "do" :: toks b ++
  op_tok T_SEMI :: kw_tok "done" :: rest.
Proof. cbn [toks app]. by rewrite <- !app_assoc; cbn [app]; rewrite <- !app_assoc. Qed.

Lemma toks_brace b rest : toks (Brace b) ++ rest = kw_tok "{" :: toks b ++ op_tok T_SEMI :: kw_tok "}" :: rest.
Proof. cbn [toks app]. by rewrite <- !app_assoc. Qed.

Lemma toks_subshell b rest : toks (Subshell b) ++ rest = op_tok T_LPAREN :: toks b ++ op_tok T_RPAREN :: rest.
Proof. cbn [toks app]. by rewrite <- !app_assoc. Qed.

Lemma run_simple_skip f l rest s :
  simple_ok l = true -> node_end rest = true ->
  run_simple (run_and_or f) (run_program f) (items_toks l ++ rest) false s = Done (rest, sh_exit s) s.
Proof. intros Hl He. unfold run_simple. destruct (parse_command l Hl) as (r & d & _ & Hp). by rewrite Hp. Qed.

Lemma skip_simple l : simple_ok l = true -> skips_node (Simple l) 1.
Proof.
  intros Hl f g rest s Hf Hg He Hs. destruct g as [|g]; [lia|]. cbn [toks]. rewrite node_simple by done.
  by apply run_simple_skip.
Qed.

Lemma for_words_end f ws q run b s b' s' :
  forallb (λ w, negb (beq w (B "do"))) ws = true -> ty q = T_SEMI ->
  for_words (run_program f) (word_tok <$> ws) run b s = Done ([], b') s' ->
  for_words (run_program f) ((word_tok <$> ws) ++ q) run b s = Done (q, b') s'.
Proof.
  intros Hw Hq. revert b s. induction ws as [|w ws IH]; intros b s E; cbn [fmap list_fmap app] in *.
  - cbn [for_words] in *. injection E as <- <-. destruct q as [|[[] [w|]] q]; done.
  - cbn [forallb] in Hw. boolify. cbn [for_words] in *. change (is_kw (word_tok w :: ?x) "do") with (beq w (B "do")) in *.
    rewrite H in *. change (word_tok w) with (Tok T_WORD (Some w)) in *. cbn iota in *. destruct run; [|by apply IH].
    unfold mbind, sh_bind in *. destruct (expand_word _ _ _ _); try done. by apply IH.
Qed.

Lemma skips_to_kw c n f w rest s :
  skips c n -> S n <= f -> at_block_end [kw_tok w] = true -> calm s ->
  run_list f (toks c ++ op_tok T_SEMI :: kw_tok w :: rest) false s = Done (kw_tok w :: rest, skip_status c s) s.
Proof. intros H Hf Hw Hs. by apply (skips_run_list c n); [apply H|lia| |]. Qed.

(** One branch of an if: its condition, its body, and what comes next. *)
Lemma if_branch f g p run taken s body v s1 q w s2 :
  run_list f p (run && negb taken) s = Done (kw_tok "then" :: body, v) s1 ->
  run_list f body (run && negb taken && (v =? 0)%Z) s1 = Done (q, w) s2 ->
  if_loop (run_list f) (S g) p run taken s =
    (let taken := taken || (run && negb taken && (v =? 0)%Z) in
     let p := skip_seps q in
     if is_kw p "elif" then if_loop (run_list f) g (tail p) run taken
     else if is_kw p "else" then
       '(p, result) ← run_list f (tail p) (run && negb taken);
       mret (skip_seps p, taken || run && negb taken, result)
     else mret (p, taken, w)) s2.
Proof.
  intros E1 E2. cbn [if_loop]. rewrite (bind_Done _ _ _ _ _ E1). cbn beta iota.
  change (skip_kw "then" (skip_seps (kw_tok "then" :: body))) with body. by rewrite (bind_Done _ _ _ _ _ E2).
Qed.

Lemma if_branch_else f g p run s body v s1 q w s2 ep q3 w3 s3 :
  run_list f p run s = Done (kw_tok "then" :: body, v) s1 ->
  run_list f body (run && (v =? 0)%Z) s1 = Done (q, w) s2 -> skip_seps q = kw_tok "else" :: ep ->
  run_list f ep (run && negb (v =? 0)%Z) s2 = Done (q3, w3) s3 ->
  if_loop (run_list f) (S g) p run false s = Done (skip_seps q3, run, w3) s3.
Proof.
  intros E1 E2 Eq E3. rewrite (if_branch f g p run false s body v s1 q w s2); [|by rewrite andb_true_r|by rewrite andb_true_r].
  cbn zeta. rewrite Eq. change (is_kw (kw_tok "else" :: ep) "elif") with false. cbn iota.
  change (is_kw (kw_tok "else" :: ep) "else") with true. cbn iota.
  cbn [tail negb orb]. rewrite andb_true_r. replace (run && negb (run && (v =? 0)%Z)) with (run && negb (v =? 0)%Z) by (by destruct run, (v =? 0)%Z).
  rewrite (bind_Done _ _ _ _ _ E3). by destruct run, (v =? 0)%Z.
Qed.

Lemma node_if f g p run s q tk v s' :
  is_funcdef (kw_tok "if" :: p) = false -> if_loop (run_list f) g p run false s = Done (q, tk, v) s' ->
  node f g (kw_tok "if" :: p) run s = Done (skip_kw "fi" q, if tk : bool then v else 0%Z) s'.
Proof.
  intros Hf E. rewrite node_compound, run_command_compound by done. change (is_kw [kw_tok "if"] "if") with true. cbn iota.
  unfold run_if. cbn [tail]. by rewrite (bind_Done _ _ _ _ _ E).
Qed.

Lemma skip_if c t n m : wf c = true -> wf t = true -> skips c n -> skips t m -> skips_node (If c t) (n + m + 2).
Proof.
  intros Hwc Hwt Hc Ht f g rest s Hf Hg He Hs. rewrite toks_if. replace g with (S (g - 1)) by lia.
  erewrite node_if; [|by apply is_funcdef_before|]; [|erewrite if_branch;
    [|apply (skips_to_kw c n); [done|lia|done|done]|apply (skips_to_kw t m); [done|lia|done|done]]; reflexivity].
  done.
Qed.

Lemma skip_ifelse c t e n m k :
  wf c = true -> wf t = true -> skips c n -> skips t m -> skips e k -> skips_node (IfElse c t e) (n + m + k + 2).
Proof.
  intros Hwc Hwt Hc Ht Hk f g rest s Hf Hg He Hs. rewrite toks_ifelse. replace g with (S (g - 1)) by lia.
  erewrite node_if; [|by apply is_funcdef_before|]; [|eapply if_branch_else;
    [apply (skips_to_kw c n); [done|lia|done|done]|apply (skips_to_kw t m); [done|lia|done|done]|reflexivity
    |apply (skips_to_kw e k); [done|lia|done|done]]].
  done.
Qed.

(** The end of a loop. *)
Lemma past_done_body c n f g rest s :
  skips_body c n -> n <= f -> n <= g -> calm s ->
  past_done (run_and_or f) g (toks c ++ op_tok T_SEMI :: kw_tok "done" :: rest) s = Done rest s.
Proof. intros H Hf Hg Hs. unfold past_done. by rewrite (bind_Done _ _ _ _ _ (H f g rest s Hf Hg Hs)). Qed.

Lemma node_while f g (u : bool) p run s q v s1 :
  is_funcdef (kw_tok (if u then "until" else "while") :: p) = false ->
  run_list f p false s = Done (kw_tok "do" :: q, v) s1 ->
  node f g (kw_tok (if u then "until" else "while") :: p) run s =
    (if negb run then q' ← past_done (run_and_or f) g q; get_status q' else
     result ← while_loop (run_list f) (Z.to_nat WHILE_MAX) p q u (sh_exit s1);
     q' ← past_done (run_and_or f) g q;
     mret (q', result)) s1.
Proof.
  intros Hf E. rewrite node_compound, run_command_compound by (by destruct u).
  transitivity (run_while (run_list f) (run_and_or f) g (kw_tok (if u then "until" else "while") :: p) run u s); [by destruct u|].
  unfold run_while. cbn [tail]. rewrite (bind_Done _ _ _ _ _ E). cbn beta iota.
  rewrite (bind_Done _ _ s1 (sh_exit s1) s1) by done. change (skip_kw "do" (kw_tok "do" :: q)) with q. done.
Qed.

Lemma skip_while (u : bool) c b n m :
  wf c = true -> wf b = true -> skips c n -> skips b m -> skips_node (While u c b) (n + m + 2).
Proof.
  intros Hwc Hwb Hc Hb f g rest s Hf Hg He Hs. rewrite toks_while.
  erewrite node_while; [|by apply is_funcdef_before|apply (skips_to_kw c n); [done|lia|done|done]].
  cbn [negb]. by rewrite (bind_Done _ _ _ _ _ (past_done_body b m f g rest s (sk_body _ _ Hb) ltac:(lia) ltac:(lia) Hs)).
Qed.

Lemma node_for f g x ws q run s b s1 :
  forallb (λ w, negb (beq w (B "do"))) ws = true ->
  for_words (run_program f) (word_tok <$> ws) run (for_buffer s) s = Done ([], b) s1 ->
  node f g (kw_tok "for" :: word_tok x :: kw_tok "in" :: (word_tok <$> ws) ++ op_tok T_SEMI :: kw_tok "do" :: q) run s =
    (if negb run then q' ← past_done (run_and_or f) g q; get_status q' else
     result ← for_loop (run_list f) (inl <$> fb_argv b) (take 63 x) q (sh_exit s1);
     q' ← past_done (run_and_or f) g q;
     mret (q', result)) (with_wbuf (fb_arena b) s1).
Proof.
  intros Hw E. rewrite node_compound, run_command_compound by (try done; apply for_not_funcdef).
  change (is_kw [kw_tok "for"] "if") with false. change (is_kw [kw_tok "for"] "for") with true. cbn iota.
  unfold run_for. cbn [tail]. change (ty_is T_WORD (word_tok x :: ?p)) with true. cbn iota. cbn [tok_text word_tok tail].
  rewrite (bind_Done _ _ s (sh_wbuf s) s) by done. change (is_kw (kw_tok "in" :: ?p) "in") with true. cbn [negb tail].
  rewrite (bind_Done _ _ _ _ _ (for_words_end f ws (op_tok T_SEMI :: kw_tok "do" :: q) _ _ _ _ _ Hw eq_refl E)). cbn beta iota.
  rewrite (bind_Done _ _ s1 tt (with_wbuf (fb_arena b) s1)) by done.
  change (skip_kw "do" (skip_seps (op_tok T_SEMI :: kw_tok "do" :: q))) with q.
  destruct run; [|done]. cbn [negb].
  rewrite (bind_Done _ _ _ (sh_exit s1) (with_wbuf (fb_arena b) s1)) by (by destruct s1).
  by rewrite (bind_Done _ _ _ (sh_nparams s1) (with_wbuf (fb_arena b) s1)) by (by destruct s1).
Qed.

Lemma for_words_skip f ws b s : for_words (run_program f) (word_tok <$> ws) false b s = Done ([], b) s \/ forallb (λ w, negb (beq w (B "do"))) ws = false.
Proof.
  induction ws as [|w ws IH]; [by left|]. cbn [fmap list_fmap for_words forallb]. change (word_tok w) with (Tok T_WORD (Some w)). cbn iota.
  change (is_kw (Tok T_WORD (Some w) :: ?x) "do") with (beq w (B "do")). destruct (beq w (B "do")); [by right|]. exact IH.
Qed.

Lemma skip_for x ws b m : wf (For x ws b) = true -> skips b m -> skips_node (For x ws b) (m + 2).
Proof.
  intros Hw Hb f g rest s Hf Hg He Hs. rewrite toks_for. cbn [wf] in Hw. boolify.
  destruct (for_words_skip f ws (for_buffer s) s) as [E|E]; [|congruence].
  erewrite node_for; [|done|done]. cbn [negb]. change (fb_arena (for_buffer s)) with (sh_wbuf s). rewrite with_wbuf_same.
  by rewrite (bind_Done _ _ _ _ _ (past_done_body b m f g rest s (sk_body _ _ Hb) ltac:(lia) ltac:(lia) Hs)).
Qed.

Lemma node_brace f g p run :
  is_funcdef (kw_tok "{" :: p) = false ->
  node f g (kw_tok "{" :: p) run = ('(q, r) ← run_list f p run; mret (skip_kw "}" q, r)).
Proof. intros Hf. by rewrite node_compound, run_command_compound. Qed.

Lemma skip_brace b m : wf b = true -> skips b m -> skips_node (Brace b) (m + 2).
Proof.
  intros Hw Hb f g rest s Hf Hg He Hs. rewrite toks_brace, node_brace by (by apply is_funcdef_before).
  by rewrite (bind_Done _ _ _ _ _ (skips_run_list b m f (op_tok T_SEMI :: kw_tok "}" :: rest) s (sk_list _ _ Hb) ltac:(lia) eq_refl Hs)).
Qed.

Lemma node_subshell f g p run :
  node f g (op_tok T_LPAREN :: p) run = run_subshell (run_list f) (op_tok T_LPAREN :: p) run.
Proof. by rewrite node_compound, run_command_compound. Qed.

Lemma skip_subshell b m : wf b = true -> skips b m -> skips_node (Subshell b) (m + 2).
Proof.
  intros Hw Hb f g rest s Hf Hg He Hs. rewrite toks_subshell, node_subshell. unfold run_subshell. cbn [negb tail].
  by rewrite (bind_Done _ _ _ _ _ (skips_run_list b m f (op_tok T_RPAREN :: rest) s (sk_list _ _ Hb) ltac:(lia) eq_refl Hs)).
Qed.

Lemma skips_all c : wf c = true -> exists n, skips c n.
Proof.
  induction c as [l|a IHa b IHb|a IHa b IHb|a IHa b IHb|c IHc t IHt|c IHc t IHt e IHe|u c IHc b IHb|x ws b IHb|b IHb|b IHb];
    intros Hw; pose proof Hw as Hw'; cbn [wf] in Hw; boolify;
    repeat match goal with IH : ?P = true -> _, H : ?P = true |- _ => destruct (IH H) as [? ?]; clear IH end;
    try (eexists; apply node_skips; [done|done|]).
  - by apply skip_simple.
  - eexists. by apply skip_seq.
  - eexists. apply chain_skips; [done|done|done|]. eapply skip_and; eauto using sk_chain, sk_node.
  - eexists. apply chain_skips; [done|done|done|]. eapply skip_or; eauto using sk_chain, sk_node.
  - by apply skip_if.
  - by apply skip_ifelse.
  - by apply skip_while.
  - by apply skip_for.
  - by apply skip_brace.
  - by apply skip_subshell.
Qed.

End Exact.
