(* ===== verification/StshRefine.v ===== *)
(** The executor of stsh does what the trees say: if [exec] takes a tree from one
    state to another, then [run_list] on the tokens of the tree, with enough fuel,
    ends in that state with that status. *)

From S2P Require Import Prelude CString Posix StshEnv StshLexer StshArith StshExpand StshRun StshMain StshSkip StshSemantics.
Local Open Scope nat_scope.

Scheme exec_mut := Minimality for exec Sort Prop
  with exec_while_mut := Minimality for exec_while Sort Prop
  with exec_for_mut := Minimality for exec_for Sort Prop.
Combined Scheme exec_all from exec_mut, exec_while_mut, exec_for_mut.

Section Refine.

Context {kw : Type} `{K : Kernel kw}.

Implicit Types (s : shell kw) (p q rest : pos) (c : com).

Local Notation node f g := (run_pipeline_node (run_list f) (run_and_or f) (run_program f) g).
Local Notation and_or f g := (and_or_step (run_list f) (run_and_or f) (run_program f) g).
Local Notation chain f g := (and_or_loop (run_list f) (run_and_or f) (run_program f) g).
Local Notation elems f g := (list_loop (run_and_or f) g).

(** * Where a tree that ran leaves the executor *)

Definition fin rest q s' : Prop := q = rest \/ (~ calm s' /\ mid q).
Definition list_fin rest q s' : Prop := (calm s' /\ q = skip_seps rest) \/ (~ calm s' /\ (q = rest \/ mid q)).

Definition runs_node c s v s' n : Prop := forall f g rest,
  n <= f -> n <= g -> node_end rest = true -> exists q, node f g (toks c ++ rest) true s = Done (q, v) s' /\ fin rest q s'.
Definition runs_chain c s v s' n : Prop := forall f g rest,
  n <= f -> n <= g -> node_end rest = true ->
  exists q, and_or f (ops c + g) (toks c ++ rest) true s = chain f g q true v s' /\ fin rest q s'.
Definition runs_list c s v s' n : Prop := forall f g x rest,
  n <= f -> n <= g -> list_end rest = true ->
  exists q, elems f g (toks c ++ rest) true x s = Done (q, v) s' /\ list_fin rest q s'.

Record runs c s v s' n : Prop := Runs {
  rn_node : is_node c = true -> runs_node c s v s' n;
  rn_chain : is_seq c = false -> runs_chain c s v s' n;
  rn_list : runs_list c s v s' n }.

Lemma calm_dec s : {calm s} + {~ calm s}.
Proof. unfold calm. apply decide, _. Defined.

Lemma fin_calm rest q s' : calm s' -> fin rest q s' -> q = rest.
Proof. intros Hc [H|[H _]]; [done|by destruct H]. Qed.

Lemma runs_more c s v s' n m : n <= m -> runs c s v s' n -> runs c s v s' m.
Proof.
  intros Hm [H1 H2 H3]. split; [intros Hn|intros Hn|]; red; intros; [apply H1|apply H2|apply H3]; try done; lia.
Qed.

Lemma node_runs_chain c s v s' n : is_node c = true -> runs_node c s v s' n -> runs_chain c s v s' n.
Proof.
  intros Hc H f g rest Hf Hg He. destruct (H f g rest Hf Hg He) as (q & E & Hq). exists q. split; [|done].
  replace (ops c) with 0 by (by destruct c). cbn [Nat.add]. unfold and_or_step. by rewrite (bind_Done _ _ _ _ _ E).
Qed.

Lemma chain_mid f g q run v s : mid q -> chain f (S g) q run v s = Done (q, v) s.
Proof. intros (H1 & H2 & _). cbn [and_or_loop]. by rewrite H1, H2. Qed.

Lemma chain_fin f g rest q v s : andor_end rest = true -> fin rest q s -> chain f (S g) q true v s = Done (q, v) s.
Proof. intros He [-> | [_ Hm]]; [by apply chain_end|by apply chain_mid]. Qed.

Lemma runs_and_or c s v s' n f rest :
  runs_chain c s v s' n -> n + ops c + 2 <= f -> andor_end rest = true ->
  exists q, run_and_or f (toks c ++ rest) true s = Done (q, v) s' /\ fin rest q s'.
Proof.
  intros H Hf He. destruct f as [|f]; [lia|].
  destruct (H f (S (f - ops c - 1)) rest) as (q & E & Hq); [lia|lia|by apply andor_end_node|].
  exists q. split; [|done]. replace (ops c + S (f - ops c - 1)) with f in E by lia.
  change (run_and_or (S f) (toks c ++ rest) true s) with (and_or f f (toks c ++ rest) true s). rewrite E. by eapply chain_fin.
Qed.

(** Leaving a list early. *)
Lemma elems_out f g c rest x s q v s' :
  wf c = true -> run_and_or f (toks c ++ rest) true s = Done (q, v) s' -> ~ calm s' ->
  elems f (S g) (toks c ++ rest) true x s = Done (q, v) s'.
Proof. intros Hw E Hn. rewrite (elems_step _ _ _ _ _ _ _ _ _ _ Hw E). by rewrite bool_decide_false. Qed.

Lemma chain_runs c s v s' n :
  wf c = true -> is_seq c = false -> (is_node c = true -> runs_node c s v s' n) -> runs_chain c s v s' n ->
  runs c s v s' (n + ops c + 3).
Proof.
  intros Hw Hc Hn H. split.
  - intros Hnode f g rest Hf Hg. apply Hn; [done|lia|lia].
  - intros _ f g rest Hf Hg. apply H; lia.
  - intros f g x rest Hf Hg He. destruct (runs_and_or c s v s' n f rest H) as (q & E & Hq); [lia|by apply list_end_andor|].
    replace g with (S (S (g - 2))) by lia. destruct (calm_dec s') as [Hs|Hs].
    + rewrite (fin_calm rest q s' Hs Hq) in E. eexists. split; [by apply elems_last|by left].
    + exists q. split; [by apply elems_out|]. right. split; [done|]. destruct Hq as [-> | [_ Hm]]; [by left|by right].
Qed.

Lemma node_runs c s v s' n : wf c = true -> is_node c = true -> runs_node c s v s' n -> runs c s v s' (n + 3).
Proof.
  intros Hw Hc H. apply (runs_more _ _ _ _ (n + ops c + 3)); [destruct c; simpl in *; try done; lia|].
  apply chain_runs; [done|by destruct c|done|by apply node_runs_chain].
Qed.

(** A list up to the word that closes it. *)
Lemma runs_run_list c s v s' n f rest :
  runs c s v s' n -> S n <= f -> list_end rest = true ->
  exists q, run_list f (toks c ++ rest) true s = Done (q, v) s' /\ list_fin rest q s'.
Proof.
  intros H Hf He. destruct f as [|f]; [lia|]. cbn [run_list]. unfold list_step.
  rewrite (bind_Done _ _ s (sh_exit s) s) by done. apply (rn_list _ _ _ _ _ H); [lia|lia|done].
Qed.

Lemma runs_to_kw c s v s' n f w rest :
  runs c s v s' n -> S n <= f -> at_block_end [kw_tok w] = true -> calm s' ->
  run_list f (toks c ++ op_tok T_SEMI :: kw_tok w :: rest) true s = Done (kw_tok w :: rest, v) s'.
Proof.
  intros H Hf Hw Hc. destruct (runs_run_list c s v s' n f (op_tok T_SEMI :: kw_tok w :: rest) H Hf Hw) as (q & E & [[_ ->]|[Hn _]]);
    [exact E|done].
Qed.

(** * Each construct *)

Lemma run_simple_tail f l rest s v s' :
  simple_ok l = true -> node_end rest = true ->
  run_simple (run_and_or f) (run_program f) (items_toks l) true s = Done ([], v) s' ->
  run_simple (run_and_or f) (run_program f) (items_toks l ++ rest) true s = Done (rest, v) s'.
Proof.
  intros Hl He. destruct (parse_command l Hl) as (r & d & Hr & Hp). pose proof (Hp [] eq_refl) as Hp0. rewrite app_nil_r in Hp0.
  unfold run_simple. rewrite Hp0, Hp by done. rewrite Hr. cbn [negb orb].
  replace (ty_is T_AMP rest) with false by (unfold node_end in He; unfold ty_is; by destruct (ty rest)).
  change (ty_is T_AMP []) with false. unfold mbind, sh_bind. destruct (simple_body _ _ _ _ _ _); try done. intros [= <- <-]. done.
Qed.

Lemma run_simple_case l s v s' f0 :
  wf (Simple l) = true ->
  (forall f, f0 <= f -> run_simple (run_and_or f) (run_program f) (items_toks l) true s = Done ([], v) s') ->
  runs_node (Simple l) s v s' (S f0).
Proof.
  intros Hl H f g rest Hf Hg He. exists rest. split; [|by left]. destruct g as [|g]; [lia|]. cbn [toks].
  rewrite node_simple by done. apply run_simple_tail; [done|done|]. apply H. lia.
Qed.

Lemma run_seq_stop a b s v s' n : wf a = true -> wf b = true -> is_seq a = false -> runs a s v s' n -> ~ calm s' ->
  runs (Seq a b) s v s' (n + ops a + 3).
Proof.
  intros Ha Hb Hn H Hs. split; [done|done|]. intros f g x rest Hf Hg He. cbn [toks]. rewrite <- app_assoc. cbn [app].
  destruct (runs_and_or a s v s' n f (op_tok T_SEMI :: toks b ++ rest)) as (q & E & Hq); [by apply (rn_chain _ _ _ _ _ H)|lia|done|].
  exists q. replace g with (S (g - 1)) by lia. split; [by apply elems_out|]. right. split; [done|]. right.
  destruct Hq as [-> | [_ Hm]]; [by apply mid_before|done].
Qed.

Lemma run_seq a b s v s1 w s2 n m :
  wf a = true -> wf b = true -> is_seq a = false -> runs a s v s1 n -> calm s1 -> runs b s1 w s2 m ->
  runs (Seq a b) s w s2 (n + m + ops a + 3).
Proof.
  intros Ha Hb Hn H Hs Hm. split; [done|done|]. intros f g x rest Hf Hg He. cbn [toks]. rewrite <- app_assoc. cbn [app].
  destruct (runs_and_or a s v s1 n f (op_tok T_SEMI :: toks b ++ rest)) as (q & E & Hq); [by apply (rn_chain _ _ _ _ _ H)|lia|done|].
  apply fin_calm in Hq as ->; [|done]. replace g with (S (g - 1)) by lia.
  rewrite (elems_next _ _ _ _ _ _ _ _ _ _ Ha Hb E Hs). apply (rn_list _ _ _ _ _ Hm); [lia|lia|done].
Qed.

(** An operator whose right side runs, and one whose right side is passed over. *)
Lemma run_op o a b s v s1 w s2 n m :
  o = T_AND \/ o = T_OR -> (if ty_is T_AND [op_tok o] then (v =? 0)%Z else negb (v =? 0)%Z) = true ->
  wf b = true -> is_node b = true -> runs_chain a s v s1 n -> calm s1 -> runs_node b s1 w s2 m -> forall f g rest,
  n + m <= f -> n + m <= g -> node_end rest = true ->
  exists q, and_or f (S (ops a) + g) (toks a ++ op_tok o :: toks b ++ rest) true s = chain f g q true w s2 /\ fin rest q s2.
Proof.
  intros Ho Hv Hb Hn Ha Hs Hbn f g rest Hf Hg He.
  destruct (Ha f (S g) (op_tok o :: toks b ++ rest)) as (q & E & Hq); [lia|lia|by destruct Ho as [-> | ->]|].
  apply fin_calm in Hq as ->; [|done]. replace (S (ops a) + g) with (ops a + S g) by lia. rewrite E, chain_op by done. cbn zeta.
  change (ty_is T_AND (op_tok o :: rest)) with (ty_is T_AND [op_tok o]). rewrite Hv. cbn [andb].
  destruct (Hbn f g rest) as (q & E2 & Hq); [lia|lia|done|]. exists q. split; [|done]. by rewrite (bind_Done _ _ _ _ _ E2).
Qed.

Lemma run_op_not o a b s v s1 n m :
  o = T_AND \/ o = T_OR -> (if ty_is T_AND [op_tok o] then (v =? 0)%Z else negb (v =? 0)%Z) = false ->
  wf b = true -> is_node b = true -> runs_chain a s v s1 n -> calm s1 -> skips_node b m -> forall f g rest,
  n + m <= f -> n + m <= g -> node_end rest = true ->
  exists q, and_or f (S (ops a) + g) (toks a ++ op_tok o :: toks b ++ rest) true s = chain f g q true v s1 /\ fin rest q s1.
Proof.
  intros Ho Hv Hb Hn Ha Hs Hbn f g rest Hf Hg He.
  destruct (Ha f (S g) (op_tok o :: toks b ++ rest)) as (q & E & Hq); [lia|lia|by destruct Ho as [-> | ->]|].
  apply fin_calm in Hq as ->; [|done]. replace (S (ops a) + g) with (ops a + S g) by lia. rewrite E, chain_op by done. cbn zeta.
  change (ty_is T_AND (op_tok o :: rest)) with (ty_is T_AND [op_tok o]). rewrite Hv. cbn [andb].
  exists rest. split; [|by left]. by rewrite (bind_Done _ _ _ _ _ (Hbn f g rest s1 ltac:(lia) ltac:(lia) He Hs)).
Qed.

(** The end of an if, reached in order or left early. *)
Lemma after_then rest q s2 :
  list_fin (op_tok T_SEMI :: kw_tok "fi" :: rest) q s2 ->
  is_kw (skip_seps q) "elif" = false /\ is_kw (skip_seps q) "else" = false /\ fin rest (skip_kw "fi" (skip_seps q)) s2.
Proof.
  intros [[_ ->]|[Hn [-> |Hm]]]; [by repeat split; left|by repeat split; left|].
  pose proof Hm as (_ & _ & H1 & H2 & H3 & _). split; [done|]. split; [done|]. right. split; [done|].
  unfold skip_kw. rewrite H3. by apply mid_skip_seps.
Qed.

Lemma run_if_then c t s s1 w s2 n m :
  wf c = true -> wf t = true -> runs c s 0%Z s1 n -> calm s1 -> runs t s1 w s2 m -> runs_node (If c t) s w s2 (n + m + 2).
Proof.
  intros Hwc Hwt Hc Hs Ht f g rest Hf Hg He. rewrite toks_if. replace g with (S (g - 1)) by lia.
  destruct (runs_run_list t s1 w s2 m f (op_tok T_SEMI :: kw_tok "fi" :: rest) Ht) as (q & E & Hq); [lia|done|].
  apply after_then in Hq as (H1 & H2 & Hq). exists (skip_kw "fi" (skip_seps q)). split; [|done].
  erewrite node_if; [|by apply is_funcdef_before|]; [|erewrite if_branch; [|apply (runs_to_kw c s 0%Z s1 n); [done|lia|done|done]|exact E];
    cbn zeta; rewrite H1, H2; reflexivity].
  done.
Qed.

Lemma run_if_not c t s v s1 n m :
  wf c = true -> wf t = true -> runs c s v s1 n -> calm s1 -> v <> 0%Z -> skips t m -> runs_node (If c t) s 0%Z s1 (n + m + 2).
Proof.
  intros Hwc Hwt Hc Hs Hv Ht f g rest Hf Hg He. rewrite toks_if. replace g with (S (g - 1)) by lia.
  exists rest. split; [|by left]. apply Z.eqb_neq in Hv.
  erewrite node_if; [|by apply is_funcdef_before|]; [|erewrite if_branch; [|apply (runs_to_kw c s v s1 n); [done|lia|done|done]
    |rewrite Hv; apply (skips_to_kw t m); [done|lia|done|done]]; cbn zeta; rewrite Hv; reflexivity].
  done.
Qed.

Lemma run_ifelse_then c t e s s1 w s2 n m k :
  wf c = true -> wf t = true -> runs c s 0%Z s1 n -> calm s1 -> runs t s1 w s2 m -> calm s2 -> skips e k ->
  runs_node (IfElse c t e) s (skip_status e s2) s2 (n + m + k + 2).
Proof.
  intros Hwc Hwt Hc Hs Ht Hs2 Hk f g rest Hf Hg He. rewrite toks_ifelse. replace g with (S (g - 1)) by lia.
  exists rest. split; [|by left].
  erewrite node_if; [|by apply is_funcdef_before|]; [|eapply if_branch_else;
    [apply (runs_to_kw c s 0%Z s1 n); [done|lia|done|done]|apply (runs_to_kw t s1 w s2 m); [done|lia|done|done]|reflexivity
    |apply (skips_to_kw e k); [done|lia|done|done]]].
  done.
Qed.

Lemma run_ifelse_else c t e s v s1 w s2 n m k :
  wf c = true -> wf t = true -> runs c s v s1 n -> calm s1 -> v <> 0%Z -> skips t m -> runs e s1 w s2 k ->
  runs_node (IfElse c t e) s w s2 (n + m + k + 2).
Proof.
  intros Hwc Hwt Hc Hs Hv Ht Hk f g rest Hf Hg He. rewrite toks_ifelse. replace g with (S (g - 1)) by lia.
  destruct (runs_run_list e s1 w s2 k f (op_tok T_SEMI :: kw_tok "fi" :: rest) Hk) as (q & E & Hq); [lia|done|].
  apply after_then in Hq as (_ & _ & Hq). exists (skip_kw "fi" (skip_seps q)). split; [|done]. apply Z.eqb_neq in Hv.
  erewrite node_if; [|by apply is_funcdef_before|]; [|eapply if_branch_else;
    [apply (runs_to_kw c s v s1 n); [done|lia|done|done]|rewrite Hv; apply (skips_to_kw t m); [done|lia|done|done]|reflexivity
    |rewrite Hv; exact E]].
  done.
Qed.

Lemma run_brace_case b s v s' n : wf b = true -> runs b s v s' n -> calm s' -> runs_node (Brace b) s v s' (n + 2).
Proof.
  intros Hw Hb Hs f g rest Hf Hg He. rewrite toks_brace, node_brace by (by apply is_funcdef_before).
  exists rest. split; [|by left].
  by rewrite (bind_Done _ _ _ _ _ (runs_to_kw b s v s' n f "}" rest Hb ltac:(lia) eq_refl Hs)).
Qed.

Lemma run_subshell_case b s w v s' n m :
  wf b = true -> calm s -> k_fork (sh_kw s) = (true, w) -> runs b (with_kw w s) v s' n -> skips b m ->
  let s2 := with_pipes (sh_pipes s') (with_out (sh_out s') (with_kw (sh_kw s') (with_kw w s))) in
  runs_node (Subshell b) s (sh_exit s' mod 256)%Z (with_exit (sh_exit s' mod 256)%Z s2) (n + m + 2).
Proof.
  intros Hw Hs Hk Hb Hm s2 f g rest Hf Hg He. rewrite toks_subshell, node_subshell. unfold run_subshell. cbn [negb tail].
  exists rest. split; [|by left].
  rewrite (bind_Done _ _ s true (with_kw w s)) by (unfold kernel; by rewrite Hk). cbn [negb].
  destruct (runs_run_list b (with_kw w s) v s' n f (op_tok T_RPAREN :: rest) Hb) as (q & E & _); [lia|done|].
  rewrite (bind_Done _ _ _ (sh_exit s' mod 256)%Z s2) by (unfold in_child; by rewrite E).
  assert (Hs2 : calm s2) by exact Hs.
  by rewrite (bind_Done _ _ _ _ _ (skips_run_list b m f (op_tok T_RPAREN :: rest) s2 (sk_list _ _ Hm) ltac:(lia) eq_refl Hs2)).
Qed.

(** * Loops *)

Definition loop_end rest : pos := op_tok T_SEMI :: kw_tok "done" :: rest.

Definition runs_while u c b k r s v s' n : Prop := forall f rest,
  n <= f ->
  while_loop (run_list f) k (toks c ++ op_tok T_SEMI :: kw_tok "do" :: toks b ++ loop_end rest) (toks b ++ loop_end rest) u r s = Done v s'.
Definition runs_for x b (os : list nat) r s v s' n : Prop := forall f rest,
  n <= f -> for_loop (run_list f) (inl <$> os) x (toks b ++ loop_end rest) r s = Done v s'.

Lemma after_body_spec s go s' : after s = (go, s') -> after_body s = Done go s'.
Proof.
  unfold after, after_body. rewrite (bind_Done _ _ s (sh_flow s) s), (bind_Done _ _ s (sh_flow_n s) s) by done.
  destruct (sh_flow s); by intros [= <- <-].
Qed.

(** One round of a loop: its body, and what is decided after it. *)
Lemma body_round b s w s2 go s3 n f rest {A} (h : Z -> bool -> sh kw A) :
  runs b s w s2 n -> S n <= f -> after s2 = (go, s3) ->
  ('(_, result) ← run_list f (toks b ++ loop_end rest) true; go ← after_body; h result go) s = h w go s3.
Proof.
  intros Hb Hf Ha. destruct (runs_run_list b s w s2 n f (loop_end rest) Hb Hf eq_refl) as (q & E & _).
  rewrite (bind_Done _ _ _ _ _ E). cbn beta iota. by rewrite (bind_Done _ _ _ _ _ (after_body_spec _ _ _ Ha)).
Qed.

Lemma while_round u c b k r s v s1 n f rest :
  runs c s v s1 n -> S n <= f -> calm s1 ->
  while_loop (run_list f) (S k) (toks c ++ op_tok T_SEMI :: kw_tok "do" :: toks b ++ loop_end rest) (toks b ++ loop_end rest) u r s =
    (if negb (goes_on u v) then mret r else
     '(_, result) ← run_list f (toks b ++ loop_end rest) true;
     go ← after_body;
     if go : bool then
       while_loop (run_list f) k (toks c ++ op_tok T_SEMI :: kw_tok "do" :: toks b ++ loop_end rest) (toks b ++ loop_end rest) u result
     else mret result) s1.
Proof.
  intros Hc Hf Hs. cbn [while_loop]. by rewrite (bind_Done _ _ _ _ _ (runs_to_kw c s v s1 n f "do" _ Hc Hf eq_refl Hs)).
Qed.

Lemma run_while_case u c b s v s' n m k :
  wf c = true -> wf b = true -> calm s -> calm s' -> runs_while u c b (Z.to_nat WHILE_MAX) (sh_exit s) s v s' n ->
  skips c m -> skips b k -> runs_node (While u c b) s v s' (n + m + k + 2).
Proof.
  intros Hwc Hwb Hs Hs' Hl Hc Hb f g rest Hf Hg He. exists rest. split; [|by left]. rewrite toks_while.
  erewrite node_while; [|by apply is_funcdef_before|apply (skips_to_kw c m); [done|lia|done|done]]. cbn [negb].
  rewrite (bind_Done _ _ _ _ _ (Hl f rest ltac:(lia))).
  by rewrite (bind_Done _ _ _ _ _ (past_done_body b k f g rest s' (sk_body _ _ Hb) ltac:(lia) ltac:(lia) Hs')).
Qed.

Lemma run_for_case x ws b s bf s1 v s' f0 n k :
  wf (For x ws b) = true -> calm s' ->
  (forall f, f0 <= f -> for_words (run_program f) (word_tok <$> ws) true (for_buffer s) s = Done ([], bf) s1) ->
  runs_for (take 63 x) b (fb_argv bf) (sh_exit s1) (with_wbuf (fb_arena bf) s1) v s' n ->
  skips b k -> runs_node (For x ws b) s v s' (f0 + n + k + 2).
Proof.
  intros Hw Hs' Hws Hl Hb f g rest Hf Hg He. exists rest. split; [|by left]. rewrite toks_for. cbn [wf] in Hw. boolify.
  erewrite node_for; [|done|apply Hws; lia]. cbn [negb].
  rewrite (bind_Done _ _ _ _ _ (Hl f rest ltac:(lia))).
  by rewrite (bind_Done _ _ _ _ _ (past_done_body b k f g rest s' (sk_body _ _ Hb) ltac:(lia) ltac:(lia) Hs')).
Qed.

Lemma for_round x b o os r s w s2 go s3 n f rest :
  runs b (for_bind x o s) w s2 n -> S n <= f -> after s2 = (go, s3) ->
  for_loop (run_list f) (inl <$> o :: os) x (toks b ++ loop_end rest) r s =
    (if go : bool then for_loop (run_list f) (inl <$> os) x (toks b ++ loop_end rest) w else mret w) s3.
Proof.
  intros Hb Hf Ha. cbn [fmap list_fmap for_loop].
  rewrite (bind_Done _ _ s (astr (sh_wbuf s) o) s) by done.
  rewrite (bind_Done _ _ s tt (for_bind x o s)) by (by destruct x).
  by rewrite (body_round b (for_bind x o s) w s2 go s3 n f rest (λ result go, if go then for_loop (run_list f) (inl <$> os) x (toks b ++ loop_end rest) result else mret result) Hb Hf Ha).
Qed.

Lemma after_calm s s' : after s = (true, s') -> calm s'.
Proof.
  unfold after, calm. destruct (sh_flow s) eqn:E; intros H; simplify_eq; try done.
  cbn [with_flow sh_flow]. case_match; done.
Qed.

Lemma for_bind_calm x o s : calm s -> calm (for_bind x o s).
Proof. by destruct x. Qed.

(** * All together *)

(** Use the induction hypotheses that apply. *)
Local Ltac use_ih :=
  repeat match goal with
  | IH : ?P -> ?Q -> exists n, _, HP : ?P, HQ : ?Q |- _ => destruct (IH HP HQ) as [? ?]; clear IH
  | IH : ?P -> exists n, _, HP : ?P |- _ => destruct (IH HP) as [? ?]; clear IH
  end.

Local Ltac use_skips c := let n := fresh "n" in let H := fresh "Hskip" in destruct (skips_all c) as [n H]; [done|].

Lemma exec_runs :
  (forall c s v s', exec c s v s' -> wf c = true -> calm s -> exists n, runs c s v s' n) /\
  (forall u c b k r s v s', exec_while u c b k r s v s' -> wf c = true -> wf b = true -> exists n, runs_while u c b k r s v s' n) /\
  (forall x b os r s v s', exec_for x b os r s v s' -> wf b = true -> exists n, runs_for x b os r s v s' n).
Proof.
  apply exec_all.
  - intros l s v s' [f0 H] Hw Hs. eexists. apply node_runs; [done|done|]. by eapply run_simple_case.
  - intros a b s v s' _ IHa Hn Hw Hs. cbn [wf] in Hw. boolify. use_ih. eexists. by apply run_seq_stop.
  - intros a b s v s1 w s2 _ IHa Hs1 _ IHb Hw Hs. cbn [wf] in Hw. boolify. use_ih. eexists. by eapply run_seq.
  - intros a b s s1 w s2 _ IHa Hs1 _ IHb Hw Hs. pose proof Hw as Hw'. cbn [wf] in Hw. boolify. use_ih. eexists.
    apply chain_runs; [done|done|done|]. red. intros f g rest. cbn [toks ops]. rewrite <- app_assoc.
    eapply (run_op T_AND); eauto using rn_chain, rn_node; done.
  - intros a b s v s1 _ IHa Hs1 Hv Hw Hs. pose proof Hw as Hw'. cbn [wf] in Hw. boolify. use_ih. use_skips b. eexists.
    apply chain_runs; [done|done|done|]. red. intros f g rest. cbn [toks ops]. rewrite <- app_assoc.
    eapply (run_op_not T_AND); eauto using rn_chain, sk_node. by apply Z.eqb_neq.
  - intros a b s v s1 w s2 _ IHa Hs1 Hv _ IHb Hw Hs. pose proof Hw as Hw'. cbn [wf] in Hw. boolify. use_ih. eexists.
    apply chain_runs; [done|done|done|]. red. intros f g rest. cbn [toks ops]. rewrite <- app_assoc.
    eapply (run_op T_OR); eauto using rn_chain, rn_node. by apply negb_true_iff, Z.eqb_neq.
  - intros a b s s1 _ IHa Hs1 Hw Hs. pose proof Hw as Hw'. cbn [wf] in Hw. boolify. use_ih. use_skips b. eexists.
    apply chain_runs; [done|done|done|]. red. intros f g rest. cbn [toks ops]. rewrite <- app_assoc.
    eapply (run_op_not T_OR); eauto using rn_chain, sk_node; done.
  - intros c t s s1 w s2 _ IHc Hs1 _ IHt Hw Hs. pose proof Hw as Hw'. cbn [wf] in Hw. boolify. use_ih. eexists.
    apply node_runs; [done|done|]. by eapply run_if_then.
  - intros c t s v s1 _ IHc Hs1 Hv Hw Hs. pose proof Hw as Hw'. cbn [wf] in Hw. boolify. use_ih. use_skips t. eexists.
    apply node_runs; [done|done|]. by eapply run_if_not.
  - intros c t e s s1 w s2 _ IHc Hs1 _ IHt Hs2 Hw Hs. pose proof Hw as Hw'. cbn [wf] in Hw. boolify. use_ih. use_skips e. eexists.
    apply node_runs; [done|done|]. by eapply run_ifelse_then.
  - intros c t e s v s1 w s2 _ IHc Hs1 Hv _ IHe Hw Hs. pose proof Hw as Hw'. cbn [wf] in Hw. boolify. use_ih. use_skips t. eexists.
    apply node_runs; [done|done|]. by eapply run_ifelse_else.
  - intros u c b s v s' _ IH Hs' Hw Hs. pose proof Hw as Hw'. cbn [wf] in Hw. boolify. use_ih. use_skips c. use_skips b. eexists.
    apply node_runs; [done|done|]. by eapply run_while_case.
  - intros x ws b s bf s1 v s' [f0 Hws] _ IH Hs' Hw Hs. pose proof Hw as Hw'. cbn [wf] in Hw. boolify. use_ih. use_skips b. eexists.
    apply node_runs; [done|done|]. by eapply run_for_case.
  - intros b s v s' _ IH Hs' Hw Hs. pose proof Hw as Hw'. cbn [wf] in Hw. use_ih. eexists.
    apply node_runs; [done|done|]. by eapply run_brace_case.
  - intros b s w v s' Hk _ IH s2 Hw Hs. pose proof Hw as Hw'. cbn [wf] in Hw. destruct (IH Hw Hs) as [n Hn]. use_skips b. eexists.
    apply node_runs; [done|done|]. by eapply run_subshell_case.
  - intros u c b r s _ _. by exists 0.
  - intros u c b k r s v s1 Hs _ IHc Hs1 Hg Hwc Hwb. use_ih. eexists. intros f rest Hf.
    erewrite while_round; [|done|exact Hf|done]. by rewrite Hg.
  - intros u c b k r s v s1 w s2 s3 x s' Hs _ IHc Hs1 Hg _ IHb Ha _ IHw Hwc Hwb. use_ih.
    match goal with Hc : runs c _ _ _ ?n, Hb : runs b _ _ _ ?m, Hl : runs_while _ _ _ _ _ _ _ _ ?l |- _ =>
      exists (S n + S m + l); intros f rest Hf; rewrite (while_round u c b k r s v s1 n f rest Hc) by (lia || done);
      rewrite Hg; cbn [negb]; rewrite (body_round b s1 w s2 true s3 m f rest _ Hb ltac:(lia) Ha); apply Hl; lia end.
  - intros u c b k r s v s1 w s2 s3 Hs _ IHc Hs1 Hg _ IHb Ha Hwc Hwb. use_ih.
    match goal with Hc : runs c _ _ _ ?n, Hb : runs b _ _ _ ?m |- _ =>
      exists (S n + S m); intros f rest Hf; rewrite (while_round u c b k r s v s1 n f rest Hc) by (lia || done);
      rewrite Hg; cbn [negb]; by rewrite (body_round b s1 w s2 false s3 m f rest _ Hb ltac:(lia) Ha) end.
  - intros x b r s _. by exists 0.
  - intros x b o os r s w s2 s3 v s' Hs _ IHb Ha _ IHf Hw. destruct (IHb Hw (for_bind_calm x o s Hs)) as [n Hn]. use_ih.
    match goal with Hl : runs_for _ _ _ _ _ _ _ ?l |- _ =>
      exists (S n + l); intros f rest Hf; rewrite (for_round x b o os r s w s2 true s3 n f rest Hn ltac:(lia) Ha); apply Hl; lia end.
  - intros x b o os r s w s2 s3 Hs _ IHb Ha Hw. destruct (IHb Hw (for_bind_calm x o s Hs)) as [n Hn].
    exists (S n). intros f rest Hf. by rewrite (for_round x b o os r s w s2 false s3 n f rest Hn ltac:(lia) Ha).
Qed.

(** The state after a program: a [return] outside functions ends it. *)
Definition program_end s : shell kw :=
  match sh_flow s with FLOW_RETURN => with_flow FLOW_NONE (sh_flow_n s) s | _ => s end.

(** C13: the executor implements the natural semantics.  If [exec] takes a well-formed
    tree from a state in which nothing is being left to [s'] with status [v], then
    with enough fuel, and with any more, [run_list] on the tokens of the tree ends
    in [s'] with status [v], and so does [run_program] on a text that has these
    tokens.  Trees have simple commands, lists, && and ||, if with and without
    else, while, until, for with its static buffer, brace groups and subshells;
    [break] and [continue] with their counts are part of the semantics. *)
Theorem executor_refines c s v s' :
  exec c s v s' -> wf c = true -> calm s ->
  exists f0, forall f, f0 <= f ->
    (exists q, run_list f (toks c) true s = Done (q, v) s') /\
    (forall text, tokenize 256 (8192 * 4) text = LexOk (toks c) -> run_program (S f) text s = Done tt (program_end s')).
Proof.
  intros He Hw Hs. destruct (proj1 exec_runs c s v s' He Hw Hs) as [n Hn]. exists (S n). intros f Hf.
  destruct (runs_run_list c s v s' n f [] Hn Hf eq_refl) as (q & E & _). rewrite app_nil_r in E. split; [by exists q|].
  intros text Ht. change (run_program (S f) text s) with (program_step (run_list f) text s). unfold program_step. rewrite Ht.
  rewrite (bind_Done _ _ _ _ _ E). rewrite (bind_Done _ _ s' (sh_flow s') s') by done. unfold program_end.
  by destruct (sh_flow s').
Qed.

End Refine.

(** * Witness *)

(** while test; do if fail; then x=1; else y=b; fi; break; done; echo $y *)
Definition sample_tree : com :=
  Seq (While false (Simple [IWord (B "test")])
         (Seq (IfElse (Simple [IWord (B "fail")]) (Simple [IWord (B "x=1")]) (Simple [IWord (B "y=b")])) (Simple [IWord (B "break")])))
      (Simple [IWord (B "echo"); IWord (B "$y")]).

Definition sample_source : bytes := B "while test; do if fail; then x=1; else y=b; fi; break; done; echo $y".

Local Ltac run_it := exists 0; intros f _; vm_compute; reflexivity.

Lemma executor_refines_witness :
  exists v s', exec (kw := list (list bytes)) sample_tree toy_start v s' /\ concat (snd <$> rev (sh_out s')) = B "b" ++ [LF] /\
    exists f0, forall f, f0 <= f -> run_program (S f) sample_source toy_start = Done tt s'.
Proof.
  assert (He : exists s', exec sample_tree toy_start 0%Z s' /\ concat (snd <$> rev (sh_out s')) = B "b" ++ [LF] /\ program_end s' = s').
  { eexists. split; [|split].
    - eapply ESeq; [eapply EWhile|..].
      + replace (Z.to_nat WHILE_MAX) with (S (Z.to_nat 999999)) by (rewrite <- Z2Nat.inj_succ by done; reflexivity).
        eapply WLeave; [reflexivity|apply ESimple; run_it|reflexivity|reflexivity|..].
        * eapply ESeq; [eapply EIfElse_else; [apply ESimple; run_it|reflexivity|discriminate|apply ESimple; run_it]|reflexivity|].
          apply ESimple; run_it.
        * vm_compute. reflexivity.
      + vm_compute. reflexivity.
      + vm_compute. reflexivity.
      + apply ESimple; run_it.
    - vm_compute. reflexivity.
    - vm_compute. reflexivity. }
  destruct He as (s' & He & Ho & Hp). exists 0%Z, s'. split; [exact He|]. split; [exact Ho|].
  destruct (executor_refines sample_tree toy_start 0%Z s' He eq_refl eq_refl) as [f0 Hf]. exists f0. intros f Hle.
  destruct (Hf f Hle) as [_ H]. rewrite <- Hp at 1. apply H. vm_compute. reflexivity.
Defined.
