(* ===== verification/BlockDev.v ===== *)
(** A block device with injected faults, and buffers of little-endian fields and
    bits, as the ext2 tools of the installer use them.

    The device is a map from byte addresses to bytes.  Every transfer consults a
    schedule: it succeeds, fails (a write may have stored some of its sectors), or
    the machine stops there.  [dwp] is the program logic for programs over it; a
    theorem proved with it holds for every schedule, so for every error return and
    for a power cut at every point. *)

From S2P Require Import Prelude.
Local Open Scope Z_scope.

(** * Definitions *)

Definition SECTOR_SIZE : Z := 512.

Definition device : Type := Z -> byte.

Definition dev_read (d : device) (off : Z) (len : nat) : bytes := (λ i, d (off + Z.of_nat i)) <$> seq 0 len.

Definition dev_write (d : device) (off : Z) (buf : bytes) : device :=
  let end_ := off + Z.of_nat (length buf) in
  λ a, if (off <=? a) && (a <? end_) then byte_at buf (Z.to_nat (a - off)) else d a.

(** What happens to a transfer; [k] sectors of a write that does not succeed are
    stored. *)
Inductive verdict := DOk | DFail (k : nat) | DCrash (k : nat).

(** A value with the number of transfers so far, a stopped machine, or an access
    outside a buffer. *)
Inductive outcome (A : Type) :=
  | Val (a : A) (n : nat) (d : device)
  | Stopped (d : device)
  | OutOfBounds.
Arguments Val {A}. Arguments Stopped {A}. Arguments OutOfBounds {A}.

Definition io (A : Type) : Type := (nat -> verdict) -> nat -> device -> outcome A.

#[global] Instance io_ret : MRet io := λ _ a _ n d, Val a n d.
#[global] Instance io_bind : MBind io := λ _ _ f m v n d,
  match m v n d with
  | Val a n d => f a v n d
  | Stopped d => Stopped d
  | OutOfBounds => OutOfBounds
  end.

Definition out_of_bounds {A} : io A := λ _ _ _, OutOfBounds.

(** The transfer function of the caller: [count] sectors from [sector] on. *)
Definition io_read (sector count : Z) : io (option bytes) := λ v n d,
  match v n with
  | DOk => Val (Some (dev_read d (sector * SECTOR_SIZE) (Z.to_nat (count * SECTOR_SIZE)))) (S n) d
  | DFail _ => Val None (S n) d
  | DCrash _ => Stopped d
  end.

Definition io_write (sector : Z) (buf : bytes) : io bool := λ v n d,
  let torn k := dev_write d (sector * SECTOR_SIZE) (take (k * 512) buf) in
  match v n with
  | DOk => Val true (S n) (dev_write d (sector * SECTOR_SIZE) buf)
  | DFail k => Val false (S n) (torn k)
  | DCrash k => Stopped (torn k)
  end.

(** ** Fields *)

Definition rd16 (p : bytes) (off : nat) : Z := le_value (slice off 2 p).
Definition rd32 (p : bytes) (off : nat) : Z := le_value (slice off 4 p).
Definition wr16 (p : bytes) (off : nat) (v : Z) : bytes := splice off (le_bytes 2 v) p.
Definition wr32 (p : bytes) (off : nat) (v : Z) : bytes := splice off (le_bytes 4 v) p.

(** ** Bit maps *)

Definition bit (m : bytes) (n : Z) : bool := Z.testbit (byte_at m (Z.to_nat (Z.shiftr n 3))) (Z.land n 7).

(** map[i >> 3] &= (unsigned char)~(1u << (i & 7)) *)
Definition clear_bit (m : bytes) (i : Z) : option bytes :=
  let k := Z.to_nat (Z.shiftr i 3) in
  match m !! k with
  | Some b => Some (<[k := Z.land b (u8 (Z.lnot (Z.shiftl 1 (Z.land i 7))))]> m)
  | None => None
  end.

(** m[n >> 3] |= (unsigned char)(1u << (n & 7)) *)
Definition set_bit (m : bytes) (i : Z) : option bytes :=
  let k := Z.to_nat (Z.shiftr i 3) in
  match m !! k with
  | Some b => Some (<[k := Z.lor b (u8 (Z.shiftl 1 (Z.land i 7)))]> m)
  | None => None
  end.

(** * The program logic *)

Section Logic.

Definition dwp {A} (m : io A) (Q : A -> device -> Prop) (C : device -> Prop) (d : device) : Prop :=
  forall v n, match m v n d with Val a _ d' => Q a d' | Stopped d' => C d' | OutOfBounds => False end.

Context {A B : Type}.

Lemma dwp_ret (a : A) (Q : A -> device -> Prop) C d : Q a d -> dwp (mret a) Q C d.
Proof. intros H v n. exact H. Qed.

Lemma dwp_bind (m : io A) (f : A -> io B) Q C d :
  dwp m (λ a, dwp (f a) Q C) C d -> dwp (m ≫= f) Q C d.
Proof. intros H v n. specialize (H v n). unfold mbind, io_bind. destruct (m v n d); [apply H|done|done]. Qed.

Lemma dwp_conseq (m : io A) (Q Q' : A -> device -> Prop) (C C' : device -> Prop) d :
  dwp m Q C d -> (forall a d', Q a d' -> Q' a d') -> (forall d', C d' -> C' d') -> dwp m Q' C' d.
Proof. intros H HQ HC v n. specialize (H v n). destruct (m v n d); auto. Qed.

Lemma dwp_conj (m : io A) (Q Q' : A -> device -> Prop) (C C' : device -> Prop) d :
  dwp m Q C d -> dwp m Q' C' d -> dwp m (λ a d', Q a d' /\ Q' a d') (λ d', C d' /\ C' d') d.
Proof. intros H H' v n. specialize (H v n). specialize (H' v n). destruct (m v n d); auto. Qed.

Lemma dwp_read sector count (Q : option bytes -> device -> Prop) (C : device -> Prop) d :
  Q (Some (dev_read d (sector * SECTOR_SIZE) (Z.to_nat (count * SECTOR_SIZE)))) d -> Q None d -> C d ->
  dwp (io_read sector count) Q C d.
Proof. intros H1 H2 H3 v n. unfold io_read. by destruct (v n). Qed.

(** A write either stores everything or some of its sectors. *)
Lemma dwp_write sector buf (Q : bool -> device -> Prop) (C : device -> Prop) d :
  Q true (dev_write d (sector * SECTOR_SIZE) buf) ->
  (forall k, Q false (dev_write d (sector * SECTOR_SIZE) (take (k * 512) buf)) /\ C (dev_write d (sector * SECTOR_SIZE) (take (k * 512) buf))) ->
  dwp (io_write sector buf) Q C d.
Proof. intros H1 H2 v n. unfold io_write. destruct (v n); [done|apply H2|apply H2]. Qed.

End Logic.

(** * Device lemmas *)

Section Device.

Implicit Types (d : device) (buf : bytes).

Lemma dev_read_length d off len : length (dev_read d off len) = len.
Proof. unfold dev_read. by rewrite length_fmap, length_seq. Qed.

Lemma dev_read_lookup d off len i : (i < len)%nat -> dev_read d off len !! i = Some (d (off + Z.of_nat i)).
Proof. intros H. unfold dev_read. rewrite list_lookup_fmap, lookup_seq_lt by done. reflexivity. Qed.

Lemma dev_read_ext d d' off len :
  (forall a, off <= a < off + Z.of_nat len -> d a = d' a) -> dev_read d off len = dev_read d' off len.
Proof.
  intros H. apply list_fmap_ext. intros i x [-> Hx]%lookup_seq. apply H. lia.
Qed.

Lemma dev_write_outside d off buf a : a < off \/ off + Z.of_nat (length buf) <= a -> dev_write d off buf a = d a.
Proof. intros H. unfold dev_write. destruct (off <=? a) eqn:E1, (a <? off + _) eqn:E2; cbn [andb]; boolify; done || lia. Qed.

Lemma dev_read_write d off buf : dev_read (dev_write d off buf) off (length buf) = buf.
Proof.
  apply list_eq. intros i. destruct (decide (i < length buf)%nat) as [H|H].
  - rewrite dev_read_lookup by done. unfold dev_write.
    rewrite (proj2 (Z.leb_le _ _)), (proj2 (Z.ltb_lt _ _)) by lia. cbn [andb]. unfold byte_at.
    replace (Z.to_nat (off + Z.of_nat i - off)) with i by lia.
    destruct (lookup_lt_is_Some_2 buf i H) as [b Hb]. by rewrite Hb.
  - rewrite !lookup_ge_None_2; [done|lia|rewrite dev_read_length; lia].
Qed.

Lemma dev_read_write_ne d off buf off' len :
  off' + Z.of_nat len <= off \/ off + Z.of_nat (length buf) <= off' ->
  dev_read (dev_write d off buf) off' len = dev_read d off' len.
Proof. intros H. apply dev_read_ext. intros a Ha. apply dev_write_outside. lia. Qed.

End Device.

(** * Fields and bits *)

Section Fields.

Implicit Types (p m : bytes).

Lemma slice_splice_ne off off' len bs p :
  (off + length bs <= length p)%nat -> (off' + len <= off \/ off + length bs <= off')%nat ->
  slice off' len (splice off bs p) = slice off' len p.
Proof.
  intros Hl Ho. unfold slice. apply list_eq. intros i.
  destruct (decide (i < len)%nat) as [Hi|Hi].
  - rewrite !lookup_take_lt, !lookup_drop by done. apply lookup_splice_ne; [done|lia].
  - rewrite !lookup_take_ge by lia. done.
Qed.

Lemma wr16_length p off v : (off + 2 <= length p)%nat -> length (wr16 p off v) = length p.
Proof. intros H. unfold wr16. apply length_splice. rewrite length_le_bytes. lia. Qed.

Lemma wr32_length p off v : (off + 4 <= length p)%nat -> length (wr32 p off v) = length p.
Proof. intros H. unfold wr32. apply length_splice. rewrite length_le_bytes. lia. Qed.

Lemma rd16_wr16 p off v : (off + 2 <= length p)%nat -> rd16 (wr16 p off v) off = u16 v.
Proof.
  intros H. unfold rd16, wr16. replace 2%nat with (length (le_bytes 2 v)) at 1 by (by rewrite length_le_bytes).
  rewrite slice_splice_eq by lia. by rewrite le_value_bytes.
Qed.

Lemma rd32_wr32 p off v : (off + 4 <= length p)%nat -> rd32 (wr32 p off v) off = u32 v.
Proof.
  intros H. unfold rd32, wr32. replace 4%nat with (length (le_bytes 4 v)) at 1 by (by rewrite length_le_bytes).
  rewrite slice_splice_eq by lia. by rewrite le_value_bytes.
Qed.

Lemma rd16_wr16_ne p off off' v : (off + 2 <= length p)%nat -> (off' + 2 <= off \/ off + 2 <= off')%nat -> rd16 (wr16 p off v) off' = rd16 p off'.
Proof. intros. unfold rd16, wr16. rewrite slice_splice_ne; rewrite ?length_le_bytes; done || lia. Qed.

Lemma rd16_wr32 p off off' v : (off + 4 <= length p)%nat -> (off' + 2 <= off \/ off + 4 <= off')%nat -> rd16 (wr32 p off v) off' = rd16 p off'.
Proof. intros. unfold rd16, wr32. rewrite slice_splice_ne; rewrite ?length_le_bytes; done || lia. Qed.

Lemma rd32_wr16 p off off' v : (off + 2 <= length p)%nat -> (off' + 4 <= off \/ off + 2 <= off')%nat -> rd32 (wr16 p off v) off' = rd32 p off'.
Proof. intros. unfold rd32, wr16. rewrite slice_splice_ne; rewrite ?length_le_bytes; done || lia. Qed.

Lemma rd32_wr32_ne p off off' v : (off + 4 <= length p)%nat -> (off' + 4 <= off \/ off + 4 <= off')%nat -> rd32 (wr32 p off v) off' = rd32 p off'.
Proof. intros. unfold rd32, wr32. rewrite slice_splice_ne; rewrite ?length_le_bytes; done || lia. Qed.

End Fields.

Section Bits.

Implicit Types (m : bytes) (i j : Z).

Lemma bit_div m i : bit m i = Z.testbit (byte_at m (Z.to_nat (i / 8))) (i mod 8).
Proof. unfold bit. rewrite Z.shiftr_div_pow2 by lia. change 7 with (Z.ones 3). by rewrite Z.land_ones by lia. Qed.

Lemma clear_mask b k j : 0 <= k < 8 -> 0 <= j < 8 ->
  Z.testbit (Z.land b (u8 (Z.lnot (Z.shiftl 1 k)))) j = Z.testbit b j && negb (k =? j).
Proof.
  intros Hk Hj. rewrite Z.land_spec. f_equal. unfold u8. rewrite Z.mod_pow2_bits_low by lia.
  rewrite Z.lnot_spec by lia. rewrite Z.shiftl_1_l, Z.pow2_bits_eqb by lia. done.
Qed.

Lemma set_mask b k j : 0 <= k < 8 -> 0 <= j < 8 ->
  Z.testbit (Z.lor b (u8 (Z.shiftl 1 k))) j = Z.testbit b j || (k =? j).
Proof.
  intros Hk Hj. rewrite Z.lor_spec. f_equal. unfold u8. rewrite Z.mod_pow2_bits_low by lia.
  by rewrite Z.shiftl_1_l, Z.pow2_bits_eqb by lia.
Qed.

Lemma byte_at_insert m k k' b : (k < length m)%nat -> byte_at (<[k := b]> m) k' = if decide (k = k') then b else byte_at m k'.
Proof.
  intros Hk. unfold byte_at. case_decide; subst; [by rewrite list_lookup_insert_eq|by rewrite list_lookup_insert_ne].
Qed.

Lemma same_bit i j : 0 <= i -> 0 <= j -> i / 8 = j / 8 -> i mod 8 = j mod 8 -> i = j.
Proof. intros Hi Hj Hd Hm. rewrite (Z.div_mod i 8), (Z.div_mod j 8) by lia. lia. Qed.

Lemma clear_bit_total m i : 0 <= i < 8 * Z.of_nat (length m) -> exists m', clear_bit m i = Some m' /\ length m' = length m /\
  forall j, 0 <= j -> bit m' j = bit m j && negb (i =? j).
Proof.
  intros Hi. unfold clear_bit. rewrite Z.shiftr_div_pow2 by lia. change 7 with (Z.ones 3). rewrite Z.land_ones by lia.
  change (2 ^ 3) with 8. assert (Hk : (Z.to_nat (i / 8) < length m)%nat).
  { assert (i / 8 < Z.of_nat (length m)) by (apply Z.div_lt_upper_bound; lia). pose proof (Z.div_pos i 8). lia. }
  destruct (lookup_lt_is_Some_2 _ _ Hk) as [b Hb]. rewrite Hb. eexists. split; [done|]. split; [by rewrite length_insert|].
  intros j Hj. rewrite !bit_div, byte_at_insert by done. pose proof (Z.mod_pos_bound i 8). pose proof (Z.mod_pos_bound j 8).
  case_decide as E.
  - assert (Hd : i / 8 = j / 8) by (apply Z2Nat.inj; [apply Z.div_pos; lia|apply Z.div_pos; lia|done]).
    rewrite clear_mask by lia. unfold byte_at. rewrite <- Hd, Hb. cbn [default]. f_equal. f_equal.
    destruct (i mod 8 =? j mod 8) eqn:Em; boolify; symmetry; [apply Z.eqb_eq; apply same_bit; lia|].
    apply Z.eqb_neq. by intros ->.
  - replace (i =? j) with false; [by rewrite andb_true_r|]. symmetry. apply Z.eqb_neq. by intros ->.
Qed.

Lemma set_bit_total m i : 0 <= i < 8 * Z.of_nat (length m) -> exists m', set_bit m i = Some m' /\ length m' = length m /\
  forall j, 0 <= j -> bit m' j = bit m j || (i =? j).
Proof.
  intros Hi. unfold set_bit. rewrite Z.shiftr_div_pow2 by lia. change 7 with (Z.ones 3). rewrite Z.land_ones by lia.
  change (2 ^ 3) with 8. assert (Hk : (Z.to_nat (i / 8) < length m)%nat).
  { assert (i / 8 < Z.of_nat (length m)) by (apply Z.div_lt_upper_bound; lia). pose proof (Z.div_pos i 8). lia. }
  destruct (lookup_lt_is_Some_2 _ _ Hk) as [b Hb]. rewrite Hb. eexists. split; [done|]. split; [by rewrite length_insert|].
  intros j Hj. rewrite !bit_div, byte_at_insert by done. pose proof (Z.mod_pos_bound i 8). pose proof (Z.mod_pos_bound j 8).
  case_decide as E.
  - assert (Hd : i / 8 = j / 8) by (apply Z2Nat.inj; [apply Z.div_pos; lia|apply Z.div_pos; lia|done]).
    rewrite set_mask by lia. unfold byte_at. rewrite <- Hd, Hb. cbn [default]. f_equal.
    destruct (i mod 8 =? j mod 8) eqn:Em; boolify; symmetry; [apply Z.eqb_eq; apply same_bit; lia|].
    apply Z.eqb_neq. by intros ->.
  - replace (i =? j) with false; [by rewrite orb_false_r|]. symmetry. apply Z.eqb_neq. by intros ->.
Qed.

End Bits.
