(* ===== verification/Ext2Disk.v ===== *)
(** Blocks, the superblock and bit maps of an ext2 disk, shared by the growing and
    the repairing tool: what was written where ([touches]), that a torn write of
    the superblock leaves the old one or the new one, and counting of clear bits. *)

From S2P Require Import Prelude BlockDev.
Local Open Scope Z_scope.

(** * Definitions *)

Definition EXT2_BLOCK_SIZE : Z := 4096.
Definition BLOCK : nat := Z.to_nat EXT2_BLOCK_SIZE.

Definition zeros (n : nat) : bytes := repeat 0 n.

(** Block [b] of the disk, and the superblock. *)
Definition blk (d : device) (b : Z) : bytes := dev_read d (b * EXT2_BLOCK_SIZE) BLOCK.
Definition super_of (d : device) : bytes := dev_read d 1024 1024.

(** Only blocks in [W] differ. *)
Definition touches (W : Z -> Prop) (d d' : device) : Prop := forall a, ~ W (a / EXT2_BLOCK_SIZE) -> d' a = d a.

(** The disk holds bytes. *)
Definition dev_ok (d : device) : Prop := forall a, is_byte (d a).

(** The clear bits of a map below [n]. *)
Definition clear_count (m : bytes) (n : Z) : Z := Z.of_nat (length (List.filter (λ j, negb (bit m j)) (seqZ 0 n))).

Definition zsum (l : list Z) : Z := foldr Z.add 0 l.

(** * Blocks *)

Section Blocks.

Implicit Types (d : device) (W : Z -> Prop) (b : Z).

Lemma touches_refl W d : touches W d d.
Proof. by intros a _. Qed.

Lemma touches_trans W d d1 d2 : touches W d d1 -> touches W d1 d2 -> touches W d d2.
Proof. intros H1 H2 a Ha. by rewrite H2, H1. Qed.

Lemma touches_mono W W' d d' : (forall b, W b -> W' b) -> touches W d d' -> touches W' d d'.
Proof. intros HW H a Ha. apply H. auto. Qed.

Lemma dev_write_ok d off buf : dev_ok d -> Forall is_byte buf -> dev_ok (dev_write d off buf).
Proof.
  intros H1 H2 a. unfold dev_write. destruct (_ && _); [|apply H1]. unfold byte_at. destruct (buf !! _) as [x|] eqn:E; [|unfold is_byte; cbn; lia].
  by eapply (Forall_lookup_1 _ _ _ _ H2).
Qed.

Lemma blk_length d b : length (blk d b) = BLOCK.
Proof. apply dev_read_length. Qed.

Lemma blk_touches W d d' b : touches W d d' -> ~ W b -> blk d' b = blk d b.
Proof.
  intros H Hb. symmetry. apply dev_read_ext. intros a Ha. symmetry. apply H. replace (a / EXT2_BLOCK_SIZE) with b; [done|].
  unfold BLOCK, EXT2_BLOCK_SIZE in *. rewrite Z2Nat.id in Ha by lia. apply (Z.div_unique_pos a 4096 b (a - b * 4096)); lia.
Qed.

Lemma super_touches W d d' : touches W d d' -> ~ W 0 -> super_of d' = super_of d.
Proof.
  intros H Hb. symmetry. apply dev_read_ext. intros a Ha. symmetry. apply H. unfold EXT2_BLOCK_SIZE.
  by rewrite Z.div_small by lia.
Qed.

(** A transfer within one block, or within a run of blocks. *)
Lemma touches_write d off buf first count :
  first * EXT2_BLOCK_SIZE <= off -> off + Z.of_nat (length buf) <= (first + count) * EXT2_BLOCK_SIZE ->
  touches (λ b, first <= b < first + count) d (dev_write d off buf).
Proof.
  intros H1 H2 a Ha. apply dev_write_outside. unfold EXT2_BLOCK_SIZE in *.
  destruct (decide (a < off)); [by left|]. right. destruct (decide (off + Z.of_nat (length buf) <= a)); [done|].
  exfalso. apply Ha. split.
  - apply Z.div_le_lower_bound; lia.
  - apply Z.div_lt_upper_bound; lia.
Qed.

(** Only addresses from [off] on, [len] of them, differ. *)
Definition within_run (off len : Z) d d' : Prop := forall a, a < off \/ off + len <= a -> d' a = d a.

Lemma within_write off len d buf : Z.of_nat (length buf) <= len -> within_run off len d (dev_write d off buf).
Proof. intros H a Ha. apply dev_write_outside. lia. Qed.

Lemma within_touches off len first count d d' :
  within_run off len d d' -> first * EXT2_BLOCK_SIZE <= off -> off + len <= (first + count) * EXT2_BLOCK_SIZE ->
  touches (λ b, first <= b < first + count) d d'.
Proof.
  intros H H1 H2 a Ha. apply H. unfold EXT2_BLOCK_SIZE in *.
  destruct (decide (a < off)); [by left|]. right. destruct (decide (off + len <= a)); [done|].
  exfalso. apply Ha. split; [apply Z.div_le_lower_bound; lia|apply Z.div_lt_upper_bound; lia].
Qed.

Lemma zeros_length n : length (zeros n) = n.
Proof. apply repeat_length. Qed.

Lemma take_zeros k n : (k <= n)%nat -> take k (zeros n) = zeros k.
Proof. revert n. induction k as [|k IH]; intros [|n] H; cbn; [done|done|lia|]. f_equal. apply IH. lia. Qed.

Lemma zeros_spec d off len : dev_read d off len = zeros len <-> (forall a, off <= a < off + Z.of_nat len -> d a = 0).
Proof.
  split.
  - intros H a Ha. assert (Hi : (Z.to_nat (a - off) < len)%nat) by lia.
    pose proof (dev_read_lookup d off len _ Hi) as E. rewrite H in E. unfold zeros in E. rewrite lookup_repeat in E by done.
    injection E as E. rewrite E. f_equal. lia.
  - intros H. apply list_eq. intros i. destruct (decide (i < len)%nat) as [Hi|Hi].
    + rewrite dev_read_lookup by done. unfold zeros. rewrite lookup_repeat by done. f_equal. apply H. lia.
    + rewrite !lookup_ge_None_2; [done|rewrite zeros_length; lia|rewrite dev_read_length; lia].
Qed.

Lemma blk_zeros d b : blk d b = zeros BLOCK <-> (forall a, b * EXT2_BLOCK_SIZE <= a < (b + 1) * EXT2_BLOCK_SIZE -> d a = 0).
Proof.
  unfold blk. rewrite zeros_spec. unfold BLOCK. rewrite Z2Nat.id by (unfold EXT2_BLOCK_SIZE; lia).
  split; intros H a Ha; apply H; lia.
Qed.

Lemma bits_of_block : 8 * Z.of_nat BLOCK = 32768.
Proof. reflexivity. Qed.

Lemma blk_bit d b j : 0 <= j < 32768 -> bit (blk d b) j = Z.testbit (d (b * 4096 + j / 8)) (j mod 8).
Proof.
  intros Hj. rewrite bit_div. unfold byte_at, blk. assert (Hq : 0 <= j / 8 < 4096) by (split; [apply Z.div_pos; lia|apply Z.div_lt_upper_bound; lia]).
  rewrite dev_read_lookup by (unfold BLOCK, EXT2_BLOCK_SIZE; lia). cbn [default from_option]. unfold EXT2_BLOCK_SIZE. by rewrite Z2Nat.id by lia.
Qed.

(** ** The superblock *)

Lemma drop_splice n off bs (p : bytes) : (off + length bs <= n)%nat -> (off + length bs <= length p)%nat -> drop n (splice off bs p) = drop n p.
Proof.
  intros H1 H2. apply list_eq. intros i. rewrite !lookup_drop. apply lookup_splice_ne; lia.
Qed.

Lemma drop_wr32 (p : bytes) off v : length p = 1024%nat -> (off + 4 <= 512)%nat -> drop 512 (wr32 p off v) = drop 512 p.
Proof. intros H1 H2. unfold wr32. apply drop_splice; rewrite length_le_bytes; lia. Qed.

Lemma drop_wr16 (p : bytes) off v : length p = 1024%nat -> (off + 2 <= 512)%nat -> drop 512 (wr16 p off v) = drop 512 p.
Proof. intros H1 H2. unfold wr16. apply drop_splice; rewrite length_le_bytes; lia. Qed.

(** The first sector alone is written, and the length stays. *)
Lemma wr32_super (p : bytes) off v : length p = 1024%nat -> (off + 4 <= 512)%nat -> length (wr32 p off v) = 1024%nat /\ drop 512 (wr32 p off v) = drop 512 p.
Proof. intros H1 H2. split; [rewrite wr32_length; lia|by apply drop_wr32]. Qed.

Lemma wr16_super (p : bytes) off v : length p = 1024%nat -> (off + 2 <= 512)%nat -> length (wr16 p off v) = 1024%nat /\ drop 512 (wr16 p off v) = drop 512 p.
Proof. intros H1 H2. split; [rewrite wr16_length; lia|by apply drop_wr16]. Qed.

Lemma torn_super d sb k :
  length sb = 1024%nat -> drop 512 sb = drop 512 (super_of d) ->
  super_of (dev_write d 1024 (take (k * 512) sb)) = super_of d \/ super_of (dev_write d 1024 (take (k * 512) sb)) = sb.
Proof.
  intros Hl Ht. destruct k as [|k].
  - left. apply dev_read_ext. intros a _. change (take (0 * 512) sb) with (@nil byte). rewrite dev_write_outside; [done|]. cbn [length]. lia.
  - right. apply list_eq. intros i. destruct (decide (i < 1024)%nat) as [Hi|Hi].
    2:{ rewrite !lookup_ge_None_2; [done|lia|]. unfold super_of. rewrite dev_read_length. lia. }
    unfold super_of. rewrite dev_read_lookup by done. set (buf := take _ sb). assert (Hb : (512 <= length buf)%nat) by (unfold buf; rewrite length_take; lia).
    destruct (decide (i < length buf)%nat) as [Hi2|Hi2].
    + unfold dev_write. rewrite (proj2 (Z.leb_le _ _)), (proj2 (Z.ltb_lt _ _)) by lia. cbn [andb]. unfold byte_at.
      replace (Z.to_nat (1024 + Z.of_nat i - 1024)) with i by lia. unfold buf. rewrite lookup_take_lt by (unfold buf in Hi2; rewrite length_take in Hi2; lia).
      destruct (lookup_lt_is_Some_2 sb i) as [x Hx]; [lia|]. by rewrite Hx.
    + rewrite dev_write_outside by lia. apply (f_equal (lookup (i - 512)%nat)) in Ht. rewrite !lookup_drop in Ht.
      replace (512 + (i - 512))%nat with i in Ht by lia. rewrite Ht. unfold super_of. by rewrite dev_read_lookup.
Qed.

Lemma super_write_touches d buf : (length buf <= 1024)%nat -> touches (λ b, b = 0) d (dev_write d 1024 buf).
Proof.
  intros H. eapply touches_mono; [|apply (touches_write d 1024 buf 0 1); unfold EXT2_BLOCK_SIZE; lia]. cbn. lia.
Qed.

End Blocks.

(** * Bytes *)

Lemma dev_read_bytes d off len : dev_ok d -> Forall is_byte (dev_read d off len).
Proof. intros H. unfold dev_read. apply Forall_fmap, Forall_forall. intros i _. apply H. Qed.

Lemma slice_bytes p off len : Forall is_byte p -> Forall is_byte (slice off len p).
Proof. intros H. unfold slice. by apply Forall_take, Forall_drop. Qed.

Lemma slice_short (p : bytes) off len : (length (slice off len p) <= len)%nat.
Proof. unfold slice. rewrite length_take. lia. Qed.

Lemma rd_range p off n : Forall is_byte p -> 0 <= le_value (slice off n p) < 256 ^ Z.of_nat n.
Proof.
  intros H. pose proof (le_value_range _ (slice_bytes p off n H)) as [H1 H2]. split; [done|]. eapply Z.lt_le_trans; [exact H2|].
  apply Z.pow_le_mono_r; [done|]. pose proof (slice_short p off n). lia.
Qed.

Lemma rd16_range p off : Forall is_byte p -> 0 <= rd16 p off < 65536.
Proof. apply (rd_range p off 2). Qed.

Lemma rd32_range p off : Forall is_byte p -> 0 <= rd32 p off < 2 ^ 32.
Proof. apply (rd_range p off 4). Qed.

Lemma super_bytes d : dev_ok d -> Forall is_byte (super_of d).
Proof. apply dev_read_bytes. Qed.

(** * Geometry *)

(** The sizes [isize & (isize - 1)] lets through. *)
Lemma inode_size_power i : 128 <= i <= 4096 -> Z.land i (i - 1) = 0 -> exists k, 7 <= k <= 12 /\ i = 2 ^ k.
Proof.
  intros Hi Hl.
  assert (Hall : forallb (λ i, negb (Z.land i (i - 1) =? 0) || existsb (λ k, i =? 2 ^ k) (seqZ 7 6)) (seqZ 128 3969) = true) by (vm_compute; reflexivity).
  rewrite forallb_forall in Hall. specialize (Hall i). rewrite Hl in Hall. cbn [negb Z.eqb orb] in Hall.
  destruct (proj1 (existsb_exists _ _) (Hall ltac:(apply list_elem_of_In, elem_of_seqZ; lia))) as (k & Hk%list_elem_of_In%elem_of_seqZ & E%Z.eqb_eq).
  exists k. split; [lia|done].
Qed.

Lemma ceil_div n b q : 0 < b -> q = (n + b - 1) / b -> (q - 1) * b < n <= q * b.
Proof.
  intros Hb ->. pose proof (Z.div_mod (n + b - 1) b ltac:(lia)). pose proof (Z.mod_pos_bound (n + b - 1) b ltac:(lia)). nia.
Qed.

(** * Bit maps *)

Lemma full_bit n j : 0 <= j < 8 * Z.of_nat n -> bit (repeat 255 n) j = true.
Proof.
  intros Hj. rewrite bit_div. unfold byte_at. assert (j / 8 < Z.of_nat n) by (apply Z.div_lt_upper_bound; lia).
  rewrite lookup_repeat by (pose proof (Z.div_pos j 8); lia). change (default 0 (Some 255)) with (Z.ones 8).
  rewrite Z.ones_spec_low; [done|]. pose proof (Z.mod_pos_bound j 8). lia.
Qed.

Section Counting.

Implicit Types (m : bytes) (p v n j : Z).

(** The clear bits of a range. *)
Definition clear_in m p n : Z := Z.of_nat (length (List.filter (λ j, negb (bit m j)) (seqZ p n))).

Lemma clear_in_app m p n n' : 0 <= n -> 0 <= n' -> clear_in m p (n + n') = clear_in m p n + clear_in m (p + n) n'.
Proof. intros H1 H2. unfold clear_in. rewrite seqZ_app by done. rewrite List.filter_app, length_app. lia. Qed.

Lemma filter_every {A} (f : A -> bool) l : (forall x, x ∈ l -> f x = true) -> List.filter f l = l.
Proof.
  induction l as [|x l IH]; intros H; [done|]. cbn. rewrite (H x) by left. f_equal. apply IH. intros y Hy. apply H. by right.
Qed.

Lemma filter_none {A} (f : A -> bool) l : (forall x, x ∈ l -> f x = false) -> List.filter f l = [].
Proof. induction l as [|x l IH]; intros H; [done|]. cbn. rewrite (H x) by left. apply IH. intros y Hy. apply H. by right. Qed.

Lemma clear_in_all m p n : 0 <= n -> (forall j, p <= j < p + n -> bit m j = false) -> clear_in m p n = n.
Proof.
  intros Hn H. unfold clear_in. rewrite filter_every; [rewrite length_seqZ; lia|]. intros j Hj%elem_of_seqZ. by rewrite H by lia.
Qed.

Lemma clear_in_none m p n : (forall j, p <= j < p + n -> bit m j = true) -> clear_in m p n = 0.
Proof. intros H. unfold clear_in. rewrite filter_none; [done|]. intros j Hj%elem_of_seqZ. by rewrite H by lia. Qed.

Lemma clear_in_ext m m' p n : (forall j, p <= j < p + n -> bit m j = bit m' j) -> clear_in m p n = clear_in m' p n.
Proof.
  intros H. unfold clear_in. do 2 f_equal. apply List.filter_ext_in. intros j Hj%list_elem_of_In%elem_of_seqZ. by rewrite H by lia.
Qed.

Lemma clear_count_le m n : 0 <= n -> 0 <= clear_count m n <= n.
Proof.
  intros Hn. unfold clear_count. pose proof (List.filter_length_le (λ j, negb (bit m j)) (seqZ 0 n)) as H. rewrite length_seqZ in H. lia.
Qed.

(** Clear from [p] to [v]. *)
Lemma clear_count_run m p v n :
  0 <= p <= v -> v <= n -> (forall j, 0 <= j < n -> bit m j = negb ((p <=? j) && (j <? v))) -> clear_count m n = v - p.
Proof.
  intros Hp Hv H. change (clear_count m n) with (clear_in m 0 n).
  replace n with (p + ((v - p) + (n - v))) by lia. rewrite !clear_in_app, Z.add_0_l by lia. replace (p + (v - p)) with v by lia.
  rewrite (clear_in_none m 0), (clear_in_all m p), (clear_in_none m v); [lia| | lia| |].
  - intros j Hj. rewrite H by lia. destruct (Z.ltb_spec j v); [lia|]. by rewrite andb_false_r.
  - intros j Hj. rewrite H by lia. destruct (Z.leb_spec p j), (Z.ltb_spec j v); done || lia.
  - intros j Hj. rewrite H by lia. destruct (Z.leb_spec p j); done || lia.
Qed.

(** A map cleared past [old]. *)
Lemma clear_count_extend m m' old e n :
  0 <= old <= e -> e <= n -> (forall j, 0 <= j < n -> bit m' j = bit m j && negb ((old <=? j) && (j <? e))) ->
  clear_count m' e = clear_count m old + (e - old).
Proof.
  intros H1 H2 H. change (clear_count m' e) with (clear_in m' 0 e). change (clear_count m old) with (clear_in m 0 old).
  replace e with (old + (e - old)) at 1 by lia. rewrite clear_in_app, Z.add_0_l by lia. f_equal.
  - apply clear_in_ext. intros j Hj. rewrite H by lia. destruct (Z.leb_spec old j); [lia|]. apply andb_true_r.
  - apply clear_in_all; [lia|]. intros j Hj. rewrite H by lia. destruct (Z.leb_spec old j), (Z.ltb_spec j e); [apply andb_false_r|lia..].
Qed.

End Counting.

Lemma zsum_app l l' : zsum (l ++ l') = zsum l + zsum l'.
Proof. induction l as [|x l IH]; [done|]. unfold zsum in *. cbn. rewrite IH. lia. Qed.

