(* ===== verification/Ext2Grow.v ===== *)
(** Growing the installed root file system
    (src/user/lib/libinstall/ext2_grow.c).

    [ext2_grow] turns the one-group ext2 image the installer copied into a file
    system that fills the partition.  The transfer function it is given is the
    device of [BlockDev]. *)

From S2P Require Import Prelude BlockDev Ext2Disk.
Local Open Scope Z_scope.

(** * Definitions *)

Definition SECTORS_PER_BLOCK : Z := 8.
Definition EXT2_MAGIC : Z := 0xEF53.
Definition EXT2_VALID_FS : Z := 1.
Definition EXT2_FEATURE_RESIZE_INO : Z := 0x10.
Definition EXT2_FEATURE_SPARSE_SB : Z := 1.
Definition EXT2_MAX_GROUPS : Z := 128.
Definition EXT2_DESC_SIZE : nat := 32.
Definition ZERO_CHUNK : Z := 65536.

(** ** Checked writes *)

Definition write_checked (sector count : Z) (buf : bytes) : io bool :=
  if ZERO_CHUNK <? count * SECTOR_SIZE then mret false else
  let data := take (Z.to_nat (count * SECTOR_SIZE)) buf in
  ok ← io_write sector data;
  if negb ok then mret false else
  r ← io_read sector count;
  mret (bool_decide (r = Some data)).

Definition write_block (block : Z) (buf : bytes) : io bool :=
  write_checked (block * SECTORS_PER_BLOCK) SECTORS_PER_BLOCK buf.

Definition read_block (block : Z) : io (option bytes) := io_read (block * SECTORS_PER_BLOCK) SECTORS_PER_BLOCK.

Fixpoint zero_loop (fuel : nat) (first done count : Z) : io bool :=
  match fuel with
  | O => mret true
  | S fuel =>
      if done <? count then
        let blocks := Z.min (count - done) (ZERO_CHUNK / EXT2_BLOCK_SIZE) in
        ok ← write_checked ((first + done) * SECTORS_PER_BLOCK) (blocks * SECTORS_PER_BLOCK) (zeros (Z.to_nat ZERO_CHUNK));
        if negb ok then mret false else zero_loop fuel first (done + blocks) count
      else mret true
  end.

Definition zero_blocks (first count : Z) : io bool := zero_loop (S (Z.to_nat count)) first 0 count.

(** ** Groups *)

Fixpoint strip_factor (fuel : nat) (n base : Z) : Z :=
  match fuel with
  | O => n
  | S fuel => if n mod base =? 0 then strip_factor fuel (n / base) base else n
  end.

(** 32 divisions are enough for a [uint32_t]. *)
Definition is_power (n base : Z) : bool := if n <? 1 then false else strip_factor 32 n base =? 1.

Definition has_sparse_super (g : Z) : bool :=
  (g =? 0) || (g =? 1) || is_power g 3 || is_power g 5 || is_power g 7.

Fixpoint clear_from (n : nat) (m : bytes) (i : Z) : option bytes :=
  match n with
  | O => Some m
  | S n => match clear_bit m i with Some m => clear_from n m (i + 1) | None => None end
  end.

(** [None] is a write outside the map. *)
Definition bitmap_clear_range (m : bytes) (first end_ : Z) : option bytes := clear_from (Z.to_nat (end_ - first)) m first.

Definition bgd_set (gdt : bytes) (group block_bitmap inode_bitmap inode_table free_blocks free_inodes : Z) : bytes :=
  let o := (Z.to_nat group * EXT2_DESC_SIZE)%nat in
  let gdt := splice o (zeros EXT2_DESC_SIZE) gdt in
  let gdt := wr32 gdt o block_bitmap in
  let gdt := wr32 gdt (o + 4) inode_bitmap in
  let gdt := wr32 gdt (o + 8) inode_table in
  let gdt := wr16 gdt (o + 12) free_blocks in
  wr16 gdt (o + 14) free_inodes.

(** ** Errors *)

Inductive grow_error :=
  | CannotReadSuper | NotSupported | BadGeometry | NotSingleGroup | TooManyGroups | CannotReadGdt
  | CannotReadBitmap | CannotExpandBitmap | GroupTooSmall | CannotWriteBlockBitmap | CannotWriteInodeBitmap
  | CannotInitTable | CannotReadResizeInode | BadResizeInode | BadReservedGdt | CannotUpdateResizeMap
  | CannotUpdateResizeInode | CannotWriteBackup | CannotWriteReserved | CannotCommitGdt | CannotCommitSuper.

Definition eio (A : Type) : Type := io (A + grow_error).

Definition ebind {A C} (m : eio A) (f : A -> eio C) : eio C :=
  mbind (M := io) (λ r, match r with inl a => f a | inr e => mret (inr e) end) m.

Notation "x ⇐ m ; k" := (ebind m (λ x, k)) (at level 100, m at level 99, k at level 200, right associativity) : lorica_scope.

Definition eret {A} (a : A) : eio A := mret (inl a).
Definition efail {A} (e : grow_error) : eio A := mret (inr e).

(** Fail with [e] unless the call succeeds. *)
Definition must (m : io bool) (e : grow_error) : eio () := mbind (M := io) (λ ok : bool, if ok then eret tt else efail e) m.
Definition must_get {A} (m : io (option A)) (e : grow_error) : eio A :=
  mbind (M := io) (λ r, match r with Some a => eret a | None => efail e end) m.
Definition in_bounds {A} (o : option A) : eio A := match o with Some a => eret a | None => out_of_bounds end.

(** ** Geometry *)

Record geom := Geom {
  ge_bpg : Z;         (** blocks_per_group *)
  ge_ipg : Z;         (** inodes_per_group *)
  ge_isize : Z;       (** inode_size *)
  ge_reserved : Z;    (** reserved_gdt *)
  ge_itb : Z;         (** inode_table_blocks *)
  ge_old : Z;         (** old_blocks *)
  ge_groups : Z;
  ge_target : Z       (** target_blocks *)
}.

Definition backup_blocks (reserved g : Z) : Z := if has_sparse_super g then 2 + reserved else 0.

(** The checks of the superblock. *)
Definition supported (sb : bytes) : bool :=
  (rd16 sb 56 =? EXT2_MAGIC) && (rd32 sb 24 =? 2) && (rd32 sb 20 =? 0).

Definition geometry_ok (old bpg ipg isize reserved compat ro_compat : Z) : bool :=
  negb ((old =? 0) || (bpg =? 0) || (EXT2_BLOCK_SIZE * 8 <? bpg) || (ipg =? 0) || (65535 <? ipg) ||
        (isize <? 128) || (EXT2_BLOCK_SIZE <? isize) || negb (Z.land isize (isize - 1) =? 0) || (64 <? reserved) ||
        (Z.land compat EXT2_FEATURE_RESIZE_INO =? 0) || (Z.land ro_compat EXT2_FEATURE_SPARSE_SB =? 0)).

(** The number of blocks to grow to, before the last group is looked at. *)
Definition target_of (target_sectors bpg : Z) : Z :=
  Z.min (Z.min (target_sectors / SECTORS_PER_BLOCK) (EXT2_MAX_GROUPS * bpg)) UINT32_MAX.

(** A last group that cannot hold its own metadata is left out. *)
Definition trim (groups target bpg itb reserved : Z) : Z * Z :=
  if 1 <? groups then
    let last_valid := target - (groups - 1) * bpg in
    let last_prefix := 2 + itb + backup_blocks reserved (groups - 1) in
    if last_valid <=? last_prefix then (groups - 1, (groups - 1) * bpg) else (groups, target)
  else (groups, target).

(** ** The steps *)

(** Group 0 up to its full span; the new descriptors and the number of free
    blocks. *)
Definition expand_group0 (ge : geom) (sb gdt : bytes) : eio (bytes * Z) :=
  let bb := rd32 gdt 0 in
  let group0_end := if ge_groups ge =? 1 then ge_target ge else ge_bpg ge in
  let added := u32 (group0_end - ge_old ge) in
  if bb =? 0 then efail CannotReadBitmap else
  bitmap ⇐ must_get (read_block bb) CannotReadBitmap;
  bitmap ⇐ in_bounds (bitmap_clear_range bitmap (ge_old ge) group0_end);
  _ ⇐ must (write_block bb bitmap) CannotExpandBitmap;
  eret (wr16 gdt 12 (rd16 gdt 12 + added), rd32 sb 12 + added).

(** One new group: its descriptor, bitmaps and inode table. *)
Definition init_group (ge : geom) (g : Z) (gdt : bytes) (free_blocks : Z) : eio (bytes * Z) :=
  let start := g * ge_bpg ge in
  let valid := Z.min (ge_target ge - start) (ge_bpg ge) in
  let bb := start + backup_blocks (ge_reserved ge) g in
  let ib := bb + 1 in
  let it := ib + 1 in
  let prefix := backup_blocks (ge_reserved ge) g + 2 + ge_itb ge in
  if valid <=? prefix then efail GroupTooSmall else
  let free := valid - prefix in
  let gdt := bgd_set gdt g bb ib it free (ge_ipg ge) in
  bitmap ⇐ in_bounds (bitmap_clear_range (repeat 255 BLOCK) prefix valid);
  _ ⇐ must (write_block bb bitmap) CannotWriteBlockBitmap;
  bitmap ⇐ in_bounds (bitmap_clear_range (repeat 255 BLOCK) 0 (ge_ipg ge));
  _ ⇐ must (write_block ib bitmap) CannotWriteInodeBitmap;
  _ ⇐ must (zero_blocks it (ge_itb ge)) CannotInitTable;
  eret (gdt, free_blocks + free).

Fixpoint init_groups (ge : geom) (gs : list Z) (gdt : bytes) (free_blocks : Z) : eio (bytes * Z) :=
  match gs with
  | [] => eret (gdt, free_blocks)
  | g :: gs => r ⇐ init_group ge g gdt free_blocks; init_groups ge gs r.1 r.2
  end.

(** The new superblock. *)
Definition new_super (ge : geom) (sb : bytes) (free_blocks : Z) : bytes :=
  let sb := wr32 sb 0 (ge_groups ge * ge_ipg ge) in
  let sb := wr32 sb 4 (ge_target ge) in
  let sb := wr32 sb 8 (ge_target ge / 20) in
  let sb := wr32 sb 12 free_blocks in
  let sb := wr32 sb 16 (rd32 sb 16 + (ge_groups ge - 1) * ge_ipg ge) in
  wr16 sb 58 (Z.lor (rd16 sb 58) EXT2_VALID_FS).

(** The groups 1, ..., groups - 1. *)
Definition new_groups (ge : geom) : list Z := seqZ 1 (ge_groups ge - 1).
Definition backup_groups (ge : geom) : list Z := List.filter has_sparse_super (new_groups ge).

(** The map of a reserved GDT block to its backups. *)
Definition resize_refs (ge : geom) (r : Z) : bytes :=
  let refs := concat ((λ g, le_bytes 4 (g * ge_bpg ge + 2 + r)) <$> backup_groups ge) in
  splice 0 refs (zeros BLOCK).

Fixpoint link_reserved (ge : geom) (rs : list Z) (dind : bytes) : eio () :=
  match rs with
  | [] => eret tt
  | r :: rs =>
      let primary := rd32 dind (Z.to_nat ((r + 1) * 4)) in
      if primary =? 0 then efail BadReservedGdt else
      _ ⇐ must_get (read_block primary) BadReservedGdt;
      _ ⇐ must (write_block primary (resize_refs ge r)) CannotUpdateResizeMap;
      link_reserved ge rs dind
  end.

Definition link_resize_inode (ge : geom) (gdt : bytes) : eio () :=
  if ge_reserved ge =? 0 then eret tt else
  let inode_block := u32 (rd32 gdt 8 + (6 * ge_isize ge) / EXT2_BLOCK_SIZE) in
  let inode_off := Z.to_nat ((6 * ge_isize ge) mod EXT2_BLOCK_SIZE) in
  block ⇐ must_get (read_block inode_block) CannotReadResizeInode;
  let dind := rd32 block (inode_off + 40 + 13 * 4) in
  if dind =? 0 then efail BadResizeInode else
  map ⇐ must_get (read_block dind) BadResizeInode;
  _ ⇐ link_reserved ge (seqZ 0 (ge_reserved ge)) map;
  let block := wr32 block (inode_off + 28)
                 (rd32 block (inode_off + 28) + Z.of_nat (length (backup_groups ge)) * ge_reserved ge * SECTORS_PER_BLOCK) in
  must (write_block inode_block block) CannotUpdateResizeInode.

Fixpoint zero_each (bs : list Z) : eio () :=
  match bs with
  | [] => eret tt
  | b :: bs => _ ⇐ must (zero_blocks b 1) CannotWriteReserved; zero_each bs
  end.

Definition super_copy (sb : bytes) (g : Z) : bytes := wr16 (splice 0 sb (zeros BLOCK)) 90 g.

Fixpoint write_backups (ge : geom) (gs : list Z) (sb gdt : bytes) : eio () :=
  match gs with
  | [] => eret tt
  | g :: gs =>
      if negb (has_sparse_super g) then write_backups ge gs sb gdt else
      let start := g * ge_bpg ge in
      _ ⇐ must (write_block start (super_copy sb g)) CannotWriteBackup;
      _ ⇐ must (write_block (start + 1) gdt) CannotWriteBackup;
      _ ⇐ zero_each ((λ r, start + 2 + r) <$> seqZ 0 (ge_reserved ge));
      write_backups ge gs sb gdt
  end.

(** Everything after the geometry is known. *)
Definition grow_to (ge : geom) (sb : bytes) : eio Z :=
  gdt ⇐ must_get (read_block 1) CannotReadGdt;
  r ⇐ expand_group0 ge sb gdt;
  r ⇐ init_groups ge (new_groups ge) r.1 r.2;
  let gdt := r.1 in
  let sb := new_super ge sb r.2 in
  _ ⇐ link_resize_inode ge gdt;
  _ ⇐ write_backups ge (new_groups ge) sb gdt;
  _ ⇐ must (write_block 1 gdt) CannotCommitGdt;
  _ ⇐ must (write_checked 2 2 sb) CannotCommitSuper;
  eret (ge_target ge * SECTORS_PER_BLOCK).

(** The result is [*grown_sectors], or the error of the message in
    [*error_out]. *)
Definition ext2_grow (target_sectors : Z) : eio Z :=
  if target_sectors <? SECTORS_PER_BLOCK then efail CannotReadSuper else
  sb ⇐ must_get (io_read 2 2) CannotReadSuper;
  if negb (supported sb) then efail NotSupported else
  let old := rd32 sb 4 in
  let bpg := rd32 sb 32 in
  let ipg := rd32 sb 40 in
  let isize := rd16 sb 88 in
  let reserved := rd16 sb 206 in
  if negb (geometry_ok old bpg ipg isize reserved (rd32 sb 92) (rd32 sb 100)) then efail BadGeometry else
  if negb (u32 (old + bpg - 1) / bpg =? 1) then efail NotSingleGroup else
  let target := target_of target_sectors bpg in
  if target <=? old then eret (old * SECTORS_PER_BLOCK) else
  let groups := u32 (target + bpg - 1) / bpg in
  if (EXT2_MAX_GROUPS <? groups) || (EXT2_BLOCK_SIZE <? groups * 32) then efail TooManyGroups else
  let itb := (ipg * isize + EXT2_BLOCK_SIZE - 1) / EXT2_BLOCK_SIZE in
  let '(groups, target) := trim groups target bpg itb reserved in
  grow_to (Geom bpg ipg isize reserved itb old groups target) sb.
