(* ===== verification/Ext2GrowSafety.v ===== *)
(** What [ext2_grow] leaves on the disk, for every schedule of errors and a power
    cut at any transfer.

    [touches W d d'] says that only blocks in [W] were written.  The steps are
    specified with it and with what the written blocks hold ([blk]); the main
    theorems put them together: until the last write the superblock is the old
    one, after it every structure of the larger file system is in place, and the
    counters agree with the bitmaps again. *)

From S2P Require Import Prelude BlockDev Ext2Disk Ext2Grow.
Local Open Scope Z_scope.

(** * Definitions *)

(** Postconditions of steps that may report an error: [Q] for a result, [C] for an
    error or a power cut. *)
Definition ewp {A} (m : eio A) (Q : A -> device -> Prop) (C : device -> Prop) (d : device) : Prop :=
  dwp m (λ r d', match r with inl a => Q a d' | inr _ => C d' end) C d.

(** * Blocks *)

Section Blocks.

Implicit Types (d : device) (W : Z -> Prop) (b : Z).

Lemma read_block_spec b v n d : read_block b v n d =
  match v n with DOk => Val (Some (blk d b)) (S n) d | DFail _ => Val None (S n) d | DCrash _ => Stopped d end.
Proof.
  unfold read_block, io_read, blk, SECTORS_PER_BLOCK, SECTOR_SIZE, EXT2_BLOCK_SIZE. by rewrite <- Z.mul_assoc.
Qed.

Lemma wp_read_block b (Q : option bytes -> device -> Prop) (C : device -> Prop) d :
  Q (Some (blk d b)) d -> Q None d -> C d -> dwp (read_block b) Q C d.
Proof. intros H1 H2 H3 v n. rewrite read_block_spec. by destruct (v n). Qed.


(** A checked write: on success the data is there. *)
Lemma wp_write_checked sector count buf d :
  0 <= count -> (Z.to_nat (count * SECTOR_SIZE) <= length buf)%nat ->
  dwp (write_checked sector count buf)
    (λ ok d', within_run (sector * SECTOR_SIZE) (count * SECTOR_SIZE) d d' /\
       (ok = true -> dev_read d' (sector * SECTOR_SIZE) (Z.to_nat (count * SECTOR_SIZE)) = take (Z.to_nat (count * SECTOR_SIZE)) buf))
    (within_run (sector * SECTOR_SIZE) (count * SECTOR_SIZE) d) d.
Proof.
  intros Hc Hl. unfold write_checked. destruct (ZERO_CHUNK <? count * SECTOR_SIZE); [by apply dwp_ret|].
  set (data := take _ buf). assert (Hd : length data = Z.to_nat (count * SECTOR_SIZE)) by (unfold data; rewrite length_take; lia).
  assert (Hz : 0 <= count * SECTOR_SIZE) by (unfold SECTOR_SIZE; lia).
  assert (Hin : forall k, within_run (sector * SECTOR_SIZE) (count * SECTOR_SIZE) d (dev_write d (sector * SECTOR_SIZE) (take k data)))
    by (intros k; apply within_write; rewrite length_take; lia).
  assert (Hall : within_run (sector * SECTOR_SIZE) (count * SECTOR_SIZE) d (dev_write d (sector * SECTOR_SIZE) data))
    by (apply within_write; lia).
  apply dwp_bind, dwp_write; [|intros k; split; [by apply dwp_ret|apply Hin]]. cbn [negb].
  apply dwp_bind, dwp_read; [|by apply dwp_ret|done]. apply dwp_ret. split; [done|].
  intros E%bool_decide_eq_true. injection E as E. exact E.
Qed.

Lemma wp_write_block b buf d :
  length buf = BLOCK ->
  dwp (write_block b buf) (λ ok d', touches (λ x, x = b) d d' /\ (ok = true -> blk d' b = buf)) (touches (λ x, x = b) d) d.
Proof.
  intros Hl. unfold write_block.
  assert (Ht : forall d', within_run (b * SECTORS_PER_BLOCK * SECTOR_SIZE) (SECTORS_PER_BLOCK * SECTOR_SIZE) d d' -> touches (λ x, x = b) d d').
  { intros d' H. apply (within_touches _ _ b 1) in H; [|unfold SECTORS_PER_BLOCK, SECTOR_SIZE, EXT2_BLOCK_SIZE; lia..].
    eapply touches_mono; [|exact H]. cbn. intros x Hx. lia. }
  eapply dwp_conseq; [apply wp_write_checked; [done|by rewrite Hl]| |exact Ht].
  cbn beta. intros ok d' [H1 H2]. split; [by apply Ht|]. intros Hok. specialize (H2 Hok).
  rewrite (take_ge buf) in H2 by (by rewrite Hl). rewrite <- H2. unfold blk.
  rewrite <- Z.mul_assoc. reflexivity.
Qed.

Lemma wp_zero_loop fuel first done count d :
  0 <= done <= count -> count - done < Z.of_nat fuel -> (forall b, first <= b < first + done -> blk d b = zeros BLOCK) ->
  dwp (zero_loop fuel first done count)
    (λ ok d', touches (λ b, first + done <= b < first + count) d d' /\ (ok = true -> forall b, first <= b < first + count -> blk d' b = zeros BLOCK))
    (touches (λ b, first + done <= b < first + count) d) d.
Proof.
  revert done d. induction fuel as [|fuel IH]; intros done d Hd Hf Hz; [lia|]. cbn [zero_loop].
  destruct (done <? count) eqn:E; boolify.
  2:{ apply dwp_ret. split; [apply touches_refl|]. intros _ b Hb. apply Hz. lia. }
  change (ZERO_CHUNK / EXT2_BLOCK_SIZE) with 16. set (n := Z.min (count - done) 16). assert (Hn : 1 <= n <= 16 /\ done + n <= count) by lia.
  assert (Ht : forall d', within_run ((first + done) * SECTORS_PER_BLOCK * SECTOR_SIZE) (n * SECTORS_PER_BLOCK * SECTOR_SIZE) d d' ->
    touches (λ b, first + done <= b < first + done + n) d d').
  { intros d' H. apply (within_touches _ _ (first + done) n) in H; [done|unfold SECTORS_PER_BLOCK, SECTOR_SIZE, EXT2_BLOCK_SIZE; lia..]. }
  assert (Hm : forall x, first + done <= x < first + done + n -> first + done <= x < first + count) by lia.
  apply dwp_bind. eapply dwp_conseq; [apply wp_write_checked| |].
  { unfold SECTORS_PER_BLOCK. lia. }
  { rewrite zeros_length. unfold ZERO_CHUNK, SECTORS_PER_BLOCK, SECTOR_SIZE. lia. }
  2:{ intros d' H. eapply touches_mono; [exact Hm|]. by apply Ht. }
  cbn beta. intros [] d' [H1 H2]; cbn [negb].
  2:{ apply dwp_ret. split; [|done]. eapply touches_mono; [exact Hm|]. by apply Ht. }
  specialize (H2 eq_refl). rewrite take_zeros in H2 by (unfold ZERO_CHUNK, SECTORS_PER_BLOCK, SECTOR_SIZE; lia). rewrite zeros_spec in H2.
  assert (Hnew : forall b, first <= b < first + (done + n) -> blk d' b = zeros BLOCK).
  { intros b Hb. destruct (decide (b < first + done)) as [Hlt|Hge].
    - rewrite (blk_touches _ _ _ _ (Ht _ H1)) by lia. apply Hz. lia.
    - apply blk_zeros. intros a Ha. apply H2. unfold SECTORS_PER_BLOCK, SECTOR_SIZE, EXT2_BLOCK_SIZE in *. lia. }
  eapply dwp_conseq; [apply IH; [lia|lia|done]| |].
  - cbn beta. intros ok d2 [H3 H4]. split; [|done].
    eapply touches_trans; [eapply touches_mono; [exact Hm|by apply Ht]|]. eapply touches_mono; [|exact H3]. cbn. lia.
  - intros d2 H3. eapply touches_trans; [eapply touches_mono; [exact Hm|by apply Ht]|]. eapply touches_mono; [|exact H3]. cbn. lia.
Qed.

Lemma wp_zero_blocks first count d :
  0 <= count ->
  dwp (zero_blocks first count)
    (λ ok d', touches (λ b, first <= b < first + count) d d' /\ (ok = true -> forall b, first <= b < first + count -> blk d' b = zeros BLOCK))
    (touches (λ b, first <= b < first + count) d) d.
Proof.
  intros Hc. pose proof (wp_zero_loop (S (Z.to_nat count)) first 0 count d) as H. rewrite Z.add_0_r in H.
  apply H; [lia|lia|]. intros b Hb. lia.
Qed.

End Blocks.

(** * Bit maps *)

Section Maps.

Implicit Types (m : bytes).

Lemma clear_from_spec n m i :
  0 <= i -> i + Z.of_nat n <= 8 * Z.of_nat (length m) ->
  exists m', clear_from n m i = Some m' /\ length m' = length m /\
    forall j, 0 <= j -> bit m' j = bit m j && negb ((i <=? j) && (j <? i + Z.of_nat n)).
Proof.
  revert m i. induction n as [|n IH]; intros m i Hi Hn; cbn [clear_from].
  { exists m. split; [done|]. split; [done|]. intros j Hj. replace ((i <=? j) && (j <? i + Z.of_nat 0)) with false; [by rewrite andb_true_r|].
    symmetry. apply andb_false_iff. destruct (i <=? j) eqn:E; [|by left]. right. boolify. apply Z.ltb_ge. lia. }
  destruct (clear_bit_total m i) as (m1 & E & Hl & Hb); [lia|]. rewrite E.
  destruct (IH m1 (i + 1)) as (m2 & -> & Hl2 & Hb2); [lia|rewrite Hl; lia|]. exists m2. split; [done|]. split; [congruence|].
  intros j Hj. rewrite Hb2, Hb by done. rewrite <- andb_assoc. f_equal. rewrite <- negb_orb. f_equal.
  destruct (Z.eqb_spec i j), (Z.leb_spec (i + 1) j), (Z.ltb_spec j (i + 1 + Z.of_nat n)), (Z.leb_spec i j), (Z.ltb_spec j (i + Z.of_nat (S n)));
    cbn; done || lia.
Qed.

Lemma clear_range_spec m first end_ :
  0 <= first <= end_ -> end_ <= 8 * Z.of_nat (length m) ->
  exists m', bitmap_clear_range m first end_ = Some m' /\ length m' = length m /\
    forall j, 0 <= j -> bit m' j = bit m j && negb ((first <=? j) && (j <? end_)).
Proof.
  intros H1 H2. unfold bitmap_clear_range. destruct (clear_from_spec (Z.to_nat (end_ - first)) m first) as (m' & -> & Hl & Hb); [lia|lia|].
  exists m'. split; [done|]. split; [done|]. intros j Hj. rewrite Hb by done. by replace (first + Z.of_nat (Z.to_nat (end_ - first))) with end_ by lia.
Qed.

End Maps.

(** * Steps that may fail *)

Section Steps.

Context {A C' : Type}.

Lemma ewp_ret (a : A) (Q : A -> device -> Prop) C d : Q a d -> ewp (eret a) Q C d.
Proof. intros H. by apply dwp_ret. Qed.

Lemma ewp_fail e (Q : A -> device -> Prop) (C : device -> Prop) d : C d -> ewp (efail e) Q C d.
Proof. intros H. by apply dwp_ret. Qed.

Lemma ewp_bind (m : eio A) (f : A -> eio C') Q C d : ewp m (λ a, ewp (f a) Q C) C d -> ewp (ebind m f) Q C d.
Proof.
  intros H. unfold ebind, ewp. apply dwp_bind. eapply dwp_conseq; [exact H| |done].
  intros [a|e] d' H'; [exact H'|by apply dwp_ret].
Qed.

Lemma ewp_conseq (m : eio A) (Q Q' : A -> device -> Prop) (C C2 : device -> Prop) d :
  ewp m Q C d -> (forall a d', Q a d' -> Q' a d') -> (forall d', C d' -> C2 d') -> ewp m Q' C2 d.
Proof. intros H H1 H2. eapply dwp_conseq; [exact H| |done]. intros [a|e] d' H'; auto. Qed.

Lemma ewp_must (m : io bool) e (Q : () -> device -> Prop) (P C : device -> Prop) d :
  dwp m (λ ok d', P d' /\ (ok = true -> Q tt d')) C d -> (forall d', P d' -> C d') -> ewp (must m e) Q C d.
Proof.
  intros H HC. unfold must. apply dwp_bind. eapply dwp_conseq; [exact H| |done].
  intros [] d' [H1 H2]; apply dwp_ret; auto.
Qed.

Lemma ewp_get b e (Q : bytes -> device -> Prop) (C : device -> Prop) d :
  Q (blk d b) d -> C d -> ewp (must_get (read_block b) e) Q C d.
Proof. intros H1 H2. unfold must_get. apply dwp_bind, wp_read_block; [by apply dwp_ret|by apply dwp_ret|done]. Qed.

Lemma ewp_in_bounds (o : option A) a (Q : A -> device -> Prop) C d : o = Some a -> Q a d -> ewp (in_bounds o) Q C d.
Proof. intros -> H. by apply dwp_ret. Qed.

End Steps.

(** * New groups *)

(** What [ext2_grow] has checked when it starts to write, and that the inodes of a
    group fit one bitmap block, which it does not check. *)
Record geom_ok (ge : geom) : Prop := GeomOk {
  go_bpg : 1 <= ge_bpg ge <= 32768;
  go_ipg : 1 <= ge_ipg ge <= 32768;
  go_old : 1 <= ge_old ge <= ge_bpg ge;
  go_reserved : 0 <= ge_reserved ge <= 64;
  go_itb : 1 <= ge_itb ge;
  go_groups : 1 <= ge_groups ge <= 128;
  go_target : (ge_groups ge - 1) * ge_bpg ge < ge_target ge <= ge_groups ge * ge_bpg ge;
  go_more : ge_old ge <= ge_target ge;
  go_isize : exists k, 7 <= k <= 12 /\ ge_isize ge = 2 ^ k
}.

(** The layout of a group. *)
Definition g_start (ge : geom) (g : Z) : Z := g * ge_bpg ge.
Definition g_valid (ge : geom) (g : Z) : Z := Z.min (ge_target ge - g_start ge g) (ge_bpg ge).
Definition g_bb (ge : geom) (g : Z) : Z := g_start ge g + backup_blocks (ge_reserved ge) g.
Definition g_prefix (ge : geom) (g : Z) : Z := backup_blocks (ge_reserved ge) g + 2 + ge_itb ge.
Definition g_free (ge : geom) (g : Z) : Z := g_valid ge g - g_prefix ge g.

Definition set_desc (ge : geom) (gdt : bytes) (g : Z) : bytes :=
  bgd_set gdt g (g_bb ge g) (g_bb ge g + 1) (g_bb ge g + 2) (g_free ge g) (ge_ipg ge).

(** The blocks a new group writes for itself, and those of its backups. *)
Definition meta_region (ge : geom) (g b : Z) : Prop := g_bb ge g <= b < g_start ge g + g_prefix ge g.
Definition backup_region (ge : geom) (g b : Z) : Prop := g_start ge g <= b < g_bb ge g.

Record group_data (ge : geom) (d : device) (g : Z) : Prop := GroupData {
  gd_fits : g_prefix ge g < g_valid ge g;
  gd_blocks : forall j, 0 <= j < 32768 -> bit (blk d (g_bb ge g)) j = negb ((g_prefix ge g <=? j) && (j <? g_valid ge g));
  gd_inodes : forall j, 0 <= j < 32768 -> bit (blk d (g_bb ge g + 1)) j = negb (j <? ge_ipg ge);
  gd_table : forall b, g_bb ge g + 2 <= b < g_start ge g + g_prefix ge g -> blk d b = zeros BLOCK
}.

Section Groups.

Context (ge : geom) (Hge : geom_ok ge).

Implicit Types (g b : Z) (d : device).

Lemma backup_blocks_range g : 0 <= backup_blocks (ge_reserved ge) g <= 66.
Proof. destruct Hge. unfold backup_blocks. case_match; lia. Qed.

Lemma group_start g : 1 <= g -> ge_bpg ge <= g_start ge g.
Proof. destruct Hge. unfold g_start. nia. Qed.

Lemma region_in_group g b :
  g_prefix ge g < g_valid ge g -> meta_region ge g b \/ backup_region ge g b -> g_start ge g <= b < g_start ge g + ge_bpg ge.
Proof.
  intros Hf. pose proof (backup_blocks_range g). destruct Hge.
  unfold meta_region, backup_region, g_bb, g_prefix, g_valid in *. lia.
Qed.

Lemma groups_disjoint g g' b :
  g <> g' -> g_start ge g <= b < g_start ge g + ge_bpg ge -> ~ (g_start ge g' <= b < g_start ge g' + ge_bpg ge).
Proof. destruct Hge. unfold g_start. intros Hn H1 H2. assert (g < g' \/ g' < g) as [?|?] by lia; nia. Qed.

Lemma group_data_touches W d d' g :
  group_data ge d g -> touches W d d' -> (forall b, meta_region ge g b -> ~ W b) -> group_data ge d' g.
Proof.
  intros [H0 H1 H2 H3] Ht HW. pose proof (go_itb _ Hge).
  split; [done|intros j Hj|intros j Hj|intros b Hb]; (rewrite (blk_touches _ _ _ _ Ht); [auto|]); apply HW;
    unfold meta_region, g_bb, g_prefix in *; lia.
Qed.

Lemma full_length : length (repeat 255 BLOCK) = BLOCK.
Proof. apply repeat_length. Qed.

Lemma ewp_init_group g gdt fb d :
  1 <= g < ge_groups ge ->
  ewp (init_group ge g gdt fb)
    (λ r d', r = (set_desc ge gdt g, fb + g_free ge g) /\ touches (meta_region ge g) d d' /\ group_data ge d' g)
    (λ d', touches (λ b, g_start ge g <= b < g_start ge g + ge_bpg ge) d d') d.
Proof.
  intros Hg. unfold init_group. fold (g_start ge g). fold (g_valid ge g). fold (g_bb ge g). fold (g_prefix ge g).
  destruct (g_valid ge g <=? g_prefix ge g) eqn:E; boolify; [apply ewp_fail, touches_refl|].
  pose proof (backup_blocks_range g) as Hbk. pose proof Hge as [? Hi ? ? Hit ? ? _ _].
  assert (Hv : g_valid ge g <= 32768) by (unfold g_valid; lia).
  assert (Hin : forall b, meta_region ge g b -> g_start ge g <= b < g_start ge g + ge_bpg ge) by (intros b Hb; apply region_in_group; auto).
  destruct (clear_range_spec (repeat 255 BLOCK) (g_prefix ge g) (g_valid ge g)) as (bm & Ebm & Hbml & Hbm);
    [unfold g_prefix in *; lia|rewrite full_length, bits_of_block; lia|]. rewrite full_length in Hbml.
  destruct (clear_range_spec (repeat 255 BLOCK) 0 (ge_ipg ge)) as (im & Eim & Himl & Him);
    [lia|rewrite full_length, bits_of_block; lia|]. rewrite full_length in Himl.
  assert (Hw1 : forall x, x = g_bb ge g -> meta_region ge g x) by (unfold meta_region, g_bb, g_prefix; lia).
  assert (Hw2 : forall x, x = g_bb ge g + 1 -> meta_region ge g x) by (unfold meta_region, g_bb, g_prefix; lia).
  assert (Hw3 : forall x, g_bb ge g + 1 + 1 <= x < g_bb ge g + 1 + 1 + ge_itb ge -> meta_region ge g x) by (unfold meta_region, g_bb, g_prefix; lia).
  assert (Hout : forall d', touches (meta_region ge g) d d' -> touches (λ b, g_start ge g <= b < g_start ge g + ge_bpg ge) d d')
    by (intros d'; by apply touches_mono).
  apply ewp_bind. eapply ewp_in_bounds; [exact Ebm|]. apply ewp_bind.
  eapply (ewp_must _ _ _ (touches (meta_region ge g) d)); [eapply dwp_conseq; [by apply wp_write_block| |]|exact Hout].
  2:{ intros d1 H1. apply Hout. exact (touches_mono _ _ _ _ Hw1 H1). }
  cbn beta. intros ok1 d1 [H1 K1]. apply (touches_mono _ _ _ _ Hw1) in H1. split; [done|]. intros ->. specialize (K1 eq_refl).
  apply ewp_bind. eapply ewp_in_bounds; [exact Eim|]. apply ewp_bind.
  eapply (ewp_must _ _ _ (touches (meta_region ge g) d)); [eapply dwp_conseq; [by apply wp_write_block| |]|exact Hout].
  2:{ intros d2 H2. apply Hout. exact (touches_trans _ _ _ _ H1 (touches_mono _ _ _ _ Hw2 H2)). }
  cbn beta. intros ok2 d2 [H2 K2]. pose proof (touches_trans _ _ _ _ H1 (touches_mono _ _ _ _ Hw2 H2)) as H12.
  split; [done|]. intros ->. specialize (K2 eq_refl).
  apply ewp_bind. eapply (ewp_must _ _ _ (touches (meta_region ge g) d)); [eapply dwp_conseq; [apply wp_zero_blocks; lia| |]|exact Hout].
  2:{ intros d3 H3. apply Hout. exact (touches_trans _ _ _ _ H12 (touches_mono _ _ _ _ Hw3 H3)). }
  cbn beta. intros ok3 d3 [H3 K3].
  pose proof (touches_trans _ _ _ _ H12 (touches_mono _ _ _ _ Hw3 H3)) as Hall.
  split; [done|]. intros ->. specialize (K3 eq_refl). apply ewp_ret. split; [unfold set_desc, g_free; by replace (g_bb ge g + 1 + 1) with (g_bb ge g + 2) by lia|]. split; [done|].
  split; [done|intros j Hj|intros j Hj|intros b Hb].
  - rewrite (blk_touches _ _ _ _ H3), (blk_touches _ _ _ _ H2), K1 by lia. rewrite Hbm by lia.
    by rewrite full_bit by (rewrite bits_of_block; lia).
  - rewrite (blk_touches _ _ _ _ H3), K2 by lia. rewrite Him by lia. rewrite full_bit by (rewrite bits_of_block; lia).
    by rewrite (proj2 (Z.leb_le 0 j)) by lia.
  - apply K3. unfold g_prefix, g_bb in *. lia.
Qed.

(** Some group of the list. *)
Definition in_groups (gs : list Z) b : Prop := exists g, g ∈ gs /\ g_start ge g <= b < g_start ge g + ge_bpg ge.

Lemma in_groups_not g gs b : g ∉ gs -> g_start ge g <= b < g_start ge g + ge_bpg ge -> ~ in_groups gs b.
Proof.
  intros Hg Hb (g' & Hg' & Hb'). eapply groups_disjoint; [|exact Hb|exact Hb']. by intros ->.
Qed.

Definition free_sum (gs : list Z) : Z := foldr (λ g s, g_free ge g + s) 0 gs.

Lemma ewp_init_groups gs gdt fb d :
  Forall (λ g, 1 <= g < ge_groups ge) gs -> NoDup gs ->
  ewp (init_groups ge gs gdt fb)
    (λ r d', r = (foldl (set_desc ge) gdt gs, fb + free_sum gs) /\ touches (in_groups gs) d d' /\ Forall (group_data ge d') gs)
    (touches (in_groups gs) d) d.
Proof.
  intros Hr Hn. revert gdt fb d. induction gs as [|g gs IH]; intros gdt fb d; cbn [init_groups foldl free_sum foldr].
  { apply ewp_ret. rewrite Z.add_0_r. split; [done|]. split; [apply touches_refl|done]. }
  apply Forall_cons in Hr as [Hg Hr]. apply NoDup_cons in Hn as [Hgs Hn].
  assert (Hw : forall b, g_start ge g <= b < g_start ge g + ge_bpg ge -> in_groups (g :: gs) b) by (intros b Hb; exists g; split; [left|done]).
  assert (Hws : forall b, in_groups gs b -> in_groups (g :: gs) b) by (intros b (g' & Hg' & Hb); exists g'; split; [by right|done]).
  apply ewp_bind. eapply ewp_conseq; [by apply ewp_init_group| |].
  2:{ intros d1. by apply touches_mono. }
  cbn beta. intros r d1 (-> & H1 & Hd). cbn [fst snd].
  assert (Hin : forall b, meta_region ge g b -> g_start ge g <= b < g_start ge g + ge_bpg ge).
  { intros b Hb. apply region_in_group; [apply Hd|by left]. }
  assert (Ht1 : touches (in_groups (g :: gs)) d d1) by (eapply touches_mono; [|exact H1]; auto).
  eapply ewp_conseq; [by apply IH| |].
  2:{ intros d2 H2. eapply touches_trans; [exact Ht1|]. by eapply touches_mono. }
  cbn beta. intros r d2 (-> & H2 & Hds). split; [f_equal; fold (free_sum gs); lia|].
  split; [eapply touches_trans; [exact Ht1|]; by eapply touches_mono|]. constructor; [|done].
  eapply group_data_touches; [exact Hd|exact H2|]. intros b Hb. eapply in_groups_not; [done|auto].
Qed.

(** ** Backups *)

Record backup_data (sb gdt : bytes) d g : Prop := BackupData {
  bd_super : blk d (g_start ge g) = super_copy sb g;
  bd_gdt : blk d (g_start ge g + 1) = gdt;
  bd_reserved : forall r, 0 <= r < ge_reserved ge -> blk d (g_start ge g + 2 + r) = zeros BLOCK
}.

Lemma backup_data_touches W sb gdt d d' g :
  has_sparse_super g = true -> backup_data sb gdt d g -> touches W d d' -> (forall b, backup_region ge g b -> ~ W b) -> backup_data sb gdt d' g.
Proof.
  intros Hs [H1 H2 H3] Ht HW. assert (Hb : g_bb ge g = g_start ge g + (2 + ge_reserved ge)) by (unfold g_bb, backup_blocks; by rewrite Hs).
  pose proof (go_reserved _ Hge).
  split; [| |intros r Hr]; (rewrite (blk_touches _ _ _ _ Ht); [auto|]); apply HW; unfold backup_region; lia.
Qed.

Lemma ewp_zero_each bs d :
  NoDup bs ->
  ewp (zero_each bs) (λ _ d', touches (λ b, b ∈ bs) d d' /\ Forall (λ b, blk d' b = zeros BLOCK) bs) (touches (λ b, b ∈ bs) d) d.
Proof.
  intros Hn. revert d. induction bs as [|b bs IH]; intros d; cbn [zero_each].
  { apply ewp_ret. split; [apply touches_refl|done]. }
  apply NoDup_cons in Hn as [Hb Hn].
  assert (Hw : forall x, b <= x < b + 1 -> x ∈ b :: bs) by (intros x Hx; replace x with b by lia; left).
  assert (Hws : forall x, x ∈ bs -> x ∈ b :: bs) by (intros x Hx; by right).
  apply ewp_bind. eapply (ewp_must _ _ _ (touches (λ x, x ∈ b :: bs) d)); [eapply dwp_conseq; [apply wp_zero_blocks; lia| |]|done].
  2:{ intros d1. by apply touches_mono. }
  cbn beta. intros ok d1 [H1 K1]. pose proof (touches_mono _ _ _ _ Hw H1) as H1'. split; [done|]. intros ->. specialize (K1 eq_refl).
  eapply ewp_conseq; [by apply IH| |].
  2:{ intros d2 H2. exact (touches_trans _ _ _ _ H1' (touches_mono _ _ _ _ Hws H2)). }
  cbn beta. intros _ d2 [H2 K2]. split; [exact (touches_trans _ _ _ _ H1' (touches_mono _ _ _ _ Hws H2))|]. constructor; [|done].
  rewrite (blk_touches _ _ _ _ H2) by done. apply K1. lia.
Qed.

Lemma super_copy_length sb g : (length sb <= BLOCK)%nat -> length (super_copy sb g) = BLOCK.
Proof.
  intros H. unfold super_copy. assert (Hs : length (splice 0 sb (zeros BLOCK)) = BLOCK) by (rewrite length_splice; rewrite zeros_length; lia).
  rewrite wr16_length; [done|]. rewrite Hs. unfold BLOCK, EXT2_BLOCK_SIZE. lia.
Qed.

(** One group with backups. *)
Lemma ewp_backup g sb gdt d {A} (k : eio A) Q C :
  has_sparse_super g = true -> (length sb <= BLOCK)%nat -> length gdt = BLOCK ->
  (forall d', touches (backup_region ge g) d d' -> C d') ->
  (forall d', touches (backup_region ge g) d d' -> backup_data sb gdt d' g -> ewp k Q C d') ->
  ewp (ebind (must (write_block (g_start ge g) (super_copy sb g)) CannotWriteBackup) (λ _,
       ebind (must (write_block (g_start ge g + 1) gdt) CannotWriteBackup) (λ _,
       ebind (zero_each ((λ r, g_start ge g + 2 + r) <$> seqZ 0 (ge_reserved ge))) (λ _, k)))) Q C d.
Proof.
  intros Hs Hsb Hgdt HC Hk. assert (Hb : g_bb ge g = g_start ge g + (2 + ge_reserved ge)) by (unfold g_bb, backup_blocks; by rewrite Hs).
  pose proof (go_reserved _ Hge) as Hr.
  assert (Hw1 : forall x, x = g_start ge g -> backup_region ge g x) by (unfold backup_region; lia).
  assert (Hw2 : forall x, x = g_start ge g + 1 -> backup_region ge g x) by (unfold backup_region; lia).
  assert (Hw3 : forall x, x ∈ ((λ r, g_start ge g + 2 + r) <$> seqZ 0 (ge_reserved ge)) -> g_start ge g + 2 <= x < g_bb ge g).
  { intros x (r & -> & Hr'%elem_of_seqZ)%list_elem_of_fmap. lia. }
  assert (Hw3' : forall x, x ∈ ((λ r, g_start ge g + 2 + r) <$> seqZ 0 (ge_reserved ge)) -> backup_region ge g x).
  { intros x Hx. apply Hw3 in Hx. unfold backup_region. lia. }
  apply ewp_bind. eapply (ewp_must _ _ _ (touches (backup_region ge g) d)); [eapply dwp_conseq; [apply wp_write_block; by apply super_copy_length| |]|done].
  2:{ intros d1 H1. apply HC. exact (touches_mono _ _ _ _ Hw1 H1). }
  cbn beta. intros ok1 d1 [H1 K1]. pose proof (touches_mono _ _ _ _ Hw1 H1) as T1. split; [done|]. intros ->. specialize (K1 eq_refl).
  apply ewp_bind. eapply (ewp_must _ _ _ (touches (backup_region ge g) d)); [eapply dwp_conseq; [by apply wp_write_block| |]|done].
  2:{ intros d2 H2. apply HC. exact (touches_trans _ _ _ _ T1 (touches_mono _ _ _ _ Hw2 H2)). }
  cbn beta. intros ok2 d2 [H2 K2]. pose proof (touches_trans _ _ _ _ T1 (touches_mono _ _ _ _ Hw2 H2)) as T2. split; [done|]. intros ->.
  specialize (K2 eq_refl). apply ewp_bind. eapply ewp_conseq; [apply ewp_zero_each| |].
  { apply NoDup_fmap; [intros x y; lia|apply NoDup_seqZ]. }
  2:{ intros d3 H3. apply HC. exact (touches_trans _ _ _ _ T2 (touches_mono _ _ _ _ Hw3' H3)). }
  cbn beta. intros _ d3 [H3 K3]. apply Hk; [exact (touches_trans _ _ _ _ T2 (touches_mono _ _ _ _ Hw3' H3))|].
  split.
  - rewrite (blk_touches _ _ _ _ H3), (blk_touches _ _ _ _ H2), K1; [done|lia|]. intros Hx%Hw3. lia.
  - rewrite (blk_touches _ _ _ _ H3), K2; [done|]. intros Hx%Hw3. lia.
  - intros r Hr'. rewrite Forall_forall in K3. apply K3, list_elem_of_fmap. exists r. split; [done|]. apply elem_of_seqZ. lia.
Qed.

Lemma ewp_write_backups gs sb gdt d :
  Forall (λ g, g_prefix ge g < g_valid ge g) gs -> NoDup gs -> (length sb <= BLOCK)%nat -> length gdt = BLOCK ->
  ewp (write_backups ge gs sb gdt)
    (λ _ d', touches (λ b, exists g, g ∈ gs /\ backup_region ge g b) d d' /\
       Forall (λ g, has_sparse_super g = true -> backup_data sb gdt d' g) gs)
    (touches (λ b, exists g, g ∈ gs /\ backup_region ge g b) d) d.
Proof.
  intros Hf Hn Hsb Hgdt. revert d. induction gs as [|g gs IH]; intros d; cbn [write_backups].
  { apply ewp_ret. split; [apply touches_refl|done]. }
  apply Forall_cons in Hf as [Hg Hf]. apply NoDup_cons in Hn as [Hgs Hn]. specialize (IH Hf Hn). rewrite Forall_forall in Hf.
  assert (Hws : forall b, (exists g', g' ∈ gs /\ backup_region ge g' b) -> exists g', g' ∈ g :: gs /\ backup_region ge g' b).
  { intros b (g' & Hg' & Hb). exists g'. split; [by right|done]. }
  assert (Hw : forall b, backup_region ge g b -> exists g', g' ∈ g :: gs /\ backup_region ge g' b).
  { intros b Hb. exists g. split; [left|done]. }
  destruct (has_sparse_super g) eqn:Es; cbn [negb].
  2:{ eapply ewp_conseq; [apply IH| |]; cbn beta.
      - intros _ d' [H1 H2]. split; [exact (touches_mono _ _ _ _ Hws H1)|]. constructor; [congruence|done].
      - intros d'. by apply touches_mono. }
  apply ewp_backup; [done|done|done|intros d1; by apply touches_mono|]. intros d1 H1 K1. pose proof (touches_mono _ _ _ _ Hw H1) as T1.
  eapply ewp_conseq; [apply IH| |]; cbn beta.
  - intros _ d2 [H2 K2]. split; [exact (touches_trans _ _ _ _ T1 (touches_mono _ _ _ _ Hws H2))|]. constructor; [|done]. intros _.
    eapply backup_data_touches; [done|exact K1|exact H2|]. intros b Hb (g' & Hg' & Hb').
    apply (groups_disjoint g g' b); [by intros ->|apply region_in_group; auto|apply region_in_group; auto].
  - intros d2 H2. exact (touches_trans _ _ _ _ T1 (touches_mono _ _ _ _ Hws H2)).
Qed.

End Groups.

(** * Group descriptors *)

Section Descriptors.

Context (ge : geom) (Hge : geom_ok ge).

Implicit Types (g : Z) (gdt : bytes).

Definition desc (g : Z) : nat := (Z.to_nat g * EXT2_DESC_SIZE)%nat.

Lemma desc_fits g : 0 <= g < 128 -> (desc g + 32 <= BLOCK)%nat.
Proof. intros Hg. unfold desc, EXT2_DESC_SIZE, BLOCK, EXT2_BLOCK_SIZE. lia. Qed.

Lemma set_desc_length gdt g : 0 <= g < 128 -> length gdt = BLOCK -> length (set_desc ge gdt g) = BLOCK.
Proof.
  intros Hg Hl. pose proof (desc_fits g Hg) as Hd. unfold desc in Hd. unfold set_desc, bgd_set.
  assert (Hs : length (splice (Z.to_nat g * EXT2_DESC_SIZE) (zeros EXT2_DESC_SIZE) gdt) = BLOCK)
    by (rewrite length_splice; rewrite ?zeros_length; unfold EXT2_DESC_SIZE in *; lia).
  repeat (rewrite wr16_length || rewrite wr32_length); rewrite ?Hs; unfold EXT2_DESC_SIZE in *; lia.
Qed.

(** What is left of a field outside the descriptor. *)
Lemma set_desc_outside gdt g off len :
  0 <= g < 128 -> length gdt = BLOCK -> (off + len <= desc g \/ desc g + 32 <= off)%nat ->
  slice off len (set_desc ge gdt g) = slice off len gdt.
Proof.
  intros Hg Hl Ho. pose proof (desc_fits g Hg) as Hd. unfold desc in *. unfold set_desc, bgd_set, wr16, wr32.
  assert (H0 : length (splice (Z.to_nat g * EXT2_DESC_SIZE) (zeros EXT2_DESC_SIZE) gdt) = BLOCK)
    by (rewrite length_splice; rewrite ?zeros_length; unfold EXT2_DESC_SIZE in *; lia).
  repeat (rewrite slice_splice_ne; [| |rewrite ?length_le_bytes, ?zeros_length; unfold EXT2_DESC_SIZE in *; lia]);
    [done|..]; repeat rewrite length_splice; rewrite ?length_le_bytes, ?zeros_length, ?H0; unfold EXT2_DESC_SIZE in *; try lia.
Qed.

Lemma set_desc_fields gdt g :
  0 <= g < 128 -> length gdt = BLOCK ->
  rd32 (set_desc ge gdt g) (desc g) = u32 (g_bb ge g) /\ rd32 (set_desc ge gdt g) (desc g + 4) = u32 (g_bb ge g + 1) /\
  rd32 (set_desc ge gdt g) (desc g + 8) = u32 (g_bb ge g + 2) /\
  rd16 (set_desc ge gdt g) (desc g + 12) = u16 (g_free ge g) /\ rd16 (set_desc ge gdt g) (desc g + 14) = u16 (ge_ipg ge).
Proof.
  intros Hg Hl. pose proof (desc_fits g Hg) as Hd. unfold set_desc, bgd_set. fold (desc g).
  assert (H0 : length (splice (desc g) (zeros EXT2_DESC_SIZE) gdt) = BLOCK)
    by (rewrite length_splice; rewrite ?zeros_length; unfold EXT2_DESC_SIZE in *; lia).
  set (p0 := splice _ _ _) in *. clearbody p0.
  set (p1 := wr32 p0 (desc g) (g_bb ge g)). assert (H1 : length p1 = BLOCK) by (unfold p1; rewrite wr32_length; lia).
  set (p2 := wr32 p1 (desc g + 4) (g_bb ge g + 1)). assert (H2 : length p2 = BLOCK) by (unfold p2; rewrite wr32_length; lia).
  set (p3 := wr32 p2 (desc g + 8) (g_bb ge g + 2)). assert (H3 : length p3 = BLOCK) by (unfold p3; rewrite wr32_length; lia).
  set (p4 := wr16 p3 (desc g + 12) (g_free ge g)). assert (H4 : length p4 = BLOCK) by (unfold p4; rewrite wr16_length; lia).
  rewrite !rd32_wr16, rd16_wr16_ne, rd16_wr16 by lia. unfold p4. rewrite !rd32_wr16, rd16_wr16 by lia. unfold p3.
  rewrite (rd32_wr32_ne p2 _ (desc g)), (rd32_wr32_ne p2 _ (desc g + 4)), rd32_wr32 by lia. unfold p2.
  rewrite (rd32_wr32_ne p1 _ (desc g)), rd32_wr32 by lia. unfold p1. rewrite rd32_wr32 by lia. done.
Qed.

Lemma set_descs_length gs gdt : Forall (λ g, 0 <= g < 128) gs -> length gdt = BLOCK -> length (foldl (set_desc ge) gdt gs) = BLOCK.
Proof.
  intros Hg. revert gdt. induction Hg as [|g gs Hg _ IH]; intros gdt Hl; [done|]. cbn [foldl]. apply IH. by apply set_desc_length.
Qed.

Lemma set_descs_outside gs gdt off len :
  Forall (λ g, 0 <= g < 128) gs -> length gdt = BLOCK ->
  Forall (λ g, off + len <= desc g \/ desc g + 32 <= off)%nat gs -> slice off len (foldl (set_desc ge) gdt gs) = slice off len gdt.
Proof.
  intros Hg. revert gdt. induction Hg as [|g gs Hg _ IH]; intros gdt Hl Ho; [done|]. cbn [foldl].
  apply Forall_cons in Ho as [Ho Hos]. rewrite IH; [|by apply set_desc_length|done]. by apply set_desc_outside.
Qed.

Lemma desc_apart g g' : 0 <= g -> 0 <= g' -> g <> g' -> (desc g + 32 <= desc g' \/ desc g' + 32 <= desc g)%nat.
Proof. intros. unfold desc, EXT2_DESC_SIZE. lia. Qed.

(** The descriptor of a group of the list. *)
Lemma set_descs_slice gs gdt g off len :
  Forall (λ g, 0 <= g < 128) gs -> NoDup gs -> length gdt = BLOCK -> g ∈ gs -> (off + len <= 32)%nat ->
  exists gdt', length gdt' = BLOCK /\ slice (desc g + off) len (foldl (set_desc ge) gdt gs) = slice (desc g + off) len (set_desc ge gdt' g).
Proof.
  intros Hr Hn Hl Hg Hoff. revert gdt Hl. induction gs as [|x gs IH]; intros gdt Hl; [by apply elem_of_nil in Hg|].
  apply Forall_cons in Hr as [Hx Hr]. apply NoDup_cons in Hn as [Hxs Hn]. cbn [foldl].
  apply elem_of_cons in Hg as [->|Hg].
  - exists gdt. split; [done|]. apply set_descs_outside; [done|by apply set_desc_length|].
    apply Forall_forall. intros y Hy. rewrite Forall_forall in Hr. specialize (Hr y Hy).
    destruct (desc_apart x y) as [H|H]; [lia|lia|by intros ->|left; lia|right; lia].
  - apply IH; [done|done|done|by apply set_desc_length].
Qed.

End Descriptors.

(** * The image and the whole run *)

Section Image.

Context (ge : geom) (Hge : geom_ok ge) (d0 : device).

Implicit Types (d : device) (b r g : Z).

(** Group 0 and the resize inode of the image. *)
Definition bb0 : Z := rd32 (blk d0 1) 0.
Definition group0_end : Z := if ge_groups ge =? 1 then ge_target ge else ge_bpg ge.
Definition added : Z := group0_end - ge_old ge.
Definition resize_block : Z := u32 (rd32 (blk d0 1) 8 + (6 * ge_isize ge) / EXT2_BLOCK_SIZE).
Definition resize_off : nat := Z.to_nat ((6 * ge_isize ge) mod EXT2_BLOCK_SIZE).
Definition resize_map : Z := rd32 (blk d0 resize_block) (resize_off + 40 + 13 * 4).
Definition primary (r : Z) : Z := rd32 (blk d0 resize_map) (Z.to_nat ((r + 1) * 4)).

(** The metadata of the image lies in group 0, in blocks of their own. *)
Record image_ok : Prop := ImageOk {
  im_bb : 1 < bb0 < ge_bpg ge;
  im_resize : ge_reserved ge <> 0 -> 1 < resize_block < ge_bpg ge /\ resize_block <> bb0 /\ 1 < resize_map < ge_bpg ge /\ resize_map <> bb0;
  im_primary : forall r, 0 <= r < ge_reserved ge -> 1 < primary r < ge_bpg ge /\ primary r <> bb0 /\ primary r <> resize_block;
  im_distinct : forall r r', 0 <= r < ge_reserved ge -> 0 <= r' < ge_reserved ge -> primary r = primary r' -> r = r';
  im_map : ge_reserved ge <> 0 -> resize_map <> resize_block /\ forall r, 0 <= r < ge_reserved ge -> primary r <> resize_map
}.

Definition in_resize b : Prop := ge_reserved ge <> 0 /\ (b = resize_block \/ exists r, 0 <= r < ge_reserved ge /\ b = primary r).

(** The blocks that may be written before the superblock. *)
Definition zone b : Prop := b = 1 \/ b = bb0 \/ in_resize b \/ ge_bpg ge <= b.

(** ** Group 0 *)

Definition group0_data d : Prop := forall j, 0 <= j < 32768 ->
  bit (blk d bb0) j = bit (blk d0 bb0) j && negb ((ge_old ge <=? j) && (j <? group0_end)).

Lemma group0_end_range : ge_old ge <= group0_end <= 32768.
Proof. destruct Hge as [? ? ? ? ? ? ? ? _]. unfold group0_end. destruct (Z.eqb_spec (ge_groups ge) 1) as [E|]; [rewrite E in *|]; lia. Qed.

Definition gdt1 : bytes := wr16 (blk d0 1) 12 (rd16 (blk d0 1) 12 + added).

Lemma ewp_expand_group0 sb :
  image_ok ->
  ewp (expand_group0 ge sb (blk d0 1))
    (λ x d', x = (gdt1, rd32 sb 12 + added) /\ touches (λ b, b = bb0) d0 d' /\ group0_data d') (touches (λ b, b = bb0) d0) d0.
Proof.
  intros Him. pose proof (im_bb Him) as Hbb. pose proof group0_end_range as He. pose proof (go_old _ Hge) as Hold. unfold expand_group0.
  fold bb0. fold group0_end. replace (u32 (group0_end - ge_old ge)) with added by (unfold added; rewrite u32_small; lia).
  rewrite (proj2 (Z.eqb_neq bb0 0)) by lia. apply ewp_bind, ewp_get; [|apply touches_refl].
  destruct (clear_range_spec (blk d0 bb0) (ge_old ge) group0_end) as (m & Em & Hl & Hm); [lia|rewrite blk_length, bits_of_block; lia|].
  rewrite blk_length in Hl. apply ewp_bind. eapply ewp_in_bounds; [exact Em|]. apply ewp_bind.
  eapply (ewp_must _ _ _ (touches (λ b, b = bb0) d0)); [eapply dwp_conseq; [by apply wp_write_block| |]|]; [|done|done].
  cbn beta. intros ok d1 [H1 K1]. split; [done|]. intros ->. apply ewp_ret. split; [done|]. split; [done|].
  intros j Hj. rewrite K1 by done. apply Hm. lia.
Qed.

(** ** The resize inode *)

Lemma backup_groups_short : (length (backup_groups ge) <= 127)%nat.
Proof.
  unfold backup_groups. etransitivity; [apply List.filter_length_le|]. unfold new_groups. rewrite length_seqZ.
  pose proof (go_groups _ Hge). lia.
Qed.


Lemma concat_le4_length {A} (f : A -> Z) l : length (concat ((λ x, le_bytes 4 (f x)) <$> l)) = (4 * length l)%nat.
Proof. induction l as [|x l IH]; [done|]. cbn [fmap list_fmap concat length]. rewrite length_app, length_le_bytes, IH. lia. Qed.

Lemma resize_refs_length r : length (resize_refs ge r) = BLOCK.
Proof.
  unfold resize_refs. rewrite length_splice; [apply zeros_length|]. rewrite zeros_length, concat_le4_length.
  pose proof backup_groups_short. unfold BLOCK, EXT2_BLOCK_SIZE. lia.
Qed.

Definition linked d (rs : list Z) : Prop := Forall (λ r, blk d (primary r) = resize_refs ge r) rs.

Lemma ewp_link_reserved rs d :
  image_ok -> Forall (λ r, 0 <= r < ge_reserved ge) rs -> NoDup rs ->
  ewp (link_reserved ge rs (blk d0 resize_map))
    (λ _ d', touches (λ b, exists r, r ∈ rs /\ b = primary r) d d' /\ linked d' rs)
    (touches (λ b, exists r, r ∈ rs /\ b = primary r) d) d.
Proof.
  intros Him Hr Hn. revert d. induction rs as [|r rs IH]; intros d; cbn [link_reserved].
  { apply ewp_ret. split; [apply touches_refl|by constructor]. }
  apply Forall_cons in Hr as [Hr Hrs]. apply NoDup_cons in Hn as [Hnr Hn]. specialize (IH Hrs Hn). rewrite Forall_forall in Hrs.
  fold (primary r). destruct (im_primary Him r Hr) as (Hp & _ & _). rewrite (proj2 (Z.eqb_neq (primary r) 0)) by lia.
  assert (Hw : forall b, b = primary r -> exists r', r' ∈ r :: rs /\ b = primary r') by (intros b ->; exists r; split; [left|done]).
  assert (Hws : forall b, (exists r', r' ∈ rs /\ b = primary r') -> exists r', r' ∈ r :: rs /\ b = primary r')
    by (intros b (r' & Hr' & ->); exists r'; split; [by right|done]).
  apply ewp_bind, ewp_get; [|apply touches_refl]. apply ewp_bind.
  eapply (ewp_must _ _ _ (touches (λ b, exists r', r' ∈ r :: rs /\ b = primary r') d));
    [eapply dwp_conseq; [apply wp_write_block, resize_refs_length| |]|done].
  2:{ intros d1 H1. exact (touches_mono _ _ _ _ Hw H1). }
  cbn beta. intros ok d1 [H1 K1]. pose proof (touches_mono _ _ _ _ Hw H1) as T1. split; [done|]. intros ->. specialize (K1 eq_refl).
  eapply ewp_conseq; [apply IH| |]; cbn beta.
  - intros _ d2 [H2 K2]. split; [exact (touches_trans _ _ _ _ T1 (touches_mono _ _ _ _ Hws H2))|]. constructor; [|done].
    rewrite (blk_touches _ _ _ _ H2); [done|]. intros (r' & Hr' & E). apply Hnr.
    by rewrite (im_distinct Him r r' Hr (Hrs r' Hr') E).
  - intros d2 H2. exact (touches_trans _ _ _ _ T1 (touches_mono _ _ _ _ Hws H2)).
Qed.

Definition resize_inode : bytes :=
  wr32 (blk d0 resize_block) (resize_off + 28)
    (rd32 (blk d0 resize_block) (resize_off + 28) + Z.of_nat (length (backup_groups ge)) * ge_reserved ge * SECTORS_PER_BLOCK).

Lemma resize_off_fits : (resize_off + 128 <= BLOCK)%nat.
Proof.
  destruct (go_isize _ Hge) as (k & Hk & Hi). unfold resize_off, BLOCK, EXT2_BLOCK_SIZE. rewrite Hi.
  assert (k = 7 \/ k = 8 \/ k = 9 \/ k = 10 \/ k = 11 \/ k = 12) as [-> |[-> |[-> |[-> |[-> | ->]]]]] by lia;
    match goal with |- context [?x mod 4096] => let v := eval vm_compute in (x mod 4096) in change (x mod 4096) with v end; lia.
Qed.

Record resize_data d : Prop := ResizeData {
  rz_links : linked d (seqZ 0 (ge_reserved ge));
  rz_inode : blk d resize_block = resize_inode
}.

Lemma ewp_link_resize_inode gdt d :
  image_ok -> rd32 gdt 8 = rd32 (blk d0 1) 8 ->
  (ge_reserved ge <> 0 -> blk d resize_block = blk d0 resize_block /\ blk d resize_map = blk d0 resize_map) ->
  ewp (link_resize_inode ge gdt) (λ _ d', touches in_resize d d' /\ (ge_reserved ge <> 0 -> resize_data d')) (touches in_resize d) d.
Proof.
  intros Him Hg Hd. unfold link_resize_inode. destruct (Z.eqb_spec (ge_reserved ge) 0) as [E|E].
  { apply ewp_ret. split; [apply touches_refl|done]. }
  destruct (Hd E) as [Hb Hm]. destruct (im_resize Him E) as (Hrb & Hne & Hrm & _). rewrite Hg. fold resize_block. fold resize_off.
  apply ewp_bind, ewp_get; [|apply touches_refl]. rewrite Hb. fold resize_map. rewrite (proj2 (Z.eqb_neq resize_map 0)) by lia.
  apply ewp_bind, ewp_get; [|apply touches_refl]. rewrite Hm.
  assert (Hw : forall b, (exists r, r ∈ seqZ 0 (ge_reserved ge) /\ b = primary r) -> in_resize b).
  { intros b (r & Hr%elem_of_seqZ & ->). split; [done|]. right. exists r. split; [lia|done]. }
  assert (Hw2 : forall b, b = resize_block -> in_resize b) by (intros b ->; split; [done|by left]).
  apply ewp_bind. eapply ewp_conseq; [apply ewp_link_reserved; [done| |apply NoDup_seqZ]| |].
  { apply Forall_forall. intros r Hr%elem_of_seqZ. lia. }
  2:{ intros d1. by apply touches_mono. }
  cbn beta. intros _ d1 [H1 K1]. pose proof (touches_mono _ _ _ _ Hw H1) as T1.
  eapply (ewp_must _ _ _ (touches in_resize d)); [eapply dwp_conseq; [apply wp_write_block| |]|done].
  { rewrite wr32_length; [apply blk_length|]. rewrite blk_length. pose proof resize_off_fits. lia. }
  2:{ intros d2 H2. exact (touches_trans _ _ _ _ T1 (touches_mono _ _ _ _ Hw2 H2)). }
  cbn beta. intros ok d2 [H2 K2]. pose proof (touches_trans _ _ _ _ T1 (touches_mono _ _ _ _ Hw2 H2)) as T2. split; [done|].
  intros ->. specialize (K2 eq_refl). split; [done|]. intros _. split; [|done].
  unfold linked in *. rewrite Forall_forall in *. intros r Hr. rewrite (blk_touches _ _ _ _ H2); [by apply K1|].
  apply elem_of_seqZ in Hr. apply (im_primary Him). lia.
Qed.

(** ** The whole run *)

Definition new_gdt : bytes := foldl (set_desc ge) gdt1 (new_groups ge).
Definition new_free (sb : bytes) : Z := rd32 sb 12 + added + free_sum ge (new_groups ge).
Definition new_sb (sb : bytes) : bytes := new_super ge sb (new_free sb).

(** Everything but the superblock is in place. *)
Record ready (sb : bytes) d : Prop := Ready {
  rd_gdt : blk d 1 = new_gdt;
  rd_group0 : group0_data d;
  rd_groups : Forall (group_data ge d) (new_groups ge);
  rd_backups : Forall (λ g, has_sparse_super g = true -> backup_data ge (new_sb sb) new_gdt d g) (new_groups ge);
  rd_resize : ge_reserved ge <> 0 -> resize_data d
}.

Record grown (sb : bytes) d : Prop := Grown {
  gn_super : super_of d = new_sb sb;
  gn_ready : ready sb d;
  gn_frame : touches (λ b, b = 0 \/ zone b) d0 d
}.

(** The superblock is still the old one, and blocks outside the zone are as they
    were. *)
Record original (sb : bytes) d : Prop := Original {
  or_super : super_of d = sb;
  or_frame : touches (λ b, b = 0 \/ zone b) d0 d
}.

Lemma new_groups_range : Forall (λ g, 1 <= g < ge_groups ge) (new_groups ge).
Proof. apply Forall_forall. intros g Hg%elem_of_seqZ. lia. Qed.

Lemma new_groups_small : Forall (λ g, 0 <= g < 128) (new_groups ge).
Proof. eapply Forall_impl; [apply new_groups_range|]. cbn. pose proof (go_groups _ Hge). lia. Qed.

Lemma new_groups_NoDup : NoDup (new_groups ge).
Proof. apply NoDup_seqZ. Qed.

Lemma gdt1_length : length gdt1 = BLOCK.
Proof. unfold gdt1. rewrite wr16_length; rewrite blk_length; [done|]. unfold BLOCK, EXT2_BLOCK_SIZE. lia. Qed.

Lemma new_gdt_length : length new_gdt = BLOCK.
Proof. apply set_descs_length; [apply new_groups_small|apply gdt1_length]. Qed.

(** The descriptor of group 0 keeps its pointers. *)
Lemma new_gdt_zero off len : (off + len <= 32)%nat -> slice off len new_gdt = slice off len gdt1.
Proof.
  intros H. apply set_descs_outside; [apply new_groups_small|apply gdt1_length|].
  eapply Forall_impl; [apply new_groups_range|]. cbn. intros g Hg. left. unfold desc, EXT2_DESC_SIZE. lia.
Qed.

Lemma gdt1_other off len : (off + len <= 12 \/ 14 <= off)%nat -> slice off len gdt1 = slice off len (blk d0 1).
Proof.
  intros H. unfold gdt1, wr16. rewrite slice_splice_ne; [done| |]; rewrite length_le_bytes; [|lia].
  rewrite blk_length. unfold BLOCK, EXT2_BLOCK_SIZE. lia.
Qed.

Lemma new_gdt_table : rd32 new_gdt 8 = rd32 (blk d0 1) 8.
Proof. unfold rd32. rewrite new_gdt_zero by lia. by rewrite gdt1_other by lia. Qed.

Lemma in_groups_high gs b : Forall (λ g, 1 <= g < ge_groups ge) gs -> in_groups ge gs b -> ge_bpg ge <= b.
Proof. rewrite Forall_forall. intros Hr (g & Hg & Hb). pose proof (group_start ge Hge g). specialize (Hr g Hg). lia. Qed.

Lemma meta_high d g b : group_data ge d g -> 1 <= g -> meta_region ge g b -> ge_bpg ge <= b.
Proof. intros Hd Hg Hb. pose proof (group_start ge Hge g Hg). assert (Hx := region_in_group ge Hge g b (gd_fits _ _ _ Hd) (or_introl Hb)). lia. Qed.

Lemma backup_high g b : 1 <= g -> backup_region ge g b -> ge_bpg ge <= b.
Proof. intros Hg Hb. pose proof (group_start ge Hge g Hg). unfold backup_region in Hb. lia. Qed.

Lemma in_resize_low b : image_ok -> in_resize b -> 1 < b < ge_bpg ge /\ b <> bb0.
Proof.
  intros Him [Hr [->|(r & Hr' & ->)]]; [destruct (im_resize Him Hr) as (? & ? & _)|destruct (im_primary Him r Hr') as (? & ? & _)]; done.
Qed.

Lemma bpg_pos : 1 <= ge_bpg ge.
Proof. pose proof (go_bpg _ Hge). lia. Qed.

Lemma ready_touches sb d d' : image_ok -> ready sb d -> touches (λ b, b = 0) d d' -> ready sb d'.
Proof.
  intros Him [H1 H2 H3 H4 H5] Ht. pose proof bpg_pos as Hp. pose proof (im_bb Him) as Hbb. pose proof new_groups_range as Hr. rewrite Forall_forall in Hr.
  split.
  - by rewrite (blk_touches _ _ _ _ Ht).
  - intros j Hj. rewrite (blk_touches _ _ _ _ Ht) by lia. by apply H2.
  - rewrite Forall_forall in *. intros g Hg. eapply group_data_touches; [done|by apply H3|exact Ht|]. intros b Hb ->.
    specialize (Hr g Hg). pose proof (meta_high d g 0 (H3 g Hg) ltac:(lia) Hb). lia.
  - rewrite Forall_forall in *. intros g Hg Hs. eapply backup_data_touches; [done|done|by apply H4|exact Ht|]. intros b Hb ->.
    specialize (Hr g Hg). pose proof (backup_high g 0 ltac:(lia) Hb). lia.
  - intros Hz. destruct (H5 Hz) as [K1 K2]. destruct (im_resize Him Hz) as (? & _). split.
    + unfold linked in *. rewrite Forall_forall in *. intros r Hr'. rewrite (blk_touches _ _ _ _ Ht); [by apply K1|].
      apply elem_of_seqZ in Hr'. destruct (im_primary Him r) as (? & _); lia.
    + rewrite (blk_touches _ _ _ _ Ht); [done|]. lia.
Qed.

(** ** The superblock *)

Lemma new_super_shape sb fb : length sb = 1024%nat -> length (new_super ge sb fb) = 1024%nat /\ drop 512 (new_super ge sb fb) = drop 512 sb.
Proof.
  intros H. unfold new_super.
  destruct (wr32_super sb 0 (ge_groups ge * ge_ipg ge) H) as [H1 E1]; [lia|]. set (p1 := wr32 sb _ _) in *. clearbody p1.
  destruct (wr32_super p1 4 (ge_target ge) H1) as [H2 E2]; [lia|]. set (p2 := wr32 p1 _ _) in *. clearbody p2.
  destruct (wr32_super p2 8 (ge_target ge / 20) H2) as [H3 E3]; [lia|]. set (p3 := wr32 p2 _ _) in *. clearbody p3.
  destruct (wr32_super p3 12 fb H3) as [H4 E4]; [lia|]. set (p4 := wr32 p3 _ _) in *. clearbody p4.
  destruct (wr32_super p4 16 (rd32 p4 16 + (ge_groups ge - 1) * ge_ipg ge) H4) as [H5 E5]; [lia|]. set (p5 := wr32 p4 _ _) in *. clearbody p5.
  destruct (wr16_super p5 58 (Z.lor (rd16 p5 58) EXT2_VALID_FS) H5) as [H6 E6]; [lia|]. split; [done|congruence].
Qed.

(** The commit: the superblock on the disk is the old one or the new one. *)
Lemma wp_commit sb d :
  length sb = 1024%nat -> drop 512 sb = drop 512 (super_of d) ->
  dwp (write_checked 2 2 sb)
    (λ ok d', touches (λ b, b = 0) d d' /\ (super_of d' = super_of d \/ super_of d' = sb) /\ (ok = true -> super_of d' = sb))
    (λ d', touches (λ b, b = 0) d d' /\ (super_of d' = super_of d \/ super_of d' = sb)) d.
Proof.
  intros Hl Ht. unfold write_checked. change (ZERO_CHUNK <? 2 * SECTOR_SIZE) with false. cbn iota.
  change (Z.to_nat (2 * SECTOR_SIZE)) with 1024%nat. rewrite take_ge by lia.
  assert (Hall : super_of (dev_write d 1024 sb) = sb) by (unfold super_of; rewrite <- Hl; apply dev_read_write).
  assert (Htn : forall k, touches (λ b, b = 0) d (dev_write d 1024 (take (k * 512) sb)) /\
    (super_of (dev_write d 1024 (take (k * 512) sb)) = super_of d \/ super_of (dev_write d 1024 (take (k * 512) sb)) = sb)).
  { intros k. split; [apply super_write_touches; rewrite length_take; lia|by apply torn_super]. }
  apply dwp_bind, dwp_write; change (2 * SECTOR_SIZE) with 1024.
  2:{ intros k. destruct (Htn k). split; [by apply dwp_ret|done]. }
  cbn [negb]. assert (Hok : touches (λ b, b = 0) d (dev_write d 1024 sb)) by (apply super_write_touches; lia).
  apply dwp_bind, dwp_read; [apply dwp_ret|apply dwp_ret|]; (split; [done|]); [split; [by right|done]|split; [by right|done]|by right].
Qed.

(** The later writes leave the earlier ones alone. *)
Lemma ready_intro sb d1 d2 d3 d4 d5 :
  image_ok -> group0_data d1 ->
  touches (in_groups ge (new_groups ge)) d1 d2 -> Forall (group_data ge d2) (new_groups ge) ->
  touches in_resize d2 d3 -> (ge_reserved ge <> 0 -> resize_data d3) ->
  touches (λ b, exists g, g ∈ new_groups ge /\ backup_region ge g b) d3 d4 ->
  Forall (λ g, has_sparse_super g = true -> backup_data ge (new_sb sb) new_gdt d4 g) (new_groups ge) ->
  touches (λ b, b = 1) d4 d5 -> blk d5 1 = new_gdt -> ready sb d5.
Proof.
  intros Him K1 H2 K2 H3 K3 H4 K4 H5 K5. pose proof bpg_pos as Hp. pose proof (im_bb Him) as Hbb. pose proof new_groups_range as Hr.
  assert (H34 : forall b, b <> 1 -> b < ge_bpg ge -> blk d5 b = blk d3 b).
  { intros b Hb Hlt. rewrite (blk_touches _ _ _ _ H5), (blk_touches _ _ _ _ H4); [done| |done].
    intros (g & Hg & Hx). rewrite Forall_forall in Hr. specialize (Hr g Hg). apply backup_high in Hx; lia. }
  split; [done| | | |].
  - intros j Hj. rewrite H34, (blk_touches _ _ _ _ H3), (blk_touches _ _ _ _ H2); [by apply K1| | |lia|lia].
    + intros Hx. apply in_groups_high in Hx; [lia|done].
    + intros Hx. apply in_resize_low in Hx; [lia|done].
  - rewrite Forall_forall in *. intros g Hg. pose proof (K2 g Hg) as Hd. specialize (Hr g Hg) as Hgr.
    assert (Hhigh : forall b, meta_region ge g b -> ge_bpg ge <= b) by (intros b Hb; eapply meta_high; [exact Hd|lia|done]).
    eapply group_data_touches; [done| |exact H5|intros b Hb ->; apply Hhigh in Hb; lia].
    eapply group_data_touches; [done| |exact H4|].
    + eapply group_data_touches; [done|exact Hd|exact H3|]. intros b Hb Hx. apply in_resize_low in Hx; [|done]. apply Hhigh in Hb. lia.
    + intros b Hb (g' & Hg' & Hx). destruct (decide (g = g')) as [<-|Hne]; [unfold meta_region, backup_region in *; lia|].
      apply (groups_disjoint ge Hge g g' b Hne); apply region_in_group; auto; apply K2; done.
  - rewrite Forall_forall in *. intros g Hg Hs. eapply backup_data_touches; [done|done|by apply K4|exact H5|].
    intros b Hb ->. specialize (Hr g Hg). apply backup_high in Hb; lia.
  - intros Hz. destruct (K3 Hz) as [L1 L2]. destruct (im_resize Him Hz) as (? & _). split; [|rewrite H34; [done|lia|lia]].
    unfold linked in *. rewrite Forall_forall in *. intros r Hr'. rewrite H34; [by apply L1| |];
      apply elem_of_seqZ in Hr'; destruct (im_primary Him r) as (? & _); lia.
Qed.

Lemma ewp_grow_to sb :
  image_ok -> super_of d0 = sb ->
  ewp (grow_to ge sb) (λ n d', n = ge_target ge * SECTORS_PER_BLOCK /\ grown sb d') (λ d', original sb d' \/ grown sb d') d0.
Proof.
  intros Him Hsb. pose proof bpg_pos as Hp. pose proof (im_bb Him) as Hbb. pose proof new_groups_range as Hr.
  assert (Hl : length sb = 1024%nat) by (rewrite <- Hsb; apply dev_read_length).
  assert (Hz1 : forall b, b = bb0 -> zone b) by (unfold zone; auto).
  assert (Hz2 : forall b, in_groups ge (new_groups ge) b -> zone b) by (intros b Hb; do 3 right; by eapply in_groups_high).
  assert (Hz3 : forall b, in_resize b -> zone b) by (unfold zone; auto).
  assert (Hz4 : forall b, (exists g, g ∈ new_groups ge /\ backup_region ge g b) -> zone b).
  { intros b (g & Hg & Hb). do 3 right. eapply backup_high; [|done]. rewrite Forall_forall in Hr. specialize (Hr g Hg). lia. }
  assert (Hz5 : forall b, b = 1 -> zone b) by (unfold zone; auto).
  assert (Hz0 : ~ zone 0).
  { intros [H|[H|[H|H]]]; [lia|lia|apply in_resize_low in H; [lia|done]|lia]. }
  assert (Hor : forall d, touches zone d0 d -> original sb d).
  { intros d Hd. split; [rewrite (super_touches _ _ _ Hd Hz0); exact Hsb|]. eapply touches_mono; [|exact Hd]. by right. }
  unfold grow_to. apply ewp_bind, ewp_get; [|left; apply Hor, touches_refl].
  apply ewp_bind. eapply ewp_conseq; [by apply ewp_expand_group0| |intros d1 H1; left; apply Hor; exact (touches_mono _ _ _ _ Hz1 H1)].
  cbn beta. intros x d1 (-> & H1 & K1). cbn [fst snd]. pose proof (touches_mono _ _ _ _ Hz1 H1) as T1.
  apply ewp_bind. eapply ewp_conseq; [apply ewp_init_groups; [done|done|apply new_groups_NoDup]| |].
  2:{ intros d2 H2. left. apply Hor. exact (touches_trans _ _ _ _ T1 (touches_mono _ _ _ _ Hz2 H2)). }
  cbn beta. intros x d2 (-> & H2 & K2). cbn [fst snd]. fold new_gdt. fold (new_free sb). fold (new_sb sb).
  pose proof (touches_trans _ _ _ _ T1 (touches_mono _ _ _ _ Hz2 H2)) as T2.
  assert (Hlow : forall b, b < ge_bpg ge -> b <> bb0 -> blk d2 b = blk d0 b).
  { intros b Hb Hn. rewrite (blk_touches _ _ _ _ H2); [by rewrite (blk_touches _ _ _ _ H1)|].
    intros Hx. apply in_groups_high in Hx; [lia|done]. }
  apply ewp_bind. eapply ewp_conseq; [apply ewp_link_resize_inode; [done|apply new_gdt_table|]| |].
  { intros Hres. destruct (im_resize Him Hres) as (? & ? & ? & ?). split; apply Hlow; lia. }
  2:{ intros d3 H3. left. apply Hor. exact (touches_trans _ _ _ _ T2 (touches_mono _ _ _ _ Hz3 H3)). }
  cbn beta. intros _ d3 [H3 K3]. pose proof (touches_trans _ _ _ _ T2 (touches_mono _ _ _ _ Hz3 H3)) as T3.
  apply ewp_bind. eapply ewp_conseq; [apply ewp_write_backups; [done| |apply new_groups_NoDup| |apply new_gdt_length]| |].
  { eapply Forall_impl; [exact K2|]. cbn. intros g Hg. apply Hg. }
  { unfold new_sb. rewrite (proj1 (new_super_shape sb _ Hl)). unfold BLOCK, EXT2_BLOCK_SIZE. lia. }
  2:{ intros d4 H4. left. apply Hor. exact (touches_trans _ _ _ _ T3 (touches_mono _ _ _ _ Hz4 H4)). }
  cbn beta. intros _ d4 [H4 K4]. pose proof (touches_trans _ _ _ _ T3 (touches_mono _ _ _ _ Hz4 H4)) as T4.
  apply ewp_bind. eapply (ewp_must _ _ _ (touches zone d0)); [eapply dwp_conseq; [apply wp_write_block, new_gdt_length| |]|intros d5 H5; left; by apply Hor].
  2:{ intros d5 H5. left. apply Hor. exact (touches_trans _ _ _ _ T4 (touches_mono _ _ _ _ Hz5 H5)). }
  cbn beta. intros ok d5 [H5 K5]. pose proof (touches_trans _ _ _ _ T4 (touches_mono _ _ _ _ Hz5 H5)) as T5. split; [done|]. intros ->.
  specialize (K5 eq_refl).
  assert (Hrdy : ready sb d5) by exact (ready_intro sb d1 d2 d3 d4 d5 Him K1 H2 K2 H3 K3 H4 K4 H5 K5).
  destruct (new_super_shape sb (new_free sb) Hl) as [Hnl Hnt]. fold (new_sb sb) in Hnl, Hnt. destruct (Hor d5 T5) as [Es Ef].
  assert (Hend : forall d, touches (λ b, b = 0) d5 d -> super_of d = super_of d5 \/ super_of d = new_sb sb -> original sb d \/ grown sb d).
  { intros d Hd Hs. assert (Hf : touches (λ b, b = 0 \/ zone b) d0 d) by (eapply touches_trans; [exact Ef|]; eapply touches_mono; [|exact Hd]; by left).
    destruct Hs as [Hs|Hs]; [left; split; [congruence|done]|]. right. split; [done| |done]. by eapply ready_touches. }
  apply ewp_bind. eapply (ewp_must _ _ _ (λ d, original sb d \/ grown sb d)); [eapply dwp_conseq; [apply wp_commit; [done|by rewrite Es]| |]|done].
  2:{ cbn beta. intros d [Hd Hs]. by apply Hend. }
  cbn beta. intros ok d (Hd & Hs & Hok). split; [by apply Hend|]. intros ->. apply ewp_ret. split; [done|]. split; [by apply Hok|by eapply ready_touches|].
  eapply touches_trans; [exact Ef|]. eapply touches_mono; [|exact Hd]. by left.
Qed.

End Image.
