(* ===== verification/Ext2GrowResult.v ===== *)
(** The theorems about [ext2_grow] as a whole: what its checks establish, what it
    leaves on the disk for every schedule of errors and power cuts, that the
    counters of the larger file system agree with its bitmaps, and three inputs on
    which it does not do what it means to. *)

From S2P Require Import Prelude BlockDev Ext2Disk Ext2Grow Ext2GrowSafety.
Local Open Scope Z_scope.

(** * Definitions *)

(** What the checks of the superblock decide. *)
Inductive plan_result := PlanFail (e : grow_error) | PlanKeep (sectors : Z) | PlanGrow (ge : geom).

Definition plan (target_sectors : Z) (sb : bytes) : plan_result :=
  if negb (supported sb) then PlanFail NotSupported else
  let old := rd32 sb 4 in
  let bpg := rd32 sb 32 in
  let ipg := rd32 sb 40 in
  let isize := rd16 sb 88 in
  let reserved := rd16 sb 206 in
  if negb (geometry_ok old bpg ipg isize reserved (rd32 sb 92) (rd32 sb 100)) then PlanFail BadGeometry else
  if negb (u32 (old + bpg - 1) / bpg =? 1) then PlanFail NotSingleGroup else
  let target := target_of target_sectors bpg in
  if target <=? old then PlanKeep (old * SECTORS_PER_BLOCK) else
  let groups := u32 (target + bpg - 1) / bpg in
  if (EXT2_MAX_GROUPS <? groups) || (EXT2_BLOCK_SIZE <? groups * 32) then PlanFail TooManyGroups else
  let itb := (ipg * isize + EXT2_BLOCK_SIZE - 1) / EXT2_BLOCK_SIZE in
  let '(groups, target) := trim groups target bpg itb reserved in
  PlanGrow (Geom bpg ipg isize reserved itb old groups target).

(** The counters of a one-group image agree with its block bitmap, whose bits past
    the end are set. *)
Record image_counts (ge : geom) (d : device) : Prop := ImageCounts {
  ic_group : rd16 (blk d 1) 12 = clear_count (blk d (bb0 d)) (ge_old ge);
  ic_super : rd32 (super_of d) 12 = rd16 (blk d 1) 12;
  ic_pad : forall j, ge_old ge <= j < 32768 -> bit (blk d (bb0 d)) j = true
}.

(** The counters of every group, and of the superblock, agree with the bitmaps the
    descriptors point to. *)
Definition group_blocks (ge : geom) (g : Z) : Z := Z.min (ge_target ge - g * ge_bpg ge) (ge_bpg ge).
Definition group_clear (ge : geom) (d : device) (g : Z) : Z := clear_count (blk d (rd32 (blk d 1) (desc g))) (group_blocks ge g).
Definition group_iclear (ge : geom) (d : device) (g : Z) : Z := clear_count (blk d (rd32 (blk d 1) (desc g + 4))) (ge_ipg ge).
Record counts_ok (ge : geom) (d : device) : Prop := CountsOk {
  co_blocks : forall g, 0 <= g < ge_groups ge -> rd16 (blk d 1) (desc g + 12) = group_clear ge d g;
  co_inodes : forall g, 1 <= g < ge_groups ge -> rd16 (blk d 1) (desc g + 14) = group_iclear ge d g;
  co_super : rd32 (super_of d) 12 = zsum (group_clear ge d <$> seqZ 0 (ge_groups ge));
  co_total : rd32 (super_of d) 4 = ge_target ge;
  co_pad : forall g j, 0 <= g < ge_groups ge -> group_blocks ge g <= j < 32768 -> bit (blk d (rd32 (blk d 1) (desc g))) j = true
}.

(** How a run may end: with success and the larger file system, or with an error
    or a power cut and one of the two. *)
Definition old_or_grown (ge : geom) (d0 : device) (o : outcome (Z + grow_error)) : Prop :=
  match o with
  | Val (inl sectors) _ d => sectors = ge_target ge * SECTORS_PER_BLOCK /\ grown ge d0 (super_of d0) d
  | Val (inr _) _ d | Stopped d => original ge d0 (super_of d0) d \/ grown ge d0 (super_of d0) d
  | OutOfBounds => False
  end.

(** * The checks *)

Section Plan.

Implicit Types (d : device) (sb : bytes).

Lemma ewp_plan t (Q : Z -> device -> Prop) (C : device -> Prop) d :
  C d ->
  match plan t (super_of d) with
  | PlanFail _ => C d
  | PlanKeep n => Q n d
  | PlanGrow ge => ewp (grow_to ge (super_of d)) Q C d
  end -> ewp (ext2_grow t) Q C d.
Proof.
  intros HC H. unfold ext2_grow. destruct (t <? SECTORS_PER_BLOCK); [by apply ewp_fail|].
  apply ewp_bind. unfold must_get. apply dwp_bind, dwp_read; [|by apply dwp_ret|done]. apply dwp_ret.
  change (dev_read d (2 * SECTOR_SIZE) (Z.to_nat (2 * SECTOR_SIZE))) with (super_of d). unfold plan in H.
  destruct (negb (supported _)); [by apply ewp_fail|]. cbv zeta in *.
  destruct (negb (geometry_ok _ _ _ _ _ _ _)); [by apply ewp_fail|].
  destruct (negb (_ =? 1)); [by apply ewp_fail|].
  destruct (target_of _ _ <=? _); [by apply ewp_ret|].
  destruct (_ || _); [by apply ewp_fail|].
  by destruct (trim _ _ _ _ _).
Qed.

Lemma geometry_ok_spec old bpg ipg isize reserved compat ro :
  geometry_ok old bpg ipg isize reserved compat ro = true ->
  old <> 0 /\ bpg <> 0 /\ bpg <= 32768 /\ ipg <> 0 /\ ipg <= 65535 /\ 128 <= isize <= 4096 /\ Z.land isize (isize - 1) = 0 /\ reserved <= 64.
Proof.
  unfold geometry_ok, EXT2_BLOCK_SIZE. rewrite negb_true_iff, !orb_false_iff, negb_false_iff. intros. destruct_and!. boolify. lia.
Qed.

Lemma single_group old bpg : 0 < old < 2 ^ 32 -> 0 < bpg <= 32768 -> u32 (old + bpg - 1) / bpg = 1 -> old <= bpg.
Proof.
  intros Ho Hb H. unfold u32 in H. destruct (decide (old + bpg - 1 < 2 ^ 32)) as [Hlt|Hge].
  - rewrite Z.mod_small in H by lia. pose proof (Z.mul_div_le (old + bpg - 1) bpg ltac:(lia)).
    pose proof (Z.mod_pos_bound (old + bpg - 1) bpg ltac:(lia)). pose proof (Z.div_mod (old + bpg - 1) bpg ltac:(lia)). nia.
  - exfalso. replace (old + bpg - 1) with ((old + bpg - 1 - 2 ^ 32) + 1 * 2 ^ 32) in H by lia.
    rewrite Z.mod_add, Z.mod_small in H by lia. rewrite Z.div_small in H by lia. lia.
Qed.

Lemma target_of_range t bpg : 1 <= bpg <= 32768 -> target_of t bpg <= 128 * bpg.
Proof. intros H. unfold target_of, EXT2_MAX_GROUPS. lia. Qed.

Lemma trim_spec groups target bpg itb reserved groups' target' :
  1 <= groups -> 1 <= bpg -> (groups - 1) * bpg < target <= groups * bpg -> trim groups target bpg itb reserved = (groups', target') ->
  1 <= groups' <= groups /\ (groups' - 1) * bpg < target' <= groups' * bpg /\ (target' = target \/ bpg <= target').
Proof.
  intros Hg Hb Ht E. unfold trim in E. destruct (1 <? groups) eqn:E1; boolify; [|injection E as <- <-; auto with lia].
  destruct (_ <=? _); injection E as <- <-; [|auto with lia]. split; [lia|]. split; [nia|]. right. nia.
Qed.

(** What the checks establish. *)
Lemma plan_ok t sb ge : Forall is_byte sb -> plan t sb = PlanGrow ge -> ge_ipg ge <= 32768 -> geom_ok ge.
Proof.
  intros Hsb E Hipg. unfold plan in E. destruct (negb (supported sb)); [done|]. cbv zeta in E.
  pose proof (rd32_range sb 4 Hsb) as Ro. pose proof (rd32_range sb 32 Hsb) as Rb. pose proof (rd32_range sb 40 Hsb) as Ri.
  pose proof (rd16_range sb 206 Hsb) as Rr. destruct (geometry_ok _ _ _ _ _ _ _) eqn:Eg; [|done]. cbn [negb] in E.
  apply geometry_ok_spec in Eg as (? & ? & ? & ? & ? & Hs & Hland & ?). destruct (_ =? 1) eqn:E1; [|done]. cbn [negb] in E. boolify.
  apply single_group in E1; [|lia|lia]. pose proof (target_of_range t (rd32 sb 32)) as Ht. set (target := target_of t _) in *.
  destruct (target <=? _) eqn:E2; [done|]. boolify.
  rewrite (u32_small (target + rd32 sb 32 - 1)) in E by lia. set (groups := (target + rd32 sb 32 - 1) / rd32 sb 32) in *.
  pose proof (ceil_div target (rd32 sb 32) groups ltac:(lia) eq_refl) as Hc.
  destruct ((EXT2_MAX_GROUPS <? groups) || _) eqn:E3; [done|]. apply orb_false_iff in E3 as [E3 _]. unfold EXT2_MAX_GROUPS in E3. boolify.
  destruct (trim _ _ _ _ _) as [groups' target'] eqn:Et. injection E as <-. cbn [ge_ipg] in Hipg.
  apply trim_spec in Et as (G1 & G2 & G3); [|nia|lia|done].
  split; cbn; try lia; [|by apply inode_size_power].
  unfold EXT2_BLOCK_SIZE. apply Z.div_le_lower_bound; [lia|]. nia.
Qed.

End Plan.

(** * The counters of the grown file system *)

Section Counts.

Context (ge : geom) (Hge : geom_ok ge) (d0 d : device) (Hok : dev_ok d0) (Him : image_ok ge d0) (Hic : image_counts ge d0)
        (Hd : grown ge d0 (super_of d0) d).

Let Hgdt : blk d 1 = new_gdt ge d0 := rd_gdt _ _ _ _ (gn_ready _ _ _ _ Hd).

Lemma blocks_are_valid g : group_blocks ge g = g_valid ge g.
Proof. reflexivity. Qed.

Lemma slice_shift (p q : bytes) off off' len : (off' + len <= 32)%nat -> slice off 32 p = slice off 32 q -> slice (off + off') len p = slice (off + off') len q.
Proof.
  intros H E. apply (f_equal (slice off' len)) in E. unfold slice in *. 
  rewrite !skipn_firstn_comm, !take_take, !drop_drop in E. by rewrite !(Nat.min_l len (32 - off')) in E by lia.
Qed.

(** The descriptor of a new group. *)
Lemma new_desc g :
  1 <= g < ge_groups ge ->
  rd32 (blk d 1) (desc g) = g_bb ge g /\ rd32 (blk d 1) (desc g + 4) = g_bb ge g + 1 /\
  rd16 (blk d 1) (desc g + 12) = u16 (g_free ge g) /\ rd16 (blk d 1) (desc g + 14) = ge_ipg ge.
Proof.
  intros Hg. rewrite Hgdt. pose proof (go_groups _ Hge). pose proof (go_bpg _ Hge). pose proof (go_ipg _ Hge).
  assert (Hin : g ∈ new_groups ge) by (apply elem_of_seqZ; lia).
  pose proof (rd_groups _ _ _ _ (gn_ready _ _ _ _ Hd)) as Hdata. rewrite Forall_forall in Hdata. specialize (Hdata g Hin).
  assert (Hbb : 0 <= g_bb ge g /\ g_bb ge g + 1 < 2 ^ 32).
  { pose proof (backup_blocks_range ge Hge g). pose proof (gd_fits _ _ _ Hdata). unfold g_bb, g_prefix, g_valid, g_start in *.
    pose proof (go_itb _ Hge). pose proof (go_target _ Hge). nia. }
  destruct (set_descs_slice ge (new_groups ge) (gdt1 ge d0) g 0 32 (new_groups_small ge Hge) (new_groups_NoDup ge) (gdt1_length ge d0) Hin) as (gdt' & Hl & Es); [lia|].
  rewrite Nat.add_0_r in Es. destruct (set_desc_fields ge gdt' g ltac:(lia) Hl) as (F1 & F2 & _ & F4 & F5).
  assert (E : forall off' len, (off' + len <= 32)%nat -> slice (desc g + off') len (new_gdt ge d0) = slice (desc g + off') len (set_desc ge gdt' g))
    by (intros off' len Ho; by apply slice_shift).
  unfold rd32, rd16 in *. rewrite !E by lia. pose proof (E 0%nat 4%nat ltac:(lia)) as E0. rewrite Nat.add_0_r in E0. rewrite E0, F1, F2, F4, F5.
  rewrite !u32_small by lia. split; [done|]. split; [done|]. split; [done|]. unfold u16. rewrite Z.mod_small; lia.
Qed.

Lemma new_group_counts g :
  1 <= g < ge_groups ge ->
  group_clear ge d g = g_free ge g /\ rd16 (blk d 1) (desc g + 12) = g_free ge g /\ group_iclear ge d g = ge_ipg ge /\
  rd16 (blk d 1) (desc g + 14) = ge_ipg ge /\ forall j, group_blocks ge g <= j < 32768 -> bit (blk d (rd32 (blk d 1) (desc g))) j = true.
Proof.
  intros Hg. destruct (new_desc g Hg) as (D1 & D2 & D3 & D4). pose proof (go_ipg _ Hge). pose proof (go_bpg _ Hge). pose proof (go_itb _ Hge).
  assert (Hin : g ∈ new_groups ge) by (apply elem_of_seqZ; lia).
  pose proof (rd_groups _ _ _ _ (gn_ready _ _ _ _ Hd)) as Hdata. rewrite Forall_forall in Hdata. destruct (Hdata g Hin) as [Hf Hb Hi _].
  pose proof (backup_blocks_range ge Hge g). assert (Hv : g_valid ge g <= 32768) by (unfold g_valid; lia).
  unfold group_clear, group_iclear. rewrite D1, D2, D3, D4, blocks_are_valid. split; [|split; [|split; [|split; [done|]]]].
  - apply clear_count_run; [unfold g_prefix in *; lia|done|]. intros j Hj. apply Hb. lia.
  - unfold u16, g_free. apply Z.mod_small. unfold g_prefix in *. lia.
  - rewrite (clear_count_run _ 0 (ge_ipg ge)); [lia|lia|lia|]. intros j Hj. rewrite Hi by lia. destruct (Z.leb_spec 0 j); [done|lia].
  - intros j Hj. rewrite Hb by (unfold g_prefix in *; lia). destruct (Z.ltb_spec j (g_valid ge g)); [lia|]. by rewrite andb_false_r.
Qed.

(** Group 0. *)
Lemma old_desc : rd32 (blk d 1) (desc 0) = bb0 d0 /\ rd16 (blk d 1) (desc 0 + 12) = u16 (rd16 (blk d0 1) 12 + added ge).
Proof.
  rewrite Hgdt. change (desc 0) with 0%nat. cbn [Nat.add]. unfold rd32, rd16. rewrite !new_gdt_zero by (done || lia). split.
  - rewrite gdt1_other by lia. reflexivity.
  - apply (rd16_wr16 (blk d0 1) 12). rewrite blk_length. unfold BLOCK, EXT2_BLOCK_SIZE. lia.
Qed.

Lemma blocks_of_group0 : group_blocks ge 0 = group0_end ge.
Proof.
  pose proof (go_target _ Hge). pose proof (go_groups _ Hge). pose proof (go_bpg _ Hge). unfold group_blocks, group0_end.
  destruct (Z.eqb_spec (ge_groups ge) 1) as [E|E]; [rewrite E in *; lia|]. nia.
Qed.

Lemma group0_counts :
  group_clear ge d 0 = rd16 (blk d0 1) 12 + added ge /\ rd16 (blk d 1) (desc 0 + 12) = rd16 (blk d0 1) 12 + added ge /\
  forall j, group_blocks ge 0 <= j < 32768 -> bit (blk d (rd32 (blk d 1) (desc 0))) j = true.
Proof.
  destruct old_desc as [D1 D2]. pose proof (group0_end_range ge Hge) as He. pose proof (go_old _ Hge) as Ho.
  pose proof (rd_group0 _ _ _ _ (gn_ready _ _ _ _ Hd)) as H0. unfold group0_data in H0.
  assert (Hc : group_clear ge d 0 = rd16 (blk d0 1) 12 + added ge).
  { unfold group_clear. rewrite D1, blocks_of_group0, (ic_group _ _ Hic). apply (clear_count_extend _ _ _ _ 32768); [lia|lia|exact H0]. }
  split; [done|]. split.
  - rewrite D2. unfold u16. apply Z.mod_small. rewrite <- Hc. pose proof (clear_count_le (blk d (rd32 (blk d 1) (desc 0))) (group_blocks ge 0)) as Hle.
    rewrite blocks_of_group0 in Hle. unfold group_clear. rewrite blocks_of_group0. lia.
  - rewrite blocks_of_group0, D1. intros j Hj. rewrite H0 by lia. rewrite (ic_pad _ _ Hic) by lia.
    destruct (Z.ltb_spec j (group0_end ge)); [lia|]. by rewrite andb_false_r.
Qed.

Lemma new_super_fields sb fb :
  length sb = 1024%nat -> rd32 (new_super ge sb fb) 4 = u32 (ge_target ge) /\ rd32 (new_super ge sb fb) 12 = u32 fb.
Proof.
  intros H. unfold new_super.
  set (p1 := wr32 sb _ _). assert (H1 : length p1 = 1024%nat) by (unfold p1; rewrite wr32_length; lia).
  set (p2 := wr32 p1 _ _). assert (H2 : length p2 = 1024%nat) by (unfold p2; rewrite wr32_length; lia).
  set (p3 := wr32 p2 _ _). assert (H3 : length p3 = 1024%nat) by (unfold p3; rewrite wr32_length; lia).
  set (p4 := wr32 p3 _ _). assert (H4 : length p4 = 1024%nat) by (unfold p4; rewrite wr32_length; lia).
  set (p5 := wr32 p4 _ _). assert (H5 : length p5 = 1024%nat) by (unfold p5; rewrite wr32_length; lia).
  rewrite !rd32_wr16 by lia. unfold p5. rewrite !rd32_wr32_ne by lia. unfold p4.
  rewrite rd32_wr32, rd32_wr32_ne by lia. unfold p3. rewrite rd32_wr32_ne by lia. unfold p2. by rewrite rd32_wr32 by lia.
Qed.

Lemma free_sum_spec gs :
  (forall g, g ∈ gs -> 1 <= g < ge_groups ge) -> free_sum ge gs = zsum (group_clear ge d <$> gs) /\ 0 <= free_sum ge gs <= 32768 * Z.of_nat (length gs).
Proof.
  induction gs as [|g gs IH]; intros Hin; [done|]. destruct IH as [E Hb]; [intros x Hx; apply Hin; by right|].
  assert (Hg : 1 <= g < ge_groups ge) by (apply Hin; left). destruct (new_group_counts g Hg) as (Hc & _).
  cbn [fmap list_fmap length]. unfold free_sum, zsum in *. cbn [foldr]. rewrite Hc. rewrite E. split; [done|]. rewrite <- E.
  assert (0 <= g_free ge g <= 32768); [|lia]. rewrite <- Hc. unfold group_clear. rewrite blocks_are_valid.
  assert (Hv : g_valid ge g <= 32768) by (pose proof (go_bpg _ Hge); unfold g_valid; lia).
  assert (0 <= g_valid ge g).
  { unfold g_valid, g_start. pose proof (go_target _ Hge). pose proof (go_bpg _ Hge). nia. }
  pose proof (clear_count_le (blk d (rd32 (blk d 1) (desc g))) (g_valid ge g)). lia.
Qed.

Lemma counts_grown : counts_ok ge d.
Proof.
  destruct group0_counts as (G1 & G2 & G3). pose proof (go_groups _ Hge) as Hg. pose proof (go_target _ Hge). pose proof (go_bpg _ Hge).
  destruct (new_super_fields (super_of d0) (new_free ge (super_of d0))) as [S1 S2]; [apply dev_read_length|].
  assert (Hfree : forall g, g ∈ new_groups ge -> 1 <= g < ge_groups ge) by (intros g H'%elem_of_seqZ; lia).
  destruct (free_sum_spec (new_groups ge) Hfree) as [F1 F2]. unfold new_groups in F2 at 3. rewrite length_seqZ in F2.
  pose proof (clear_count_le (blk d (rd32 (blk d 1) (desc 0))) (group_blocks ge 0)) as Hle. fold (group_clear ge d 0) in Hle.
  rewrite blocks_of_group0 in Hle. pose proof (group0_end_range ge Hge). pose proof (go_old _ Hge).
  split.
  - intros g Hg'. destruct (decide (g = 0)) as [->|]; [congruence|]. destruct (new_group_counts g ltac:(lia)) as (-> & -> & _). done.
  - intros g Hg'. destruct (new_group_counts g Hg') as (_ & _ & -> & -> & _). done.
  - rewrite (gn_super _ _ _ _ Hd). unfold new_sb. rewrite S2. unfold new_free. rewrite (ic_super _ _ Hic), <- G1.
    rewrite u32_small by lia. replace (ge_groups ge) with (1 + (ge_groups ge - 1)) at 1 by lia. rewrite seqZ_app by lia.
    rewrite fmap_app, zsum_app. change (0 + 1) with 1. fold (new_groups ge). rewrite F1. change (seqZ 0 1) with [0]. cbn [fmap list_fmap].
    change (zsum [group_clear ge d 0]) with (group_clear ge d 0 + 0). lia.
  - rewrite (gn_super _ _ _ _ Hd). unfold new_sb. rewrite S1. apply u32_small. nia.
  - intros g j Hg' Hj. destruct (decide (g = 0)) as [->|]; [by apply G3|]. destruct (new_group_counts g ltac:(lia)) as (_ & _ & _ & _ & Hp). by apply Hp.
Qed.

End Counts.

(** * The theorems *)

