(* ===== verification/Ext2GrowLive.v ===== *)
(** [ext2_grow] completes on a disk that works: when every transfer succeeds and
    every group has room for its own metadata, the run ends in success. *)

From S2P Require Import Prelude BlockDev Ext2Disk Ext2Grow Ext2GrowSafety Ext2GrowResult.
Local Open Scope Z_scope.

(** * Definitions *)

(** No transfer fails. *)
Definition all_ok : nat -> verdict := λ _, DOk.

Definition returns (m : io bool) (d : device) : Prop := forall n, exists n' d', m all_ok n d = Val true n' d'.
Definition succeeds {A} (m : eio A) (d : device) : Prop := forall n, exists a n' d', m all_ok n d = Val (inl a) n' d'.

(** * Lemmas *)

Section Live.

Context {A B : Type}.

Implicit Types (d : device).

Lemma succeeds_ret (a : A) d : succeeds (eret a) d.
Proof. intros n. by exists a, n, d. Qed.

Lemma succeeds_bind (m : eio A) (f : A -> eio B) Q C d :
  ewp m Q C d -> succeeds m d -> (forall a d', Q a d' -> succeeds (f a) d') -> succeeds (ebind m f) d.
Proof.
  intros Hw Hm Hf n. destruct (Hm n) as (a & n' & d' & E). specialize (Hw all_ok n). rewrite E in Hw. cbn in Hw.
  destruct (Hf a d' Hw n') as (b & n'' & d'' & E'). exists b, n'', d''. unfold ebind, mbind, io_bind. by rewrite E.
Qed.

(** A step whose effect does not matter to the rest. *)
Lemma succeeds_seq (m : eio A) (f : A -> eio B) d : succeeds m d -> (forall a d', succeeds (f a) d') -> succeeds (ebind m f) d.
Proof.
  intros Hm Hf n. destruct (Hm n) as (a & n' & d' & E). destruct (Hf a d' n') as (b & n'' & d'' & E').
  exists b, n'', d''. unfold ebind, mbind, io_bind. by rewrite E.
Qed.

Lemma succeeds_must m e d : returns m d -> succeeds (must m e) d.
Proof. intros H n. destruct (H n) as (n' & d' & E). exists tt, n', d'. unfold must, mbind, io_bind. by rewrite E. Qed.

Lemma succeeds_get b e (f : bytes -> eio B) d : succeeds (f (blk d b)) d -> succeeds (ebind (must_get (read_block b) e) f) d.
Proof.
  intros H n. destruct (H (S n)) as (a & n' & d' & E). exists a, n', d'. unfold ebind, must_get, mbind, io_bind.
  rewrite read_block_spec. exact E.
Qed.

Lemma succeeds_in_bounds (o : option A) a (f : A -> eio B) d : o = Some a -> succeeds (f a) d -> succeeds (ebind (in_bounds o) f) d.
Proof. intros -> H. exact H. Qed.

End Live.

Section Blocks.

Implicit Types (d : device) (b : Z).

Lemma returns_write_checked sector count buf d :
  0 <= count * SECTOR_SIZE <= ZERO_CHUNK -> (Z.to_nat (count * SECTOR_SIZE) <= length buf)%nat -> returns (write_checked sector count buf) d.
Proof.
  intros Hc Hl n. unfold write_checked. rewrite (proj2 (Z.ltb_ge _ _)) by lia. set (data := take _ buf).
  assert (Hd : length data = Z.to_nat (count * SECTOR_SIZE)) by (unfold data; rewrite length_take; lia).
  exists (S (S n)), (dev_write d (sector * SECTOR_SIZE) data). unfold mbind, io_bind, io_write, io_read, all_ok. cbn [negb].
  rewrite <- Hd, dev_read_write. by rewrite bool_decide_true.
Qed.

Lemma returns_write_block b buf d : length buf = BLOCK -> returns (write_block b buf) d.
Proof. intros H. apply returns_write_checked; [done|by rewrite H]. Qed.

Lemma returns_zero_loop fuel first done count d :
  0 <= done <= count -> count - done < Z.of_nat fuel -> returns (zero_loop fuel first done count) d.
Proof.
  revert done d. induction fuel as [|fuel IH]; intros done d Hd Hf; [lia|]. cbn [zero_loop].
  destruct (done <? count) eqn:E; boolify; [|intros n; by exists n, d].
  change (ZERO_CHUNK / EXT2_BLOCK_SIZE) with 16. set (k := Z.min (count - done) 16). intros n.
  assert (Hk : 0 <= k * SECTORS_PER_BLOCK * SECTOR_SIZE <= ZERO_CHUNK) by (unfold SECTORS_PER_BLOCK, SECTOR_SIZE, ZERO_CHUNK; lia).
  destruct (returns_write_checked ((first + done) * SECTORS_PER_BLOCK) _ (zeros (Z.to_nat ZERO_CHUNK)) d Hk) with (n := n) as (n' & d' & E').
  { rewrite zeros_length. lia. }
  destruct (IH (done + k) d' ltac:(lia) ltac:(lia) n') as (n'' & d'' & E''). exists n'', d''.
  unfold mbind, io_bind. rewrite E'. exact E''.
Qed.

Lemma returns_zero_blocks first count d : 0 <= count -> returns (zero_blocks first count) d.
Proof. intros H. apply returns_zero_loop; lia. Qed.

Lemma succeeds_zero_each bs d : succeeds (zero_each bs) d.
Proof.
  revert d. induction bs as [|b bs IH]; intros d; [apply succeeds_ret|]. cbn [zero_each].
  apply succeeds_seq; [apply succeeds_must, returns_zero_blocks; lia|auto].
Qed.

End Blocks.

Section Run.

Context (ge : geom) (Hge : geom_ok ge).

Implicit Types (d : device).

Lemma succeeds_init_group g gdt fb d : 1 <= g < ge_groups ge -> g_prefix ge g < g_valid ge g -> succeeds (init_group ge g gdt fb) d.
Proof.
  intros Hg Hf. unfold init_group. fold (g_start ge g). fold (g_valid ge g). fold (g_bb ge g). fold (g_prefix ge g).
  pose proof (backup_blocks_range ge Hge g) as Hbk. pose proof Hge as [? Hi ? ? Hit ? ? _ _].
  rewrite (proj2 (Z.leb_gt _ _)) by done. assert (Hv : g_valid ge g <= 32768) by (unfold g_valid; lia).
  destruct (clear_range_spec (repeat 255 BLOCK) (g_prefix ge g) (g_valid ge g)) as (bm & Ebm & Hbml & _);
    [unfold g_prefix in *; lia|rewrite full_length, bits_of_block; lia|].
  destruct (clear_range_spec (repeat 255 BLOCK) 0 (ge_ipg ge)) as (im & Eim & Himl & _);
    [lia|rewrite full_length, bits_of_block; lia|]. rewrite full_length in *.
  eapply succeeds_in_bounds; [exact Ebm|]. apply succeeds_seq; [by apply succeeds_must, returns_write_block|]. intros _ d1.
  eapply succeeds_in_bounds; [exact Eim|]. apply succeeds_seq; [by apply succeeds_must, returns_write_block|]. intros _ d2.
  apply succeeds_seq; [apply succeeds_must, returns_zero_blocks; lia|]. intros _ d3. apply succeeds_ret.
Qed.

Lemma succeeds_init_groups gs gdt fb d :
  Forall (λ g, 1 <= g < ge_groups ge /\ g_prefix ge g < g_valid ge g) gs -> succeeds (init_groups ge gs gdt fb) d.
Proof.
  intros H. revert gdt fb d. induction H as [|g gs [H1 H2] _ IH]; intros gdt fb d; [apply succeeds_ret|]. cbn [init_groups].
  apply succeeds_seq; [by apply succeeds_init_group|auto].
Qed.

Lemma succeeds_write_backups gs sb gdt d : (length sb <= BLOCK)%nat -> length gdt = BLOCK -> succeeds (write_backups ge gs sb gdt) d.
Proof.
  intros Hs Hg. revert d. induction gs as [|g gs IH]; intros d; [apply succeeds_ret|]. cbn [write_backups].
  destruct (negb (has_sparse_super g)); [apply IH|].
  apply succeeds_seq; [by apply succeeds_must, returns_write_block, super_copy_length|]. intros _ d1.
  apply succeeds_seq; [by apply succeeds_must, returns_write_block|]. intros _ d2.
  apply succeeds_seq; [apply succeeds_zero_each|auto].
Qed.

Context (d0 : device) (Him : image_ok ge d0).

Lemma succeeds_link_reserved rs d : Forall (λ r, 0 <= r < ge_reserved ge) rs -> succeeds (link_reserved ge rs (blk d0 (resize_map ge d0))) d.
Proof.
  intros H. revert d. induction H as [|r rs Hr _ IH]; intros d; [apply succeeds_ret|]. cbn [link_reserved].
  fold (primary ge d0 r). destruct (im_primary _ _ Him r Hr) as (? & _). rewrite (proj2 (Z.eqb_neq _ 0)) by lia.
  apply succeeds_get. apply succeeds_seq; [apply succeeds_must, returns_write_block, resize_refs_length; done|auto].
Qed.

Lemma succeeds_link_resize_inode gdt d :
  rd32 gdt 8 = rd32 (blk d0 1) 8 ->
  (ge_reserved ge <> 0 -> blk d (resize_block ge d0) = blk d0 (resize_block ge d0) /\ blk d (resize_map ge d0) = blk d0 (resize_map ge d0)) ->
  succeeds (link_resize_inode ge gdt) d.
Proof.
  intros Hg Hd. unfold link_resize_inode. destruct (Z.eqb_spec (ge_reserved ge) 0) as [E|E]; [apply succeeds_ret|].
  destruct (Hd E) as [Hb Hm]. destruct (im_resize _ _ Him E) as (Hrb & Hne & Hrm & _). rewrite Hg. fold (resize_block ge d0). fold (resize_off ge).
  apply succeeds_get. rewrite Hb. fold (resize_map ge d0). rewrite (proj2 (Z.eqb_neq _ 0)) by lia.
  apply succeeds_get. rewrite Hm. apply succeeds_seq.
  { apply succeeds_link_reserved, Forall_forall. intros r Hr%elem_of_seqZ. lia. }
  intros _ d1. apply succeeds_must, returns_write_block. rewrite wr32_length; [apply blk_length|]. rewrite blk_length.
  pose proof (resize_off_fits ge Hge). lia.
Qed.

Lemma succeeds_expand_group0 sb : succeeds (expand_group0 ge sb (blk d0 1)) d0.
Proof.
  pose proof (im_bb _ _ Him) as Hbb. pose proof (group0_end_range ge Hge) as He. pose proof (go_old _ Hge). unfold expand_group0.
  fold (bb0 d0). fold (group0_end ge). rewrite (proj2 (Z.eqb_neq (bb0 d0) 0)) by lia. apply succeeds_get.
  destruct (clear_range_spec (blk d0 (bb0 d0)) (ge_old ge) (group0_end ge)) as (m & Em & Hl & _); [lia|rewrite blk_length, bits_of_block; lia|].
  rewrite blk_length in Hl. eapply succeeds_in_bounds; [exact Em|].
  apply succeeds_seq; [by apply succeeds_must, returns_write_block|]. intros _ d1. apply succeeds_ret.
Qed.

Lemma succeeds_grow_to :
  Forall (λ g, g_prefix ge g < g_valid ge g) (new_groups ge) -> succeeds (grow_to ge (super_of d0)) d0.
Proof.
  intros Hfit. pose proof (new_groups_range ge) as Hr.
  assert (Hl : length (super_of d0) = 1024%nat) by apply dev_read_length. pose proof (new_gdt_length ge Hge d0) as Hgl.
  unfold grow_to. apply succeeds_get.
  eapply succeeds_bind; [by apply ewp_expand_group0|apply succeeds_expand_group0|]. cbn beta. intros x d1 (-> & H1 & _). cbn [fst snd].
  eapply succeeds_bind; [apply ewp_init_groups; [done|exact Hr|apply new_groups_NoDup]|apply succeeds_init_groups|].
  { rewrite Forall_forall in *. auto. }
  cbn beta. intros x d2 (-> & H2 & _). cbn [fst snd]. fold (new_gdt ge d0). fold (new_free ge (super_of d0)). fold (new_sb ge (super_of d0)).
  assert (Hlow : forall b, b < ge_bpg ge -> b <> bb0 d0 -> blk d2 b = blk d0 b).
  { intros b Hb Hn. rewrite (blk_touches _ _ _ _ H2); [by rewrite (blk_touches _ _ _ _ H1)|].
    intros Hx. apply in_groups_high in Hx; [lia|done|done]. }
  destruct (new_super_shape ge (super_of d0) (new_free ge (super_of d0)) Hl) as [Hnl _]. fold (new_sb ge (super_of d0)) in Hnl.
  apply succeeds_seq.
  { apply succeeds_link_resize_inode; [by apply new_gdt_table|]. intros Hres. destruct (im_resize _ _ Him Hres) as (? & ? & ? & ?). split; apply Hlow; lia. }
  intros _ d3. apply succeeds_seq; [apply succeeds_write_backups; [|done]|].
  { rewrite Hnl. unfold BLOCK, EXT2_BLOCK_SIZE. lia. }
  intros _ d4. apply succeeds_seq; [by apply succeeds_must, returns_write_block|]. intros _ d5.
  apply succeeds_seq; [apply succeeds_must, returns_write_checked; [done|]|].
  { rewrite Hnl. done. }
  intros _ d6. apply succeeds_ret.
Qed.

End Run.

Lemma succeeds_ext2_grow t ge d :
  SECTORS_PER_BLOCK <= t -> plan t (super_of d) = PlanGrow ge -> succeeds (grow_to ge (super_of d)) d -> succeeds (ext2_grow t) d.
Proof.
  intros Ht Hp Hg n. destruct (Hg (S n)) as (a & n' & d' & E). exists a, n', d'. unfold ext2_grow. rewrite (proj2 (Z.ltb_ge _ _)) by done.
  unfold ebind, must_get, mbind, io_bind, io_read, all_ok.
  change (dev_read d (2 * SECTOR_SIZE) (Z.to_nat (2 * SECTOR_SIZE))) with (super_of d). cbn [eret]. unfold eret, mret, io_ret.
  unfold plan in Hp. destruct (negb (supported _)); [done|]. cbv zeta in *.
  destruct (negb (geometry_ok _ _ _ _ _ _ _)); [done|]. destruct (negb (_ =? 1)); [done|]. destruct (target_of _ _ <=? _); [done|].
  destruct (_ || _); [done|]. destruct (trim _ _ _ _ _). injection Hp as ->. exact E.
Qed.

(** * The theorem *)

