(* ===== verification/Ext2GrowCases.v ===== *)
(** A small image that satisfies the hypotheses of the theorems about
    [ext2_grow], and the cases in which the tool does not do what it means to: a
    second run after an interrupted one, and a group with more inodes than a
    bitmap block has bits. *)

From S2P Require Import Prelude BlockDev Ext2Disk Ext2Grow Ext2GrowSafety Ext2GrowResult Ext2GrowLive.
Local Open Scope Z_scope.

(** * Definitions *)

(** 40 blocks in a group of 64, 16 inodes of 128 bytes, one reserved descriptor
    block.  Blocks 0 to 6 are in use: superblock, descriptors, reserved
    descriptors, block bitmap, inode bitmap, inode table and the map of the resize
    inode. *)
Definition super_fields : list (nat * bytes) :=
  [(0%nat, le_bytes 4 16); (4%nat, le_bytes 4 40); (12%nat, le_bytes 4 33); (16%nat, le_bytes 4 5); (24%nat, le_bytes 4 2);
   (32%nat, le_bytes 4 64); (40%nat, le_bytes 4 16); (56%nat, le_bytes 2 EXT2_MAGIC); (58%nat, le_bytes 2 1); (88%nat, le_bytes 2 128);
   (92%nat, le_bytes 4 0x10); (100%nat, le_bytes 4 1); (206%nat, le_bytes 2 1)].
Definition image_super : bytes := foldl (λ b f, splice f.1 f.2 b) (zeros 208) super_fields.
Definition image_gdt : bytes := le_bytes 4 3 ++ le_bytes 4 4 ++ le_bytes 4 5 ++ le_bytes 2 33 ++ le_bytes 2 5.

Definition image : device := λ a,
  if (1024 <=? a) && (a <? 2048) then byte_at image_super (Z.to_nat (a - 1024))
  else if (4096 <=? a) && (a <? 8192) then byte_at image_gdt (Z.to_nat (a - 4096))
  else if (12288 <=? a) && (a <? 16384) then (if a =? 12288 then 127 else if a <? 12293 then 0 else 255)
  else if a =? 5 * 4096 + 768 + 92 then 6
  else if a =? 6 * 4096 + 4 then 2 else 0.

Definition image_geom : geom := Geom 64 16 128 1 1 40 3 150.

(** * The image *)

Lemma byte_at_ok p i : Forall is_byte p -> is_byte (byte_at p i).
Proof.
  intros H. unfold byte_at. destruct (p !! i) as [b|] eqn:E; [|unfold is_byte; cbn; lia]. by eapply (Forall_lookup_1 _ _ _ _ H).
Qed.

Lemma bytes_check p : forallb (λ b, (0 <=? b) && (b <? 256)) p = true -> Forall is_byte p.
Proof. rewrite forallb_forall. intros H. apply Forall_forall. intros b Hb%list_elem_of_In. specialize (H b Hb). unfold is_byte. boolify. lia. Qed.

Lemma image_dev_ok : dev_ok image.
Proof.
  assert (H1 : Forall is_byte image_super) by (apply bytes_check; vm_compute; reflexivity).
  assert (H2 : Forall is_byte image_gdt) by (unfold image_gdt; repeat apply Forall_app_2; apply le_bytes_is_byte).
  intros a. unfold image. repeat case_match; try (by apply byte_at_ok); unfold is_byte; lia.
Qed.

Lemma image_plan : plan 1200 (super_of image) = PlanGrow image_geom.
Proof. vm_compute. reflexivity. Qed.

Lemma image_image_ok : image_ok image_geom image.
Proof.
  assert (E1 : bb0 image = 3) by reflexivity. assert (E2 : resize_block image_geom image = 5) by reflexivity.
  assert (E3 : resize_map image_geom image = 6) by (unfold resize_map; rewrite E2; reflexivity).
  assert (E4 : forall r, 0 <= r < 1 -> primary image_geom image r = 2).
  { intros r Hr. replace r with 0 by lia. unfold primary. rewrite E3. reflexivity. }
  split; rewrite ?E1, ?E2, ?E3; cbn [ge_bpg ge_reserved image_geom]; [lia|lia| |lia|].
  - intros r Hr. rewrite E4 by done. lia.
  - split; [lia|]. intros r Hr. rewrite E4 by done. lia.
Qed.

Lemma image_image_counts : image_counts image_geom image.
Proof.
  assert (E1 : bb0 image = 3) by reflexivity.
  split; rewrite ?E1.
  - cbn [ge_old image_geom]. unfold clear_count. rewrite (List.filter_ext_in _ (λ j, negb (Z.testbit (image (3 * 4096 + j / 8)) (j mod 8)))); [vm_compute; reflexivity|].
    intros j Hj%list_elem_of_In%elem_of_seqZ. by rewrite blk_bit by lia.
  - vm_compute. reflexivity.
  - cbn [ge_old image_geom]. intros j Hj. rewrite blk_bit by lia. assert (Hq : 5 <= j / 8 < 4096) by (split; [apply Z.div_le_lower_bound; lia|apply Z.div_lt_upper_bound; lia]).
    unfold image. rewrite !andb_false_intro2 by (apply Z.ltb_ge; lia). rewrite (proj2 (Z.leb_le _ _)), (proj2 (Z.ltb_lt _ _)) by lia. cbn [andb].
    rewrite (proj2 (Z.eqb_neq _ _)), (proj2 (Z.ltb_ge _ _)) by lia. change 255 with (Z.ones 8). apply Z.ones_spec_low. pose proof (Z.mod_pos_bound j 8). lia.
Qed.

Lemma image_fits : Forall (λ g, g_prefix image_geom g < g_valid image_geom g) (new_groups image_geom).
Proof. change (new_groups image_geom) with [1; 2]. by repeat constructor. Qed.

(** * Witnesses *)



(** * A second run after an interrupted one *)

Section Again.

Context (ge : geom) (Hge : geom_ok ge) (d0 d1 : device) (sb : bytes) (Him : image_ok ge d0) (Hr : ready ge d0 sb d1) (Ho : original ge d0 sb d1).

Lemma again_bb : bb0 d1 = bb0 d0.
Proof. unfold bb0. rewrite (rd_gdt _ _ _ _ Hr). unfold rd32. rewrite new_gdt_zero by (done || lia). by rewrite gdt1_other by lia. Qed.

Lemma again_block : resize_block ge d1 = resize_block ge d0.
Proof. unfold resize_block. by rewrite (rd_gdt _ _ _ _ Hr), new_gdt_table by done. Qed.

Lemma again_map : ge_reserved ge <> 0 -> resize_map ge d1 = resize_map ge d0.
Proof.
  intros Hz. unfold resize_map. rewrite again_block, (rz_inode _ _ _ (rd_resize _ _ _ _ Hr Hz)). unfold resize_inode. pose proof (resize_off_fits ge Hge).
  rewrite rd32_wr32_ne; [done|rewrite blk_length; lia|lia].
Qed.

Lemma again_primary r : 0 <= r < ge_reserved ge -> primary ge d1 r = primary ge d0 r.
Proof.
  intros Hr'. assert (Hz : ge_reserved ge <> 0) by lia. unfold primary. rewrite again_map by done.
  rewrite (blk_touches _ _ _ _ (or_frame _ _ _ _ Ho)); [done|]. destruct (im_resize _ _ Him Hz) as (_ & _ & Hm & Hb). destruct (im_map _ _ Him Hz) as [H1 H2].
  intros [?|[?|[?|[[_ [?|(r' & Hrr & ?)]]|?]]]]; try lia. by apply (H2 r' Hrr).
Qed.

(** The disk is an image to grow again. *)
Lemma image_ok_again : image_ok ge d1.
Proof.
  pose proof again_primary as Hp. split; rewrite ?again_bb, ?again_block.
  - apply (im_bb _ _ Him).
  - intros Hz. rewrite again_map by done. by apply (im_resize _ _ Him).
  - intros r Hr'. rewrite Hp by done. by apply (im_primary _ _ Him).
  - intros r r' H1 H2. rewrite !Hp by done. by apply (im_distinct _ _ Him).
  - intros Hz. rewrite again_map by done. destruct (im_map _ _ Him Hz) as [H1 H2]. split; [done|]. intros r Hr'. rewrite Hp by done. by apply H2.
Qed.

Context (Hic : image_counts ge d0).

Lemma again_free : rd16 (blk d1 1) 12 = rd16 (blk d0 1) 12 + added ge.
Proof.
  rewrite (rd_gdt _ _ _ _ Hr). unfold rd16 at 1. rewrite new_gdt_zero by (done || lia). change (le_value (slice 12 2 (gdt1 ge d0))) with (rd16 (gdt1 ge d0) 12).
  unfold gdt1. rewrite rd16_wr16 by (rewrite blk_length; unfold BLOCK, EXT2_BLOCK_SIZE; lia). unfold u16. apply Z.mod_small.
  rewrite (ic_group _ _ Hic). pose proof (clear_count_le (blk d0 (bb0 d0)) (ge_old ge)). pose proof (group0_end_range ge Hge). pose proof (go_old _ Hge).
  unfold added. lia.
Qed.

Lemma again_clear d2 : grown ge d1 (super_of d1) d2 -> group_clear ge d2 0 = rd16 (blk d0 1) 12 + added ge.
Proof.
  intros Hg. destruct (old_desc ge Hge d1 d2 Hg) as [D1 _]. rewrite again_bb in D1. unfold group_clear.
  rewrite D1, (blocks_of_group0 ge Hge), (ic_group _ _ Hic). pose proof (group0_end_range ge Hge). pose proof (go_old _ Hge).
  apply (clear_count_extend _ _ _ _ 32768); [lia|lia|]. intros j Hj. pose proof (rd_group0 _ _ _ _ (gn_ready _ _ _ _ Hg)) as H2. unfold group0_data in H2.
  rewrite again_bb in H2. rewrite H2, (rd_group0 _ _ _ _ Hr) by lia. by rewrite <- andb_assoc, andb_diag.
Qed.

End Again.

(** a run interrupted between the last two writes leaves the old superblock with
    a descriptor table that already counts the blocks added to group 0; running
    [ext2_grow] again adds them once more, so the free count of group 0 is then
    too large by the number of added blocks. *)
Theorem regrow_counts_twice t ge d0 d1 :
  SECTORS_PER_BLOCK <= t -> dev_ok d0 -> plan t (super_of d0) = PlanGrow ge -> ge_ipg ge <= 32768 -> image_ok ge d0 -> image_counts ge d0 ->
  Forall (λ g, g_prefix ge g < g_valid ge g) (new_groups ge) ->
  ready ge d0 (super_of d0) d1 -> original ge d0 (super_of d0) d1 ->
  exists n d2, ext2_grow t all_ok 0%nat d1 = Val (inl (ge_target ge * SECTORS_PER_BLOCK)) n d2 /\
    rd16 (blk d2 1) 12 = u16 (group_clear ge d2 0 + added ge).
Proof.
  intros Ht Hok Hp Hi Him Hic Hfit Hr Ho. pose proof (plan_ok _ _ _ (super_bytes d0 Hok) Hp Hi) as Hge.
  pose proof (image_ok_again ge Hge d0 d1 _ Him Hr Ho) as Him1. rewrite <- (or_super _ _ _ _ Ho) in Hp.
  assert (Hw : ewp (ext2_grow t) (λ s d, s = ge_target ge * SECTORS_PER_BLOCK /\ grown ge d1 (super_of d1) d) (λ _, True) d1).
  { apply ewp_plan; [done|]. rewrite Hp. eapply ewp_conseq; [by apply ewp_grow_to|done|done]. }
  destruct (succeeds_ext2_grow t ge d1 Ht Hp) with (n := 0%nat) as (s & n & d2 & E); [by apply succeeds_grow_to|].
  specialize (Hw all_ok 0%nat). rewrite E in Hw. destruct Hw as [-> Hg]. exists n, d2. split; [done|].
  pose proof (proj2 (old_desc ge Hge d1 d2 Hg)) as D2. change (desc 0 + 12)%nat with 12%nat in D2. rewrite D2.
  by rewrite (again_clear ge Hge d0 d1 _ Hr Hic d2 Hg), (again_free ge Hge d0 d1 _ Hr Hic).
Qed.

Lemma image_geom_ok : geom_ok image_geom.
Proof. apply (plan_ok 1200 (super_of image)); [apply super_bytes, image_dev_ok|apply image_plan|cbn; lia]. Qed.

Lemma image_grown : exists d, grown image_geom image (super_of image) d.
Proof.
  pose proof (ewp_grow_to image_geom image_geom_ok image (super_of image) image_image_ok eq_refl all_ok 0%nat) as Hw.
  destruct (succeeds_grow_to image_geom image_geom_ok image image_image_ok image_fits 0%nat) as (s & n & d & E). rewrite E in Hw. exists d. apply Hw.
Qed.

(** The disk after the power went between the last two writes. *)
Lemma image_interrupted : exists d, ready image_geom image (super_of image) d /\ original image_geom image (super_of image) d.
Proof.
  destruct image_grown as (d & Hg). exists (dev_write d 1024 (super_of image)).
  assert (Ht : touches (λ b, b = 0) d (dev_write d 1024 (super_of image))) by (apply super_write_touches; unfold super_of; rewrite dev_read_length; lia).
  split; [apply (ready_touches _ image_geom_ok _ _ d); [apply image_image_ok|apply Hg|done]|]. split.
  - pose proof (dev_read_write d 1024 (super_of image)) as E. unfold super_of in E at 2. rewrite dev_read_length in E. exact E.
  - eapply touches_trans; [apply Hg|]. eapply touches_mono; [|exact Ht]. by left.
Qed.

Lemma regrow_counts_twice_witness :
  exists d1 n d2, super_of d1 = super_of image /\ ext2_grow 1200 all_ok 0%nat d1 = Val (inl 1200) n d2 /\
    rd16 (blk d2 1) 12 = u16 (group_clear image_geom d2 0 + 24).
Proof.
  destruct image_interrupted as (d1 & Hr & Ho). destruct (regrow_counts_twice 1200 image_geom image d1) as (n & d2 & H);
    [done|apply image_dev_ok|apply image_plan|cbn; lia|apply image_image_ok|apply image_image_counts|apply image_fits|exact Hr|exact Ho|].
  exists d1, n, d2. split; [apply Ho|exact H].
Defined.

(** * Too many inodes for a bitmap *)

Lemma clear_from_overflow n m i : 0 <= i -> 8 * Z.of_nat (length m) < i + Z.of_nat n -> (0 < n)%nat -> clear_from n m i = None.
Proof.
  revert m i. induction n as [|n IH]; intros m i Hi Hn Hp; [lia|]. cbn [clear_from].
  destruct (decide (i < 8 * Z.of_nat (length m))) as [Hlt|Hge].
  - destruct (clear_bit_total m i) as (m1 & -> & Hl & _); [lia|]. apply IH; [lia|rewrite Hl; lia|lia].
  - unfold clear_bit. rewrite lookup_ge_None_2; [done|]. rewrite Z.shiftr_div_pow2 by lia. change (2 ^ 3) with 8.
    assert (Z.of_nat (length m) <= i / 8) by (apply Z.div_le_lower_bound; lia). lia.
Qed.

(** the checks of [ext2_grow] admit up to 65535 inodes per group, but a bitmap
    block has 32768 bits: with more inodes, preparing a group whose metadata fits
    writes past the end of the bitmap buffer. *)
Theorem init_group_overflow ge g gdt fb d :
  1 <= ge_bpg ge <= 32768 -> 0 <= g_prefix ge g < g_valid ge g -> 32768 < ge_ipg ge ->
  init_group ge g gdt fb all_ok 0%nat d = OutOfBounds.
Proof.
  intros Hb Hf Hi. unfold init_group. fold (g_start ge g). fold (g_valid ge g). fold (g_bb ge g). fold (g_prefix ge g).
  rewrite (proj2 (Z.leb_gt _ _)) by lia. assert (Hv : g_valid ge g <= 32768) by (unfold g_valid; lia).
  destruct (clear_range_spec (repeat 255 BLOCK) (g_prefix ge g) (g_valid ge g)) as (bm & Ebm & Hbml & _);
    [lia|rewrite full_length, bits_of_block; lia|]. rewrite full_length in Hbml.
  assert (Eim : bitmap_clear_range (repeat 255 BLOCK) 0 (ge_ipg ge) = None).
  { apply clear_from_overflow; [lia|rewrite full_length, bits_of_block; lia|lia]. }
  destruct (returns_write_block (g_bb ge g) bm d Hbml 0%nat) as (n & d' & E).
  rewrite Ebm, Eim. unfold ebind, mbind, io_bind. cbn [in_bounds]. unfold eret, mret, io_ret, must, mbind, io_bind. by rewrite E.
Qed.

(** The geometry the checks let through: 40000 inodes of 128 bytes. *)
Definition wide_geom : geom := Geom 32768 40000 128 1 1250 30000 2 65536.

Lemma init_group_overflow_witness :
  geometry_ok 30000 32768 40000 128 1 0x10 1 = true /\ init_group wide_geom 1 (zeros BLOCK) 0 all_ok 0%nat image = OutOfBounds.
Proof. split; [reflexivity|]. apply (init_group_overflow wide_geom); vm_compute; try split; discriminate || reflexivity. Defined.
