(* ===== verification/Ext2Repair.v ===== *)
(** Checking and repairing the root file system
    (src/user/lib/libinstall/ext2_repair.c).

    [ext2_repair] marks the blocks the metadata and the allocated inodes own, adds
    the allocations the bitmaps miss, rebuilds the free counters and sets VALID_FS
    again.  It keeps one block buffer, [rp_block], which the directory parser reads
    from and the inode reader writes to. *)

From S2P Require Import Prelude BlockDev.
Local Open Scope Z_scope.

(** * Definitions *)

Definition BS : Z := 4096.
Definition SPB : Z := 8.
Definition MAGIC : Z := 0xEF53.
Definition VALID_FS : Z := 1.
Definition ERROR_FS : Z := 2.
Definition INCOMPAT_FILETYPE : Z := 2.
Definition RO_COMPAT_SUPPORTED : Z := 3.
Definition MAX_GROUPS : Z := 128.
Definition DESC_SIZE : nat := 32.
Definition S_IFMT : Z := 0xF000.
Definition S_IFREG : Z := 0x8000.
Definition S_IFDIR : Z := 0x4000.
Definition S_IFLNK : Z := 0xA000.

(** The parts of [repair_t] that the superblock fixes. *)
Record layout := Layout {
  ly_sectors : Z;
  ly_blocks : Z;
  ly_inodes : Z;
  ly_bpg : Z;
  ly_ipg : Z;
  ly_groups : Z;
  ly_isize : Z;    (** inode_size *)
  ly_first : Z;    (** first_ino *)
  ly_itb : Z       (** inode_table_blocks *)
}.

(** The parts that change. *)
Record repair_t := Repair {
  rp_gdt : bytes;
  rp_block : bytes;
  rp_refs : bytes;        (** block_refs *)
  rp_alloc : bytes;       (** inode_alloc *)
  rp_scanned : bytes;
  rp_dirs : Z;            (** directories *)
  rp_missing_b : Z;       (** missing_blocks *)
  rp_missing_i : Z;       (** missing_inodes *)
  rp_mismatch : Z;        (** counter_mismatches *)
  rp_dpg : list Z         (** dirs_per_group *)
}.

Definition set_gdt (r : repair_t) x := Repair x (rp_block r) (rp_refs r) (rp_alloc r) (rp_scanned r) (rp_dirs r) (rp_missing_b r) (rp_missing_i r) (rp_mismatch r) (rp_dpg r).
Definition set_block (r : repair_t) x := Repair (rp_gdt r) x (rp_refs r) (rp_alloc r) (rp_scanned r) (rp_dirs r) (rp_missing_b r) (rp_missing_i r) (rp_mismatch r) (rp_dpg r).
Definition set_refs (r : repair_t) x := Repair (rp_gdt r) (rp_block r) x (rp_alloc r) (rp_scanned r) (rp_dirs r) (rp_missing_b r) (rp_missing_i r) (rp_mismatch r) (rp_dpg r).
Definition set_alloc (r : repair_t) x := Repair (rp_gdt r) (rp_block r) (rp_refs r) x (rp_scanned r) (rp_dirs r) (rp_missing_b r) (rp_missing_i r) (rp_mismatch r) (rp_dpg r).
Definition set_scanned (r : repair_t) x := Repair (rp_gdt r) (rp_block r) (rp_refs r) (rp_alloc r) x (rp_dirs r) (rp_missing_b r) (rp_missing_i r) (rp_mismatch r) (rp_dpg r).
Definition add_missing_i (r : repair_t) := Repair (rp_gdt r) (rp_block r) (rp_refs r) (rp_alloc r) (rp_scanned r) (rp_dirs r) (rp_missing_b r) (rp_missing_i r + 1) (rp_mismatch r) (rp_dpg r).
Definition set_counts (r : repair_t) mb mm := Repair (rp_gdt r) (rp_block r) (rp_refs r) (rp_alloc r) (rp_scanned r) (rp_dirs r) mb (rp_missing_i r) mm (rp_dpg r).
Definition set_dpg (r : repair_t) x := Repair (rp_gdt r) (rp_block r) (rp_refs r) (rp_alloc r) (rp_scanned r) (rp_dirs r + 1) (rp_missing_b r) (rp_missing_i r) (rp_mismatch r) x.

Inductive rerror :=
  | NoMessage | WriteFailed | ReadFailed | PointerOutside | VerifyFailed | ReferenceOutside | DuplicateOwner | DescriptorOutside
  | InvalidInode | TruncatedEntry | MalformedEntry | EntryOutOfRange | Uninitialized | SparseDirectory | NoFileType
  | TripleIndirect | DirectoryTooLarge | NotSupportedFs | InvalidGeometry | GroupTableUnsupported | NotEnoughMemory
  | CannotMarkProgress | SuperVerifyFailed | OutOfFuel.

(** ** Programs over [repair_t] *)

Definition rio (A : Type) : Type := repair_t -> io ((A * repair_t) + rerror).

#[global] Instance rio_ret : MRet rio := λ _ a r, mret (M := io) (inl (a, r)).
#[global] Instance rio_bind : MBind rio := λ _ _ f m r,
  mbind (M := io) (λ x, match x with inl (a, r) => f a r | inr e => mret (M := io) (inr e) end) (m r).

Definition rfail {A} (e : rerror) : rio A := λ _, mret (M := io) (inr e).
Definition rget : rio repair_t := λ r, mret (M := io) (inl (r, r)).
Definition rmod (f : repair_t -> repair_t) : rio () := λ r, mret (M := io) (inl (tt, f r)).
Definition roob {A} : rio A := λ _, out_of_bounds.

(** An error of [m] is reported as [e]. *)
Definition or_fail {A} (m : rio A) (e : rerror) : rio A := λ r,
  mbind (M := io) (λ x, match x with inl y => mret (M := io) (inl y) | inr _ => mret (M := io) (inr e) end) (m r).

Fixpoint rfor {S} (l : list Z) (f : Z -> S -> rio S) (s : S) : rio S :=
  match l with
  | [] => mret s
  | i :: l => s ← f i s; rfor l f s
  end.

(** A bit inside the map. *)
Definition getbit (m : bytes) (n : Z) : rio bool := if (0 <=? n) && (n <? 8 * Z.of_nat (length m)) then mret (bit m n) else roob.
Definition setbit (m : bytes) (n : Z) : rio bytes := match set_bit m n with Some m => mret m | None => roob end.

(** ** Transfers *)

Section Tool.

Context (ly : layout).

Definition outside (sector count : Z) : bool := (ly_sectors ly <? sector) || (ly_sectors ly - sector <? count).

Definition rw_read (sector count : Z) : rio bytes := λ r,
  if outside sector count then mret (M := io) (inr ReadFailed) else
  mbind (M := io) (λ x, mret (M := io) (match x with Some b => inl (b, r) | None => inr ReadFailed end)) (io_read sector count).

Definition rw_write (sector count : Z) (buf : bytes) : rio () := λ r,
  if outside sector count then mret (M := io) (inr WriteFailed) else
  mbind (M := io) (λ ok : bool, mret (M := io) (if ok then inl (tt, r) else inr WriteFailed)) (io_write sector buf).

Definition read_block (b : Z) : rio bytes := if ly_blocks ly <=? b then rfail PointerOutside else rw_read (b * SPB) SPB.

(** [read_block] into [r->block]. *)
Definition load_block (b : Z) : rio () := buf ← read_block b; rmod (λ r, set_block r buf).

Definition write_block (b : Z) (buf : bytes) : rio () :=
  or_fail (_ ← rw_write (b * SPB) SPB buf; verify ← rw_read (b * SPB) SPB; if bool_decide (verify = buf) then mret tt else rfail VerifyFailed) VerifyFailed.

(** ** Ownership *)

Definition mark_block (b : Z) : rio () :=
  if ly_blocks ly <=? b then rfail ReferenceOutside else
  r ← rget;
  dup ← getbit (rp_refs r) b;
  if (dup : bool) then rfail DuplicateOwner else
  m ← setbit (rp_refs r) b;
  rmod (λ r, set_refs r m).

Definition mark_run (l : list Z) : rio () := rfor l (λ b _, mark_block b) tt.

Definition group_start (g : Z) : Z := g * ly_bpg ly.
Definition group_end (g : Z) : Z := Z.min (group_start g + ly_bpg ly) (ly_blocks ly).

Definition mark_group (g : Z) : rio () :=
  r ← rget;
  let o := (Z.to_nat g * DESC_SIZE)%nat in
  let start := group_start g in
  let end_ := group_end g in
  let bb := rd32 (rp_gdt r) o in
  let ib := rd32 (rp_gdt r) (o + 4) in
  let it := rd32 (rp_gdt r) (o + 8) in
  let prefix_end := Z.min (Z.min bb ib) it in
  if (bb <? start) || (end_ <=? bb) || (ib <? start) || (end_ <=? ib) || (it <? start) || (end_ <? it) || (end_ - it <? ly_itb ly)
  then rfail DescriptorOutside else
  _ ← mark_run (seqZ start (prefix_end - start));
  _ ← mark_block bb;
  _ ← mark_block ib;
  mark_run (seqZ it (ly_itb ly)).

Definition mark_metadata : rio () := rfor (seqZ 0 (ly_groups ly)) (λ g _, mark_group g) tt.

(** ** Inodes and directories *)

Definition read_inode (ino : Z) : rio bytes :=
  if (ino =? 0) || (ly_inodes ly <? ino) then rfail InvalidInode else
  r ← rget;
  let g := (ino - 1) / ly_ipg ly in
  let idx := (ino - 1) mod ly_ipg ly in
  let table := rd32 (rp_gdt r) (Z.to_nat g * DESC_SIZE + 8) in
  let block := u32 (table + (idx * ly_isize ly) / BS) in
  let off := (idx * ly_isize ly) mod BS in
  if BS <? off + 128 then rfail NoMessage else
  _ ← load_block block;
  r ← rget;
  mret (slice (Z.to_nat off) 128 (rp_block r)).

(** One entry at [off]; the offset of the next. *)
Definition parse_entry (off : Z) : rio Z :=
  if BS - off <? 8 then rfail TruncatedEntry else
  r ← rget;
  let b := rp_block r in
  let ino := rd32 b (Z.to_nat off) in
  let rec := rd16 b (Z.to_nat off + 4) in
  let namesz := byte_at b (Z.to_nat off + 6) in
  if (rec <? 8) || negb (Z.land rec 3 =? 0) || (BS - off <? rec) || (rec - 8 <? namesz) then rfail MalformedEntry else
  if ino =? 0 then mret (off + rec) else
  if ly_inodes ly <? ino then rfail EntryOutOfRange else
  known ← getbit (rp_alloc r) (ino - 1);
  if (known : bool) then mret (off + rec) else
  inode ← or_fail (read_inode ino) Uninitialized;
  if Z.land (rd16 inode 0) S_IFMT =? 0 then rfail Uninitialized else
  r ← rget;
  m ← setbit (rp_alloc r) (ino - 1);
  _ ← rmod (λ r, add_missing_i (set_alloc r m));
  mret (off + rec).

(** An entry has at least 8 bytes: 512 of them fill a block. *)
Fixpoint parse_loop (fuel : nat) (off : Z) : rio () :=
  match fuel with
  | O => rfail OutOfFuel
  | S fuel => if off <? BS then off ← parse_entry off; parse_loop fuel off else mret tt
  end.

Definition parse_dir_block : rio () := parse_loop 513 0.

(** [dir_bytes] is threaded through. *)
Definition data_block (b : Z) (is_dir : bool) (dir_bytes : Z) : rio Z :=
  if b =? 0 then (if is_dir && negb (dir_bytes =? 0) then rfail SparseDirectory else mret dir_bytes) else
  _ ← mark_block b;
  if is_dir && negb (dir_bytes =? 0) then
    _ ← load_block b;
    _ ← parse_dir_block;
    mret (if BS <? dir_bytes then dir_bytes - BS else 0)
  else mret dir_bytes.

Fixpoint indirect (depth : nat) (b : Z) (is_dir : bool) (dir_bytes : Z) : rio Z :=
  if b =? 0 then mret dir_bytes else
  match depth with
  | O => rfail NoMessage
  | S depth' =>
      if (2 <? depth)%nat then rfail NoMessage else
      _ ← mark_block b;
      pointers ← read_block b;
      rfor (seqZ 0 (BS / 4)) (λ i dir_bytes,
        let p := rd32 pointers (Z.to_nat (i * 4)) in
        if p =? 0 then mret dir_bytes else
        if (depth =? 1)%nat then data_block p is_dir dir_bytes else indirect depth' p is_dir dir_bytes) dir_bytes
  end.

Definition scan_inode (ino : Z) : rio () :=
  in_ ← read_inode ino;
  let mode := Z.land (rd16 in_ 0) S_IFMT in
  let reserved := (ino <? ly_first ly) && negb (ino =? 2) in
  if mode =? 0 then (if reserved then mret tt else rfail NoFileType) else
  if reserved then mret tt else
  if negb (mode =? S_IFREG) && negb (mode =? S_IFDIR) && negb (mode =? S_IFLNK) then mret tt else
  if (mode =? S_IFLNK) && (rd32 in_ 28 =? 0) then mret tt else
  let is_dir := mode =? S_IFDIR in
  let g := Z.to_nat ((ino - 1) / ly_ipg ly) in
  let dir_bytes := if is_dir then rd32 in_ 4 else 0 in
  r ← rget;
  _ ← (if is_dir then
         match rp_dpg r !! g with
         | Some n => rmod (λ r, set_dpg r (<[g := n + 1]> (rp_dpg r)))
         | None => roob
         end
       else mret tt);
  dir_bytes ← rfor (seqZ 0 12) (λ i dir_bytes, data_block (rd32 in_ (Z.to_nat (40 + i * 4))) is_dir dir_bytes) dir_bytes;
  dir_bytes ← indirect 1 (rd32 in_ 88) is_dir dir_bytes;
  dir_bytes ← indirect 2 (rd32 in_ 92) is_dir dir_bytes;
  if negb (rd32 in_ 96 =? 0) then rfail TripleIndirect else
  if is_dir && negb (dir_bytes =? 0) then rfail DirectoryTooLarge else mret tt.

(** The inodes of group [g] that exist. *)
Definition group_inodes (g : Z) : Z := Z.min (ly_inodes ly - g * ly_ipg ly) (ly_ipg ly).

Definition load_inode_map (g : Z) : rio () :=
  r ← rget;
  _ ← load_block (rd32 (rp_gdt r) (Z.to_nat g * DESC_SIZE + 4));
  rfor (seqZ 0 (group_inodes g)) (λ i _,
    r ← rget;
    used ← getbit (rp_block r) i;
    if (used : bool) then m ← setbit (rp_alloc r) (g * ly_ipg ly + i); rmod (λ r, set_alloc r m) else mret tt) tt.

Definition load_inode_maps : rio () := rfor (seqZ 0 (ly_groups ly)) (λ g _, load_inode_map g) tt.

(** One pass over the inodes; whether one was scanned. *)
Definition scan_pass : rio bool :=
  rfor (seqZ 0 (ly_inodes ly)) (λ i progress,
    r ← rget;
    used ← getbit (rp_alloc r) i;
    seen ← getbit (rp_scanned r) i;
    if negb used || seen then mret progress else
    m ← setbit (rp_scanned r) i;
    _ ← rmod (λ r, set_scanned r m);
    _ ← scan_inode (i + 1);
    mret true) false.

Fixpoint scan_passes (fuel : nat) : rio () :=
  match fuel with
  | O => rfail OutOfFuel
  | S fuel => progress ← scan_pass; if (progress : bool) then scan_passes fuel else mret tt
  end.

(** Every pass but the last scans an inode. *)
Definition scan_all : rio () := scan_passes (S (Z.to_nat (ly_inodes ly))).

(** ** Bitmaps and counters *)

(** The wanted bits of [r->block] are set; how many were missing, and how many bits
    are clear. *)
Definition fix_bits (want : repair_t -> bytes) (base n : Z) : rio (Z * Z) :=
  rfor (seqZ 0 n) (λ i '(missing, free),
    r ← rget;
    wanted ← getbit (want r) (base + i);
    have ← getbit (rp_block r) i;
    if (wanted : bool) && negb have then
      m ← setbit (rp_block r) i;
      _ ← rmod (λ r, set_block r m);
      mret (missing + 1, free)
    else mret (missing, if (have : bool) then free else free + 1)) (0, 0).

Definition reconcile_group (repair : bool) (g : Z) (totals : Z * Z) : rio (Z * Z) :=
  r ← rget;
  let o := (Z.to_nat g * DESC_SIZE)%nat in
  let bb := rd32 (rp_gdt r) o in
  let ib := rd32 (rp_gdt r) (o + 4) in
  _ ← load_block bb;
  b ← fix_bits rp_refs (group_start g) (group_end g - group_start g);
  _ ← rmod (λ r, set_counts r (rp_missing_b r + b.1) (rp_mismatch r));
  r ← rget;
  _ ← (if negb (b.1 =? 0) && repair then write_block bb (rp_block r) else mret tt);
  _ ← load_block ib;
  i ← fix_bits rp_alloc (g * ly_ipg ly) (group_inodes g);
  r ← rget;
  _ ← (if negb (i.1 =? 0) && repair then write_block ib (rp_block r) else mret tt);
  match rp_dpg r !! Z.to_nat g with
  | None => roob
  | Some dirs =>
      _ ← (if negb (rd16 (rp_gdt r) (o + 12) =? b.2) || negb (rd16 (rp_gdt r) (o + 14) =? i.2) || negb (rd16 (rp_gdt r) (o + 16) =? dirs) then
             _ ← rmod (λ r, set_counts r (rp_missing_b r) (rp_mismatch r + 1));
             if repair then rmod (λ r, set_gdt r (wr16 (wr16 (wr16 (rp_gdt r) (o + 12) b.2) (o + 14) i.2) (o + 16) dirs)) else mret tt
           else mret tt);
      mret (totals.1 + b.2, totals.2 + i.2)
  end.

Definition reconcile (repair : bool) : rio (Z * Z) := rfor (seqZ 0 (ly_groups ly)) (reconcile_group repair) (0, 0).

(** The superblock is written and read back. *)
Definition write_super (sb : bytes) (e : rerror) : rio () :=
  or_fail (_ ← rw_write 2 2 sb; verify ← rw_read 2 2; if bool_decide (sb = verify) then mret tt else rfail e) e.

(** [ext2_repair_report_t]. *)
Record report := Report {
  re_blocks : Z; re_inodes : Z; re_directories : Z; re_block_bits : Z; re_inode_bits : Z; re_counters : Z; re_clean : bool
}.

Definition super_differs (sb : bytes) (free : Z * Z) : bool := negb (rd32 sb 12 =? free.1) || negb (rd32 sb 16 =? free.2).

Definition count_super (sb : bytes) (free : Z * Z) : rio () :=
  rmod (λ r, if super_differs sb free then set_counts r (rp_missing_b r) (rp_mismatch r + 1) else r).

(** The superblock while the repair is in progress, and after it. *)
Definition progress_super (sb : bytes) : bytes := wr16 sb 58 (Z.ldiff (rd16 sb 58) VALID_FS).
Definition final_super (sb : bytes) (free : Z * Z) : bytes :=
  let sb := wr32 sb 12 free.1 in
  let sb := wr32 sb 16 free.2 in
  wr16 sb 58 (Z.ldiff (Z.lor (rd16 sb 58) VALID_FS) ERROR_FS).

Definition repair_writes (sb : bytes) : rio (Z * Z) :=
  let sb := progress_super sb in
  _ ← write_super sb CannotMarkProgress;
  _ ← rmod (λ r, set_counts r 0 0);
  free ← reconcile true;
  _ ← count_super sb free;
  r ← rget;
  _ ← write_block 1 (rp_gdt r);
  _ ← write_super (final_super sb free) SuperVerifyFailed;
  mret free.

(** The owners of all blocks. *)
Definition scan : rio () := _ ← mark_metadata; _ ← load_inode_maps; scan_all.

(** Everything after the maps are allocated: whether a repair was needed, and the
    report. *)
Definition check_and_repair (sb : bytes) (repair : bool) : rio (bool * report) :=
  _ ← scan;
  free ← reconcile false;
  _ ← count_super sb free;
  r ← rget;
  let needs := (Z.land (rd16 sb 58) VALID_FS =? 0) || negb (Z.land (rd16 sb 58) ERROR_FS =? 0) ||
               negb (rp_missing_b r =? 0) || negb (rp_missing_i r =? 0) || negb (rp_mismatch r =? 0) in
  free ← (if repair && needs then repair_writes sb else mret free);
  r ← rget;
  mret (needs, Report (ly_blocks ly - free.1) (ly_inodes ly - free.2) (rp_dirs r) (rp_missing_b r) (rp_missing_i r) (rp_mismatch r) (negb needs)).

End Tool.

(** ** The tool *)

Definition supported_fs (sb : bytes) : bool :=
  (rd16 sb 56 =? MAGIC) && (rd32 sb 24 =? 2) && (rd32 sb 20 =? 0) && (Z.ldiff (rd32 sb 96) INCOMPAT_FILETYPE =? 0) &&
  (Z.ldiff (rd32 sb 100) RO_COMPAT_SUPPORTED =? 0) && (Z.land (rd32 sb 92) 4 =? 0).

Definition layout_of (sectors : Z) (sb : bytes) : layout :=
  let blocks := rd32 sb 4 in
  let bpg := rd32 sb 32 in
  let ipg := rd32 sb 40 in
  let isize := rd16 sb 88 in
  Layout sectors blocks (rd32 sb 0) bpg ipg (u32 (blocks + bpg - 1) / bpg) isize (rd32 sb 84) ((ipg * isize + BS - 1) / BS).

Definition layout_ok (ly : layout) : bool :=
  negb ((ly_blocks ly =? 0) || (ly_inodes ly =? 0) || (ly_bpg ly =? 0) || (ly_ipg ly =? 0) || (BS * 8 <? ly_bpg ly) ||
        (BS * 8 <? ly_ipg ly) || (ly_isize ly <? 128) || (BS <? ly_isize ly) || negb (Z.land (ly_isize ly) (ly_isize ly - 1) =? 0) ||
        (ly_first ly <? 2) || (ly_inodes ly <? ly_first ly) || (ly_sectors ly <? ly_blocks ly * SPB)).

Definition groups_ok (ly : layout) : bool :=
  negb ((ly_groups ly =? 0) || (MAX_GROUPS <? ly_groups ly) || (BS <? ly_groups ly * 32) || (ly_groups ly * ly_ipg ly <? ly_inodes ly) ||
        (ly_inodes ly <=? (ly_groups ly - 1) * ly_ipg ly)).

(** [calloc] of a map. *)
Definition new_map (n : Z) : bytes := repeat 0 (Z.to_nat ((n + 7) / 8)).

(** [memory] is whether the allocations succeed. *)
Definition ext2_repair (sectors : Z) (repair memory : bool) : io ((bool * report) + rerror) :=
  let fail e : io ((bool * report) + rerror) := mret (inr e) in
  if (sectors <? 2) || (sectors - 2 <? 2) then fail NotSupportedFs else
  x ← io_read 2 2;
  match x with
  | None => fail NotSupportedFs
  | Some sb =>
      if negb (supported_fs sb) then fail NotSupportedFs else
      let ly := layout_of sectors sb in
      if negb (layout_ok ly) then fail InvalidGeometry else
      if negb (groups_ok ly) then fail GroupTableUnsupported else
      let zero := Repair [] (repeat 0 (Z.to_nat BS)) [] [] [] 0 0 0 0 (repeat 0 (Z.to_nat MAX_GROUPS)) in
      g ← read_block ly 1 zero;
      match g with
      | inr _ => fail GroupTableUnsupported
      | inl (gdt, _) =>
          if negb memory then fail NotEnoughMemory else
          let r := Repair gdt (repeat 0 (Z.to_nat BS)) (new_map (ly_blocks ly)) (new_map (ly_inodes ly)) (new_map (ly_inodes ly)) 0 0 0 0
                     (repeat 0 (Z.to_nat MAX_GROUPS)) in
          x ← check_and_repair ly sb repair r;
          mret (match x with inl (res, _) => inl res | inr e => inr e end)
      end
  end.
