(* ===== verification/Ext2RepairLogic.v ===== *)
(** The program logic for [ext2_repair]: postconditions over the tool's state and
    the disk, a loop rule, and the transfers and bit operations. *)

From S2P Require Import Prelude BlockDev Ext2Disk Ext2Repair.
Local Open Scope Z_scope.

(** * Definitions *)

(** [Q] for a result, [C (Some e)] for an error and [C None] for a power cut. *)
Definition rwp {A} (m : rio A) (Q : A -> repair_t -> device -> Prop) (C : option rerror -> device -> Prop) (r : repair_t) (d : device) : Prop :=
  dwp (m r) (λ x d', match x with inl (a, r') => Q a r' d' | inr e => C (Some e) d' end) (C None) d.

(** What the checks of the superblock establish. *)
Record lay_ok (ly : layout) : Prop := LayOk {
  lo_bpg : 1 <= ly_bpg ly <= 32768;
  lo_ipg : 1 <= ly_ipg ly <= 32768;
  lo_groups : 1 <= ly_groups ly <= 128;
  lo_blocks : (ly_groups ly - 1) * ly_bpg ly < ly_blocks ly <= ly_groups ly * ly_bpg ly;
  lo_inodes : (ly_groups ly - 1) * ly_ipg ly < ly_inodes ly <= ly_groups ly * ly_ipg ly;
  lo_isize : exists k, 7 <= k <= 12 /\ ly_isize ly = 2 ^ k;
  lo_itb : ly_itb ly = (ly_ipg ly * ly_isize ly + 4095) / 4096;
  lo_sectors : ly_blocks ly * 8 <= ly_sectors ly
}.

(** * Rules *)

Section Rules.

Context {A B : Type}.

Implicit Types (r : repair_t) (d : device) (C : option rerror -> device -> Prop).

Lemma rwp_ret (a : A) (Q : A -> repair_t -> device -> Prop) C r d : Q a r d -> rwp (mret a) Q C r d.
Proof. intros H. by apply dwp_ret. Qed.

Lemma rwp_fail e (Q : A -> repair_t -> device -> Prop) C r d : C (Some e) d -> rwp (rfail e) Q C r d.
Proof. intros H. by apply dwp_ret. Qed.

Lemma rwp_bind (m : rio A) (f : A -> rio B) Q C r d :
  rwp m (λ a r' d', rwp (f a) Q C r' d') C r d -> rwp (m ≫= f) Q C r d.
Proof.
  intros H. unfold mbind, rio_bind, rwp. apply dwp_bind. eapply dwp_conseq; [exact H| |done].
  intros [[a r']|e] d' H'; [exact H'|by apply dwp_ret].
Qed.

Lemma rwp_conseq (m : rio A) (Q Q' : A -> repair_t -> device -> Prop) C C' r d :
  rwp m Q C r d -> (forall a r' d', Q a r' d' -> Q' a r' d') -> (forall o d', C o d' -> C' o d') -> rwp m Q' C' r d.
Proof. intros H H1 H2. eapply dwp_conseq; [exact H| |exact (H2 None)]. intros [[a r']|e] d' H'; auto. Qed.

Lemma rwp_get (Q : repair_t -> repair_t -> device -> Prop) C r d : Q r r d -> rwp rget Q C r d.
Proof. intros H. by apply dwp_ret. Qed.

Lemma rwp_mod f (Q : () -> repair_t -> device -> Prop) C r d : Q tt (f r) d -> rwp (rmod f) Q C r d.
Proof. intros H. by apply dwp_ret. Qed.

Lemma rwp_or_fail (m : rio A) e (Q : A -> repair_t -> device -> Prop) C r d :
  rwp m Q (λ o, match o with Some _ => C (Some e) | None => C None end) r d -> rwp (or_fail m e) Q C r d.
Proof.
  intros H. unfold or_fail, rwp. apply dwp_bind. eapply dwp_conseq; [exact H| |done].
  intros [[a r']|e'] d' H'; apply dwp_ret; exact H'.
Qed.

End Rules.

Section Bits.

Implicit Types (r : repair_t) (d : device) (C : option rerror -> device -> Prop) (m : bytes).

Lemma rwp_getbit m n (Q : bool -> repair_t -> device -> Prop) C r d :
  0 <= n < 8 * Z.of_nat (length m) -> Q (bit m n) r d -> rwp (getbit m n) Q C r d.
Proof. intros Hn H. unfold getbit. rewrite (proj2 (Z.leb_le _ _)), (proj2 (Z.ltb_lt _ _)) by lia. by apply rwp_ret. Qed.

Lemma rwp_setbit m n (Q : bytes -> repair_t -> device -> Prop) C r d :
  0 <= n < 8 * Z.of_nat (length m) ->
  (forall m', length m' = length m -> (forall j, 0 <= j -> bit m' j = bit m j || (n =? j)) -> Q m' r d) ->
  rwp (setbit m n) Q C r d.
Proof. intros Hn H. unfold setbit. destruct (set_bit_total m n Hn) as (m' & -> & Hl & Hb). apply rwp_ret. by apply H. Qed.

(** A loop: [I] holds of what is left of the list. *)
Lemma rwp_for {S} (I : list Z -> S -> repair_t -> device -> Prop) (f : Z -> S -> rio S) C l s r d :
  I l s r d -> (forall i l s r d, I (i :: l) s r d -> rwp (f i s) (I l) C r d) -> rwp (rfor l f s) (I []) C r d.
Proof.
  intros H0 Hf. revert s r d H0. induction l as [|i l IH]; intros s r d H0; cbn [rfor]; [by apply rwp_ret|].
  apply rwp_bind. eapply rwp_conseq; [by apply Hf| |done]. intros s' r' d' H'. by apply IH.
Qed.

(** A counted loop. *)
Lemma rwp_range {S} (I : Z -> S -> repair_t -> device -> Prop) (f : Z -> S -> rio S) C n s r d :
  0 <= n -> I 0 s r d -> (forall i s r d, 0 <= i < n -> I i s r d -> rwp (f i s) (I (i + 1)) C r d) -> rwp (rfor (seqZ 0 n) f s) (I n) C r d.
Proof.
  intros Hn H0 Hf. eapply rwp_conseq.
  - apply (rwp_for (λ l s r d, exists k, 0 <= k <= n /\ l = seqZ k (n - k) /\ I k s r d)); [exists 0; by rewrite Z.sub_0_r|].
    cbn beta. intros i l s' r' d' (k & Hk & El & Hi). destruct (decide (k < n)) as [Hlt|Hge].
    2:{ replace (n - k) with 0 in El by lia. done. }
    rewrite seqZ_cons in El by lia. injection El as -> ->. eapply rwp_conseq; [apply Hf; [lia|done]| |done].
    cbn beta. intros s2 r2 d2 H2. exists (k + 1). split; [lia|]. split; [|done]. f_equal; lia.
  - cbn beta. intros s' r' d' (k & Hk & El & Hi). destruct (decide (k < n)); [rewrite seqZ_cons in El by lia; done|]. by replace n with k by lia.
  - done.
Qed.

End Bits.
