(* ===== verification/Ext2RepairScan.v ===== *)
(** The read-only part of [ext2_repair]: which blocks the metadata and the inodes
    own, and that the scan marks each of them once.

    [owned] lists the blocks of an inode, [meta] those of a group; [marks r r' l]
    says that the blocks [l] were free of owners in [r] and are the ones added in
    [r']. *)

From S2P Require Import Prelude BlockDev Ext2Disk Ext2Repair Ext2RepairLogic.
Local Open Scope Z_scope.

(** * Definitions *)

Section Disk.

Context (ly : layout) (d : device).

Definition gdesc (g : Z) : nat := (Z.to_nat g * DESC_SIZE)%nat.
Definition bb_of (g : Z) : Z := rd32 (blk d 1) (gdesc g).
Definition ib_of (g : Z) : Z := rd32 (blk d 1) (gdesc g + 4).
Definition it_of (g : Z) : Z := rd32 (blk d 1) (gdesc g + 8).

(** The metadata of a group: what lies before its bitmaps, the bitmaps, and the
    inode table. *)
Definition meta (g : Z) : list Z :=
  let start := group_start ly g in
  seqZ start (Z.min (Z.min (bb_of g) (ib_of g)) (it_of g) - start) ++ [bb_of g; ib_of g] ++ seqZ (it_of g) (ly_itb ly).

(** An inode of the disk. *)
Definition inode_block (ino : Z) : Z :=
  u32 (it_of ((ino - 1) / ly_ipg ly) + ((ino - 1) mod ly_ipg ly * ly_isize ly) / BS).
Definition inode_at (ino : Z) : bytes :=
  slice (Z.to_nat (((ino - 1) mod ly_ipg ly * ly_isize ly) mod BS)) 128 (blk d (inode_block ino)).

Definition nonzero (l : list Z) : list Z := List.filter (λ p, negb (p =? 0)) l.

(** The pointers of a block, and what they lead to. *)
Definition pointers (b : Z) : list Z := nonzero ((λ i, rd32 (blk d b) (Z.to_nat (i * 4))) <$> seqZ 0 1024).
Definition owned_single (b : Z) : list Z := if b =? 0 then [] else b :: pointers b.
Definition owned_double (b : Z) : list Z := if b =? 0 then [] else b :: concat (owned_single <$> pointers b).
Definition direct (in_ : bytes) : list Z := nonzero ((λ i, rd32 in_ (Z.to_nat (40 + i * 4))) <$> seqZ 0 12).

(** The inodes whose blocks are looked at: not the reserved ones, and of a type
    with blocks. *)
Definition tracked (ino : Z) : bool :=
  let mode := Z.land (rd16 (inode_at ino) 0) S_IFMT in
  negb ((ino <? ly_first ly) && negb (ino =? 2)) &&
  ((mode =? S_IFREG) || (mode =? S_IFDIR) || ((mode =? S_IFLNK) && negb (rd32 (inode_at ino) 28 =? 0))).

Definition owned (ino : Z) : list Z :=
  if tracked ino then direct (inode_at ino) ++ owned_single (rd32 (inode_at ino) 88) ++ owned_double (rd32 (inode_at ino) 92) else [].

(** ** Invariants *)

Record ro_inv (r : repair_t) : Prop := RoInv {
  ri_gdt : rp_gdt r = blk d 1;
  ri_block : length (rp_block r) = BLOCK;
  ri_bytes : Forall is_byte (rp_block r);
  ri_refs : ly_blocks ly <= 8 * Z.of_nat (length (rp_refs r));
  ri_alloc : ly_inodes ly <= 8 * Z.of_nat (length (rp_alloc r));
  ri_scanned : ly_inodes ly <= 8 * Z.of_nat (length (rp_scanned r));
  ri_dpg : length (rp_dpg r) = Z.to_nat MAX_GROUPS;
  ri_counts : 0 <= rp_missing_b r /\ 0 <= rp_mismatch r
}.

Record marks (r r' : repair_t) (l : list Z) : Prop := Marks {
  mk_nodup : NoDup l;
  mk_fresh : Forall (λ b, 0 <= b < ly_blocks ly /\ bit (rp_refs r) b = false) l;
  mk_bits : forall j, 0 <= j -> bit (rp_refs r') j = bit (rp_refs r) j || bool_decide (j ∈ l)
}.

(** Allocations are only added, each counted. *)
Record grows (r r' : repair_t) : Prop := Grows {
  gr_scanned : rp_scanned r' = rp_scanned r;
  gr_alloc : forall j, 0 <= j -> bit (rp_alloc r) j = true -> bit (rp_alloc r') j = true;
  gr_missing : rp_missing_i r <= rp_missing_i r';
  gr_same : rp_missing_i r' = rp_missing_i r -> rp_alloc r' = rp_alloc r
}.

(** Nothing was written, and the loop bounds were enough. *)
Definition roc (o : option rerror) (d' : device) : Prop := d' = d /\ o <> Some OutOfFuel.

(** A read-only step from [r] that marks [l]. *)
Definition ro_at {A} (r : repair_t) (m : rio A) (l : list Z) (R : A -> Prop) : Prop :=
  rwp m (λ a r' d', d' = d /\ ro_inv r' /\ marks r r' l /\ grows r r' /\ R a) roc r d.

Definition ro {A} (m : rio A) (l : list Z) (R : A -> Prop) : Prop := forall r, ro_inv r -> ro_at r m l R.

End Disk.

(** * Rules *)

Section Scan.

Context (ly : layout) (Hly : lay_ok ly) (d : device) (Hd : dev_ok d).

Implicit Types (r : repair_t) (l : list Z).

Lemma marks_refl r : marks ly r r [].
Proof. split; [constructor|constructor|]. intros j Hj. by rewrite bool_decide_false, orb_false_r by apply not_elem_of_nil. Qed.

Lemma marks_trans r r1 r2 l1 l2 : marks ly r r1 l1 -> marks ly r1 r2 l2 -> marks ly r r2 (l1 ++ l2).
Proof.
  intros [N1 F1 B1] [N2 F2 B2]. rewrite Forall_forall in *. assert (Hdis : forall b, b ∈ l2 -> bit (rp_refs r) b = false /\ b ∉ l1).
  { intros b Hb. destruct (F2 b Hb) as [Hr Hf]. rewrite B1 in Hf by lia. apply orb_false_iff in Hf as [Hf Hn]. split; [done|]. by apply bool_decide_eq_false in Hn. }
  split.
  - apply NoDup_app. split; [done|]. split; [|done]. intros b H1 H2. by apply Hdis in H2 as [_ ?].
  - apply Forall_forall. intros b [Hb|Hb]%elem_of_app; [by apply F1|]. split; [by apply F2|by apply Hdis].
  - intros j Hj. rewrite B2, B1 by done. rewrite <- orb_assoc. f_equal. apply eq_true_iff_eq. rewrite orb_true_iff, !bool_decide_eq_true, elem_of_app. done.
Qed.

Lemma grows_refl r : grows r r.
Proof. by split. Qed.

Lemma grows_trans r r1 r2 : grows r r1 -> grows r1 r2 -> grows r r2.
Proof.
  intros [S1 A1 M1 E1] [S2 A2 M2 E2]. split; [congruence|auto|lia|]. intros E. rewrite E2, E1; [done|lia|lia].
Qed.

Lemma ro_at_ret {A} r (a : A) (R : A -> Prop) : ro_inv ly d r -> R a -> ro_at ly d r (mret a) [] R.
Proof. intros Hr Ha. apply rwp_ret. split; [done|]. split; [done|]. split; [apply marks_refl|]. split; [apply grows_refl|done]. Qed.

Lemma ro_ret {A} (a : A) (R : A -> Prop) : R a -> ro ly d (mret a) [] R.
Proof. intros Ha r Hr. by apply ro_at_ret. Qed.

Lemma ro_at_fail {A} r e l (R : A -> Prop) : e <> OutOfFuel -> ro_at ly d r (rfail e) l R.
Proof. intros He. apply rwp_fail. split; [done|congruence]. Qed.

Lemma ro_fail {A} e l (R : A -> Prop) : e <> OutOfFuel -> ro ly d (rfail e) l R.
Proof. intros He r _. by apply ro_at_fail. Qed.

Lemma ro_at_bind {A B} r (m : rio A) (f : A -> rio B) l1 l2 R1 R2 :
  ro_at ly d r m l1 R1 -> (forall a, R1 a -> ro ly d (f a) l2 R2) -> ro_at ly d r (m ≫= f) (l1 ++ l2) R2.
Proof.
  intros H1 H2. apply rwp_bind. eapply rwp_conseq; [exact H1| |done]. intros a r1 d1 (-> & I1 & M1 & G1 & Ha).
  eapply rwp_conseq; [by apply H2| |done]. intros b r2 d2 (-> & I2 & M2 & G2 & Hb). split; [done|]. split; [done|].
  split; [by eapply marks_trans|]. split; [by eapply grows_trans|done].
Qed.

Lemma ro_bind {A B} (m : rio A) (f : A -> rio B) l1 l2 R1 R2 :
  ro ly d m l1 R1 -> (forall a, R1 a -> ro ly d (f a) l2 R2) -> ro ly d (m ≫= f) (l1 ++ l2) R2.
Proof. intros H1 H2 r Hr. eapply ro_at_bind; [by apply H1|exact H2]. Qed.

(** A step that marks nothing. *)
Lemma ro_step {A B} (m : rio A) (f : A -> rio B) l R1 R2 :
  ro ly d m [] R1 -> (forall a, R1 a -> ro ly d (f a) l R2) -> ro ly d (m ≫= f) l R2.
Proof. apply (ro_bind m f []). Qed.

(** A last step that marks nothing. *)
Lemma ro_last {A B} (m : rio A) (f : A -> rio B) l R1 R2 :
  ro ly d m l R1 -> (forall a, R1 a -> ro ly d (f a) [] R2) -> ro ly d (m ≫= f) l R2.
Proof. intros H1 H2. rewrite <- (app_nil_r l). by eapply ro_bind. Qed.

Lemma ro_get {B} (f : repair_t -> rio B) l R : (forall r, ro_inv ly d r -> ro_at ly d r (f r) l R) -> ro ly d (rget ≫= f) l R.
Proof. intros H r Hr. apply rwp_bind, rwp_get. by apply H. Qed.

Lemma ro_conseq {A} (m : rio A) l (R R' : A -> Prop) : ro ly d m l R -> (forall a, R a -> R' a) -> ro ly d m l R'.
Proof. intros H HR r Hr. eapply rwp_conseq; [by apply H| |done]. intros a r' d' (? & ? & ? & ? & ?). auto 10. Qed.

Lemma ro_or_fail {A} (m : rio A) e l R : e <> OutOfFuel -> ro ly d m l R -> ro ly d (or_fail m e) l R.
Proof.
  intros He H r Hr. apply rwp_or_fail. eapply rwp_conseq; [by apply H|done|]. intros [e'|] d' [-> _]; split; congruence.
Qed.

(** A loop whose rounds mark [own i]. *)
Lemma ro_for {S} (f : Z -> S -> rio S) (own : Z -> list Z) (R : S -> Prop) xs s :
  R s -> (forall i s, i ∈ xs -> R s -> ro ly d (f i s) (own i) R) -> ro ly d (rfor xs f s) (concat (own <$> xs)) R.
Proof.
  revert s. induction xs as [|i xs IH]; intros s Hs Hf; cbn [rfor fmap list_fmap concat]; [by apply ro_ret|].
  eapply ro_bind; [apply Hf; [left|done]|]. intros s' Hs'. apply IH; [done|]. intros j s'' Hj. apply Hf. by right.
Qed.

(** Facts the rounds establish. *)
Lemma ro_for_facts {S} (f : Z -> S -> rio S) (own : Z -> list Z) (P : Z -> Prop) xs s :
  (forall i s, i ∈ xs -> ro ly d (f i s) (own i) (λ _, P i)) -> ro ly d (rfor xs f s) (concat (own <$> xs)) (λ _, Forall P xs).
Proof.
  revert s. induction xs as [|i xs IH]; intros s Hf; cbn [rfor fmap list_fmap concat]; [by apply ro_ret|].
  eapply ro_bind; [apply Hf; left|]. cbn beta. intros s' Hi. eapply ro_conseq; [apply IH|by constructor]. intros j s'' Hj. apply Hf. by right.
Qed.

Lemma ro_for_nil {S} (f : Z -> S -> rio S) (R : S -> Prop) xs s :
  R s -> (forall i s, i ∈ xs -> R s -> ro ly d (f i s) [] R) -> ro ly d (rfor xs f s) [] R.
Proof.
  intros Hs Hf. pose proof (ro_for f (λ _, []) R xs s Hs Hf) as H. replace (concat ((λ _, []) <$> xs)) with (@nil Z) in H; [done|].
  clear. induction xs; done.
Qed.

(** * Transfers *)

Lemma rwp_read_block b (Q : bytes -> repair_t -> device -> Prop) r :
  (b < ly_blocks ly -> Q (blk d b) r d) -> rwp (read_block ly b) Q (roc d) r d.
Proof.
  intros HQ. unfold read_block. destruct (ly_blocks ly <=? b) eqn:E; [apply rwp_fail; split; [done|congruence]|]. boolify.
  unfold rw_read, rwp. destruct (outside _ _ _); [apply dwp_ret; split; [done|congruence]|].
  apply dwp_bind, dwp_read; [apply dwp_ret|apply dwp_ret; split; [done|congruence]|split; [done|congruence]].
  change (dev_read d (b * SPB * SECTOR_SIZE) _) with (dev_read d (b * SPB * SECTOR_SIZE) BLOCK). rewrite <- Z.mul_assoc. by apply HQ.
Qed.

Lemma rwp_load_block b (Q : () -> repair_t -> device -> Prop) r :
  (b < ly_blocks ly -> Q tt (set_block r (blk d b)) d) -> rwp (load_block ly b) Q (roc d) r d.
Proof. intros HQ. unfold load_block. apply rwp_bind, rwp_read_block. intros Hb. apply rwp_mod. by apply HQ. Qed.

Lemma inv_set_block r b : ro_inv ly d r -> ro_inv ly d (set_block r (blk d b)).
Proof. intros []. split; [done|apply blk_length|by apply dev_read_bytes|done..]. Qed.

Lemma ro_at_set {A} r r' (m : rio A) l R :
  rp_refs r' = rp_refs r -> rp_scanned r' = rp_scanned r -> rp_alloc r' = rp_alloc r -> rp_missing_i r' = rp_missing_i r ->
  ro_at ly d r' m l R -> rwp m (λ a r2 d', d' = d /\ ro_inv ly d r2 /\ marks ly r r2 l /\ grows r r2 /\ R a) (roc d) r' d.
Proof.
  intros E1 E2 E3 E4 H. eapply rwp_conseq; [exact H| |done]. intros a r2 d' (H1 & H2 & [M1 M2 M3] & [G1 G2 G3 G4] & H5).
  split; [done|]. split; [done|]. rewrite E1 in *. rewrite E2, E3, E4 in *. split; [by split|]. split; [by split|done].
Qed.

Lemma ro_read_block b : ro ly d (read_block ly b) [] (λ buf, buf = blk d b).
Proof.
  intros r Hr. apply rwp_read_block. intros _. split; [done|]. split; [done|]. split; [apply marks_refl|]. split; [apply grows_refl|done].
Qed.

Lemma ro_load_block b : ro ly d (load_block ly b) [] (λ _, True).
Proof.
  intros r Hr. apply rwp_load_block. intros _. split; [done|]. split; [by apply inv_set_block|]. split; [|split; [by split|done]].
  split; [constructor|constructor|]. intros j Hj. by rewrite bool_decide_false, orb_false_r by apply not_elem_of_nil.
Qed.

(** * Ownership *)

Lemma ro_mark_block b : 0 <= b -> ro ly d (mark_block ly b) [b] (λ _, True).
Proof.
  intros Hb. unfold mark_block. destruct (ly_blocks ly <=? b) eqn:E; [by apply ro_fail|]. boolify. apply ro_get. intros r Hr.
  pose proof (ri_refs _ _ _ Hr) as Hl. apply rwp_bind, rwp_getbit; [lia|].
  destruct (bit (rp_refs r) b) eqn:Eb; [by apply ro_at_fail|]. apply rwp_bind, rwp_setbit; [lia|]. intros m Hm Hbits. apply rwp_mod.
  split; [done|]. split; [destruct Hr; split; cbn; lia || done|]. split; [|split; [by split|done]]. split.
  - apply NoDup_singleton.
  - constructor; [|done]. split; [lia|done].
  - intros j Hj. cbn. rewrite Hbits by done. f_equal. apply eq_true_iff_eq. rewrite Z.eqb_eq, bool_decide_eq_true, list_elem_of_singleton. split; congruence.
Qed.

Lemma concat_singles (l : list Z) : concat ((λ b, [b]) <$> l) = l.
Proof. induction l as [|b l IH]; [done|]. cbn. by rewrite IH. Qed.

Lemma ro_mark_run l : Forall (λ b, 0 <= b) l -> ro ly d (mark_run ly l) l (λ _, True).
Proof.
  intros Hl. unfold mark_run. rewrite <- (concat_singles l) at 2. apply ro_for; [done|]. intros b _ Hb _. apply ro_mark_block.
  rewrite Forall_forall in Hl. by apply Hl.
Qed.

Lemma gdt_field off : 0 <= rd32 (blk d 1) off < 2 ^ 32.
Proof. by apply rd32_range, dev_read_bytes. Qed.

Lemma start_pos g : 0 <= g -> 0 <= group_start ly g.
Proof. intros Hg. pose proof (lo_bpg _ Hly). unfold group_start. nia. Qed.

(** A descriptor that passed. *)
Definition desc_ok (g : Z) : Prop :=
  group_start ly g <= bb_of d g < group_end ly g /\ group_start ly g <= ib_of d g < group_end ly g /\
  group_start ly g <= it_of d g /\ it_of d g + ly_itb ly <= group_end ly g.

Lemma ro_mark_group g : 0 <= g -> ro ly d (mark_group ly g) (meta ly d g) (λ _, desc_ok g).
Proof.
  intros Hg. unfold mark_group. apply ro_get. intros r Hr. rewrite (ri_gdt _ _ _ Hr). fold (gdesc g). fold (bb_of d g) (ib_of d g) (it_of d g).
  destruct (_ || _) eqn:E; [by apply ro_at_fail|]. rewrite !orb_false_iff in E. destruct_and!. boolify. pose proof (start_pos g Hg) as Hs.
  assert (Hok : desc_ok g) by (unfold desc_ok; lia). unfold meta.
  assert (Hmin : 0 <= Z.min (Z.min (bb_of d g) (ib_of d g)) (it_of d g)) by lia.
  eapply ro_at_bind; [apply ro_mark_run; [|done]|].
  { apply Forall_forall. intros b Hb%elem_of_seqZ. lia. }
  intros _ _. apply (ro_bind _ _ [bb_of d g] (ib_of d g :: _) (λ _, True)); [apply ro_mark_block; lia|]. intros _ _.
  apply (ro_bind _ _ [ib_of d g] _ (λ _, True)); [apply ro_mark_block; lia|]. intros _ _.
  eapply ro_conseq; [apply ro_mark_run|done]. apply Forall_forall. intros b Hb%elem_of_seqZ. lia.
Qed.

Lemma ro_mark_metadata : ro ly d (mark_metadata ly) (concat (meta ly d <$> seqZ 0 (ly_groups ly))) (λ _, Forall desc_ok (seqZ 0 (ly_groups ly))).
Proof. apply ro_for_facts. intros g _ Hg%elem_of_seqZ. apply ro_mark_group. lia. Qed.

(** * Inodes and directories *)

Lemma ro_read_inode ino : 0 <= ino -> ro ly d (read_inode ly ino) [] (λ in_, 1 <= ino <= ly_inodes ly /\ in_ = inode_at ly d ino).
Proof.
  intros Hi. unfold read_inode. destruct (_ || _) eqn:E; [by apply ro_fail|]. apply orb_false_iff in E as [E1 E2]. boolify.
  apply ro_get. intros r Hr. rewrite (ri_gdt _ _ _ Hr). fold (gdesc ((ino - 1) / ly_ipg ly)). fold (it_of d ((ino - 1) / ly_ipg ly)). fold (inode_block ly d ino).
  destruct (BS <? _); [by apply ro_at_fail|]. apply rwp_bind, rwp_load_block. intros _. apply rwp_bind, rwp_get. apply ro_at_set with (r' := set_block r _); try done.
  apply ro_at_ret; [by apply inv_set_block|]. split; [lia|done].
Qed.

Lemma ro_parse_entry off : 0 <= off < BS -> ro ly d (parse_entry ly off) [] (λ off', off + 8 <= off' <= BS).
Proof.
  intros Ho. unfold parse_entry. destruct (BS - off <? 8) eqn:E1; [by apply ro_fail|]. boolify. apply ro_get. intros r Hr. cbv zeta.
  set (ino := rd32 _ _). set (rec := rd16 _ _). set (namesz := byte_at _ _).
  pose proof (rd32_range (rp_block r) (Z.to_nat off) (ri_bytes _ _ _ Hr)) as Hino. fold ino in Hino. clearbody ino rec namesz.
  destruct (_ || _) eqn:E2; [by apply ro_at_fail|]. rewrite !orb_false_iff in E2. destruct_and!. boolify.
  assert (Hret : forall r, ro_inv ly d r -> ro_at ly d r (mret (off + rec)) [] (λ off', off + 8 <= off' <= BS)) by (intros r' Hr'; apply ro_at_ret; [done|lia]).
  destruct (Z.eqb_spec ino 0); [by apply Hret|]. destruct (ly_inodes ly <? ino) eqn:E3; [by apply ro_at_fail|]. boolify.
  pose proof (ri_alloc _ _ _ Hr) as Ha. apply rwp_bind, rwp_getbit; [lia|]. destruct (bit (rp_alloc r) (ino - 1)); [by apply Hret|].
  assert (Hin : ro ly d (or_fail (read_inode ly ino) Uninitialized) [] (λ in_, 1 <= ino <= ly_inodes ly /\ in_ = inode_at ly d ino)).
  { apply ro_or_fail; [done|]. apply ro_read_inode. lia. }
  apply (ro_at_bind r _ _ [] [] _ _ (Hin r Hr)). intros in_ _. destruct (_ =? 0); [by apply ro_fail|]. apply ro_get. intros r1 Hr1.
  pose proof (ri_alloc _ _ _ Hr1) as Ha1. apply rwp_bind, rwp_setbit; [lia|]. intros m Hm Hbits. apply rwp_bind, rwp_mod, rwp_ret.
  split; [done|]. split; [destruct Hr1; split; cbn; lia || done|]. split; [split; [constructor|constructor|]|].
  - intros j Hj. by rewrite bool_decide_false, orb_false_r by apply not_elem_of_nil.
  - split; [|lia]. split; [done| |cbn; lia|cbn; lia]. intros j Hj Hb. cbn. by rewrite Hbits, Hb.
Qed.

Lemma ro_parse_loop fuel off : 0 <= off <= BS -> BS - off < 8 * Z.of_nat fuel -> ro ly d (parse_loop ly fuel off) [] (λ _, True).
Proof.
  revert off. induction fuel as [|fuel IH]; intros off Ho Hf; [lia|]. cbn [parse_loop]. destruct (off <? BS) eqn:E; boolify; [|by apply ro_ret].
  eapply ro_step; [apply ro_parse_entry; lia|]. cbn beta. intros off' Ho'. apply IH; lia.
Qed.

Lemma ro_parse_dir_block : ro ly d (parse_dir_block ly) [] (λ _, True).
Proof. apply ro_parse_loop; unfold BS; lia. Qed.

Lemma ro_data_block b dir n : 0 <= b -> ro ly d (data_block ly b dir n) (nonzero [b]) (λ _, True).
Proof.
  intros Hb. unfold data_block, nonzero. cbn [List.filter]. destruct (Z.eqb_spec b 0) as [->|E]; cbn [negb].
  { destruct (_ && _); [by apply ro_fail|by apply ro_ret]. }
  eapply ro_last; [by apply ro_mark_block|]. intros _ _. destruct (_ && _); [|by apply ro_ret].
  eapply ro_step; [apply ro_load_block|]. intros _ _. eapply ro_step; [apply ro_parse_dir_block|]. intros _ _. by apply ro_ret.
Qed.

Lemma pointer_range b i : 0 <= rd32 (blk d b) i.
Proof. by apply rd32_range, dev_read_bytes. Qed.

Lemma nonzero_concat (f : Z -> Z) l : concat ((λ i, nonzero [f i]) <$> l) = nonzero (f <$> l).
Proof. induction l as [|i l IH]; [done|]. rewrite !fmap_cons. cbn [concat]. rewrite IH. unfold nonzero. cbn [List.filter]. by destruct (negb (f i =? 0)). Qed.

Lemma owned_concat (f : Z -> Z) (own : Z -> list Z) l : own 0 = [] -> concat ((λ i, own (f i)) <$> l) = concat (own <$> nonzero (f <$> l)).
Proof.
  intros H0. induction l as [|i l IH]; [done|]. rewrite !fmap_cons. cbn [concat]. rewrite IH. unfold nonzero. cbn [List.filter]. destruct (Z.eqb_spec (f i) 0) as [E|E]; [by rewrite E, H0|done].
Qed.

Lemma ro_indirect_1 b dir n : 0 <= b -> ro ly d (indirect ly 1 b dir n) (owned_single d b) (λ _, True).
Proof.
  intros Hb. cbn [indirect]. unfold owned_single. destruct (Z.eqb_spec b 0); [by apply ro_ret|].
  change (2 <? 1)%nat with false. cbn iota. apply (ro_bind _ _ [b] _ (λ _, True)); [by apply ro_mark_block|]. intros _ _.
  eapply ro_step; [apply ro_read_block|]. cbn beta. intros p ->. change (BS / 4) with 1024. unfold pointers. rewrite <- nonzero_concat.
  apply ro_for; [done|]. intros i m _ _. cbv zeta. pose proof (pointer_range b (Z.to_nat (i * 4))). set (x := rd32 _ _) in *.
  destruct (Z.eqb_spec x 0) as [E|E]; [|by apply ro_data_block]. unfold nonzero. cbn. rewrite E. by apply ro_ret.
Qed.

Lemma indirect_2 b dir n : indirect ly 2 b dir n =
  if b =? 0 then mret n else
  _ ← mark_block ly b;
  ps ← read_block ly b;
  rfor (seqZ 0 (BS / 4)) (λ i n, let p := rd32 ps (Z.to_nat (i * 4)) in if p =? 0 then mret n else indirect ly 1 p dir n) n.
Proof. reflexivity. Qed.

Lemma ro_indirect_2 b dir n : 0 <= b -> ro ly d (indirect ly 2 b dir n) (owned_double d b) (λ _, True).
Proof.
  intros Hb. rewrite indirect_2. unfold owned_double. destruct (Z.eqb_spec b 0); [by apply ro_ret|].
  apply (ro_bind _ _ [b] _ (λ _, True)); [by apply ro_mark_block|]. intros _ _.
  eapply ro_step; [apply ro_read_block|]. cbn beta. intros p ->. change (BS / 4) with 1024. unfold pointers at 1.
  rewrite <- (owned_concat (λ i, rd32 (blk d b) (Z.to_nat (i * 4))) (owned_single d)) by done.
  apply ro_for; [done|]. intros i m _ _. cbv zeta. pose proof (pointer_range b (Z.to_nat (i * 4))). set (x := rd32 _ _) in *.
  destruct (Z.eqb_spec x 0) as [E|E]; [|by apply ro_indirect_1]. rewrite E. by apply ro_ret.
Qed.

Lemma inode_bytes ino : Forall is_byte (inode_at ly d ino).
Proof. by apply slice_bytes, dev_read_bytes. Qed.

(** The blocks of an inode. *)
Lemma ro_scan_blocks in_ ino dir n :
  1 <= ino <= ly_inodes ly -> Forall is_byte in_ ->
  ro ly d (r ← rget;
    _ ← (if (dir : bool) then
           match rp_dpg r !! Z.to_nat ((ino - 1) / ly_ipg ly) with
           | Some k => rmod (λ r, set_dpg r (<[Z.to_nat ((ino - 1) / ly_ipg ly) := k + 1]> (rp_dpg r)))
           | None => roob
           end
         else mret tt);
    n ← rfor (seqZ 0 12) (λ i n, data_block ly (rd32 in_ (Z.to_nat (40 + i * 4))) dir n) n;
    n ← indirect ly 1 (rd32 in_ 88) dir n;
    n ← indirect ly 2 (rd32 in_ 92) dir n;
    if negb (rd32 in_ 96 =? 0) then rfail TripleIndirect else
    if dir && negb (n =? 0) then rfail DirectoryTooLarge else mret tt)
    (direct in_ ++ owned_single d (rd32 in_ 88) ++ owned_double d (rd32 in_ 92)) (λ _, True).
Proof.
  intros Hi Hb. assert (Hp : forall o, 0 <= rd32 in_ o) by (intros o; by apply rd32_range). apply ro_get. intros r Hr.
  apply (ro_at_bind r _ _ [] _ (λ _, True)).
  - destruct dir; [|by apply ro_at_ret]. destruct (lookup_lt_is_Some_2 (rp_dpg r) (Z.to_nat ((ino - 1) / ly_ipg ly))) as [k ->].
    { rewrite (ri_dpg _ _ _ Hr). unfold MAX_GROUPS. pose proof (lo_groups _ Hly). pose proof (lo_ipg _ Hly). pose proof (lo_inodes _ Hly).
      assert ((ino - 1) / ly_ipg ly < 128) by (apply Z.div_lt_upper_bound; nia). pose proof (Z.div_pos (ino - 1) (ly_ipg ly)). lia. }
    apply rwp_mod. split; [done|]. split; [destruct Hr; split; cbn; rewrite ?length_insert; done|].
    split; [split; [constructor|constructor|]|split; [by split|done]]. intros j Hj. by rewrite bool_decide_false, orb_false_r by apply not_elem_of_nil.
  - intros _ _. eapply ro_bind.
    { unfold direct. rewrite <- nonzero_concat. apply (ro_for _ (λ i, nonzero [rd32 in_ (Z.to_nat (40 + i * 4))]) (λ _, True)); [done|]. intros i m _ _. by apply ro_data_block. }
    intros m _. eapply ro_bind; [by apply ro_indirect_1|]. intros m2 _. eapply ro_last; [by apply ro_indirect_2|]. intros m3 _.
    destruct (negb _); [by apply ro_fail|]. destruct (_ && _); [by apply ro_fail|by apply ro_ret].
Qed.

Lemma ro_scan_inode ino : 1 <= ino <= ly_inodes ly -> ro ly d (scan_inode ly ino) (owned ly d ino) (λ _, True).
Proof.
  intros Hi. unfold scan_inode. eapply ro_step; [apply ro_read_inode; lia|]. cbn beta. intros in_ [_ ->]. unfold owned, tracked. cbv zeta.
  set (in_ := inode_at ly d ino). set (mode := Z.land (rd16 in_ 0) S_IFMT). set (reserved := (ino <? ly_first ly) && _).
  destruct reserved; cbn [negb andb]; [destruct (mode =? 0); by apply ro_ret|].
  destruct (Z.eqb_spec mode 0) as [E0|E0]; [rewrite E0; by apply ro_fail|].
  assert (Hblocks : forall dir n, ro ly d _ _ (λ _, True)) by (intros dir n; exact (ro_scan_blocks in_ ino dir n Hi (inode_bytes ino))).
  destruct (mode =? S_IFREG) eqn:Er, (mode =? S_IFDIR) eqn:Ed, (mode =? S_IFLNK) eqn:El; cbn [negb andb orb]; try (by apply ro_ret);
    try (exfalso; boolify; unfold S_IFREG, S_IFDIR, S_IFLNK in *; lia).
  - exact (Hblocks false 0).
  - exact (Hblocks true (rd32 in_ 4)).
  - destruct (rd32 in_ 28 =? 0); cbn [negb]; [by apply ro_ret|]. exact (Hblocks false 0).
Qed.

(** * The inode bitmaps *)

(** Inode [i + 1] is marked in its bitmap. *)
Definition marked (i : Z) : bool := bit (blk d (ib_of d (i / ly_ipg ly))) (i mod ly_ipg ly).

(** Only the allocation map and the buffer change. *)
Record loads (r r' : repair_t) : Prop := Loads {
  ld_inv : ro_inv ly d r';
  ld_refs : rp_refs r' = rp_refs r;
  ld_scanned : rp_scanned r' = rp_scanned r;
  ld_missing : rp_missing_i r' = rp_missing_i r
}.

Lemma loads_trans r r1 r2 : loads r r1 -> loads r1 r2 -> loads r r2.
Proof. intros [] []. split; congruence || done. Qed.

Lemma group_inodes_range g : 0 <= g < ly_groups ly -> 0 < group_inodes ly g <= ly_ipg ly /\ g * ly_ipg ly + group_inodes ly g <= ly_inodes ly.
Proof. intros Hg. destruct Hly. unfold group_inodes. nia. Qed.

Lemma marked_in g i : 0 <= g < ly_groups ly -> 0 <= i < ly_ipg ly -> marked (g * ly_ipg ly + i) = bit (blk d (ib_of d g)) i.
Proof.
  intros Hg Hi. unfold marked. pose proof (lo_ipg _ Hly).
  rewrite (Z.div_add_l g (ly_ipg ly) i), Z.div_small, Z.add_0_r by lia. by rewrite Z.add_comm, Z.mod_add, Z.mod_small by lia.
Qed.

Lemma rwp_load_inode_map g r :
  0 <= g < ly_groups ly -> ro_inv ly d r ->
  rwp (load_inode_map ly g) (λ _ r' d', d' = d /\ loads r r' /\ forall j, 0 <= j ->
     bit (rp_alloc r') j = bit (rp_alloc r) j || ((g * ly_ipg ly <=? j) && (j <? g * ly_ipg ly + group_inodes ly g) && marked j)) (roc d) r d.
Proof.
  intros Hg Hr. destruct (group_inodes_range g Hg) as [Hn Hle]. pose proof (lo_ipg _ Hly) as Hipg. unfold load_inode_map.
  apply rwp_bind, rwp_get. rewrite (ri_gdt _ _ _ Hr). fold (gdesc g). fold (ib_of d g). apply rwp_bind, rwp_load_block. intros _.
  eapply rwp_conseq; [apply (rwp_range (λ i _ r' d', d' = d /\ loads r r' /\ rp_block r' = blk d (ib_of d g) /\ forall j, 0 <= j ->
     bit (rp_alloc r') j = bit (rp_alloc r) j || ((g * ly_ipg ly <=? j) && (j <? g * ly_ipg ly + i) && marked j)))| |done].
  - lia.
  - split; [done|]. split; [split; [by apply inv_set_block|done..]|]. split; [done|]. intros j Hj. cbn [set_block rp_alloc].
    destruct (Z.leb_spec (g * ly_ipg ly) j), (Z.ltb_spec j (g * ly_ipg ly + 0)); cbn; rewrite ?orb_false_r; done || lia.
  - intros i _ r1 d1 Hi (-> & HL & Hb & Hbits). apply rwp_bind, rwp_get. rewrite Hb.
    apply rwp_bind, rwp_getbit; [rewrite blk_length, bits_of_block; lia|]. rewrite <- (marked_in g i Hg) by lia.
    pose proof (ri_alloc _ _ _ (ld_inv _ _ HL)) as Ha.
    assert (Hnew : forall j b, 0 <= j -> b = bit (rp_alloc r1) j || ((g * ly_ipg ly + i =? j) && marked j) ->
      b = bit (rp_alloc r) j || ((g * ly_ipg ly <=? j) && (j <? g * ly_ipg ly + (i + 1)) && marked j)).
    { intros j b Hj ->. rewrite Hbits by done. rewrite <- orb_assoc. f_equal.
      destruct (Z.leb_spec (g * ly_ipg ly) j), (Z.ltb_spec j (g * ly_ipg ly + i)), (Z.ltb_spec j (g * ly_ipg ly + (i + 1))), (Z.eqb_spec (g * ly_ipg ly + i) j);
        cbn; rewrite ?orb_false_r; done || lia. }
    destruct (marked (g * ly_ipg ly + i)) eqn:Em.
    + apply rwp_bind, rwp_setbit; [lia|]. intros m Hm Hmb. apply rwp_mod. split; [done|].
      split; [eapply loads_trans; [exact HL|]; split; [destruct (ld_inv _ _ HL); split; cbn; lia || done|done..]|]. split; [done|].
      intros j Hj. apply Hnew; [done|]. cbn. rewrite Hmb by done. f_equal. destruct (Z.eqb_spec (g * ly_ipg ly + i) j) as [<-|]; [by rewrite Em|done].
    + apply rwp_ret. split; [done|]. split; [done|]. split; [done|]. intros j Hj. apply Hnew; [done|].
      destruct (Z.eqb_spec (g * ly_ipg ly + i) j) as [<-|]; [by rewrite Em, orb_false_r|by rewrite orb_false_r].
  - cbn beta. intros _ r' d' (-> & HL & _ & Hbits). auto.
Qed.

Lemma rwp_load_inode_maps r :
  ro_inv ly d r ->
  rwp (load_inode_maps ly) (λ _ r' d', d' = d /\ loads r r' /\ forall j, 0 <= j < ly_inodes ly -> bit (rp_alloc r') j = bit (rp_alloc r) j || marked j) (roc d) r d.
Proof.
  intros Hr. pose proof (lo_groups _ Hly) as HG. pose proof (lo_ipg _ Hly) as Hipg. pose proof (lo_inodes _ Hly) as Hin. eapply rwp_conseq;
    [apply (rwp_range (λ g _ r' d', d' = d /\ loads r r' /\ forall j, 0 <= j < ly_inodes ly ->
       bit (rp_alloc r') j = bit (rp_alloc r) j || ((j <? g * ly_ipg ly) && marked j)))| |done].
  - lia.
  - split; [done|]. split; [by split|]. intros j Hj. destruct (Z.ltb_spec j (0 * ly_ipg ly)); [lia|]. by rewrite orb_false_r.
  - intros g _ r1 d1 Hg (-> & HL & Hbits). eapply rwp_conseq; [apply (rwp_load_inode_map g r1 Hg), HL| |done].
    cbn beta. intros _ r2 d2 (-> & HL2 & Hb2). split; [done|]. split; [by eapply loads_trans|]. intros j Hj. rewrite Hb2, Hbits by lia. rewrite <- orb_assoc. f_equal.
    assert (Hgi : group_inodes ly g = ly_ipg ly \/ group_inodes ly g = ly_inodes ly - g * ly_ipg ly) by (unfold group_inodes; lia).
    destruct (group_inodes_range g Hg) as [Hgr _]. rewrite Z.mul_add_distr_r.
    destruct (Z.ltb_spec j (g * ly_ipg ly)), (Z.leb_spec (g * ly_ipg ly) j), (Z.ltb_spec j (g * ly_ipg ly + group_inodes ly g)), (Z.ltb_spec j (g * ly_ipg ly + 1 * ly_ipg ly));
      cbn; rewrite ?orb_false_r; done || nia.
  - cbn beta. intros _ r' d' (-> & HL & Hbits). split; [done|]. split; [done|]. intros j Hj. rewrite Hbits by done. f_equal.
    destruct (Z.ltb_spec j (ly_groups ly * ly_ipg ly)); [done|lia].
Qed.

(** * All inodes *)

(** [L] are the inodes scanned so far, starting from [r0]. *)
Record scan_inv (r0 r : repair_t) (L : list Z) : Prop := ScanInv {
  sc_inv : ro_inv ly d r;
  sc_nodup : NoDup L;
  sc_range : Forall (λ ino, 1 <= ino <= ly_inodes ly) L;
  sc_marks : marks ly r0 r (concat (owned ly d <$> L));
  sc_seen : forall i, 0 <= i < ly_inodes ly -> bit (rp_scanned r) i = bool_decide (i + 1 ∈ L);
  sc_alloc : forall j, 0 <= j -> bit (rp_alloc r0) j = true -> bit (rp_alloc r) j = true;
  sc_missing : rp_missing_i r0 <= rp_missing_i r;
  sc_same : rp_missing_i r = rp_missing_i r0 -> rp_alloc r = rp_alloc r0
}.

(** Scanning one more. *)
Lemma scan_one r0 r L i :
  scan_inv r0 r L -> 0 <= i < ly_inodes ly -> bit (rp_scanned r) i = false ->
  rwp (m ← setbit (rp_scanned r) i; _ ← rmod (λ r, set_scanned r m); _ ← scan_inode ly (i + 1); mret true)
    (λ p r' d', p = true /\ d' = d /\ scan_inv r0 r' (L ++ [i + 1])) (roc d) r d.
Proof.
  intros HS Hi Hb. pose proof (ri_scanned _ _ _ (sc_inv _ _ _ HS)) as Hl. apply rwp_bind, rwp_setbit; [lia|]. intros m Hm Hmb. apply rwp_bind, rwp_mod.
  assert (Hr1 : ro_inv ly d (set_scanned r m)) by (destruct (sc_inv _ _ _ HS); split; cbn; lia || done).
  apply rwp_bind. eapply rwp_conseq; [apply (ro_scan_inode (i + 1) ltac:(lia) _ Hr1)| |done].
  cbn beta. intros _ r2 d2 (-> & Hr2 & Hmk & Hgr & _). apply rwp_ret. split; [done|]. split; [done|].
  destruct HS as [H1 H2 H3 H4 H5 H6 H7 H8], Hgr as [G1 G2 G3 G4]. split.
  - done.
  - apply NoDup_app. split; [done|]. split; [|apply NoDup_singleton]. intros x Hx ->%list_elem_of_singleton. rewrite H5 in Hb by done.
    by apply bool_decide_eq_false in Hb.
  - apply Forall_app. split; [done|]. constructor; [lia|done].
  - rewrite fmap_app, concat_app. cbn [fmap list_fmap concat]. rewrite app_nil_r. eapply marks_trans; [exact H4|]. destruct Hmk. by split.
  - intros j Hj. rewrite G1. cbn. rewrite Hmb, H5 by lia. apply eq_true_iff_eq.
    rewrite orb_true_iff, !bool_decide_eq_true, elem_of_app, list_elem_of_singleton, Z.eqb_eq. split; intros [?|?]; auto; right; lia.
  - intros j Hj Ha. apply G2; [done|]. by apply H6.
  - cbn in *. lia.
  - intros E. cbn in *. rewrite G4, H8; [done|lia|lia].
Qed.

Lemma scan_pass_spec r0 r L :
  scan_inv r0 r L ->
  rwp (scan_pass ly) (λ p r' d', d' = d /\ exists L', scan_inv r0 r' L' /\
      if (p : bool) then (length L < length L')%nat else L' = L /\ forall i, 0 <= i < ly_inodes ly -> bit (rp_alloc r') i = true -> bit (rp_scanned r') i = true)
    (roc d) r d.
Proof.
  intros HS. pose proof (lo_inodes _ Hly) as Hin. pose proof (lo_groups _ Hly). pose proof (lo_ipg _ Hly). eapply rwp_conseq;
    [apply (rwp_range (λ i p r' d', d' = d /\ exists L', scan_inv r0 r' L' /\
      if (p : bool) then (length L < length L')%nat else L' = L /\ forall j, 0 <= j < i -> bit (rp_alloc r') j = true -> bit (rp_scanned r') j = true))| |done].
  - nia.
  - split; [done|]. exists L. split; [done|]. split; [done|]. intros j Hj. lia.
  - intros i p r1 d1 Hi (-> & L1 & HS1 & Hp). pose proof (sc_inv _ _ _ HS1) as Hr1. pose proof (ri_alloc _ _ _ Hr1). pose proof (ri_scanned _ _ _ Hr1).
    apply rwp_bind, rwp_get, rwp_bind, rwp_getbit; [lia|]. apply rwp_bind, rwp_getbit; [lia|].
    destruct (negb (bit (rp_alloc r1) i) || bit (rp_scanned r1) i) eqn:E.
    + apply rwp_ret. split; [done|]. exists L1. split; [done|]. destruct p; [done|]. destruct Hp as [-> Hp]. split; [done|].
      intros j Hj Ha. destruct (decide (j = i)) as [->|]; [by rewrite Ha in E|]. apply Hp; [lia|done].
    + apply orb_false_iff in E as [_ Es]. eapply rwp_conseq; [by apply scan_one| |done]. cbn beta. intros p' r2 d2 (-> & -> & HS2).
      split; [done|]. exists (L1 ++ [i + 1]). split; [done|]. rewrite length_app. cbn. destruct p; [lia|]. destruct Hp as [-> _]. lia.
  - done.
Qed.

Lemma scanned_bounded r0 r L : scan_inv r0 r L -> Z.of_nat (length L) <= ly_inodes ly.
Proof.
  intros [_ Hn Hr _ _ _ _ _]. assert (Hs : L ⊆ seqZ 1 (ly_inodes ly)).
  { intros x Hx. rewrite Forall_forall in Hr. apply elem_of_seqZ. specialize (Hr x Hx). lia. }
  pose proof (submseteq_length _ _ (NoDup_submseteq _ _ Hn Hs)) as Hl. rewrite length_seqZ in Hl. pose proof (lo_inodes _ Hly). pose proof (lo_groups _ Hly). nia.
Qed.

(** Every allocated inode was scanned. *)
Definition scan_done (r0 r : repair_t) (L : list Z) : Prop :=
  scan_inv r0 r L /\ forall i, 0 <= i < ly_inodes ly -> bit (rp_alloc r) i = true -> i + 1 ∈ L.

Lemma scan_passes_spec fuel r0 r L :
  scan_inv r0 r L -> ly_inodes ly - Z.of_nat (length L) < Z.of_nat fuel ->
  rwp (scan_passes ly fuel) (λ _ r' d', d' = d /\ exists L', scan_done r0 r' L') (roc d) r d.
Proof.
  revert r L. induction fuel as [|fuel IH]; intros r L HS Hf; [pose proof (scanned_bounded _ _ _ HS); lia|]. cbn [scan_passes].
  apply rwp_bind. eapply rwp_conseq; [by apply scan_pass_spec| |done]. cbn beta. intros [] r1 d1 (-> & L1 & HS1 & Hp).
  - apply (IH r1 L1 HS1). lia.
  - apply rwp_ret. split; [done|]. exists L1. split; [done|]. intros i Hi Ha. apply Hp in Ha; [|done]. rewrite (sc_seen _ _ _ HS1) in Ha by done.
    by apply bool_decide_eq_true in Ha.
Qed.

End Scan.
