(* ===== verification/Ext2RepairFix.v ===== *)
(** The bitmaps and counters of [ext2_repair]: what [fix_bits] makes of a bitmap,
    what [reconcile] finds, and what it leaves on the disk when it repairs, for
    every schedule of errors and power cuts. *)

From S2P Require Import Prelude BlockDev Ext2Disk Ext2Repair Ext2RepairLogic Ext2RepairScan.
Local Open Scope Z_scope.

(** * Definitions *)

(** The clear bits of a predicate below [n]. *)
Definition clear_of (f : Z -> bool) (n : Z) : Z := Z.of_nat (length (List.filter (λ j, negb (f j)) (seqZ 0 n))).

(** The fields of the state that [reconcile] reads only. *)
Record same_maps (r r' : repair_t) : Prop := SameMaps {
  sm_refs : rp_refs r' = rp_refs r;
  sm_alloc : rp_alloc r' = rp_alloc r;
  sm_scanned : rp_scanned r' = rp_scanned r;
  sm_dirs : rp_dirs r' = rp_dirs r;
  sm_missing : rp_missing_i r' = rp_missing_i r;
  sm_dpg : rp_dpg r' = rp_dpg r
}.

(** * One bitmap *)

Lemma set_bit_bytes m i m' : Forall is_byte m -> set_bit m i = Some m' -> Forall is_byte m'.
Proof.
  unfold set_bit. destruct (m !! _) as [b|] eqn:E; [|done]. intros Hm [= <-]. apply Forall_insert; [done|].
  assert (Hb : is_byte b) by (by eapply (Forall_lookup_1 _ _ _ _ Hm)). unfold is_byte, u8 in *.
  assert (Hx : 0 <= Z.shiftl 1 (Z.land i 7) mod 2 ^ 8 < 2 ^ 8) by (apply Z.mod_pos_bound; lia). set (x := _ mod _) in *.
  split; [by apply Z.lor_nonneg; lia|]. apply Z.log2_lt_cancel. rewrite Z.log2_lor by lia. change (Z.log2 256) with 8.
  destruct (decide (b = 0)) as [->|], (decide (x = 0)) as [->|]; cbn [Z.log2]; rewrite ?Z.max_lub_lt_iff; repeat split; try lia; apply Z.log2_lt_pow2; lia.
Qed.

Lemma same_maps_refl r : same_maps r r.
Proof. by split. Qed.

Lemma same_maps_trans r r1 r2 : same_maps r r1 -> same_maps r1 r2 -> same_maps r r2.
Proof. intros [] []. split; congruence. Qed.

Lemma clear_of_step f n : 0 <= n -> clear_of f (n + 1) = clear_of f n + (if f n then 0 else 1).
Proof.
  intros Hn. unfold clear_of. rewrite seqZ_app by lia. rewrite List.filter_app, length_app. rewrite Z.add_0_l, (seqZ_cons n 1) by lia.
  change (seqZ (Z.succ n) (Z.pred 1)) with (@nil Z). cbn [List.filter]. destruct (f n); cbn [negb length]; lia.
Qed.

Lemma clear_of_ext f f' n : (forall j, 0 <= j < n -> f j = f' j) -> clear_of f n = clear_of f' n.
Proof. intros H. unfold clear_of. do 2 f_equal. apply List.filter_ext_in. intros j Hj%list_elem_of_In%elem_of_seqZ. by rewrite H by lia. Qed.

Lemma clear_of_le f n : 0 <= n -> 0 <= clear_of f n <= n.
Proof. intros Hn. unfold clear_of. pose proof (List.filter_length_le (λ j, negb (f j)) (seqZ 0 n)) as H. rewrite length_seqZ in H. lia. Qed.

(** What [fix_bits] leaves in the buffer: the wanted bits are set, the others stay. *)
Record fixed (m m' : bytes) (want : Z -> bool) (n missing free : Z) : Prop := Fixed {
  fx_length : length m' = length m;
  fx_bytes : Forall is_byte m -> Forall is_byte m';
  fx_bits : forall j, 0 <= j -> bit m' j = bit m j || ((j <? n) && want j);
  fx_free : free = clear_of (bit m') n;
  fx_missing : 0 <= missing;
  fx_none : missing = 0 -> m' = m
}.

Lemma rwp_fix_bits want base n r d C :
  0 <= base -> 0 <= n <= 8 * Z.of_nat (length (rp_block r)) -> base + n <= 8 * Z.of_nat (length (want r)) ->
  (forall m, want (set_block r m) = want r) ->
  rwp (fix_bits want base n) (λ x r' d', d' = d /\ exists m, r' = set_block r m /\ fixed (rp_block r) m (λ j, bit (want r) (base + j)) n x.1 x.2) C r d.
Proof.
  intros Hb Hn Hw Hset. unfold fix_bits. eapply rwp_conseq;
    [apply (rwp_range (λ i x r' d', d' = d /\ exists m, r' = set_block r m /\ fixed (rp_block r) m (λ j, bit (want r) (base + j)) i x.1 x.2))|done|done].
  - lia.
  - split; [done|]. exists (rp_block r). split; [by destruct r|]. split; [done|done| |done|done|done].
    intros j Hj. destruct (Z.ltb_spec j 0); [lia|]. by rewrite orb_false_r.
  - intros i [missing free] r1 d1 Hi (-> & m & -> & [F1 F2 F3 F4 F5 F6]). cbn [fst snd] in *.
    apply rwp_bind, rwp_get. rewrite Hset. cbn [set_block rp_block]. apply rwp_bind, rwp_getbit; [lia|]. apply rwp_bind, rwp_getbit; [lia|].
    assert (Hstep : forall j, 0 <= j -> (j <? i + 1) && bit (want r) (base + j) = (j <? i) && bit (want r) (base + j) || (i =? j) && bit (want r) (base + i)).
    { intros j Hj. destruct (Z.ltb_spec j (i + 1)), (Z.ltb_spec j i), (Z.eqb_spec i j) as [<-|]; cbn; rewrite ?orb_false_r; done || lia. }
    assert (Hi2 : bit m i = bit (rp_block r) i) by (rewrite F3 by lia; rewrite (proj2 (Z.ltb_ge i i)) by lia; by rewrite orb_false_r).
    destruct (bit (want r) (base + i)) eqn:Ew, (bit m i) eqn:Em; cbn [andb negb].
    2:{ apply rwp_bind. unfold setbit. destruct (set_bit_total m i) as (m' & Es & Hl & Hbits); [lia|]. rewrite Es. apply rwp_ret, rwp_bind, rwp_mod, rwp_ret.
        split; [done|]. exists m'. split; [done|]. cbn [fst snd]. split; [congruence| | |
          rewrite clear_of_step, Hbits, Z.eqb_refl, orb_true_r, Z.add_0_r, F4 by lia; apply clear_of_ext; intros j Hj; rewrite Hbits by lia;
          rewrite (proj2 (Z.eqb_neq i j)) by lia; by rewrite orb_false_r|lia|lia].
        - intros Hm. eapply set_bit_bytes; [by apply F2|exact Es].
        - intros j Hj. by rewrite Hbits, F3, Hstep, andb_true_r, orb_assoc by done. }
    all: apply rwp_ret; split; [done|]; exists m; split; [done|]; cbn [fst snd]; split; try done;
      [intros j Hj; rewrite F3, Hstep by done; rewrite ?andb_true_r, ?andb_false_r, ?orb_false_r; try done|
       rewrite clear_of_step, Em, <- F4 by lia; lia].
    destruct (Z.eqb_spec i j) as [<-|]; [|by rewrite orb_false_r]. by rewrite <- Hi2.
Qed.

(** * What [reconcile] wants *)

Section Wanted.

Context (ly : layout) (d0 : device) (r0 : repair_t).

Definition valid_b (g : Z) : Z := group_end ly g - group_start ly g.
Definition valid_i (g : Z) : Z := group_inodes ly g.

(** The bits of the two bitmaps of a group after the repair, and the free counts
    they give. *)
Definition new_b (g j : Z) : bool := bit (blk d0 (bb_of d0 g)) j || ((j <? valid_b g) && bit (rp_refs r0) (group_start ly g + j)).
Definition new_i (g j : Z) : bool := bit (blk d0 (ib_of d0 g)) j || ((j <? valid_i g) && bit (rp_alloc r0) (g * ly_ipg ly + j)).
Definition free_b (g : Z) : Z := clear_of (new_b g) (valid_b g).
Definition free_i (g : Z) : Z := clear_of (new_i g) (valid_i g).
Definition dirs_of (g : Z) : Z := default 0 (rp_dpg r0 !! Z.to_nat g).
Definition totals (k : Z) : Z * Z := (zsum (free_b <$> seqZ 0 k), zsum (free_i <$> seqZ 0 k)).

(** The counters of a group in a descriptor table. *)
Definition counters (gdt : bytes) (g : Z) : Prop :=
  rd16 gdt (gdesc g + 12) = free_b g /\ rd16 gdt (gdesc g + 14) = free_i g /\ rd16 gdt (gdesc g + 16) = u16 (dirs_of g).

(** After [k] groups without repairing: nothing missing and no mismatch means that
    the bitmaps and the counters were right. *)
Record checked (k : Z) (x : Z * Z) (r : repair_t) : Prop := Checked {
  ck_inv : ro_inv ly d0 r;
  ck_maps : same_maps r0 r;
  ck_totals : x = totals k;
  ck_missing : rp_missing_b r0 <= rp_missing_b r;
  ck_mismatch : rp_mismatch r0 <= rp_mismatch r;
  ck_bits : rp_missing_b r = rp_missing_b r0 -> forall g, 0 <= g < k -> forall j, 0 <= j -> new_b g j = bit (blk d0 (bb_of d0 g)) j;
  ck_counters : rp_mismatch r = rp_mismatch r0 -> forall g, 0 <= g < k -> counters (blk d0 1) g
}.

Context (Hly : lay_ok ly) (Hd : dev_ok d0) (Hr0 : ro_inv ly d0 r0).

Lemma valid_b_range g : 0 <= g < ly_groups ly -> 0 < valid_b g <= 32768 /\ group_start ly g + valid_b g <= ly_blocks ly /\ 0 <= group_start ly g.
Proof. intros Hg. destruct Hly. unfold valid_b, group_end, group_start. nia. Qed.

Lemma valid_i_range g : 0 <= g < ly_groups ly -> 0 < valid_i g <= 32768 /\ g * ly_ipg ly + valid_i g <= ly_inodes ly /\ 0 <= g * ly_ipg ly.
Proof. intros Hg. pose proof (group_inodes_range ly Hly g Hg). pose proof (lo_ipg _ Hly). unfold valid_i. nia. Qed.

Lemma totals_step k : 0 <= k -> totals (k + 1) = ((totals k).1 + free_b k, (totals k).2 + free_i k).
Proof.
  intros Hk. unfold totals. cbn [fst snd]. rewrite seqZ_app, Z.add_0_l, (seqZ_cons k 1) by lia. change (seqZ (Z.succ k) (Z.pred 1)) with (@nil Z).
  rewrite !fmap_app, !zsum_app. cbn [fmap list_fmap]. change (zsum [?x]) with (x + 0). unfold zsum at 2 4. cbn [foldr]. f_equal; lia.
Qed.

Lemma dirs_lookup g : 0 <= g < ly_groups ly -> rp_dpg r0 !! Z.to_nat g = Some (dirs_of g).
Proof.
  intros Hg. unfold dirs_of. destruct (lookup_lt_is_Some_2 (rp_dpg r0) (Z.to_nat g)) as [x ->]; [|done].
  rewrite (ri_dpg _ _ _ Hr0). unfold MAX_GROUPS. pose proof (lo_groups _ Hly). lia.
Qed.

Lemma rwp_check_group k x r :
  0 <= k < ly_groups ly -> checked k x r ->
  rwp (reconcile_group ly false k x) (λ x' r' d', d' = d0 /\ checked (k + 1) x' r') (roc d0) r d0.
Proof.
  intros Hk [Hr Hm Hx Hmi Hmm Hb Hc]. destruct (valid_b_range k Hk) as (V1 & V2 & V3). destruct (valid_i_range k Hk) as (I1 & I2 & I3).
  unfold reconcile_group. apply rwp_bind, rwp_get. cbv zeta. rewrite (ri_gdt _ _ _ Hr). fold (gdesc k). fold (bb_of d0 k) (ib_of d0 k).
  apply rwp_bind, rwp_load_block. intros _. apply rwp_bind. eapply rwp_conseq; [apply rwp_fix_bits| |done].
  { lia. } { cbn [set_block rp_block]. rewrite blk_length, bits_of_block. fold (valid_b k). lia. }
  { cbn. pose proof (ri_refs _ _ _ Hr). fold (valid_b k). lia. } { done. }
  cbn beta. intros [mb fb] r1 d1 (-> & m1 & -> & F1). cbn [fst snd set_block rp_block rp_refs] in *. fold (valid_b k) in F1.
  apply rwp_bind, rwp_mod, rwp_bind, rwp_get. rewrite andb_false_r. apply rwp_bind, rwp_ret. apply rwp_bind, rwp_load_block. intros _.
  apply rwp_bind. eapply rwp_conseq; [apply rwp_fix_bits| |done].
  { lia. } { cbn [set_block rp_block]. rewrite blk_length, bits_of_block. fold (valid_i k). lia. }
  { cbn. pose proof (ri_alloc _ _ _ Hr). fold (valid_i k). lia. } { done. }
  cbn beta. intros [mi fi] r2 d2 (-> & m2 & -> & F2). cbn [fst snd set_block set_counts rp_block rp_alloc] in *. fold (valid_i k) in F2.
  apply rwp_bind, rwp_get. rewrite andb_false_r. apply rwp_bind, rwp_ret. cbn [set_block set_counts rp_dpg rp_gdt].
  destruct Hm as [M1 M2 M3 M4 M5 M6]. rewrite M6, (dirs_lookup k Hk). rewrite (ri_gdt _ _ _ Hr).
  rewrite M1 in F1. rewrite M2 in F2.
  assert (Efb : fb = free_b k) by (rewrite (fx_free _ _ _ _ _ _ F1); apply clear_of_ext; intros j Hj; apply (fx_bits _ _ _ _ _ _ F1); lia).
  assert (Efi : fi = free_i k) by (rewrite (fx_free _ _ _ _ _ _ F2); apply clear_of_ext; intros j Hj; apply (fx_bits _ _ _ _ _ _ F2); lia).
  pose proof (fx_missing _ _ _ _ _ _ F1) as Hmb.
  assert (Hfin : forall mm, rp_mismatch r <= mm -> (mm = rp_mismatch r -> counters (blk d0 1) k) ->
    checked (k + 1) (x.1 + fb, x.2 + fi) (set_counts (set_block (set_counts (set_block r m1) (rp_missing_b r + mb) (rp_mismatch r)) m2) (rp_missing_b r + mb) mm)).
  { intros mm Hle Hcc. split.
    - destruct Hr. split; cbn; try done; [rewrite (fx_length _ _ _ _ _ _ F2); apply blk_length|by apply (fx_bytes _ _ _ _ _ _ F2), dev_read_bytes|lia].
    - by split.
    - rewrite totals_step, Hx, Efb, Efi by lia. done.
    - cbn. lia.
    - cbn. lia.
    - cbn. intros E g Hg j Hj. destruct (decide (g = k)) as [->|]; [|apply Hb; lia]. transitivity (bit m1 j).
      + symmetry. by apply (fx_bits _ _ _ _ _ _ F1).
      + rewrite (fx_none _ _ _ _ _ _ F1) by lia. done.
    - cbn. intros E g Hg. destruct (decide (g = k)) as [->|]; [apply Hcc; lia|apply Hc; lia]. }
  destruct (negb (rd16 (blk d0 1) (gdesc k + 12) =? fb) || _ || _) eqn:E.
  - apply rwp_bind, rwp_bind, rwp_mod, rwp_ret, rwp_ret. split; [done|]. apply (Hfin (rp_mismatch r + 1)); [lia|intros; lia].
  - apply rwp_bind, rwp_ret, rwp_ret. split; [done|]. apply (Hfin (rp_mismatch r)); [lia|]. intros _. rewrite !orb_false_iff, !negb_false_iff, !Z.eqb_eq in E.
    destruct E as [[E1 E2] E3]. unfold counters. split; [congruence|]. split; [congruence|]. rewrite <- E3. symmetry. apply Z.mod_small.
    apply rd16_range, dev_read_bytes, Hd.
Qed.

Lemma rwp_reconcile_false :
  rwp (reconcile ly false) (λ x r' d', d' = d0 /\ checked (ly_groups ly) x r') (roc d0) r0 d0.
Proof.
  pose proof (lo_groups _ Hly). eapply rwp_conseq; [apply (rwp_range (λ k x r d, d = d0 /\ checked k x r))|done|done].
  - lia.
  - split; [done|]. split; try done; intros; lia.
  - intros k x r d Hk [-> Hc]. by apply rwp_check_group.
Qed.

(** * Repairing *)

Definition bitmap (b : Z) : Prop := exists g, 0 <= g < ly_groups ly /\ (b = bb_of d0 g \/ b = ib_of d0 g).

(** Only bitmaps differ, and no allocation is lost. *)
Record more (d d' : device) : Prop := More {
  mo_touches : touches bitmap d d';
  mo_bits : forall b j, bitmap b -> 0 <= j < 32768 -> bit (blk d b) j = true -> bit (blk d' b) j = true
}.

(** The bitmaps are blocks of their own. *)
Definition apart : Prop :=
  (forall g g', 0 <= g < ly_groups ly -> 0 <= g' < ly_groups ly -> bb_of d0 g <> ib_of d0 g') /\
  (forall g g', 0 <= g < ly_groups ly -> 0 <= g' < ly_groups ly -> g <> g' -> bb_of d0 g <> bb_of d0 g' /\ ib_of d0 g <> ib_of d0 g').

Lemma more_refl d : more d d.
Proof. split; [apply touches_refl|auto]. Qed.

Lemma more_trans d d1 d2 : more d d1 -> more d1 d2 -> more d d2.
Proof. intros [T1 B1] [T2 B2]. split; [by eapply touches_trans|auto]. Qed.

(** One bitmap gains bits. *)
Lemma more_one d d' b :
  bitmap b -> touches (λ x, x = b) d d' -> (forall j, 0 <= j < 32768 -> bit (blk d b) j = true -> bit (blk d' b) j = true) -> more d d'.
Proof.
  intros Hb Ht Hbits. split; [eapply touches_mono; [|exact Ht]; by intros ? ->|]. intros b' j Hb' Hj H.
  destruct (decide (b' = b)) as [->|Hn]; [by apply Hbits|]. by rewrite (blk_touches _ _ _ _ Ht).
Qed.

(** A block is written, perhaps in part. *)
Record torn (b : Z) (buf : bytes) (d d' : device) : Prop := Torn {
  to_touches : touches (λ x, x = b) d d';
  to_bits : forall j, 0 <= j < 32768 -> bit (blk d' b) j = bit buf j \/ bit (blk d' b) j = bit (blk d b) j
}.

Lemma torn_refl b buf d : torn b buf d d.
Proof. split; [apply touches_refl|auto]. Qed.

Lemma torn_take b buf d k : length buf = BLOCK -> torn b buf d (dev_write d (b * EXT2_BLOCK_SIZE) (take k buf)).
Proof.
  intros Hl. split.
  - eapply touches_mono; [|apply (touches_write d _ _ b 1); rewrite ?length_take, ?Hl; unfold BLOCK, EXT2_BLOCK_SIZE; lia]. cbn. lia.
  - intros j Hj. rewrite !blk_bit by done. assert (Hq : 0 <= j / 8 < 4096) by (split; [apply Z.div_pos; lia|apply Z.div_lt_upper_bound; lia]).
    change EXT2_BLOCK_SIZE with 4096. rewrite bit_div. unfold dev_write. destruct (_ && _) eqn:E; [left|by right].
    apply andb_prop in E as [_ E]. boolify. replace (b * 4096 + j / 8 - b * 4096) with (j / 8) by lia. f_equal. unfold byte_at.
    rewrite lookup_take_lt; [done|]. rewrite length_take in E. lia.
Qed.

Lemma rwp_write_block b buf (Q : () -> repair_t -> device -> Prop) (C : option rerror -> device -> Prop) r d :
  length buf = BLOCK -> Forall is_byte buf -> dev_ok d ->
  (forall d', touches (λ x, x = b) d d' -> blk d' b = buf -> dev_ok d' -> Q tt r d') ->
  (forall o d', o <> Some OutOfFuel -> torn b buf d d' -> C o d') ->
  rwp (write_block ly b buf) Q C r d.
Proof.
  intros Hl Hby Hok HQ HC. unfold write_block. apply rwp_or_fail. apply rwp_bind. unfold rw_write, rwp at 1.
  destruct (outside _ _ _); [apply dwp_ret; apply HC; [done|apply torn_refl]|].
  apply dwp_bind, dwp_write; (replace (b * SPB * SECTOR_SIZE) with (b * EXT2_BLOCK_SIZE) by (unfold SPB, SECTOR_SIZE, EXT2_BLOCK_SIZE; lia)).
  2:{ intros k. split; [apply dwp_ret|]; (apply HC; [done|by apply torn_take]). }
  apply dwp_ret. set (d' := dev_write d (b * EXT2_BLOCK_SIZE) buf).
  assert (Ht : torn b buf d d') by (pose proof (torn_take b buf d BLOCK Hl) as H; by rewrite take_ge in H by lia).
  apply rwp_bind. unfold rw_read, rwp at 1. destruct (outside _ _ _); [apply dwp_ret; by apply HC|].
  apply dwp_bind, dwp_read; [apply dwp_ret|apply dwp_ret; by apply HC|by apply HC].
  destruct (bool_decide _); [|by apply rwp_fail, HC]. apply rwp_ret. apply HQ; [apply Ht| |by apply dev_write_ok].
  unfold blk, d'. rewrite <- Hl. apply dev_read_write.
Qed.

(** Write the buffer when bits were missing. *)
Lemma rwp_maybe_write b m want n missing free (Q : () -> repair_t -> device -> Prop) r d :
  bitmap b -> dev_ok d -> more d0 d -> fixed (blk d b) m want n missing free ->
  (forall d', touches (λ x, x = b) d d' -> blk d' b = m -> dev_ok d' -> more d0 d' -> Q tt r d') ->
  rwp (if negb (missing =? 0) && true then write_block ly b m else mret tt) Q (λ o d', more d0 d' /\ o <> Some OutOfFuel) r d.
Proof.
  intros Hb Hok Hm [F1 F2 F3 _ _ F6] HQ. rewrite andb_true_r. rewrite blk_length in F1.
  assert (Hone : forall d', touches (λ x, x = b) d d' -> (forall j, 0 <= j < 32768 -> bit (blk d' b) j = bit m j \/ bit (blk d' b) j = bit (blk d b) j) -> more d0 d').
  { intros d' Ht Hbits. eapply more_trans; [exact Hm|]. apply (more_one _ _ b Hb Ht). intros j Hj H. destruct (Hbits j Hj) as [->| ->]; [|done].
    by rewrite F3, H by lia. }
  destruct (Z.eqb_spec missing 0) as [E|E]; cbn [negb].
  - apply rwp_ret, HQ; [apply touches_refl|by rewrite F6|done|done].
  - apply rwp_write_block; [done|by apply F2, dev_read_bytes|done| |].
    + intros d' Ht Hbk Hok'. apply HQ; try done. apply Hone; [done|]. intros j Hj. left. by rewrite Hbk.
    + intros o d' Ho [Ht Hbits]. split; [by apply Hone|done].
Qed.

(** The pointers of the descriptors stay. *)
Definition pointers_kept (gdt : bytes) : Prop :=
  length gdt = BLOCK /\ Forall is_byte gdt /\
  forall g, 0 <= g < ly_groups ly -> rd32 gdt (gdesc g) = bb_of d0 g /\ rd32 gdt (gdesc g + 4) = ib_of d0 g /\ rd32 gdt (gdesc g + 8) = it_of d0 g.

(** The disk and the descriptors after [k] groups. *)
Record fixing (k : Z) (x : Z * Z) (r : repair_t) (d : device) : Prop := Fixing {
  fi_maps : same_maps r0 r;
  fi_gdt : pointers_kept (rp_gdt r);
  fi_more : more d0 d;
  fi_ok : dev_ok d;
  fi_done : forall g, 0 <= g < k -> (forall j, 0 <= j < 32768 -> bit (blk d (bb_of d0 g)) j = new_b g j) /\
              (forall j, 0 <= j < 32768 -> bit (blk d (ib_of d0 g)) j = new_i g j) /\ counters (rp_gdt r) g;
  fi_todo : forall g, k <= g < ly_groups ly -> blk d (bb_of d0 g) = blk d0 (bb_of d0 g) /\ blk d (ib_of d0 g) = blk d0 (ib_of d0 g);
  fi_totals : x = totals k
}.

Lemma gdesc_fits g : 0 <= g < ly_groups ly -> (gdesc g + 32 <= BLOCK)%nat.
Proof. intros Hg. pose proof (lo_groups _ Hly). unfold gdesc, DESC_SIZE, BLOCK, EXT2_BLOCK_SIZE. lia. Qed.

Lemma gdesc_apart g g' : 0 <= g -> 0 <= g' -> g <> g' -> (gdesc g + 32 <= gdesc g' \/ gdesc g' + 32 <= gdesc g)%nat.
Proof. intros. unfold gdesc, DESC_SIZE. lia. Qed.

Definition set_counters (gdt : bytes) (g : Z) : bytes :=
  wr16 (wr16 (wr16 gdt (gdesc g + 12) (free_b g)) (gdesc g + 14) (free_i g)) (gdesc g + 16) (dirs_of g).

Lemma splice_is_bytes off bs p : Forall is_byte bs -> Forall is_byte p -> Forall is_byte (splice off bs p).
Proof. intros H1 H2. unfold splice. apply Forall_app_2; [by apply Forall_take|]. apply Forall_app_2; [done|by apply Forall_drop]. Qed.

Lemma free_b_range g : 0 <= g < ly_groups ly -> 0 <= free_b g < 65536.
Proof. intros Hg. destruct (valid_b_range g Hg) as [? _]. pose proof (clear_of_le (new_b g) (valid_b g)). unfold free_b. lia. Qed.

Lemma free_i_range g : 0 <= g < ly_groups ly -> 0 <= free_i g < 65536.
Proof. intros Hg. destruct (valid_i_range g Hg) as [? _]. pose proof (clear_of_le (new_i g) (valid_i g)). unfold free_i. lia. Qed.

Lemma set_counters_spec gdt g :
  0 <= g < ly_groups ly -> pointers_kept gdt ->
  pointers_kept (set_counters gdt g) /\ counters (set_counters gdt g) g /\
  forall g', 0 <= g' < ly_groups ly -> g' <> g -> counters gdt g' -> counters (set_counters gdt g) g'.
Proof.
  intros Hg (Hl & Hby & Hp). pose proof (gdesc_fits g Hg) as Hf. unfold set_counters.
  set (p1 := wr16 gdt (gdesc g + 12) (free_b g)). assert (L1 : length p1 = BLOCK) by (unfold p1; rewrite wr16_length; lia).
  set (p2 := wr16 p1 (gdesc g + 14) (free_i g)). assert (L2 : length p2 = BLOCK) by (unfold p2; rewrite wr16_length; lia).
  assert (Hout : forall off, (off + 2 <= gdesc g + 12 \/ gdesc g + 18 <= off)%nat -> rd16 (wr16 p2 (gdesc g + 16) (dirs_of g)) off = rd16 gdt off).
  { intros off Ho. rewrite rd16_wr16_ne by lia. unfold p2. rewrite rd16_wr16_ne by lia. unfold p1. by rewrite rd16_wr16_ne by lia. }
  assert (Hout32 : forall off, (off + 4 <= gdesc g + 12 \/ gdesc g + 18 <= off)%nat -> rd32 (wr16 p2 (gdesc g + 16) (dirs_of g)) off = rd32 gdt off).
  { intros off Ho. rewrite rd32_wr16 by lia. unfold p2. rewrite rd32_wr16 by lia. unfold p1. by rewrite rd32_wr16 by lia. }
  split; [|split].
  - split; [rewrite wr16_length; lia|]. split; [repeat (apply splice_is_bytes; [apply le_bytes_is_byte|]); done|].
    intros g' Hg'. destruct (Hp g' Hg') as (P1 & P2 & P3). rewrite <- P1, <- P2, <- P3.
    destruct (decide (g' = g)) as [->|Hn]; [rewrite !Hout32 by lia; done|]. destruct (gdesc_apart g g') as [?|?]; [lia|lia|done| |]; rewrite !Hout32 by lia; done.
  - pose proof (free_b_range g Hg). pose proof (free_i_range g Hg). unfold counters. rewrite rd16_wr16 by lia. rewrite !rd16_wr16_ne by lia. unfold p2.
    rewrite rd16_wr16, rd16_wr16_ne by lia. unfold p1. rewrite rd16_wr16 by lia. unfold u16. rewrite !(Z.mod_small (free_b g)), !(Z.mod_small (free_i g)) by lia. done.
  - intros g' Hg' Hn (C1 & C2 & C3). unfold counters. destruct (gdesc_apart g g') as [?|?]; [lia|lia|done| |]; rewrite !Hout by lia; done.
Qed.

Lemma rwp_load_more b r d (Q : () -> repair_t -> device -> Prop) :
  more d0 d -> Q tt (set_block r (blk d b)) d -> rwp (load_block ly b) Q (λ o d', more d0 d' /\ o <> Some OutOfFuel) r d.
Proof.
  intros Hm HQ. eapply rwp_conseq; [apply (rwp_load_block ly d b (λ _ r' d', r' = set_block r (blk d b) /\ d' = d)); by intros _| |].
  - intros [] r' d' [-> ->]. done.
  - by intros o d' [-> Ho].
Qed.

Lemma rwp_fix_group k x r d :
  apart -> 0 <= k < ly_groups ly -> fixing k x r d ->
  rwp (reconcile_group ly true k x) (fixing (k + 1)) (λ o d', more d0 d' /\ o <> Some OutOfFuel) r d.
Proof.
  intros [Hap1 Hap2] Hk [Hmaps Hgdt Hmore Hok Hdone Htodo Hx]. destruct (valid_b_range k Hk) as (V1 & V2 & V3). destruct (valid_i_range k Hk) as (I1 & I2 & I3).
  destruct (Htodo k ltac:(lia)) as [Tb Ti]. destruct (proj2 (proj2 Hgdt) k Hk) as (P1 & P2 & _). pose proof Hmaps as [M1 M2 M3 M4 M5 M6].
  assert (Bb : bitmap (bb_of d0 k)) by (exists k; auto). assert (Bi : bitmap (ib_of d0 k)) by (exists k; auto).
  unfold reconcile_group. apply rwp_bind, rwp_get. cbv zeta. fold (gdesc k). rewrite P1, P2.
  apply rwp_bind, rwp_load_more; [done|]. apply rwp_bind. eapply rwp_conseq; [apply rwp_fix_bits| |intros o d' H; exact H].
  { lia. } { cbn [set_block rp_block]. rewrite blk_length, bits_of_block. fold (valid_b k). lia. }
  { cbn. rewrite M1. pose proof (ri_refs _ _ _ Hr0). fold (valid_b k). lia. } { done. }
  cbn beta. intros [mb fb] r1 d1 (-> & m1 & -> & F1). cbn [fst snd set_block rp_block rp_refs] in *. fold (valid_b k) in F1. rewrite M1 in F1.
  apply rwp_bind, rwp_mod, rwp_bind, rwp_get. cbn [set_counts set_block rp_block]. apply rwp_bind. eapply rwp_maybe_write; [exact Bb|done|done|exact F1|].
  intros d1 T1 K1 Ok1 More1. assert (Eb1 : blk d1 (ib_of d0 k) = blk d0 (ib_of d0 k)).
  { rewrite (blk_touches _ _ _ _ T1); [done|]. intros E. by apply (Hap1 k k Hk Hk). }
  apply rwp_bind, rwp_load_more; [done|]. apply rwp_bind. eapply rwp_conseq; [apply rwp_fix_bits| |intros o d' H; exact H].
  { lia. } { cbn [set_block rp_block]. rewrite blk_length, bits_of_block. fold (valid_i k). lia. }
  { cbn. rewrite M2. pose proof (ri_alloc _ _ _ Hr0). fold (valid_i k). lia. } { done. }
  cbn beta. intros [mi fi] r2 d2 (-> & m2 & -> & F2). cbn [fst snd set_block set_counts rp_block rp_alloc] in *. fold (valid_i k) in F2. rewrite M2 in F2.
  apply rwp_bind, rwp_get. cbn [set_counts set_block rp_block rp_dpg rp_gdt]. apply rwp_bind. eapply rwp_maybe_write; [exact Bi|done|done|exact F2|].
  intros d2 T2 K2 Ok2 More2. rewrite M6, (dirs_lookup k Hk). rewrite Tb in F1. rewrite Eb1 in F2.
  assert (Efb : fb = free_b k) by (rewrite (fx_free _ _ _ _ _ _ F1); apply clear_of_ext; intros j Hj; apply (fx_bits _ _ _ _ _ _ F1); lia).
  assert (Efi : fi = free_i k) by (rewrite (fx_free _ _ _ _ _ _ F2); apply clear_of_ext; intros j Hj; apply (fx_bits _ _ _ _ _ _ F2); lia). subst fb fi.
  assert (Hother : forall b, b <> bb_of d0 k -> b <> ib_of d0 k -> blk d2 b = blk d b).
  { intros b H1 H2. by rewrite (blk_touches _ _ _ _ T2), (blk_touches _ _ _ _ T1). }
  assert (Hfin : forall r', same_maps r0 r' -> pointers_kept (rp_gdt r') -> counters (rp_gdt r') k ->
    (forall g, 0 <= g < ly_groups ly -> g <> k -> counters (rp_gdt r) g -> counters (rp_gdt r') g) -> fixing (k + 1) (x.1 + free_b k, x.2 + free_i k) r' d2).
  { intros r' Hm' Hp' Hc' Ho'. split; [exact Hm'|exact Hp'|exact More2|exact Ok2| | |].
    - intros g Hg. destruct (decide (g = k)) as [->|Hn].
      + split; [|split; [|done]].
        * intros j Hj. rewrite (blk_touches _ _ _ _ T2), K1; [apply (fx_bits _ _ _ _ _ _ F1); lia|]. by apply Hap1.
        * intros j Hj. rewrite K2. apply (fx_bits _ _ _ _ _ _ F2). lia.
      + destruct (Hdone g ltac:(lia)) as (D1 & D2 & D3). destruct (Hap2 g k ltac:(lia) Hk Hn). split; [|split; [|by apply Ho'; [lia|..]]].
        * rewrite Hother; [done|done|apply Hap1; lia].
        * rewrite Hother; [done| |done]. intros E. by apply (Hap1 k g Hk ltac:(lia)).
    - intros g Hg. destruct (Htodo g ltac:(lia)) as [E1 E2]. destruct (Hap2 g k ltac:(lia) Hk ltac:(lia)).
      rewrite !Hother; [done| |done|done|apply Hap1; lia]. intros E. by apply (Hap1 k g Hk ltac:(lia)).
    - rewrite totals_step, Hx by lia. done. }
  destruct (negb (rd16 (rp_gdt r) (gdesc k + 12) =? free_b k) || _ || _) eqn:E.
  - apply rwp_bind, rwp_bind, rwp_mod, rwp_mod, rwp_ret. destruct (set_counters_spec (rp_gdt r) k Hk Hgdt) as (S1 & S2 & S3).
    apply Hfin; [by split|exact S1|exact S2|exact S3].
  - apply rwp_bind, rwp_ret, rwp_ret. apply Hfin; [by split|exact Hgdt| |auto]. rewrite !orb_false_iff, !negb_false_iff, !Z.eqb_eq in E. destruct E as [[E1 E2] E3].
    cbn [set_counts set_block rp_gdt]. unfold counters. split; [done|]. split; [done|]. rewrite <- E3. symmetry. apply Z.mod_small, rd16_range. apply Hgdt.
Qed.

Lemma rwp_reconcile_true r d :
  apart -> fixing 0 (0, 0) r d ->
  rwp (reconcile ly true) (fixing (ly_groups ly)) (λ o d', more d0 d' /\ o <> Some OutOfFuel) r d.
Proof.
  intros Hap H0. pose proof (lo_groups _ Hly). apply rwp_range; [lia|done|]. intros k x r1 d1 Hk H1. by apply rwp_fix_group.
Qed.

End Wanted.
