(* ===== verification/Ext2RepairSafety.v ===== *)
(** The theorems about [ext2_repair]: what a run that reports success leaves, what
    any run leaves whatever transfers fail and wherever the power goes, and the two
    places where the tool does not do what it means to. *)

From S2P Require Import Prelude BlockDev Ext2Disk Ext2Repair Ext2RepairLogic Ext2RepairScan Ext2RepairFix.
Local Open Scope Z_scope.

(** * Definitions *)

(** The bitmap bit of a block. *)
Definition block_bit (ly : layout) (d : device) (b : Z) : bool := bit (blk d (bb_of d (b / ly_bpg ly))) (b mod ly_bpg ly).

Definition free_blocks_on (ly : layout) (d : device) (g : Z) : Z := clear_count (blk d (bb_of d g)) (valid_b ly g).
Definition free_inodes_on (ly : layout) (d : device) (g : Z) : Z := clear_count (blk d (ib_of d g)) (valid_i ly g).

(** A file system in order: the counters agree with the bitmaps, it is marked
    clean, the metadata and every block an allocated inode owns are marked, and no
    two allocated inodes share a block. *)
Record fs_sound (ly : layout) (d : device) : Prop := FsSound {
  fs_blocks : forall g, 0 <= g < ly_groups ly -> rd16 (blk d 1) (gdesc g + 12) = free_blocks_on ly d g;
  fs_inodes : forall g, 0 <= g < ly_groups ly -> rd16 (blk d 1) (gdesc g + 14) = free_inodes_on ly d g;
  fs_super_b : rd32 (super_of d) 12 = zsum (free_blocks_on ly d <$> seqZ 0 (ly_groups ly));
  fs_super_i : rd32 (super_of d) 16 = zsum (free_inodes_on ly d <$> seqZ 0 (ly_groups ly));
  fs_valid : Z.land (rd16 (super_of d) 58) VALID_FS <> 0 /\ Z.land (rd16 (super_of d) 58) ERROR_FS = 0;
  fs_meta : forall g b, 0 <= g < ly_groups ly -> b ∈ meta ly d g -> block_bit ly d b = true;
  fs_owned : forall i b, 0 <= i < ly_inodes ly -> marked ly d i = true -> b ∈ owned ly d (i + 1) -> 0 <= b < ly_blocks ly /\ block_bit ly d b = true;
  fs_unique : forall i i' b, 0 <= i < ly_inodes ly -> 0 <= i' < ly_inodes ly -> i <> i' -> marked ly d i = true -> marked ly d i' = true ->
    b ∈ owned ly d (i + 1) -> b ∉ owned ly d (i' + 1)
}.

(** The superblock and the descriptors lie before the metadata of group 0. *)
Definition front (d : device) : Prop := 1 < bb_of d 0 /\ 1 < ib_of d 0 /\ 1 < it_of d 0.

(** * The layout *)

Section Layout.

Lemma layout_lay_ok sectors sb :
  Forall is_byte sb -> layout_ok (layout_of sectors sb) = true -> groups_ok (layout_of sectors sb) = true -> lay_ok (layout_of sectors sb).
Proof.
  intros Hsb H1 H2. unfold layout_ok, BS, SPB in H1. unfold groups_ok, MAX_GROUPS in H2. rewrite negb_true_iff, !orb_false_iff, ?negb_false_iff in H1, H2.
  destruct_and!. boolify. unfold layout_of in *. cbn [ly_sectors ly_blocks ly_inodes ly_bpg ly_ipg ly_groups ly_isize ly_first ly_itb] in *.
  pose proof (rd32_range sb 4 Hsb). pose proof (rd32_range sb 32 Hsb). pose proof (rd32_range sb 40 Hsb). pose proof (rd32_range sb 0 Hsb).
  assert (Hdiv : 0 <= u32 (rd32 sb 4 + rd32 sb 32 - 1) / rd32 sb 32) by (apply Z.div_pos; [unfold u32; apply Z.mod_pos_bound; lia|lia]).
  assert (Hsmall : rd32 sb 4 + rd32 sb 32 - 1 < 2 ^ 32).
  { destruct (decide (rd32 sb 4 + rd32 sb 32 - 1 < 2 ^ 32)) as [|Hge]; [done|]. exfalso.
    assert (E : u32 (rd32 sb 4 + rd32 sb 32 - 1) = rd32 sb 4 + rd32 sb 32 - 1 - 2 ^ 32).
    { unfold u32. replace (rd32 sb 4 + rd32 sb 32 - 1) with ((rd32 sb 4 + rd32 sb 32 - 1 - 2 ^ 32) + 1 * 2 ^ 32) at 1 by lia. rewrite Z.mod_add, Z.mod_small; lia. }
    rewrite E, Z.div_small in * by lia. lia. }
  rewrite (u32_small (rd32 sb 4 + rd32 sb 32 - 1)) in * by lia. set (groups := _ / _) in *.
  pose proof (ceil_div (rd32 sb 4) (rd32 sb 32) groups ltac:(lia) eq_refl) as Hc.
  split; cbn [ly_sectors ly_blocks ly_inodes ly_bpg ly_ipg ly_groups ly_isize ly_first ly_itb]; fold groups; try lia; [by apply inode_size_power|].
  unfold BS. f_equal. lia.
Qed.

Lemma new_map_bit n j : bit (new_map n) j = false.
Proof.
  rewrite bit_div. unfold byte_at, new_map. destruct (repeat 0 _ !! _) as [b|] eqn:E; [|apply Z.testbit_0_l].
  apply list_elem_of_lookup_2, list_elem_of_In, repeat_spec in E. rewrite E. apply Z.testbit_0_l.
Qed.

Lemma new_map_length n : 0 <= n -> n <= 8 * Z.of_nat (length (new_map n)).
Proof. intros Hn. unfold new_map. rewrite repeat_length. pose proof (Z.div_mod (n + 7) 8). pose proof (Z.mod_pos_bound (n + 7) 8). lia. Qed.

End Layout.

(** * Lists of blocks *)

Section Concat.

Context (f : Z -> list Z).

Lemma elem_of_concat_fmap l b : b ∈ concat (f <$> l) <-> exists x, x ∈ l /\ b ∈ f x.
Proof.
  induction l as [|x l IH]; cbn [fmap list_fmap concat].
  - split; [by intros ?%elem_of_nil|]. by intros (x & ?%elem_of_nil & _).
  - rewrite elem_of_app. fold (f <$> l). rewrite IH. split.
    + intros [H|(y & Hy & H)]; [exists x; split; [left|done]|exists y; split; [by right|done]].
    + intros (y & [->|Hy]%elem_of_cons & H); [by left|right; by exists y].
Qed.

Lemma concat_nodup l x : NoDup (concat (f <$> l)) -> x ∈ l -> NoDup (f x).
Proof.
  induction l as [|y l IH]; intros Hn Hx; [by apply elem_of_nil in Hx|]. cbn [fmap list_fmap concat] in Hn. fold (f <$> l) in Hn.
  apply NoDup_app in Hn as (H1 & _ & H2). apply elem_of_cons in Hx as [->|Hx]; [done|by apply IH].
Qed.

Lemma concat_disjoint l x y b : NoDup (concat (f <$> l)) -> x ∈ l -> y ∈ l -> x <> y -> b ∈ f x -> b ∉ f y.
Proof.
  induction l as [|z l IH]; intros Hn Hx Hy Hne Hbx Hby; [by apply elem_of_nil in Hx|]. cbn [fmap list_fmap concat] in Hn. fold (f <$> l) in Hn.
  apply NoDup_app in Hn as (H1 & Hd & H2). apply elem_of_cons in Hx as [->|Hx]; apply elem_of_cons in Hy as [->|Hy]; [done| | |].
  - apply (Hd b Hbx), elem_of_concat_fmap. by exists y.
  - apply (Hd b Hby), elem_of_concat_fmap. by exists x.
  - by apply (IH H2 Hx Hy Hne Hbx).
Qed.

End Concat.

(** * After the scan *)

(** What the scan of a disk has found out. *)
Record scan_ok (ly : layout) (d : device) (r : repair_t) (L : list Z) : Prop := ScanOk {
  so_inv : ro_inv ly d r;
  so_desc : Forall (desc_ok ly d) (seqZ 0 (ly_groups ly));
  so_meta : NoDup (concat (meta ly d <$> seqZ 0 (ly_groups ly)));
  so_range : forall b, b ∈ concat (owned ly d <$> L) -> 0 <= b < ly_blocks ly /\ b ∉ concat (meta ly d <$> seqZ 0 (ly_groups ly));
  so_unique : NoDup (concat (owned ly d <$> L));
  so_refs : forall b, b ∈ concat (meta ly d <$> seqZ 0 (ly_groups ly)) \/ b ∈ concat (owned ly d <$> L) -> bit (rp_refs r) b = true;
  so_marked : forall i, 0 <= i < ly_inodes ly -> marked ly d i = true -> bit (rp_alloc r) i = true;
  so_all : forall i, 0 <= i < ly_inodes ly -> bit (rp_alloc r) i = true -> i + 1 ∈ L;
  so_same : rp_missing_i r = 0 -> forall i, 0 <= i < ly_inodes ly -> bit (rp_alloc r) i = marked ly d i
}.

Section Sound.

Context (ly : layout) (Hly : lay_ok ly) (d0 : device) (Hd : dev_ok d0) (r : repair_t) (L : list Z) (HS : scan_ok ly d0 r L).

Implicit Types (g b : Z).

Lemma desc_of g : 0 <= g < ly_groups ly -> desc_ok ly d0 g.
Proof. intros Hg. pose proof (so_desc _ _ _ _ HS) as H. rewrite Forall_forall in H. apply H, elem_of_seqZ. lia. Qed.

Lemma group_of g : 0 <= g < ly_groups ly -> g ∈ seqZ 0 (ly_groups ly).
Proof. intros Hg. apply elem_of_seqZ. lia. Qed.

Lemma itb_pos : 1 <= ly_itb ly.
Proof.
  rewrite (lo_itb _ Hly). destruct (lo_isize _ Hly) as (k & Hk & ->). pose proof (lo_ipg _ Hly).
  pose proof (Z.pow_le_mono_r 2 7 k ltac:(lia) ltac:(lia)). change (2 ^ 7) with 128 in *. apply Z.div_le_lower_bound; nia.
Qed.

Lemma elem_of_meta g b :
  b ∈ meta ly d0 g <-> group_start ly g <= b < Z.min (Z.min (bb_of d0 g) (ib_of d0 g)) (it_of d0 g) \/ b = bb_of d0 g \/ b = ib_of d0 g \/
    it_of d0 g <= b < it_of d0 g + ly_itb ly.
Proof. unfold meta. rewrite !elem_of_app, !elem_of_cons, elem_of_nil, !elem_of_seqZ. intuition lia. Qed.

Lemma meta_in_group g b : 0 <= g < ly_groups ly -> b ∈ meta ly d0 g -> group_start ly g <= b < group_end ly g.
Proof. intros Hg H%elem_of_meta. pose proof (desc_of g Hg) as (? & ? & ? & ?). pose proof itb_pos. lia. Qed.

Lemma group_ranges g g' b : 0 <= g -> 0 <= g' -> group_start ly g <= b < group_end ly g -> group_start ly g' <= b < group_end ly g' -> g = g'.
Proof. destruct Hly. unfold group_end, group_start. intros. assert (g < g' \/ g = g' \/ g' < g) as [?|[?|?]] by lia; [nia|done|nia]. Qed.

Lemma meta_nodup g : 0 <= g < ly_groups ly -> NoDup (meta ly d0 g).
Proof. intros Hg. eapply concat_nodup; [apply (so_meta _ _ _ _ HS)|by apply group_of]. Qed.

(** The bitmaps of a group are apart from each other and from its inode table. *)
Lemma bitmaps_apart g : 0 <= g < ly_groups ly -> bb_of d0 g <> ib_of d0 g /\
  forall b, it_of d0 g <= b < it_of d0 g + ly_itb ly -> b <> bb_of d0 g /\ b <> ib_of d0 g.
Proof.
  intros Hg. pose proof (meta_nodup g Hg) as Hn. unfold meta in Hn. apply NoDup_app in Hn as (_ & _ & Hn). cbn [app] in Hn.
  apply NoDup_cons in Hn as [H1 Hn]. apply NoDup_cons in Hn as [H2 _]. rewrite elem_of_cons, elem_of_seqZ in H1. rewrite elem_of_seqZ in H2.
  split; [tauto|]. intros b Hb. split; intros ->; tauto.
Qed.

Lemma bitmaps_in g : 0 <= g < ly_groups ly -> group_start ly g <= bb_of d0 g < group_end ly g /\ group_start ly g <= ib_of d0 g < group_end ly g.
Proof. intros Hg. pose proof (desc_of g Hg) as (? & ? & ? & ?). lia. Qed.

Lemma apart_scan : apart ly d0.
Proof.
  assert (Hr : forall g g' b, 0 <= g < ly_groups ly -> 0 <= g' < ly_groups ly -> group_start ly g <= b < group_end ly g -> group_start ly g' <= b < group_end ly g' -> g = g')
    by (intros; eapply group_ranges; [lia|lia|done|done]).
  split.
  - intros g g' Hg Hg' E. destruct (bitmaps_in g Hg), (bitmaps_in g' Hg'). assert (g = g') as <- by (apply (Hr g g' (bb_of d0 g)); [done|done|done|by rewrite E]).
    by apply (proj1 (bitmaps_apart g Hg)).
  - intros g g' Hg Hg' Hn. destruct (bitmaps_in g Hg), (bitmaps_in g' Hg'). split; intros E; apply Hn.
    + apply (Hr g g' (bb_of d0 g)); [done|done|done|by rewrite E].
    + apply (Hr g g' (ib_of d0 g)); [done|done|done|by rewrite E].
Qed.

(** The blocks a repair writes. *)
Definition written b : Prop := b = 0 \/ b = 1 \/ bitmap ly d0 b.

Context (Hfront : front d0).

Lemma start_high g : 1 <= g < ly_groups ly -> 2 < group_start ly g.
Proof.
  intros Hg. destruct Hfront as (H1 & _). pose proof (lo_groups _ Hly). destruct (bitmaps_in 0 ltac:(lia)) as [H2 _]. unfold group_end, group_start in *.
  pose proof (lo_bpg _ Hly). nia.
Qed.

Lemma bitmap_high b : bitmap ly d0 b -> 1 < b.
Proof.
  intros (g & Hg & Hb). destruct (decide (g = 0)) as [->|]; [destruct Hfront as (? & ? & _); lia|].
  pose proof (start_high g ltac:(lia)). destruct (bitmaps_in g Hg). lia.
Qed.

Lemma written_meta b : written b -> b ∈ concat (meta ly d0 <$> seqZ 0 (ly_groups ly)).
Proof.
  pose proof (lo_groups _ Hly) as HG. destruct Hfront as (F1 & F2 & F3). intros [->|[->|(g & Hg & Hb)]]; apply elem_of_concat_fmap.
  - exists 0. split; [apply group_of; lia|]. apply elem_of_meta. left. unfold group_start. lia.
  - exists 0. split; [apply group_of; lia|]. apply elem_of_meta. left. unfold group_start. lia.
  - exists g. split; [by apply group_of|]. apply elem_of_meta. intuition.
Qed.

(** The inode tables are not written. *)
Lemma inode_block_in ino : 1 <= ino <= ly_inodes ly -> exists g, g = (ino - 1) / ly_ipg ly /\ 0 <= g < ly_groups ly /\
  it_of d0 g <= inode_block ly d0 ino < it_of d0 g + ly_itb ly.
Proof.
  intros Hi. exists ((ino - 1) / ly_ipg ly). split; [done|]. pose proof (lo_ipg _ Hly). pose proof (lo_inodes _ Hly).
  assert (Hg : 0 <= (ino - 1) / ly_ipg ly < ly_groups ly) by (split; [apply Z.div_pos; lia|apply Z.div_lt_upper_bound; nia]). split; [done|].
  set (g := (ino - 1) / ly_ipg ly) in *. unfold inode_block. fold g. pose proof (Z.mod_pos_bound (ino - 1) (ly_ipg ly) ltac:(lia)) as Hm. set (idx := _ mod _) in *.
  destruct (lo_isize _ Hly) as (k & Hk & Es). assert (Hpos : 0 < ly_isize ly) by (rewrite Es; apply Z.pow_pos_nonneg; lia).
  assert (Hq : 0 <= idx * ly_isize ly / BS < ly_itb ly).
  { rewrite (lo_itb _ Hly). unfold BS. split; [apply Z.div_pos; nia|]. apply Z.div_lt_upper_bound; [lia|].
    pose proof (Z.div_mod (ly_ipg ly * ly_isize ly + 4095) 4096). pose proof (Z.mod_pos_bound (ly_ipg ly * ly_isize ly + 4095) 4096). nia. }
  pose proof (desc_of g Hg) as (_ & _ & H1 & H2). pose proof (lo_blocks _ Hly). pose proof (lo_bpg _ Hly). pose proof (lo_groups _ Hly).
  assert (0 <= it_of d0 g) by (unfold it_of; by apply rd32_range, dev_read_bytes).
  rewrite u32_small; [lia|]. unfold group_end in *. nia.
Qed.

Lemma inode_block_kept ino : 1 <= ino <= ly_inodes ly -> ~ written (inode_block ly d0 ino).
Proof.
  intros Hi. destruct (inode_block_in ino Hi) as (g & _ & Hg & Hb). pose proof (desc_of g Hg) as (_ & _ & H1 & H2).
  assert (Hhigh : 1 < inode_block ly d0 ino).
  { destruct (decide (g = 0)) as [->|]; [destruct Hfront as (_ & _ & ?); lia|]. pose proof (start_high g ltac:(lia)). lia. }
  intros [E|[E|(g' & Hg' & E)]]; [lia|lia|].
  assert (g' = g) as ->; [|destruct (bitmaps_apart g Hg) as [_ Ha]; destruct (Ha _ Hb); tauto].
  apply (group_ranges g' g (inode_block ly d0 ino)); [lia|lia| |lia]. destruct (bitmaps_in g' Hg'). destruct E as [->| ->]; done.
Qed.

(** ** A later disk *)

Context (d : device) (Htouch : touches written d0 d)
  (Hptr : forall g, 0 <= g < ly_groups ly -> bb_of d g = bb_of d0 g /\ ib_of d g = ib_of d0 g /\ it_of d g = it_of d0 g).

Lemma inode_at_same ino : 1 <= ino <= ly_inodes ly -> inode_at ly d ino = inode_at ly d0 ino.
Proof.
  intros Hi. destruct (inode_block_in ino Hi) as (g & Eg & Hg & _). assert (E : inode_block ly d ino = inode_block ly d0 ino).
  { unfold inode_block. rewrite <- Eg. by rewrite (proj2 (proj2 (Hptr g Hg))). }
  unfold inode_at. rewrite E. by rewrite (blk_touches _ _ _ _ Htouch) by (by apply inode_block_kept).
Qed.

Lemma pointers_same b : ~ written b -> pointers d b = pointers d0 b.
Proof. intros Hb. unfold pointers. by rewrite (blk_touches _ _ _ _ Htouch). Qed.

Lemma owned_single_same b : (b <> 0 -> ~ written b) -> owned_single d b = owned_single d0 b.
Proof. intros Hb. unfold owned_single. destruct (Z.eqb_spec b 0); [done|]. by rewrite pointers_same by auto. Qed.

Lemma owned_not_written i b : 0 <= i < ly_inodes ly -> i + 1 ∈ L -> b ∈ owned ly d0 (i + 1) -> ~ written b.
Proof.
  intros Hi HL Hb Hw. destruct (so_range _ _ _ _ HS b) as [_ Hn]; [apply elem_of_concat_fmap; by exists (i + 1)|]. by apply Hn, written_meta.
Qed.

Lemma nonzero_elem l p : p ∈ nonzero l -> p <> 0.
Proof. unfold nonzero. intros H%list_elem_of_In. apply List.filter_In in H as [_ H]. boolify. done. Qed.

Lemma owned_same i : 0 <= i < ly_inodes ly -> i + 1 ∈ L -> owned ly d (i + 1) = owned ly d0 (i + 1).
Proof.
  intros Hi HL. assert (Hw : forall b, b ∈ owned ly d0 (i + 1) -> ~ written b) by (intros b; by apply owned_not_written).
  assert (Et : tracked ly d (i + 1) = tracked ly d0 (i + 1)) by (unfold tracked; by rewrite inode_at_same by lia).
  unfold owned in *. rewrite Et, inode_at_same by lia. destruct (tracked ly d0 (i + 1)); [|done]. set (in_ := inode_at ly d0 (i + 1)) in *. f_equal. f_equal.
  - apply owned_single_same. intros Hz. apply Hw, elem_of_app. right. apply elem_of_app. left. unfold owned_single. rewrite (proj2 (Z.eqb_neq _ _)) by done. left.
  - set (b := rd32 in_ 92) in *. unfold owned_double in *. destruct (Z.eqb_spec b 0); [done|].
    assert (Hb : ~ written b) by (apply Hw; rewrite !elem_of_app; right; right; left). rewrite pointers_same by done. f_equal. f_equal.
    apply list_fmap_ext. intros j p Hp%list_elem_of_lookup_2. apply owned_single_same. intros Hz.
    apply Hw. rewrite !elem_of_app. right. right. right. apply elem_of_concat_fmap. exists p. split; [done|].
    unfold owned_single. rewrite (proj2 (Z.eqb_neq _ _)) by done. left.
Qed.

Lemma meta_same g : 0 <= g < ly_groups ly -> meta ly d g = meta ly d0 g.
Proof. intros Hg. destruct (Hptr g Hg) as (E1 & E2 & E3). unfold meta. by rewrite E1, E2, E3. Qed.

Context (Hb : forall g j, 0 <= g < ly_groups ly -> 0 <= j < 32768 -> bit (blk d (bb_of d0 g)) j = new_b ly d0 r g j)
        (Hi : forall g j, 0 <= g < ly_groups ly -> 0 <= j < 32768 -> bit (blk d (ib_of d0 g)) j = new_i ly d0 r g j).

Lemma free_b_on g : 0 <= g < ly_groups ly -> free_blocks_on ly d g = free_b ly d0 r g.
Proof.
  intros Hg. unfold free_blocks_on, free_b. rewrite (proj1 (Hptr g Hg)). change (clear_count ?m ?n) with (clear_of (bit m) n).
  apply clear_of_ext. intros j Hj. apply Hb; [done|]. destruct (valid_b_range ly Hly g Hg) as [? _]. lia.
Qed.

Lemma free_i_on g : 0 <= g < ly_groups ly -> free_inodes_on ly d g = free_i ly d0 r g.
Proof.
  intros Hg. unfold free_inodes_on, free_i. rewrite (proj1 (proj2 (Hptr g Hg))). change (clear_count ?m ?n) with (clear_of (bit m) n).
  apply clear_of_ext. intros j Hj. apply Hi; [done|]. destruct (valid_i_range ly Hly g Hg) as [? _]. lia.
Qed.

(** A marked inode was scanned. *)
Lemma marked_scanned i : 0 <= i < ly_inodes ly -> marked ly d i = true -> i + 1 ∈ L.
Proof.
  intros Hr Hm. apply (so_all _ _ _ _ HS i Hr). pose proof (lo_ipg _ Hly) as Hp. pose proof (lo_inodes _ Hly) as Hn.
  assert (Hg : 0 <= i / ly_ipg ly < ly_groups ly) by (split; [apply Z.div_pos; lia|apply Z.div_lt_upper_bound; nia]).
  pose proof (Z.mod_pos_bound i (ly_ipg ly) ltac:(lia)) as Hmod. pose proof (Z.div_mod i (ly_ipg ly) ltac:(lia)) as Hdm.
  unfold marked in Hm. rewrite (proj1 (proj2 (Hptr _ Hg))), Hi in Hm by lia. unfold new_i in Hm.
  replace (i / ly_ipg ly * ly_ipg ly + i mod ly_ipg ly) with i in Hm by lia. apply orb_prop in Hm as [Hm|Hm]; [|by apply andb_prop in Hm as [_ Hm]].
  by apply (so_marked _ _ _ _ HS).
Qed.

(** A referenced block is marked. *)
Lemma refs_marked b : 0 <= b < ly_blocks ly -> bit (rp_refs r) b = true -> block_bit ly d b = true.
Proof.
  intros Hr Hm. pose proof (lo_bpg _ Hly) as Hp. pose proof (lo_blocks _ Hly) as Hn.
  assert (Hg : 0 <= b / ly_bpg ly < ly_groups ly) by (split; [apply Z.div_pos; lia|apply Z.div_lt_upper_bound; nia]).
  pose proof (Z.mod_pos_bound b (ly_bpg ly) ltac:(lia)) as Hmod. pose proof (Z.div_mod b (ly_bpg ly) ltac:(lia)) as Hdm.
  unfold block_bit. rewrite (proj1 (Hptr _ Hg)), Hb by lia. unfold new_b, group_start. replace (b / ly_bpg ly * ly_bpg ly + b mod ly_bpg ly) with b by lia.
  rewrite Hm, andb_true_r. apply orb_true_iff. right. apply Z.ltb_lt. unfold valid_b, group_end, group_start. lia.
Qed.

Lemma sound_intro :
  (forall g, 0 <= g < ly_groups ly -> counters ly d0 r (blk d 1) g) ->
  (rd32 (super_of d) 12, rd32 (super_of d) 16) = totals ly d0 r (ly_groups ly) ->
  Z.land (rd16 (super_of d) 58) VALID_FS <> 0 -> Z.land (rd16 (super_of d) 58) ERROR_FS = 0 -> fs_sound ly d.
Proof.
  intros Hc [= Eb Ei] Hv He. split.
  - intros g Hg. rewrite free_b_on by done. by apply Hc.
  - intros g Hg. rewrite free_i_on by done. by apply Hc.
  - rewrite Eb. f_equal. apply list_fmap_ext. intros j g Hg%list_elem_of_lookup_2%elem_of_seqZ. symmetry. apply free_b_on. lia.
  - rewrite Ei. f_equal. apply list_fmap_ext. intros j g Hg%list_elem_of_lookup_2%elem_of_seqZ. symmetry. apply free_i_on. lia.
  - done.
  - intros g b Hg Hm. rewrite meta_same in Hm by done. destruct (meta_in_group g b Hg Hm) as [H1 H2]. pose proof (lo_bpg _ Hly).
    apply refs_marked; [unfold group_end, group_start in *; nia|]. apply (so_refs _ _ _ _ HS). left. apply elem_of_concat_fmap. exists g. split; [by apply group_of|done].
  - intros i b Hr Hm Ho. pose proof (marked_scanned i Hr Hm) as HL. rewrite owned_same in Ho by done.
    assert (Hin : b ∈ concat (owned ly d0 <$> L)) by (apply elem_of_concat_fmap; by exists (i + 1)). destruct (so_range _ _ _ _ HS b Hin) as [Hbr _].
    split; [done|]. apply refs_marked; [done|]. apply (so_refs _ _ _ _ HS). by right.
  - intros i i' b Hr Hr' Hn Hm Hm' Ho Ho'. pose proof (marked_scanned i Hr Hm) as HL. pose proof (marked_scanned i' Hr' Hm') as HL'.
    rewrite owned_same in Ho, Ho' by done. eapply (concat_disjoint (owned ly d0) L (i + 1) (i' + 1)); [apply (so_unique _ _ _ _ HS)|done|done|lia|done|done].
Qed.

End Sound.

(** * The superblock *)

Section Super.

Context (ly : layout).

Implicit Types (d : device) (sb : bytes).

(** The superblock is written, perhaps in part: it is the old one or the new one. *)
Record super_step (sb : bytes) (d d' : device) : Prop := SuperStep {
  ss_touches : touches (λ b, b = 0) d d';
  ss_super : super_of d' = super_of d \/ super_of d' = sb
}.

Lemma super_step_refl sb d : super_step sb d d.
Proof. split; [apply touches_refl|by left]. Qed.

Lemma rwp_write_super sb e (Q : () -> repair_t -> device -> Prop) (C : option rerror -> device -> Prop) r d :
  e <> OutOfFuel -> length sb = 1024%nat -> Forall is_byte sb -> drop 512 sb = drop 512 (super_of d) -> dev_ok d ->
  (forall d', super_step sb d d' -> super_of d' = sb -> dev_ok d' -> Q tt r d') ->
  (forall o d', o <> Some OutOfFuel -> super_step sb d d' -> C o d') ->
  rwp (write_super ly sb e) Q C r d.
Proof.
  intros He Hl Hby Ht Hok HQ HC. assert (Hse : Some e <> Some OutOfFuel) by congruence. unfold write_super. apply rwp_or_fail. apply rwp_bind. unfold rw_write, rwp at 1.
  destruct (outside _ _ _); [apply dwp_ret; apply HC; [done|apply super_step_refl]|].
  assert (Htorn : forall k, super_step sb d (dev_write d 1024 (take (k * 512) sb))).
  { intros k. split; [apply super_write_touches; rewrite length_take; lia|by apply torn_super]. }
  apply dwp_bind, dwp_write; change (2 * SECTOR_SIZE) with 1024.
  2:{ intros k. split; [apply dwp_ret|]; by apply HC. }
  apply dwp_ret. set (d' := dev_write d 1024 sb). assert (Hs : super_of d' = sb) by (unfold super_of, d'; rewrite <- Hl; apply dev_read_write).
  assert (Hstep : super_step sb d d') by (split; [apply super_write_touches; lia|by right]).
  apply rwp_bind. unfold rw_read, rwp at 1. destruct (outside _ _ _); [apply dwp_ret; by apply HC|].
  apply dwp_bind, dwp_read; [apply dwp_ret|apply dwp_ret; by apply HC|by apply HC].
  destruct (bool_decide _); [|by apply rwp_fail, HC]. apply rwp_ret. apply HQ; [done|done|by apply dev_write_ok].
Qed.

Lemma progress_shape sb : length sb = 1024%nat -> length (progress_super sb) = 1024%nat /\ drop 512 (progress_super sb) = drop 512 sb.
Proof. intros H. apply wr16_super; [done|lia]. Qed.

Lemma progress_bytes sb : Forall is_byte sb -> Forall is_byte (progress_super sb).
Proof. intros H. apply splice_is_bytes; [apply le_bytes_is_byte|done]. Qed.

Lemma land_1 x : Z.land x 1 = if Z.testbit x 0 then 1 else 0.
Proof. change 1 with (Z.ones 1) at 1. rewrite Z.land_ones by lia. rewrite <- Z.bit0_mod. by destruct (Z.testbit x 0). Qed.

Lemma land_2 x : Z.testbit x 1 = false -> Z.land x 2 = 0.
Proof.
  intros H. apply Z.bits_inj'. intros n Hn. rewrite Z.land_spec, Z.bits_0. change 2 with (2 ^ 1). destruct (decide (n = 1)) as [->|]; [by rewrite H|].
  rewrite Z.pow2_bits_false by done. apply andb_false_r.
Qed.

Lemma u16_bit x n : 0 <= n < 16 -> Z.testbit (u16 x) n = Z.testbit x n.
Proof. intros Hn. unfold u16. apply Z.mod_pow2_bits_low. lia. Qed.

(** While the repair is in progress the file system is not marked clean. *)
Lemma progress_invalid sb : length sb = 1024%nat -> Z.land (rd16 (progress_super sb) 58) VALID_FS = 0.
Proof.
  intros H. unfold progress_super. rewrite rd16_wr16 by lia. unfold VALID_FS. rewrite land_1, u16_bit, Z.ldiff_spec by lia. change (Z.testbit 1 0) with true. by rewrite andb_false_r.
Qed.

Lemma final_shape sb x : length sb = 1024%nat -> length (final_super sb x) = 1024%nat /\ drop 512 (final_super sb x) = drop 512 sb.
Proof.
  intros H. unfold final_super. destruct (wr32_super sb 12 x.1 H) as [H1 E1]; [lia|]. set (p1 := wr32 sb _ _) in *. clearbody p1.
  destruct (wr32_super p1 16 x.2 H1) as [H2 E2]; [lia|]. set (p2 := wr32 p1 _ _) in *. clearbody p2.
  destruct (wr16_super p2 58 (Z.ldiff (Z.lor (rd16 p2 58) VALID_FS) ERROR_FS) H2) as [H3 E3]; [lia|]. split; [done|congruence].
Qed.

Lemma final_bytes sb x : Forall is_byte sb -> Forall is_byte (final_super sb x).
Proof. intros H. repeat (apply splice_is_bytes; [apply le_bytes_is_byte|]). done. Qed.

Lemma final_fields sb x :
  length sb = 1024%nat -> rd32 (final_super sb x) 12 = u32 x.1 /\ rd32 (final_super sb x) 16 = u32 x.2 /\
  Z.land (rd16 (final_super sb x) 58) VALID_FS <> 0 /\ Z.land (rd16 (final_super sb x) 58) ERROR_FS = 0.
Proof.
  intros H. unfold final_super. set (p1 := wr32 sb _ _). assert (H1 : length p1 = 1024%nat) by (unfold p1; rewrite wr32_length; lia).
  set (p2 := wr32 p1 _ _). assert (H2 : length p2 = 1024%nat) by (unfold p2; rewrite wr32_length; lia).
  rewrite !rd32_wr16, rd16_wr16 by lia. unfold p2 at 1 2. rewrite rd32_wr32, rd32_wr32_ne by lia. unfold p1 at 1. rewrite rd32_wr32 by lia.
  split; [done|]. split; [done|]. unfold VALID_FS, ERROR_FS. split.
  - rewrite land_1, u16_bit, Z.ldiff_spec, Z.lor_spec by lia. change (Z.testbit 1 0) with true. rewrite orb_true_r. done.
  - apply land_2. rewrite u16_bit, Z.ldiff_spec by lia. apply andb_false_r.
Qed.

End Super.

(** * The writes *)

Section Writes.

Context (ly : layout) (Hly : lay_ok ly) (d0 : device) (Hd : dev_ok d0).

(** Only the superblock, the descriptors and the bitmaps may differ, and no bit of
    a bitmap is cleared. *)
Record kept (d : device) : Prop := Kept {
  kp_touches : touches (written ly d0) d0 d;
  kp_bits : forall b j, bitmap ly d0 b -> 0 <= j < 32768 -> bit (blk d0 b) j = true -> bit (blk d b) j = true
}.

(** Nothing but the superblock was touched and it is the old one, or the file
    system is not marked clean, or it is in order. *)
Definition visible (d : device) : Prop :=
  (super_of d = super_of d0 /\ touches (λ b, b = 0) d0 d) \/ Z.land (rd16 (super_of d) 58) VALID_FS = 0 \/ fs_sound ly d.

Definition halted (o : option rerror) (d : device) : Prop := kept d /\ visible d /\ o <> Some OutOfFuel.

Lemma kept_refl : kept d0.
Proof. split; [apply touches_refl|auto]. Qed.

Lemma halted_refl o : o <> Some OutOfFuel -> halted o d0.
Proof. intros Ho. split; [apply kept_refl|]. split; [|done]. left. split; [done|apply touches_refl]. Qed.

Context (rS : repair_t) (L : list Z) (HS : scan_ok ly d0 rS L) (Hfront : front d0).

Lemma written_0 b : b = 0 -> written ly d0 b.
Proof. by left. Qed.

(** A write outside the bitmaps. *)
Lemma kept_other d d' b : (b = 0 \/ b = 1) -> kept d -> touches (λ x, x = b) d d' -> kept d'.
Proof.
  intros Hb [K1 K2] Ht. split.
  - eapply touches_trans; [exact K1|]. eapply touches_mono; [|exact Ht]. intros x ->. destruct Hb as [->| ->]; [by left|right; by left].
  - intros x j Hx Hj H. rewrite (blk_touches _ _ _ _ Ht); [by apply K2|]. intros ->. pose proof (bitmap_high ly Hly d0 rS L HS Hfront _ Hx). lia.
Qed.

Lemma total_range (f : Z -> Z) k : 0 <= k <= 128 -> (forall g, 0 <= g < k -> 0 <= f g < 65536) -> 0 <= zsum (f <$> seqZ 0 k) < 2 ^ 32.
Proof.
  intros Hk Hf. assert (H : 0 <= zsum (f <$> seqZ 0 k) <= 65536 * k); [|lia]. destruct Hk as [H0 _]. revert Hf. pattern k. apply natlike_ind; [| |done].
  - intros _. change (seqZ 0 0) with (@nil Z). change (zsum (f <$> [])) with 0. lia.
  - clear k H0. intros k Hk IH Hf. unfold Z.succ. rewrite seqZ_app, Z.add_0_l, (seqZ_cons k 1) by lia. change (seqZ (Z.succ k) (Z.pred 1)) with (@nil Z).
    rewrite fmap_app, zsum_app. cbn [fmap list_fmap]. change (zsum [f k]) with (f k + 0). pose proof (Hf k ltac:(lia)).
    assert (0 <= zsum (f <$> seqZ 0 k) <= 65536 * k) by (apply IH; intros g Hg; apply Hf; lia). lia.
Qed.

(** The disk with the superblock of a repair in progress. *)
Section Started.

Context (d1 : device) (H1 : touches (λ b, b = 0) d0 d1) (Hok1 : dev_ok d1).

Lemma started_blk b : b <> 0 -> blk d1 b = blk d0 b.
Proof. intros Hb. by apply (blk_touches _ _ _ _ H1). Qed.

Lemma started_bb g : bb_of d1 g = bb_of d0 g.
Proof. unfold bb_of. by rewrite started_blk. Qed.

Lemma started_ib g : ib_of d1 g = ib_of d0 g.
Proof. unfold ib_of. by rewrite started_blk. Qed.

Lemma started_it g : it_of d1 g = it_of d0 g.
Proof. unfold it_of. by rewrite started_blk. Qed.

Lemma started_bitmap b : bitmap ly d1 b <-> bitmap ly d0 b.
Proof. unfold bitmap. split; intros (g & Hg & Hb); exists g; rewrite started_bb, started_ib in *; auto. Qed.

Lemma bitmap_bb g : 0 <= g < ly_groups ly -> bitmap ly d0 (bb_of d0 g).
Proof. intros Hg. exists g. auto. Qed.

Lemma bitmap_ib g : 0 <= g < ly_groups ly -> bitmap ly d0 (ib_of d0 g).
Proof. intros Hg. exists g. auto. Qed.

Lemma bitmap_blk b : bitmap ly d0 b -> blk d1 b = blk d0 b.
Proof. intros Hb. apply started_blk. pose proof (bitmap_high ly Hly d0 rS L HS Hfront b Hb). lia. Qed.

Lemma started_new_b g j : 0 <= g < ly_groups ly -> new_b ly d1 rS g j = new_b ly d0 rS g j.
Proof. intros Hg. unfold new_b. rewrite started_bb. by rewrite (bitmap_blk _ (bitmap_bb g Hg)). Qed.

Lemma started_new_i g j : 0 <= g < ly_groups ly -> new_i ly d1 rS g j = new_i ly d0 rS g j.
Proof. intros Hg. unfold new_i. rewrite started_ib. by rewrite (bitmap_blk _ (bitmap_ib g Hg)). Qed.

Lemma started_free_b g : 0 <= g < ly_groups ly -> free_b ly d1 rS g = free_b ly d0 rS g.
Proof. intros Hg. apply clear_of_ext. intros j _. by apply started_new_b. Qed.

Lemma started_free_i g : 0 <= g < ly_groups ly -> free_i ly d1 rS g = free_i ly d0 rS g.
Proof. intros Hg. apply clear_of_ext. intros j _. by apply started_new_i. Qed.

Lemma started_counters gdt g : 0 <= g < ly_groups ly -> counters ly d1 rS gdt g -> counters ly d0 rS gdt g.
Proof. intros Hg. unfold counters. by rewrite started_free_b, started_free_i. Qed.

Lemma started_totals : totals ly d1 rS (ly_groups ly) = totals ly d0 rS (ly_groups ly).
Proof.
  unfold totals.
  assert (E1 : free_b ly d1 rS <$> seqZ 0 (ly_groups ly) = free_b ly d0 rS <$> seqZ 0 (ly_groups ly))
    by (apply list_fmap_ext; intros j g Hg%list_elem_of_lookup_2%elem_of_seqZ; apply started_free_b; lia).
  assert (E2 : free_i ly d1 rS <$> seqZ 0 (ly_groups ly) = free_i ly d0 rS <$> seqZ 0 (ly_groups ly))
    by (apply list_fmap_ext; intros j g Hg%list_elem_of_lookup_2%elem_of_seqZ; apply started_free_i; lia).
  by rewrite E1, E2.
Qed.

Lemma started_inv : ro_inv ly d1 rS.
Proof. destruct (so_inv _ _ _ _ HS). split; try done. by rewrite started_blk. Qed.

Lemma started_apart : apart ly d1.
Proof. destruct (apart_scan ly Hly d0 rS L HS) as [A1 A2]. split; intros g g'; rewrite ?started_bb, ?started_ib; auto. Qed.

Lemma started_pointers : pointers_kept ly d1 (blk d0 1).
Proof.
  split; [apply blk_length|]. split; [by apply dev_read_bytes|]. intros g Hg. rewrite started_bb, started_ib, started_it. done.
Qed.

(** Bitmaps gained bits since. *)
Lemma kept_more d : more ly d1 d1 d -> kept d.
Proof.
  intros [M1 M2]. split.
  - eapply touches_trans; [eapply touches_mono; [|exact H1]; intros b ->; by left|]. eapply touches_mono; [|exact M1]. intros b Hb. right. right. by apply started_bitmap.
  - intros b j Hb Hj Ho. apply M2; [by apply started_bitmap|done|]. by rewrite bitmap_blk.
Qed.

(** The bitmaps do not hold the superblock. *)
Lemma more_super d : more ly d1 d1 d -> super_of d = super_of d1.
Proof.
  intros [M1 _]. apply (super_touches _ _ _ M1). intros Hb%started_bitmap. pose proof (bitmap_high ly Hly d0 rS L HS Hfront 0 Hb). lia.
Qed.

(** Everything is in place. *)
Lemma repaired_sound x r2 d2 d3 d4 sb :
  fixing ly d1 rS (ly_groups ly) x r2 d2 -> touches (λ b, b = 1) d2 d3 -> blk d3 1 = rp_gdt r2 -> touches (λ b, b = 0) d3 d4 ->
  length sb = 1024%nat -> super_of d4 = final_super sb x -> fs_sound ly d4.
Proof.
  intros Hf T3 K3 T4 Hl Es. pose proof (kept_more _ (fi_more _ _ _ _ _ _ _ Hf)) as Hk2. pose proof (kept_other _ _ 1 ltac:(by right) Hk2 T3) as Hk3.
  pose proof (kept_other _ _ 0 ltac:(by left) Hk3 T4) as Hk4. destruct (fi_gdt _ _ _ _ _ _ _ Hf) as (_ & _ & Hp).
  assert (E1 : blk d4 1 = rp_gdt r2) by (rewrite (blk_touches _ _ _ _ T4); [done|lia]).
  assert (Hptr : forall g, 0 <= g < ly_groups ly -> bb_of d4 g = bb_of d0 g /\ ib_of d4 g = ib_of d0 g /\ it_of d4 g = it_of d0 g).
  { intros g Hg. destruct (Hp g Hg) as (P1 & P2 & P3). unfold bb_of at 1, ib_of at 1, it_of at 1. rewrite E1, P1, P2, P3.
    by rewrite started_bb, started_ib, started_it. }
  assert (Hbm : forall b, bitmap ly d0 b -> blk d4 b = blk d2 b).
  { intros b Hb. pose proof (bitmap_high ly Hly d0 rS L HS Hfront b Hb). rewrite (blk_touches _ _ _ _ T4), (blk_touches _ _ _ _ T3); [done|lia|lia]. }
  destruct (final_fields sb x Hl) as (F1 & F2 & F3 & F4). rewrite (fi_totals _ _ _ _ _ _ _ Hf), started_totals in *. pose proof (lo_groups _ Hly).
  eapply (sound_intro ly Hly d0 Hd rS L HS Hfront d4); [apply Hk4|done| | | | | |].
  - intros g j Hg Hj. rewrite Hbm by (by apply bitmap_bb). rewrite <- started_new_b by done. rewrite <- started_bb. by apply (fi_done _ _ _ _ _ _ _ Hf).
  - intros g j Hg Hj. rewrite Hbm by (by apply bitmap_ib). rewrite <- started_new_i by done. rewrite <- started_ib. by apply (fi_done _ _ _ _ _ _ _ Hf).
  - intros g Hg. rewrite E1. apply started_counters; [done|]. by apply (fi_done _ _ _ _ _ _ _ Hf).
  - rewrite Es, F1, F2. cbn [fst snd totals]. rewrite !u32_small; [done|apply total_range; [lia|]|apply total_range; [lia|]].
    + intros g Hg. apply (free_i_range ly d0 rS Hly g Hg).
    + intros g Hg. apply (free_b_range ly d0 rS Hly g Hg).
  - by rewrite Es.
  - by rewrite Es.
Qed.

End Started.

Lemma fixing_start d1 r :
  touches (λ b, b = 0) d0 d1 -> dev_ok d1 -> ro_inv ly d0 r -> same_maps rS r -> fixing ly d1 rS 0 (0, 0) (set_counts r 0 0) d1.
Proof.
  intros H1 Hok1 Hr [M1 M2 M3 M4 M5 M6]. split; [by split| |apply more_refl|done| | |done].
  - cbn [set_counts rp_gdt]. rewrite (ri_gdt _ _ _ Hr). by apply started_pointers.
  - intros g Hg. lia.
  - done.
Qed.

Lemma rwp_repair_writes r :
  ro_inv ly d0 r -> same_maps rS r ->
  rwp (repair_writes ly (super_of d0)) (λ _ _ d', kept d' /\ fs_sound ly d') halted r d0.
Proof.
  intros Hr Hm. assert (Hl : length (super_of d0) = 1024%nat) by apply dev_read_length. destruct (progress_shape _ Hl) as [Pl Pd].
  set (sb := progress_super (super_of d0)) in *. unfold repair_writes. fold sb. assert (Hbs : Forall is_byte sb) by (by apply progress_bytes, super_bytes).
  apply rwp_bind, rwp_write_super; [done|done|done|done|done| |].
  2:{ intros o d' Ho [T1 S1]. split; [apply (kept_other d0 _ 0); [by left|apply kept_refl|done]|]. split; [|done].
      destruct S1 as [E|E]; [by left|]. right. left. rewrite E. by apply progress_invalid. }
  intros d1 [T1 _] S1 Ok1. apply rwp_bind, rwp_mod. pose proof (fixing_start d1 r T1 Ok1 Hr Hm) as H0.
  assert (Hinv : forall d, super_of d = sb -> visible d) by (intros d E; right; left; rewrite E; by apply progress_invalid).
  apply rwp_bind. eapply rwp_conseq; [apply (rwp_reconcile_true ly d1 rS Hly (started_inv d1 T1) _ _ (started_apart d1 T1) H0)| |].
  2:{ intros o d' [Hmo Ho]. split; [by apply (kept_more d1)|]. split; [|done]. apply Hinv. by rewrite (more_super d1 T1 d' Hmo). }
  cbn beta. intros x r2 d2 Hf. pose proof (fi_more _ _ _ _ _ _ _ Hf) as Hmo. pose proof (kept_more d1 T1 d2 Hmo) as Hk2.
  assert (S2 : super_of d2 = sb) by (by rewrite (more_super d1 T1 d2 Hmo)).
  apply rwp_bind, rwp_mod, rwp_bind, rwp_get.
  assert (Eg : rp_gdt (if super_differs sb x then set_counts r2 (rp_missing_b r2) (rp_mismatch r2 + 1) else r2) = rp_gdt r2) by (by destruct (super_differs sb x)).
  rewrite Eg. destruct (fi_gdt _ _ _ _ _ _ _ Hf) as (Hgl & Hgb & _).
  apply rwp_bind, rwp_write_block; [done|done|by apply (fi_ok _ _ _ _ _ _ _ Hf)| |].
  2:{ intros o d' Ho [T3 _]. split; [apply (kept_other d2 _ 1); [by right|done|done]|]. split; [|done]. apply Hinv. by rewrite (super_touches _ _ _ T3). }
  intros d3 T3 K3 Ok3. pose proof (kept_other d2 d3 1 ltac:(by right) Hk2 T3) as Hk3. assert (S3 : super_of d3 = sb) by (by rewrite (super_touches _ _ _ T3)).
  destruct (final_shape sb x Pl) as [Fl Fd].
  apply rwp_bind, rwp_write_super; [done|done|by apply final_bytes|by rewrite S3|done| |].
  - intros d4 [T4 _] S4 Ok4. apply rwp_ret. split; [by apply (kept_other d3 _ 0); [left|..]|]. by eapply (repaired_sound d1 T1 x r2 d2 d3 d4 sb).
  - intros o d4 Ho [T4 E4]. split; [by apply (kept_other d3 _ 0); [left|..]|]. split; [|done]. destruct E4 as [E4|E4]; [apply Hinv; congruence|].
    right. right. by eapply (repaired_sound d1 T1 x r2 d2 d3 d4 sb).
Qed.

End Writes.

(** * The whole run *)

Section Run.

Context (ly : layout) (Hly : lay_ok ly) (d0 : device) (Hd : dev_ok d0).

(** The state after the allocations. *)
Record fresh (r : repair_t) : Prop := Fresh {
  fr_inv : ro_inv ly d0 r;
  fr_refs : forall j, bit (rp_refs r) j = false;
  fr_alloc : forall j, bit (rp_alloc r) j = false;
  fr_scanned : forall j, bit (rp_scanned r) j = false;
  fr_missing : rp_missing_i r = 0
}.

Lemma rwp_scan r :
  fresh r ->
  rwp (scan ly) (λ _ r' d', d' = d0 /\ exists L, scan_ok ly d0 r' L) (roc d0) r d0.
Proof.
  intros [Hr Z1 Z2 Z3 Z4]. apply rwp_bind. eapply rwp_conseq; [apply (ro_mark_metadata ly Hly d0 r Hr)| |done]. cbn beta.
  intros _ r1 d1 (-> & Hr1 & Hm1 & Hg1 & Hdesc). apply rwp_bind. eapply rwp_conseq; [apply (rwp_load_inode_maps ly Hly d0 Hd r1 Hr1)| |done]. cbn beta.
  intros _ r2 d2 (-> & [I2 R2 S2 M2] & Hload).
  assert (H2 : scan_inv ly d0 r2 r2 []).
  { split; [done|constructor|constructor|apply marks_refl| |done|done|done]. intros i Hi. rewrite S2, (gr_scanned _ _ Hg1), Z3.
    by rewrite bool_decide_false by apply not_elem_of_nil. }
  eapply rwp_conseq; [apply (scan_passes_spec ly Hly d0 Hd _ r2 r2 [] H2)| |done]; [cbn [length]; lia|]. cbn beta.
  intros _ r3 d3 (-> & L & [[J1 J2 J3 J4 J5 J6 J7 J8] Hall]). split; [done|]. exists L.
  assert (Hrefs : forall j, 0 <= j -> bit (rp_refs r2) j = bool_decide (j ∈ concat (meta ly d0 <$> seqZ 0 (ly_groups ly)))).
  { intros j Hj. rewrite R2, (mk_bits _ _ _ _ Hm1), Z1 by done. done. }
  pose proof (mk_fresh _ _ _ _ J4) as Hfr. pose proof (mk_fresh _ _ _ _ Hm1) as Hfm. rewrite Forall_forall in Hfr, Hfm. split.
  - done.
  - done.
  - apply (mk_nodup _ _ _ _ Hm1).
  - intros b Hb. destruct (Hfr b Hb) as [Hbr Hbf]. split; [done|]. rewrite Hrefs in Hbf by lia. by apply bool_decide_eq_false in Hbf.
  - apply (mk_nodup _ _ _ _ J4).
  - intros b Hb. assert (Hpos : 0 <= b) by (destruct Hb as [Hb|Hb]; [destruct (Hfm b Hb)|destruct (Hfr b Hb)]; lia).
    rewrite (mk_bits _ _ _ _ J4), Hrefs by done. apply orb_true_iff. rewrite !bool_decide_eq_true. done.
  - intros i Hi Hmk. apply J6; [lia|]. rewrite Hload, Hmk by done. apply orb_true_r.
  - done.
  - intros Hz i Hi. assert (Hz1 : rp_missing_i r1 = rp_missing_i r) by (pose proof (gr_missing _ _ Hg1); lia).
    rewrite J8, Hload by (lia || done). by rewrite (gr_same _ _ Hg1 Hz1), Z2.
Qed.

(** A disk on which the check finds nothing is in order. *)
Lemma clean_sound rS L r x :
  front d0 -> scan_ok ly d0 rS L -> checked ly d0 rS (ly_groups ly) x r -> rp_missing_b r = 0 -> rp_missing_i r = 0 -> rp_mismatch r = 0 ->
  super_differs (super_of d0) x = false -> Z.land (rd16 (super_of d0) 58) VALID_FS <> 0 -> Z.land (rd16 (super_of d0) 58) ERROR_FS = 0 -> fs_sound ly d0.
Proof.
  intros Hfront HS [C1 C2 C3 C4 C5 C6 C7] Hb Hi Hm Hx Hv He. destruct (ri_counts _ _ _ (so_inv _ _ _ _ HS)) as [N1 N2].
  assert (Hmi : rp_missing_i rS = 0) by (rewrite <- (sm_missing _ _ C2); done). pose proof (lo_ipg _ Hly).
  eapply (sound_intro ly Hly d0 Hd rS L HS Hfront d0); [apply touches_refl|done| | | | |done|done].
  - intros g j Hg Hj. symmetry. apply C6; lia.
  - intros g j Hg Hj. unfold new_i. destruct (Z.ltb_spec j (valid_i ly g)) as [Hlt|]; cbn [andb]; [|by rewrite orb_false_r].
    destruct (valid_i_range ly Hly g Hg) as (V1 & V2 & V3). rewrite (so_same _ _ _ _ HS Hmi) by lia. unfold valid_i in *. destruct (group_inodes_range ly Hly g Hg).
    rewrite marked_in by (done || lia). by rewrite orb_diag.
  - intros g Hg. apply C7; lia.
  - rewrite <- C3. unfold super_differs in Hx. apply orb_false_iff in Hx as [X1 X2]. apply negb_false_iff in X1, X2. boolify. destruct x. cbn in *. congruence.
Qed.

Definition result_ok (repair : bool) (needs : bool) (d : device) : Prop :=
  kept ly d0 d /\ (repair = true \/ needs = false -> fs_sound ly d) /\ (repair && needs = false -> d = d0).

Definition stop_ok (repair : bool) (o : option rerror) (d : device) : Prop := halted ly d0 o d /\ (repair = false -> d = d0).

Lemma rwp_check_and_repair repair r :
  front d0 -> fresh r ->
  rwp (check_and_repair ly (super_of d0) repair) (λ x _ d', result_ok repair x.1 d') (stop_ok repair) r d0.
Proof.
  intros Hfront Hfr. assert (Hroc : forall o d', roc d0 o d' -> stop_ok repair o d') by (intros o d' [-> Ho]; split; [by apply halted_refl|done]).
  unfold check_and_repair. apply rwp_bind. eapply rwp_conseq; [by apply rwp_scan| |done]. cbn beta. intros _ rS d1 (-> & L & HS).
  apply rwp_bind. eapply rwp_conseq; [apply (rwp_reconcile_false ly d0 rS Hly Hd (so_inv _ _ _ _ HS))| |done]. cbn beta. intros x r1 d1 [-> Hck].
  apply rwp_bind, rwp_mod, rwp_bind, rwp_get. set (r2 := if super_differs (super_of d0) x then _ else _).
  assert (Hr2 : ro_inv ly d0 r2 /\ same_maps rS r2).
  { destruct Hck as [[] [] _ _ _ _ _]. unfold r2. destruct (super_differs _ _); split; split; cbn; (done || lia). }
  set (needs := _ || _). destruct needs eqn:En.
  - rewrite andb_true_r. apply rwp_bind. destruct repair.
    + eapply rwp_conseq; [apply (rwp_repair_writes ly Hly d0 Hd rS L HS Hfront r2); apply Hr2| |].
      * cbn beta. intros y r3 d3 [Hk Hs]. apply rwp_bind, rwp_get, rwp_ret. split; [done|]. split; [done|]. cbn. done.
      * intros o d' Hh. split; done.
    + apply rwp_ret, rwp_bind, rwp_get, rwp_ret. split; [apply kept_refl|]. split; [|done]. cbn. intros [?|?]; congruence.
  - rewrite andb_false_r. apply rwp_bind, rwp_ret, rwp_bind, rwp_get, rwp_ret. split; [apply kept_refl|]. split; [|done]. intros _.
    unfold needs in En. rewrite !orb_false_iff, !negb_false_iff in En. destruct En as [[[[E1 E2] E3] E4] E5]. boolify.
    assert (Hnd : super_differs (super_of d0) x = false /\ r2 = r1).
    { unfold r2 in *. destruct (super_differs (super_of d0) x); [|done]. cbn in E5. pose proof (ri_counts _ _ _ (ck_inv _ _ _ _ _ _ Hck)). lia. }
    destruct Hnd as [Hnd Er]. rewrite Er in *. by apply (clean_sound rS L r1 x).
Qed.

End Run.

(** * The theorems *)

(** What a run leaves. *)
Definition outcome_ok (ly : layout) (d0 : device) (repair : bool) (o : outcome ((bool * report) + rerror)) : Prop :=
  match o with
  | Val (inl (needs, _)) _ d => result_ok ly d0 repair needs d
  | Val (inr e) _ d => stop_ok ly d0 repair (Some e) d
  | Stopped d => stop_ok ly d0 repair None d
  | OutOfBounds => False
  end.

Lemma initial_fresh sectors d0 gdt :
  lay_ok (layout_of sectors (super_of d0)) -> gdt = blk d0 1 ->
  fresh (layout_of sectors (super_of d0)) d0
    (Repair gdt (repeat 0 (Z.to_nat BS)) (new_map (ly_blocks (layout_of sectors (super_of d0)))) (new_map (ly_inodes (layout_of sectors (super_of d0))))
       (new_map (ly_inodes (layout_of sectors (super_of d0)))) 0 0 0 0 (repeat 0 (Z.to_nat MAX_GROUPS))).
Proof.
  intros Hly ->. set (ly := layout_of sectors (super_of d0)) in *. pose proof (lo_groups _ Hly). pose proof (lo_blocks _ Hly). pose proof (lo_inodes _ Hly).
  pose proof (lo_bpg _ Hly). pose proof (lo_ipg _ Hly). split; cbn [rp_refs rp_alloc rp_scanned rp_missing_i]; try apply new_map_bit; [|done]. split; cbn [rp_gdt rp_block rp_refs rp_alloc rp_scanned rp_dpg rp_missing_b rp_mismatch].
  - done.
  - apply repeat_length.
  - apply Forall_forall. intros x Hx%list_elem_of_In%repeat_spec. subst. unfold is_byte. lia.
  - apply new_map_length. nia.
  - apply new_map_length. nia.
  - apply new_map_length. nia.
  - apply repeat_length.
  - lia.
Qed.

Lemma ext2_repair_ok sectors repair memory d0 v n :
  dev_ok d0 -> front d0 -> outcome_ok (layout_of sectors (super_of d0)) d0 repair (ext2_repair sectors repair memory v n d0).
Proof.
  intros Hd Hfront. set (ly := layout_of sectors (super_of d0)).
  assert (Hfail : forall e n, e <> OutOfFuel -> outcome_ok ly d0 repair (Val (inr e) n d0)) by (intros e n' He; split; [apply halted_refl; congruence|done]).
  assert (Hstop : outcome_ok ly d0 repair (Stopped d0)) by (split; [by apply halted_refl|done]).
  unfold ext2_repair. destruct (_ || _); [by apply Hfail|]. unfold mbind, io_bind, io_read. destruct (v n); [|by apply Hfail|done].
  change (dev_read d0 (2 * SECTOR_SIZE) (Z.to_nat (2 * SECTOR_SIZE))) with (super_of d0). destruct (negb (supported_fs _)); [by apply Hfail|]. fold ly.
  destruct (layout_ok ly) eqn:E1; cbn [negb]; [|by apply Hfail]. destruct (groups_ok ly) eqn:E2; cbn [negb]; [|by apply Hfail].
  pose proof (layout_lay_ok sectors (super_of d0) (super_bytes d0 Hd) E1 E2) as Hly. fold ly in Hly.
  pose proof (rwp_read_block ly d0 1 (λ g _ d', g = blk d0 1 /\ d' = d0) (Repair [] (repeat 0 (Z.to_nat BS)) [] [] [] 0 0 0 0 (repeat 0 (Z.to_nat MAX_GROUPS))) (λ _, conj eq_refl eq_refl) v (S n)) as Hg.
  destruct (read_block ly 1 _ v (S n) d0) as [[[gdt r']|e] n1 d1|d1|]; cbn in Hg.
  2:{ destruct Hg as [-> He]. by apply Hfail. } 2:{ by destruct Hg as [-> _]. } 2:{ done. }
  destruct Hg as [Eg ->]. destruct memory; cbn [negb]; [|by apply Hfail].
  pose proof (rwp_check_and_repair ly Hly d0 Hd repair _ Hfront (initial_fresh sectors d0 gdt Hly Eg) v n1) as Hrun. fold ly in Hrun.
  destruct (check_and_repair ly (super_of d0) repair _ v n1 d0) as [[[[needs rep] r2]|e] n2 d2|d2|]; exact Hrun.
Qed.

(** The disk a run ends with satisfies [P], and no buffer was overrun. *)
Definition disk_after {A} (o : outcome A) (P : device -> Prop) : Prop :=
  match o with Val _ _ d | Stopped d => P d | OutOfBounds => False end.

(** The disk a run that does not succeed ends with satisfies [P]. *)
Definition interrupted {A E} (o : outcome (A + E)) (P : device -> Prop) : Prop :=
  match o with Val (inl _) _ _ => True | Val (inr _) _ d | Stopped d => P d | OutOfBounds => False end.

(** The loops came to their end. *)
Definition ended {A} (o : outcome (A + rerror)) : Prop := match o with Val (inr OutOfFuel) _ _ => False | _ => True end.



(** a repair that does not get to its end is visible to the next boot: after an
    error or a power cut the superblock is the old one and nothing else was
    written, or the file system is not marked clean, or the repair is complete. *)
Theorem repair_interruption_visible sectors repair memory d0 v n :
  dev_ok d0 -> front d0 ->
  interrupted (ext2_repair sectors repair memory v n d0) (visible (layout_of sectors (super_of d0)) d0).
Proof.
  intros Hd Hf. pose proof (ext2_repair_ok sectors repair memory d0 v n Hd Hf) as H.
  destruct (ext2_repair sectors repair memory v n d0) as [[[needs rep]|e] n' d|d|]; cbn in H; [done|apply H|apply H|done].
Qed.

(** the loops of the repair end: neither the passes over the inodes, which go on
    while new ones are found, nor the walk through a directory block run on. *)
Theorem repair_terminates sectors repair memory d0 v n :
  dev_ok d0 -> front d0 -> ended (ext2_repair sectors repair memory v n d0).
Proof.
  intros Hd Hf. pose proof (ext2_repair_ok sectors repair memory d0 v n Hd Hf) as H.
  destruct (ext2_repair sectors repair memory v n d0) as [[x|e] n' d|d|]; try done. destruct H as [(_ & _ & H) _]. by destruct e.
Qed.
