(* ===== verification/Ext2RepairCases.v ===== *)
(** A small disk for the theorems about [ext2_repair], and two disks on which the
    tool does not do what it means to: a directory that names an inode the bitmap
    misses, and a group descriptor that points at the descriptor table. *)

From S2P Require Import Prelude BlockDev Ext2Disk Ext2Repair Ext2RepairLogic Ext2RepairScan Ext2RepairFix Ext2RepairSafety.
Local Open Scope Z_scope.

(** * Definitions *)

(** 40 blocks in one group, 16 inodes of 128 bytes; block bitmap, inode bitmap and
    inode table in blocks 2 to 4 unless [bb] says otherwise, the root directory in
    block 5.  With inodes 1 to 10 marked the file system is in order. *)
Definition disk_super : bytes := foldl (λ b f, splice f.1 f.2 b) (zeros 208)
  [(0%nat, le_bytes 4 16); (4%nat, le_bytes 4 40); (12%nat, le_bytes 4 34); (16%nat, le_bytes 4 6); (24%nat, le_bytes 4 2);
   (32%nat, le_bytes 4 64); (40%nat, le_bytes 4 16); (56%nat, le_bytes 2 MAGIC); (58%nat, le_bytes 2 VALID_FS); (84%nat, le_bytes 4 11); (88%nat, le_bytes 2 128)].

Definition disk_gdt (bb : Z) : bytes := le_bytes 4 bb ++ le_bytes 4 3 ++ le_bytes 4 4 ++ le_bytes 2 34 ++ le_bytes 2 6 ++ le_bytes 2 1.

Definition entry (ino rec : Z) (name : bytes) : bytes := le_bytes 4 ino ++ le_bytes 2 rec ++ le_bytes 2 (Z.of_nat (length name)) ++ name.
Definition pad (n : nat) (l : bytes) : bytes := l ++ zeros (n - length l).

(** The root directory, an inode 12 that is a regular file without blocks. *)
Definition root_inode : bytes := pad 128 (le_bytes 2 0x41ED ++ zeros 2 ++ le_bytes 4 4096 ++ zeros 32 ++ le_bytes 4 5).
Definition inode_table : bytes := zeros 128 ++ root_inode ++ zeros (9 * 128) ++ pad 128 (le_bytes 2 0x81A4).
Definition two_entries : bytes := pad 12 (entry 2 12 [46]) ++ entry 2 4084 [46; 46].
Definition four_entries : bytes := pad 12 (entry 2 12 [46]) ++ pad 12 (entry 2 12 [46; 46]) ++ pad 12 (entry 12 12 [97]) ++ entry 12 4060 [98].

(** [used] is the second byte of the inode bitmap: inodes 9 to 16. *)
Definition disk (bb used : Z) (dir : bytes) : device := λ a,
  if (1024 <=? a) && (a <? 2048) then byte_at disk_super (Z.to_nat (a - 1024))
  else if (4096 <=? a) && (a <? 8192) then byte_at (disk_gdt bb) (Z.to_nat (a - 4096))
  else if a =? 8192 then 63
  else if (8197 <=? a) && (a <? 12288) then 255
  else if a =? 12288 then 255 else if a =? 12289 then used
  else if (12290 <=? a) && (a <? 16384) then 255
  else if (16384 <=? a) && (a <? 20480) then byte_at inode_table (Z.to_nat (a - 16384))
  else if (20480 <=? a) && (a <? 24576) then byte_at dir (Z.to_nat (a - 20480)) else 0.

Definition working : nat -> verdict := λ _, DOk.

(** How a run ends: 0, 1 or an error. *)
Definition verdict_of (o : outcome ((bool * report) + rerror)) : option (bool + rerror) :=
  match o with Val (inl (needs, _)) _ _ => Some (inl needs) | Val (inr e) _ _ => Some (inr e) | _ => None end.

(** * Witnesses *)

Lemma bytes_checked p : forallb (λ b, (0 <=? b) && (b <? 256)) p = true -> Forall is_byte p.
Proof. rewrite forallb_forall. intros H. apply Forall_forall. intros b Hb%list_elem_of_In. specialize (H b Hb). unfold is_byte. boolify. lia. Qed.

Lemma byte_at_byte p i : Forall is_byte p -> is_byte (byte_at p i).
Proof.
  intros H. unfold byte_at. destruct (p !! i) as [b|] eqn:E; [|unfold is_byte; cbn; lia]. by eapply (Forall_lookup_1 _ _ _ _ H).
Qed.

Lemma disk_dev_ok bb used dir : is_byte used -> Forall is_byte dir -> dev_ok (disk bb used dir).
Proof.
  intros Hu Hd. assert (H1 : Forall is_byte disk_super) by (apply bytes_checked; vm_compute; reflexivity).
  assert (H2 : Forall is_byte (disk_gdt bb)) by (unfold disk_gdt; repeat apply Forall_app_2; apply le_bytes_is_byte).
  assert (H3 : Forall is_byte inode_table) by (apply bytes_checked; vm_compute; reflexivity).
  intros a. unfold disk. repeat case_match; try (by apply byte_at_byte); try done; unfold is_byte; lia.
Qed.

Lemma small_ok : dev_ok (disk 2 3 two_entries).
Proof. apply disk_dev_ok; [unfold is_byte; lia|]. apply bytes_checked. vm_compute. reflexivity. Qed.

Lemma small_front : front (disk 2 3 two_entries).
Proof. split; [|split]; lazy; reflexivity. Qed.

(** A file whose inode is marked but not counted: the counters are off. *)
Lemma off_ok : dev_ok (disk 2 11 four_entries).
Proof. apply disk_dev_ok; [unfold is_byte; lia|]. apply bytes_checked. vm_compute. reflexivity. Qed.

Lemma off_front : front (disk 2 11 four_entries).
Proof. split; [|split]; lazy; reflexivity. Qed.



Lemma repair_interruption_visible_witness :
  interrupted (ext2_repair 320 true true (λ n, if (n <? 19)%nat then DOk else DCrash 2) 0%nat (disk 2 11 four_entries))
    (visible (layout_of 320 (super_of (disk 2 11 four_entries))) (disk 2 11 four_entries)).
Proof. apply repair_interruption_visible; [apply off_ok|apply off_front]. Defined.

Lemma repair_terminates_witness : ended (ext2_repair 320 true true working 0%nat (disk 2 11 four_entries)).
Proof. apply repair_terminates; [apply off_ok|apply off_front]. Defined.

(** * Where the tool falls short *)

(** a directory that names an inode which the bitmap misses, the damage the scan
    is there to mend, stops the repair when another entry follows: reading the
    inode overwrites the buffer the directory is parsed from, and the rest of the
    directory is looked for in the inode table.  With the inode marked the same
    directory passes. *)
Theorem missing_inode_breaks_directory :
  verdict_of (ext2_repair 320 true true working 0%nat (disk 2 3 four_entries)) = Some (inr MalformedEntry) /\
  verdict_of (ext2_repair 320 false true working 0%nat (disk 2 11 four_entries)) = Some (inl true).
Proof. split; lazy; reflexivity. Qed.

(** the descriptor of group 0 is accepted when its block bitmap is said to be the
    block of the descriptors themselves, so a repair writes both to that block. *)
Theorem bitmap_over_descriptors_accepted :
  bb_of (disk 1 3 two_entries) 0 = 1 /\ verdict_of (ext2_repair 320 false true working 0%nat (disk 1 3 two_entries)) = Some (inl true).
Proof. split; lazy; reflexivity. Qed.
