(* ===== verification/GlyphDraw.v ===== *)
(** Drawing into a surface (src/user/lib/glyph/draw.c, and the text routines of
    src/user/lib/glyph/font.c).

    A surface is a buffer of pixels with a visible part of [s_w] by [s_h] in rows of
    [s_pitch].  Every routine works on the buffer through [get] and [put]; [None] is
    an access outside it.  Coordinates are integers without a width: the code is
    modelled for arguments whose sums stay within [int].  C's division of [int]s is
    [Z.quot]. *)

From S2P Require Import Prelude CString.
Local Open Scope Z_scope.

(** * Definitions *)

Definition FONT_W : Z := 10.
Definition FONT_H : Z := 20.
Definition UI_FONT_SIZE : Z := 14.

Record surface_t := Surface { s_buf : list Z; s_w : Z; s_h : Z; s_pitch : Z }.

(** s->buf[i] *)
Definition get (s : surface_t) (i : Z) : option Z := if 0 <=? i then s_buf s !! Z.to_nat i else None.
Definition put (s : surface_t) (i c : Z) : option surface_t :=
  if (0 <=? i) && (i <? Z.of_nat (length (s_buf s))) then Some (Surface (<[Z.to_nat i := c]> (s_buf s)) (s_w s) (s_h s) (s_pitch s)) else None.

(** Loops: [from <= i < to]. *)
Definition between (from to : Z) : list Z := seqZ from (to - from).
Fixpoint each {S} (l : list Z) (f : Z -> S -> option S) (s : S) : option S :=
  match l with
  | [] => Some s
  | i :: l => match f i s with Some s => each l f s | None => None end
  end.

(** ** Colours *)

Definition red (c : Z) : Z := Z.land (Z.shiftr c 16) 255.
Definition green (c : Z) : Z := Z.land (Z.shiftr c 8) 255.
Definition blue (c : Z) : Z := Z.land c 255.
Definition rgb (r g b : Z) : Z := Z.lor (Z.lor (Z.shiftl r 16) (Z.shiftl g 8)) b.

(** ** Lines and rectangles *)

Definition inside (s : surface_t) (x y : Z) : bool := (0 <=? x) && (x <? s_w s) && (0 <=? y) && (y <? s_h s).

Definition draw_px (s : surface_t) (x y c : Z) : option surface_t :=
  if inside s x y then put s (y * s_pitch s + x) c else Some s.

(** The clamping that several routines start with. *)
Definition clamp (s : surface_t) (x y w h : Z) : Z * Z * Z * Z :=
  let '(x, w) := if x <? 0 then (0, w + x) else (x, w) in
  let '(y, h) := if y <? 0 then (0, h + y) else (y, h) in
  let w := if s_w s <? x + w then s_w s - x else w in
  let h := if s_h s <? y + h then s_h s - y else h in
  (x, y, w, h).

Definition draw_fill_rect (s : surface_t) (x y w h c : Z) : option surface_t :=
  let '(x, y, w, h) := clamp s x y w h in
  if (w <=? 0) || (h <=? 0) then Some s else
  each (between y (y + h)) (λ j s, each (between 0 w) (λ i s, put s (j * s_pitch s + x + i) c) s) s.

Definition h_edge (s : surface_t) (x y w c : Z) : option surface_t :=
  if (0 <=? y) && (y <? s_h s) then
    each (between (Z.max x 0) (Z.min (x + w) (s_w s))) (λ i s, put s (y * s_pitch s + i) c) s
  else Some s.

Definition v_edge (s : surface_t) (x y h c : Z) : option surface_t :=
  if (0 <=? x) && (x <? s_w s) then
    each (between (Z.max y 0) (Z.min (y + h) (s_h s))) (λ i s, put s (i * s_pitch s + x) c) s
  else Some s.

Definition draw_rect (s : surface_t) (x y w h c : Z) : option surface_t :=
  s ← h_edge s x y w c;
  s ← h_edge s x (y + h - 1) w c;
  s ← v_edge s x y h c;
  v_edge s (x + w - 1) y h c.

Definition mix (a b t : Z) : Z := (a * (255 - t) + b * t) / 255.

Definition draw_gradient_v (s : surface_t) (x y w h c1 c2 : Z) : option surface_t :=
  each (between 0 h) (λ j s,
    let t := Z.quot (j * 255) (if 1 <? h then h - 1 else 1) in
    let c := rgb (mix (red c1) (red c2) t) (mix (green c1) (green c2) t) (mix (blue c1) (blue c2) t) in
    each (between 0 w) (λ i s, draw_px s (x + i) (y + j) c) s) s.

Definition draw_blit (dst : surface_t) (dx dy : Z) (src : list Z) (sw sh : Z) : option surface_t :=
  let src_stride := sw in
  let '(sx0, sw, dx) := if dx <? 0 then (- dx, sw + dx, 0) else (0, sw, dx) in
  let '(sy0, sh, dy) := if dy <? 0 then (- dy, sh + dy, 0) else (0, sh, dy) in
  let sw := if s_w dst <? dx + sw then s_w dst - dx else sw in
  let sh := if s_h dst <? dy + sh then s_h dst - dy else sh in
  if (sw <=? 0) || (sh <=? 0) then Some dst else
  each (between 0 sh) (λ y s,
    each (between 0 sw) (λ x s,
      p ← src !! Z.to_nat ((sy0 + y) * src_stride + sx0 + x);
      put s ((dy + y) * s_pitch s + dx + x) p) s) dst.

(** Bresenham's loop. *)
Fixpoint line_loop (fuel : nat) (s : surface_t) (x0 y0 x1 y1 dx dy sx sy err color : Z) : option surface_t :=
  match fuel with
  | O => None
  | S fuel =>
      s ← draw_px s x0 y0 color;
      if (x0 =? x1) && (y0 =? y1) then Some s else
      let e2 := 2 * err in
      let '(err, x0) := if - dy <? e2 then (err - dy, x0 + sx) else (err, x0) in
      let '(err, y0) := if e2 <? dx then (err + dx, y0 + sy) else (err, y0) in
      line_loop fuel s x0 y0 x1 y1 dx dy sx sy err color
  end.

Definition draw_line (s : surface_t) (x0 y0 x1 y1 color : Z) : option surface_t :=
  let dx := x1 - x0 in
  let dy := y1 - y0 in
  let sx := if 0 <=? dx then 1 else -1 in
  let sy := if 0 <=? dy then 1 else -1 in
  let dx := Z.abs dx in
  let dy := Z.abs dy in
  line_loop (S (Z.to_nat (dx + dy))) s x0 y0 x1 y1 dx dy sx sy (dx - dy) color.

(** ** Blending *)

Definition blend (fg bg alpha inv : Z) : Z := (fg * alpha + bg * inv) / 255.
Definition blend_rgb (color bg alpha inv : Z) : Z :=
  rgb (blend (red color) (red bg) alpha inv) (blend (green color) (green bg) alpha inv) (blend (blue color) (blue bg) alpha inv).

Definition blend_px (s : surface_t) (x y color alpha : Z) : option surface_t :=
  if (x <? 0) || (s_w s <=? x) || (y <? 0) || (s_h s <=? y) || (alpha <=? 0) then Some s else
  if 255 <=? alpha then put s (y * s_pitch s + x) color else
  bg ← get s (y * s_pitch s + x);
  put s (y * s_pitch s + x) (blend_rgb color bg alpha (255 - alpha)).

(** The packed blend: red and blue together, green alone, in 32 bits. *)
Definition RB : Z := 0x00FF00FF.
Definition GM : Z := 0x0000FF00.
Definition blend_packed (crb cg px a inv : Z) : Z :=
  let rb := Z.land (Z.shiftr (u32 (crb * a + Z.land px RB * inv + 0x00800080)) 8) RB in
  let g := Z.land (Z.shiftr (u32 (cg * a + Z.land px GM * inv + 0x00008000)) 8) GM in
  Z.lor rb g.

Definition draw_blend_rect (s : surface_t) (x y w h color alpha : Z) : option surface_t :=
  let '(x, y, w, h) := clamp s x y w h in
  if (w <=? 0) || (h <=? 0) then Some s else
  let a := Z.min (Z.max alpha 0) 255 in
  let inv := 255 - a in
  each (between y (y + h)) (λ j s, each (between x (x + w)) (λ i s,
    px ← get s (j * s_pitch s + i);
    put s (j * s_pitch s + i) (blend_packed (Z.land color RB) (Z.land color GM) px a inv)) s) s.

(** ** Circles and corners *)

Definition sq (x : Z) : Z := x * x.

Definition aa_corner (s : surface_t) (sx sy r : Z) (left top : bool) (color alpha : Z) : option surface_t :=
  let in2 := sq (2 * r - 1) in
  let out2 := sq (2 * r + 1) in
  each (between 0 r) (λ j s, each (between 0 r) (λ i s,
    let dx := if left then 2 * (i - r) + 1 else 2 * i + 1 in
    let dy := if top then 2 * (j - r) + 1 else 2 * j + 1 in
    let d2 := dx * dx + dy * dy in
    if out2 <=? d2 then Some s else
    let a := if d2 <=? in2 then alpha else Z.quot (alpha * (out2 - d2)) (out2 - in2) in
    blend_px s (sx + i) (sy + j) color a) s) s.

Fixpoint circle_loop (fuel : nat) (s : surface_t) (cx cy x y d color : Z) : option surface_t :=
  match fuel with
  | O => None
  | S fuel =>
      if x <? y then Some s else
      s ← draw_px s (cx + x) (cy + y) color;
      s ← draw_px s (cx - x) (cy + y) color;
      s ← draw_px s (cx + x) (cy - y) color;
      s ← draw_px s (cx - x) (cy - y) color;
      s ← draw_px s (cx + y) (cy + x) color;
      s ← draw_px s (cx - y) (cy + x) color;
      s ← draw_px s (cx + y) (cy - x) color;
      s ← draw_px s (cx - y) (cy - x) color;
      let y := y + 1 in
      if d <=? 0 then circle_loop fuel s cx cy x y (d + 2 * y + 1) color
      else circle_loop fuel s cx cy (x - 1) y (d + 2 * (y - (x - 1)) + 1) color
  end.

Definition draw_circle (s : surface_t) (cx cy r color : Z) : option surface_t :=
  circle_loop (S (S (Z.to_nat r))) s cx cy r 0 (1 - r) color.

Definition draw_circle_filled (s : surface_t) (cx cy r color : Z) : option surface_t :=
  if r <=? 0 then draw_px s cx cy color else
  let in2 := sq (2 * r - 1) in
  let out2 := sq (2 * r + 1) in
  each (between (- r) (r + 1)) (λ dy s, each (between (- r) (r + 1)) (λ dx s,
    let d2 := 4 * (dx * dx + dy * dy) in
    if out2 <=? d2 then Some s else
    if d2 <=? in2 then draw_px s (cx + dx) (cy + dy) color
    else blend_px s (cx + dx) (cy + dy) color (Z.quot (255 * (out2 - d2)) (out2 - in2))) s) s.

Definition shade (color num : Z) : Z :=
  rgb (red color * num / 5) (green color * num / 5) (blue color * num / 5).

Definition draw_traffic_light (s : surface_t) (cx cy r color sym : Z) : option surface_t :=
  let rim := shade color 3 in
  let ink := shade color 2 in
  s ← draw_circle_filled s cx cy r color;
  let in2 := sq (2 * r - 2) in
  let mid2 := sq (2 * r - 1) in
  let out2 := sq (2 * r + 1) in
  s ← each (between (- r) (r + 1)) (λ dy s, each (between (- r) (r + 1)) (λ dx s,
    let d2 := 4 * (dx * dx + dy * dy) in
    if (d2 <=? in2) || (out2 <=? d2) then Some s else
    let a := if d2 <=? mid2 then Z.quot (255 * (d2 - in2)) (mid2 - in2) else Z.quot (255 * (out2 - d2)) (out2 - mid2) in
    blend_px s (cx + dx) (cy + dy) rim a) s) s;
  if sym =? 1 then
    s ← draw_line s (cx - 3) (cy - 3) (cx + 3) (cy + 3) ink;
    draw_line s (cx - 3) (cy + 3) (cx + 3) (cy - 3) ink
  else if sym =? 2 then draw_fill_rect s (cx - 3) cy 7 1 ink
  else if sym =? 3 then
    each (between 0 3) (λ j s,
      s ← draw_fill_rect s (cx - 3) (cy - 3 + j) (3 - j) 1 ink;
      draw_fill_rect s (cx + 3 - j) (cy + 1 + j) (j + 1) 1 ink) s
  else Some s.

(** The radius of rounded shapes. *)
Definition fit_radius (r w h : Z) : Z :=
  let r := if r <? 0 then 0 else r in
  let r := if Z.quot w 2 <? r then Z.quot w 2 else r in
  if Z.quot h 2 <? r then Z.quot h 2 else r.

Definition four_corners (s : surface_t) (x y w h r color alpha : Z) : option surface_t :=
  s ← aa_corner s x y r true true color alpha;
  s ← aa_corner s (x + w - r) y r false true color alpha;
  s ← aa_corner s x (y + h - r) r true false color alpha;
  aa_corner s (x + w - r) (y + h - r) r false false color alpha.

Definition draw_rounded_rect (s : surface_t) (x y w h r color : Z) : option surface_t :=
  let r := fit_radius r w h in
  s ← draw_fill_rect s (x + r) y (w - 2 * r) h color;
  s ← draw_fill_rect s x (y + r) r (h - 2 * r) color;
  s ← draw_fill_rect s (x + w - r) (y + r) r (h - 2 * r) color;
  four_corners s x y w h r color 255.

Definition draw_blend_rounded_rect (s : surface_t) (x y w h r color alpha : Z) : option surface_t :=
  if (alpha <=? 0) || (w <=? 0) || (h <=? 0) then Some s else
  let alpha := Z.min alpha 255 in
  let r := fit_radius r w h in
  s ← draw_blend_rect s (x + r) y (w - 2 * r) h color alpha;
  s ← draw_blend_rect s x (y + r) r (h - 2 * r) color alpha;
  s ← draw_blend_rect s (x + w - r) (y + r) r (h - 2 * r) color alpha;
  four_corners s x y w h r color alpha.

Definition draw_rounded_outline (s : surface_t) (x y w h r thickness color : Z) : option surface_t :=
  if (w <=? 0) || (h <=? 0) then Some s else
  let thickness := if thickness <? 1 then 1 else thickness in
  let r := fit_radius r w h in
  s ← draw_fill_rect s (x + r) y (w - 2 * r) thickness color;
  s ← draw_fill_rect s (x + r) (y + h - thickness) (w - 2 * r) thickness color;
  s ← draw_fill_rect s x (y + r) thickness (h - 2 * r) color;
  s ← draw_fill_rect s (x + w - thickness) (y + r) thickness (h - 2 * r) color;
  let ri := r - thickness in
  let out2 := sq (2 * r + 1) in
  let oin2 := sq (2 * r - 1) in
  let iout2 := sq (2 * ri + 1) in
  let iin2 := sq (2 * ri - 1) in
  each (between 0 4) (λ c s,
    let left := Z.land c 1 =? 0 in
    let top := c <? 2 in
    let sx := if left then x else x + w - r in
    let sy := if top then y else y + h - r in
    each (between 0 r) (λ j s, each (between 0 r) (λ i s,
      let dx := if left then 2 * (i - r) + 1 else 2 * i + 1 in
      let dy := if top then 2 * (j - r) + 1 else 2 * j + 1 in
      let d2 := dx * dx + dy * dy in
      if out2 <=? d2 then Some s else
      let cov := if d2 <=? oin2 then 255 else Z.quot (255 * (out2 - d2)) (out2 - oin2) in
      let cin :=
        if ri <=? 0 then
          let ii := if left then i else r - 1 - i in
          let jj := if top then j else r - 1 - j in
          if (thickness <=? ii) && (thickness <=? jj) then 255 else 0
        else if d2 <=? iin2 then 255
        else if iout2 <=? d2 then 0
        else Z.quot (255 * (iout2 - d2)) (iout2 - iin2) in
      if cin <? cov then blend_px s (sx + i) (sy + j) color (cov - cin) else Some s) s) s) s.

(** ** Scaled and keyed blits *)

Definition draw_blit_scaled (dst : surface_t) (dx dy dw dh : Z) (src : list Z) (sw sh : Z) : option surface_t :=
  if (dw <=? 0) || (dh <=? 0) || (sw <=? 0) || (sh <=? 0) then Some dst else
  let x_step := Z.quot (Z.shiftl sw 16) dw in
  let y0 := if dy <? 0 then - dy else 0 in
  let y1 := if s_h dst <? dy + dh then s_h dst - dy else dh in
  let x0 := if dx <? 0 then - dx else 0 in
  let x1 := if s_w dst <? dx + dw then s_w dst - dx else dw in
  each (between y0 y1) (λ y s,
    let src_y := Z.quot (y * sh) dh in
    each (between x0 x1) (λ x s,
      p ← src !! Z.to_nat (src_y * sw + Z.shiftr (x * x_step) 16);
      put s ((dy + y) * s_pitch s + dx + x) p) s) dst.

Definition draw_blit_keyed (dst : surface_t) (dx dy : Z) (src : list Z) (sw sh key_color : Z) : option surface_t :=
  each (between 0 sh) (λ y s,
    if (dy + y <? 0) || (s_h s <=? dy + y) then Some s else
    each (between 0 sw) (λ x s,
      if (dx + x <? 0) || (s_w s <=? dx + x) then Some s else
      px ← src !! Z.to_nat (y * sw + x);
      if px =? key_color then Some s else put s ((dy + y) * s_pitch s + (dx + x)) px) s) dst.

Definition blend_argb_over (px bg : Z) : Z :=
  let a := Z.land (Z.shiftr px 24) 255 in
  if a =? 255 then Z.land px 0x00FFFFFF else blend_rgb px bg a (255 - a).

Definition draw_blit_alpha_scaled (s : surface_t) (dx dy dw dh : Z) (src : list Z) (sw sh : Z) : option surface_t :=
  if (dw <=? 0) || (dh <=? 0) || (sw <=? 0) || (sh <=? 0) then Some s else
  each (between 0 dh) (λ row s,
    let y := dy + row in
    if (y <? 0) || (s_h s <=? y) then Some s else
    let sr := Z.quot (row * sh) dh in
    each (between 0 dw) (λ col s,
      let x := dx + col in
      if (x <? 0) || (s_w s <=? x) then Some s else
      px ← src !! Z.to_nat (sr * sw + Z.quot (col * sw) dw);
      if Z.land (Z.shiftr px 24) 255 =? 0 then Some s else
      bg ← get s (y * s_pitch s + x);
      put s (y * s_pitch s + x) (blend_argb_over px bg)) s) s.

Definition draw_blit_scaled_alpha (s : surface_t) (dx dy dw dh : Z) (src : list Z) (sw sh src_pitch global_alpha key_color : Z) : option surface_t :=
  if (dw <=? 0) || (dh <=? 0) || (sw <=? 0) || (sh <=? 0) then Some s else
  if global_alpha <=? 0 then Some s else
  let a := Z.min global_alpha 255 in
  let inv := 255 - a in
  let key := Z.land key_color 0x00FFFFFF in
  each (between 0 dh) (λ row s,
    let y := dy + row in
    if (y <? 0) || (s_h s <=? y) then Some s else
    let sr := Z.quot (row * sh) dh in
    each (between 0 dw) (λ col s,
      let x := dx + col in
      if (x <? 0) || (s_w s <=? x) then Some s else
      p ← src !! Z.to_nat (sr * src_pitch + Z.quot (col * sw) dw);
      let px := Z.land p 0x00FFFFFF in
      if px =? key then Some s else
      if a =? 255 then put s (y * s_pitch s + x) px else
      bg ← get s (y * s_pitch s + x);
      put s (y * s_pitch s + x) (blend_rgb px bg a inv)) s) s.

(** ** Fonts *)

(** A glyph of the atlas; offsets and advance rounded to pixels.  [fd_bake] is what
    stb_truetype makes of the font file at a size ([None] when nothing fits). *)
Record bakedchar := Baked { bc_x0 : Z; bc_y0 : Z; bc_x1 : Z; bc_y1 : Z; bc_xoff : Z; bc_yoff : Z; bc_xadvance : Z }.
Record baked_size_t := BakedSize { bs_size_px : Z; bs_ascent : Z; bs_line_height : Z; bs_atlas : bytes; bs_cdata : list bakedchar }.
Record font_t := Font { fd_bake : Z -> option baked_size_t; fd_sizes : list baked_size_t }.

Definition MAX_BAKED_SIZES : nat := 16.
Definition ATLAS_W : Z := 512.
Definition ATLAS_H : Z := 512.
Definition FIRST_CHAR : Z := 32.
Definition NUM_CHARS : Z := 95.

Definition find_baked (f : font_t) (size_px : Z) : option baked_size_t := List.find (λ b, bs_size_px b =? size_px) (fd_sizes f).

Definition font_bake (f : font_t) (size_px : Z) : font_t :=
  if size_px <=? 0 then f else
  if find_baked f size_px then f else
  if (MAX_BAKED_SIZES <=? length (fd_sizes f))%nat then f else
  match fd_bake f size_px with
  | Some b => Font (fd_bake f) (fd_sizes f ++ [BakedSize size_px (bs_ascent b) (bs_line_height b) (bs_atlas b) (bs_cdata b)])
  | None => f
  end.

(** A size is baked on first use.  Baking is a function of the font file and the
    size, and a size that was baked stays, so the calls for one size give the same
    whether the table keeps it or not ([GlyphText.bake_again]). *)
Definition find_or_bake (f : font_t) (size_px : Z) : option baked_size_t :=
  match find_baked f size_px with
  | Some b => Some b
  | None => find_baked (font_bake f size_px) size_px
  end.

Definition font_height (f : font_t) (size_px : Z) : Z :=
  match find_or_bake f size_px with Some b => bs_line_height b | None => 0 end.

Definition printable (ch : Z) : bool := (FIRST_CHAR <=? ch) && (ch <? FIRST_CHAR + NUM_CHARS).

(** [None] is a glyph past the table. *)
Definition char_data (b : baked_size_t) (ch : Z) : option bakedchar := bs_cdata b !! Z.to_nat (ch - FIRST_CHAR).

Fixpoint width_loop (b : baked_size_t) (text : bytes) (width : Z) : option Z :=
  match text with
  | [] => Some width
  | ch :: text =>
      if printable ch then c ← char_data b ch; width_loop b text (width + bc_xadvance c) else width_loop b text width
  end.

Definition font_text_width (f : font_t) (size_px : Z) (text : bytes) : option Z :=
  match find_or_bake f size_px with Some b => width_loop b text 0 | None => Some 0 end.

Definition font_draw_char (s : surface_t) (f : font_t) (size_px x y ch color : Z) : option (surface_t * Z) :=
  match find_or_bake f size_px with
  | None => Some (s, 0)
  | Some bs =>
      if negb (printable ch) then Some (s, 0) else
      bc ← char_data bs ch;
      let gw := bc_x1 bc - bc_x0 bc in
      let gh := bc_y1 bc - bc_y0 bc in
      let sx := x + bc_xoff bc in
      let sy := y + bs_ascent bs + bc_yoff bc in
      let crb := Z.land color RB in
      let cg := Z.land color GM in
      let r0 := if sy <? 0 then - sy else 0 in
      let r1 := if s_h s <? sy + gh then s_h s - sy else gh in
      let c0 := if sx <? 0 then - sx else 0 in
      let c1 := if s_w s <? sx + gw then s_w s - sx else gw in
      s ← each (between r0 r1) (λ row s, each (between c0 c1) (λ col s,
        a ← bs_atlas bs !! Z.to_nat ((bc_y0 bc + row) * ATLAS_W + bc_x0 bc + col);
        if a =? 0 then Some s else
        let at_ := (sy + row) * s_pitch s + sx + col in
        if a =? 255 then put s at_ color else
        px ← get s at_;
        put s at_ (blend_packed crb cg px a (255 - a))) s) s;
      Some (s, bc_xadvance bc)
  end.

Fixpoint font_draw_text (s : surface_t) (f : font_t) (size_px x y : Z) (text : bytes) (color : Z) : option surface_t :=
  match text with
  | [] => Some s
  | ch :: text => r ← font_draw_char s f size_px x y ch color; font_draw_text r.1 f size_px (x + r.2) y text color
  end.

(** ** Text *)

Section Text.

(** The bitmap font of terminus20.h, and the UI font if one was loaded. *)
Context (font_terminus : bytes) (g_font_ui : option font_t).

(** Bit [0x8000 >> col] of a row of a glyph. *)
Definition glyph_bits (ch row : Z) : option Z :=
  let o := Z.to_nat (ch * FONT_H * 2 + row * 2) in
  hi ← font_terminus !! o;
  lo ← font_terminus !! S o;
  Some (Z.lor (Z.shiftl hi 8) lo).
Definition glyph_dot (bits col : Z) : bool := negb (Z.land bits (Z.shiftr 0x8000 col) =? 0).

Definition draw_char (s : surface_t) (x y ch fg bg : Z) : option surface_t :=
  each (between 0 FONT_H) (λ row s,
    bits ← glyph_bits ch row;
    each (between 0 FONT_W) (λ col s, draw_px s (x + col) (y + row) (if glyph_dot bits col then fg else bg)) s) s.

Fixpoint draw_text (s : surface_t) (x y : Z) (str : bytes) (fg bg : Z) : option surface_t :=
  match str with
  | [] => Some s
  | ch :: str => s ← draw_char s x y ch fg bg; draw_text s (x + FONT_W) y str fg bg
  end.

Fixpoint draw_text_t (s : surface_t) (x y : Z) (str : bytes) (fg : Z) : option surface_t :=
  match str with
  | [] => Some s
  | ch :: str =>
      s ← each (between 0 FONT_H) (λ row s,
        bits ← glyph_bits ch row;
        each (between 0 FONT_W) (λ col s, if glyph_dot bits col then draw_px s (x + col) (y + row) fg else Some s) s) s;
      draw_text_t s (x + FONT_W) y str fg
  end.

Definition glyph_text_width (text : bytes) : option Z :=
  match g_font_ui with
  | Some f => font_text_width f UI_FONT_SIZE text
  | None => Some (Z.of_nat (length text) * FONT_W)
  end.

Definition glyph_text_height : Z := match g_font_ui with Some f => font_height f UI_FONT_SIZE | None => FONT_H end.
Definition glyph_char_width : option Z := match g_font_ui with Some f => font_text_width f UI_FONT_SIZE [77] | None => Some FONT_W end.

Definition draw_text_ui (s : surface_t) (x y : Z) (str : bytes) (fg : Z) : option surface_t :=
  match g_font_ui with
  | Some f => font_draw_text s f UI_FONT_SIZE x y str fg
  | None => draw_text_t s x y str fg
  end.

Definition draw_text_center (s : surface_t) (x y w : Z) (str : bytes) (fg bg : Z) : option surface_t :=
  let text_w := Z.of_nat (length str) * FONT_W in
  let offset := Z.quot (w - text_w) 2 in
  let offset := if offset <? 0 then 0 else offset in
  draw_text s (x + offset) y str fg bg.

(** ** Eliding *)

Definition ELL : bytes := [0xE2; 0x80; 0xA6].
Definition continuation (c : Z) : bool := Z.land c 0xC0 =? 0x80.

(** Step back from the middle of a character; [src] has its NUL at the end. *)
Fixpoint back_up (src : bytes) (i : nat) : nat :=
  match i with
  | O => O
  | S i' => if continuation (byte_at src i) then back_up src i' else i
  end.

Definition utf8_step (c : Z) : nat := if 0xF0 <=? c then 4 else if 0xE0 <=? c then 3 else if 0xC0 <=? c then 2 else 1.

(** The prefix of [src] that fits with the ellipsis after it: [done] are the bytes
    in [out], [rest] what is left of [src]. *)
Fixpoint elide_loop (fuel : nat) (done rest : bytes) (max_w room : Z) : option bytes :=
  match fuel with
  | O => None
  | S fuel =>
      match rest with
      | [] => Some done
      | c :: _ =>
          if room <=? Z.of_nat (length done) then Some done else
          let step := utf8_step c in
          if room - Z.of_nat (length done) <? Z.of_nat step then Some done else
          if (length rest <? step)%nat then Some done else
          let next := done ++ take step rest in
          w ← glyph_text_width (next ++ ELL);
          if w <=? max_w then elide_loop fuel next (drop step rest) max_w room else Some done
      end
  end.

(** The string left in a buffer of [outsz] bytes, one at least. *)
Definition glyph_text_elide (src : option bytes) (max_w outsz : Z) : option bytes :=
  match src with
  | None => Some []
  | Some src =>
      w ← glyph_text_width src;
      if w <=? max_w then
        let i := Nat.min (length src) (Z.to_nat (outsz - 1)) in
        Some (take (back_up src i) src)
      else
        e ← glyph_text_width ELL;
        if (outsz <? 4) || (max_w <? e) then Some [] else
        best ← elide_loop (S (length src)) [] src max_w (outsz - 4);
        Some (best ++ ELL)
  end.

(** With no buffer, or one of no bytes, nothing is written; [out] is what it held. *)
Definition elide_into (src : option bytes) (max_w : Z) (out : option bytes) (outsz : Z) : option (option bytes) :=
  match out with
  | None => Some None
  | Some old => if outsz <=? 0 then Some (Some old) else Some <$> glyph_text_elide src max_w outsz
  end.

Definition draw_text_ui_elided (s : surface_t) (x y max_w : Z) (str : option bytes) (fg : Z) : option surface_t :=
  buf ← glyph_text_elide str max_w 256;
  draw_text_ui s x y buf fg.

End Text.

(** ** Widgets *)

(** The colours of [g_glyph_theme] that the widgets use. *)
Record glyph_theme_t := Theme {
  th_accent : Z; th_accent_hover : Z; th_accent_active : Z;
  th_surface : Z; th_surface_2 : Z; th_hover : Z; th_input_bg : Z; th_border : Z;
  th_text : Z; th_text_dim : Z; th_text_faint : Z; th_text_on_accent : Z
}.

Inductive glyph_widget_state_t := GLYPH_WS_NORMAL | GLYPH_WS_HOVER | GLYPH_WS_PRESSED | GLYPH_WS_DISABLED | GLYPH_WS_SELECTED.

Definition R_SM : Z := 6.
Definition SP_2 : Z := 8.
Definition SP_3 : Z := 12.
Definition FOCUS_RING_W : Z := 2.

Section Widgets.

Context (font_terminus : bytes) (g_font_ui : option font_t) (th : glyph_theme_t).

Definition glyph_focus_ring (s : surface_t) (x y w h r : Z) : option surface_t :=
  draw_rounded_outline s (x - FOCUS_RING_W) (y - FOCUS_RING_W) (w + 2 * FOCUS_RING_W) (h + 2 * FOCUS_RING_W) (r + FOCUS_RING_W) FOCUS_RING_W (th_accent th).

Definition button_colors (state : glyph_widget_state_t) (primary : bool) : Z * Z :=
  match state with
  | GLYPH_WS_DISABLED => (th_surface th, th_text_faint th)
  | _ =>
      if primary then
        (match state with
         | GLYPH_WS_PRESSED => th_accent_active th
         | GLYPH_WS_HOVER | GLYPH_WS_SELECTED => th_accent_hover th
         | _ => th_accent th
         end, th_text_on_accent th)
      else
        (match state with
         | GLYPH_WS_PRESSED => th_surface th
         | GLYPH_WS_HOVER => th_hover th
         | GLYPH_WS_SELECTED => th_accent th
         | _ => th_surface_2 th
         end, match state with GLYPH_WS_SELECTED => th_text_on_accent th | _ => th_text th end)
  end.

Definition glyph_draw_button (s : surface_t) (x y w h : Z) (label : bytes) (state : glyph_widget_state_t) (primary focused : bool) : option surface_t :=
  let '(bg, fg) := button_colors state primary in
  s ← draw_rounded_rect s x y w h R_SM bg;
  lw ← glyph_text_width g_font_ui label;
  let lh := glyph_text_height g_font_ui in
  s ← draw_text_ui font_terminus g_font_ui s (x + Z.quot (w - lw) 2) (y + Z.quot (h - lh) 2) label fg;
  if focused then glyph_focus_ring s x y w h R_SM else Some s.

Definition glyph_draw_toggle (s : surface_t) (x y w h : Z) (on : bool) (state : glyph_widget_state_t) : option surface_t :=
  let disabled := match state with GLYPH_WS_DISABLED => true | _ => false end in
  let track := if on then (if disabled then th_surface_2 th else th_accent th)
               else match state with GLYPH_WS_HOVER => th_hover th | _ => th_surface_2 th end in
  s ← draw_rounded_rect s x y w h (Z.quot h 2) track;
  s ← (if on then Some s else draw_rounded_outline s x y w h (Z.quot h 2) 1 (th_border th));
  let kr := Z.quot h 2 - 3 in
  let kcy := y + Z.quot h 2 in
  let kcx := if on then x + w - Z.quot h 2 else x + Z.quot h 2 in
  let knob := if disabled then th_text_faint th else if on then th_text_on_accent th else th_text_dim th in
  draw_circle_filled s kcx kcy kr knob.

Definition glyph_draw_field (s : surface_t) (x y w h : Z) (text : option bytes) (focused : bool) (state : glyph_widget_state_t) : option surface_t :=
  s ← draw_rounded_rect s x y w h R_SM (th_input_bg th);
  s ← (if focused then glyph_focus_ring s x y w h R_SM else draw_rounded_outline s x y w h R_SM 1 (th_border th));
  match text with
  | None | Some [] => Some s
  | Some t =>
      buf ← glyph_text_elide g_font_ui (Some t) (w - 2 * SP_2) 256;
      let lh := glyph_text_height g_font_ui in
      draw_text_ui font_terminus g_font_ui s (x + SP_2) (y + Z.quot (h - lh) 2) buf
        (match state with GLYPH_WS_DISABLED => th_text_faint th | _ => th_text th end)
  end.

Definition glyph_draw_list_row (s : surface_t) (x y w h : Z) (label : option bytes) (state : glyph_widget_state_t) : option surface_t :=
  s ← (match state with
       | GLYPH_WS_SELECTED => draw_fill_rect s x y w h (th_accent th)
       | GLYPH_WS_HOVER => draw_fill_rect s x y w h (th_hover th)
       | _ => Some s
       end);
  let fg := match state with GLYPH_WS_SELECTED => th_text_on_accent th | GLYPH_WS_DISABLED => th_text_faint th | _ => th_text th end in
  buf ← glyph_text_elide g_font_ui label (w - 2 * SP_3) 256;
  let lh := glyph_text_height g_font_ui in
  draw_text_ui font_terminus g_font_ui s (x + SP_3) (y + Z.quot (h - lh) 2) buf fg.

End Widgets.

(** ** Blurring *)

Record sums := Sums { su_r : Z; su_g : Z; su_b : Z }.
Definition add_px (a : sums) (p : Z) : sums := Sums (su_r a + red p) (su_g a + green p) (su_b a + blue p).
Definition sub_px (a : sums) (p : Z) : sums := Sums (su_r a - red p) (su_g a - green p) (su_b a - blue p).

Definition recip (span : Z) : Z := (65536 + span - 1) / span.
Definition average (sum rc : Z) : Z := Z.shiftr (u32 (sum * rc)) 16.

(** The scratch buffer holds [n] pixels of a row or column. *)
Definition tmp_at (tmp : list Z) (i : Z) : option Z := if 0 <=? i then tmp !! Z.to_nat i else None.

Definition first_window (tmp : list Z) (n radius first last : Z) : option sums :=
  each (between (- radius) (radius + 1)) (λ i a,
    if i <? 0 then Some (add_px a first) else if n <=? i then Some (add_px a last) else p ← tmp_at tmp i; Some (add_px a p)) (Sums 0 0 0).

Definition blurred (a : sums) (p rc : Z) : Z :=
  Z.lor (Z.lor (Z.lor (Z.land p 0xFF000000) (u32 (Z.shiftl (average (su_r a) rc) 16))) (u32 (Z.shiftl (average (su_g a) rc) 8))) (average (su_b a) rc).

(** One line: [at_ i] is where pixel [i] of it lies in the buffer. *)
Definition blur_line (s : surface_t) (tmp : list Z) (n radius rc : Z) (at_ : Z -> Z) : option surface_t :=
  first ← tmp_at tmp 0;
  last ← tmp_at tmp (n - 1);
  a ← first_window tmp n radius first last;
  r ← each (between 0 n) (λ i '(s, a),
    p ← tmp_at tmp i;
    s ← put s (at_ i) (blurred a p rc);
    ov ← (if i - radius <? 0 then Some first else tmp_at tmp (i - radius));
    nv ← (if n <=? i + radius + 1 then Some last else tmp_at tmp (i + radius + 1));
    Some (s, sub_px (add_px a nv) ov)) (s, a);
  Some r.1.

(** Pixels of a line. *)
Definition load_line (s : surface_t) (n : Z) (at_ : Z -> Z) : option (list Z) :=
  each (between 0 n) (λ i l, p ← get s (at_ i); Some (l ++ [p])) [].

(** [memory]: whether a larger scratch buffer can be allocated.  Also the new
    capacity of the buffer. *)
Definition draw_box_blur (tmp_cap : Z) (memory : bool) (s : surface_t) (x y w h radius : Z) : option (surface_t * Z) :=
  let '(x, y, w, h) := clamp s x y w h in
  if (w <=? 0) || (h <=? 0) || (radius <=? 0) then Some (s, tmp_cap) else
  let rc := recip (2 * radius + 1) in
  let scratch_len := Z.max w h in
  if (tmp_cap <? scratch_len) && negb memory then Some (s, 0) else
  let cap := Z.max tmp_cap scratch_len in
  s ← each (between y (y + h)) (λ row s,
    tmp ← load_line s w (λ i, row * s_pitch s + x + i);
    blur_line s tmp w radius rc (λ i, row * s_pitch s + x + i)) s;
  s ← each (between x (x + w)) (λ col s,
    tmp ← load_line s h (λ i, (y + i) * s_pitch s + col);
    blur_line s tmp h radius rc (λ i, (y + i) * s_pitch s + col)) s;
  Some (s, cap).
