(* ===== verification/GlyphDrawSafety.v ===== *)
(** Drawing stays inside the surface: every routine of [GlyphDraw] succeeds on a
    well-formed surface and changes only visible pixels. *)

From S2P Require Import Prelude CString GlyphDraw.
Local Open Scope Z_scope.

(** * Definitions *)

Record surface_ok (s : surface_t) : Prop := SurfaceOk {
  so_w : 0 <= s_w s <= s_pitch s;
  so_h : 0 <= s_h s;
  so_buf : s_h s * s_pitch s <= Z.of_nat (length (s_buf s))
}.

(** [k] is the place of a visible pixel. *)
Definition visible_at (s : surface_t) (k : nat) : Prop := exists x y, 0 <= x < s_w s /\ 0 <= y < s_h s /\ k = Z.to_nat (y * s_pitch s + x).

(** The same surface with other visible pixels. *)
Record frame (s s' : surface_t) : Prop := Frame {
  fr_w : s_w s' = s_w s;
  fr_h : s_h s' = s_h s;
  fr_pitch : s_pitch s' = s_pitch s;
  fr_length : length (s_buf s') = length (s_buf s);
  fr_rest : forall k, ~ visible_at s k -> s_buf s' !! k = s_buf s !! k
}.

Definition ok (s : surface_t) (o : option surface_t) : Prop := exists s', o = Some s' /\ frame s s'.

(** The sources of blits hold what is read of them. *)
Definition src_ok (src : list Z) (sw sh : Z) : Prop := sw * sh <= Z.of_nat (length src).

(** The glyphs of a font lie in its atlas. *)
Definition glyph_ok (c : bakedchar) : Prop := 0 <= bc_x0 c /\ bc_x1 c <= ATLAS_W /\ 0 <= bc_y0 c /\ bc_y1 c <= ATLAS_H.
Definition baked_ok (b : baked_size_t) : Prop :=
  length (bs_atlas b) = Z.to_nat (ATLAS_W * ATLAS_H) /\ length (bs_cdata b) = Z.to_nat NUM_CHARS /\ Forall glyph_ok (bs_cdata b).
Definition font_ok (f : font_t) : Prop := Forall baked_ok (fd_sizes f) /\ forall size b, fd_bake f size = Some b -> baked_ok b.

(** * Rules *)

Section Rules.

Implicit Types (s : surface_t).

Lemma frame_refl s : frame s s.
Proof. by split. Qed.

Lemma frame_visible s s' k : frame s s' -> visible_at s' k <-> visible_at s k.
Proof. intros [E1 E2 E3 _ _]. unfold visible_at. by rewrite E1, E2, E3. Qed.

Lemma frame_trans s s1 s2 : frame s s1 -> frame s1 s2 -> frame s s2.
Proof.
  intros H1 H2. pose proof H1 as [A1 A2 A3 A4 A5]. pose proof H2 as [B1 B2 B3 B4 B5]. split; try congruence.
  intros k Hk. rewrite B5, A5; [done|done|]. by rewrite (frame_visible s s1).
Qed.

Lemma frame_ok s s' : frame s s' -> surface_ok s -> surface_ok s'.
Proof. intros [E1 E2 E3 E4 _] [H1 H2 H3]. split; rewrite ?E1, ?E2, ?E3, ?E4; done. Qed.

Lemma ok_some s : ok s (Some s).
Proof. exists s. split; [done|apply frame_refl]. Qed.

Lemma ok_bind s o (f : surface_t -> option surface_t) : ok s o -> (forall s', frame s s' -> ok s' (f s')) -> ok s (o ≫= f).
Proof.
  intros (s' & -> & H) Hf. destruct (Hf s' H) as (s2 & E & H2). exists s2. split; [exact E|by eapply frame_trans].
Qed.

Lemma ok_each s l (f : Z -> surface_t -> option surface_t) :
  (forall i s', i ∈ l -> frame s s' -> ok s' (f i s')) -> ok s (each l f s).
Proof.
  intros Hf. assert (H : forall s1, frame s s1 -> ok s1 (each l f s1)).
  { induction l as [|i l IH]; intros s1 H1; cbn [each]; [apply ok_some|]. destruct (Hf i s1 ltac:(left) H1) as (s2 & -> & H2).
    destruct (IH (λ j s', λ Hj, Hf j s' ltac:(by right)) s2 (frame_trans _ _ _ H1 H2)) as (s3 & E & H3). exists s3. split; [done|by eapply frame_trans]. }
  apply H, frame_refl.
Qed.

Lemma index_range s x y : surface_ok s -> 0 <= x < s_w s -> 0 <= y < s_h s -> 0 <= y * s_pitch s + x < Z.of_nat (length (s_buf s)).
Proof. intros [? ? ?] Hx Hy. nia. Qed.

Lemma ok_put_px s i c x y : surface_ok s -> 0 <= x < s_w s -> 0 <= y < s_h s -> i = y * s_pitch s + x -> ok s (put s i c).
Proof.
  intros Hs Hx Hy ->. pose proof (index_range s x y Hs Hx Hy) as Hi. unfold put. rewrite (proj2 (Z.leb_le _ _)), (proj2 (Z.ltb_lt _ _)) by lia. cbn [andb].
  eexists. split; [done|]. split; cbn; [done|done|done|apply length_insert|]. intros k Hk. apply list_lookup_insert_ne. intros <-. apply Hk. by exists x, y.
Qed.

Lemma get_some s i x y : surface_ok s -> 0 <= x < s_w s -> 0 <= y < s_h s -> i = y * s_pitch s + x -> exists p, get s i = Some p.
Proof.
  intros Hs Hx Hy ->. pose proof (index_range s x y Hs Hx Hy) as Hi. unfold get. rewrite (proj2 (Z.leb_le _ _)) by lia.
  apply lookup_lt_is_Some_2. lia.
Qed.

Lemma between_elem i from to : i ∈ between from to <-> from <= i < to.
Proof. unfold between. rewrite elem_of_seqZ. lia. Qed.

(** A loop over a range. *)
Lemma ok_range s from to (f : Z -> surface_t -> option surface_t) :
  (forall i s', from <= i < to -> frame s s' -> ok s' (f i s')) -> ok s (each (between from to) f s).
Proof. intros H. apply ok_each. intros i s' Hi. apply H. by apply between_elem. Qed.

(** A double loop. *)
Lemma ok_grid s f1 t1 f2 t2 (f : Z -> Z -> surface_t -> option surface_t) :
  surface_ok s -> (forall j i s', f1 <= j < t1 -> f2 <= i < t2 -> frame s s' -> surface_ok s' -> ok s' (f j i s')) ->
  ok s (each (between f1 t1) (λ j s, each (between f2 t2) (λ i s, f j i s) s) s).
Proof.
  intros Hs H. apply ok_range. intros j s1 Hj H1. apply ok_range. intros i s2 Hi H2. pose proof (frame_trans _ _ _ H1 H2) as H12. apply H; [done|done|done|by eapply frame_ok].
Qed.

Lemma ok_draw_px s x y c : surface_ok s -> ok s (draw_px s x y c).
Proof.
  intros Hs. unfold draw_px, inside. destruct (_ && _) eqn:E; [|apply ok_some]. boolify. eapply (ok_put_px _ _ _ x y); [done|lia|lia|done].
Qed.

Lemma ok_blend_px s x y c a : surface_ok s -> ok s (blend_px s x y c a).
Proof.
  intros Hs. unfold blend_px. destruct (_ || _) eqn:E; [apply ok_some|]. rewrite !orb_false_iff in E. destruct_and!. boolify.
  destruct (255 <=? a); [eapply (ok_put_px _ _ _ x y); [done|lia|lia|done]|].
  destruct (get_some s (y * s_pitch s + x) x y Hs) as [p Ep]; [lia|lia|done|]. rewrite Ep. cbn. eapply (ok_put_px _ _ _ x y); [done|lia|lia|done].
Qed.

(** The clamped rectangle lies in the surface. *)
Lemma clamp_spec s x y w h x' y' w' h' : surface_ok s -> clamp s x y w h = (x', y', w', h') -> 0 < w' -> 0 < h' ->
  0 <= x' /\ x' + w' <= s_w s /\ 0 <= y' /\ y' + h' <= s_h s.
Proof.
  intros [? ? ?] E. unfold clamp in E. destruct (Z.ltb_spec x 0), (Z.ltb_spec y 0);
    repeat match type of E with context [if ?b then _ else _] => destruct b eqn:?; boolify end; injection E as <- <- <- <-; lia.
Qed.

Lemma ok_fill_rect s x y w h c : surface_ok s -> ok s (draw_fill_rect s x y w h c).
Proof.
  intros Hs. unfold draw_fill_rect. destruct (clamp s x y w h) as [[[x' y'] w'] h'] eqn:Ec. destruct (_ || _) eqn:E; [apply ok_some|].
  rewrite orb_false_iff in E. destruct_and!. boolify. pose proof (clamp_spec _ _ _ _ _ _ _ _ _ Hs Ec ltac:(lia) ltac:(lia)).
  apply (ok_grid s _ _ _ _ (λ j i s, put s (j * s_pitch s + x' + i) c)); [done|]. intros j i s' Hj Hi [F1 F2 F3 _ _] Hs'. apply (ok_put_px _ _ _ (x' + i) j); [done|lia|lia|lia].
Qed.

Lemma ok_blend_rect s x y w h c a : surface_ok s -> ok s (draw_blend_rect s x y w h c a).
Proof.
  intros Hs. unfold draw_blend_rect. destruct (clamp s x y w h) as [[[x' y'] w'] h'] eqn:Ec. destruct (_ || _) eqn:E; [apply ok_some|].
  rewrite orb_false_iff in E. destruct_and!. boolify. pose proof (clamp_spec _ _ _ _ _ _ _ _ _ Hs Ec ltac:(lia) ltac:(lia)).
  eapply (ok_grid s _ _ _ _ (λ j i s, get s (j * s_pitch s + i) ≫= λ px, put s (j * s_pitch s + i) _)); [done|]. intros j i s' Hj Hi [F1 F2 F3 _ _] Hs'.
  destruct (get_some s' (j * s_pitch s' + i) i j Hs') as [p ->]; [lia|lia|done|]. cbn. apply (ok_put_px _ _ _ i j); [done|lia|lia|done].
Qed.

Lemma ok_h_edge s x y w c : surface_ok s -> ok s (h_edge s x y w c).
Proof.
  intros Hs. unfold h_edge. destruct (_ && _) eqn:E; [|apply ok_some]. boolify. apply ok_range. intros i s' Hi F. pose proof (frame_ok _ _ F Hs) as Hs'.
  destruct F as [F1 F2 F3 _ _]. apply (ok_put_px _ _ _ i y); [done|lia|lia|done].
Qed.

Lemma ok_v_edge s x y h c : surface_ok s -> ok s (v_edge s x y h c).
Proof.
  intros Hs. unfold v_edge. destruct (_ && _) eqn:E; [|apply ok_some]. boolify. apply ok_range. intros i s' Hi F. pose proof (frame_ok _ _ F Hs) as Hs'.
  destruct F as [F1 F2 F3 _ _]. apply (ok_put_px _ _ _ x i); [done|lia|lia|done].
Qed.

End Rules.

Create HintDb drawing.
#[export] Hint Resolve ok_some ok_draw_px ok_blend_px ok_fill_rect ok_blend_rect ok_h_edge ok_v_edge : drawing.

(** Sequences, conditionals and loops of routines that are known to be [ok]. *)
Ltac drawing :=
  repeat match goal with
  | F : frame ?s ?s', H : surface_ok ?s |- _ => lazymatch goal with H' : surface_ok s' |- _ => fail | _ => pose proof (frame_ok _ _ F H) end
  | |- ok ?s (Some ?s) => apply ok_some
  | |- ok _ (each (between _ _) _ _) => apply ok_range; intros
  | |- ok _ (mbind _ _) => apply ok_bind; [|intros]
  | |- ok _ (if ?b then _ else _) => destruct b eqn:?
  | |- ok _ (let _ := _ in _) => cbv zeta
  | |- ok _ _ => solve [eauto with drawing]
  end.

(** The sizes of framed surfaces. *)
Ltac frames := repeat match goal with F : frame _ _ |- _ => destruct F as [? ? ? _ _] end.

Section Shapes.

Implicit Types (s : surface_t).

Lemma ok_draw_rect s x y w h c : surface_ok s -> ok s (draw_rect s x y w h c).
Proof. intros Hs. unfold draw_rect. drawing. Qed.

Lemma ok_gradient s x y w h c1 c2 : surface_ok s -> ok s (draw_gradient_v s x y w h c1 c2).
Proof. intros Hs. unfold draw_gradient_v. drawing. Qed.

Lemma ok_aa_corner s sx sy r left top c a : surface_ok s -> ok s (aa_corner s sx sy r left top c a).
Proof. intros Hs. unfold aa_corner. drawing. Qed.

Lemma ok_circle_filled s cx cy r c : surface_ok s -> ok s (draw_circle_filled s cx cy r c).
Proof. intros Hs. unfold draw_circle_filled. drawing. Qed.

Lemma ok_four_corners s x y w h r c a : surface_ok s -> ok s (four_corners s x y w h r c a).
Proof. intros Hs. unfold four_corners. pose proof ok_aa_corner. drawing. Qed.

Lemma ok_rounded_rect s x y w h r c : surface_ok s -> ok s (draw_rounded_rect s x y w h r c).
Proof. intros Hs. unfold draw_rounded_rect. pose proof ok_four_corners. drawing. Qed.

Lemma ok_blend_rounded_rect s x y w h r c a : surface_ok s -> ok s (draw_blend_rounded_rect s x y w h r c a).
Proof. intros Hs. unfold draw_blend_rounded_rect. pose proof ok_four_corners. drawing. Qed.

Lemma ok_rounded_outline s x y w h r t c : surface_ok s -> ok s (draw_rounded_outline s x y w h r t c).
Proof. intros Hs. unfold draw_rounded_outline. drawing. Qed.

(** ** The loops that do not count *)

(** [i] steps along x and [j] along y are done; every round takes one of them or
    both, and none past the end. *)
Lemma line_loop_ok fuel s x0 y0 x1 y1 dx dy sx sy i j err c : surface_ok s ->
  0 <= i <= dx -> 0 <= j <= dy -> x1 = x0 + sx * (dx - i) -> y1 = y0 + sy * (dy - j) -> err = (j + 1) * dx - (i + 1) * dy ->
  (Z.to_nat (dx - i + (dy - j)) < fuel)%nat -> ok s (line_loop fuel s x0 y0 x1 y1 dx dy sx sy err c).
Proof.
  revert s x0 y0 i j err. induction fuel as [|fuel IH]; intros s x0 y0 i j err Hs Hi Hj Hx Hy He Hf; [lia|]. cbn [line_loop].
  apply ok_bind; [by apply ok_draw_px|]. intros s' F. pose proof (frame_ok _ _ F Hs) as Hs'.
  destruct (_ && _) eqn:E; [apply ok_some|]. cbv zeta.
  assert (Hne : i < dx \/ j < dy).
  { destruct (Z.lt_ge_cases i dx); [by left|]. destruct (Z.lt_ge_cases j dy); [by right|]. exfalso.
    assert (i = dx) by lia. assert (j = dy) by lia. subst i j. rewrite !Z.sub_diag, !Z.mul_0_r, !Z.add_0_r in *. subst x1 y1. by rewrite !Z.eqb_refl in E. }
  destruct (Z.ltb_spec (- dy) (2 * err)) as [H1|H1], (Z.ltb_spec (2 * err) dx) as [H2|H2].
  - assert (i < dx) by nia. assert (j < dy) by nia. apply (IH _ _ _ (i + 1) (j + 1)); [done|lia|lia|lia|lia|lia|lia].
  - assert (i < dx) by nia. apply (IH _ _ _ (i + 1) j); [done|lia|lia|lia|lia|lia|lia].
  - assert (j < dy) by nia. apply (IH _ _ _ i (j + 1)); [done|lia|lia|lia|lia|lia|lia].
  - exfalso. lia.
Qed.

Lemma ok_draw_line s x0 y0 x1 y1 c : surface_ok s -> ok s (draw_line s x0 y0 x1 y1 c).
Proof.
  intros Hs. unfold draw_line. cbv zeta. apply (line_loop_ok _ _ _ _ _ _ _ _ _ _ 0 0); [done|lia|lia| | |lia|lia]; [destruct (Z.leb_spec 0 (x1 - x0))|destruct (Z.leb_spec 0 (y1 - y0))]; lia.
Qed.

Lemma circle_loop_ok fuel s cx cy x y d c : surface_ok s -> (Z.to_nat (x + 1 - y) < fuel)%nat -> ok s (circle_loop fuel s cx cy x y d c).
Proof.
  revert s x y d. induction fuel as [|fuel IH]; intros s x y d Hs Hf; [lia|]. cbn [circle_loop].
  destruct (Z.ltb_spec x y); [apply ok_some|]. do 8 (apply ok_bind; [drawing|intros ? ?]). drawing; apply IH; [done|lia|done|lia].
Qed.

Lemma ok_draw_circle s cx cy r c : surface_ok s -> ok s (draw_circle s cx cy r c).
Proof. intros Hs. apply circle_loop_ok; [done|lia]. Qed.

Lemma ok_traffic_light s cx cy r c sym : surface_ok s -> ok s (draw_traffic_light s cx cy r c sym).
Proof. intros Hs. unfold draw_traffic_light. pose proof ok_circle_filled. pose proof ok_draw_line. drawing. Qed.

(** ** Blits *)

Lemma src_some (src : list Z) i : 0 <= i < Z.of_nat (length src) -> exists p, src !! Z.to_nat i = Some p.
Proof. intros H. apply lookup_lt_is_Some_2. lia. Qed.

Lemma ok_blit s dx dy src sw sh : surface_ok s -> src_ok src sw sh -> ok s (draw_blit s dx dy src sw sh).
Proof.
  intros Hs Hsrc. unfold draw_blit. cbv zeta.
  destruct (if dx <? 0 then _ else _) as [[sx0 sw1] dx1] eqn:Ex. destruct (if dy <? 0 then _ else _) as [[sy0 sh1] dy1] eqn:Ey.
  assert (Hx : 0 <= sx0 /\ sx0 + sw1 = sw /\ 0 <= dx1) by (destruct (Z.ltb_spec dx 0); simplify_eq; lia).
  assert (Hy : 0 <= sy0 /\ sy0 + sh1 = sh /\ 0 <= dy1) by (destruct (Z.ltb_spec dy 0); simplify_eq; lia). clear Ex Ey.
  set (sw2 := if s_w s <? dx1 + sw1 then _ else _). set (sh2 := if s_h s <? dy1 + sh1 then _ else _).
  assert (sw2 <= sw1 /\ dx1 + sw2 <= s_w s) by (subst sw2; destruct (Z.ltb_spec (s_w s) (dx1 + sw1)); lia).
  assert (sh2 <= sh1 /\ dy1 + sh2 <= s_h s) by (subst sh2; destruct (Z.ltb_spec (s_h s) (dy1 + sh1)); lia).
  clearbody sw2 sh2. destruct (_ || _); [apply ok_some|].
  eapply (ok_grid s _ _ _ _ (λ y x s, (src !! Z.to_nat ((sy0 + y) * sw + sx0 + x)) ≫= λ p, put s ((dy1 + y) * s_pitch s + dx1 + x) p)); [done|].
  intros y x s' Hj Hi [F1 F2 F3 _ _] Hs'. unfold src_ok in Hsrc.
  destruct (src_some src ((sy0 + y) * sw + sx0 + x)) as [p ->]; [nia|]. cbn. apply (ok_put_px _ _ _ (dx1 + x) (dy1 + y)); [done|lia|lia|lia].
Qed.

Lemma ok_blit_keyed s dx dy src sw sh key : surface_ok s -> src_ok src sw sh -> ok s (draw_blit_keyed s dx dy src sw sh key).
Proof.
  intros Hs Hsrc. unfold draw_blit_keyed. apply ok_range. intros y s1 Hy F1. drawing. rename i into x, s' into s2. frames. boolify. unfold src_ok in Hsrc.
  destruct (src_some src (y * sw + x)) as [p ->]; [nia|]. cbn. destruct (_ =? _); [apply ok_some|]. apply (ok_put_px _ _ _ (dx + x) (dy + y)); [done|lia|lia|lia].
Qed.

(** A scaled coordinate. *)
Lemma quot_scale i n d : 0 <= i < d -> 0 < n -> 0 <= Z.quot (i * n) d < n.
Proof. intros Hi Hn. rewrite Z.quot_div_nonneg by nia. split; [apply Z.div_pos; nia|apply Z.div_lt_upper_bound; nia]. Qed.

Lemma shift_scale x sw dw : 0 <= x < dw -> 0 < sw -> 0 <= Z.shiftr (x * Z.quot (Z.shiftl sw 16) dw) 16 < sw.
Proof.
  intros Hx Hs. rewrite Z.shiftl_mul_pow2, Z.shiftr_div_pow2 by lia. rewrite Z.quot_div_nonneg by lia.
  assert (0 <= sw * 2 ^ 16 / dw) by (apply Z.div_pos; lia). pose proof (Z.mul_div_le (sw * 2 ^ 16) dw ltac:(lia)).
  split; [apply Z.div_pos; nia|]. apply Z.div_lt_upper_bound; [lia|]. destruct (Z.eq_dec (sw * 2 ^ 16 / dw) 0) as [E|]; [rewrite E; lia|nia].
Qed.

Lemma ok_blit_scaled s dx dy dw dh src sw sh : surface_ok s -> src_ok src sw sh -> ok s (draw_blit_scaled s dx dy dw dh src sw sh).
Proof.
  intros Hs Hsrc. unfold draw_blit_scaled. destruct (_ || _) eqn:E; [apply ok_some|]. cbv zeta. boolify.
  apply ok_range. intros y s1 Hy F1. apply ok_range. intros x s2 Hx F2. pose proof (frame_trans _ _ _ F1 F2) as F. pose proof (frame_ok _ _ F Hs) as Hs2. destruct F as [E1 E2 E3 _ _].
  assert (0 <= y < dh /\ 0 <= dy + y < s_h s) by (destruct (Z.ltb_spec dy 0), (Z.ltb_spec (s_h s) (dy + dh)); lia).
  assert (0 <= x < dw /\ 0 <= dx + x < s_w s) by (destruct (Z.ltb_spec dx 0), (Z.ltb_spec (s_w s) (dx + dw)); lia).
  pose proof (quot_scale y sh dh ltac:(lia) ltac:(lia)). pose proof (shift_scale x sw dw ltac:(lia) ltac:(lia)). unfold src_ok in Hsrc.
  destruct (src_some src (Z.quot (y * sh) dh * sw + Z.shiftr (x * Z.quot (Z.shiftl sw 16) dw) 16)) as [p ->]; [nia|]. cbn.
  apply (ok_put_px _ _ _ (dx + x) (dy + y)); [done|lia|lia|lia].
Qed.

Lemma ok_blit_alpha_scaled s dx dy dw dh src sw sh : surface_ok s -> src_ok src sw sh -> ok s (draw_blit_alpha_scaled s dx dy dw dh src sw sh).
Proof.
  intros Hs Hsrc. unfold draw_blit_alpha_scaled. destruct (_ || _) eqn:E; [apply ok_some|]. apply ok_range. intros row s1 Hr F1. drawing. rename i into col, s' into s2. frames. boolify.
  unfold src_ok in Hsrc. pose proof (quot_scale row sh dh ltac:(lia) ltac:(lia)). pose proof (quot_scale col sw dw ltac:(lia) ltac:(lia)).
  destruct (src_some src (Z.quot (row * sh) dh * sw + Z.quot (col * sw) dw)) as [p ->]; [nia|]. cbn. destruct (_ =? 0); [apply ok_some|].
  destruct (get_some s2 ((dy + row) * s_pitch s2 + (dx + col)) (dx + col) (dy + row)) as [bg ->]; [done|lia|lia|done|].
  cbn. apply (ok_put_px _ _ _ (dx + col) (dy + row)); [done|lia|lia|lia].
Qed.

(** The source has [src_pitch] pixels a row. *)
Lemma ok_blit_scaled_alpha s dx dy dw dh src sw sh src_pitch ga key : surface_ok s -> sw <= src_pitch -> src_ok src src_pitch sh ->
  ok s (draw_blit_scaled_alpha s dx dy dw dh src sw sh src_pitch ga key).
Proof.
  intros Hs Hp Hsrc. unfold draw_blit_scaled_alpha. destruct (_ || _) eqn:E; [apply ok_some|]. destruct (ga <=? 0); [apply ok_some|]. cbv zeta.
  apply ok_range. intros row s1 Hr F1. drawing. rename i into col, s' into s2. frames. boolify.
  unfold src_ok in Hsrc. pose proof (quot_scale row sh dh ltac:(lia) ltac:(lia)). pose proof (quot_scale col sw dw ltac:(lia) ltac:(lia)).
  destruct (src_some src (Z.quot (row * sh) dh * src_pitch + Z.quot (col * sw) dw)) as [p ->]; [nia|]. cbn. destruct (_ =? _); [apply ok_some|].
  destruct (_ =? 255); [apply (ok_put_px _ _ _ (dx + col) (dy + row)); [done|lia|lia|lia]|].
  destruct (get_some s2 ((dy + row) * s_pitch s2 + (dx + col)) (dx + col) (dy + row)) as [bg ->]; [done|lia|lia|done|].
  cbn. apply (ok_put_px _ _ _ (dx + col) (dy + row)); [done|lia|lia|lia].
Qed.

End Shapes.
