(* ===== verification/GlyphText.v ===== *)
(** Text of the glyph library: drawing with either font stays inside the surface, and
    an elided string fits, in pixels and in its buffer, and ends at a character. *)

From S2P Require Import Prelude CString GlyphDraw GlyphDrawSafety.
Local Open Scope Z_scope.

(** * Definitions *)

(** A sequence of whole UTF-8 characters: a first byte and as many continuation
    bytes as it announces. *)
Inductive utf8 : bytes -> Prop :=
| utf8_nil : utf8 []
| utf8_char c cs rest : continuation c = false -> S (length cs) = utf8_step c -> Forall (λ b, continuation b = true) cs -> utf8 rest -> utf8 (c :: cs ++ rest).

Definition terminus_ok (font_terminus : bytes) : Prop := Z.of_nat (length font_terminus) = 256 * FONT_H * 2.
Definition ui_font_ok (g : option font_t) : Prop := match g with Some f => font_ok f | None => True end.

(** No glyph moves the pen back. *)
Definition forward (b : baked_size_t) : Prop := Forall (λ c, 0 <= bc_xadvance c) (bs_cdata b).
Definition font_forward (g : option font_t) : Prop :=
  match g with Some f => forall b, find_or_bake f UI_FONT_SIZE = Some b -> forward b | None => True end.

(** How far a byte moves the pen. *)
Definition advance_of (g : option font_t) (ch : Z) : Z :=
  match g with
  | None => FONT_W
  | Some f => match find_or_bake f UI_FONT_SIZE with Some b => if printable ch then default 0 (bc_xadvance <$> char_data b ch) else 0 | None => 0 end
  end.
Definition extent (g : option font_t) (text : bytes) : Z := foldr (λ ch n, advance_of g ch + n) 0 text.

(** * Fonts *)

Lemma find_baked_ok f size b : font_ok f -> find_baked f size = Some b -> baked_ok b.
Proof. intros [H _] E. apply find_some in E as [E _]. rewrite Forall_forall in H. apply H. by apply list_elem_of_In. Qed.

Lemma font_bake_ok f size : font_ok f -> font_ok (font_bake f size).
Proof.
  intros Hf. pose proof Hf as [H1 H2]. unfold font_bake. destruct (size <=? 0); [done|]. destruct (find_baked f size); [done|].
  destruct (_ <=? _)%nat; [done|]. destruct (fd_bake f size) as [b|] eqn:E; [|done]. split; [|exact H2]. apply Forall_app. split; [done|].
  constructor; [|constructor]. exact (H2 _ _ E).
Qed.

Lemma find_or_bake_ok f size b : font_ok f -> find_or_bake f size = Some b -> baked_ok b.
Proof.
  intros Hf. unfold find_or_bake. destruct (find_baked f size) as [b'|] eqn:E.
  - intros [= <-]. exact (find_baked_ok _ _ _ Hf E).
  - apply find_baked_ok. by apply font_bake_ok.
Qed.

(** A size that is baked is the one asked for. *)
Lemma find_or_bake_size f size b : find_or_bake f size = Some b -> bs_size_px b = size.
Proof.
  unfold find_or_bake, find_baked. destruct (find _ (fd_sizes f)) as [b'|] eqn:E.
  - intros [= <-]. apply find_some in E as [_ E]. by boolify.
  - intros E'. apply find_some in E' as [_ E']. by boolify.
Qed.

(** What the first call for a size baked is what every later call finds. *)
Lemma bake_again f size : find_or_bake (font_bake f size) size = find_or_bake f size.
Proof.
  unfold find_or_bake at 2. destruct (find_baked f size) as [b|] eqn:E.
  - unfold font_bake. rewrite E. destruct (size <=? 0); unfold find_or_bake; by rewrite E.
  - unfold find_or_bake. destruct (find_baked (font_bake f size) size) as [b|] eqn:E1; [done|].
    assert (Hsame : font_bake f size = f); [|by rewrite !Hsame, E].
    revert E1. unfold font_bake. rewrite E. destruct (size <=? 0); [done|]. destruct (_ <=? _)%nat; [done|]. destruct (fd_bake f size) as [b|]; [|done].
    intros E1. exfalso. revert E1. unfold find_baked in *. cbn [fd_sizes]. induction (fd_sizes f) as [|b' l IH]; cbn [app List.find bs_size_px]; [by rewrite Z.eqb_refl|].
    cbn [List.find] in E. destruct (bs_size_px b' =? size); [done|by auto].
Qed.

Lemma char_data_some b ch : baked_ok b -> printable ch = true -> exists c, char_data b ch = Some c /\ glyph_ok c.
Proof.
  intros (_ & Hl & Hg) Hp. unfold printable, char_data in *. boolify. unfold FIRST_CHAR, NUM_CHARS in *.
  destruct (lookup_lt_is_Some_2 (bs_cdata b) (Z.to_nat (ch - 32))) as [c Ec]; [lia|]. exists c. split; [done|]. rewrite Forall_lookup in Hg. eauto.
Qed.

Lemma width_loop_some b text w : baked_ok b -> exists w', width_loop b text w = Some w'.
Proof.
  intros Hb. revert w. induction text as [|ch text IH]; intros w; cbn [width_loop]; [by eexists|].
  destruct (printable ch) eqn:E; [|apply IH]. destruct (char_data_some b ch Hb E) as (c & -> & _). cbn. apply IH.
Qed.

Lemma text_width_some g text : ui_font_ok g -> exists w, glyph_text_width g text = Some w.
Proof.
  intros Hg. unfold glyph_text_width. destruct g as [f|]; [|by eexists]. unfold font_text_width.
  destruct (find_or_bake f UI_FONT_SIZE) as [b|] eqn:E; [|by eexists]. apply width_loop_some. by eapply find_or_bake_ok.
Qed.

Lemma font_draw_char_ok s f size x y ch c : surface_ok s -> font_ok f -> exists s' adv, font_draw_char s f size x y ch c = Some (s', adv) /\ frame s s'.
Proof.
  intros Hs Hf. unfold font_draw_char. destruct (find_or_bake f size) as [b|] eqn:Eb; [|eexists _, _; split; [done|apply frame_refl]].
  destruct (printable ch) eqn:Ep; cbn [negb]; [|eexists _, _; split; [done|apply frame_refl]].
  pose proof (find_or_bake_ok _ _ _ Hf Eb) as Hb. destruct (char_data_some b ch Hb Ep) as (bc & -> & G1 & G2 & G3 & G4). cbn -[Z.mul].
  destruct Hb as (Hat & _ & _).
  match goal with |- context [each (between ?a ?b) ?f s ≫= _] => assert (Hok : ok s (each (between a b) f s)) end.
  { apply ok_range. intros row s1 Hr F1. apply ok_range. intros col s2 Hc F2. pose proof (frame_trans _ _ _ F1 F2) as F. pose proof (frame_ok _ _ F Hs) as Hs2. frames.
    set (sy := y + bs_ascent b + bc_yoff bc) in *. set (sx := x + bc_xoff bc) in *.
    assert (0 <= row < bc_y1 bc - bc_y0 bc /\ 0 <= sy + row < s_h s) by (destruct (Z.ltb_spec sy 0), (Z.ltb_spec (s_h s) (sy + (bc_y1 bc - bc_y0 bc))); lia).
    assert (0 <= col < bc_x1 bc - bc_x0 bc /\ 0 <= sx + col < s_w s) by (destruct (Z.ltb_spec sx 0), (Z.ltb_spec (s_w s) (sx + (bc_x1 bc - bc_x0 bc))); lia).
    unfold ATLAS_W, ATLAS_H in *. destruct (src_some (bs_atlas b) ((bc_y0 bc + row) * 512 + bc_x0 bc + col)) as [a ->]; [lia|]. cbn -[Z.mul].
    destruct (a =? 0); [apply ok_some|]. destruct (a =? 255); [apply (ok_put_px _ _ _ (sx + col) (sy + row)); [done|lia|lia|lia]|].
    destruct (get_some s2 ((sy + row) * s_pitch s2 + sx + col) (sx + col) (sy + row)) as [px ->]; [done|lia|lia|lia|].
    cbn -[Z.mul]. apply (ok_put_px _ _ _ (sx + col) (sy + row)); [done|lia|lia|lia]. }
  destruct Hok as (s' & -> & F). cbn. by eexists _, _.
Qed.

Lemma ok_font_draw_text s f size x y text c : surface_ok s -> font_ok f -> ok s (font_draw_text s f size x y text c).
Proof.
  intros Hs Hf. revert s x Hs. induction text as [|ch text IH]; intros s x Hs; cbn [font_draw_text]; [apply ok_some|].
  destruct (font_draw_char_ok s f size x y ch c Hs Hf) as (s' & adv & -> & F). cbn.
  destruct (IH s' (x + adv)) as (s2 & -> & F2); [by eapply frame_ok|]. exists s2. split; [done|by eapply frame_trans].
Qed.

(** * Text *)

Section Text.

Context (font_terminus : bytes) (g : option font_t).
Hypothesis terminus : terminus_ok font_terminus.
Hypothesis ui_font : ui_font_ok g.

Lemma glyph_bits_some ch row : is_byte ch -> 0 <= row < FONT_H -> exists bits, glyph_bits font_terminus ch row = Some bits.
Proof.
  intros Hc Hr. unfold glyph_bits, terminus_ok, is_byte, FONT_H in *.
  destruct (lookup_lt_is_Some_2 font_terminus (Z.to_nat (ch * 20 * 2 + row * 2))) as [hi ->]; [lia|].
  destruct (lookup_lt_is_Some_2 font_terminus (S (Z.to_nat (ch * 20 * 2 + row * 2)))) as [lo ->]; [lia|]. by eexists.
Qed.

Lemma ok_draw_char s x y ch fg bg : surface_ok s -> is_byte ch -> ok s (draw_char font_terminus s x y ch fg bg).
Proof.
  intros Hs Hc. unfold draw_char. apply ok_range. intros row s1 Hr F1. destruct (glyph_bits_some ch row Hc Hr) as [bits ->]. cbn. drawing.
Qed.

Lemma ok_draw_text s x y str fg bg : surface_ok s -> Forall is_byte str -> ok s (draw_text font_terminus s x y str fg bg).
Proof.
  intros Hs H. revert s x Hs. induction H as [|ch str Hc Hstr IH]; intros s x Hs; cbn [draw_text]; [apply ok_some|].
  apply ok_bind; [by apply ok_draw_char|]. intros s' F. apply IH. by eapply frame_ok.
Qed.

Lemma ok_draw_text_t s x y str fg : surface_ok s -> Forall is_byte str -> ok s (draw_text_t font_terminus s x y str fg).
Proof.
  intros Hs H. revert s x Hs. induction H as [|ch str Hc Hstr IH]; intros s x Hs; cbn [draw_text_t]; [apply ok_some|].
  apply ok_bind; [|intros s' F; apply IH; by eapply frame_ok].
  apply ok_range. intros row s1 Hr F1. destruct (glyph_bits_some ch row Hc Hr) as [bits ->]. cbn. drawing.
Qed.

Lemma ok_draw_text_ui s x y str fg : surface_ok s -> Forall is_byte str -> ok s (draw_text_ui font_terminus g s x y str fg).
Proof.
  intros Hs H. unfold draw_text_ui. destruct g as [f|]; [by apply ok_font_draw_text|by apply ok_draw_text_t].
Qed.

Lemma ok_draw_text_center s x y w str fg bg : surface_ok s -> Forall is_byte str -> ok s (draw_text_center font_terminus s x y w str fg bg).
Proof. intros Hs H. unfold draw_text_center. cbv zeta. by apply ok_draw_text. Qed.

(** ** Eliding *)

(** The prefix grows, fits the buffer, and keeps its bytes. *)
Lemma elide_loop_some fuel done rest max_w room : (length rest < fuel)%nat ->
  exists best k, elide_loop g fuel done rest max_w room = Some best /\ best = done ++ take k rest /\ Z.of_nat (length best) <= Z.max (Z.of_nat (length done)) room.
Proof.
  revert done rest. induction fuel as [|fuel IH]; intros done rest Hf; [lia|]. cbn [elide_loop].
  assert (Hstop : exists best k, Some done = Some best /\ best = done ++ take k rest /\ Z.of_nat (length best) <= Z.max (Z.of_nat (length done)) room).
  { exists done, O. rewrite take_0, app_nil_r. split; [by f_equal|]. split; [done|lia]. }
  destruct rest as [|c rest]; [exact Hstop|]. destruct (room <=? _) eqn:E1; [exact Hstop|]. destruct (_ <? Z.of_nat _) eqn:E2; [exact Hstop|].
  destruct (_ <? _)%nat eqn:E3; [exact Hstop|]. destruct (text_width_some g ((done ++ take (utf8_step c) (c :: rest)) ++ ELL) ui_font) as [w Ew].
  rewrite Ew. cbn [mbind option_bind]. destruct (w <=? max_w); [|exact Hstop]. boolify. set (n := utf8_step c) in *.
  assert (Hn : (0 < n)%nat) by (subst n; unfold utf8_step; repeat case_match; lia).
  destruct (IH (done ++ take n (c :: rest)) (drop n (c :: rest))) as (best & k & E & -> & Hl).
  { rewrite length_drop. cbn [length] in *. lia. }
  eexists _, (n + k)%nat. split; [exact E|]. split; [by rewrite <- app_assoc, take_take_drop|].
  etrans; [exact Hl|]. rewrite length_app, length_take. lia.
Qed.

(** ** Widths *)

Lemma extent_app a b : extent g (a ++ b) = extent g a + extent g b.
Proof. unfold extent. induction a as [|ch a IH]; cbn [app foldr]; [lia|]. rewrite IH. lia. Qed.

(** Width is a sum over the bytes. *)
Lemma text_width_extent text : glyph_text_width g text = Some (extent g text).
Proof.
  unfold glyph_text_width, extent, advance_of. destruct g as [f|].
  - unfold font_text_width. destruct (find_or_bake f UI_FONT_SIZE) as [b|] eqn:Eb; [|f_equal; induction text; cbn; lia].
    pose proof (find_or_bake_ok _ _ _ ui_font Eb) as Hb. enough (H : forall w, width_loop b text w = Some (w + extent (Some f) text)).
    { rewrite H. unfold extent, advance_of. by rewrite Eb. }
    unfold extent, advance_of. rewrite Eb. induction text as [|ch text IH]; intros w; cbn [width_loop foldr]; [f_equal; lia|].
    destruct (printable ch) eqn:Ep; [|rewrite IH; f_equal; lia]. destruct (char_data_some b ch Hb Ep) as (c & -> & _). cbn. rewrite IH. f_equal. lia.
  - f_equal. induction text as [|ch text IH]; [done|]. cbn [length foldr]. rewrite <- IH. unfold FONT_W. lia.
Qed.

Hypothesis forward_font : font_forward g.

Lemma extent_pos text : 0 <= extent g text.
Proof.
  unfold extent. induction text as [|ch text IH]; cbn [foldr]; [lia|]. enough (0 <= advance_of g ch) by lia. clear IH. unfold advance_of.
  unfold font_forward in forward_font. destruct g as [f|]; [|done]. destruct (find_or_bake f UI_FONT_SIZE) as [b|]; [|done].
  destruct (printable ch); [|done]. unfold char_data. destruct (bs_cdata b !! _) as [c|] eqn:Ec; [|done]. specialize (forward_font b eq_refl). unfold forward in forward_font. rewrite Forall_lookup in forward_font. exact (forward_font _ _ Ec).
Qed.

(** ** Characters *)

Lemma utf8_app a b : utf8 a -> utf8 b -> utf8 (a ++ b).
Proof. intros Ha Hb. induction Ha as [|c cs rest Hc Hl Hcs Hr IH]; [done|]. rewrite app_comm_cons, <- !app_assoc, <- app_comm_cons. by constructor. Qed.

Lemma ELL_utf8 : utf8 ELL.
Proof. apply (utf8_char 0xE2 [0x80; 0xA6] []); [done|done|by repeat constructor|constructor]. Qed.

Lemma utf8_head (l : bytes) : utf8 l -> continuation (byte_at l 0) = false.
Proof. by intros []. Qed.

Lemma back_up_le l i : (back_up l i <= i)%nat.
Proof. induction i as [|i IH]; cbn [back_up]; [lia|]. destruct (continuation _); lia. Qed.

Lemma back_up_app a l j : continuation (byte_at l 0) = false -> back_up (a ++ l) (length a + j) = (length a + back_up l j)%nat.
Proof.
  intros Hl. induction j as [|j IH].
  - rewrite Nat.add_0_r. destruct (length a) as [|n] eqn:En; [done|]. cbn [back_up]. unfold byte_at in *. rewrite lookup_app_r by lia.
    replace (S n - length a)%nat with 0%nat by lia. rewrite Hl. lia.
  - rewrite Nat.add_succ_r. cbn [back_up]. unfold byte_at. rewrite lookup_app_r by lia. replace (S (length a + j) - length a)%nat with (S j) by lia.
    fold (byte_at l (S j)). destruct (continuation (byte_at l (S j))); [exact IH|lia].
Qed.

Lemma back_up_inside c cs (rest : bytes) i : Forall (λ b, continuation b = true) cs -> (i <= length cs)%nat -> back_up (c :: cs ++ rest) i = 0%nat.
Proof.
  intros Hcs Hi. induction i as [|i IH]; [done|]. cbn [back_up]. unfold byte_at. change ((c :: cs ++ rest) !! S i) with ((cs ++ rest) !! i). rewrite lookup_app_l by lia.
  destruct (lookup_lt_is_Some_2 cs i) as [b Eb]; [lia|]. rewrite Eb. cbn [default from_option id]. rewrite Forall_lookup in Hcs. rewrite (Hcs _ _ Eb). apply IH. lia.
Qed.

(** Backing up ends at a character. *)
Lemma back_up_utf8 l i : utf8 l -> utf8 (take (back_up l i) l).
Proof.
  intros Hl. revert i. induction Hl as [|c cs rest Hc Hn Hcs Hr IH]; intros i; [rewrite take_nil; constructor|].
  destruct (Nat.le_gt_cases i (length cs)) as [Hi|Hi]; [rewrite (back_up_inside c cs rest i Hcs Hi); constructor|].
  assert (Ei : i = (length (c :: cs) + (i - length (c :: cs)))%nat) by (cbn [length]; lia). rewrite Ei. rewrite app_comm_cons.
  rewrite back_up_app by (by apply utf8_head). rewrite take_app_add. rewrite <- app_comm_cons. by constructor.
Qed.

Lemma back_up_all l : utf8 l -> back_up l (length l) = length l.
Proof.
  intros _. destruct (length l) as [|n] eqn:En; [done|]. cbn [back_up]. unfold byte_at. rewrite (proj2 (lookup_ge_None l (S n))) by lia. done.
Qed.

(** A shorter sequence of characters starts with the same character. *)
Lemma utf8_prefix_step c cs (rest q : bytes) : S (length cs) = utf8_step c -> utf8 q -> q `prefix_of` c :: cs ++ rest -> q = [] \/ exists q', q = c :: cs ++ q' /\ utf8 q' /\ q' `prefix_of` rest.
Proof.
  intros Hn Hq Hp. destruct Hq as [|c' cs' q' Hc' Hn' Hcs' Hq']; [by left|]. right. destruct Hp as [k Hk]. rewrite <- app_comm_cons in Hk. injection Hk as <- Hk.
  rewrite <- Hn in Hn'. injection Hn' as Hn'. rewrite <- app_assoc in Hk. apply app_inj_1 in Hk as [<- ->]; [|done]. exists q'. split; [done|]. split; [done|by exists k].
Qed.

(** ** What eliding does *)

Lemma elide_loop_spec fuel done rest max_w room : (length rest < fuel)%nat -> utf8 rest -> exists p,
  elide_loop g fuel done rest max_w room = Some (done ++ p) /\ utf8 p /\ p `prefix_of` rest /\
  (extent g (done ++ ELL) <= max_w -> extent g ((done ++ p) ++ ELL) <= max_w) /\
  (forall q, utf8 q -> q `prefix_of` rest -> Z.of_nat (length (done ++ q)) <= room -> extent g ((done ++ q) ++ ELL) <= max_w -> (length q <= length p)%nat).
Proof.
  revert done rest. induction fuel as [|fuel IH]; intros done rest Hf Hr; [lia|]. cbn [elide_loop].
  destruct Hr as [|c cs rest Hc Hn Hcs Hr].
  { exists []. rewrite app_nil_r. split; [done|]. split; [constructor|]. split; [done|]. split; [done|]. intros q _ Hq. by apply prefix_nil_inv in Hq as ->. }
  assert (Hstop : (forall q', Z.of_nat (length (done ++ c :: cs ++ q')) <= room -> extent g ((done ++ c :: cs ++ q') ++ ELL) <= max_w -> False) -> exists p,
    Some done = Some (done ++ p) /\ utf8 p /\ p `prefix_of` c :: cs ++ rest /\ (extent g (done ++ ELL) <= max_w -> extent g ((done ++ p) ++ ELL) <= max_w) /\
    (forall q, utf8 q -> q `prefix_of` c :: cs ++ rest -> Z.of_nat (length (done ++ q)) <= room -> extent g ((done ++ q) ++ ELL) <= max_w -> (length q <= length p)%nat)).
  { intros Hno. exists []. rewrite app_nil_r. split; [done|]. split; [constructor|]. split; [apply prefix_nil|]. split; [done|].
    intros q Hq Hp Hl Hw. destruct (utf8_prefix_step c cs rest q Hn Hq Hp) as [->|(q' & -> & _)]; [done|]. exfalso. exact (Hno q' Hl Hw). }
  assert (Hlen : forall q', length (done ++ c :: cs ++ q') = (length done + utf8_step c + length q')%nat) by (intros q'; rewrite length_app; cbn [length]; rewrite length_app; lia).
  destruct (room <=? _) eqn:E1; [apply Hstop; intros q'; rewrite Hlen; boolify; lia|].
  destruct (_ <? Z.of_nat _) eqn:E2; [apply Hstop; intros q'; rewrite Hlen; boolify; lia|].
  assert (Et : take (utf8_step c) (c :: cs ++ rest) = c :: cs) by (rewrite <- Hn; cbn [take]; by rewrite take_app_length).
  assert (Ed : drop (utf8_step c) (c :: cs ++ rest) = rest) by (rewrite <- Hn; cbn [drop]; by rewrite drop_app_length).
  rewrite Et, Ed. rewrite (proj2 (Nat.ltb_ge _ _)) by (cbn [length]; rewrite length_app; lia).
  rewrite text_width_extent. cbn [mbind option_bind]. destruct (Z.leb_spec (extent g ((done ++ c :: cs) ++ ELL)) max_w) as [Hw|Hw].
  - destruct (IH (done ++ c :: cs) rest) as (p & -> & Hu & Hp & Hpw & Hmax); [cbn [length] in Hf; rewrite length_app in Hf; lia|done|].
    exists (c :: cs ++ p). rewrite <- app_assoc. cbn [app]. split; [done|]. split; [by constructor|]. split; [by apply prefix_cons, prefix_app|].
    split; [intros _; specialize (Hpw Hw); change (c :: cs ++ p) with ((c :: cs) ++ p); by rewrite (app_assoc done)|].
    intros q Hq Hqp Hl Hqw. destruct (utf8_prefix_step c cs rest q Hn Hq Hqp) as [->|(q' & -> & Hq' & Hqp')]; [cbn; lia|].
    change (c :: cs ++ q') with ((c :: cs) ++ q') in Hl, Hqw. rewrite (app_assoc done) in Hl, Hqw. specialize (Hmax q' Hq' Hqp' Hl Hqw). cbn [length]. rewrite !length_app. lia.
  - apply Hstop. intros q' _. rewrite !extent_app in *. change (c :: cs ++ q') with ((c :: cs) ++ q'). rewrite extent_app. pose proof (extent_pos q'). lia.
Qed.

(** Eliding returns the text itself when it fits its pixels and its buffer.
    Whatever it returns fits both with the final NUL, and consists of whole
    characters of the text, with the ellipsis when the text was too wide; then no
    longer run of its characters would have fitted with the ellipsis. *)
Theorem elide_fits src max_w outsz : utf8 src -> 0 < outsz -> exists out,
  glyph_text_elide g (Some src) max_w outsz = Some out /\ Z.of_nat (length out) < outsz /\ utf8 out /\
  (extent g src <= max_w ->
     extent g out <= max_w /\ out `prefix_of` src /\ (Z.of_nat (length src) < outsz -> out = src)) /\
  (max_w < extent g src ->
     (out = [] \/ extent g out <= max_w /\ exists p, p `prefix_of` src /\ out = p ++ ELL) /\
     (forall q, utf8 q -> q `prefix_of` src -> Z.of_nat (length q) + 4 <= outsz -> extent g (q ++ ELL) <= max_w -> (length (q ++ ELL) <= length out)%nat)).
Proof.
  intros Hu Ho. unfold glyph_text_elide. rewrite !text_width_extent. cbn [mbind option_bind]. destruct (Z.leb_spec (extent g src) max_w) as [Hw|Hw].
  - set (i := Nat.min (length src) (Z.to_nat (outsz - 1))). pose proof (back_up_le src i) as Hb. exists (take (back_up src i) src). split; [done|].
    split; [rewrite length_take; subst i; lia|]. split; [by apply back_up_utf8|]. split; [|lia]. intros _. split; [|split].
    + rewrite <- (take_drop (back_up src i) src), extent_app in Hw. pose proof (extent_pos (drop (back_up src i) src)). lia.
    + exists (drop (back_up src i) src). by rewrite take_drop.
    + intros Hl. assert (i = length src) as -> by (subst i; lia). rewrite back_up_all by done. by rewrite firstn_all.
  - destruct (Z.ltb_spec outsz 4) as [Ho'|Ho']; cbn [orb].
    { exists []. split; [done|]. split; [cbn; lia|]. split; [constructor|]. split; [lia|]. intros _. split; [by left|]. intros q _ _ Hq. lia. }
    destruct (Z.ltb_spec max_w (extent g ELL)) as [He|He].
    { exists []. split; [done|]. split; [cbn; lia|]. split; [constructor|]. split; [lia|]. intros _. split; [by left|].
      intros q _ _ _. rewrite extent_app. pose proof (extent_pos q). lia. }
    destruct (elide_loop_some (S (length src)) [] src max_w (outsz - 4)) as (best & k & E & Eb & Hl); [lia|].
    destruct (elide_loop_spec (S (length src)) [] src max_w (outsz - 4)) as (p & E' & Hp & Hpre & Hpw & Hmax); [lia|done|].
    rewrite E in E'. injection E' as ->. rewrite E. cbn [mbind option_bind app length] in *. exists (p ++ ELL). split; [done|].
    split; [rewrite length_app; cbn [length ELL]; lia|]. split; [apply utf8_app; [done|apply ELL_utf8]|]. split; [lia|]. intros _.
    split; [right; split; [by apply Hpw|by exists p]|]. intros q Hq Hqp Hql Hqw. rewrite !length_app. specialize (Hmax q Hq Hqp ltac:(lia) Hqw). lia.
Qed.

End Text.

(** ** Widgets *)

Section Widgets.

Context (font_terminus : bytes) (g : option font_t) (th : glyph_theme_t).
Hypothesis terminus : terminus_ok font_terminus.
Hypothesis ui_font : ui_font_ok g.

Lemma elide_bytes src max_w outsz : match src with Some str => Forall is_byte str | None => True end -> exists out, glyph_text_elide g src max_w outsz = Some out /\ Forall is_byte out.
Proof.
  intros Hb. unfold glyph_text_elide. destruct src as [src|]; [|by exists []]. destruct (text_width_some g src ui_font) as [w ->]. cbn [mbind option_bind].
  destruct (w <=? max_w); [eexists; split; [done|by apply Forall_take]|]. destruct (text_width_some g ELL ui_font) as [e ->]. cbn [mbind option_bind].
  destruct (_ || _); [by exists []|]. destruct (elide_loop_some g ui_font (S (length src)) [] src max_w (outsz - 4)) as (best & k & -> & -> & _); [lia|].
  cbn [mbind option_bind app]. eexists. split; [done|]. apply Forall_app. split; [by apply Forall_take|]. unfold ELL, is_byte. repeat constructor; lia.
Qed.

Lemma ok_text_ui_elided s x y max_w str fg : surface_ok s -> match str with Some l => Forall is_byte l | None => True end ->
  ok s (draw_text_ui_elided font_terminus g s x y max_w str fg).
Proof.
  intros Hs Hb. unfold draw_text_ui_elided. destruct (elide_bytes str max_w 256 Hb) as (out & -> & Ho). cbn. by apply ok_draw_text_ui.
Qed.

Lemma ok_focus_ring s x y w h r : surface_ok s -> ok s (glyph_focus_ring th s x y w h r).
Proof. apply ok_rounded_outline. Qed.

Hint Resolve ok_rounded_rect ok_rounded_outline ok_circle_filled ok_focus_ring ok_draw_text_ui : drawing.

Lemma ok_button s x y w h label state primary focused : surface_ok s -> Forall is_byte label ->
  ok s (glyph_draw_button font_terminus g th s x y w h label state primary focused).
Proof.
  intros Hs Hl. unfold glyph_draw_button. destruct (button_colors th state primary) as [bg fg]. apply ok_bind; [by apply ok_rounded_rect|]. intros s1 F1.
  destruct (text_width_some g label ui_font) as [lw ->]. cbn [mbind option_bind]. drawing.
Qed.

Lemma ok_toggle s x y w h on state : surface_ok s -> ok s (glyph_draw_toggle th s x y w h on state).
Proof. intros Hs. unfold glyph_draw_toggle. drawing. Qed.

Lemma ok_field s x y w h text focused state : surface_ok s -> match text with Some l => Forall is_byte l | None => True end ->
  ok s (glyph_draw_field font_terminus g th s x y w h text focused state).
Proof.
  intros Hs Hb. unfold glyph_draw_field. drawing. destruct text as [[|c text]|]; [drawing| |drawing].
  destruct (elide_bytes (Some (c :: text)) (w - 2 * SP_2) 256 Hb) as (out & -> & Ho). cbn [mbind option_bind]. drawing.
Qed.

Lemma ok_list_row s x y w h label state : surface_ok s -> match label with Some l => Forall is_byte l | None => True end ->
  ok s (glyph_draw_list_row font_terminus g th s x y w h label state).
Proof.
  intros Hs Hb. unfold glyph_draw_list_row. apply ok_bind; [destruct state; drawing|]. intros s1 F1.
  destruct (elide_bytes label (w - 2 * SP_3) 256 Hb) as (out & -> & Ho). cbn [mbind option_bind]. drawing.
Qed.

End Widgets.

(** ** The ellipsis *)

Lemma blank_char s f size x y ch c : printable ch = false -> font_draw_char s f size x y ch c = Some (s, 0).
Proof. intros E. unfold font_draw_char. destruct (find_or_bake f size); [|done]. by rewrite E. Qed.

(** The outline fonts draw nothing for the ellipsis that eliding appends: only
    the bytes 32 to 126 have glyphs, and the ellipsis has none of them. *)
Theorem ellipsis_draws_nothing s f size x y text c : surface_ok s -> font_ok f ->
  font_draw_text s f size x y (text ++ ELL) c = font_draw_text s f size x y text c /\
  font_text_width f size (text ++ ELL) = font_text_width f size text.
Proof.
  intros Hs Hf. split.
  - revert s x Hs. induction text as [|ch text IH]; intros s x Hs; cbn [app font_draw_text].
    + unfold ELL. cbn [font_draw_text]. do 3 (rewrite blank_char by done; cbn [mbind option_bind fst snd]). done.
    + destruct (font_draw_char_ok s f size x y ch c Hs Hf) as (s' & adv & -> & F). cbn [mbind option_bind fst snd]. apply IH. by eapply frame_ok.
  - unfold font_text_width. destruct (find_or_bake f size) as [b|] eqn:Eb; [|done]. pose proof (find_or_bake_ok _ _ _ Hf Eb) as Hb.
    generalize 0. induction text as [|ch text IH]; intros w; [done|]. cbn [app width_loop]. destruct (printable ch) eqn:Ep; [|apply IH].
    destruct (char_data_some b ch Hb Ep) as (d & -> & _). apply IH.
Qed.
