(* ===== verification/GlyphBlur.v ===== *)
(** The box blur of src/user/lib/glyph/draw.c computes, with running sums and a scratch
    line, what the window around each pixel averages to. *)

From S2P Require Import Prelude CString GlyphDraw GlyphDrawSafety.
Local Open Scope Z_scope.

(** * Definitions *)

Definition pixel (s : surface_t) (k : Z) : Z := default 0 (get s k).

(** The sums of the [2 * radius + 1] pixels around [i]. *)
Definition window (f : Z -> Z) (radius i : Z) : sums := foldl (λ a k, add_px a (f k)) (Sums 0 0 0) (between (i - radius) (i + radius + 1)).

(** Beyond its ends a line repeats its end pixels. *)
Definition clip (n k : Z) : Z := Z.min (Z.max k 0) (n - 1).

(** The blurred pixel [i] of a line [f] of [n] pixels. *)
Definition blur1 (f : Z -> Z) (n radius i : Z) : Z := blurred (window (λ k, f (clip n k)) radius i) (f i) (recip (2 * radius + 1)).

(** The image blurred along x, then along y, in the rectangle at [x], [y]. *)
Definition blur_x (img : Z -> Z -> Z) (x w radius : Z) (px py : Z) : Z := blur1 (λ k, img (x + k) py) w radius (px - x).
Definition blur_y (img : Z -> Z -> Z) (y h radius : Z) (px py : Z) : Z := blur1 (λ k, img px (y + k)) h radius (py - y).
Definition image (s : surface_t) (px py : Z) : Z := pixel s (py * s_pitch s + px).

Record same_shape (s s' : surface_t) : Prop := SameShape {
  sh_w : s_w s' = s_w s; sh_h : s_h s' = s_h s; sh_pitch : s_pitch s' = s_pitch s; sh_length : length (s_buf s') = length (s_buf s)
}.
Definition within (s : surface_t) (k : Z) : Prop := 0 <= k < Z.of_nat (length (s_buf s)).

(** * Proofs *)

Lemma same_shape_trans s1 s2 s3 : same_shape s1 s2 -> same_shape s2 s3 -> same_shape s1 s3.
Proof. intros [? ? ? ?] [? ? ? ?]. split; congruence. Qed.

Lemma get_pixel s k : within s k -> get s k = Some (pixel s k).
Proof. intros H. unfold pixel, get. rewrite (proj2 (Z.leb_le _ _)) by (unfold within in H; lia). destruct (lookup_lt_is_Some_2 (s_buf s) (Z.to_nat k)) as [p ->]; [unfold within in H; lia|done]. Qed.

Lemma put_spec s k c : within s k -> exists s', put s k c = Some s' /\ same_shape s s' /\ pixel s' k = c /\ forall j, 0 <= j -> j <> k -> pixel s' j = pixel s j.
Proof.
  intros H. unfold within in H. unfold put. rewrite (proj2 (Z.leb_le _ _)), (proj2 (Z.ltb_lt _ _)) by lia. cbn [andb]. eexists. split; [done|].
  split; [split; cbn; [done|done|done|apply length_insert]|]. unfold pixel, get. cbn [s_buf]. split.
  - rewrite (proj2 (Z.leb_le _ _)) by lia. rewrite list_lookup_insert_eq by lia. done.
  - intros j Hj Hne. rewrite !(proj2 (Z.leb_le 0 j)) by lia. by rewrite list_lookup_insert_ne by lia.
Qed.

(** ** Loops *)

Lemma between_cons i n : i < n -> between i n = i :: between (i + 1) n.
Proof. intros H. unfold between. rewrite seqZ_cons by lia. f_equal. f_equal; lia. Qed.

Lemma between_snoc i n : i <= n -> between i (n + 1) = between i n ++ [n].
Proof. intros H. unfold between. replace (n + 1 - i) with (Z.of_nat (S (Z.to_nat (n - i)))) by lia. rewrite seqZ_S, Z2Nat.id by lia. by replace (i + (n - i)) with n by lia. Qed.

Lemma between_nil i n : n <= i -> between i n = [].
Proof. intros H. unfold between. apply seqZ_nil. lia. Qed.

Lemma each_foldl {S} l (f : Z -> S -> option S) (h : S -> Z -> S) a : (forall i a, i ∈ l -> f i a = Some (h a i)) -> each l f a = Some (foldl h a l).
Proof.
  revert a. induction l as [|i l IH]; intros a H; [done|]. cbn [each foldl]. rewrite H by left. apply IH. intros j b Hj. apply H. by right.
Qed.

(** An invariant over the counter of a loop. *)
Lemma each_range {S} (P : Z -> S -> Prop) from to (f : Z -> S -> option S) a : from <= to -> P from a ->
  (forall i a, from <= i < to -> P i a -> exists a', f i a = Some a' /\ P (i + 1) a') -> exists a', each (between from to) f a = Some a' /\ P to a'.
Proof.
  intros Hle HP Hf. remember (Z.to_nat (to - from)) as n eqn:En. revert from a Hle HP Hf En. induction n as [|n IH]; intros from a Hle HP Hf En.
  - assert (from = to) as -> by lia. rewrite between_nil by lia. by exists a.
  - rewrite between_cons by lia. cbn [each]. destruct (Hf from a) as (a1 & -> & H1); [lia|done|]. apply (IH (from + 1)); [lia|done| |lia]. intros i b Hi. apply Hf. lia.
Qed.

(** ** Running sums *)

Lemma foldl_add (f : Z -> Z) a p l : foldl (λ a k, add_px a (f k)) (add_px a p) l = add_px (foldl (λ a k, add_px a (f k)) a l) p.
Proof.
  revert a. induction l as [|k l IH]; intros a; [done|]. cbn [foldl]. rewrite <- IH. f_equal. destruct a. unfold add_px. cbn. f_equal; lia.
Qed.

(** The window moves on by one pixel. *)
Lemma window_slide f radius i : 0 <= radius -> sub_px (add_px (window f radius i) (f (i + radius + 1))) (f (i - radius)) = window f radius (i + 1).
Proof.
  intros H. unfold window. rewrite (between_cons (i - radius)) by lia. replace (i + 1 + radius + 1) with (i + radius + 1 + 1) by lia.
  rewrite (between_snoc (i + 1 - radius)) by lia. rewrite foldl_app. cbn [foldl]. rewrite foldl_add. replace (i - radius + 1) with (i + 1 - radius) by lia.
  destruct (foldl _ _ _). unfold sub_px, add_px. cbn. f_equal; lia.
Qed.

Lemma window_ext f f' radius i : (forall k, f k = f' k) -> window f radius i = window f' radius i.
Proof. intros H. unfold window. generalize (Sums 0 0 0). induction (between _ _) as [|k l IH]; intros a; [done|]. cbn [foldl]. by rewrite H. Qed.

Lemma blur1_ext f f' n radius i : 0 < n -> 0 <= i < n -> (forall k, 0 <= k < n -> f k = f' k) -> blur1 f n radius i = blur1 f' n radius i.
Proof.
  intros Hn Hi H. unfold blur1. rewrite (H i Hi). f_equal. apply window_ext. intros k. apply H. unfold clip. lia.
Qed.

Section Line.

Context (tmp : list Z) (n radius : Z).
Hypothesis tmp_length : Z.of_nat (length tmp) = n.
Hypothesis n_pos : 0 < n.
Hypothesis radius_pos : 0 < radius.

Definition line (k : Z) : Z := default 0 (tmp_at tmp k).

Lemma tmp_at_line k : 0 <= k < n -> tmp_at tmp k = Some (line k).
Proof. intros H. unfold line, tmp_at. rewrite (proj2 (Z.leb_le _ _)) by lia. destruct (lookup_lt_is_Some_2 tmp (Z.to_nat k)) as [p ->]; [lia|done]. Qed.

Lemma first_window_spec : first_window tmp n radius (line 0) (line (n - 1)) = Some (window (λ k, line (clip n k)) radius 0).
Proof.
  unfold first_window, window. apply (each_foldl _ _ (λ a k, add_px a (line (clip n k)))). intros i a Hi. apply between_elem in Hi. unfold clip.
  destruct (Z.ltb_spec i 0); [do 3 f_equal; lia|]. destruct (Z.leb_spec n i); [do 3 f_equal; lia|]. rewrite tmp_at_line by lia. cbn. do 3 f_equal. lia.
Qed.

(** The pixels that leave and enter the window. *)
Lemma old_pixel i : 0 <= i < n -> (if i - radius <? 0 then Some (line 0) else tmp_at tmp (i - radius)) = Some (line (clip n (i - radius))).
Proof. intros Hi. unfold clip. destruct (Z.ltb_spec (i - radius) 0); [do 2 f_equal; lia|]. rewrite tmp_at_line by lia. do 2 f_equal. lia. Qed.

Lemma new_pixel i : 0 <= i < n -> (if n <=? i + radius + 1 then Some (line (n - 1)) else tmp_at tmp (i + radius + 1)) = Some (line (clip n (i + radius + 1))).
Proof. intros Hi. unfold clip. destruct (Z.leb_spec n (i + radius + 1)); [do 2 f_equal; lia|]. rewrite tmp_at_line by lia. do 2 f_equal. lia. Qed.

Lemma blur_line_spec s at_ : (forall i, 0 <= i < n -> within s (at_ i)) -> (forall i j, 0 <= i < n -> 0 <= j < n -> at_ i = at_ j -> i = j) -> exists s',
  blur_line s tmp n radius (recip (2 * radius + 1)) at_ = Some s' /\ same_shape s s' /\
  (forall i, 0 <= i < n -> pixel s' (at_ i) = blur1 line n radius i) /\ (forall k, 0 <= k -> (forall i, 0 <= i < n -> k <> at_ i) -> pixel s' k = pixel s k).
Proof.
  intros Hat Hinj. unfold blur_line. rewrite (tmp_at_line 0) by lia. cbn [mbind option_bind]. rewrite (tmp_at_line (n - 1)) by lia. cbn [mbind option_bind]. rewrite first_window_spec. cbn [mbind option_bind].
  set (P := λ i (st : surface_t * sums), same_shape s st.1 /\ st.2 = window (λ k, line (clip n k)) radius i /\
    (forall j, 0 <= j < i -> pixel st.1 (at_ j) = blur1 line n radius j) /\ (forall k, 0 <= k -> (forall j, 0 <= j < i -> k <> at_ j) -> pixel st.1 k = pixel s k)).
  match goal with |- context [each _ ?f (s, ?a)] => destruct (each_range P 0 n f (s, a)) as ([s' a'] & -> & HS & _ & H1 & H2) end.
  - lia.
  - split; [done|]. split; [done|]. split; [intros j Hj; lia|done].
  - intros i [s1 a] Hi (HS & Ha & H1 & H2). cbn [fst snd] in *. rewrite (tmp_at_line i) by lia. cbn [mbind option_bind].
    destruct (put_spec s1 (at_ i) (blurred a (line i) (recip (2 * radius + 1)))) as (s2 & -> & HS2 & Hp & Hq).
    { unfold within. rewrite (sh_length _ _ HS). apply Hat. lia. }
    cbn [mbind option_bind]. rewrite old_pixel by lia. cbn [mbind option_bind]. rewrite new_pixel by lia.
    cbn [mbind option_bind]. eexists. split; [done|]. subst P. cbn [fst snd]. split; [by eapply same_shape_trans|].
    split; [rewrite Ha; apply (window_slide (λ k, line (clip n k))); lia|]. split.
    + intros j Hj. destruct (Z.eq_dec j i) as [->|Hne]; [rewrite Hp, Ha; done|]. rewrite Hq; [apply H1; lia|apply Hat; lia|]. intros E. apply Hne, Hinj; [lia|lia|done].
    + intros k Hk Hj. rewrite Hq; [|done|apply Hj; lia]. apply H2; [done|]. intros j Hj'. apply Hj. lia.
  - cbn. exists s'. done.
Qed.

End Line.

Lemma load_line_spec s n at_ : (forall i, 0 <= i < n -> within s (at_ i)) -> 0 <= n ->
  exists tmp, load_line s n at_ = Some tmp /\ Z.of_nat (length tmp) = n /\ forall i, 0 <= i < n -> line tmp i = pixel s (at_ i).
Proof.
  intros Hat Hn. unfold load_line. destruct (each_range (λ i l, Z.of_nat (length l) = i /\ forall j, 0 <= j < i -> line l j = pixel s (at_ j)) 0 n
    (λ i l, get s (at_ i) ≫= λ p, Some (l ++ [p])) []) as (tmp & E & H); [done| | |by exists tmp].
  - split; [done|]. intros; lia.
  - intros i l Hi [Hl H]. rewrite get_pixel by auto. cbn. eexists. split; [done|]. rewrite length_app. split; [cbn; lia|]. intros j Hj. unfold line, tmp_at in *. rewrite (proj2 (Z.leb_le _ _)) by lia.
    destruct (Z.eq_dec j i) as [->|Hne].
    + rewrite lookup_app_r by lia. by replace (Z.to_nat i - length l)%nat with 0%nat by lia.
    + rewrite lookup_app_l by lia. rewrite <- H by lia. by rewrite (proj2 (Z.leb_le _ _)) by lia.
Qed.

(** ** Passes *)

(** One line after another; [pos p t i] is pixel [i] of line [t] with pitch [p]. *)
Lemma pass_spec s lo hi n radius (pos : Z -> Z -> Z -> Z) : lo <= hi -> 0 < n -> 0 < radius ->
  (forall t i, lo <= t < hi -> 0 <= i < n -> within s (pos (s_pitch s) t i)) ->
  (forall t i t' i', lo <= t < hi -> 0 <= i < n -> lo <= t' < hi -> 0 <= i' < n -> pos (s_pitch s) t i = pos (s_pitch s) t' i' -> t = t' /\ i = i') ->
  exists s', each (between lo hi) (λ t s, load_line s n (pos (s_pitch s) t) ≫= λ tmp, blur_line s tmp n radius (recip (2 * radius + 1)) (pos (s_pitch s) t)) s = Some s' /\
    same_shape s s' /\ (forall t i, lo <= t < hi -> 0 <= i < n -> pixel s' (pos (s_pitch s) t i) = blur1 (λ k, pixel s (pos (s_pitch s) t k)) n radius i) /\
    (forall k, 0 <= k -> (forall t i, lo <= t < hi -> 0 <= i < n -> k <> pos (s_pitch s) t i) -> pixel s' k = pixel s k).
Proof.
  intros Hle Hn Hr Hin Hinj.
  set (P := λ t s', same_shape s s' /\ (forall u i, lo <= u < t -> 0 <= i < n -> pixel s' (pos (s_pitch s) u i) = blur1 (λ k, pixel s (pos (s_pitch s) u k)) n radius i) /\
    (forall k, 0 <= k -> (forall u i, lo <= u < t -> 0 <= i < n -> k <> pos (s_pitch s) u i) -> pixel s' k = pixel s k)).
  match goal with |- context [each _ ?f s] => destruct (each_range P lo hi f s) as (s' & E & H) end; [done| | |by exists s'].
  - split; [done|]. split; [intros; lia|done].
  - intros t s1 Ht (HS & H1 & H2). rewrite (sh_pitch _ _ HS). set (p := s_pitch s) in *.
    assert (Hin1 : forall i, 0 <= i < n -> within s1 (pos p t i)) by (intros i Hi; unfold within; rewrite (sh_length _ _ HS); by apply Hin).
    destruct (load_line_spec s1 n (pos p t) Hin1) as (tmp & -> & Hl & Hpx); [lia|]. cbn [mbind option_bind].
    destruct (blur_line_spec tmp n radius Hl Hn Hr s1 (pos p t) Hin1) as (s2 & -> & HS2 & H3 & H4); [intros i j Hi Hj Eij; exact (proj2 (Hinj _ _ _ _ Ht Hi Ht Hj Eij))|].
    exists s2. split; [done|]. split; [by eapply same_shape_trans|]. split.
    + intros u i Hu Hi. destruct (Z.eq_dec u t) as [->|Hne].
      * rewrite H3 by done. apply blur1_ext; [done|done|]. intros k Hk. rewrite Hpx by done. apply H2; [apply (Hin1 k Hk)|].
        intros u j Hu' Hj Ek. destruct (Hinj t k u j Ht Hk ltac:(lia) Hj Ek). lia.
      * rewrite H4; [apply H1; [lia|done]|apply Hin; [lia|done]|]. intros j Hj Ek. destruct (Hinj u i t j ltac:(lia) Hi Ht Hj Ek). lia.
    + intros k Hk Hout. rewrite H4; [apply H2; [done|]|done|]; [intros u i Hu; apply Hout; lia|intros i Hi; apply Hout; [lia|done]].
Qed.

Lemma grid_index_inj p t t' a a' : 0 <= a < p -> 0 <= a' < p -> t * p + a = t' * p + a' -> t = t' /\ a = a'.
Proof. intros Ha Ha' E. apply (Z.div_mod_unique p); lia. Qed.

(** The blur where the scratch line is large enough or can be allocated. *)
Lemma box_blur_spec cap memory s x y w h radius x' y' w' h' :
  surface_ok s -> 0 < radius -> clamp s x y w h = (x', y', w', h') -> 0 < w' -> 0 < h' -> (cap <? Z.max w' h') && negb memory = false ->
  exists s', draw_box_blur cap memory s x y w h radius = Some (s', Z.max cap (Z.max w' h')) /\ same_shape s s' /\
    (forall px py, x' <= px < x' + w' -> y' <= py < y' + h' -> image s' px py = blur_y (blur_x (image s) x' w' radius) y' h' radius px py) /\
    (forall k, 0 <= k -> (forall px py, x' <= px < x' + w' -> y' <= py < y' + h' -> k <> py * s_pitch s + px) -> pixel s' k = pixel s k).
Proof.
  intros Hs Hr Ec Hw Hh Hmem. pose proof (clamp_spec _ _ _ _ _ _ _ _ _ Hs Ec Hw Hh) as Hc. unfold draw_box_blur. rewrite Ec.
  rewrite !(proj2 (Z.leb_gt _ _)) by lia. cbn [orb]. cbv zeta. rewrite Hmem.
  destruct (pass_spec s y' (y' + h') w' radius (λ p t i, t * p + x' + i)) as (s1 & -> & HS1 & H1 & H1'); [lia|done|done| | |].
  { intros t i Ht Hi. pose proof (index_range s (x' + i) t Hs ltac:(lia) ltac:(lia)). unfold within. lia. }
  { intros t i t' i' Ht Hi Ht' Hi' E. pose proof (so_w _ Hs). destruct (grid_index_inj (s_pitch s) t t' (x' + i) (x' + i')); lia. }
  cbn [mbind option_bind]. pose proof (sh_pitch _ _ HS1) as Ep.
  destruct (pass_spec s1 x' (x' + w') h' radius (λ p t i, (y' + i) * p + t)) as (s2 & -> & HS2 & H2 & H2'); [lia|done|done| | |].
  { intros t i Ht Hi. pose proof (index_range s t (y' + i) Hs ltac:(lia) ltac:(lia)). unfold within. rewrite (sh_length _ _ HS1), Ep. lia. }
  { rewrite Ep. intros t i t' i' Ht Hi Ht' Hi' E. pose proof (so_w _ Hs). destruct (grid_index_inj (s_pitch s) (y' + i) (y' + i') t t'); lia. }
  cbn [mbind option_bind]. rewrite Ep in *. exists s2. split; [done|]. split; [by eapply same_shape_trans|]. split.
  - intros px py Hx Hy. unfold image at 1. rewrite (sh_pitch _ _ HS2), Ep. replace (py * s_pitch s + px) with ((y' + (py - y')) * s_pitch s + px) by lia.
    rewrite H2 by lia. unfold blur_y. apply blur1_ext; [lia|lia|]. intros k Hk. replace ((y' + k) * s_pitch s + px) with ((y' + k) * s_pitch s + x' + (px - x')) by lia.
    rewrite H1 by lia. unfold blur_x. apply blur1_ext; [lia|lia|]. intros j Hj. unfold image. by rewrite Z.add_assoc.
  - intros k Hk Hout. rewrite H2'; [apply H1'; [done|]|done|].
    + intros t i Ht Hi. rewrite <- Z.add_assoc. apply Hout; lia.
    + intros t i Ht Hi. apply Hout; lia.
Qed.

(** The blur stays inside the surface, whatever memory there is. *)
Lemma box_blur_ok cap memory s x y w h radius : surface_ok s -> exists s' cap', draw_box_blur cap memory s x y w h radius = Some (s', cap') /\ frame s s'.
Proof.
  intros Hs. destruct (clamp s x y w h) as [[[x' y'] w'] h'] eqn:Ec. destruct ((w' <=? 0) || (h' <=? 0) || (radius <=? 0)) eqn:E.
  { unfold draw_box_blur. rewrite Ec, E. eexists _, _. split; [done|apply frame_refl]. }
  destruct ((cap <? Z.max w' h') && negb memory) eqn:Em.
  { unfold draw_box_blur. rewrite Ec, E. cbv zeta. rewrite Em. eexists _, _. split; [done|apply frame_refl]. }
  boolify. pose proof (clamp_spec _ _ _ _ _ _ _ _ _ Hs Ec ltac:(lia) ltac:(lia)).
  destruct (box_blur_spec cap memory s x y w h radius x' y' w' h') as (s' & -> & [S1 S2 S3 S4] & _ & Hout); [done|lia|done|lia|lia|done|].
  eexists _, _. split; [done|]. split; [done..|]. intros k Hk. destruct (Nat.lt_ge_cases k (length (s_buf s))) as [Hlt|Hge]; [|rewrite !lookup_ge_None_2 by lia; done].
  assert (Hp : pixel s' (Z.of_nat k) = pixel s (Z.of_nat k)).
  { apply Hout; [lia|]. intros px py Hx Hy E'. apply Hk. exists px, py. lia. }
  unfold pixel, get in Hp. rewrite !(proj2 (Z.leb_le 0 (Z.of_nat k))), !Nat2Z.id in Hp by lia.
  destruct (lookup_lt_is_Some_2 (s_buf s) k Hlt) as [p Ep], (lookup_lt_is_Some_2 (s_buf s') k) as [p' Ep']; [lia|]. rewrite Ep, Ep' in *. cbn in Hp. by rewrite Hp.
Qed.

(** Where the scratch line can be allocated, the box blur succeeds and leaves in
    every pixel of the rectangle the average over the window around it, along x and
    then along y, of the pixels that were there, the pixels beyond the rectangle's
    edges taken from the edge; no other pixel changes. *)
Theorem box_blur_is_box_average cap s x y w h radius x' y' w' h' :
  surface_ok s -> 0 < radius -> clamp s x y w h = (x', y', w', h') -> 0 < w' -> 0 < h' ->
  exists s', draw_box_blur cap true s x y w h radius = Some (s', Z.max cap (Z.max w' h')) /\ same_shape s s' /\
    (forall px py, x' <= px < x' + w' -> y' <= py < y' + h' -> image s' px py = blur_y (blur_x (image s) x' w' radius) y' h' radius px py) /\
    (forall k, 0 <= k -> (forall px py, x' <= px < x' + w' -> y' <= py < y' + h' -> k <> py * s_pitch s + px) -> pixel s' k = pixel s k).
Proof. intros Hs Hr Ec Hw Hh. apply box_blur_spec; [done|done|done|done|done|apply andb_false_r]. Qed.
