(* ===== verification/GlyphColour.v ===== *)
(** Colours: the packed blend against the exact one, and the averages of the blur. *)

From S2P Require Import Prelude CString GlyphDraw GlyphDrawSafety GlyphBlur.
Local Open Scope Z_scope.

(** Division by constants. *)
Ltac divlia := Z.div_mod_to_equations; lia.

(** * Channels *)

Lemma byte_channels c : is_byte (red c) /\ is_byte (green c) /\ is_byte (blue c).
Proof. unfold red, green, blue, is_byte. change 255 with (Z.ones 8). rewrite !Z.land_ones by lia. change (2 ^ 8) with 256. repeat split; apply Z.mod_pos_bound; lia. Qed.

Lemma rgb_value r g b : is_byte g -> is_byte b -> rgb r g b = r * 65536 + g * 256 + b.
Proof.
  unfold is_byte, rgb. intros Hg Hb. rewrite <- Z.lor_assoc. rewrite (lor_shifted g 8 b) by lia. rewrite lor_shifted by lia. lia.
Qed.

Lemma channels_value c : red c = c / 65536 mod 256 /\ green c = c / 256 mod 256 /\ blue c = c mod 256.
Proof. unfold red, green, blue. change 255 with (Z.ones 8). rewrite !Z.land_ones, !Z.shiftr_div_pow2 by lia. done. Qed.

Lemma rgb_channels r g b : is_byte r -> is_byte g -> is_byte b -> red (rgb r g b) = r /\ green (rgb r g b) = g /\ blue (rgb r g b) = b.
Proof.
  intros Hr Hg Hb. rewrite (rgb_value r g b Hg Hb). destruct (channels_value (r * 65536 + g * 256 + b)) as (-> & -> & ->). unfold is_byte in *. divlia.
Qed.

(** The masks of the packed blend. *)
Lemma land_lane n k : 0 <= k -> Z.land n (Z.shiftl 255 k) = Z.shiftl (Z.land (Z.shiftr n k) 255) k.
Proof.
  intros Hk. rewrite Z.shiftl_land. apply Z.bits_inj'. intros i Hi. rewrite !Z.land_spec, !(Z.shiftl_spec _ _ _ Hi). destruct (Z.lt_ge_cases i k).
  - rewrite (Z.testbit_neg_r 255) by lia. by rewrite !andb_false_r.
  - rewrite Z.shiftr_spec by lia. by replace (i - k + k) with i by lia.
Qed.

Lemma land_RB n : Z.land n RB = Z.lor (Z.shiftl (red n) 16) (blue n).
Proof. change RB with (Z.lor (Z.shiftl 255 16) 255). by rewrite Z.land_lor_distr_r, land_lane by lia. Qed.

Lemma land_GM n : Z.land n GM = Z.shiftl (green n) 8.
Proof. change GM with (Z.shiftl 255 8). by rewrite land_lane by lia. Qed.

Lemma RB_value n : Z.land n RB = red n * 65536 + blue n.
Proof. rewrite land_RB. destruct (byte_channels n) as (_ & _ & H). unfold is_byte in H. by rewrite lor_shifted by lia. Qed.

Lemma GM_value n : Z.land n GM = green n * 256.
Proof. rewrite land_GM. by rewrite Z.shiftl_mul_pow2 by lia. Qed.

Lemma lanes_rgb m n : Z.lor (Z.land m RB) (Z.land n GM) = rgb (red m) (green n) (blue m).
Proof. rewrite land_RB, land_GM. unfold rgb. rewrite <- !Z.lor_assoc. f_equal. apply Z.lor_comm. Qed.

(** * The packed blend *)

(** One channel, rounded to the nearest 256th. *)
Definition blend256 (fg bg alpha inv : Z) : Z := (fg * alpha + bg * inv + 128) / 256.

Lemma blend_packed_channels color px a : is_byte a ->
  blend_packed (Z.land color RB) (Z.land color GM) px a (255 - a) =
  rgb (blend256 (red color) (red px) a (255 - a)) (blend256 (green color) (green px) a (255 - a)) (blend256 (blue color) (blue px) a (255 - a)).
Proof.
  intros Ha. unfold blend_packed, blend256. cbv zeta. rewrite lanes_rgb, !RB_value, !GM_value.
  destruct (byte_channels color) as (Hr & Hg & Hb), (byte_channels px) as (Hr' & Hg' & Hb'). unfold is_byte in *.
  set (X := red color * a + red px * (255 - a) + 128). set (Y := blue color * a + blue px * (255 - a) + 128). set (G := green color * a + green px * (255 - a) + 128).
  assert (0 <= X < 65536) by (subst X; nia). assert (0 <= Y < 65536) by (subst Y; nia). assert (0 <= G < 65536) by (subst G; nia).
  replace ((red color * 65536 + blue color) * a + (red px * 65536 + blue px) * (255 - a) + 0x800080) with (X * 65536 + Y) by (subst X Y; ring).
  replace (green color * 256 * a + green px * 256 * (255 - a) + 0x8000) with (G * 256) by (subst G; ring). clearbody X Y G. unfold u32.
  rewrite !Z.mod_small by lia. rewrite !Z.shiftr_div_pow2 by lia. change (2 ^ 8) with 256.
  destruct (channels_value ((X * 65536 + Y) / 256)) as (-> & _ & ->). destruct (channels_value (G * 256 / 256)) as (_ & -> & _). f_equal; divlia.
Qed.

Lemma blend256_near fg bg a : is_byte fg -> is_byte bg -> is_byte a -> is_byte (blend256 fg bg a (255 - a)) /\ Z.abs (blend256 fg bg a (255 - a) - blend fg bg a (255 - a)) <= 1.
Proof.
  unfold is_byte, blend256, blend. intros Hf Hb Ha. assert (0 <= fg * a + bg * (255 - a) <= 255 * 255) by nia.
  generalize dependent (fg * a + bg * (255 - a)). intros n Hn. divlia.
Qed.

Lemma blend_byte fg bg a : is_byte fg -> is_byte bg -> is_byte a -> is_byte (blend fg bg a (255 - a)).
Proof. unfold is_byte, blend. intros Hf Hb Ha. assert (0 <= fg * a + bg * (255 - a) <= 255 * 255) by nia. divlia. Qed.

(** The packed blend, which handles red and blue in one multiplication and shifts
    instead of dividing, differs from the exact blend by at most one in each
    channel, and its channels do not run into each other. *)
Theorem packed_blend_near_exact color px a : is_byte a ->
  let packed := blend_packed (Z.land color RB) (Z.land color GM) px a (255 - a) in
  let exact := blend_rgb color px a (255 - a) in
  0 <= packed < 2 ^ 24 /\ Z.abs (red packed - red exact) <= 1 /\ Z.abs (green packed - green exact) <= 1 /\ Z.abs (blue packed - blue exact) <= 1.
Proof.
  intros Ha packed exact. subst packed exact. rewrite blend_packed_channels by done. unfold blend_rgb.
  destruct (byte_channels color) as (Hr & Hg & Hb), (byte_channels px) as (Hr' & Hg' & Hb').
  pose proof (blend256_near _ _ _ Hr Hr' Ha) as [R1 R2]. pose proof (blend256_near _ _ _ Hg Hg' Ha) as [G1 G2]. pose proof (blend256_near _ _ _ Hb Hb' Ha) as [B1 B2].
  destruct (rgb_channels _ _ _ R1 G1 B1) as (-> & -> & ->).
  destruct (rgb_channels _ _ _ (blend_byte _ _ _ Hr Hr' Ha) (blend_byte _ _ _ Hg Hg' Ha) (blend_byte _ _ _ Hb Hb' Ha)) as (-> & -> & ->).
  split; [|done]. rewrite rgb_value by done. unfold is_byte in *. lia.
Qed.

(** * Averages *)

Lemma recip_bounds span : 0 < span -> 65536 <= span * recip span <= 65536 + span - 1.
Proof. intros H. unfold recip. pose proof (Z.div_mod (65536 + span - 1) span ltac:(lia)). pose proof (Z.mod_pos_bound (65536 + span - 1) span H). lia. Qed.

(** Up to a span of 257 an average is exact or one too high, and never above 255. *)
Lemma average_near sum span : 0 < span <= 257 -> 0 <= sum <= 255 * span -> sum / span <= average sum (recip span) <= Z.min 255 (sum / span + 1).
Proof.
  intros Hs Hm. pose proof (recip_bounds span ltac:(lia)) as Hr. unfold average. set (q := sum / span).
  assert (Hq : span * q <= sum < span * q + span) by (subst q; pose proof (Z.div_mod sum span ltac:(lia)); pose proof (Z.mod_pos_bound sum span ltac:(lia)); lia).
  assert (H1 : 65536 * q <= sum * recip span) by nia. assert (H2 : span * (sum * recip span) <= sum * 65536 + sum * (span - 1)) by nia.
  assert (H3 : sum * recip span < 65536 * q + 2 * 65536) by nia. assert (H4 : sum * recip span < 65536 * 256) by nia.
  unfold u32. rewrite Z.mod_small by lia. rewrite Z.shiftr_div_pow2 by lia. change (2 ^ 16) with 65536. clearbody q. divlia.
Qed.

Lemma average_exact c span : 0 < span <= 257 -> is_byte c -> average (c * span) (recip span) = c.
Proof.
  intros Hs Hc. unfold is_byte in Hc. pose proof (recip_bounds span ltac:(lia)) as Hr. unfold average.
  replace (c * span * recip span) with (c * (span * recip span)) by ring. set (m := span * recip span) in *. clearbody m.
  assert (65536 * c <= c * m < 65536 * c + 65536) by nia. unfold u32. rewrite Z.mod_small by lia. rewrite Z.shiftr_div_pow2 by lia. change (2 ^ 16) with 65536. divlia.
Qed.

(** The sums of a window over bytes. *)
Lemma window_bounds f radius i : 0 <= radius ->
  0 <= su_r (window f radius i) <= 255 * (2 * radius + 1) /\ 0 <= su_g (window f radius i) <= 255 * (2 * radius + 1) /\ 0 <= su_b (window f radius i) <= 255 * (2 * radius + 1).
Proof.
  intros Hr. unfold window. set (l := between _ _). assert (Hl : Z.of_nat (length l) = 2 * radius + 1) by (subst l; unfold between; rewrite length_seqZ; lia). rewrite <- Hl. clearbody l. clear Hl.
  induction l as [|k l IH] using rev_ind; [cbn; lia|]. rewrite foldl_app, length_app. cbn [foldl length]. destruct (byte_channels (f k)) as (R & G & B). unfold is_byte in *.
  destruct (foldl _ _ l) as [r g b]. cbn [add_px su_r su_g su_b] in *. lia.
Qed.

Lemma window_constant v radius i : 0 <= radius -> window (λ _, v) radius i = Sums (red v * (2 * radius + 1)) (green v * (2 * radius + 1)) (blue v * (2 * radius + 1)).
Proof.
  intros Hr. unfold window. set (l := between _ _). assert (Hl : Z.of_nat (length l) = 2 * radius + 1) by (subst l; unfold between; rewrite length_seqZ; lia). rewrite <- Hl. clearbody l. clear Hl.
  induction l as [|k l IH] using rev_ind; [cbn; by rewrite !Z.mul_0_r|]. rewrite foldl_app, length_app. cbn [foldl length]. rewrite IH. unfold add_px. cbn [su_r su_g su_b]. f_equal; lia.
Qed.

(** The high byte and the channels of a blurred pixel. *)
Lemma blurred_rgb a p rc : is_byte (average (su_r a) rc) -> is_byte (average (su_g a) rc) -> is_byte (average (su_b a) rc) ->
  blurred a p rc = Z.shiftl (red (Z.shiftr p 8)) 24 + rgb (average (su_r a) rc) (average (su_g a) rc) (average (su_b a) rc).
Proof.
  intros Hr Hg Hb. unfold blurred. set (r := average (su_r a) rc) in *. set (g := average (su_g a) rc) in *. set (b := average (su_b a) rc) in *. unfold is_byte in *.
  unfold u32. rewrite !Z.mod_small by (rewrite Z.shiftl_mul_pow2 by lia; lia).
  change 0xFF000000 with (Z.shiftl 255 24). rewrite land_lane by lia. rewrite <- !Z.lor_assoc. rewrite Z.lor_assoc with (a := Z.shiftl r 16). fold (rgb r g b).
  rewrite lor_shifted; [|lia|rewrite rgb_value by (unfold is_byte; lia); lia]. rewrite Z.shiftl_mul_pow2 by lia. unfold red. by rewrite Z.shiftr_shiftr by lia.
Qed.

Lemma blurred_channels a p rc : is_byte (average (su_r a) rc) -> is_byte (average (su_g a) rc) -> is_byte (average (su_b a) rc) ->
  red (blurred a p rc) = average (su_r a) rc /\ green (blurred a p rc) = average (su_g a) rc /\ blue (blurred a p rc) = average (su_b a) rc /\
  Z.shiftr (blurred a p rc) 24 = red (Z.shiftr p 8).
Proof.
  intros Hr Hg Hb. rewrite blurred_rgb by done. rewrite rgb_value by done. set (x := red (Z.shiftr p 8)). rewrite Z.shiftr_div_pow2, Z.shiftl_mul_pow2 by lia. change (2 ^ 24) with 16777216.
  destruct (channels_value (x * 16777216 + (average (su_r a) rc * 65536 + average (su_g a) rc * 256 + average (su_b a) rc))) as (-> & -> & ->). unfold is_byte in *. clearbody x. repeat split; divlia.
Qed.

(** With a radius of up to 128 every channel of a blurred pixel is the average of
    that channel over the window, rounded down, or one more, and never carries into
    the next; the high byte is kept, and a line of one colour stays as it is. *)
Theorem blur_averages f n radius i : 0 < radius <= 128 ->
  let w := window (λ k, f (clip n k)) radius i in
  let span := 2 * radius + 1 in
  let c := blur1 f n radius i in
  su_r w / span <= red c <= su_r w / span + 1 /\ su_g w / span <= green c <= su_g w / span + 1 /\ su_b w / span <= blue c <= su_b w / span + 1 /\
  Z.shiftr c 24 = red (Z.shiftr (f i) 8) /\
  ((forall k, f k = f i) -> 0 <= f i < 2 ^ 32 -> c = f i).
Proof.
  intros Hr w span c. assert (Hw := window_bounds (λ k, f (clip n k)) radius i ltac:(lia)). fold w span in Hw. destruct Hw as (W1 & W2 & W3).
  pose proof (average_near (su_r w) span ltac:(lia) W1) as A1. pose proof (average_near (su_g w) span ltac:(lia) W2) as A2. pose proof (average_near (su_b w) span ltac:(lia) W3) as A3.
  assert (0 <= su_r w / span /\ 0 <= su_g w / span /\ 0 <= su_b w / span) as (P1 & P2 & P3) by (repeat split; apply Z.div_pos; lia).
  assert (is_byte (average (su_r w) (recip span))) as B1 by (unfold is_byte; lia). assert (is_byte (average (su_g w) (recip span))) as B2 by (unfold is_byte; lia).
  assert (is_byte (average (su_b w) (recip span))) as B3 by (unfold is_byte; lia).
  unfold c, blur1. fold w span. destruct (blurred_channels w (f i) (recip span) B1 B2 B3) as (-> & -> & -> & E). rewrite E.
  repeat split; try lia. intros Huni Hv. rewrite blurred_rgb by done.
  assert (Ew : w = window (λ _, f i) radius i) by (unfold w; apply window_ext; intros k; apply Huni). rewrite Ew, window_constant by lia. cbn [su_r su_g su_b]. fold span.
  destruct (byte_channels (f i)) as (C1 & C2 & C3). rewrite !average_exact by (done || lia). rewrite rgb_value by done. destruct (channels_value (f i)) as (-> & -> & ->).
  destruct (channels_value (Z.shiftr (f i) 8)) as (-> & _ & _). rewrite Z.shiftl_mul_pow2, Z.shiftr_div_pow2 by lia. change (2 ^ 24) with 16777216. change (2 ^ 8) with 256. change (2 ^ 32) with 4294967296 in Hv. divlia.
Qed.

(** With a radius of 154 the rounded-up reciprocal makes the average of white 256,
    which runs into the next channel: a white line turns into 0x01010100. *)
Theorem large_blur_darkens_white n i : blur1 (λ _, 0xFFFFFF) n 154 i = 0x01010100.
Proof. unfold blur1. rewrite window_constant by lia. reflexivity. Qed.
