(* ===== verification/GlyphDrawCases.v ===== *)
(** Sequences of drawing commands, and concrete surfaces, fonts and texts. *)

From S2P Require Import Prelude CString GlyphDraw GlyphDrawSafety GlyphText GlyphBlur GlyphColour.
Local Open Scope Z_scope.

(** * Definitions *)

(** The routines a client calls, with their arguments. *)
Inductive command :=
| Px (x y c : Z)
| FillRect (x y w h c : Z)
| Rect (x y w h c : Z)
| GradientV (x y w h c1 c2 : Z)
| Char (x y ch fg bg : Z)
| Text (x y : Z) (str : bytes) (fg bg : Z)
| TextT (x y : Z) (str : bytes) (fg : Z)
| TextUi (x y : Z) (str : bytes) (fg : Z)
| TextCenter (x y w : Z) (str : bytes) (fg bg : Z)
| TextElided (x y max_w : Z) (str : option bytes) (fg : Z)
| FontText (f : font_t) (size x y : Z) (str : bytes) (c : Z)
| Line (x0 y0 x1 y1 c : Z)
| Circle (cx cy r c : Z)
| CircleFilled (cx cy r c : Z)
| TrafficLight (cx cy r c sym : Z)
| RoundedRect (x y w h r c : Z)
| BlendRect (x y w h c alpha : Z)
| BlendRoundedRect (x y w h r c alpha : Z)
| RoundedOutline (x y w h r thickness c : Z)
| Blit (dx dy : Z) (src : list Z) (sw sh : Z)
| BlitKeyed (dx dy : Z) (src : list Z) (sw sh key : Z)
| BlitScaled (dx dy dw dh : Z) (src : list Z) (sw sh : Z)
| BlitAlphaScaled (dx dy dw dh : Z) (src : list Z) (sw sh : Z)
| BlitScaledAlpha (dx dy dw dh : Z) (src : list Z) (sw sh src_pitch alpha key : Z)
| BoxBlur (memory : bool) (x y w h radius : Z)
| FocusRing (x y w h r : Z)
| Button (x y w h : Z) (label : bytes) (state : glyph_widget_state_t) (primary focused : bool)
| Toggle (x y w h : Z) (on : bool) (state : glyph_widget_state_t)
| Field (x y w h : Z) (text : option bytes) (focused : bool) (state : glyph_widget_state_t)
| ListRow (x y w h : Z) (label : option bytes) (state : glyph_widget_state_t).

(** What the caller owes: sources that hold their pixels, fonts from the loader and
    strings of bytes. *)
Definition string_ok (str : option bytes) : Prop := match str with Some l => Forall is_byte l | None => True end.
Definition command_ok (c : command) : Prop :=
  match c with
  | Char _ _ ch _ _ => is_byte ch
  | Text _ _ str _ _ | TextT _ _ str _ | TextUi _ _ str _ | TextCenter _ _ _ str _ _ => Forall is_byte str
  | TextElided _ _ _ str _ => string_ok str
  | FontText f _ _ _ _ _ => font_ok f
  | Blit _ _ src sw sh | BlitKeyed _ _ src sw sh _ | BlitScaled _ _ _ _ src sw sh | BlitAlphaScaled _ _ _ _ src sw sh => src_ok src sw sh
  | BlitScaledAlpha _ _ _ _ src sw sh src_pitch _ _ => sw <= src_pitch /\ src_ok src src_pitch sh
  | Button _ _ _ _ label _ _ _ => Forall is_byte label
  | Field _ _ _ _ text _ _ => string_ok text
  | ListRow _ _ _ _ label _ => string_ok label
  | _ => True
  end.

Section Run.

Context (font_terminus : bytes) (g_font_ui : option font_t) (th : glyph_theme_t).

(** A routine that leaves the scratch line of the blur alone. *)
Definition keep (tmp_cap : Z) (o : option surface_t) : option (surface_t * Z) := s ← o; Some (s, tmp_cap).

Definition draw (c : command) (s : surface_t) (tmp_cap : Z) : option (surface_t * Z) :=
  match c with
  | Px x y c => keep tmp_cap (draw_px s x y c)
  | FillRect x y w h c => keep tmp_cap (draw_fill_rect s x y w h c)
  | Rect x y w h c => keep tmp_cap (draw_rect s x y w h c)
  | GradientV x y w h c1 c2 => keep tmp_cap (draw_gradient_v s x y w h c1 c2)
  | Char x y ch fg bg => keep tmp_cap (draw_char font_terminus s x y ch fg bg)
  | Text x y str fg bg => keep tmp_cap (draw_text font_terminus s x y str fg bg)
  | TextT x y str fg => keep tmp_cap (draw_text_t font_terminus s x y str fg)
  | TextUi x y str fg => keep tmp_cap (draw_text_ui font_terminus g_font_ui s x y str fg)
  | TextCenter x y w str fg bg => keep tmp_cap (draw_text_center font_terminus s x y w str fg bg)
  | TextElided x y max_w str fg => keep tmp_cap (draw_text_ui_elided font_terminus g_font_ui s x y max_w str fg)
  | FontText f size x y str c => keep tmp_cap (font_draw_text s f size x y str c)
  | Line x0 y0 x1 y1 c => keep tmp_cap (draw_line s x0 y0 x1 y1 c)
  | Circle cx cy r c => keep tmp_cap (draw_circle s cx cy r c)
  | CircleFilled cx cy r c => keep tmp_cap (draw_circle_filled s cx cy r c)
  | TrafficLight cx cy r c sym => keep tmp_cap (draw_traffic_light s cx cy r c sym)
  | RoundedRect x y w h r c => keep tmp_cap (draw_rounded_rect s x y w h r c)
  | BlendRect x y w h c alpha => keep tmp_cap (draw_blend_rect s x y w h c alpha)
  | BlendRoundedRect x y w h r c alpha => keep tmp_cap (draw_blend_rounded_rect s x y w h r c alpha)
  | RoundedOutline x y w h r t c => keep tmp_cap (draw_rounded_outline s x y w h r t c)
  | Blit dx dy src sw sh => keep tmp_cap (draw_blit s dx dy src sw sh)
  | BlitKeyed dx dy src sw sh key => keep tmp_cap (draw_blit_keyed s dx dy src sw sh key)
  | BlitScaled dx dy dw dh src sw sh => keep tmp_cap (draw_blit_scaled s dx dy dw dh src sw sh)
  | BlitAlphaScaled dx dy dw dh src sw sh => keep tmp_cap (draw_blit_alpha_scaled s dx dy dw dh src sw sh)
  | BlitScaledAlpha dx dy dw dh src sw sh pitch alpha key => keep tmp_cap (draw_blit_scaled_alpha s dx dy dw dh src sw sh pitch alpha key)
  | BoxBlur memory x y w h radius => draw_box_blur tmp_cap memory s x y w h radius
  | FocusRing x y w h r => keep tmp_cap (glyph_focus_ring th s x y w h r)
  | Button x y w h label state primary focused => keep tmp_cap (glyph_draw_button font_terminus g_font_ui th s x y w h label state primary focused)
  | Toggle x y w h on state => keep tmp_cap (glyph_draw_toggle th s x y w h on state)
  | Field x y w h text focused state => keep tmp_cap (glyph_draw_field font_terminus g_font_ui th s x y w h text focused state)
  | ListRow x y w h label state => keep tmp_cap (glyph_draw_list_row font_terminus g_font_ui th s x y w h label state)
  end.

Fixpoint draw_all (cmds : list command) (s : surface_t) (tmp_cap : Z) : option (surface_t * Z) :=
  match cmds with
  | [] => Some (s, tmp_cap)
  | c :: cmds => r ← draw c s tmp_cap; draw_all cmds r.1 r.2
  end.

End Run.

(** * Theorems *)

Section Safety.

Context (font_terminus : bytes) (g : option font_t) (th : glyph_theme_t).
Hypothesis terminus : terminus_ok font_terminus.
Hypothesis ui_font : ui_font_ok g.

#[local] Hint Resolve ok_draw_rect ok_gradient ok_draw_char ok_draw_text ok_draw_text_t ok_draw_text_ui ok_draw_text_center ok_text_ui_elided ok_font_draw_text
  ok_draw_line ok_draw_circle ok_circle_filled ok_traffic_light ok_rounded_rect ok_blend_rounded_rect ok_rounded_outline ok_blit ok_blit_keyed ok_blit_scaled
  ok_blit_alpha_scaled ok_focus_ring ok_button ok_toggle ok_field ok_list_row : drawing.

Lemma keep_ok s cap o : ok s o -> exists s' cap', keep cap o = Some (s', cap') /\ frame s s'.
Proof. intros (s' & -> & F). by exists s', cap. Qed.

Lemma draw_ok c s cap : surface_ok s -> command_ok c -> exists s' cap', draw font_terminus g th c s cap = Some (s', cap') /\ frame s s'.
Proof.
  intros Hs Hc. destruct c; cbn [draw command_ok] in *; try by (apply keep_ok; eauto with drawing).
  - destruct Hc. by apply keep_ok, ok_blit_scaled_alpha.
  - by apply box_blur_ok.
Qed.


End Safety.

(** ** Witnesses *)

(** A font whose glyphs are filled boxes of 6 by 8, advancing by 7. *)
Definition box_glyph : bakedchar := Baked 0 0 6 8 0 (-8) 7.
Definition box_sizes : baked_size_t := BakedSize 14 10 14 (replicate (Z.to_nat (ATLAS_W * ATLAS_H)) 255) (replicate (Z.to_nat NUM_CHARS) box_glyph).
Definition box_font : font_t := Font (λ _, Some box_sizes) [].
Definition no_dots : bytes := replicate (Z.to_nat (256 * FONT_H * 2)) 0.
Definition small : surface_t := Surface (replicate 40 0xFF) 7 5 8.
Definition grey : glyph_theme_t := Theme 1 2 3 4 5 6 7 8 9 10 11 12.

Lemma box_font_ok : font_ok box_font.
Proof.
  assert (H : baked_ok box_sizes).
  { unfold box_sizes, baked_ok. cbn [bs_atlas bs_cdata]. rewrite !length_replicate. split; [done|]. split; [done|]. apply Forall_replicate.
    unfold glyph_ok, box_glyph, ATLAS_W, ATLAS_H. cbn. lia. }
  split; [constructor|]. intros size b [= <-]. exact H.
Qed.

Lemma no_dots_ok : terminus_ok no_dots.
Proof. unfold terminus_ok, no_dots. rewrite length_replicate. done. Qed.

Lemma small_surface_ok : surface_ok small.
Proof. split; cbn; lia. Qed.


Lemma packed_blend_near_exact_witness : Z.abs (green (blend_packed (Z.land 0x8040C0 RB) (Z.land 0x8040C0 GM) 0xFFFFFF 100 155) - green (blend_rgb 0x8040C0 0xFFFFFF 100 155)) <= 1.
Proof. apply (packed_blend_near_exact 0x8040C0 0xFFFFFF 100). unfold is_byte. lia. Defined.

Lemma box_blur_is_box_average_witness : exists s', draw_box_blur 0 true small (-1) 1 5 9 2 = Some (s', 4) /\ same_shape small s' /\
  (forall px py, 0 <= px < 4 -> 1 <= py < 5 -> image s' px py = blur_y (blur_x (image small) 0 4 2) 1 4 2 px py) /\
  (forall k, 0 <= k -> (forall px py, 0 <= px < 4 -> 1 <= py < 5 -> k <> py * 8 + px) -> pixel s' k = pixel small k).
Proof. apply (box_blur_is_box_average 0 small (-1) 1 5 9 2 0 1 4 4); [exact small_surface_ok|lia|reflexivity|lia|lia]. Defined.

Lemma blur_averages_witness : blur1 (λ _, 0x80FFFFFF) 9 128 4 = 0x80FFFFFF.
Proof. apply (blur_averages (λ _, 0x80FFFFFF) 9 128 4); [lia|done|lia]. Defined.

(** "naïve text", which has 110 pixels. *)
Definition naive_text : bytes := [110; 97; 195; 175; 118; 101; 32; 116; 101; 120; 116].

Lemma naive_utf8 : utf8 naive_text.
Proof.
  unfold naive_text. do 2 (apply (utf8_char _ []); [done|done|constructor|]). apply (utf8_char 195 [175]); [done|done|by repeat constructor|].
  do 7 (apply (utf8_char _ []); [done|done|constructor|]). constructor.
Qed.

Lemma elide_fits_witness : exists out, glyph_text_elide None (Some naive_text) 65 8 = Some out /\ Z.of_nat (length out) < 8 /\ utf8 out /\
  (extent None naive_text <= 65 -> extent None out <= 65 /\ out `prefix_of` naive_text /\ (Z.of_nat (length naive_text) < 8 -> out = naive_text)) /\
  (65 < extent None naive_text ->
     (out = [] \/ extent None out <= 65 /\ exists p, p `prefix_of` naive_text /\ out = p ++ ELL) /\
     (forall q, utf8 q -> q `prefix_of` naive_text -> Z.of_nat (length q) + 4 <= 8 -> extent None (q ++ ELL) <= 65 -> (length (q ++ ELL) <= length out)%nat)).
Proof. apply (elide_fits None I I naive_text 65 8); [exact naive_utf8|lia]. Defined.

(** Only the two characters before the "ï" fit. *)
Lemma elide_naive : glyph_text_elide None (Some naive_text) 65 8 = Some ([110; 97] ++ ELL).
Proof. reflexivity. Qed.

Lemma ellipsis_draws_nothing_witness :
  font_draw_text small box_font 14 0 0 ([79; 75] ++ ELL) 1 = font_draw_text small box_font 14 0 0 [79; 75] 1 /\
  font_text_width box_font 14 ([79; 75] ++ ELL) = font_text_width box_font 14 [79; 75].
Proof. apply (ellipsis_draws_nothing small box_font 14 0 0 [79; 75] 1); [exact small_surface_ok|exact box_font_ok]. Defined.
