(* ===== verification/LoricaUpdate.v ===== *)
(** The kernel update (src/user/bin/lorica-update/main.c).

    [fat16_t], [fat_open] to [find_slots] read the EFI system partition; [file_io] in
    its two directions, [raw_io], [choose_disk], [read_staged] and [main] follow the
    functions of those names.  Code that only reads the disk is a [reader]: a tree of
    reads, so that what it finds is a function of the disk ([eval]) whatever transfers
    fail while it runs ([read_all]).  The size of a kernel slot is an argument, 3 MiB
    in [lorica_update]. *)

From S2P Require Import Prelude CString BlockDev.
Local Open Scope Z_scope.

(** * Definitions *)

Definition ESP_OFFSET : Z := 1024 * 1024.
Definition ESP_SECTORS : Z := 16384.
Definition KERNEL_SLOT : Z := 3 * 1024 * 1024.

Definition le16 (p : bytes) (off : nat) : Z := le_value (slice off 2 p).
Definition le32 (p : bytes) (off : nat) : Z := le_value (slice off 4 p).

(** ** Readers *)

(** [RFail] is a failed return, [RFault] an access outside a buffer. *)
Inductive reader (A : Type) :=
  | RDone (a : A)
  | RFail
  | RFault
  | RRead (off : Z) (len : nat) (k : bytes -> reader A).
Arguments RDone {A}. Arguments RFail {A}. Arguments RFault {A}. Arguments RRead {A}.

#[global] Instance reader_ret : MRet reader := @RDone.
#[global] Instance reader_bind : MBind reader := λ A B f,
  fix bind m :=
    match m with
    | RDone a => f a
    | RFail => RFail
    | RFault => RFault
    | RRead off len k => RRead off len (λ b, bind (k b))
    end.

Definition disk_read (off : Z) (len : nat) : reader bytes := RRead off len RDone.

(** ** raw_io *)

(** One block of [bs] bytes, as li_blkdev_io transfers it. *)
Definition block_read (bs lba : Z) : io (option bytes) := io_read (lba * (bs / SECTOR_SIZE)) (bs / SECTOR_SIZE).
Definition block_write (bs lba : Z) (block : bytes) : io bool := io_write (lba * (bs / SECTOR_SIZE)) block.

Fixpoint raw_read (fuel : nat) (bs off : Z) (len : nat) (got : bytes) : io (option bytes) :=
  match len, fuel with
  | O, _ => mret (Some got)
  | _, O => out_of_bounds
  | _, S fuel =>
      let lba := off / bs in
      let at_ := off mod bs in
      let n := Nat.min (Z.to_nat (bs - at_)) len in
      b ← block_read bs lba;
      match b with
      | None => mret None
      | Some block => raw_read fuel bs (off + Z.of_nat n) (len - n) (got ++ slice (Z.to_nat at_) n block)
      end
  end.

Fixpoint raw_write (fuel : nat) (bs off : Z) (p : bytes) : io bool :=
  match p, fuel with
  | [], _ => mret true
  | _, O => out_of_bounds
  | _, S fuel =>
      let lba := off / bs in
      let at_ := off mod bs in
      let n := Nat.min (Z.to_nat (bs - at_)) (length p) in
      b ← (if (at_ =? 0) && (Z.of_nat n =? bs) then mret (Some (repeat 0 (Z.to_nat bs))) else block_read bs lba);
      match b with
      | None => mret false
      | Some block =>
          ok ← block_write bs lba (splice (Z.to_nat at_) (take n p) block);
          if (ok : bool) then raw_write fuel bs (off + Z.of_nat n) (drop n p) else mret false
      end
  end.

(** A reader on the disk; [None] when it or a transfer failed. *)
Fixpoint read_all {A} (bs : Z) (m : reader A) : io (option A) :=
  match m with
  | RDone a => mret (Some a)
  | RFail => mret None
  | RFault => out_of_bounds
  | RRead off len k =>
      b ← raw_read len bs off len [];
      match b with Some b => read_all bs (k b) | None => mret None end
  end.

(** What a reader finds when every transfer succeeds. *)
Fixpoint eval {A} (m : reader A) (d : device) : option A :=
  match m with
  | RDone a => Some a
  | RFail | RFault => None
  | RRead off len k => eval (k (dev_read d off len)) d
  end.

(** ** FAT16 *)

Record fat16_t := Fat16 {
  bytes_per_sector : Z; sectors_per_cluster : Z; fat_sector : Z; root_sector : Z; root_sectors : Z; data_sector : Z; cluster_count : Z
}.
Record fat_file_t := FatFile { first_cluster : Z; f_size : Z }.

(** The fields of a boot sector that is accepted. *)
Definition boot_sector (b : bytes) : option fat16_t :=
  if negb (byte_at b 510 =? 0x55) || negb (byte_at b 511 =? 0xaa) then None else
  let bps := le16 b 11 in
  let spc := byte_at b 13 in
  let reserved := le16 b 14 in
  let fats := byte_at b 16 in
  let root_entries := le16 b 17 in
  let total := if le16 b 19 =? 0 then le32 b 32 else le16 b 19 in
  let fat_sectors := le16 b 22 in
  if negb (bps =? 512) || (spc =? 0) || (fats =? 0) || (fat_sectors =? 0) || negb (total =? ESP_SECTORS) then None else
  let root_sectors := (root_entries * 32 + 511) / 512 in
  let root_sector := reserved + fats * fat_sectors in
  let data_sector := root_sector + root_sectors in
  if total <=? data_sector then None else
  let cluster_count := (total - data_sector) / spc in
  if (4085 <=? cluster_count) && (cluster_count <? 65525) then Some (Fat16 bps spc reserved root_sector root_sectors data_sector cluster_count) else None.

Definition fat_open : reader fat16_t :=
  b ← disk_read ESP_OFFSET 512;
  match boot_sector b with Some fs => RDone fs | None => RFail end.

Definition sector_off (fs : fat16_t) (sector : Z) : Z := ESP_OFFSET + sector * bytes_per_sector fs.

Definition fat_next (fs : fat16_t) (cluster : Z) : reader Z :=
  e ← disk_read (sector_off fs (fat_sector fs) + cluster * 2) 2;
  RDone (le16 e 0).

Definition cluster_off (fs : fat16_t) (cluster : Z) : Z := sector_off fs (data_sector fs + (cluster - 2) * sectors_per_cluster fs).

Definition valid_cluster (fs : fat16_t) (cluster : Z) : bool := (2 <=? cluster) && (cluster <? cluster_count fs + 2).

(** The sixteen entries of a directory block. *)
Inductive scan := SFound (f : fat_file_t) | SEnd | SMore.
Fixpoint scan_entries (n j : nat) (block name : bytes) : scan :=
  match n with
  | O => SMore
  | S n =>
      if byte_at block j =? 0 then SEnd else
      if (byte_at block j =? 0xe5) || (byte_at block (j + 11) =? 0x0f) then scan_entries n (j + 32) block name else
      if beq (slice j 11 block) name then SFound (FatFile (le16 block (j + 26)) (le32 block (j + 28)))
      else scan_entries n (j + 32) block name
  end.

Fixpoint scan_blocks (n : nat) (off : Z) (name : bytes) : reader scan :=
  match n with
  | O => RDone SMore
  | S n =>
      block ← disk_read off 512;
      match scan_entries 16 0 block name with
      | SMore => scan_blocks n (off + 512) name
      | r => RDone r
      end
  end.

Definition found (r : scan) : option fat_file_t := match r with SFound f => Some f | _ => None end.

(** The clusters of a directory; [seen] counts those that were read. *)
Fixpoint dir_loop (fuel : nat) (fs : fat16_t) (cluster seen : Z) (name : bytes) : reader (option fat_file_t) :=
  match fuel with
  | O => RFault
  | S fuel =>
      r ← scan_blocks (Z.to_nat (sectors_per_cluster fs)) (cluster_off fs cluster) name;
      match r with
      | SMore =>
          let seen := seen + 1 in
          if cluster_count fs <? seen then RFail else
          next ← fat_next fs cluster;
          if 0xfff8 <=? next then RDone None else
          if negb (valid_cluster fs next) then RFail else
          dir_loop fuel fs next seen name
      | r => RDone (found r)
      end
  end.

(** [None] in [RDone] is the result 0: no such entry. *)
Definition dir_find (fs : fat16_t) (dir_cluster : Z) (name : bytes) : reader (option fat_file_t) :=
  if dir_cluster =? 0 then
    r ← scan_blocks (Z.to_nat (root_sectors fs)) (sector_off fs (root_sector fs)) name;
    RDone (found r)
  else if negb (valid_cluster fs dir_cluster) then RFail
  else dir_loop (S (Z.to_nat (cluster_count fs))) fs dir_cluster 0 name.

Definition cluster_bytes (fs : fat16_t) : Z := sectors_per_cluster fs * 512.

(** file_io with write = 0: the file from [cluster] on, of which [size] bytes are to
    be read. *)
Fixpoint file_read (fuel : nat) (fs : fat16_t) (cluster seen size : Z) : reader bytes :=
  match fuel with
  | O => RFault
  | S fuel =>
      if size <=? 0 then RDone [] else
      if negb (valid_cluster fs cluster) || (cluster_count fs <? seen + 1) then RFail else
      let n := Z.min size (cluster_bytes fs) in
      b ← disk_read (cluster_off fs cluster) (Z.to_nat n);
      if size - n =? 0 then RDone b else
      next ← fat_next fs cluster;
      if 0xfff8 <=? next then RFail else
      rest ← file_read fuel fs next (seen + 1) (size - n);
      RDone (b ++ rest)
  end.

Definition read_file (fs : fat16_t) (f : fat_file_t) : reader bytes :=
  file_read (S (Z.to_nat (cluster_count fs))) fs (first_cluster f) 0 (f_size f).

(** file_io with write = 1: [buf] is what is left to be written. *)
Fixpoint file_write (fuel : nat) (bs : Z) (fs : fat16_t) (cluster seen size : Z) (buf : bytes) : io bool :=
  match fuel with
  | O => out_of_bounds
  | S fuel =>
      if size <=? 0 then mret true else
      if negb (valid_cluster fs cluster) || (cluster_count fs <? seen + 1) then mret false else
      let n := Z.min size (cluster_bytes fs) in
      if Z.of_nat (length buf) <? n then out_of_bounds else
      ok ← raw_write (Z.to_nat n) bs (cluster_off fs cluster) (take (Z.to_nat n) buf);
      if negb ok then mret false else
      if size - n =? 0 then mret true else
      next ← read_all bs (fat_next fs cluster);
      match next with
      | None => mret false
      | Some next => if 0xfff8 <=? next then mret false else file_write fuel bs fs next (seen + 1) (size - n) (drop (Z.to_nat n) buf)
      end
  end.

Definition write_file (bs : Z) (fs : fat16_t) (f : fat_file_t) (buf : bytes) : io bool :=
  file_write (S (Z.to_nat (cluster_count fs))) bs fs (first_cluster f) 0 (f_size f) buf.

(** The clusters of a file are entered into [used]. *)
Fixpoint mark_loop (need : nat) (fs : fat16_t) (cluster : Z) (used : list bool) : reader (list bool) :=
  match need with
  | O => RDone used
  | S need =>
      if negb (valid_cluster fs cluster) then RFail else
      match used !! Z.to_nat cluster with
      | None => RFault
      | Some true => RFail
      | Some false =>
          let used := <[Z.to_nat cluster := true]> used in
          match need with
          | O => RDone used
          | _ =>
              next ← fat_next fs cluster;
              if 0xfff8 <=? next then RFail else mark_loop need fs next used
          end
      end
  end.

Definition mark_chain (fs : fat16_t) (f : fat_file_t) (used : list bool) : reader (list bool) :=
  let need := (f_size f + cluster_bytes fs - 1) / cluster_bytes fs in
  mark_loop (Z.to_nat need) fs (first_cluster f) used.

Definition boot_name : bytes := B "BOOT       ".
Definition kernel_name : bytes := B "AEGIS   ELF".
Definition old_name : bytes := B "AEGIS   OLD".

Definition must_find (fs : fat16_t) (dir : Z) (name : bytes) : reader fat_file_t :=
  f ← dir_find fs dir name;
  match f with Some f => RDone f | None => RFail end.

(** [memory]: whether the map of the clusters can be allocated. *)
Definition find_slots (slot : Z) (memory : bool) (fs : fat16_t) : reader (fat_file_t * fat_file_t) :=
  boot ← must_find fs 0 boot_name;
  current ← must_find fs (first_cluster boot) kernel_name;
  old ← must_find fs (first_cluster boot) old_name;
  if negb (f_size current =? slot) || negb (f_size old =? slot) then RFail else
  if negb memory then RFail else
  used ← mark_chain fs current (repeat false (Z.to_nat (cluster_count fs + 2)));
  _ ← mark_chain fs old used;
  RDone (current, old).

(** ** The program *)

Record blkdev := Blkdev { dev_name : bytes; dev_block_size : Z }.

(** strrchr(name, 'p'): what follows the last p. *)
Definition after_last_p (name : bytes) : option bytes :=
  if has_char 112 name then Some (rev (take_while (not_c 112) (rev name))) else None.
Definition is_partition (name : bytes) : bool :=
  match after_last_p name with Some (c :: _) => is_decimal c | _ => false end.

Inductive choice := Chosen (dev : blkdev) | NoSingleDisk | NotPermitted.

Definition eligible (has_aegis : bytes -> bool) (requested : option bytes) (dev : blkdev) : bool :=
  negb (starts_with (B "ramdisk") (dev_name dev)) && negb (is_partition (dev_name dev)) &&
  match requested with Some r => beq r (dev_name dev) | None => true end && has_aegis (dev_name dev) &&
  ((dev_block_size dev =? 512) || (dev_block_size dev =? 4096)).

(** [devs] is what install_list_blkdevs reports, [None] when it is refused. *)
Definition choose_disk (devs : option (list blkdev)) (has_aegis : bytes -> bool) (requested : option bytes) : choice :=
  match devs with
  | None => NotPermitted
  | Some devs => match List.filter (eligible has_aegis requested) devs with [dev] => Chosen dev | _ => NoSingleDisk end
  end.

(** What the program meets outside the disk: the device lists before and after the
    elevation, the marker of a pending update before and after the upgrade, the exit
    of the commands it runs, the staged file, whether the reads of it deliver all
    of it, and whether each of the three allocations succeeds. *)
Record world := World {
  w_extra_args : bool; w_requested : option bytes;
  w_devs : option (list blkdev); w_elevate : bool; w_devs_elevated : option (list blkdev); w_has_aegis : bytes -> bool;
  w_pending : bool; w_sync : bool; w_upgrade : bool; w_pending_after : bool; w_finish : bool;
  w_staged : option bytes; w_read : bool; w_memory : nat -> bool; w_machine : Z
}.

Definition ELF_MAGIC : bytes := [127; 69; 76; 70].

Definition read_staged (slot : Z) (w : world) : option bytes :=
  match w_staged w with
  | None => None
  | Some file =>
      let size := Z.of_nat (length file) in
      if (size <? 64) || (slot <? size) || negb (w_memory w 0%nat) || negb (w_read w) then None else
      let buf := file ++ repeat 0 (Z.to_nat (slot - size)) in
      if negb (beq (slice 0 4 buf) ELF_MAGIC) || negb (byte_at buf 4 =? 2) || negb (le16 buf 18 =? w_machine w) || negb (byte_at buf 5 =? 1) then None
      else Some buf
  end.

(** The exit status, and whether "herald recover complete" was run. *)
Record result := Result { r_exit : Z; r_finished : bool }.

(** Writing a slot and reading it back. *)
Definition store (bs : Z) (fs : fat16_t) (f : fat_file_t) (buf : bytes) : io bool :=
  ok ← write_file bs fs f buf;
  if negb ok then mret false else
  verify ← read_all bs (read_file fs f);
  mret (match verify with Some v => beq buf v | None => false end).

Definition open_slots (slot : Z) (memory : bool) : reader (fat16_t * fat_file_t * fat_file_t * bytes) :=
  fs ← fat_open;
  slots ← find_slots slot memory fs;
  current ← read_file fs slots.1;
  RDone (fs, slots.1, slots.2, current).

Definition swap (slot : Z) (w : world) (bs : Z) (pending : bool) (staged : bytes) : io result :=
  if negb (w_memory w 1%nat) then mret (Result 1 false) else
  o ← read_all bs (open_slots slot (w_memory w 2%nat));
  match o with
  | None => mret (Result 1 false)
  | Some (fs, current_slot, old_slot, current) =>
      if beq current staged then
        mret (if pending then Result (if w_finish w then 0 else 1) true else Result 0 false)
      else
      ok ← store bs fs old_slot current;
      if negb ok then mret (Result 1 false) else
      ok ← store bs fs current_slot staged;
      if negb ok then mret (Result 1 false) else
      if pending then mret (Result (if w_finish w then 0 else 1) true) else mret (Result 0 false)
  end.

(** Upgrading the packages and swapping the kernel on the disk that was chosen. *)
Definition run_update (slot : Z) (w : world) (bs : Z) : io result :=
  if negb (w_pending w) && (negb (w_sync w) || negb (w_upgrade w)) then mret (Result 1 false) else
  match read_staged slot w with
  | None => mret (Result 1 false)
  | Some staged => swap slot w bs (w_pending_after w) staged
  end.

Definition update (slot : Z) (w : world) : io result :=
  if w_extra_args w then mret (Result 2 false) else
  let first := choose_disk (w_devs w) (w_has_aegis w) (w_requested w) in
  match first with
  | NotPermitted =>
      if negb (w_elevate w) then mret (Result 1 false) else
      match choose_disk (w_devs_elevated w) (w_has_aegis w) (w_requested w) with
      | Chosen dev => run_update slot w (dev_block_size dev)
      | _ => mret (Result 1 false)
      end
  | _ =>
      match choose_disk (w_devs w) (w_has_aegis w) (w_requested w) with
      | Chosen dev => run_update slot w (dev_block_size dev)
      | _ => mret (Result 1 false)
      end
  end.

Definition lorica_update (w : world) : io result := update KERNEL_SLOT w.
