(* ===== verification/LoricaUpdateSafety.v ===== *)
(** The kernel update is safe against failing transfers and power cuts: one of the two
    slots always holds the kernel the system was booted from. *)

From S2P Require Import Prelude CString BlockDev LoricaUpdate.
Local Open Scope Z_scope.

(** * Definitions *)

(** What holds after [m] under the schedule [v]: [Q] of its result, [C] where the
    machine stops. *)
Definition under {A} (v : nat -> verdict) (m : io A) (Q : A -> device -> Prop) (C : device -> Prop) (d : device) : Prop :=
  forall n, match m v n d with Val a _ d' => Q a d' | Stopped d' => C d' | OutOfBounds => False end.

(** Some transfer does not succeed. *)
Definition faulty (v : nat -> verdict) : Prop := exists n, v n <> DOk.

(** Two disks that differ inside [P] at most. *)
Definition same_outside (P : Z -> Prop) (d d' : device) : Prop := forall a, ~ P a -> d' a = d a.
Definition range (off : Z) (len : nat) (a : Z) : Prop := off <= a < off + Z.of_nat len.

(** Block sizes that choose_disk accepts. *)
Definition block_size_ok (bs : Z) : Prop := bs = 512 \/ bs = 4096.

(** [m] meets no fault on [d]. *)
Fixpoint faultless {A} (m : reader A) (d : device) : Prop :=
  match m with
  | RDone _ | RFail => True
  | RFault => False
  | RRead off len k => faultless (k (dev_read d off len)) d
  end.

(** ** Files *)

Definition fat_entry (fs : fat16_t) (d : device) (c : Z) : Z := le16 (dev_read d (sector_off fs (fat_sector fs) + c * 2) 2) 0.

(** [cl] are clusters of a file from [c] on. *)
Fixpoint chain (fs : fat16_t) (d : device) (c : Z) (cl : list Z) : Prop :=
  match cl with
  | [] => True
  | c' :: cl => c' = c /\ valid_cluster fs c = true /\ (cl <> [] -> fat_entry fs d c < 0xfff8 /\ chain fs d (fat_entry fs d c) cl)
  end.

Definition in_cluster (fs : fat16_t) (c : Z) (a : Z) : Prop := cluster_off fs c <= a < cluster_off fs c + cluster_bytes fs.
Definition in_clusters (fs : fat16_t) (cl : list Z) (a : Z) : Prop := exists c, c ∈ cl /\ in_cluster fs c a.

(** The [size] bytes that clusters hold. *)
Fixpoint content (fs : fat16_t) (d : device) (cl : list Z) (size : Z) : bytes :=
  match cl with
  | [] => []
  | c :: cl => let n := Z.min size (cluster_bytes fs) in dev_read d (cluster_off fs c) (Z.to_nat n) ++ content fs d cl (size - n)
  end.

Definition clusters_of (fs : fat16_t) (size : Z) : Z := (size + cluster_bytes fs - 1) / cluster_bytes fs.

(** The file allocation table lies before the data. *)
Definition covers (fs : fat16_t) : Prop := fat_sector fs * 512 + 2 * (cluster_count fs + 2) <= data_sector fs * 512.
Record fat_ok (fs : fat16_t) : Prop := FatOk { fo_bps : bytes_per_sector fs = 512; fo_spc : 0 < sectors_per_cluster fs; fo_count : 0 <= cluster_count fs; fo_covers : covers fs }.

(** * The logic *)

Section Logic.

Context (v : nat -> verdict).

Lemma under_ret {A} (a : A) Q C d : Q a d -> under v (mret a) Q C d.
Proof. intros H n. exact H. Qed.

Lemma under_bind {A B} (m : io A) (f : A -> io B) Q C d : under v m (λ a, under v (f a) Q C) C d -> under v (m ≫= f) Q C d.
Proof. intros H n. specialize (H n). unfold mbind, io_bind. destruct (m v n d); [apply H|done|done]. Qed.

Lemma under_conseq {A} (m : io A) (Q Q' : A -> device -> Prop) (C C' : device -> Prop) d :
  under v m Q C d -> (forall a d', Q a d' -> Q' a d') -> (forall d', C d' -> C' d') -> under v m Q' C' d.
Proof. intros H HQ HC n. specialize (H n). destruct (m v n d); auto. Qed.

Lemma under_read sector count (Q : option bytes -> device -> Prop) (C : device -> Prop) d :
  Q (Some (dev_read d (sector * SECTOR_SIZE) (Z.to_nat (count * SECTOR_SIZE)))) d -> (faulty v -> Q None d /\ C d) -> under v (io_read sector count) Q C d.
Proof.
  intros H1 H2 n. unfold io_read. destruct (v n) eqn:E; [done|apply H2; exists n; congruence|apply H2; exists n; congruence].
Qed.

Lemma under_write sector buf (Q : bool -> device -> Prop) (C : device -> Prop) d :
  Q true (dev_write d (sector * SECTOR_SIZE) buf) ->
  (faulty v -> forall k, Q false (dev_write d (sector * SECTOR_SIZE) (take (k * 512) buf)) /\ C (dev_write d (sector * SECTOR_SIZE) (take (k * 512) buf))) ->
  under v (io_write sector buf) Q C d.
Proof.
  intros H1 H2 n. unfold io_write. destruct (v n) eqn:E; [done|apply H2; exists n; congruence|apply H2; exists n; congruence].
Qed.

End Logic.

(** * Bytes of the disk *)

Lemma dev_read_plus d off m n : dev_read d off (m + n) = dev_read d off m ++ dev_read d (off + Z.of_nat m) n.
Proof.
  apply list_eq. intros i. destruct (decide (i < m)%nat); [rewrite lookup_app_l by (rewrite dev_read_length; lia); rewrite !dev_read_lookup by lia; done|].
  rewrite lookup_app_r by (rewrite dev_read_length; lia). rewrite dev_read_length. destruct (decide (i < m + n)%nat).
  - rewrite !dev_read_lookup by lia. do 2 f_equal. lia.
  - rewrite !lookup_ge_None_2; [done|rewrite dev_read_length; lia|rewrite dev_read_length; lia].
Qed.

Lemma slice_dev_read d off len at_ n : (at_ + n <= len)%nat -> slice at_ n (dev_read d off len) = dev_read d (off + Z.of_nat at_) n.
Proof.
  intros H. replace len with (at_ + (n + (len - at_ - n)))%nat by lia. rewrite !dev_read_plus. unfold slice.
  rewrite drop_app_length', take_app_length' by (by rewrite dev_read_length). done.
Qed.

Lemma same_outside_refl P d : same_outside P d d.
Proof. by intros a _. Qed.

Lemma same_outside_trans P d1 d2 d3 : same_outside P d1 d2 -> same_outside P d2 d3 -> same_outside P d1 d3.
Proof. intros H1 H2 a Ha. rewrite H2, H1 by done. done. Qed.

Lemma same_outside_mono (P P' : Z -> Prop) d d' : (forall a, P a -> P' a) -> same_outside P d d' -> same_outside P' d d'.
Proof. intros HP H a Ha. apply H. auto. Qed.

Lemma same_outside_read P d d' off len : same_outside P d d' -> (forall a, range off len a -> ~ P a) -> dev_read d' off len = dev_read d off len.
Proof. intros H HP. apply dev_read_ext. intros a Ha. apply H, HP. exact Ha. Qed.

(** * Transfers *)

Section Transfers.

Context (v : nat -> verdict) (bs : Z).
Hypothesis bs_ok : block_size_ok bs.

Lemma bs_sectors : bs / SECTOR_SIZE * SECTOR_SIZE = bs /\ 0 < bs.
Proof. destruct bs_ok as [->| ->]; done. Qed.

Lemma lba_offset lba : lba * (bs / SECTOR_SIZE) * SECTOR_SIZE = lba * bs.
Proof. rewrite <- Z.mul_assoc. by rewrite (proj1 bs_sectors). Qed.

Lemma raw_read_spec fuel off len got d : (len <= fuel)%nat ->
  under v (raw_read fuel bs off len got) (λ r d', d' = d /\ (r = Some (got ++ dev_read d off len) \/ r = None /\ faulty v)) (λ d', d' = d /\ faulty v) d.
Proof.
  destruct bs_sectors as [Hbs Hpos]. revert off len got. induction fuel as [|fuel IH]; intros off len got Hf.
  { assert (len = 0%nat) as -> by lia. apply under_ret. split; [done|]. left. by rewrite app_nil_r. }
  destruct len as [|len]; [apply under_ret; split; [done|]; left; by rewrite app_nil_r|]. cbn [raw_read]. set (n := Nat.min _ _).
  pose proof (Z.mod_pos_bound off bs Hpos) as Hm. pose proof (Z.div_mod off bs ltac:(lia)) as Hd. apply under_bind, under_read.
  - rewrite lba_offset, Hbs. rewrite slice_dev_read by (subst n; lia). replace (off / bs * bs + Z.of_nat (Z.to_nat (off mod bs))) with off by lia.
    eapply under_conseq; [apply IH; subst n; lia| |by auto]. intros r d' [-> Hr]. split; [done|]. destruct Hr as [->|Hr]; [left|by right].
    rewrite <- app_assoc. do 2 f_equal. rewrite <- dev_read_plus. f_equal. subst n. lia.
  - intros Hv. split; [|done]. apply under_ret. auto.
Qed.

(** A block with [p] in it, written as far as [k] sectors. *)
Lemma torn_block d off (p : bytes) block k : (0 < length p)%nat -> off mod bs + Z.of_nat (length p) <= bs ->
  (length block = Z.to_nat bs) -> (block = dev_read d (off / bs * bs) (Z.to_nat bs) \/ off mod bs = 0 /\ Z.of_nat (length p) = bs) ->
  same_outside (range off (length p)) d (dev_write d (off / bs * bs) (take k (splice (Z.to_nat (off mod bs)) p block))).
Proof.
  intros Hp Hfit Hl Hb a Ha. destruct bs_sectors as [_ Hpos]. pose proof (Z.mod_pos_bound off bs Hpos) as Hm. pose proof (Z.div_mod off bs ltac:(lia)) as Hd.
  set (base := off / bs * bs) in *. assert (Eoff : off = base + off mod bs) by lia. set (new := splice _ _ _).
  destruct (decide (base <= a < base + Z.of_nat (length (take k new)))) as [Hin|Hout]; [|apply dev_write_outside; lia].
  rewrite length_take in Hin. unfold dev_write. rewrite length_take, (proj2 (Z.leb_le _ _)), (proj2 (Z.ltb_lt _ _)) by lia. cbn [andb].
  unfold byte_at. rewrite lookup_take_lt by lia. unfold new in *. unfold range in Ha. rewrite length_splice in Hin by lia.
  rewrite lookup_splice_ne; [|lia|lia].
  destruct Hb as [->|Hb]; [|lia]. rewrite dev_read_lookup by lia. cbn. f_equal. lia.
Qed.

Lemma raw_write_spec fuel off p d : (length p <= fuel)%nat ->
  under v (raw_write fuel bs off p) (λ ok d', same_outside (range off (length p)) d d' /\ (if (ok : bool) then dev_read d' off (length p) = p else faulty v))
    (λ d', same_outside (range off (length p)) d d' /\ faulty v) d.
Proof.
  destruct bs_sectors as [Hbs Hpos]. revert off p d. induction fuel as [|fuel IH]; intros off p d Hf.
  { destruct p; [|cbn in Hf; lia]. apply under_ret. split; [apply same_outside_refl|done]. }
  destruct p as [|x p0]; [apply under_ret; split; [apply same_outside_refl|done]|]. cbn [raw_write]. set (p := x :: p0) in *. set (n := Nat.min _ _).
  assert (Hp : (0 < length p)%nat) by (cbn; lia). pose proof (Z.mod_pos_bound off bs Hpos) as Hm. pose proof (Z.div_mod off bs ltac:(lia)) as Hd.
  set (piece := take n p). assert (Hn : length piece = n) by (subst piece n; rewrite length_take; lia).
  assert (Hsub : forall a, range off n a -> range off (length p) a) by (intros a; unfold range; subst n; lia).
  set (good := λ block : bytes, length block = Z.to_nat bs /\ (block = dev_read d (off / bs * bs) (Z.to_nat bs) \/ off mod bs = 0 /\ Z.of_nat n = bs)).
  apply under_bind. eapply (under_conseq _ _ (λ b d', d' = d /\ match b with Some block => good block | None => faulty v end) _ (λ d', d' = d /\ faulty v)).
  - destruct (_ && _) eqn:E.
    + boolify. apply under_ret. split; [done|]. split; [by rewrite repeat_length|]. by right.
    + apply under_read; [rewrite lba_offset, Hbs; split; [done|]; split; [by rewrite dev_read_length|by left]|auto].
  - intros [block|] d' [-> Hg]; [|apply under_ret; split; [apply same_outside_refl|done]]. destruct Hg as [Hl Hg].
    assert (Hpiece : (0 < length piece)%nat /\ off mod bs + Z.of_nat (length piece) <= bs) by (subst n; lia). destruct Hpiece as [Hp1 Hp2].
    assert (Htorn : forall k, same_outside (range off n) d (dev_write d (off / bs * bs) (take k (splice (Z.to_nat (off mod bs)) piece block)))).
    { intros k. rewrite <- Hn. apply torn_block; [done|done|done|]. by rewrite Hn. }
    apply under_bind, under_write; rewrite lba_offset.
    + set (d1 := dev_write _ _ _). assert (H1 : same_outside (range off n) d d1).
      { specialize (Htorn (length (splice (Z.to_nat (off mod bs)) piece block))). by rewrite firstn_all in Htorn. }
      assert (Hr1 : dev_read d1 off n = piece).
      { unfold d1. set (new := splice _ _ _). assert (Hnew : length new = Z.to_nat bs) by (unfold new; rewrite length_splice; lia).
        rewrite <- (slice_splice_eq (Z.to_nat (off mod bs)) piece block) by lia. fold new. rewrite <- (dev_read_write d (off / bs * bs) new) at 2. rewrite Hn.
        rewrite slice_dev_read by lia. f_equal. lia. }
      cbn [negb]. eapply under_conseq; [apply IH; rewrite length_drop; subst n; lia| |].
      * intros ok d' [Ho Hok]. assert (Hrest : forall a, range (off + Z.of_nat n) (length (drop n p)) a -> range off (length p) a) by (intros a; unfold range; rewrite length_drop; subst n; lia).
        split; [eapply same_outside_trans; [eapply same_outside_mono, H1; done|eapply same_outside_mono, Ho; done]|].
        destruct ok; [|done]. replace (length p) with (n + length (drop n p))%nat by (rewrite length_drop; subst n; lia). rewrite dev_read_plus, Hok.
        rewrite (same_outside_read _ _ _ _ _ Ho), Hr1; [apply take_drop|]. intros a. unfold range. lia.
      * intros d' [Ho Hv]. split; [|done]. eapply same_outside_trans; [eapply same_outside_mono, H1; done|]. eapply same_outside_mono, Ho. intros a. unfold range. rewrite length_drop. subst n. lia.
    + intros Hv k. split; [apply under_ret|]; (split; [eapply same_outside_mono, Htorn; done|done]).
  - intros d' [-> Hv]. split; [apply same_outside_refl|done].
Qed.

Lemma read_all_spec {A} (m : reader A) d : faultless m d ->
  under v (read_all bs m) (λ r d', d' = d /\ (r = eval m d \/ r = None /\ faulty v)) (λ d', d' = d /\ faulty v) d.
Proof.
  induction m as [a| | |off len k IH]; intros Hf; cbn [read_all eval faultless] in *; [apply under_ret; auto|apply under_ret; auto|done|].
  apply under_bind. eapply under_conseq; [by apply raw_read_spec| |auto]. cbn [app]. intros r d' [-> [->|[-> Hv]]]; [by apply IH|apply under_ret; auto].
Qed.

End Transfers.

(** * Readers *)

Section Readers.

Context {A B : Type}.

Lemma eval_bind (m : reader A) (f : A -> reader B) d : eval (m ≫= f) d = eval m d ≫= λ a, eval (f a) d.
Proof. unfold mbind at 1. unfold reader_bind. induction m as [a| | |off len k IH]; cbn [eval]; [done|done|done|apply IH]. Qed.

Lemma faultless_bind (m : reader A) (f : A -> reader B) d : faultless m d -> (forall a, eval m d = Some a -> faultless (f a) d) -> faultless (m ≫= f) d.
Proof.
  unfold mbind, reader_bind. induction m as [a| | |off len k IH]; cbn [faultless eval]; intros Hm Hf; [by apply Hf|done|done|by apply IH].
Qed.

End Readers.

Lemma eval_fat_next fs c d : eval (fat_next fs c) d = Some (fat_entry fs d c).
Proof. reflexivity. Qed.

Lemma fat_next_faultless fs c d : faultless (fat_next fs c) d.
Proof. exact I. Qed.

(** Destruct the tests of a reader. *)
Ltac reader_cases :=
  repeat first
    [ done
    | apply faultless_bind; [|intros]
    | apply fat_next_faultless
    | match goal with |- faultless (match ?x with _ => _ end) _ => destruct x eqn:? end ].

Lemma scan_blocks_faultless n off name d : faultless (scan_blocks n off name) d.
Proof. revert off. induction n as [|n IH]; intros off; cbn [scan_blocks]; [done|]. reader_cases; (exact I || apply IH). Qed.

Lemma dir_loop_faultless fuel fs c seen name d : (Z.to_nat (cluster_count fs - seen) < fuel)%nat -> faultless (dir_loop fuel fs c seen name) d.
Proof.
  revert c seen. induction fuel as [|fuel IH]; intros c seen Hf; [lia|]. cbn [dir_loop]. apply faultless_bind; [apply scan_blocks_faultless|]. intros r _.
  destruct r; [done|done|]. destruct (Z.ltb_spec (cluster_count fs) (seen + 1)); [done|]. reader_cases; apply IH; lia.
Qed.

Lemma dir_find_faultless fs dir name d : 0 <= cluster_count fs -> faultless (dir_find fs dir name) d.
Proof.
  intros Hc. unfold dir_find. destruct (dir =? 0); [apply faultless_bind; [apply scan_blocks_faultless|done]|]. destruct (negb _); [done|]. apply dir_loop_faultless. lia.
Qed.

Lemma must_find_faultless fs dir name d : 0 <= cluster_count fs -> faultless (must_find fs dir name) d.
Proof. intros Hc. unfold must_find. apply faultless_bind; [by apply dir_find_faultless|]. intros [f|] _; done. Qed.

Lemma file_read_faultless fuel fs c seen size d : (Z.to_nat (cluster_count fs - seen) < fuel)%nat -> faultless (file_read fuel fs c seen size) d.
Proof.
  revert c seen size. induction fuel as [|fuel IH]; intros c seen size Hf; [lia|]. cbn [file_read]. destruct (size <=? 0); [done|].
  destruct (_ || _) eqn:E; [done|]. boolify. reader_cases; try exact I; apply IH; lia.
Qed.

(** ** Chains *)

(** The map of the clusters in use, [done] entered. *)
Definition entered (used used' : list bool) (cl : list Z) : Prop :=
  length used' = length used /\ (forall c, c ∈ cl -> used !! Z.to_nat c = Some false /\ used' !! Z.to_nat c = Some true) /\ (forall i, used !! i = Some true -> used' !! i = Some true).

Lemma valid_cluster_range fs c : valid_cluster fs c = true <-> 2 <= c < cluster_count fs + 2.
Proof. unfold valid_cluster. rewrite andb_true_iff, Z.leb_le, Z.ltb_lt. done. Qed.

Lemma mark_loop_spec need fs c used d : Z.of_nat (length used) = cluster_count fs + 2 ->
  faultless (mark_loop need fs c used) d /\
  forall used', eval (mark_loop need fs c used) d = Some used' -> exists cl, length cl = need /\ chain fs d c cl /\ NoDup cl /\ entered used used' cl.
Proof.
  revert c used. induction need as [|need IH]; intros c used Hl; cbn [mark_loop].
  { split; [done|]. intros used' [= <-]. exists []. split; [done|]. split; [done|]. split; [constructor|]. split; [done|]. split; [by intros ? ?%elem_of_nil|done]. }
  destruct (valid_cluster fs c) eqn:Ev; cbn [negb]; [|split; [done|]; intros ? [=]]. pose proof (proj1 (valid_cluster_range _ _) Ev) as Hc.
  destruct (lookup_lt_is_Some_2 used (Z.to_nat c)) as [b Eb]; [lia|]. rewrite Eb. destruct b; [split; [done|]; intros ? [=]|].
  set (used1 := <[Z.to_nat c := true]> used). assert (Hl1 : length used1 = length used) by apply length_insert.
  assert (H1 : used1 !! Z.to_nat c = Some true) by (apply list_lookup_insert_eq; lia).
  assert (Hother : forall i, used !! i = Some true -> used1 !! i = Some true).
  { intros i Hi. destruct (decide (i = Z.to_nat c)) as [->|]; [done|]. unfold used1. by rewrite list_lookup_insert_ne. }
  destruct need as [|need].
  { split; [done|]. intros used' [= <-]. exists [c]. split; [done|]. split; [done|]. split; [apply NoDup_singleton|]. split; [done|]. split; [by intros x ->%list_elem_of_singleton|done]. }
  destruct (Z.leb_spec 0xfff8 (fat_entry fs d c)) as [Hge|Hlt].
  { split; [apply faultless_bind; [apply fat_next_faultless|]; intros next Hn; rewrite eval_fat_next in Hn; injection Hn as <-; by rewrite (proj2 (Z.leb_le _ _))|].
    intros used'. rewrite eval_bind, eval_fat_next. cbn [mbind option_bind]. by rewrite (proj2 (Z.leb_le _ _)). }
  destruct (IH (fat_entry fs d c) used1 ltac:(lia)) as [IH1 IH2]. split.
  { apply faultless_bind; [apply fat_next_faultless|]. intros next Hn. rewrite eval_fat_next in Hn. injection Hn as <-. by rewrite (proj2 (Z.leb_gt _ _)). }
  intros used'. rewrite eval_bind, eval_fat_next. cbn [mbind option_bind]. rewrite (proj2 (Z.leb_gt _ _)) by done. intros E.
  destruct (IH2 used' E) as (cl & Hlen & Hch & Hnd & Hle & Hin & Hkeep). exists (c :: cl). split; [cbn; lia|]. split; [done|].
  split. { constructor; [|done]. intros Hc'. destruct (Hin _ Hc') as [Hf _]. congruence. }
  split; [congruence|]. split; [|auto]. intros x [->|Hx]%elem_of_cons; [auto|]. destruct (Hin x Hx) as [Hf Ht]. split; [|done].
  destruct (used !! Z.to_nat x) as [[]|] eqn:Ex; [|done|].
  - rewrite (Hother _ Ex) in Hf. done.
  - apply lookup_ge_None in Ex. apply lookup_lt_Some in Ht. lia.
Qed.

Lemma mark_chain_spec fs f used d : Z.of_nat (length used) = cluster_count fs + 2 ->
  faultless (mark_chain fs f used) d /\
  forall used', eval (mark_chain fs f used) d = Some used' ->
  exists cl, length cl = Z.to_nat (clusters_of fs (f_size f)) /\ chain fs d (first_cluster f) cl /\ NoDup cl /\ entered used used' cl.
Proof. apply mark_loop_spec. Qed.

(** A chain of distinct clusters is no longer than the disk has clusters. *)
Lemma chain_valid fs d c cl x : chain fs d c cl -> x ∈ cl -> valid_cluster fs x = true.
Proof.
  revert c. induction cl as [|c' cl IH]; intros c Hch Hx; [by apply elem_of_nil in Hx|]. destruct Hch as (-> & Hv & Hrest).
  apply elem_of_cons in Hx as [->|Hx]; [done|]. destruct Hrest as [_ Hrest]; [by intros ->; apply elem_of_nil in Hx|]. by eapply IH.
Qed.

Lemma chain_length fs d c cl : chain fs d c cl -> NoDup cl -> 0 <= cluster_count fs -> Z.of_nat (length cl) <= cluster_count fs.
Proof.
  intros Hch Hnd Hc. assert (Hsub : cl ⊆+ seqZ 2 (cluster_count fs)).
  { apply NoDup_submseteq; [done|]. intros x Hx. apply elem_of_seqZ. pose proof (proj1 (valid_cluster_range _ _) (chain_valid _ _ _ _ _ Hch Hx)). lia. }
  apply submseteq_length in Hsub. rewrite length_seqZ in Hsub. lia.
Qed.

Lemma cluster_bytes_pos fs : fat_ok fs -> 0 < cluster_bytes fs.
Proof. intros [_ H _ _]. unfold cluster_bytes. lia. Qed.

Lemma clusters_of_step fs size n : fat_ok fs -> 0 < size -> clusters_of fs size = Z.of_nat (S n) ->
  clusters_of fs (size - Z.min size (cluster_bytes fs)) = Z.of_nat n /\ (size - Z.min size (cluster_bytes fs) = 0 <-> n = 0%nat).
Proof.
  intros Hfs Hs E. pose proof (cluster_bytes_pos fs Hfs) as Hcb. unfold clusters_of in *. set (cb := cluster_bytes fs) in *.
  assert (Hlo : cb * Z.of_nat n < size <= cb * Z.of_nat (S n)).
  { pose proof (Z.div_mod (size + cb - 1) cb ltac:(lia)). pose proof (Z.mod_pos_bound (size + cb - 1) cb Hcb). rewrite E in *. lia. }
  destruct (Z.le_gt_cases size cb).
  - rewrite Z.min_l by lia. assert (n = 0%nat) as -> by nia. split; [|split; lia]. rewrite Z.sub_diag. apply Z.div_small. lia.
  - rewrite Z.min_r by lia. assert (0 < n)%nat by nia. split; [|split; nia]. symmetry. apply Z.div_unique_pos with (r := size - cb + cb - 1 - cb * Z.of_nat n); nia.
Qed.

Lemma content_length fs d cl size : fat_ok fs -> 0 <= size -> clusters_of fs size = Z.of_nat (length cl) -> Z.of_nat (length (content fs d cl size)) = size.
Proof.
  intros Hfs. pose proof (cluster_bytes_pos fs Hfs) as Hcb. revert size. induction cl as [|c cl IH]; intros size Hs Hn; cbn [content].
  - unfold clusters_of in Hn. cbn in Hn |- *. apply Z.div_small_iff in Hn; lia.
  - destruct (Z.eq_dec size 0) as [->|Hne]; [unfold clusters_of in Hn; rewrite Z.div_small in Hn by lia; cbn in Hn; lia|].
    destruct (clusters_of_step fs size (length cl) Hfs ltac:(lia) Hn) as [Hn' _]. rewrite length_app, dev_read_length, Nat2Z.inj_add, IH; lia.
Qed.

Lemma eval_file_read fuel fs c cl seen size d : fat_ok fs -> chain fs d c cl -> 0 < size -> clusters_of fs size = Z.of_nat (length cl) ->
  seen + Z.of_nat (length cl) <= cluster_count fs -> (length cl < fuel)%nat -> eval (file_read fuel fs c seen size) d = Some (content fs d cl size).
Proof.
  intros Hfs. pose proof (cluster_bytes_pos fs Hfs) as Hcb. revert c cl seen size. induction fuel as [|fuel IH]; intros c cl seen size Hch Hs Hn Hseen Hf; [lia|].
  destruct cl as [|c' cl].
  { unfold clusters_of in Hn. cbn in Hn. apply Z.div_small_iff in Hn; lia. }
  destruct Hch as (-> & Hv & Hrest). destruct (clusters_of_step fs size (length cl) Hfs Hs Hn) as [Hn' Hz]. cbn [file_read length content] in *.
  rewrite (proj2 (Z.leb_gt _ _)) by lia. rewrite Hv. rewrite (proj2 (Z.ltb_ge _ _)) by lia. cbn [negb orb]. rewrite eval_bind. cbn [disk_read eval mbind option_bind].
  destruct (Z.eqb_spec (size - Z.min size (cluster_bytes fs)) 0) as [E|E].
  - assert (cl = []) as -> by (apply length_zero_iff_nil; by apply Hz). cbn [eval content]. by rewrite app_nil_r.
  - destruct Hrest as [Hlt Hrest]; [intros ->; apply E; by apply Hz|]. rewrite eval_bind, eval_fat_next. cbn [mbind option_bind]. rewrite (proj2 (Z.leb_gt _ _)) by done.
    rewrite eval_bind, (IH _ cl); [done|done|lia|done|lia|lia].
Qed.

Lemma eval_read_file fs d f cl : fat_ok fs -> chain fs d (first_cluster f) cl -> NoDup cl -> 0 < f_size f -> clusters_of fs (f_size f) = Z.of_nat (length cl) ->
  eval (read_file fs f) d = Some (content fs d cl (f_size f)).
Proof.
  intros Hfs Hch Hnd Hs Hn. pose proof (chain_length _ _ _ _ Hch Hnd (fo_count _ Hfs)). apply eval_file_read; [done|done|done|done|lia|lia].
Qed.

(** ** Where the clusters lie *)

Section Geometry.

Context (fs : fat16_t).
Hypothesis fs_ok : fat_ok fs.

Definition all_valid (cl : list Z) : Prop := forall c, c ∈ cl -> valid_cluster fs c = true.

Lemma in_cluster_disjoint c c' a : in_cluster fs c a -> in_cluster fs c' a -> c = c'.
Proof.
  destruct fs_ok as [Hb Hs _ _]. unfold in_cluster, cluster_off, sector_off, cluster_bytes. rewrite Hb. intros H1 H2. set (k := sectors_per_cluster fs) in *. nia.
Qed.

Lemma fat_entry_before c c' a : valid_cluster fs c = true -> valid_cluster fs c' = true -> range (sector_off fs (fat_sector fs) + c * 2) 2 a -> ~ in_cluster fs c' a.
Proof.
  intros Hc Hc'. apply valid_cluster_range in Hc, Hc'. destruct fs_ok as [Hb Hs _ Hcov]. unfold covers, range, in_cluster, cluster_off, sector_off in *. rewrite Hb in *. nia.
Qed.

Lemma fat_entry_same d d' c cl : same_outside (in_clusters fs cl) d d' -> all_valid cl -> valid_cluster fs c = true -> fat_entry fs d' c = fat_entry fs d c.
Proof.
  intros Hd Hcl Hc. unfold fat_entry. rewrite (same_outside_read _ _ _ _ _ Hd); [done|]. intros a Ha (c' & Hc' & Hin). exact (fat_entry_before c c' a Hc (Hcl _ Hc') Ha Hin).
Qed.

Lemma chain_same d d' c cl cl' : same_outside (in_clusters fs cl') d d' -> all_valid cl' -> chain fs d c cl -> chain fs d' c cl.
Proof.
  intros Hd Hv. revert c. induction cl as [|x cl IH]; intros c; [done|]. intros (-> & Hc & Hrest). split; [done|]. split; [done|]. intros Hne.
  rewrite (fat_entry_same d d' c cl') by done. destruct (Hrest Hne) as [Hlt Hch]. split; [done|by apply IH].
Qed.

Lemma content_same d d' cl cl' size : same_outside (in_clusters fs cl') d d' -> (forall c, c ∈ cl -> c ∉ cl') -> content fs d' cl size = content fs d cl size.
Proof.
  intros Hd. revert size. induction cl as [|c cl IH]; intros size Hdis; [done|]. cbn [content]. f_equal; [|apply IH; intros x Hx; apply Hdis; by right].
  apply (same_outside_read _ _ _ _ _ Hd). intros a Ha (c' & Hc' & Hin). assert (c = c') as <-; [|by apply (Hdis c); [left|]].
  apply (in_cluster_disjoint c c' a); [|done]. unfold range, in_cluster in *. lia.
Qed.

End Geometry.

Lemma in_clusters_mono fs cl cl' : cl ⊆ cl' -> forall a, in_clusters fs cl a -> in_clusters fs cl' a.
Proof. intros H a (c & Hc & Ha). exists c. auto. Qed.

Lemma in_clusters_l fs cl cl' a : in_clusters fs cl a -> in_clusters fs (cl ++ cl') a.
Proof. apply in_clusters_mono. intros x Hx. apply elem_of_app. by left. Qed.

Lemma in_clusters_r fs cl cl' a : in_clusters fs cl' a -> in_clusters fs (cl ++ cl') a.
Proof. apply in_clusters_mono. intros x Hx. apply elem_of_app. by right. Qed.

(** ** Writing a file *)

Section Writing.

Context (v : nat -> verdict) (bs : Z) (fs : fat16_t).
Hypothesis bs_ok : block_size_ok bs.
Hypothesis fs_ok : fat_ok fs.

Lemma file_write_spec fuel c cl seen size buf d : chain fs d c cl -> NoDup cl -> 0 < size -> clusters_of fs size = Z.of_nat (length cl) ->
  seen + Z.of_nat (length cl) <= cluster_count fs -> (length cl < fuel)%nat -> Z.of_nat (length buf) = size ->
  under v (file_write fuel bs fs c seen size buf)
    (λ ok d', same_outside (in_clusters fs cl) d d' /\ (if (ok : bool) then content fs d' cl size = buf else faulty v))
    (λ d', same_outside (in_clusters fs cl) d d' /\ faulty v) d.
Proof.
  pose proof (cluster_bytes_pos fs fs_ok) as Hcb. revert c cl seen size buf d. induction fuel as [|fuel IH]; intros c cl seen size buf d Hch Hnd Hs Hn Hseen Hf Hbuf; [lia|].
  destruct cl as [|c' cl]; [unfold clusters_of in Hn; cbn in Hn; apply Z.div_small_iff in Hn; lia|].
  pose proof (λ x, chain_valid fs d c (c' :: cl) x Hch) as Hvalid. destruct Hch as (-> & Hv & Hrest). apply NoDup_cons in Hnd as [Hnin Hnd].
  destruct (clusters_of_step fs size (length cl) fs_ok Hs Hn) as [Hn' Hz]. cbn [file_write length content] in *.
  rewrite (proj2 (Z.leb_gt _ _)) by lia. rewrite Hv. rewrite (proj2 (Z.ltb_ge (cluster_count fs) _)) by lia. cbn [negb orb].
  set (n := Z.min size (cluster_bytes fs)) in *. rewrite (proj2 (Z.ltb_ge _ _)) by lia.
  assert (Hchunk : length (take (Z.to_nat n) buf) = Z.to_nat n) by (rewrite length_take; lia).
  assert (Hsub : forall a, range (cluster_off fs c) (length (take (Z.to_nat n) buf)) a -> in_clusters fs (c :: cl) a).
  { intros a Ha. exists c. split; [left|]. unfold range, in_cluster in *. lia. }
  assert (Hone : forall a, range (cluster_off fs c) (length (take (Z.to_nat n) buf)) a -> in_clusters fs [c] a).
  { intros a Ha. exists c. split; [left|]. unfold range, in_cluster in *. lia. }
  apply under_bind. eapply under_conseq; [apply (raw_write_spec v bs bs_ok); lia| |].
  2: { intros d' [Ho Hfv]. split; [|done]. by eapply same_outside_mono. }
  intros ok d1 [H1 Hok]. destruct ok; cbn [negb]; [|apply under_ret; split; [by eapply same_outside_mono|done]]. rewrite Hchunk in Hok.
  pose proof (same_outside_mono _ _ _ _ Hone H1) as H1c. pose proof (same_outside_mono _ _ _ _ Hsub H1) as H1a.
  destruct (Z.eqb_spec (size - n) 0) as [E|E].
  { apply under_ret. split; [done|]. assert (cl = []) as -> by (apply length_zero_iff_nil; by apply Hz). cbn [content]. rewrite app_nil_r, Hok. apply take_ge. lia. }
  destruct Hrest as [Hlt Hch]; [intros ->; apply E; by apply Hz|]. assert (Hvc : all_valid fs [c]) by (by intros x ->%list_elem_of_singleton).
  apply under_bind. eapply under_conseq; [apply (read_all_spec v bs bs_ok), fat_next_faultless| |].
  2: { intros d' [-> Hfv]. done. }
  intros r d' [-> [->|[-> Hfv]]]; [|apply under_ret; done]. rewrite eval_fat_next. rewrite (fat_entry_same fs fs_ok d d1 c [c]) by done. rewrite (proj2 (Z.leb_gt _ _)) by done.
  eapply under_conseq.
  - apply (IH _ cl); [by eapply (chain_same fs fs_ok d d1)|done|lia|done|lia|lia|rewrite length_drop; lia].
  - intros ok d2 [H2 Hok2]. assert (H2a : same_outside (in_clusters fs (c :: cl)) d1 d2) by (eapply same_outside_mono, H2; apply (in_clusters_r _ [c])).
    split; [by eapply same_outside_trans|]. destruct ok; [|done]. rewrite Hok2. rewrite <- (take_drop (Z.to_nat n) buf) at 2. f_equal. rewrite <- Hok.
    apply (same_outside_read _ _ _ _ _ H2). intros a Ha (x & Hx & Hin). assert (x = c) as ->; [|done].
    apply (in_cluster_disjoint fs fs_ok x c a Hin). unfold range, in_cluster in *. lia.
  - intros d2 [H2 Hfv]. split; [|done]. eapply same_outside_trans; [done|]. eapply same_outside_mono, H2. apply (in_clusters_r _ [c]).
Qed.

Lemma read_file_faultless f d : faultless (read_file fs f) d.
Proof. apply file_read_faultless. destruct fs_ok. lia. Qed.

Lemma store_spec f cl buf d : chain fs d (first_cluster f) cl -> NoDup cl -> 0 < f_size f -> clusters_of fs (f_size f) = Z.of_nat (length cl) -> Z.of_nat (length buf) = f_size f ->
  under v (store bs fs f buf)
    (λ ok d', same_outside (in_clusters fs cl) d d' /\ (if (ok : bool) then content fs d' cl (f_size f) = buf else faulty v))
    (λ d', same_outside (in_clusters fs cl) d d' /\ faulty v) d.
Proof.
  intros Hch Hnd Hs Hn Hbuf. pose proof (chain_length _ _ _ _ Hch Hnd (fo_count _ fs_ok)) as Hlen. unfold store. apply under_bind.
  eapply under_conseq; [apply (file_write_spec _ _ cl); (done || lia)| |done]. intros ok d1 [H1 Hok]. destruct ok; cbn [negb]; [|by apply under_ret].
  assert (Hch1 : chain fs d1 (first_cluster f) cl) by (eapply (chain_same fs fs_ok d d1 _ cl cl); [done|intros x; by eapply chain_valid|done]).
  apply under_bind. eapply under_conseq; [apply (read_all_spec v bs bs_ok), read_file_faultless| |].
  - intros r d' [-> Hr]. apply under_ret. split; [done|]. rewrite (eval_read_file fs d1 f cl fs_ok Hch1 Hnd Hs Hn), Hok in Hr.
    destruct Hr as [->|[-> Hfv]]; [by rewrite beq_refl|done].
  - intros d' [-> Hfv]. done.
Qed.

End Writing.

(** * The update *)

(** The slots of the disk: their clusters are chains without a cluster in common. *)
Record kernel_slots (slot : Z) (d : device) (fs : fat16_t) (cur old : list Z) : Prop := KernelSlots {
  ks_boot : boot_sector (dev_read d ESP_OFFSET 512) = Some fs;
  ks_files : exists fc fo, eval (find_slots slot true fs) d = Some (fc, fo) /\ f_size fc = slot /\ f_size fo = slot /\
             chain fs d (first_cluster fc) cur /\ chain fs d (first_cluster fo) old;
  ks_disjoint : NoDup (cur ++ old);
  ks_cur : clusters_of fs slot = Z.of_nat (length cur);
  ks_old : clusters_of fs slot = Z.of_nat (length old)
}.

(** Nothing changed, or only the slots did and one of them holds the kernel that was
    current at first. *)
Definition kernel_safe (slot : Z) (d d' : device) : Prop :=
  d' = d \/ exists fs cur old, kernel_slots slot d fs cur old /\ same_outside (in_clusters fs (cur ++ old)) d d' /\
    (content fs d' cur slot = content fs d cur slot \/ content fs d' old slot = content fs d cur slot).

(** The new kernel is in place, with the one before it in the other slot unless they
    are the same. *)
Definition kernel_installed (slot : Z) (d d' : device) (staged : bytes) : Prop :=
  exists fs cur old, kernel_slots slot d fs cur old /\ content fs d' cur slot = staged /\
    (d' = d \/ content fs d' old slot = content fs d cur slot).

Section Update.

Context (slot : Z).
Hypothesis slot_pos : 0 < slot.

Lemma boot_sector_ok b fs : boot_sector b = Some fs -> covers fs -> fat_ok fs.
Proof.
  unfold boot_sector. destruct (_ || _); [done|]. cbv zeta. destruct (_ || _) eqn:E1; [done|]. destruct (Z.leb_spec (if le16 b 19 =? 0 then le32 b 32 else le16 b 19) (le16 b 14 + byte_at b 16 * le16 b 22 + (le16 b 17 * 32 + 511) / 512)) as [|Hlt]; [done|].
  destruct (_ && _) eqn:E2; [|done]. boolify. intros [= <-] Hc. set (data := _ - _) in *.
  split; [done| | |done]; cbn [sectors_per_cluster cluster_count]; [|lia]. destruct (Z.lt_trichotomy (byte_at b 13) 0) as [Hneg|[Hz|Hp]]; [|done|done].
  exfalso. assert (data / byte_at b 13 <= 0); [|lia]. pose proof (Z.div_mod data (byte_at b 13) ltac:(lia)). pose proof (Z.mod_neg_bound data (byte_at b 13) Hneg). subst data. nia.
Qed.

Lemma eval_fat_open d : eval fat_open d = boot_sector (dev_read d ESP_OFFSET 512).
Proof. unfold fat_open. rewrite eval_bind. cbn [disk_read eval mbind option_bind]. by destruct (boot_sector _). Qed.

Lemma fat_open_faultless d : faultless fat_open d.
Proof. unfold fat_open. apply faultless_bind; [done|]. intros b _. by destruct (boot_sector b). Qed.

Lemma find_slots_spec memory fs d : fat_ok fs -> faultless (find_slots slot memory fs) d /\
  forall fc fo, eval (find_slots slot memory fs) d = Some (fc, fo) -> boot_sector (dev_read d ESP_OFFSET 512) = Some fs ->
  exists cur old, kernel_slots slot d fs cur old /\ f_size fc = slot /\ f_size fo = slot /\ chain fs d (first_cluster fc) cur /\ chain fs d (first_cluster fo) old.
Proof.
  intros Hfs. pose proof (fo_count _ Hfs) as Hc. set (used0 := repeat false (Z.to_nat (cluster_count fs + 2))).
  assert (Hl0 : Z.of_nat (length used0) = cluster_count fs + 2) by (subst used0; rewrite repeat_length; lia).
  assert (Hmark : forall f used, Z.of_nat (length used) = cluster_count fs + 2 -> faultless (mark_chain fs f used) d) by (intros f used Hl; by apply mark_chain_spec).
  assert (Hlen : forall f used used', Z.of_nat (length used) = cluster_count fs + 2 -> eval (mark_chain fs f used) d = Some used' -> Z.of_nat (length used') = cluster_count fs + 2).
  { intros f used used' Hl E. destruct (mark_chain_spec fs f used d Hl) as [_ H]. destruct (H used' E) as (cl & _ & _ & _ & He & _). lia. }
  split.
  - unfold find_slots. do 3 (apply faultless_bind; [by apply must_find_faultless|intros ? _]). destruct (_ || _); [done|]. destruct (negb memory); [done|].
    apply faultless_bind; [by apply Hmark|]. intros used Eu. apply faultless_bind; [|done]. apply Hmark. by eapply Hlen.
  - intros fc fo E Hb. pose proof E as Efull. unfold find_slots in E. do 3 (rewrite eval_bind in E; destruct (eval (must_find _ _ _) d) as [?|]; [|done]; cbn [mbind option_bind] in E).
    rename f0 into fc', f1 into fo'. destruct (_ || _) eqn:Esz; [done|]. destruct memory; cbn [negb] in E; [|done]. rewrite eval_bind in E.
    destruct (eval (mark_chain fs fc' _) d) as [used|] eqn:Eu; [|done]. cbn [mbind option_bind] in E. rewrite eval_bind in E. destruct (eval (mark_chain fs fo' _) d) as [used'|] eqn:Eu'; [|done].
    cbn in E. injection E as -> ->. boolify.
    destruct (mark_chain_spec fs fc used0 d Hl0) as [_ H1]. destruct (H1 used Eu) as (cur & L1 & C1 & N1 & _ & I1 & _).
    destruct (mark_chain_spec fs fo used d (Hlen _ _ _ Hl0 Eu)) as [_ H2]. destruct (H2 used' Eu') as (old & L2 & C2 & N2 & _ & I2 & _).
    assert (Hneed : 0 <= clusters_of fs slot) by (unfold clusters_of; pose proof (cluster_bytes_pos fs Hfs); apply Z.div_pos; lia).
    exists cur, old. split; [|done]. split; [done|by exists fc, fo| | |].
    + apply NoDup_app. split; [done|]. split; [|done]. intros x Hx Hx'. destruct (I1 x Hx) as [_ Ht], (I2 x Hx') as [Hf _]. congruence.
    + rewrite L1. replace (f_size fc) with slot by done. lia.
    + rewrite L2. replace (f_size fo) with slot by done. lia.
Qed.

(** What reading the disk finds. *)
Lemma open_slots_spec memory d : (forall fs, boot_sector (dev_read d ESP_OFFSET 512) = Some fs -> covers fs) ->
  faultless (open_slots slot memory) d /\
  forall fs fc fo current, eval (open_slots slot memory) d = Some (fs, fc, fo, current) ->
  exists cur old, kernel_slots slot d fs cur old /\ fat_ok fs /\ f_size fc = slot /\ f_size fo = slot /\
    chain fs d (first_cluster fc) cur /\ chain fs d (first_cluster fo) old /\ current = content fs d cur slot.
Proof.
  intros Hcov. unfold open_slots. split.
  - apply faultless_bind; [apply fat_open_faultless|]. intros fs Efs. rewrite eval_fat_open in Efs. pose proof (boot_sector_ok _ _ Efs (Hcov _ Efs)) as Hfs.
    apply faultless_bind; [by apply find_slots_spec|]. intros [fc fo] _. apply faultless_bind; [by apply read_file_faultless|done].
  - intros fs fc fo current. rewrite eval_bind, eval_fat_open. destruct (boot_sector _) as [fs'|] eqn:Efs; [|done]. cbn [mbind option_bind]. pose proof (boot_sector_ok _ _ Efs (Hcov _ eq_refl)) as Hfs.
    rewrite eval_bind. destruct (eval (find_slots slot memory fs') d) as [[fc' fo']|] eqn:Es; [|done]. cbn [mbind option_bind fst snd]. rewrite eval_bind.
    destruct (find_slots_spec memory fs' d Hfs) as [_ H]. destruct (H fc' fo' Es Efs) as (cur & old & Hks & S1 & S2 & C1 & C2).
    pose proof (ks_disjoint _ _ _ _ _ Hks) as Hnd. apply NoDup_app in Hnd as (Hnd & _ & _).
    rewrite (eval_read_file fs' d fc' cur Hfs C1 Hnd); [|lia|rewrite S1; apply Hks]. cbn. intros [= -> -> -> <-]. exists cur, old. rewrite S1. done.
Qed.

Lemma read_staged_length w staged : read_staged slot w = Some staged -> Z.of_nat (length staged) = slot.
Proof.
  unfold read_staged. destruct (w_staged w) as [file|]; [|done]. cbv zeta.
  destruct ((_ <? 64) || _ || _ || _) eqn:E; [done|]. destruct (negb (beq _ _) || _ || _ || _); [done|]. intros [= <-]. boolify. rewrite length_app, repeat_length. lia.
Qed.

Section Swap.

Context (v : nat -> verdict) (w : world) (d : device).
Hypothesis esp_covers : forall fs, boot_sector (dev_read d ESP_OFFSET 512) = Some fs -> covers fs.

(** The result of a run that got as far as the disk. *)
Definition swapped (staged : bytes) (pending : bool) (r : result) (d' : device) : Prop :=
  kernel_safe slot d d' /\ (r_exit r = 0 \/ r_finished r = true -> kernel_installed slot d d' staged) /\ (r_finished r = true -> pending = true) /\
  (~ faulty v -> w_memory w 1%nat = true -> is_Some (eval (open_slots slot (w_memory w 2%nat)) d) -> kernel_installed slot d d' staged /\ r = Result (if pending then if w_finish w then 0 else 1 else 0) pending).

Lemma swap_spec bs staged pending : block_size_ok bs -> Z.of_nat (length staged) = slot ->
  under v (swap slot w bs pending staged) (swapped staged pending) (λ d', kernel_safe slot d d' /\ faulty v) d.
Proof.
  intros Hbs Hst. unfold swap. assert (Hrefl : kernel_safe slot d d) by (by left).
  destruct (w_memory w 1%nat) eqn:Em; cbn [negb]; [|apply under_ret; split; [done|]; split; [intros [[=]|[=]]|]; split; [intros [=]|]; intros _ Hm; congruence].
  destruct (open_slots_spec (w_memory w 2%nat) d esp_covers) as [Hfl Hopen]. apply under_bind. eapply under_conseq; [by apply (read_all_spec v bs Hbs)| |by intros d' [-> Hfv]].
  intros o d' [-> Ho]. destruct o as [[[[fs fc] fo] current]|].
  2: { apply under_ret. split; [done|]. split; [intros [[=]|[=]]|]. split; [intros [=]|]. intros Hnf _ [x Hx]. rewrite Hx in Ho. destruct Ho as [[=]|[_ Hf]]. done. }
  destruct Ho as [Ho|[[=] _]]. destruct (Hopen fs fc fo current (eq_sym Ho)) as (cur & old & Hks & Hfs & S1 & S2 & C1 & C2 & ->).
  pose proof (ks_disjoint _ _ _ _ _ Hks) as Hnd. apply NoDup_app in Hnd as (N1 & Hdis & N2).
  assert (Hdone : forall d', kernel_safe slot d d' -> kernel_installed slot d d' staged -> swapped staged pending (Result (if pending then if w_finish w then 0 else 1 else 0) pending) d').
  { intros d' Hs Hi. split; [done|]. split; [done|]. split; [done|]. done. }
  assert (Hfail : forall d', kernel_safe slot d d' -> faulty v -> swapped staged pending (Result 1 false) d').
  { intros d' Hs Hf. split; [done|]. split; [intros [[=]|[=]]|]. split; [intros [=]|done]. }
  destruct (beq _ staged) eqn:Eb.
  { apply beq_true in Eb. apply under_ret. assert (Hi : kernel_installed slot d d staged) by (exists fs, cur, old; auto). specialize (Hdone d Hrefl Hi). by destruct pending. }
  apply under_bind. eapply under_conseq.
  { apply (store_spec v bs fs Hbs Hfs fo old); [done|done|lia|rewrite S2; apply Hks|]. rewrite S2. apply content_length; [done|lia|apply Hks]. }
  2: { intros d1 [H1 Hf]. split; [|done]. right. exists fs, cur, old. split; [done|]. split; [eapply same_outside_mono, H1; apply in_clusters_r|]. left. by apply (content_same fs Hfs d d1 cur old). }
  intros ok d1 [H1 Hok]. rewrite S2 in Hok. assert (H1a : same_outside (in_clusters fs (cur ++ old)) d d1) by (eapply same_outside_mono, H1; apply in_clusters_r).
  assert (Hcur1 : content fs d1 cur slot = content fs d cur slot) by (by apply (content_same fs Hfs d d1 cur old)).
  destruct ok; cbn [negb]; [|apply under_ret, Hfail; [right; exists fs, cur, old; auto|done]].
  assert (Hold : all_valid fs old) by (intros x; by eapply chain_valid).
  apply under_bind. eapply under_conseq.
  { apply (store_spec v bs fs Hbs Hfs fc cur); [by eapply (chain_same fs Hfs d d1 _ cur old)|done|lia|rewrite S1; apply Hks|lia]. }
  - intros ok d2 [H2 Hok2]. rewrite S1 in Hok2. assert (H2a : same_outside (in_clusters fs (cur ++ old)) d d2).
    { eapply same_outside_trans; [done|]. eapply same_outside_mono, H2; apply in_clusters_l. }
    assert (Hold2 : content fs d2 old slot = content fs d cur slot) by (rewrite (content_same fs Hfs d1 d2 old cur); [done|done|intros x Hx Hx'; exact (Hdis x Hx' Hx)]).
    assert (Hs2 : kernel_safe slot d d2) by (right; exists fs, cur, old; auto). destruct ok; cbn [negb]; [|apply under_ret, Hfail; done].
    assert (Hi : kernel_installed slot d d2 staged) by (exists fs, cur, old; auto). specialize (Hdone d2 Hs2 Hi). destruct pending; by apply under_ret.
  - intros d2 [H2 Hf]. split; [|done]. right. exists fs, cur, old. split; [done|]. split.
    + eapply same_outside_trans; [done|]. eapply same_outside_mono, H2; apply in_clusters_l.
    + right. rewrite (content_same fs Hfs d1 d2 old cur); [done|done|intros x Hx Hx'; exact (Hdis x Hx' Hx)].
Qed.

End Swap.

(** The disk is one of those choose_disk accepts. *)
Lemma choose_disk_ok devs has_aegis requested dev : choose_disk devs has_aegis requested = Chosen dev -> block_size_ok (dev_block_size dev).
Proof.
  unfold choose_disk. destruct devs as [devs|]; [|done]. destruct (List.filter _ devs) as [|dev' [|]] eqn:E; [done| |done]. intros [= <-].
  assert (H : In dev' (List.filter (eligible has_aegis requested) devs)) by (rewrite E; by left). apply filter_In in H as [_ H]. unfold eligible in H. boolify.
  apply orb_true_iff in H0. unfold block_size_ok. rewrite !Z.eqb_eq in H0. done.
Qed.

Lemma run_update_spec v w d bs : (forall fs, boot_sector (dev_read d ESP_OFFSET 512) = Some fs -> covers fs) -> block_size_ok bs ->
  under v (run_update slot w bs) (λ r d', kernel_safe slot d d' /\ (r_exit r = 0 \/ r_finished r = true -> exists staged, read_staged slot w = Some staged /\ kernel_installed slot d d' staged))
    (kernel_safe slot d) d.
Proof.
  intros Hcov Hbs. unfold run_update. assert (Hno : kernel_safe slot d d /\ (r_exit (Result 1 false) = 0 \/ r_finished (Result 1 false) = true -> exists staged, read_staged slot w = Some staged /\ kernel_installed slot d d staged)).
  { split; [by left|]. intros [[=]|[=]]. }
  destruct (_ && _); [by apply under_ret|]. destruct (read_staged slot w) as [staged|] eqn:Es; [|by apply under_ret].
  eapply under_conseq; [apply (swap_spec v w d Hcov bs staged); [done|by eapply read_staged_length]| |by intros d' [? _]].
  intros r d' (Hs & Hi & _ & _). split; [done|]. intros Hr. exists staged. auto.
Qed.

End Update.

