(* ===== verification/LoricaUpdateCases.v ===== *)
(** The kernel update succeeds on a sound disk, and a disk to try it on. *)

From S2P Require Import Prelude CString BlockDev LoricaUpdate LoricaUpdateSafety.
Local Open Scope Z_scope.

(** * Completion *)

(** C19: On a sound disk whose transfers succeed the update completes: with the packages
    upgraded or pending, a valid kernel staged and the slots found, it exits with 0,
    the staged kernel is current, the previous one kept, and a pending package update
    completed. *)
Theorem update_completes slot w d dev staged : 0 < slot -> (forall fs, boot_sector (dev_read d ESP_OFFSET 512) = Some fs -> covers fs) ->
  w_extra_args w = false -> choose_disk (w_devs w) (w_has_aegis w) (w_requested w) = Chosen dev ->
  w_pending w || w_sync w && w_upgrade w = true -> read_staged slot w = Some staged -> w_memory w 1%nat = true -> w_finish w = true ->
  is_Some (eval (open_slots slot (w_memory w 2%nat)) d) ->
  exists n d', update slot w (λ _, DOk) 0%nat d = Val (Result 0 (w_pending_after w)) n d' /\ kernel_installed slot d d' staged.
Proof.
  intros Hslot Hcov Ha Hdev Hup Hst Hm Hfin Hopen. unfold update. rewrite Ha, Hdev. unfold run_update.
  assert (Hgo : negb (w_pending w) && (negb (w_sync w) || negb (w_upgrade w)) = false) by (destruct (w_pending w), (w_sync w), (w_upgrade w); done). rewrite Hgo, Hst.
  pose proof (swap_spec slot Hslot (λ _, DOk) w d Hcov (dev_block_size dev) staged (w_pending_after w) (choose_disk_ok _ _ _ _ Hdev) (read_staged_length slot w staged Hst) 0%nat) as H.
  assert (Hnf : ~ faulty (λ _, DOk)) by (by intros [n Hn]). destruct (swap _ _ _ _ _ _ _ _) as [r n d'|d'|]; [|by destruct H|done].
  destruct H as (_ & _ & _ & H). destruct (H Hnf Hm Hopen) as [Hi ->]. exists n, d'. split; [|done]. rewrite Hfin. by destruct (w_pending_after w).
Qed.

(** * A small disk *)

(** A boot sector of 4 sectors per cluster, one table of 16 sectors and one sector of
    root directory. *)
Definition boot_512 : bytes :=
  repeat 0 11 ++ [0; 2; 4; 1; 0; 1; 16; 0; 0; 64; 0; 16; 0] ++ repeat 0 486 ++ [0x55; 0xaa].

Definition dir_entry (name : bytes) (cluster size : Z) : bytes := name ++ [0x10] ++ repeat 0 14 ++ le_bytes 2 cluster ++ le_bytes 4 size.

(** The directory BOOT in cluster 2 holds two files of [small_slot] bytes, in the
    clusters 3 and 4, and 5 and 6. *)
Definition small_slot : Z := 2060.
Definition small_disk : device :=
  let at_ s := ESP_OFFSET + s * 512 in
  let d := dev_write (λ _, 0) (at_ 0) boot_512 in
  let d := dev_write d (at_ 1) (repeat 0 6 ++ le_bytes 2 4 ++ le_bytes 2 0xffff ++ le_bytes 2 6 ++ le_bytes 2 0xffff) in
  let d := dev_write d (at_ 17) (dir_entry boot_name 2 0) in
  let d := dev_write d (at_ 18) (dir_entry kernel_name 3 small_slot ++ dir_entry old_name 5 small_slot) in
  dev_write d (at_ 22) (repeat 7 100).

Definition small_kernel : bytes := ELF_MAGIC ++ [2; 1] ++ repeat 0 12 ++ [62; 0] ++ repeat 9 44.
Definition small_world : world :=
  World false None (Some [Blkdev (B "nvme0") 4096; Blkdev (B "nvme0p1") 512; Blkdev (B "ramdisk0") 512]) true None (λ _, true)
    false true true true true (Some small_kernel) true (λ _, true) 62.

Lemma small_disk_covers fs : boot_sector (dev_read small_disk ESP_OFFSET 512) = Some fs -> covers fs.
Proof. intros E. lazy in E. injection E as <-. unfold covers. cbn. lia. Qed.


Definition small_staged : bytes := small_kernel ++ repeat 0 1996.

Lemma update_completes_witness : exists n d', update small_slot small_world (λ _, DOk) 0%nat small_disk = Val (Result 0 true) n d' /\ kernel_installed small_slot small_disk d' small_staged.
Proof.
  apply (update_completes small_slot small_world small_disk (Blkdev (B "nvme0") 4096) small_staged); [done|exact small_disk_covers|reflexivity|reflexivity|reflexivity| |reflexivity|reflexivity|].
  - lazy. reflexivity.
  - eexists. lazy. reflexivity.
Defined.
