(* ===== verification/Accounts.v ===== *)
(** Accounts: looking them up and checking passwords (src/user/lib/libauth/auth.c),
    creating them (src/user/lib/libinstall/credentials.c, src/user/bin/useradd/main.c),
    changing the administrator's password (src/user/bin/adminpw/main.c) and logging in
    (src/user/bin/login/main.c).

    The state is the contents and modes of the account files and the owners of the
    home directories.  Every call on them may fail, and a write may be short, as
    [fate] decides by the number of calls made.  [crypt] of the C library is a
    parameter. *)

From S2P Require Import Prelude CString Posix.
Local Open Scope Z_scope.

(** * Definitions *)

(** ** The files *)

Record afile := AFile { af_mode : Z; af_data : bytes }.

(** /etc/passwd, /etc/shadow, /etc/group and /etc/aegis/admin. *)
Inductive account_file := PASSWD | SHADOW | GROUP | ADMIN.
#[global] Instance account_file_eq_dec : EqDecision account_file.
Proof. solve_decision. Defined.

(** The files that exist, and the home directories with the user and group that own
    them. *)
Record files := Files { f_passwd : option afile; f_shadow : option afile; f_group : option afile; f_admin : option afile }.
Record etc := Etc { a_set : files; a_dirs : list (bytes * (Z * Z)); a_tick : nat }.

Definition a_files (s : etc) (p : account_file) : option afile :=
  match p with PASSWD => f_passwd (a_set s) | SHADOW => f_shadow (a_set s) | GROUP => f_group (a_set s) | ADMIN => f_admin (a_set s) end.
Definition a_homes (s : etc) (p : bytes) : option (Z * Z) := snd <$> List.find (λ d, beq (fst d) p) (a_dirs s).

Inductive fate_t := FOk | FFail | FShort (n : nat).

Definition act (A : Type) : Type := etc -> A * etc.
#[global] Instance act_ret : MRet act := λ _ a s, (a, s).
#[global] Instance act_bind : MBind act := λ _ _ f m s, let '(a, s) := m s in f a s.

Definition data_of (s : etc) (p : account_file) : option bytes := af_data <$> a_files s p.

Section Accounts.

Context (fate : nat -> fate_t) (crypt : bytes -> bytes -> option bytes).

Definition tick (s : etc) : etc := Etc (a_set s) (a_dirs s) (S (a_tick s)).
Definition set_file (p : account_file) (f : afile) (s : etc) : etc :=
  let '(Files a b c d) := a_set s in
  Etc (match p with PASSWD => Files (Some f) b c d | SHADOW => Files a (Some f) c d | GROUP => Files a b (Some f) d | ADMIN => Files a b c (Some f) end) (a_dirs s) (a_tick s).
Definition set_home (p : bytes) (owner : Z * Z) (s : etc) : etc := Etc (a_set s) ((p, owner) :: a_dirs s) (a_tick s).

(** A call that succeeds or fails without an effect. *)
Definition call {A} (f : etc -> A * etc) (failed : A) : act A := λ s,
  match fate (a_tick s) with
  | FFail => (failed, tick s)
  | _ => f (tick s)
  end.

(** open(p, O_WRONLY | O_CREAT | O_TRUNC) and with O_APPEND; a new file has the mode
    the kernel gives it. *)
Definition open_trunc (p : account_file) : act bool :=
  call (λ s, (true, set_file p (AFile (match a_files s p with Some f => af_mode f | None => 420 end) []) s)) false.
Definition open_append (p : account_file) : act bool :=
  call (λ s, (true, match a_files s p with Some _ => s | None => set_file p (AFile 420 []) s end)) false.

(** The number of bytes written at the end of the file. *)
Definition write_end (p : account_file) (bs : bytes) : act nat := λ s,
  match fate (a_tick s), a_files s p with
  | FFail, _ | _, None => (0%nat, tick s)
  | FOk, Some f => (length bs, set_file p (AFile (af_mode f) (af_data f ++ bs)) (tick s))
  | FShort n, Some f => let n := Nat.min n (length bs) in (n, set_file p (AFile (af_mode f) (af_data f ++ take n bs)) (tick s))
  end.

Definition chmod (p : account_file) (mode : Z) : act unit :=
  call (λ s, (tt, match a_files s p with Some f => set_file p (AFile mode (af_data f)) s | None => s end)) tt.

(** mkdir and chown of a home directory; [false] for an error other than EEXIST. *)
Definition mkdir_home (p : bytes) : act bool :=
  call (λ s, (true, match a_homes s p with Some _ => s | None => set_home p (0, 0) s end)) false.
Definition chown (p : bytes) (uid gid : Z) : act bool :=
  call (λ s, match a_homes s p with Some _ => (true, set_home p (uid, gid) s) | None => (false, s) end) false.

(** ** libauth *)

(** The fields of a line: up to seven that a colon ends, and the rest of the line as
    the seventh of six. *)
Fixpoint colon_fields (n : nat) (p : bytes) : list bytes * bytes :=
  match n with
  | O => ([], p)
  | S n =>
      match cut COLON p with
      | Some (a, q) => let '(fs, r) := colon_fields n q in (a :: fs, r)
      | None => ([], p)
      end
  end.
Definition passwd_fields (line : bytes) : list bytes :=
  let '(fs, r) := colon_fields 7 (cstr line) in
  if (length fs =? 6)%nat then fs ++ [take_while (not_c LF) r] else fs.

Record identity := Identity { i_uid : Z; i_gid : Z; i_home : bytes; i_shell : bytes }.

Fixpoint passwd_lines (username : bytes) (homelen shelllen : nat) (ls : list bytes) : option identity :=
  match ls with
  | [] => None
  | l :: ls =>
      match passwd_fields l with
      | [name; _; uid; gid; _; home; shell] =>
          if beq name username then Some (Identity (atoi uid) (atoi gid) (fit homelen home) (fit shelllen shell))
          else passwd_lines username homelen shelllen ls
      | _ => passwd_lines username homelen shelllen ls
      end
  end.

Definition auth_lookup_passwd (s : etc) (username : bytes) (homelen shelllen : nat) : option identity :=
  match data_of s PASSWD with
  | Some data => passwd_lines username homelen shelllen (fgets_lines 256 data)
  | None => None
  end.

Fixpoint shadow_lines (username : bytes) (hashlen : nat) (ls : list bytes) : option bytes :=
  match ls with
  | [] => None
  | l :: ls =>
      match cut COLON (take_while (not_c LF) (cstr l)) with
      | Some (name, h) => if beq name username then Some (fit hashlen (take_while (not_c COLON) h)) else shadow_lines username hashlen ls
      | None => shadow_lines username hashlen ls
      end
  end.

Definition auth_lookup_shadow (s : etc) (username : bytes) (hashlen : nat) : option bytes :=
  match data_of s SHADOW with
  | Some data => shadow_lines username hashlen (fgets_lines 1024 data)
  | None => None
  end.

Definition auth_verify (password hash : bytes) : bool :=
  match crypt password hash with Some computed => beq computed hash | None => false end.

Definition auth_check (s : etc) (username password : bytes) (homelen shelllen : nat) : option identity :=
  match auth_lookup_passwd s username homelen shelllen with
  | None => None
  | Some i =>
      match auth_lookup_shadow s username 256 with
      | None => None
      | Some hash => if auth_verify password hash then Some i else None
      end
  end.

(** ** libinstall *)

Definition is_lower_c (c : byte) : bool := (97 <=? c) && (c <=? 122).
Definition name_char (c : byte) : bool := is_lower_c c || is_decimal c || (c =? 95) || (c =? 45).
Definition install_username_valid (username : bytes) : bool :=
  match username with
  | [] => false
  | c :: _ => (is_lower_c c || (c =? 95)) && forallb name_char username && (length username <=? 31)%nat
  end.

Definition b64 : bytes := B "./0123456789ABCDEFGHIJKLMNOPQRSTUVWXYZabcdefghijklmnopqrstuvwxyz".

(** [random] are the bytes read from /dev/urandom, [None] where it does not open. *)
Definition generate_salt (random : option bytes) : option bytes :=
  match random with
  | None => None
  | Some r =>
      if (length r <? 12)%nat then None else
      Some ([36; 54; 36] ++ ((λ b, byte_at b64 (Z.to_nat (b mod 64))) <$> take 12 r) ++ [36])
  end.

Definition install_hash_password (random : option bytes) (password : bytes) (outsz : nat) : option bytes :=
  if (outsz <? 128)%nat then None else
  match generate_salt random with
  | None => None
  | Some salt => fit outsz <$> crypt password salt
  end.

(** A file written from the beginning. *)
Definition write_new (p : account_file) (line : bytes) : act bool :=
  ok ← open_trunc p;
  if negb ok then mret false else
  n ← write_end p line;
  mret (n =? length line)%nat.

Definition HOME : bytes := B "/home".
Definition home_of (username : bytes) : bytes := B "/home/" ++ username.

Definition install_make_home (home : bytes) (uid gid : Z) : act bool :=
  match home with
  | [] => mret false
  | _ =>
      _ ← mkdir_home HOME;
      ok ← mkdir_home home;
      if negb ok then mret false else
      ok ← chown home uid gid;
      if negb ok then mret false else
      ok ← mkdir_home (fit 128 (home ++ B "/Pictures"));
      _ ← (if (ok : bool) then chown (fit 128 (home ++ B "/Pictures")) uid gid else mret true);
      mret true
  end.

Definition SHADOW_TAIL : bytes := B ":19814:0:99999:7:::" ++ [LF].
Definition passwd_line (username uid gid shell : bytes) : bytes :=
  username ++ B ":x:" ++ uid ++ B ":" ++ gid ++ B ":" ++ username ++ B ":/home/" ++ username ++ B ":" ++ shell ++ [LF].
Definition shadow_line (username hash : bytes) : bytes := username ++ B ":" ++ hash ++ SHADOW_TAIL.

(** [admin_hash] is [None] for a null pointer.  Each line is written with the length
    that snprintf reports, which for a line that does not fit its buffer would be read
    past the buffer's end; the result is then [None]. *)
Definition install_write_credentials (username user_hash : bytes) (admin_hash : option bytes) : act (option bool) :=
  match username, user_hash with
  | [], _ | _, [] => mret (Some false)
  | _, _ =>
      let admin_hash := match admin_hash with Some (c :: h) => c :: h | _ => user_hash end in
      if negb (install_username_valid username) then mret (Some false) else
      let passwd := passwd_line username (B "0") (B "0") (B "/bin/stsh") in
      let shadow := shadow_line username user_hash in
      let group := username ++ B ":x:0:" ++ username ++ [LF] ++ B "wheel:x:999:" ++ username ++ [LF] in
      let admin := admin_hash ++ [LF] in
      if negb (fits 256 passwd) then mret None else
      ok ← write_new PASSWD passwd;
      if negb ok then mret (Some false) else
      if negb (fits 512 shadow) then mret None else
      ok ← write_new SHADOW shadow;
      if negb ok then mret (Some false) else
      if negb (fits 256 group) then mret None else
      ok ← write_new GROUP group;
      if negb ok then mret (Some false) else
      if negb (fits 256 admin) then mret None else
      ok ← write_new ADMIN admin;
      if negb ok then mret (Some false) else
      _ ← chmod SHADOW 384;
      _ ← chmod PASSWD 420;
      _ ← chmod GROUP 420;
      _ ← chmod ADMIN 384;
      _ ← install_make_home (fit 80 (home_of username)) 0 0;
      mret (Some true)
  end.

(** ** useradd *)

Definition UID_MIN : Z := 1000.
Definition DEFAULT_SHELL : bytes := B "/bin/stsh".

(** Whether the name is taken, and the highest uid from [UID_MIN] on. *)
Fixpoint scan_lines (username : bytes) (ls : list bytes) (taken : bool) (max_uid : Z) : bool * Z :=
  match ls with
  | [] => (taken, max_uid)
  | l :: ls =>
      match cut COLON (cstr l) with
      | None => scan_lines username ls taken max_uid
      | Some (name, p) =>
          let taken := taken || beq name username in
          match cut COLON p with
          | None => scan_lines username ls taken max_uid
          | Some (_, p) =>
              let uid := atoi p in
              scan_lines username ls taken (if (UID_MIN <=? uid) && (max_uid <? uid) then uid else max_uid)
          end
      end
  end.

Definition scan_passwd (s : etc) (username : bytes) : option (bool * Z) :=
  match data_of s PASSWD with
  | Some data => Some (scan_lines username (fgets_lines 512 data) false (UID_MIN - 1))
  | None => None
  end.

Definition append_line (p : account_file) (line : bytes) : act bool :=
  ok ← open_append p;
  if negb ok then mret false else
  n ← write_end p line;
  mret (n =? length line)%nat.

(** What is typed at the prompts: [None] for an empty line or the end of input. *)
Record useradd_args := UseraddArgs {
  u_make_home : bool; u_shell : bytes; u_username : option bytes; u_bad_option : bool;
  u_elevated : bool; u_password : option bytes; u_retyped : option bytes; u_random : option bytes
}.

(** The command line. *)
Fixpoint parse_args (args : list bytes) (a : useradd_args) : useradd_args :=
  match args with
  | [] => a
  | arg :: args =>
      if u_bad_option a then a else
      let with_home b := UseraddArgs b (u_shell a) (u_username a) (u_bad_option a) (u_elevated a) (u_password a) (u_retyped a) (u_random a) in
      let bad := UseraddArgs (u_make_home a) (u_shell a) (u_username a) true (u_elevated a) (u_password a) (u_retyped a) (u_random a) in
      if beq arg (B "-m") then parse_args args (with_home true) else
      if beq arg (B "-M") then parse_args args (with_home false) else
      match beq arg (B "-s"), args with
      | true, shell :: args =>
          parse_args args (UseraddArgs (u_make_home a) shell (u_username a) (u_bad_option a) (u_elevated a) (u_password a) (u_retyped a) (u_random a))
      | _, _ =>
          if starts_with (B "-") arg then bad else
          match u_username a with
          | None => parse_args args (UseraddArgs (u_make_home a) (u_shell a) (Some arg) (u_bad_option a) (u_elevated a) (u_password a) (u_retyped a) (u_random a))
          | Some _ => bad
          end
      end
  end.

Definition create_account (username shell hash : bytes) (uid : Z) (make_home : bool) : act Z :=
  let n := print_dec uid in
  ok ← append_line PASSWD (fit 600 (passwd_line username n n shell));
  if negb ok then mret 1 else
  ok ← append_line SHADOW (fit 600 (shadow_line username hash));
  if negb ok then mret 1 else
  ok ← append_line GROUP (fit 600 (username ++ B ":x:" ++ n ++ B ":" ++ [LF]));
  if negb ok then mret 1 else
  _ ← (if make_home then install_make_home (fit 80 (home_of username)) uid uid else mret true);
  mret 0.

(** The exit status of useradd. *)
Definition useradd (a : useradd_args) : act Z := λ s,
  if u_bad_option a then (2, s) else
  match u_username a with
  | None => (2, s)
  | Some username =>
      if negb (install_username_valid username) then (1, s) else
      if negb (u_elevated a) then (1, s) else
      match scan_passwd s username with
      | None | Some (true, _) => (1, s)
      | Some (false, max_uid) =>
          match u_password a, u_retyped a with
          | Some pw, Some confirm =>
              if negb (beq pw confirm) then (1, s) else
              match install_hash_password (u_random a) pw 256 with
              | None => (1, s)
              | Some hash => create_account username (u_shell a) hash (max_uid + 1) (u_make_home a) s
              end
          | _, _ => (1, s)
          end
      end
  end.

(** ** The administrator's credential *)

(** What login -elevate verifies against. *)
Definition is_trailing (c : byte) : bool := (c =? LF) || (c =? CR) || (c =? SP) || (c =? TAB).
Definition stored_admin (s : etc) : option bytes :=
  match data_of s ADMIN with
  | Some data => match take 255 data with [] => None | l => Some (cstr (rstrip is_trailing l)) end
  | None => None
  end.

(** The kernel elevates the caller when the password is right and it agrees. *)
Definition do_elevate (s : etc) (password : bytes) (kernel_allows : bool) : bool :=
  match stored_admin s with
  | None => false
  | Some stored => auth_verify (fit 128 password) stored && kernel_allows
  end.

(** adminpw: the new credential, after the current one was proved.  [current],
    [pw] and [confirm] are what is typed. *)
Definition adminpw (kernel_allows : bool) (current pw confirm : bytes) (random : option bytes) : act Z := λ s,
  match a_files s ADMIN with
  | None => (1, s)
  | Some _ =>
      if negb (do_elevate s current kernel_allows) then (1, s) else
      match pw with
      | [] => (1, s)
      | _ =>
          if negb (beq pw confirm) then (1, s) else
          match install_hash_password random pw 256 with
          | None => (1, s)
          | Some hash =>
              (ok ← open_trunc ADMIN;
               if negb ok then mret 1 else
               n ← write_end ADMIN (hash ++ [LF]);
               if negb (n =? length (hash ++ [LF]))%nat then mret 1 else
               _ ← chmod ADMIN 384;
               mret 0) s
          end
      end
  end.

(** ** login *)

Definition is_newline (c : byte) : bool := (c =? LF) || (c =? CR).

(** readline into a buffer of [len] bytes: the result and what is left of the input.
    At the end of input the buffer is left without a NUL. *)
Fixpoint readline_loop (k i : nat) (buf input : bytes) : Z * bytes * bytes :=
  match k with
  | O => (Z.of_nat i, <[i := NUL]> buf, input)
  | S k =>
      match input with
      | [] => ((if (0 <? i)%nat then Z.of_nat i else -1), buf, [])
      | c :: input =>
          if is_newline c then (Z.of_nat i, <[i := NUL]> buf, input)
          else readline_loop k (S i) (<[i := c]> buf) input
      end
  end.
Definition readline (buf input : bytes) : Z * bytes * bytes := readline_loop (length buf - 1) 0 buf input.

(** The password, with erasing; [rev] of what was typed so far. *)
Fixpoint read_secret (typed input : bytes) : bytes * bytes :=
  match input with
  | [] => (rev typed, [])
  | c :: rest =>
      if (127 <=? length typed)%nat then (rev typed, input) else
      if is_newline c then (rev typed, rest) else
      if (c =? 127) || (c =? 8) then read_secret (tail typed) rest
      else read_secret (c :: typed) rest
  end.

Record session := Session { se_user : bytes; se_identity : identity; se_argv0 : bytes; se_program : option bytes }.
Inductive login_end := Started (se : session) | Denied | Overrun | NoFuel.

(** The name of a login shell. *)
Definition base_name (shell : bytes) : bytes := rev (take_while (not_c SLASH) (rev shell)).
Definition login_name (shell : bytes) : bytes := 45 :: take 62 (base_name shell).

(** What execve runs: the shell, /bin/sh, or nothing. *)
Definition exec_shell (executable : bytes -> bool) (shell : bytes) : option bytes :=
  if executable shell then Some shell else if executable (B "/bin/sh") then Some (B "/bin/sh") else None.

Definition MAX_ATTEMPTS : nat := 3.

(** [left] attempts are left; also the names and passwords that were checked. *)
Fixpoint login_loop (fuel : nat) (s : etc) (executable : bytes -> bool) (left : nat) (buf input : bytes) : login_end * list (bytes * bytes) :=
  match left, fuel with
  | O, _ => (Denied, [])
  | _, O => (NoFuel, [])
  | S left', S fuel =>
      let '(n, buf, input) := readline buf input in
      if n <? 0 then login_loop fuel s executable left' buf input else
      if byte_at buf 0 =? NUL then login_loop fuel s executable left buf input else
      if negb (has_char NUL buf) then (Overrun, []) else
      let username := cstr buf in
      let '(password, input) := read_secret [] input in
      match auth_check s username (cstr password) 256 256 with
      | None => let '(r, tried) := login_loop fuel s executable left' buf input in (r, (username, cstr password) :: tried)
      | Some i => (Started (Session username i (login_name (i_shell i)) (exec_shell executable (i_shell i))), [(username, cstr password)])
      end
  end.

(** [stack]: what the buffer for the name holds at first. *)
Definition login (s : etc) (executable : bytes -> bool) (stack input : bytes) : login_end * list (bytes * bytes) :=
  login_loop (S (length input + MAX_ATTEMPTS)) s executable MAX_ATTEMPTS stack input.

End Accounts.
