(* ===== verification/AccountsSafety.v ===== *)
(** Accounts: what was written can be read back, new accounts leave the others alone,
    and a shell is started only for a password that was checked. *)

From S2P Require Import Prelude CString Posix PosixLogic Accounts.
Local Open Scope Z_scope.

(** * Definitions *)

(** A text of whole lines that a buffer of [n] bytes holds. *)
Definition line_ok (n : nat) (l : bytes) : Prop := LF ∉ l /\ NUL ∉ l /\ (S (length l) < n)%nat.
Definition text_of (ls : list bytes) : bytes := concat ((λ l, l ++ [LF]) <$> ls).

(** A value that can stand in a field. *)
Definition field_ok (f : bytes) : Prop := COLON ∉ f /\ LF ∉ f /\ NUL ∉ f.

(** A byte does not occur in a literal. *)
Ltac absent := refine (bool_decide_unpack _ _); vm_compute; exact I.

(** What crypt makes a hash of: printable characters, no colon. *)
Definition hash_ok (h : bytes) : Prop := h <> [] /\ (forall c, c ∈ h -> 33 <= c < 127 /\ c <> COLON) /\ (length h < 200)%nat.

(** * Lines *)

Lemma fgets_lines_text n ls s : (1 < n)%nat -> Forall (line_ok n) ls -> fgets_lines n (text_of ls ++ s) = ((λ l, l ++ [LF]) <$> ls) ++ fgets_lines n s.
Proof.
  intros Hn H. unfold text_of. induction H as [|l ls (H1 & _ & H2) _ IH]; [done|]. cbn [fmap list_fmap concat app]. rewrite <- !app_assoc. cbn [app].
  rewrite fgets_lines_cons by done. f_equal. exact IH.
Qed.

Lemma text_of_snoc ls l : text_of (ls ++ [l]) = text_of ls ++ l ++ [LF].
Proof. unfold text_of. rewrite fmap_app, concat_app. cbn. by rewrite app_nil_r. Qed.

(** * Fields *)

Lemma cut_app a s : COLON ∉ a -> cut COLON (a ++ COLON :: s) = Some (a, s).
Proof. intros H. by apply cut_spec. Qed.

Lemma cstr_app_line l : NUL ∉ l -> cstr (l ++ [LF]) = l ++ [LF].
Proof. intros H. apply cstr_id. intros [Hx|Hx]%elem_of_app; [done|]. by apply list_elem_of_singleton in Hx. Qed.

Lemma colon_fields_join n a s : COLON ∉ a -> colon_fields (S n) (a ++ COLON :: s) = let '(fs, r) := colon_fields n s in (a :: fs, r).
Proof. intros H. cbn [colon_fields]. by rewrite cut_app. Qed.

Lemma colon_fields_end n s : COLON ∉ s -> colon_fields (S n) s = ([], s).
Proof. intros H. cbn [colon_fields]. by rewrite (proj2 (cut_None COLON s) H). Qed.

Lemma join_without c x ws : x <> c -> Forall (λ w, x ∉ w) ws -> x ∉ join c ws.
Proof.
  intros Hc H. induction H as [|w ws Hw Hws IH]; [by apply not_elem_of_nil|]. cbn [join]. destruct ws as [|w' ws]; [done|].
  intros [Hx|Hx]%elem_of_app; [done|]. by apply elem_of_cons in Hx as [->|Hx].
Qed.

(** A line of seven fields is read back. *)
Lemma passwd_fields_line f1 f2 f3 f4 f5 f6 f7 : field_ok f1 -> field_ok f2 -> field_ok f3 -> field_ok f4 -> field_ok f5 -> field_ok f6 -> field_ok f7 ->
  passwd_fields (join COLON [f1; f2; f3; f4; f5; f6; f7] ++ [LF]) = [f1; f2; f3; f4; f5; f6; f7].
Proof.
  intros H1 H2 H3 H4 H5 H6 H7. unfold passwd_fields. rewrite cstr_app_line.
  2: { apply join_without; [done|]. repeat constructor; by apply H1 || apply H2 || apply H3 || apply H4 || apply H5 || apply H6 || apply H7. }
  cbn [join]. repeat (rewrite <- ?app_assoc; cbn [app]; rewrite colon_fields_join by apply H1 || apply H2 || apply H3 || apply H4 || apply H5 || apply H6).
  rewrite colon_fields_end; [|intros [Hx|Hx]%elem_of_app; [exact (proj1 H7 Hx)|by apply list_elem_of_singleton in Hx]]. cbn [length Nat.eqb app].
  do 7 f_equal. unfold take_while. rewrite span_true by (apply Forall_not_c, H7). cbn. by rewrite app_nil_r.
Qed.

(** ** Numbers *)

Lemma atoi_colon f s : COLON ∉ f -> atoi (f ++ COLON :: s) = atoi f.
Proof.
  intros Hf. unfold atoi.
  assert (Hd : drop_while is_atoi_space (f ++ COLON :: s) = drop_while is_atoi_space f ++ COLON :: s /\ COLON ∉ drop_while is_atoi_space f).
  { induction f as [|c f IH]; [done|]. apply not_elem_of_cons in Hf as [Hc Hf]. unfold drop_while in *. cbn [app span]. destruct (is_atoi_space c).
    - destruct (IH Hf) as [E Hn]. destruct (span is_atoi_space (f ++ COLON :: s)) as [a b], (span is_atoi_space f) as [a' b']. done.
    - split; [done|]. by apply not_elem_of_cons. }
  destruct Hd as [-> Hn]. set (t := drop_while is_atoi_space f) in *. clearbody t.
  assert (Htake : forall u, COLON ∉ u -> take_while is_decimal (u ++ COLON :: s) = take_while is_decimal u).
  { induction u as [|c u IH]; intros Hu; [done|]. apply not_elem_of_cons in Hu as [_ Hu]. specialize (IH Hu). unfold take_while in *. cbn [app span]. destruct (is_decimal c); [|done].
    destruct (span is_decimal (u ++ COLON :: s)), (span is_decimal u). cbn in *. by rewrite IH. }
  destruct t as [|c t]; [done|]. apply not_elem_of_cons in Hn as [Hc Hn]. cbn [app]. destruct (c =? 45); [by rewrite Htake|]. destruct (c =? 43); [by rewrite Htake|].
  rewrite (app_comm_cons t). rewrite Htake; [done|]. by apply not_elem_of_cons.
Qed.

Lemma dec_digits_value fuel n acc : 0 <= n < 10 ^ Z.of_nat fuel -> (0 < fuel)%nat -> exists ds, dec_digits fuel n acc = ds ++ acc /\ ds <> [] /\ (length ds <= fuel)%nat /\
  Forall (λ c, is_decimal c = true) ds /\ forall v, foldl (λ v c, 10 * v + (c - 48)) v ds = v * 10 ^ Z.of_nat (length ds) + n.
Proof.
  revert n acc. induction fuel as [|fuel IH]; intros n acc Hn Hf; [lia|]. cbn [dec_digits]. pose proof (Z.mod_pos_bound n 10 ltac:(lia)) as Hm.
  assert (Hd : is_decimal (48 + n mod 10) = true) by (unfold is_decimal; lia). destruct (Z.ltb_spec n 10) as [Hlt|Hge].
  - exists [48 + n mod 10]. split; [done|]. split; [done|]. split; [cbn; lia|]. split; [by constructor|]. intros v. cbn [foldl length]. rewrite Z.mod_small by lia. lia.
  - rewrite Nat2Z.inj_succ, Z.pow_succ_r in Hn by lia. assert (Hq : 0 <= n / 10 < 10 ^ Z.of_nat fuel) by (split; [apply Z.div_pos; lia|apply Z.div_lt_upper_bound; lia]).
    destruct fuel as [|fuel]; [cbn in Hn; lia|]. destruct (IH (n / 10) (48 + n mod 10 :: acc) Hq ltac:(lia)) as (ds & -> & _ & Hl & Hall & Hv). exists (ds ++ [48 + n mod 10]).
    split; [by rewrite <- app_assoc|]. split; [by destruct ds|]. split; [rewrite length_app; cbn [length]; lia|]. split; [apply Forall_app; split; [done|by constructor]|].
    intros v. rewrite foldl_app, Hv. cbn [foldl]. rewrite length_app. cbn [length]. rewrite Nat.add_1_r, Nat2Z.inj_succ, Z.pow_succ_r by lia. pose proof (Z.div_mod n 10 ltac:(lia)). lia.
Qed.

Lemma take_while_none p c s : p c = false -> take_while p (c :: s) = [].
Proof. intros H. unfold take_while. cbn [span]. by rewrite H. Qed.

Lemma print_dec_field n : 0 <= n < 2 ^ 31 -> field_ok (print_dec n) /\ (length (print_dec n) <= 20)%nat /\ atoi (print_dec n) = n.
Proof.
  intros Hn. unfold print_dec. rewrite (proj2 (Z.ltb_ge n 0)) by lia. destruct (dec_digits_value 20 n [] ltac:(lia) ltac:(lia)) as (ds & -> & Hne & Hl & Hall & Hv). rewrite app_nil_r.
  assert (Hx : forall x, x ∈ ds -> 48 <= x <= 57) by (intros x Hx; rewrite Forall_forall in Hall; specialize (Hall x Hx); unfold is_decimal in Hall; lia).
  split. { split_and!; intros Hin; specialize (Hx _ Hin); unfold COLON, LF, NUL in Hx; lia. }
  split; [done|]. unfold atoi. destruct ds as [|c ds]; [done|]. assert (Hc : 48 <= c <= 57) by (apply Hx; left).
  assert (Hsp : drop_while is_atoi_space (c :: ds) = c :: ds) by (unfold drop_while; rewrite span_stop; [done|]; unfold is_atoi_space; lia).
  rewrite Hsp, (proj2 (Z.eqb_neq c 45)), (proj2 (Z.eqb_neq c 43)) by lia. rewrite take_while_id by done. rewrite Hv. apply i32_small. unfold in_i32. lia.
Qed.

(** * Looking up *)

Lemma passwd_lines_app u hl sl ls ls' :
  passwd_lines u hl sl (ls ++ ls') = match passwd_lines u hl sl ls with Some i => Some i | None => passwd_lines u hl sl ls' end.
Proof.
  induction ls as [|l ls IH]; [done|]. cbn [app passwd_lines]. destruct (passwd_fields l) as [|? [|? [|? [|? [|? [|? [|? [|]]]]]]]]; try apply IH. destruct (beq _ _); [done|apply IH].
Qed.

Lemma shadow_lines_app u hl ls ls' : shadow_lines u hl (ls ++ ls') = match shadow_lines u hl ls with Some h => Some h | None => shadow_lines u hl ls' end.
Proof. induction ls as [|l ls IH]; [done|]. cbn [app shadow_lines]. destruct (cut _ _) as [[a h]|]; [|apply IH]. destruct (beq _ _); [done|apply IH]. Qed.

(** A valid name is a field, and not long. *)
Lemma username_field u : install_username_valid u = true -> field_ok u /\ (length u <= 31)%nat /\ u <> [].
Proof.
  unfold install_username_valid. destruct u as [|c u]; [done|]. intros H. boolify. rewrite forallb_forall in H1. split; [|done].
  assert (Hx : forall x, x ∈ c :: u -> name_char x = true) by (intros x Hx; apply H1; by apply list_elem_of_In).
  split_and!; intros Hin; specialize (Hx _ Hin); by vm_compute in Hx.
Qed.

Lemma passwd_line_join u uid gid shell : passwd_line u uid gid shell = join COLON [u; B "x"; uid; gid; u; home_of u; shell] ++ [LF].
Proof.
  unfold passwd_line, home_of. change (B ":x:") with (COLON :: B "x" ++ [COLON]). change (B ":") with [COLON]. change (B ":/home/") with (COLON :: B "/home/").
  cbn [join]. repeat (rewrite <- app_assoc; cbn [app]). done.
Qed.

Lemma field_x : field_ok (B "x").
Proof. split_and!; absent. Qed.

Lemma home_field u : field_ok u -> field_ok (home_of u).
Proof.
  intros (H1 & H2 & H3). assert (field_ok (B "/home/")) as (P1 & P2 & P3) by (split_and!; absent). unfold home_of.
  split_and!; (intros [Hx|Hx]%elem_of_app; done).
Qed.

(** Looking up in the line of an account. *)
Lemma passwd_lines_entry u u' uid gid shell hl sl : field_ok u' -> field_ok uid -> field_ok gid -> field_ok shell ->
  passwd_lines u hl sl [passwd_line u' uid gid shell] =
  if beq u' u then Some (Identity (atoi uid) (atoi gid) (fit hl (home_of u')) (fit sl shell)) else None.
Proof.
  intros Hu Huid Hgid Hsh. cbn [passwd_lines]. rewrite passwd_line_join, passwd_fields_line; [by destruct (beq u' u)|done|apply field_x|done|done|done|by apply home_field|done].
Qed.

Lemma tail_fields : field_ok [] /\ NUL ∉ SHADOW_TAIL.
Proof. split; [split_and!; by apply not_elem_of_nil|absent]. Qed.

Lemma shadow_lines_entry u u' hash hl : field_ok u' -> field_ok hash ->
  shadow_lines u hl [shadow_line u' hash] = if beq u' u then Some (fit hl hash) else None.
Proof.
  intros (U1 & U2 & U3) (H1 & H2 & H3). cbn [shadow_lines]. unfold shadow_line.
  set (tail := B ":19814:0:99999:7:::"). assert (Ht : LF ∉ tail) by (absent). assert (Htn : NUL ∉ tail) by (absent).
  assert (Hb : u' ++ B ":" ++ hash ++ SHADOW_TAIL = (u' ++ COLON :: hash ++ tail) ++ [LF]) by (unfold SHADOW_TAIL; fold tail; rewrite <- !app_assoc; cbn [app]; by rewrite <- app_assoc).
  assert (Hn : NUL ∉ u' ++ COLON :: hash ++ tail).
  { intros [Hx|Hx]%elem_of_app; [done|]. apply elem_of_cons in Hx as [Hx|Hx]; [done|]. apply elem_of_app in Hx as [Hx|Hx]; done. }
  assert (Hl : LF ∉ u' ++ COLON :: hash ++ tail).
  { intros [Hx|Hx]%elem_of_app; [done|]. apply elem_of_cons in Hx as [Hx|Hx]; [done|]. apply elem_of_app in Hx as [Hx|Hx]; done. }
  rewrite Hb, cstr_app_line by done. unfold take_while at 1. rewrite span_true by (by apply Forall_not_c). cbn [fst]. unfold take_while at 1. rewrite span_stop by done. cbn [fst]. rewrite app_nil_r.
  rewrite cut_app by done. assert (Hh : take_while (not_c COLON) (hash ++ tail) = hash).
  { unfold take_while. rewrite span_true by (by apply Forall_not_c). unfold tail. cbn. by rewrite app_nil_r. }
  rewrite Hh. by destruct (beq u' u).
Qed.

(** * Calls *)

Section Calls.

Context (fate : nat -> fate_t).

Lemma data_set_file p f s p' : data_of (set_file p f s) p' = if decide (p = p') then Some (af_data f) else data_of s p'.
Proof. unfold data_of, set_file, a_files. destruct (a_set s) as [a b c d] eqn:E. destruct p, p'; cbn; rewrite ?E; done. Qed.

Lemma write_end_spec p bs s n s' : write_end fate p bs s = (n, s') -> (n <= length bs)%nat /\ (forall p', p' <> p -> data_of s' p' = data_of s p') /\
  (forall old, data_of s p = Some old -> data_of s' p = Some (old ++ take n bs)).
Proof.
  unfold write_end. intros E. assert (Hno : (0%nat, tick s) = (n, s') -> (n <= length bs)%nat /\ (forall p', p' <> p -> data_of s' p' = data_of s p') /\ (forall old, data_of s p = Some old -> data_of s' p = Some (old ++ take n bs))).
  { intros [= <- <-]. split; [lia|]. split; [done|]. intros old H. by rewrite take_0, app_nil_r. }
  destruct (a_files s p) as [f|] eqn:Ef; [|destruct (fate (a_tick s)); by apply Hno].
  assert (Hyes : forall k, (k <= length bs)%nat -> (k, set_file p (AFile (af_mode f) (af_data f ++ take k bs)) (tick s)) = (n, s') ->
    (n <= length bs)%nat /\ (forall p', p' <> p -> data_of s' p' = data_of s p') /\ (forall old, data_of s p = Some old -> data_of s' p = Some (old ++ take n bs))).
  { intros k Hk [= <- <-]. split; [done|]. split; [intros p' Hp; rewrite data_set_file; by rewrite decide_False by done|].
    intros old H. unfold data_of in H. rewrite Ef in H. injection H as <-. by rewrite data_set_file, decide_True by done. }
  destruct (fate (a_tick s)) as [| |k]; [|by apply Hno|].
  - apply (Hyes (length bs)); [done|]. by rewrite firstn_all.
  - apply (Hyes (Nat.min k (length bs))); [lia|]. exact E.
Qed.

Lemma write_new_spec p l s ok s' : write_new fate p l s = (ok, s') -> (forall p', p' <> p -> data_of s' p' = data_of s p') /\ (ok = true -> data_of s' p = Some l).
Proof.
  unfold write_new, open_trunc, call. unfold mbind, act_bind, mret, act_ret. destruct (fate (a_tick s)) as [| |k] eqn:Ef; cbn [negb];
    try (intros [= <- <-]; split; [done|intros [=]]);
    (match goal with |- context [write_end fate p l ?s0] => set (s1 := s0); destruct (write_end fate p l s1) as [n s2] eqn:Ew end; intros [= <- <-];
     destruct (write_end_spec _ _ _ _ _ Ew) as (Hn & Hother & Hd); split;
     [intros p' Hp; rewrite Hother by done; unfold s1; rewrite data_set_file; by rewrite decide_False by done|]; intros Hl; apply Nat.eqb_eq in Hl;
     rewrite (Hd []) by (unfold s1; rewrite data_set_file; by rewrite decide_True by done); cbn [app]; by rewrite take_ge by lia).
Qed.

(** Whatever becomes of it, appending keeps what the file held. *)
Lemma append_line_spec p l s ok s' : append_line fate p l s = (ok, s') -> (forall p', p' <> p -> data_of s' p' = data_of s p') /\
  (forall old, data_of s p = Some old -> exists n, data_of s' p = Some (old ++ take n l) /\ (ok = true -> n = length l)).
Proof.
  unfold append_line, open_append, call. unfold mbind, act_bind, mret, act_ret. destruct (fate (a_tick s)) as [| |k] eqn:Ef; cbn [negb];
    try (intros [= <- <-]; split; [done|]; intros old H; exists 0%nat; split; [by rewrite take_0, app_nil_r|intros [=]]);
    (match goal with |- context [write_end fate p l ?s0] => set (s1 := s0); destruct (write_end fate p l s1) as [n s2] eqn:Ew end; intros [= <- <-];
     destruct (write_end_spec _ _ _ _ _ Ew) as (Hn & Hother & Hd);
     assert (Hs1 : (forall p', p' <> p -> data_of s1 p' = data_of s p') /\ (forall old, data_of s p = Some old -> data_of s1 p = Some old)) by
       (unfold s1; change (a_files (tick s) p) with (a_files s p); destruct (a_files s p) eqn:Ep; [done|]; split; [intros p' Hp; rewrite data_set_file; by rewrite decide_False by done|];
        intros old H; unfold data_of in H; by rewrite Ep in H);
     destruct Hs1 as [Hs1 Hs1']; split; [intros p' Hp; rewrite Hother by done; by apply Hs1|]; intros old H; exists n; split; [apply Hd; by apply Hs1'|]; by intros Hl%Nat.eqb_eq).
Qed.

Lemma call_data {A} (f : etc -> A * etc) (failed : A) s r s' : (forall s0 p, data_of (f s0).2 p = data_of s0 p) -> call fate f failed s = (r, s') -> forall p, data_of s' p = data_of s p.
Proof.
  intros Hf. unfold call. destruct (fate (a_tick s)); intros E p; [|by injection E as _ <-|]; (change (data_of s p) with (data_of (tick s) p); rewrite <- (Hf (tick s) p); by rewrite E).
Qed.

Lemma chmod_data p mode s r s' : chmod fate p mode s = (r, s') -> forall p', data_of s' p' = data_of s p'.
Proof.
  apply call_data. intros s0 p'. cbn [snd]. destruct (a_files s0 p) as [f|] eqn:Ef; [|done]. rewrite data_set_file. case_decide as Hp; [|done]. subst. unfold data_of. by rewrite Ef.
Qed.

Lemma mkdir_data p s r s' : mkdir_home fate p s = (r, s') -> forall p', data_of s' p' = data_of s p'.
Proof. apply call_data. intros s0 p'. cbn [snd]. by destruct (a_homes s0 p). Qed.

Lemma chown_data p uid gid s r s' : chown fate p uid gid s = (r, s') -> forall p', data_of s' p' = data_of s p'.
Proof. apply call_data. intros s0 p'. by destruct (a_homes s0 p). Qed.

(** Making a home leaves the account files alone. *)
Lemma make_home_data home uid gid s r s' : install_make_home fate home uid gid s = (r, s') -> forall p, data_of s' p = data_of s p.
Proof.
  unfold install_make_home. destruct home as [|c home]; [by intros [= <- <-]|]. unfold mbind, act_bind, mret, act_ret.
  destruct (mkdir_home fate HOME s) as [r1 s1] eqn:E1. pose proof (mkdir_data _ _ _ _ E1) as D1. destruct (mkdir_home fate (c :: home) s1) as [r2 s2] eqn:E2. pose proof (mkdir_data _ _ _ _ E2) as D2.
  destruct r2; cbn [negb]; [|intros [= <- <-] p; by rewrite D2, D1]. destruct (chown fate (c :: home) uid gid s2) as [r3 s3] eqn:E3. pose proof (chown_data _ _ _ _ _ _ E3) as D3.
  destruct r3; cbn [negb]; [|intros [= <- <-] p; by rewrite D3, D2, D1]. destruct (mkdir_home fate _ s3) as [r4 s4] eqn:E4. pose proof (mkdir_data _ _ _ _ E4) as D4.
  destruct r4; [|intros [= <- <-] p; by rewrite D4, D3, D2, D1]. destruct (chown fate _ uid gid s4) as [r5 s5] eqn:E5. pose proof (chown_data _ _ _ _ _ _ E5) as D5.
  intros [= <- <-] p. by rewrite D5, D4, D3, D2, D1.
Qed.

End Calls.

(** * Creating the first account *)

Lemma fit_short n (s : bytes) : (length s < n)%nat -> fit n s = s.
Proof. apply fit_id. Qed.

Section Theorems.

Context (fate : nat -> fate_t) (crypt : bytes -> bytes -> option bytes).

(** What is in the files once the credentials are written. *)
Lemma write_credentials_files u hash admin s s' : install_write_credentials fate u hash admin s = (Some true, s') ->
  install_username_valid u = true /\ data_of s' PASSWD = Some (passwd_line u (B "0") (B "0") (B "/bin/stsh")) /\ (length (passwd_line u (B "0") (B "0") (B "/bin/stsh")) < 256)%nat /\
  data_of s' SHADOW = Some (shadow_line u hash) /\ (length (shadow_line u hash) < 512)%nat /\
  data_of s' ADMIN = Some (match admin with Some (c :: h) => c :: h | _ => hash end ++ [LF]) /\ (length (match admin with Some (c :: h) => c :: h | _ => hash end) < 255)%nat.
Proof.
  unfold install_write_credentials. destruct u as [|uc ur]; [intros [=]|]. destruct hash as [|hc hr]; [intros [=]|]. set (u := uc :: ur). set (hash := hc :: hr).
  cbv zeta. set (adm := match admin with Some (c :: h) => c :: h | _ => hash end). destruct (install_username_valid u) eqn:Eu; cbn [negb]; [|intros [=]].
  unfold mbind, act_bind, mret, act_ret. unfold fits.
  destruct (_ <? 256)%nat eqn:Lp; cbn [negb]; [|intros [=]]. apply Nat.ltb_lt in Lp. destruct (write_new fate PASSWD _ s) as [ok1 s1] eqn:E1. destruct (write_new_spec _ _ _ _ _ _ E1) as [O1 D1]. destruct ok1; cbn [negb]; [|intros [=]].
  destruct (_ <? 512)%nat eqn:Ls; cbn [negb]; [|intros [=]]. destruct (write_new fate SHADOW _ s1) as [ok2 s2] eqn:E2. destruct (write_new_spec _ _ _ _ _ _ E2) as [O2 D2]. destruct ok2; cbn [negb]; [|intros [=]].
  destruct (_ <? 256)%nat; cbn [negb]; [|intros [=]]. destruct (write_new fate GROUP _ s2) as [ok3 s3] eqn:E3. destruct (write_new_spec _ _ _ _ _ _ E3) as [O3 D3]. destruct ok3; cbn [negb]; [|intros [=]].
  destruct (_ <? 256)%nat eqn:La; cbn [negb]; [|intros [=]]. destruct (write_new fate ADMIN _ s3) as [ok4 s4] eqn:E4. destruct (write_new_spec _ _ _ _ _ _ E4) as [O4 D4]. destruct ok4; cbn [negb]; [|intros [=]].
  destruct (chmod fate SHADOW 384 s4) as [? s5] eqn:E5. destruct (chmod fate PASSWD 420 s5) as [? s6] eqn:E6. destruct (chmod fate GROUP 420 s6) as [? s7] eqn:E7. destruct (chmod fate ADMIN 384 s7) as [? s8] eqn:E8.
  destruct (install_make_home fate _ 0 0 s8) as [? s9] eqn:E9. intros [= <-].
  assert (Hk : forall p, data_of s9 p = data_of s4 p).
  { intros p. rewrite (make_home_data _ _ _ _ _ _ _ E9), (chmod_data _ _ _ _ _ _ E8), (chmod_data _ _ _ _ _ _ E7), (chmod_data _ _ _ _ _ _ E6), (chmod_data _ _ _ _ _ _ E5). done. }
  apply Nat.ltb_lt in Ls, La. rewrite !Hk. split; [done|]. split; [rewrite O4, O3, O2 by done; by apply D1|]. split; [exact Lp|]. split; [rewrite O4, O3 by done; by apply D2|]. split; [exact Ls|].
  split; [by apply D4|]. change (length adm < 255)%nat. rewrite length_app in La. change (length [LF]) with 1%nat in La. lia.
Qed.

Lemma hash_field h : hash_ok h -> field_ok h.
Proof. intros (_ & H & _). split_and!; intros Hx; specialize (H _ Hx); unfold COLON, LF, NUL in H; lia. Qed.

(** The one line of a file. *)
Lemma fgets_one n l : LF ∉ l -> (length (l ++ [LF]) < n)%nat -> fgets_lines n (l ++ [LF]) = [l ++ [LF]].
Proof. intros Hl Hn. rewrite length_app in Hn. cbn [length] in Hn. by rewrite fgets_lines_cons by (done || lia). Qed.

Lemma passwd_line_body u uid gid shell : field_ok u -> field_ok uid -> field_ok gid -> field_ok shell -> exists l, passwd_line u uid gid shell = l ++ [LF] /\ LF ∉ l /\ NUL ∉ l.
Proof.
  intros Hu H1 H2 H3. rewrite passwd_line_join. eexists. split; [done|]. pose proof field_x as Hx. pose proof (home_field u Hu) as Hh. unfold field_ok in *. destruct_and!.
  split; (apply join_without; [done|]); repeat constructor; done.
Qed.

Lemma shadow_line_body u hash : field_ok u -> field_ok hash -> exists l, shadow_line u hash = l ++ [LF] /\ LF ∉ l /\ NUL ∉ l.
Proof.
  intros (U1 & U2 & U3) (H1 & H2 & H3). exists (u ++ B ":" ++ hash ++ B ":19814:0:99999:7:::"). split; [unfold shadow_line, SHADOW_TAIL; by rewrite <- !app_assoc|].
  split; (intros Hx; apply elem_of_app in Hx as [Hx|Hx]; [done|]; apply elem_of_app in Hx as [Hx|Hx]; [revert Hx; absent|];
    apply elem_of_app in Hx as [Hx|Hx]; [done|revert Hx; absent]).
Qed.

Lemma hash_stored h : hash_ok h -> (length h < 255)%nat -> cstr (rstrip is_trailing (take 255 (h ++ [LF]))) = h.
Proof.
  intros (Hne & Hc & _) Hl. rewrite take_ge by (rewrite length_app; cbn; lia). unfold rstrip. rewrite rev_app_distr. cbn [rev app].
  assert (Hd : drop_while is_trailing (LF :: rev h) = rev h).
  { unfold drop_while. cbn [span]. change (is_trailing LF) with true. cbn iota. destruct (rev h) as [|c r] eqn:Er; [done|]. assert (Hin : c ∈ h) by (apply elem_of_rev; rewrite Er; left).
    destruct (Hc c Hin) as [Hc1 _]. rewrite span_stop; [done|]. unfold is_trailing, LF, CR, SP, TAB. lia. }
  rewrite Hd, rev_involutive. apply cstr_id. intros Hx. destruct (Hc _ Hx). unfold NUL in *. lia.
Qed.

(** C17: The credentials the installer writes let the user in, and nobody else: checking
    a password for the name succeeds exactly if crypt accepts it, with user and group 0
    and the home directory made; every other name is refused; and elevation accepts the
    administrator's password, or the user's where none was chosen. *)
Theorem credentials_log_in u hash admin s s' : install_write_credentials fate u hash admin s = (Some true, s') -> hash_ok hash -> hash_ok (match admin with Some (c :: h) => c :: h | _ => hash end) ->
  (forall pw, auth_check crypt s' u pw 256 256 = if auth_verify crypt pw hash then Some (Identity 0 0 (home_of u) (B "/bin/stsh")) else None) /\
  (forall u' pw, u' <> u -> auth_check crypt s' u' pw 256 256 = None) /\
  (forall pw allows, do_elevate crypt s' pw allows = auth_verify crypt (fit 128 pw) (match admin with Some (c :: h) => c :: h | _ => hash end) && allows).
Proof.
  intros E Hh Ha. destruct (write_credentials_files _ _ _ _ _ E) as (Hu & Dp & Lp & Ds & Ls & Da & La). destruct (username_field u Hu) as (Fu & Hul & _). pose proof (hash_field _ Hh) as Fh.
  assert (F0 : field_ok (B "0")) by (split_and!; absent). assert (Fs : field_ok (B "/bin/stsh")) by (split_and!; absent).
  assert (Hpl : forall u', passwd_lines u' 256 256 (fgets_lines 256 (passwd_line u (B "0") (B "0") (B "/bin/stsh"))) = if beq u u' then Some (Identity 0 0 (home_of u) (B "/bin/stsh")) else None).
  { intros u'. destruct (passwd_line_body u _ _ _ Fu F0 F0 Fs) as (l & El & Hl & _). rewrite El in Lp |- *. rewrite fgets_one by done. rewrite <- El. rewrite passwd_lines_entry by done.
    rewrite (fit_id 256 (home_of u)) by (unfold home_of; rewrite length_app; change (length (B "/home/")) with 6%nat; lia). done. }
  assert (Hsl : forall u', shadow_lines u' 256 (fgets_lines 1024 (shadow_line u hash)) = if beq u u' then Some hash else None).
  { intros u'. destruct (shadow_line_body u hash Fu Fh) as (l & El & Hl & _). rewrite El in Ls |- *. rewrite fgets_one by (done || lia). rewrite <- El. rewrite shadow_lines_entry by done.
    destruct Hh as (_ & _ & Hh). by rewrite fit_id by lia. }
  unfold auth_check, auth_lookup_passwd, auth_lookup_shadow. rewrite Dp, Ds. split; [|split].
  - intros pw. rewrite Hpl, Hsl, beq_refl. done.
  - intros u' pw Hne. rewrite Hpl. destruct (beq u u') eqn:Eb; [|done]. apply beq_true in Eb. by subst.
  - intros pw allows. unfold do_elevate, stored_admin. rewrite Da. destruct (take 255 _) eqn:Et; [|rewrite <- Et; by rewrite hash_stored].
    exfalso. apply (f_equal length) in Et. rewrite length_take, length_app in Et. cbn [length] in Et. lia.
Qed.

(** * Further accounts *)

(** The first three fields are what scan_passwd looks at. *)
Lemma passwd_fields_cut l n f2 uid rest : passwd_fields l = n :: f2 :: uid :: rest -> length rest = 4%nat ->
  exists p1 p2 p3, cut COLON (cstr l) = Some (n, p1) /\ cut COLON p1 = Some (f2, p2) /\ cut COLON p2 = Some (uid, p3).
Proof.
  unfold passwd_fields. cbn [colon_fields]. destruct (cut COLON (cstr l)) as [[a1 p1]|] eqn:E1; [|cbn; intros [=]].
  destruct (cut COLON p1) as [[a2 p2]|] eqn:E2; [|cbn; intros [=]]. destruct (cut COLON p2) as [[a3 p3]|] eqn:E3; [|cbn; intros [=]].
  destruct (match cut COLON p3 with Some (a, q) => _ | None => _ end) as [fs r] eqn:E4. intros E Hr. exists p1, p2, p3.
  destruct (length (a1 :: a2 :: a3 :: fs) =? 6)%nat; cbn [app] in E; injection E as -> -> -> _; done.
Qed.

Lemma scan_lines_spec u ls taken mx mx' : scan_lines u ls taken mx = (false, mx') ->
  taken = false /\ mx <= mx' /\ (forall hl sl i, passwd_lines u hl sl ls = Some i -> False) /\
  (forall u' hl sl i, passwd_lines u' hl sl ls = Some i -> i_uid i < UID_MIN \/ i_uid i <= mx').
Proof.
  revert taken mx. induction ls as [|l ls IH]; intros taken mx E; cbn [scan_lines] in E; [injection E as -> ->; split; [done|]; split; [lia|done]|].
  destruct (cut COLON (cstr l)) as [[n p]|] eqn:E1.
  2: { destruct (IH _ _ E) as (H1 & H2 & H3 & H4). split; [done|]. split; [done|].
       assert (Hno : forall v hl sl, passwd_lines v hl sl (l :: ls) = passwd_lines v hl sl ls).
       { intros v hl sl. cbn [passwd_lines]. destruct (passwd_fields l) as [|? [|? [|? [|? [|? [|? [|? [|]]]]]]]] eqn:Ef; try done.
         destruct (passwd_fields_cut _ _ _ _ _ Ef eq_refl) as (? & ? & ? & Ec & _). congruence. }
       split; intros *; rewrite Hno; eauto. }
  set (mx1 := match cut COLON p with Some (_, p0) => if (UID_MIN <=? atoi p0) && (mx <? atoi p0) then atoi p0 else mx | None => mx end).
  assert (E' : scan_lines u ls (taken || beq n u) mx1 = (false, mx')) by (unfold mx1; destruct (cut COLON p) as [[? ?]|]; done). clear E.
  destruct (IH _ _ E') as (H1 & H2 & H3 & H4). apply orb_false_iff in H1 as [-> Hn]. assert (Hmx : mx <= mx1) by (unfold mx1; destruct (cut COLON p) as [[? ?]|]; [|lia]; destruct (_ && _) eqn:Eb; [boolify; lia|lia]).
  split; [done|]. split; [lia|]. split.
  - intros hl sl i. cbn [passwd_lines]. destruct (passwd_fields l) as [|n' [|f2 [|uid [|f4 [|f5 [|f6 [|f7 [|]]]]]]]] eqn:Ef; try apply H3.
    destruct (passwd_fields_cut _ _ _ _ _ Ef eq_refl) as (p1 & p2 & p3 & C1 & C2 & C3). rewrite E1 in C1. injection C1 as -> ->. rewrite Hn. apply H3.
  - intros u' hl sl i. cbn [passwd_lines]. destruct (passwd_fields l) as [|n' [|f2 [|uid [|f4 [|f5 [|f6 [|f7 [|]]]]]]]] eqn:Ef; try apply H4.
    destruct (passwd_fields_cut _ _ _ _ _ Ef eq_refl) as (p1 & p2 & p3 & C1 & C2 & C3). rewrite E1 in C1. injection C1 as -> ->. destruct (beq n' u'); [|apply H4].
    intros [= <-]. cbn [i_uid]. unfold mx1 in H2. rewrite C2 in H2. apply cut_spec in C3 as [-> Hc]. rewrite atoi_colon in H2 by done. destruct (_ && _) eqn:Eb in H2; boolify; [lia|].
    apply andb_false_iff in Eb as [Eb|Eb]; boolify; lia.
Qed.

Lemma create_account_files u shell hash uid mh s r s' : create_account fate u shell hash uid mh s = (r, s') -> forall p old, p = PASSWD \/ p = SHADOW -> data_of s p = Some old ->
  exists x, data_of s' p = Some (old ++ x) /\ (r = 0 -> x = if decide (p = PASSWD) then fit 600 (passwd_line u (print_dec uid) (print_dec uid) shell) else fit 600 (shadow_line u hash)).
Proof.
  intros E. assert (Hps : PASSWD <> SHADOW /\ PASSWD <> GROUP /\ SHADOW <> GROUP) by done. destruct Hps as (N1 & N2 & N3). unfold create_account in E. cbv zeta in E. unfold mbind, act_bind, mret, act_ret in E.
  destruct (append_line fate PASSWD _ s) as [ok1 s1] eqn:E1. destruct (append_line_spec _ _ _ _ _ _ E1) as [O1 D1].
  intros p old Hp Hold.
  destruct ok1; cbn [negb] in E.
  2: { injection E as <- <-. destruct Hp as [->| ->]; [destruct (D1 old Hold) as (n & -> & _); eexists; split; [done|done]|].
       exists []. rewrite app_nil_r, O1 by done. done. }
  destruct (append_line fate SHADOW _ s1) as [ok2 s2] eqn:E2. destruct (append_line_spec _ _ _ _ _ _ E2) as [O2 D2].
  destruct ok2; cbn [negb] in E.
  2: { injection E as <- <-. destruct Hp as [->| ->]; [rewrite O2 by done; destruct (D1 old Hold) as (n & -> & _); eexists; split; [done|done]|].
       rewrite <- O1 in Hold by done. destruct (D2 old Hold) as (n & -> & _). eexists. split; [done|done]. }
  destruct (append_line fate GROUP _ s2) as [ok3 s3] eqn:E3. destruct (append_line_spec _ _ _ _ _ _ E3) as [O3 D3].
  destruct ok3; cbn [negb] in E.
  2: { injection E as <- <-. destruct Hp as [->| ->]; [rewrite O3, O2 by done; destruct (D1 old Hold) as (n & -> & _); eexists; split; [done|done]|].
       rewrite O3 by done. rewrite <- O1 in Hold by done. destruct (D2 old Hold) as (n & -> & _). eexists. split; [done|done]. }
  assert (Hs' : data_of s' p = data_of s3 p).
  { destruct mh; [|by injection E as <- <-]. destruct (install_make_home fate _ uid uid s3) as [r4 s4] eqn:E4. injection E as <- <-. by apply (make_home_data _ _ _ _ _ _ _ E4). }
  rewrite Hs'. destruct Hp as [->| ->]; rewrite O3 by done.
  - rewrite O2 by done. destruct (D1 old Hold) as (n & -> & Hn). eexists. split; [done|]. intros _. rewrite decide_True by done. rewrite Hn by done. apply firstn_all.
  - rewrite <- O1 in Hold by done. destruct (D2 old Hold) as (n & -> & Hn). eexists. split; [done|]. intros _. rewrite decide_False by (by intros ?). rewrite Hn by done. apply firstn_all.
Qed.

(** What a text that only grew at its end still tells. *)
Lemma lookup_kept s s' u hl sl pl x i : data_of s PASSWD = Some (text_of pl) -> Forall (line_ok 256) pl -> data_of s' PASSWD = Some (text_of pl ++ x) ->
  auth_lookup_passwd s u hl sl = Some i -> auth_lookup_passwd s' u hl sl = Some i.
Proof.
  intros D1 Hl D2. unfold auth_lookup_passwd. rewrite D1, D2. rewrite <- (app_nil_r (text_of pl)) at 1. rewrite !fgets_lines_text by (done || lia). rewrite !passwd_lines_app. by destruct (passwd_lines u hl sl _).
Qed.

Lemma shadow_kept s s' u hl sl x h : data_of s SHADOW = Some (text_of sl) -> Forall (line_ok 1024) sl -> data_of s' SHADOW = Some (text_of sl ++ x) ->
  auth_lookup_shadow s u hl = Some h -> auth_lookup_shadow s' u hl = Some h.
Proof.
  intros D1 Hl D2. unfold auth_lookup_shadow. rewrite D1, D2. rewrite <- (app_nil_r (text_of sl)) at 1. rewrite !fgets_lines_text by (done || lia). rewrite !shadow_lines_app. by destruct (shadow_lines u hl _).
Qed.

(** What useradd does, case by case: nothing, or creating the account. *)
Lemma useradd_cases a s r s' : useradd fate crypt a s = (r, s') -> (r <> 0 /\ s' = s) \/
  exists u pw hash mx, u_username a = Some u /\ install_username_valid u = true /\ u_elevated a = true /\ scan_passwd s u = Some (false, mx) /\ u_password a = Some pw /\
    install_hash_password crypt (u_random a) pw 256 = Some hash /\ create_account fate u (u_shell a) hash (mx + 1) (u_make_home a) s = (r, s').
Proof.
  unfold useradd. destruct (u_bad_option a); [intros [= <- <-]; by left|]. destruct (u_username a) as [u|]; [|intros [= <- <-]; by left].
  destruct (install_username_valid u) eqn:Eu; cbn [negb]; [|intros [= <- <-]; by left]. destruct (u_elevated a); cbn [negb]; [|intros [= <- <-]; by left].
  destruct (scan_passwd s u) as [[[] mx]|] eqn:Es; [intros [= <- <-]; by left| |intros [= <- <-]; by left].
  destruct (u_password a) as [pw|]; [|intros [= <- <-]; by left]. destruct (u_retyped a) as [confirm|]; [|intros [= <- <-]; by left].
  destruct (beq pw confirm); cbn [negb]; [|intros [= <- <-]; by left]. destruct (install_hash_password crypt (u_random a) pw 256) as [hash|] eqn:Eh; [|intros [= <- <-]; by left].
  intros E. right. exists u, pw, hash, mx. auto 10.
Qed.

(** However useradd ends, by a failing call, a short write or success, and whatever
    shell it is given, every account that was there keeps its identity and its
    password. *)
Theorem useradd_keeps_accounts a s r s' pl sl u pw i : useradd fate crypt a s = (r, s') ->
  data_of s PASSWD = Some (text_of pl) -> Forall (line_ok 256) pl -> data_of s SHADOW = Some (text_of sl) -> Forall (line_ok 1024) sl ->
  auth_check crypt s u pw 256 256 = Some i -> auth_check crypt s' u pw 256 256 = Some i.
Proof.
  intros E Dp Hp Ds Hs. destruct (useradd_cases _ _ _ _ E) as [[_ ->]|(u0 & pw0 & hash & mx & _ & _ & _ & _ & _ & _ & Ec)]; [done|].
  destruct (create_account_files _ _ _ _ _ _ _ _ Ec PASSWD _ (or_introl eq_refl) Dp) as (x & Dp' & _). destruct (create_account_files _ _ _ _ _ _ _ _ Ec SHADOW _ (or_intror eq_refl) Ds) as (y & Ds' & _).
  unfold auth_check. destruct (auth_lookup_passwd s u 256 256) as [i'|] eqn:Ei; [|done]. destruct (auth_lookup_shadow s u 256) as [h|] eqn:Eh; [|done].
  rewrite (lookup_kept s s' u 256 256 pl x i' Dp Hp Dp' Ei), (shadow_kept s s' u 256 sl y h Ds Hs Ds' Eh). done.
Qed.


(** * Logging in *)

Lemma readline_loop_rest k i buf input n buf' rest : readline_loop k i buf input = (n, buf', rest) -> (length rest <= length input)%nat /\ length buf' = length buf /\
  ((0 < k)%nat -> i = 0%nat -> 0 <= n -> (length rest < length input)%nat).
Proof.
  revert i buf input. induction k as [|k IH]; intros i buf input E; cbn [readline_loop] in E.
  { injection E as <- <- <-. split; [done|]. split; [by rewrite length_insert|lia]. }
  destruct input as [|c input]; [injection E as <- <- <-; split; [done|]; split; [done|]; intros _ -> Hn; cbn in Hn; lia|].
  destruct (is_newline c); [injection E as <- <- <-; cbn [length]; split; [lia|]; split; [by rewrite length_insert|lia]|].
  destruct (IH _ _ _ E) as (H1 & H2 & _). cbn [length]. split; [lia|]. split; [by rewrite H2, length_insert|lia].
Qed.

Lemma read_secret_rest typed input pw rest : read_secret typed input = (pw, rest) -> (length rest <= length input)%nat.
Proof.
  revert typed. induction input as [|c input IH]; intros typed E; cbn [read_secret] in E; [injection E as _ <-; done|].
  destruct (127 <=? length typed)%nat; [injection E as _ <-; done|]. destruct (is_newline c); [injection E as _ <-; cbn; lia|]. destruct (_ || _); specialize (IH _ E); cbn; lia.
Qed.

Lemma login_loop_spec fuel s ex left buf input r tried : (1 < length buf)%nat -> (length input + left < fuel)%nat -> login_loop crypt fuel s ex left buf input = (r, tried) ->
  r <> NoFuel /\ (length tried <= left)%nat /\
  match r with
  | Started se => exists before pw, tried = before ++ [(se_user se, pw)] /\ auth_check crypt s (se_user se) pw 256 256 = Some (se_identity se) /\ Forall (λ t, auth_check crypt s t.1 t.2 256 256 = None) before
  | _ => Forall (λ t, auth_check crypt s t.1 t.2 256 256 = None) tried
  end.
Proof.
  revert left buf input r tried. induction fuel as [|fuel IH]; intros left buf input r tried Hb Hf E; [lia|].
  destruct left as [|left]; [injection E as <- <-; done|]. cbn [login_loop] in E. destruct (readline buf input) as [[n buf'] input'] eqn:Er. unfold readline in Er.
  destruct (readline_loop_rest _ _ _ _ _ _ _ Er) as (R1 & R2 & R3). destruct (Z.ltb_spec n 0) as [Hn|Hn].
  { destruct (IH left buf' input' r tried ltac:(lia) ltac:(lia) E) as (H1 & H2 & H3). split; [done|]. split; [lia|done]. }
  specialize (R3 ltac:(lia) eq_refl Hn). destruct (byte_at buf' 0 =? NUL); [apply (IH (S left) buf' input' r tried ltac:(lia) ltac:(lia) E)|].
  destruct (negb (has_char NUL buf')); [injection E as <- <-; split; [done|]; split; [cbn; lia|done]|].
  destruct (read_secret [] input') as [pw input2] eqn:Es. pose proof (read_secret_rest _ _ _ _ Es) as Hs2.
  destruct (auth_check crypt s (cstr buf') (cstr pw) 256 256) as [i|] eqn:Ea.
  { injection E as <- <-. split; [done|]. split; [cbn; lia|]. exists [], (cstr pw). cbn. auto. }
  destruct (login_loop crypt fuel s ex left buf' input2) as [r' tried'] eqn:El. injection E as <- <-. destruct (IH left buf' input2 r' tried' ltac:(lia) ltac:(lia) El) as (H1 & H2 & H3).
  split; [done|]. split; [cbn; lia|]. destruct r' as [se| | |]; try (by constructor). destruct H3 as (before & pw' & -> & Hok & Hall). exists ((cstr buf', cstr pw) :: before), pw'. split; [done|]. split; [done|]. by constructor.
Qed.

(** C34: login ends on every input, checks at most three passwords, and starts a shell
    only for a name whose password, typed in the same attempt, was accepted, and with
    the identity the account files give that name; all attempts before it failed. *)
Theorem login_checks_password s ex stack input : length stack = 64%nat ->
  let '(r, tried) := login crypt s ex stack input in
  r <> NoFuel /\ (length tried <= MAX_ATTEMPTS)%nat /\
  match r with
  | Started se => exists before pw, tried = before ++ [(se_user se, pw)] /\ auth_check crypt s (se_user se) pw 256 256 = Some (se_identity se) /\ Forall (λ t, auth_check crypt s t.1 t.2 256 256 = None) before
  | _ => Forall (λ t, auth_check crypt s t.1 t.2 256 256 = None) tried
  end.
Proof.
  intros Hs. destruct (login crypt s ex stack input) as [r tried] eqn:E. unfold login in E. eapply login_loop_spec; [|idtac|exact E]; lia.
Qed.

End Theorems.
