(* ===== verification/AccountsCases.v ===== *)
(** Accounts: concrete files and inputs. *)

From S2P Require Import Prelude CString Posix PosixLogic Accounts AccountsSafety.
Local Open Scope Z_scope.

(** A stand-in for crypt: a password of printable characters behind a dollar sign. *)
Definition plain (c : byte) : bool := (33 <=? c) && (c <? 127) && negb (c =? COLON).
Definition toy_crypt (k _ : bytes) : option bytes := if forallb plain k && (length k <? 100)%nat then Some (36 :: k) else None.

Lemma toy_crypt_ok k salt h : toy_crypt k salt = Some h -> hash_ok h /\ toy_crypt k h = Some h.
Proof.
  unfold toy_crypt. destruct (_ && _) eqn:E; [|done]. intros [= <-]. split; [|done]. boolify. rewrite forallb_forall in H. split; [done|]. split.
  - intros c [->|Hc]%elem_of_cons; [done|]. apply list_elem_of_In, H in Hc. unfold plain in Hc. boolify. lia.
  - cbn [length]. lia.
Qed.

Definition calm (_ : nat) : fate_t := FOk.
Definition no_files : etc := Etc (Files None None None None) [] 0.
Definition alice_hash : bytes := B "$secret".
Definition installed : etc := snd (install_write_credentials calm (B "alice") alice_hash (Some (B "$admin")) no_files).

Lemma installed_run : install_write_credentials calm (B "alice") alice_hash (Some (B "$admin")) no_files = (Some true, installed).
Proof. lazy. reflexivity. Qed.

Lemma installed_passwd : data_of installed PASSWD = Some (text_of [B "alice:x:0:0:alice:/home/alice:/bin/stsh"]).
Proof. lazy. reflexivity. Qed.

Lemma installed_shadow : data_of installed SHADOW = Some (text_of [B "alice:$secret:19814:0:99999:7:::"]).
Proof. lazy. reflexivity. Qed.

Ltac hash_literal := split; [done|]; split; [|vm_compute; lia]; intros c Hc; repeat (apply elem_of_cons in Hc as [->|Hc]; [by vm_compute|]); by apply elem_of_nil in Hc.

Lemma credentials_log_in_witness :
  (forall pw, auth_check toy_crypt installed (B "alice") pw 256 256 = if auth_verify toy_crypt pw alice_hash then Some (Identity 0 0 (home_of (B "alice")) (B "/bin/stsh")) else None) /\
  (forall u' pw, u' <> B "alice" -> auth_check toy_crypt installed u' pw 256 256 = None) /\
  (forall pw allows, do_elevate toy_crypt installed pw allows = auth_verify toy_crypt (fit 128 pw) (B "$admin") && allows).
Proof. apply (credentials_log_in calm toy_crypt (B "alice") alice_hash (Some (B "$admin")) no_files installed); [exact installed_run|hash_literal|hash_literal]. Defined.

(** ** Further accounts *)

Definition bob_args (shell : bytes) : useradd_args := UseraddArgs true shell (Some (B "bob")) false true (Some (B "hunter2")) (Some (B "hunter2")) (Some (repeat 5 12)).
Definition with_bob : etc := snd (useradd calm toy_crypt (bob_args (B "/bin/stsh")) installed).

Lemma with_bob_run : useradd calm toy_crypt (bob_args (B "/bin/stsh")) installed = (0, with_bob).
Proof. lazy. reflexivity. Qed.

Lemma passwd_text_ok : Forall (line_ok 256) [B "alice:x:0:0:alice:/home/alice:/bin/stsh"].
Proof. constructor; [|constructor]. split; [absent|]. split; [absent|vm_compute; lia]. Qed.

Lemma shadow_text_ok : Forall (line_ok 1024) [B "alice:$secret:19814:0:99999:7:::"].
Proof. constructor; [|constructor]. split; [absent|]. split; [absent|vm_compute; lia]. Qed.


(** The disk fills up in the middle of the line for /etc/passwd. *)
Definition full_disk (n : nat) : fate_t := if (n =? 18)%nat then FShort 9 else FOk.
Definition half_bob : Z * etc := useradd full_disk toy_crypt (bob_args (B "/bin/stsh")) installed.

Lemma half_bob_fails : half_bob.1 = 1 /\ data_of half_bob.2 PASSWD = Some (text_of [B "alice:x:0:0:alice:/home/alice:/bin/stsh"] ++ B "bob:x:100").
Proof. lazy. done. Qed.

Lemma useradd_keeps_accounts_witness : auth_check toy_crypt half_bob.2 (B "alice") (B "secret") 256 256 = Some (Identity 0 0 (home_of (B "alice")) (B "/bin/stsh")).
Proof.
  apply (useradd_keeps_accounts full_disk toy_crypt (bob_args (B "/bin/stsh")) installed half_bob.1 half_bob.2 [B "alice:x:0:0:alice:/home/alice:/bin/stsh"] [B "alice:$secret:19814:0:99999:7:::"]);
    [lazy; reflexivity|exact installed_passwd|exact passwd_text_ok|exact installed_shadow|exact shadow_text_ok|lazy; reflexivity].
Defined.

(** The shell given to useradd is written as it is: with a line break in it a second
    account, here one with user number 0, is entered. *)
Theorem useradd_shell_injection :
  let shell := B "/bin/sh" ++ [LF] ++ B "mallory:x:0:0:m:/:/bin/sh" in
  let '(r, s) := useradd calm toy_crypt (bob_args shell) installed in
  r = 0 /\ auth_lookup_passwd installed (B "mallory") 256 256 = None /\ auth_lookup_passwd s (B "mallory") 256 256 = Some (Identity 0 0 (B "/") (B "/bin/sh")).
Proof. lazy. done. Qed.

(** ** Logging in *)

Lemma login_checks_password_witness :
  let '(r, tried) := login toy_crypt installed (λ _, true) (repeat 1 64) (B "alice" ++ [LF] ++ B "wrong" ++ [LF] ++ B "alice" ++ [CR] ++ B "secrex" ++ [127] ++ B "t" ++ [LF]) in
  r <> NoFuel /\ (length tried <= MAX_ATTEMPTS)%nat /\
  match r with
  | Started se => exists before pw, tried = before ++ [(se_user se, pw)] /\ auth_check toy_crypt installed (se_user se) pw 256 256 = Some (se_identity se) /\
                    Forall (λ t, auth_check toy_crypt installed t.1 t.2 256 256 = None) before
  | _ => Forall (λ t, auth_check toy_crypt installed t.1 t.2 256 256 = None) tried
  end.
Proof. apply (login_checks_password toy_crypt installed (λ _, true) (repeat 1 64)). reflexivity. Defined.

(** The erased character is not part of the password. *)
Lemma login_starts_shell :
  fst (login toy_crypt installed (λ _, true) (repeat 1 64) (B "alice" ++ [LF] ++ B "secrex" ++ [127] ++ B "t" ++ [LF])) =
  Started (Session (B "alice") (Identity 0 0 (B "/home/alice") (B "/bin/stsh")) (B "-stsh") (Some (B "/bin/stsh"))).
Proof. lazy. reflexivity. Qed.

(** At the end of input the name is not terminated: after an attempt for alice, the
    name bob that the end of input cuts off is checked as bobce. *)
Theorem login_name_leftover : snd (login toy_crypt installed (λ _, true) (repeat 1 64) (B "alice" ++ [LF] ++ B "wrong" ++ [LF] ++ B "bob")) = [(B "alice", B "wrong"); (B "bobce", [])].
Proof. lazy. reflexivity. Qed.
