(* ===== verification/StshEditor.v ===== *)
(** The interactive side of stsh: the line editor (src/user/bin/stsh/editor.c), the
    history (history.c), completion (complete.c) and the loop of main.c that joins
    them.

    The line is edited in a buffer of fixed size; every access to it, and to the ring
    of the history, is checked, and one outside gives [None].  A read from the terminal
    delivers a byte or fails; the input is the list of what the reads deliver.  What
    directories hold, which paths are directories, and which calls of strdup succeed
    are parameters. *)

From S2P Require Import Prelude CString Posix StshEnv StshExpand StshMain.
Local Open Scope Z_scope.

(** * Definitions *)

(** ** History *)

Definition HIST_SIZE : Z := 64.

Record hist := Hist { s_entries : list bytes; s_head : Z; s_count : Z; s_cursor : Z; s_privileged : bool }.

Definition set_cursor (h : hist) (c : Z) : hist := Hist (s_entries h) (s_head h) (s_count h) c (s_privileged h).

Definition entry (h : hist) (i : Z) : option bytes := if 0 <=? i then s_entries h !! Z.to_nat i else None.

(** Storing an entry in the next slot. *)
Definition push (h : hist) (line : bytes) : option hist :=
  if (0 <=? s_head h) && (s_head h <? Z.of_nat (length (s_entries h))) then
    Some (Hist (<[Z.to_nat (s_head h) := fit LINE_SIZE line]> (s_entries h)) (Z.rem (s_head h + 1) HIST_SIZE)
            (if s_count h <? HIST_SIZE then s_count h + 1 else s_count h) (s_cursor h) (s_privileged h))
  else None.

Definition hist_path (en : env) : bytes :=
  let home := match env_get (B "HOME") en with Some (c :: r) => c :: r | _ => B "/" end in
  fit 256 (home ++ B "/.stsh_history").

(** A line of the file without its newline. *)
Definition chop_newline (l : bytes) : bytes :=
  let l := cstr l in
  match last l with
  | Some c => if c =? LF then take (length l - 1) l else l
  | None => l
  end.

Fixpoint load (ls : list bytes) (h : hist) : option hist :=
  match ls with
  | [] => Some h
  | l :: ls =>
      match chop_newline l with
      | [] => load ls h
      | line => h ← push h line; load ls h
      end
  end.

(** [file] is what the history file holds, [None] if it does not open. *)
Definition hist_init (entries : list bytes) (privileged : bool) (file : option bytes) : option hist :=
  let h := Hist entries 0 0 0 privileged in
  if privileged then Some h else
  match file with
  | None => Some h
  | Some data => load (fgets_lines LINE_SIZE data) h
  end.

Definition hist_add (h : hist) (line : bytes) : option hist :=
  match line with
  | [] => Some h
  | _ =>
      same ← (if 0 <? s_count h then e ← entry h (Z.rem (s_head h - 1 + HIST_SIZE) HIST_SIZE); Some (beq e line) else Some false);
      if (same : bool) then Some h else
      h ← push h line;
      Some (set_cursor h 0)
  end.

Definition hist_prev (h : hist) : option (option bytes * hist) :=
  if s_count h <=? s_cursor h then Some (None, h) else
  let h := set_cursor h (s_cursor h + 1) in
  e ← entry h (Z.rem (s_head h - s_cursor h + HIST_SIZE) HIST_SIZE);
  Some (Some e, h).

Definition hist_next (h : hist) : option (option bytes * hist) :=
  if s_cursor h <=? 0 then Some (None, h) else
  let h := set_cursor h (s_cursor h - 1) in
  if s_cursor h =? 0 then Some (None, h) else
  e ← entry h (Z.rem (s_head h - s_cursor h + HIST_SIZE) HIST_SIZE);
  Some (Some e, h).

Definition hist_reset_cursor (h : hist) : hist := set_cursor h 0.

Fixpoint save_loop (n : nat) (h : hist) (start i : Z) : option bytes :=
  match n with
  | O => Some []
  | S n => e ← entry h (Z.rem (start + i) HIST_SIZE); r ← save_loop n h start (i + 1); Some (e ++ [LF] ++ r)
  end.

(** What the history file holds afterwards; [can_open] tells whether it opens. *)
Definition hist_save (h : hist) (can_open : bool) (file : option bytes) : option (option bytes) :=
  if s_privileged h || negb can_open then Some file else
  let start := if s_count h <? HIST_SIZE then 0 else s_head h in
  text ← save_loop (Z.to_nat (s_count h)) h start 0;
  Some (Some text).

(** ** The buffer *)

Definition in_buf (buf : bytes) (off n : Z) : bool := (0 <=? off) && (0 <=? n) && (off + n <=? Z.of_nat (length buf)).

Definition memmove (buf : bytes) (dst src n : Z) : option bytes :=
  if in_buf buf dst n && in_buf buf src n then Some (splice (Z.to_nat dst) (slice (Z.to_nat src) (Z.to_nat n) buf) buf) else None.
Definition memcpy (buf : bytes) (dst : Z) (bs : bytes) : option bytes :=
  if in_buf buf dst (Z.of_nat (length bs)) then Some (splice (Z.to_nat dst) bs buf) else None.
Definition put (buf : bytes) (i : Z) (c : byte) : option bytes :=
  if in_buf buf i 1 then Some (<[Z.to_nat i := c]> buf) else None.

(** strncpy(buf, s, n): the string, cut at [n] bytes or filled with NULs. *)
Definition strncpy (buf s : bytes) (n : Z) : option bytes :=
  if in_buf buf 0 n then Some (splice 0 (take (Z.to_nat n) (s ++ repeat NUL (Z.to_nat n))) buf) else None.

Record editor := Editor { e_buf : bytes; e_pos : Z; e_len : Z; e_hist : hist; e_out : bytes }.

Definition emit (e : editor) (bs : bytes) : editor := Editor (e_buf e) (e_pos e) (e_len e) (e_hist e) (e_out e ++ bs).
Definition set_line (e : editor) (buf : bytes) (pos len : Z) : editor := Editor buf pos len (e_hist e) (e_out e).
Definition set_hist (e : editor) (h : hist) : editor := Editor (e_buf e) (e_pos e) (e_len e) h (e_out e).

Definition CLEAR_EOL : bytes := [ESC; 91; 75].
Definition CLEAR_SCREEN : bytes := [ESC; 91; 50; 74; ESC; 91; 72].
Definition CURSOR_LEFT : bytes := [ESC; 91; 68].
Definition CURSOR_RIGHT : bytes := [ESC; 91; 67].

Definition redraw (prompt : bytes) (e : editor) : option editor :=
  let plen := Z.of_nat (length prompt) in
  if negb (in_buf (e_buf e) 0 (e_len e)) then None else
  let cursor_col := plen + e_pos e in
  let end_col := plen + e_len e in
  Some (emit e ([CR] ++ prompt ++ take (Z.to_nat (e_len e)) (e_buf e) ++ CLEAR_EOL ++
    (if cursor_col <? end_col then fit 32 ([ESC; 91] ++ print_dec (end_col - cursor_col) ++ [68]) else []))).

(** ** Completion *)

Section Completion.

Context (readdir : bytes -> option (list bytes)) (is_dir : bytes -> bool) (mem : nat -> bool).

Definition MAX_CANDIDATES : nat := 64.

Definition is_first_token (before : bytes) : bool := forallb not_blank before.

(** The word that ends at the cursor, as far as a buffer of [plen] bytes holds it. *)
Definition last_word (before : bytes) : bytes := rev (take_while not_blank (rev before)).
Definition extract_prefix (before : bytes) (plen : nat) : bytes := fit plen (last_word before).

Definition after_slash (prefix : bytes) : bytes := rev (take_while (not_c SLASH) (rev prefix)).

(** The directory and the base name. *)
Definition split_dir_base (prefix : bytes) (dirlen : nat) : bytes * bytes :=
  if has_char SLASH prefix then
    let base := after_slash prefix in
    (fit dirlen (take (length prefix - length base) prefix), base)
  else (B ".", prefix).

(** [k]: how often strdup was called. *)
Fixpoint collect (keep : bytes -> bool) (names : list bytes) (k : nat) (cands : list bytes) : nat * list bytes :=
  match names with
  | [] => (k, cands)
  | name :: names =>
      if (MAX_CANDIDATES <=? length cands)%nat then (k, cands) else
      if keep name then collect keep names (S k) (if mem k then cands ++ [name] else cands)
      else collect keep names k cands
  end.

Definition builtins : list bytes := B <$> ["cd"; "exit"; "help"; "export"; "env"; "caps"; "sandbox"; "grant"]%string.
Definition hidden (name : bytes) : bool := starts_with [DOT] name.

Definition command_candidates (prefix : bytes) : list bytes :=
  let '(k, cands) := collect (starts_with prefix) builtins 0 [] in
  match readdir (B "/bin") with
  | None => cands
  | Some names => snd (collect (λ n, negb (hidden n) && starts_with prefix n) names k cands)
  end.

Definition file_candidates (prefix : bytes) : option (list bytes) :=
  let '(dir, base) := split_dir_base prefix 256 in
  match readdir dir with
  | None => None
  | Some names =>
      let keep n := negb (hidden n && negb (hidden base)) && negb (beq n (B ".")) && negb (beq n (B "..")) && starts_with base n in
      Some (snd (collect keep names 0 []))
  end.

Fixpoint common (a b : bytes) : nat :=
  match a, b with
  | x :: a, y :: b => if x =? y then S (common a b) else O
  | _, _ => O
  end.
Definition longest_common_prefix (cands : list bytes) : nat :=
  match cands with
  | [] => O
  | c :: cs => foldl (λ lcp d, common (take lcp c) d) (length c) cs
  end.

(** Making room at the cursor and inserting. *)
Definition insert_text (e : editor) (ins : bytes) : option editor :=
  let n := Z.of_nat (length ins) in
  if e_len e + n <? Z.of_nat LINE_SIZE then
    buf ← memmove (e_buf e) (e_pos e + n) (e_pos e) (e_len e - e_pos e);
    buf ← memcpy buf (e_pos e) ins;
    buf ← put buf (e_len e + n) NUL;
    Some (set_line e buf (e_pos e + n) (e_len e + n))
  else Some e.

Definition show_candidates (cands : list bytes) : bytes := [LF] ++ concat ((λ c, c ++ [SP; SP]) <$> cands) ++ [LF].

Definition complete (e : editor) : option editor :=
  if negb (in_buf (e_buf e) 0 (e_pos e)) then None else
  let before := take (Z.to_nat (e_pos e)) (e_buf e) in
  let prefix := cstr (extract_prefix before 256) in
  let first := is_first_token before in
  let '(dir, base) := if first then (B "/bin/", prefix) else split_dir_base prefix 256 in
  match (if first then Some (command_candidates prefix) else file_candidates prefix) with
  | None | Some [] => Some e
  | Some [match_] =>
      let suffix := if is_dir (fit 512 (dir ++ match_)) then SLASH else SP in
      insert_text e (drop (length base) match_ ++ [suffix])
  | Some ((c :: _) as cands) =>
      let lcp := longest_common_prefix cands in
      e ← (if (length base <? lcp)%nat then insert_text e (slice (length base) (lcp - length base) c) else Some e);
      Some (emit e (show_candidates cands))
  end.

(** ** The keys *)

Context (prompt : bytes) (buflen : Z).

(** The start of the word before [pos]: spaces, then what is not a space. *)
Definition word_start (before : bytes) : nat := length (drop_while (not_c SP) (drop_while (is_c SP) (rev before))).

Definition end_line (e : editor) : editor := emit e [LF].

(** Copying an entry of the history over the line. *)
Definition recall (e : editor) (entry : bytes) : option editor :=
  buf ← strncpy (e_buf e) entry (buflen - 1);
  buf ← put buf (buflen - 1) NUL;
  let len := Z.of_nat (length (cstr buf)) in
  redraw prompt (set_line e buf len len).

Definition insert_char (e : editor) (c : byte) : option editor :=
  if (32 <=? c) && (c <? 127) && (e_len e <? buflen - 1) then
    buf ← memmove (e_buf e) (e_pos e + 1) (e_pos e) (e_len e - e_pos e);
    buf ← put buf (e_pos e) c;
    buf ← put buf (e_len e + 1) NUL;
    redraw prompt (set_line e buf (e_pos e + 1) (e_len e + 1))
  else Some e.

Definition kill_word (e : editor) : option editor :=
  if 0 <? e_pos e then
    if negb (in_buf (e_buf e) 0 (e_pos e)) then None else
    let pos := Z.of_nat (word_start (take (Z.to_nat (e_pos e)) (e_buf e))) in
    buf ← memmove (e_buf e) pos (e_pos e) (e_len e - e_pos e);
    buf ← put buf (e_len e - (e_pos e - pos)) NUL;
    redraw prompt (set_line e buf pos (e_len e - (e_pos e - pos)))
  else Some e.

Definition backspace (e : editor) : option editor :=
  if 0 <? e_pos e then
    buf ← memmove (e_buf e) (e_pos e - 1) (e_pos e) (e_len e - e_pos e);
    buf ← put buf (e_len e - 1) NUL;
    redraw prompt (set_line e buf (e_pos e - 1) (e_len e - 1))
  else Some e.

Definition delete_char (e : editor) : option editor :=
  if e_pos e <? e_len e then
    buf ← memmove (e_buf e) (e_pos e) (e_pos e + 1) (e_len e - e_pos e - 1);
    buf ← put buf (e_len e - 1) NUL;
    redraw prompt (set_line e buf (e_pos e) (e_len e - 1))
  else Some e.

Definition go_home (e : editor) : option editor := redraw prompt (set_line e (e_buf e) 0 (e_len e)).
Definition go_end (e : editor) : option editor := redraw prompt (set_line e (e_buf e) (e_len e) (e_len e)).

(** The keys that do not end the line. *)
Definition control_key (e : editor) (c : byte) : option editor :=
  if c =? 4 then Some e else
  if c =? 1 then go_home e else
  if c =? 5 then go_end e else
  if c =? 11 then buf ← put (e_buf e) (e_pos e) NUL; redraw prompt (set_line e buf (e_pos e) (e_pos e)) else
  if c =? 21 then
    buf ← memmove (e_buf e) 0 (e_pos e) (e_len e - e_pos e);
    buf ← put buf (e_len e - e_pos e) NUL;
    redraw prompt (set_line e buf 0 (e_len e - e_pos e)) else
  if c =? 23 then kill_word e else
  if c =? 12 then redraw prompt (emit e CLEAR_SCREEN) else
  if c =? TAB then e ← complete e; redraw prompt e else
  if (c =? 127) || (c =? 8) then backspace e else
  insert_char e c.

(** The second byte of an escape sequence; Delete is a sequence of one more byte. *)
Definition escape_key (e : editor) (c : byte) : option editor :=
  if c =? 65 then
    r ← hist_prev (e_hist e);
    match r with
    | (Some h, s) => recall (set_hist e s) h
    | (None, s) => Some (set_hist e s)
    end else
  if c =? 66 then
    r ← hist_next (e_hist e);
    match r with
    | (Some h, s) => recall (set_hist e s) h
    | (None, s) => buf ← put (e_buf e) 0 NUL; redraw prompt (set_line (set_hist e s) buf 0 0)
    end else
  if c =? 67 then Some (if e_pos e <? e_len e then emit (set_line e (e_buf e) (e_pos e + 1) (e_len e)) CURSOR_RIGHT else e) else
  if c =? 68 then Some (if 0 <? e_pos e then emit (set_line e (e_buf e) (e_pos e - 1) (e_len e)) CURSOR_LEFT else e) else
  if c =? 72 then go_home e else
  if c =? 70 then go_end e else
  Some e.

(** The loop; the result is the return value, the state and the input that is left. *)
Fixpoint editor_loop (input : list (option byte)) (e : editor) : option (Z * editor * list (option byte)) :=
  match input with
  | [] => Some (-1, e, [])
  | None :: input => Some (-1, e, input)
  | Some c :: input =>
      if (c =? CR) || (c =? LF) then
        buf ← put (e_buf e) (e_len e) NUL;
        let e := end_line (set_line e buf (e_pos e) (e_len e)) in
        Some (e_len e, set_hist e (hist_reset_cursor (e_hist e)), input)
      else if (c =? 4) && (e_len e =? 0) then Some (-1, end_line e, input)
      else if c =? 3 then
        buf ← put (e_buf e) 0 NUL;
        Some (0, end_line (set_line e buf 0 0), input)
      else if c =? ESC then
        match input with
        | Some a :: input1 =>
            if a =? 91 then
              match input1 with
              | Some b :: input2 =>
                  if b =? 51 then
                    match input2 with
                    | Some t :: input3 => e ← (if t =? 126 then delete_char e else Some e); editor_loop input3 e
                    | None :: input3 => editor_loop input3 e
                    | [] => editor_loop input2 e
                    end
                  else e ← escape_key e b; editor_loop input2 e
              | None :: input2 => editor_loop input2 e
              | [] => editor_loop input1 e
              end
            else editor_loop input1 e
        | None :: input1 => editor_loop input1 e
        | [] => editor_loop input e
        end
      else e ← control_key e c; editor_loop input e
  end.

Definition editor_readline (buf : bytes) (h : hist) (out : bytes) (input : list (option byte)) : option (Z * editor * list (option byte)) :=
  buf ← put buf 0 NUL;
  editor_loop input (Editor buf 0 0 h (out ++ prompt)).

End Completion.

(** ** The loop of main *)

Section Session.

Context (readdir : bytes -> option (list bytes)) (is_dir : bytes -> bool) (mem : nat -> bool) (top_prompt : bytes).

Definition CONTINUATION : bytes := B "> ".

(** The programs handed to [run_program], in order, with the history at the end.
    [line] is the buffer of the editor, [acc] the lines that belong together. *)
Fixpoint session (fuel : nat) (line : bytes) (h : hist) (acc : bytes) (input : list (option byte)) : option (list bytes * hist) :=
  match fuel with
  | O => None
  | S fuel =>
      r ← editor_readline readdir is_dir mem (match acc with [] => top_prompt | _ => CONTINUATION end) (Z.of_nat LINE_SIZE) line h [] input;
      let '(rlen, e, input) := r in
      if rlen <? 0 then Some ([], e_hist e) else
      if (rlen =? 0) && (length acc =? 0)%nat then session fuel (e_buf e) (e_hist e) acc input else
      let text := cstr (e_buf e) in
      let acc := if (length acc + length text + 2 <? 2 ^ 16)%nat then acc ++ text ++ [LF] else acc in
      if sh_incomplete acc then session fuel (e_buf e) (e_hist e) acc input
      else if (1 <? length acc)%nat then
        h ← hist_add (e_hist e) acc;
        r ← session fuel (e_buf e) h [] input;
        Some (acc :: r.1, r.2)
      else session fuel (e_buf e) (e_hist e) [] input
  end.

End Session.
