(* ===== verification/StshHistory.v ===== *)
(** The history of stsh: the ring of [StshEditor] implements a bounded list, newest
    entry first, with a cursor; saving and loading it. *)

From S2P Require Import Prelude CString Posix PosixLogic StshEnv StshExpand StshEditor.
Local Open Scope Z_scope.

(** * Specification *)

(** The entries, newest first, and how many of them the up arrow has passed. *)
Definition log : Type := list bytes * nat.

Definition log_push (l : list bytes) (line : bytes) : list bytes := take 64 (fit LINE_SIZE line :: l).
Definition log_add (g : log) (line : bytes) : log :=
  if bool_decide (line = [] \/ head g.1 = Some line) then g else (log_push g.1 line, 0%nat).
Definition log_prev (g : log) : option bytes * log :=
  match g.1 !! g.2 with Some x => (Some x, (g.1, S g.2)) | None => (None, g) end.
Definition log_next (g : log) : option bytes * log :=
  match g.2 with
  | O => (None, g)
  | S O => (None, (g.1, O))
  | S (S c) => (g.1 !! c, (g.1, S c))
  end.
Definition log_reset (g : log) : log := (g.1, 0%nat).

(** The uses of the history by the rest of the shell. *)
Inductive hist_op := HAdd (line : bytes) | HPrev | HNext | HReset.

Definition hist_do (o : hist_op) (h : hist) : option (option bytes * hist) :=
  match o with
  | HAdd line => h ← hist_add h line; Some (None, h)
  | HPrev => hist_prev h
  | HNext => hist_next h
  | HReset => Some (None, hist_reset_cursor h)
  end.
Definition log_do (o : hist_op) (g : log) : option bytes * log :=
  match o with HAdd line => (None, log_add g line) | HPrev => log_prev g | HNext => log_next g | HReset => (None, log_reset g) end.

Fixpoint hist_run (os : list hist_op) (h : hist) : option (list (option bytes) * hist) :=
  match os with
  | [] => Some ([], h)
  | o :: os => r ← hist_do o h; rs ← hist_run os r.2; Some (r.1 :: rs.1, rs.2)
  end.
Fixpoint log_run (os : list hist_op) (g : log) : list (option bytes) * log :=
  match os with
  | [] => ([], g)
  | o :: os => let '(x, g) := log_do o g in let '(xs, g) := log_run os g in (x :: xs, g)
  end.

(** What a ring stands for: entry [i] is [i + 1] slots before the head. *)
Record ring (h : hist) (g : log) : Prop := {
  ring_slots : length (s_entries h) = 64%nat;
  ring_head : 0 <= s_head h < 64;
  ring_count : s_count h = Z.of_nat (length g.1);
  ring_bound : (length g.1 <= 64)%nat;
  ring_start : (length g.1 < 64)%nat -> s_head h = s_count h;
  ring_cursor : s_cursor h = Z.of_nat g.2;
  ring_cursor_in : (g.2 <= length g.1)%nat;
  ring_at i x : g.1 !! i = Some x -> s_entries h !! Z.to_nat ((s_head h - 1 - Z.of_nat i) mod 64) = Some x
}.

(** * Refinement *)

Ltac mods := Z.div_mod_to_equations; lia.

Lemma ring_entry h g i x : ring h g -> g.1 !! i = Some x -> entry h (Z.rem (s_head h - Z.of_nat (S i) + HIST_SIZE) HIST_SIZE) = Some x.
Proof.
  intros R Hx. pose proof (lookup_lt_Some _ _ _ Hx). destruct R. unfold HIST_SIZE. rewrite Z.rem_mod_nonneg by lia. unfold entry. rewrite (proj2 (Z.leb_le _ _)) by mods.
  rewrite <- (ring_at0 i x Hx). do 2 f_equal. replace (s_head h - Z.of_nat (S i) + 64) with (s_head h - 1 - Z.of_nat i + 1 * 64) by lia. apply Z_mod_plus_full.
Qed.

Lemma ring_cursor_set h l c c' : ring h (l, c) -> (c' <= length l)%nat -> ring (set_cursor h (Z.of_nat c')) (l, c').
Proof. intros [] Hc. by split. Qed.

Lemma push_ring h l c line : ring h (l, c) -> exists h', push h line = Some h' /\ ring h' (log_push l line, c) /\ s_privileged h' = s_privileged h.
Proof.
  intros R. destruct R; cbn [fst snd] in *. unfold push. rewrite ring_slots0. rewrite (proj2 (Z.leb_le _ _)), (proj2 (Z.ltb_lt _ _)) by (cbn; lia). cbn [andb]. eexists. split; [reflexivity|]. split; [|done].
  assert (Hlen : length (log_push l line) = Nat.min 64 (S (length l))) by (unfold log_push; by rewrite length_take).
  unfold HIST_SIZE. split; cbn [s_entries s_head s_count s_cursor fst snd]; rewrite ?Hlen.
  - by rewrite length_insert.
  - rewrite Z.rem_mod_nonneg by lia. mods.
  - destruct (Z.ltb_spec (s_count h) 64); lia.
  - lia.
  - intros Hl. rewrite Z.rem_mod_nonneg by lia. destruct (Z.ltb_spec (s_count h) 64); [|lia]. rewrite ring_start0 by lia. mods.
  - done.
  - lia.
  - intros i x Hx. rewrite Z.rem_mod_nonneg by lia. unfold log_push in Hx. pose proof (lookup_lt_Some _ _ _ Hx) as Hi. rewrite length_take in Hi. cbn [length] in Hi. rewrite lookup_take_lt in Hx by lia.
    destruct i as [|i]; cbn in Hx.
    + injection Hx as <-. replace (((s_head h + 1) mod 64 - 1 - Z.of_nat 0) mod 64) with (s_head h) by mods. apply list_lookup_insert_eq. lia.
    + rewrite list_lookup_insert_ne by mods. rewrite <- (ring_at0 i x Hx). do 2 f_equal. mods.
Qed.

Lemma hist_add_ring h g line : ring h g -> exists h', hist_add h line = Some h' /\ ring h' (log_add g line) /\ s_privileged h' = s_privileged h.
Proof.
  intros R. destruct g as [l c]. unfold hist_add, log_add. cbn [fst]. destruct line as [|b line]; [rewrite bool_decide_true by (by left); by exists h|]. set (ln := b :: line).
  assert (Hs : (if 0 <? s_count h then e ← entry h (Z.rem (s_head h - 1 + HIST_SIZE) HIST_SIZE); Some (beq e ln) else Some false) = Some (bool_decide (head l = Some ln))).
  { destruct l as [|x l]; [by rewrite (ring_count _ _ R)|]. rewrite (ring_count _ _ R). cbn [length fst]. rewrite (proj2 (Z.ltb_lt _ _)) by lia.
    change (s_head h - 1) with (s_head h - Z.of_nat 1). rewrite (ring_entry h _ 0 x R eq_refl). cbn. unfold beq. f_equal. apply bool_decide_ext. split; [by intros ->|by intros [= ->]]. }
  rewrite Hs. cbn [mbind option_bind]. destruct (decide (head l = Some ln)) as [Hh|Hh].
  - rewrite !bool_decide_true by tauto. by exists h.
  - rewrite !bool_decide_false by naive_solver. destruct (push_ring h l c ln R) as (h' & -> & R' & Hp). exists (set_cursor h' 0). split; [done|]. split; [|done]. apply (ring_cursor_set h' _ c 0 R'). lia.
Qed.

Lemma hist_prev_ring h g : ring h g -> exists h', hist_prev h = Some (fst (log_prev g), h') /\ ring h' (snd (log_prev g)) /\ s_privileged h' = s_privileged h.
Proof.
  intros R. destruct g as [l c]. unfold hist_prev, log_prev. cbn [fst snd]. rewrite (ring_count _ _ R), (ring_cursor _ _ R). cbn [fst snd]. destruct (l !! c) as [x|] eqn:E.
  - pose proof (lookup_lt_Some _ _ _ E). rewrite (proj2 (Z.leb_gt _ _)) by lia. replace (Z.of_nat c + 1) with (Z.of_nat (S c)) by lia.
    assert (R' : ring (set_cursor h (Z.of_nat (S c))) (l, S c)) by (eapply ring_cursor_set; [exact R|lia]).
    pose proof (ring_entry _ _ c x R' E) as He. cbn [set_cursor s_head s_cursor] in He |- *. rewrite He. by eexists.
  - apply lookup_ge_None in E. rewrite (proj2 (Z.leb_le _ _)) by lia. by eexists.
Qed.

Lemma hist_next_ring h g : ring h g -> exists h', hist_next h = Some (fst (log_next g), h') /\ ring h' (snd (log_next g)) /\ s_privileged h' = s_privileged h.
Proof.
  intros R. destruct g as [l c]. unfold hist_next, log_next. rewrite (ring_cursor _ _ R). pose proof (ring_cursor_in _ _ R) as Hc. cbn [fst snd] in *. destruct c as [|[|c]]; cbn [fst snd].
  - by eexists.
  - cbn. eexists. split; [reflexivity|]. split; [|done]. apply (ring_cursor_set h l 1 0 R). lia.
  - rewrite (proj2 (Z.leb_gt _ _)) by lia. replace (Z.of_nat (S (S c)) - 1) with (Z.of_nat (S c)) by lia. cbn [set_cursor s_cursor s_head].
    rewrite (proj2 (Z.eqb_neq _ _)) by lia. assert (R' : ring (set_cursor h (Z.of_nat (S c))) (l, S c)) by (eapply ring_cursor_set; [exact R|lia]).
    destruct (lookup_lt_is_Some_2 l c) as [x Hx]; [lia|]. pose proof (ring_entry _ _ c x R' Hx) as He. cbn [set_cursor s_head] in He. unfold set_cursor in He |- *. rewrite He, Hx. by eexists.
Qed.

Lemma hist_do_ring o h g : ring h g -> exists h', hist_do o h = Some (fst (log_do o g), h') /\ ring h' (snd (log_do o g)) /\ s_privileged h' = s_privileged h.
Proof.
  intros R. destruct o as [line| | |]; cbn [hist_do log_do fst snd].
  - destruct (hist_add_ring h g line R) as (h' & -> & ? & ?). by exists h'.
  - by apply hist_prev_ring.
  - by apply hist_next_ring.
  - eexists. split; [done|]. split; [|done]. destruct g as [l c]. apply (ring_cursor_set h l c 0 R). lia.
Qed.

(** The ring of 64 slots behaves as a list, newest entry first and cut at 64, with a
    cursor: every sequence of additions, up and down arrows and resets stays inside the
    ring and returns what the list returns. *)
Theorem history_refines os h g : ring h g -> exists h', hist_run os h = Some (fst (log_run os g), h') /\ ring h' (snd (log_run os g)).
Proof.
  revert h g. induction os as [|o os IH]; intros h g R; [by exists h|]. cbn [hist_run log_run]. destruct (hist_do_ring o h g R) as (h1 & -> & R1 & _). cbn [mbind option_bind fst snd].
  destruct (log_do o g) as [x g1]. destruct (IH h1 g1 R1) as (h2 & -> & R2). cbn [mbind option_bind fst snd] in *. destruct (log_run os g1) as [xs g2]. by exists h2.
Qed.

(** * Saving and loading *)

Definition empty_slots : list bytes := repeat [] 64.

Lemma ring_empty p : ring (Hist empty_slots 0 0 0 p) ([], 0%nat).
Proof. split; cbn; try lia; done. Qed.

(** The entries that a file gives, newest first. *)
Definition loaded (ls : list bytes) : list bytes := filter (.≠ []) (chop_newline <$> ls).

Lemma load_ring ls h l : ring h (l, 0%nat) -> exists h', load ls h = Some h' /\ ring h' (foldl log_push l (loaded ls), 0%nat) /\ s_privileged h' = s_privileged h.
Proof.
  revert h l. induction ls as [|x ls IH]; intros h l R; [by exists h|]. cbn [load]. unfold loaded. rewrite fmap_cons. destruct (chop_newline x) as [|b y] eqn:E.
  - rewrite filter_cons_False by (intros Hf; by apply Hf). by apply IH.
  - rewrite filter_cons_True by done. cbn [foldl]. destruct (push_ring h l 0 (b :: y) R) as (h1 & -> & R1 & Hp). cbn [mbind option_bind].
    destruct (IH h1 _ R1) as (h2 & H2 & R2 & Hp2). exists h2. by rewrite <- Hp.
Qed.

Lemma hist_init_ring p file : exists h g, hist_init empty_slots p file = Some h /\ ring h g /\ s_privileged h = p.
Proof.
  unfold hist_init. destruct p; [exists (Hist empty_slots 0 0 0 true), ([], 0%nat); split_and!; [done|apply ring_empty|done]|]. destruct file as [data|]; [|exists (Hist empty_slots 0 0 0 false), ([], 0%nat); split_and!; [done|apply ring_empty|done]].
  destruct (load_ring (fgets_lines LINE_SIZE data) _ _ (ring_empty false)) as (h & -> & R & Hp). by exists h, (foldl log_push [] (loaded (fgets_lines LINE_SIZE data)), 0%nat).
Qed.

(** An entry that is one line of text. *)
Definition entry_ok (x : bytes) : Prop := x <> [] /\ LF ∉ x /\ NUL ∉ x /\ (length x < LINE_SIZE)%nat.

Definition file_of (l : list bytes) : bytes := concat ((λ x, x ++ [LF]) <$> l).

Lemma chop_entry x y : NUL ∉ x -> LF ∉ x -> y = x ++ [LF] \/ y = x -> chop_newline y = x.
Proof.
  intros Hn Hl [->| ->]; unfold chop_newline.
  - rewrite cstr_id by (rewrite elem_of_app, list_elem_of_singleton; intros [?|[=]]; done). rewrite last_snoc, length_app. cbn. by rewrite Nat.add_sub, take_app_length.
  - rewrite cstr_id by done. destruct (last x) as [c|] eqn:E; [|done]. destruct (Z.eqb_spec c LF) as [->|]; [|done]. exfalso. apply Hl. by apply last_Some_elem_of.
Qed.

Lemma fgets_take_short k a s : LF ∉ a -> length a = k -> fgets_take k (a ++ s) = (a, s).
Proof.
  intros Ha <-. induction a as [|c a IH]; [by destruct s|]. cbn [length app fgets_take]. apply not_elem_of_cons in Ha as [Hc Ha]. rewrite (proj2 (Z.eqb_neq _ _)) by done. by rewrite (IH Ha).
Qed.

Lemma loaded_entry x s : entry_ok x -> loaded (fgets_lines LINE_SIZE (x ++ LF :: s)) = x :: loaded (fgets_lines LINE_SIZE s).
Proof.
  intros (Hx & Hl & Hn & Hlen). destruct (decide (length x = LINE_SIZE - 1)%nat) as [E|E].
  - unfold fgets_lines at 1. rewrite length_app. cbn [length]. replace (length x + S (length s))%nat with (S (S (length x - 1 + length s))) by (destruct x; [done|cbn; lia]).
    cbn [fgets_all]. unfold fgets at 1. destruct (x ++ LF :: s) as [|c t] eqn:Ec; [by destruct x|]. rewrite <- Ec. clear c t Ec.
    rewrite fgets_take_short by done. unfold fgets at 1. cbn [fgets_take].
    replace (LINE_SIZE - 1)%nat with (S (LINE_SIZE - 2)) by (unfold LINE_SIZE; lia). cbn [fgets_take]. rewrite Z.eqb_refl. unfold loaded. rewrite !fmap_cons. rewrite (chop_entry x x) by auto. change (chop_newline [LF]) with ([] : bytes).
    rewrite filter_cons_True by done. rewrite filter_cons_False by (intros Hf; by apply Hf). do 3 f_equal. apply fgets_all_fuel; [unfold LINE_SIZE|..]; lia.
  - rewrite fgets_lines_cons by (done || (unfold LINE_SIZE in *; lia)). unfold loaded. rewrite fmap_cons, (chop_entry x) by auto. by rewrite filter_cons_True by done.
Qed.

Lemma loaded_file l : Forall entry_ok l -> loaded (fgets_lines LINE_SIZE (file_of l)) = l.
Proof.
  induction 1 as [|x l Hx Hl IH]; [done|]. unfold file_of. rewrite fmap_cons. cbn [concat]. rewrite <- app_assoc. change ([LF] ++ concat ((λ x, x ++ [LF]) <$> l)) with (LF :: file_of l).
  rewrite loaded_entry by done. by rewrite IH.
Qed.

(** Slot [i] from the oldest entry on. *)
Lemma ring_oldest h l c i x : ring h (l, c) -> rev l !! i = Some x -> entry h (Z.rem ((if s_count h <? HIST_SIZE then 0 else s_head h) + Z.of_nat i) HIST_SIZE) = Some x.
Proof.
  intros R Hx. pose proof (lookup_lt_Some _ _ _ Hx) as Hi. rewrite length_rev in Hi. rewrite rev_alt in Hx; apply reverse_lookup_Some in Hx. destruct Hx as [Hx _]. pose proof (ring_count _ _ R) as Hc. pose proof (ring_bound _ _ R) as Hb. pose proof (ring_head _ _ R) as Hh. cbn [fst] in *.
  pose proof (ring_at _ _ R _ x Hx) as Ha. cbn [fst] in Ha. unfold HIST_SIZE. assert (E : Z.rem ((if s_count h <? 64 then 0 else s_head h) + Z.of_nat i) 64 = (s_head h - 1 - Z.of_nat (length l - S i)) mod 64).
  { destruct (Z.ltb_spec (s_count h) 64).
    - rewrite (ring_start _ _ R) by (cbn; lia). rewrite Z.rem_mod_nonneg by lia. f_equal. lia.
    - rewrite Z.rem_mod_nonneg by lia. replace (s_head h - 1 - Z.of_nat (length l - S i)) with (s_head h + Z.of_nat i + (-1) * 64) by lia. by rewrite Z_mod_plus_full. }
  rewrite E. unfold entry. rewrite (proj2 (Z.leb_le _ _)) by mods. done.
Qed.

Lemma save_loop_ring h l c n i : ring h (l, c) -> (i + n = length l)%nat ->
  save_loop n h (if s_count h <? HIST_SIZE then 0 else s_head h) (Z.of_nat i) = Some (file_of (drop i (rev l))).
Proof.
  intros R. revert i. induction n as [|n IH]; intros i Hi; [cbn; rewrite drop_ge by (rewrite length_rev; lia); done|].
  destruct (lookup_lt_is_Some_2 (rev l) i) as [x Hx]; [rewrite length_rev; lia|]. cbn [save_loop]. rewrite (ring_oldest h l c i x R Hx). cbn [mbind option_bind].
  replace (Z.of_nat i + 1) with (Z.of_nat (S i)) by lia. rewrite IH by lia. rewrite (drop_S _ x i Hx). cbn [mbind option_bind]. unfold file_of. rewrite fmap_cons. cbn [concat]. by rewrite <- app_assoc.
Qed.

Lemma hist_save_text h l c f : ring h (l, c) -> s_privileged h = false -> hist_save h true f = Some (Some (file_of (rev l))).
Proof.
  intros R Hp. unfold hist_save. rewrite Hp. cbn [orb negb]. cbv zeta. assert (E : Z.to_nat (s_count h) = length l) by (rewrite (ring_count _ _ R); apply Nat2Z.id). rewrite E. pose proof (save_loop_ring h l c (length l) 0 R eq_refl) as Hs. change (Z.of_nat 0) with 0 in Hs. by rewrite Hs.
Qed.

Lemma fold_push l acc : Forall entry_ok l -> (length acc + length l <= 64)%nat -> foldl log_push acc l = rev l ++ acc.
Proof.
  intros Hl. revert acc. induction Hl as [|x l Hx Hl IH]; intros acc Hlen; [done|]. cbn [foldl rev length] in *. assert (E : log_push acc x = x :: acc).
  { unfold log_push. rewrite fit_id by apply Hx. apply take_ge. cbn [length]. lia. }
  rewrite E, IH by (cbn [length]; lia). by rewrite <- app_assoc.
Qed.

(** Saving the history and starting a shell on the file gives the same history, oldest
    entries included, if every entry is a line of its own; with privileges nothing is
    written and nothing is read. *)
Theorem history_restored h l c f : ring h (l, c) -> Forall entry_ok l ->
  if s_privileged h then hist_save h true f = Some f /\ (exists h', hist_init empty_slots true f = Some h' /\ ring h' ([], 0%nat))
  else exists text h', hist_save h true f = Some (Some text) /\ hist_init empty_slots false (Some text) = Some h' /\ ring h' (l, 0%nat).
Proof.
  intros R Hl. destruct (s_privileged h) eqn:Hp.
  - split; [unfold hist_save; by rewrite Hp|]. eexists. split; [reflexivity|]. apply ring_empty.
  - rewrite (hist_save_text h l c f R Hp). destruct (load_ring (fgets_lines LINE_SIZE (file_of (rev l))) _ _ (ring_empty false)) as (h' & E & R' & _).
    exists (file_of (rev l)), h'. split_and!; [done|exact E|]. rewrite loaded_file in R' by (apply Forall_forall; intros x Hx; rewrite elem_of_rev in Hx; by eapply Forall_forall in Hl).
    rewrite fold_push, rev_involutive, app_nil_r in R'; [done|apply Forall_forall; intros x Hx; rewrite elem_of_rev in Hx; by eapply Forall_forall in Hl|]. rewrite length_rev. apply (ring_bound _ _ R).
Qed.
