(* ===== verification/StshEditorRefine.v ===== *)
(** The line editor of stsh implements a line with a cursor: whatever is typed, the
    buffer operations of [StshEditor] stay inside the buffer and do what the
    corresponding operations on the text before and after the cursor do. *)

From S2P Require Import Prelude CString Posix StshEnv StshExpand StshEditor StshHistory.
Local Open Scope Z_scope.

(** * Specification *)

Record text := Text { before : bytes; after : bytes }.
Definition whole (t : text) : bytes := before t ++ after t.

(** The line, the history, and what was written to the terminal. *)
Record desk := Desk { d_text : text; d_log : log; d_out : bytes }.

Section Editing.

Context (readdir : bytes -> option (list bytes)) (is_dir : bytes -> bool) (mem : nat -> bool) (prompt : bytes).

(** The line on the screen: the prompt, the text, and the cursor moved back over what
    is after it. *)
Definition picture (t : text) : bytes :=
  [CR] ++ prompt ++ whole t ++ CLEAR_EOL ++
  match after t with [] => [] | a => fit 32 ([ESC; 91] ++ print_dec (Z.of_nat (length a)) ++ [68]) end.

Definition shown (d : desk) (t : text) : desk := Desk t (d_log d) (d_out d ++ picture t).
Definition written (d : desk) (bs : bytes) : desk := Desk (d_text d) (d_log d) (d_out d ++ bs).

Definition without_word (b : bytes) : bytes := rev (drop_while (not_c SP) (drop_while (is_c SP) (rev b))).

Definition text_insert (t : text) (ins : bytes) : text :=
  if (length (whole t) + length ins <? LINE_SIZE)%nat then Text (before t ++ ins) (after t) else t.

(** What completion inserts, and the list of candidates it shows. *)
Definition completion (b : bytes) : option (bytes * list bytes) :=
  let prefix := extract_prefix b 256 in
  let first := is_first_token b in
  let '(dir, base) := if first then (B "/bin/", prefix) else split_dir_base prefix 256 in
  match (if first then Some (command_candidates readdir mem prefix) else file_candidates readdir mem prefix) with
  | None | Some [] => None
  | Some [m] => Some (drop (length base) m ++ [if is_dir (fit 512 (dir ++ m)) then SLASH else SP], [])
  | Some ((c :: _) as cands) => Some (slice (length base) (longest_common_prefix cands - length base) c, cands)
  end.

Definition desk_complete (d : desk) : desk :=
  match completion (before (d_text d)) with
  | None => d
  | Some (ins, cands) =>
      Desk (text_insert (d_text d) ins) (d_log d) (d_out d ++ match cands with [] => [] | _ => show_candidates cands end)
  end.

Definition desk_key (d : desk) (c : byte) : desk :=
  let '(Text b a) := d_text d in
  if c =? 4 then d else
  if c =? 1 then shown d (Text [] (b ++ a)) else
  if c =? 5 then shown d (Text (b ++ a) []) else
  if c =? 11 then shown d (Text b []) else
  if c =? 21 then shown d (Text [] a) else
  if c =? 23 then match b with [] => d | _ => shown d (Text (without_word b) a) end else
  if c =? 12 then shown (written d CLEAR_SCREEN) (d_text d) else
  if c =? TAB then let d := desk_complete d in shown d (d_text d) else
  if (c =? 127) || (c =? 8) then match b with [] => d | _ => shown d (Text (take (length b - 1) b) a) end else
  if (32 <=? c) && (c <? 127) && (length (b ++ a) <? LINE_SIZE - 1)%nat then shown d (Text (b ++ [c]) a) else d.

Definition desk_delete (d : desk) : desk :=
  match after (d_text d) with [] => d | _ :: a => shown d (Text (before (d_text d)) a) end.

Definition desk_escape (d : desk) (c : byte) : desk :=
  let '(Text b a) := d_text d in
  if c =? 65 then
    let '(r, g) := log_prev (d_log d) in
    match r with Some x => shown (Desk (d_text d) g (d_out d)) (Text x []) | None => Desk (d_text d) g (d_out d) end else
  if c =? 66 then
    let '(r, g) := log_next (d_log d) in
    shown (Desk (d_text d) g (d_out d)) (match r with Some x => Text x [] | None => Text [] [] end) else
  if c =? 67 then match a with [] => d | x :: a => Desk (Text (b ++ [x]) a) (d_log d) (d_out d ++ CURSOR_RIGHT) end else
  if c =? 68 then match last b with None => d | Some x => Desk (Text (take (length b - 1) b) (x :: a)) (d_log d) (d_out d ++ CURSOR_LEFT) end else
  if c =? 72 then shown d (Text [] (b ++ a)) else
  if c =? 70 then shown d (Text (b ++ a) []) else
  d.

(** [None] for the end of input, otherwise the line. *)
Fixpoint desk_loop (input : list (option byte)) (d : desk) : option bytes * desk * list (option byte) :=
  match input with
  | [] => (None, d, [])
  | None :: input => (None, d, input)
  | Some c :: input =>
      if (c =? CR) || (c =? LF) then
        (Some (whole (d_text d)), Desk (d_text d) (log_reset (d_log d)) (d_out d ++ [LF]), input)
      else if (c =? 4) && (length (whole (d_text d)) =? 0)%nat then (None, written d [LF], input)
      else if c =? 3 then (Some [], Desk (Text [] []) (d_log d) (d_out d ++ [LF]), input)
      else if c =? ESC then
        match input with
        | Some a :: input1 =>
            if a =? 91 then
              match input1 with
              | Some b :: input2 =>
                  if b =? 51 then
                    match input2 with
                    | Some t :: input3 => desk_loop input3 (if t =? 126 then desk_delete d else d)
                    | None :: input3 => desk_loop input3 d
                    | [] => desk_loop input2 d
                    end
                  else desk_loop input2 (desk_escape d b)
              | None :: input2 => desk_loop input2 d
              | [] => desk_loop input1 d
              end
            else desk_loop input1 d
        | None :: input1 => desk_loop input1 d
        | [] => desk_loop input d
        end
      else desk_loop input (desk_key d c)
  end.

Definition desk_readline (g : log) (out : bytes) (input : list (option byte)) : option bytes * desk * list (option byte) :=
  desk_loop input (Desk (Text [] []) g (out ++ prompt)).

End Editing.

(** * Refinement *)

(** A string an entry of the history can hold. *)
Definition string_ok (x : bytes) : Prop := NUL ∉ x /\ (length x < LINE_SIZE)%nat.

Record models (e : editor) (d : desk) : Prop := {
  mo_size : length (e_buf e) = LINE_SIZE;
  mo_text : exists r, e_buf e = before (d_text d) ++ after (d_text d) ++ r;
  mo_pos : e_pos e = Z.of_nat (length (before (d_text d)));
  mo_len : e_len e = Z.of_nat (length (whole (d_text d)));
  mo_ok : string_ok (whole (d_text d));
  mo_ring : ring (e_hist e) (d_log d);
  mo_log : Forall string_ok (d_log d).1;
  mo_out : e_out e = d_out d
}.

Lemma LINE_SIZE_pos : (0 < LINE_SIZE)%nat.
Proof. unfold LINE_SIZE. lia. Qed.
#[local] Opaque LINE_SIZE.

(** ** The buffer operations *)

Lemma in_buf_true buf off n : 0 <= off -> 0 <= n -> off + n <= Z.of_nat (length buf) -> in_buf buf off n = true.
Proof. intros. unfold in_buf. by rewrite !(proj2 (Z.leb_le _ _)) by lia. Qed.

Lemma move_down p (x a r : bytes) dst src n : dst = Z.of_nat (length p) -> src = Z.of_nat (length (p ++ x)) -> n = Z.of_nat (length a) ->
  exists r', memmove (p ++ x ++ a ++ r) dst src n = Some (p ++ a ++ r') /\ (length r' = length x + length r)%nat.
Proof.
  intros -> -> ->. unfold memmove. rewrite !in_buf_true by (rewrite ?length_app; lia). cbn [andb]. rewrite !Nat2Z.id. rewrite (app_assoc p x), slice_mid. rewrite <- app_assoc. unfold splice.
  rewrite take_app_length. eexists. split; [reflexivity|]. rewrite length_drop, !length_app. lia.
Qed.

Lemma move_up p a (r : bytes) k dst src n : dst = Z.of_nat (length p + k) -> src = Z.of_nat (length p) -> n = Z.of_nat (length a) -> (k <= length r)%nat ->
  exists g r', memmove (p ++ a ++ r) dst src n = Some (p ++ g ++ a ++ r') /\ length g = k /\ (length r' + k = length r)%nat.
Proof.
  intros -> -> -> Hk. unfold memmove. rewrite !in_buf_true by (rewrite ?length_app; lia). cbn [andb]. rewrite !Nat2Z.id, slice_mid. unfold splice. exists (take k (a ++ r)), (drop (k + length a) (a ++ r)). split_and!.
  - f_equal. rewrite take_app_add, <- app_assoc. do 3 f_equal. rewrite <- Nat.add_assoc. by rewrite drop_app_add.
  - rewrite length_take, length_app. lia.
  - rewrite length_drop, length_app. lia.
Qed.

Lemma memcpy_mid p g r ins dst : dst = Z.of_nat (length p) -> length ins = length g -> memcpy (p ++ g ++ r) dst ins = Some (p ++ ins ++ r).
Proof.
  intros -> Hl. unfold memcpy. rewrite in_buf_true by (rewrite ?length_app; lia). rewrite Nat2Z.id. unfold splice. rewrite take_app_length, Hl, drop_app_add, drop_app_length. done.
Qed.

Lemma put_mid p (r : bytes) i c : i = Z.of_nat (length p) -> (0 < length r)%nat -> exists r', put (p ++ r) i c = Some (p ++ r') /\ length r' = length r /\ head r' = Some c.
Proof.
  intros -> Hr. destruct r as [|x r]; [cbn in Hr; lia|]. unfold put. rewrite in_buf_true by (rewrite ?length_app; cbn; lia). rewrite Nat2Z.id. exists (c :: r). split; [|done]. f_equal. by rewrite insert_app_r_alt, Nat.sub_diag by lia.
Qed.

(** What every operation ends with: the text [t] in the buffer, in the history [g]. *)
Lemma models_line e d buf pos len t r : models e d -> buf = before t ++ after t ++ r -> length buf = LINE_SIZE -> pos = Z.of_nat (length (before t)) -> len = Z.of_nat (length (whole t)) -> string_ok (whole t) ->
  models (set_line e buf pos len) (Desk t (d_log d) (d_out d)).
Proof. intros [] -> Hb -> -> Ht. split; cbn; try done. by exists r. Qed.

Lemma models_emit e d bs : models e d -> models (emit e bs) (written d bs).
Proof. intros []. split; cbn; try done. by rewrite mo_out0. Qed.

Lemma models_hist e d h g : models e d -> ring h g -> Forall string_ok g.1 -> models (set_hist e h) (Desk (d_text d) g (d_out d)).
Proof. intros [] ??. by split. Qed.

Section Refinement.

Context (readdir : bytes -> option (list bytes)) (is_dir : bytes -> bool) (mem : nat -> bool) (prompt : bytes).

Let BL : Z := Z.of_nat LINE_SIZE.

Lemma models_redraw e d : models e d -> exists e', redraw prompt e = Some e' /\ models e' (shown prompt d (d_text d)).
Proof.
  intros M. destruct d as [[b a] g o]. destruct (mo_text _ _ M) as [r Hr]. pose proof (mo_len _ _ M) as Hl. pose proof (mo_pos _ _ M) as Hp. pose proof (mo_ok _ _ M) as [_ Hk]. cbn [d_text before after] in *. unfold whole in Hl, Hk. cbn [before after] in *.
  unfold redraw. rewrite in_buf_true by (rewrite ?(mo_size _ _ M); lia). cbn [negb]. eexists. split; [reflexivity|].
  assert (E : [CR] ++ prompt ++ take (Z.to_nat (e_len e)) (e_buf e) ++ CLEAR_EOL ++
    (if Z.of_nat (length prompt) + e_pos e <? Z.of_nat (length prompt) + e_len e then fit 32 ([ESC; 91] ++ print_dec (Z.of_nat (length prompt) + e_len e - (Z.of_nat (length prompt) + e_pos e)) ++ [68]) else []) = picture prompt (Text b a)).
  { assert (Ht : take (Z.to_nat (e_len e)) (e_buf e) = b ++ a) by (rewrite Hl, Nat2Z.id, Hr, app_assoc; apply take_app_length).
    unfold picture, whole. cbn [before after]. rewrite Ht, Hl. do 4 f_equal. rewrite Hp, length_app. destruct a as [|x a]; [by rewrite (proj2 (Z.ltb_ge _ _)) by (cbn; lia)|].
    rewrite (proj2 (Z.ltb_lt _ _)) by (cbn; lia). do 4 f_equal. lia. }
  rewrite E. exact (models_emit _ _ _ M).
Qed.

(** An operation that leaves the text [t] in the buffer and redraws. *)
Lemma models_shown e d buf pos len t r : models e d -> buf = before t ++ after t ++ r -> length buf = LINE_SIZE -> pos = Z.of_nat (length (before t)) -> len = Z.of_nat (length (whole t)) -> string_ok (whole t) ->
  exists e', redraw prompt (set_line e buf pos len) = Some e' /\ models e' (shown prompt d t).
Proof. intros M ?????. apply (models_redraw _ (Desk t (d_log d) (d_out d))). by eapply models_line. Qed.

Lemma string_ok_sub x y : y ⊆ x -> (length y <= length x)%nat -> string_ok x -> string_ok y.
Proof. intros Hs Hl [Hn Hk]. split; [|lia]. intros H. by apply Hn, Hs. Qed.

Lemma models_home e d : models e d -> exists e', go_home prompt e = Some e' /\ models e' (shown prompt d (Text [] (whole (d_text d)))).
Proof.
  intros M. destruct (mo_text _ _ M) as [r Hr]. unfold go_home. apply (models_shown e d (e_buf e) 0 (e_len e) (Text [] (whole (d_text d))) r M); [|exact (mo_size _ _ M)|done|exact (mo_len _ _ M)|exact (mo_ok _ _ M)].
  cbn [before after app]. unfold whole. by rewrite <- app_assoc.
Qed.

Lemma models_end e d : models e d -> exists e', go_end prompt e = Some e' /\ models e' (shown prompt d (Text (whole (d_text d)) [])).
Proof.
  intros M. destruct (mo_text _ _ M) as [r Hr]. assert (E : whole (Text (whole (d_text d)) []) = whole (d_text d)) by apply app_nil_r.
  unfold go_end. apply (models_shown e d (e_buf e) (e_len e) (e_len e) (Text (whole (d_text d)) []) r M); rewrite ?E; [|exact (mo_size _ _ M)|exact (mo_len _ _ M)|exact (mo_len _ _ M)|exact (mo_ok _ _ M)].
  cbn [before after app]. unfold whole. by rewrite <- app_assoc.
Qed.

(** Removing [x] before the text after the cursor. *)
Lemma models_cut e d b x y a : models e d -> before (d_text d) ++ after (d_text d) = b ++ x ++ a -> before (d_text d) = b ++ y -> (0 < length x)%nat ->
  exists buf, memmove (e_buf e) (Z.of_nat (length b)) (Z.of_nat (length (b ++ x))) (Z.of_nat (length a)) = Some buf /\
    exists buf', put buf (Z.of_nat (length (b ++ a))) NUL = Some buf' /\
      exists e', redraw prompt (set_line e buf' (Z.of_nat (length b)) (Z.of_nat (length (b ++ a)))) = Some e' /\ models e' (shown prompt d (Text b a)).
Proof.
  intros M Ht Hb Hx. destruct (mo_text _ _ M) as [r Hr]. pose proof (mo_size _ _ M) as Hs. pose proof (mo_ok _ _ M) as Ho. unfold whole in Ho. rewrite Ht in Ho. rewrite app_assoc, Ht, <- !app_assoc in Hr. rewrite Hr in Hs |- *.
  destruct (move_down b x a r _ _ _ eq_refl eq_refl eq_refl) as (r' & -> & Hr'). eexists. split; [reflexivity|]. rewrite app_assoc. destruct (put_mid (b ++ a) r' _ NUL eq_refl) as (r2 & -> & Hr2 & _); [lia|]. eexists. split; [reflexivity|].
  eapply (models_shown e d _ _ _ (Text b a) r2); [done|cbn; by rewrite <- app_assoc|rewrite !length_app in *; lia|done|done|]. eapply string_ok_sub; [|idtac|exact Ho]; unfold whole; cbn; [|rewrite !length_app; lia].
  intros z. rewrite !elem_of_app. tauto.
Qed.

Lemma models_insert_text e d ins : models e d -> NUL ∉ ins -> exists e', insert_text e ins = Some e' /\ models e' (Desk (text_insert (d_text d) ins) (d_log d) (d_out d)).
Proof.
  intros M Hins. destruct d as [[b a] g o]. destruct (mo_text _ _ M) as [r Hr]. pose proof (mo_size _ _ M) as Hs. pose proof (mo_ok _ _ M) as [Hn Hk]. cbn [d_text before after] in *. unfold whole in *. cbn [before after d_text] in *.
  unfold insert_text, text_insert, whole. cbn [before after d_text d_log d_out]. rewrite (mo_len _ _ M), (mo_pos _ _ M). cbn [d_text before after]. unfold whole. cbn [before after]. destruct (Nat.ltb_spec (length (b ++ a) + length ins) LINE_SIZE) as [Hl|Hl].
  2: { rewrite (proj2 (Z.ltb_ge _ _)) by lia. exists e. split; [done|exact M]. }
  rewrite (proj2 (Z.ltb_lt _ _)) by lia. rewrite Hr in Hs |- *. rewrite !length_app in *. destruct (move_up b a r (length ins) (Z.of_nat (length b) + Z.of_nat (length ins)) _ (Z.of_nat (length b + length a) - Z.of_nat (length b)) ltac:(lia) eq_refl ltac:(lia) ltac:(lia)) as (w & r' & -> & Hw & Hr'). cbn [mbind option_bind].
  rewrite (memcpy_mid b w (a ++ r') ins) by (done || lia). cbn [mbind option_bind]. replace (b ++ ins ++ a ++ r') with ((b ++ ins ++ a) ++ r') by (by rewrite <- !app_assoc).
  destruct (put_mid (b ++ ins ++ a) r' (Z.of_nat (length b + length a) + Z.of_nat (length ins)) NUL) as (r2 & -> & Hr2 & _); [rewrite !length_app; lia|lia|]. cbn [mbind option_bind]. eexists. split; [reflexivity|].
  apply (models_line e (Desk (Text b a) g o) _ _ _ (Text (b ++ ins) a) r2 M); cbn; unfold whole; cbn; rewrite <- ?app_assoc; [done|rewrite !length_app; lia|rewrite length_app; lia|rewrite !length_app; lia|]. split; [|rewrite !length_app; lia].
  rewrite !not_elem_of_app in *. tauto.
Qed.

Lemma models_backspace e d : models e d -> exists e', backspace prompt e = Some e' /\ models e' (match before (d_text d) with [] => d | b => shown prompt d (Text (take (length b - 1) b) (after (d_text d))) end).
Proof.
  intros M. unfold backspace. rewrite (mo_pos _ _ M). destruct (before (d_text d)) as [|c0 b0] eqn:Eb; [cbn; by exists e|]. rewrite (proj2 (Z.ltb_lt _ _)) by (cbn; lia). set (b := c0 :: b0) in *.
  destruct (exists_last (l := b)) as (b' & x & E); [done|]. rewrite E, length_app. cbn [length]. rewrite Nat.add_sub, take_app_length.
  destruct (models_cut e d b' [x] [x] (after (d_text d)) M) as (buf & Hm & buf' & Hp & Hr); [rewrite Eb, E, <- app_assoc; done|by rewrite Eb|cbn; lia|].
  rewrite (mo_len _ _ M). unfold whole. rewrite Eb, E. rewrite !length_app in *. cbn [length] in *.
  replace (Z.of_nat (length b' + 1) - 1) with (Z.of_nat (length b')) by lia. replace (Z.of_nat (length b' + 1 + length (after (d_text d))) - Z.of_nat (length b' + 1)) with (Z.of_nat (length (after (d_text d)))) by lia.
  replace (Z.of_nat (length b' + 1 + length (after (d_text d))) - 1) with (Z.of_nat (length b' + length (after (d_text d)))) by lia. rewrite Hm. cbn [mbind option_bind]. rewrite Hp. exact Hr.
Qed.

Lemma models_delete e d : models e d -> exists e', delete_char prompt e = Some e' /\ models e' (desk_delete prompt d).
Proof.
  intros M. unfold delete_char, desk_delete. rewrite (mo_pos _ _ M), (mo_len _ _ M). unfold whole. rewrite length_app. destruct (after (d_text d)) as [|x a] eqn:Ea; [rewrite (proj2 (Z.ltb_ge _ _)) by (cbn; lia); by exists e|].
  rewrite (proj2 (Z.ltb_lt _ _)) by (cbn; lia). destruct (models_cut e d (before (d_text d)) [x] [] a M) as (buf & Hm & buf' & Hp & Hr); [by rewrite Ea|by rewrite app_nil_r|cbn; lia|].
  rewrite !length_app in *. cbn [length] in *. replace (Z.of_nat (length (before (d_text d))) + 1) with (Z.of_nat (length (before (d_text d)) + 1)) by lia.
  replace (Z.of_nat (length (before (d_text d)) + S (length a)) - Z.of_nat (length (before (d_text d))) - 1) with (Z.of_nat (length a)) by lia.
  replace (Z.of_nat (length (before (d_text d)) + S (length a)) - 1) with (Z.of_nat (length (before (d_text d)) + length a)) by lia. rewrite Hm. cbn [mbind option_bind]. rewrite Hp. exact Hr.
Qed.

Lemma without_word_prefix b : exists y, b = without_word b ++ y /\ (b <> [] -> y <> []).
Proof.
  unfold without_word. set (u := rev b). exists (rev (take_while (is_c SP) u ++ take_while (not_c SP) (drop_while (is_c SP) u))). split.
  - rewrite <- rev_app_distr, <- app_assoc, !span_app. symmetry. apply rev_involutive.
  - intros Hb E. apply (f_equal (@rev byte)) in E. rewrite rev_involutive in E. cbn in E. apply app_eq_nil in E as [E1 E2]. assert (Hu : drop_while (is_c SP) u = u) by (rewrite <- (span_app (is_c SP) u) at 2; by rewrite E1). rewrite Hu in E2.
    destruct u as [|c u'] eqn:Eu; [apply Hb; subst u; by rewrite <- (rev_involutive b), Eu|]. unfold take_while in E1, E2. cbn in E1, E2. unfold is_c, not_c in *.
    destruct (c =? SP); cbn in E1, E2; [by destruct (span (λ x, x =? SP) u')|by destruct (span (λ x, negb (x =? SP)) u')].
Qed.

Lemma models_kill_word e d : models e d -> exists e', kill_word prompt e = Some e' /\ models e' (match before (d_text d) with [] => d | b => shown prompt d (Text (without_word b) (after (d_text d))) end).
Proof.
  intros M. unfold kill_word. destruct (mo_text _ _ M) as [r Hr]. pose proof (mo_len _ _ M) as Hl. pose proof (mo_ok _ _ M) as [_ Hk]. unfold whole in Hl, Hk. rewrite length_app in Hl, Hk.
  assert (Hw : Z.of_nat (word_start (take (Z.to_nat (e_pos e)) (e_buf e))) = Z.of_nat (length (without_word (before (d_text d))))).
  { rewrite (mo_pos _ _ M), Nat2Z.id, Hr, take_app_length. unfold without_word, word_start. by rewrite length_rev. }
  rewrite Hw, Hl, (mo_pos _ _ M). destruct (before (d_text d)) as [|c0 b0] eqn:Eb; [cbn; by exists e|]. rewrite (proj2 (Z.ltb_lt _ _)) by (cbn; lia). set (b := c0 :: b0) in *.
  rewrite in_buf_true by (rewrite ?(mo_size _ _ M); lia). cbn [negb]. destruct (without_word_prefix b) as (y & Ey & Hy). specialize (Hy ltac:(done)).
  destruct (models_cut e d (without_word b) y y (after (d_text d)) M) as (buf & Hm & buf' & Hp & Hr'); [rewrite Eb, app_assoc; by rewrite <- Ey|by rewrite Eb|destruct y; [done|cbn; lia]|].
  rewrite <- Ey in Hm. replace (Z.of_nat (length b + length (after (d_text d))) - Z.of_nat (length b)) with (Z.of_nat (length (after (d_text d)))) by lia.
  replace (Z.of_nat (length b + length (after (d_text d))) - (Z.of_nat (length b) - Z.of_nat (length (without_word b)))) with (Z.of_nat (length (without_word b ++ after (d_text d)))) by (rewrite length_app; lia).
  rewrite Hm. cbn [mbind option_bind]. rewrite Hp. exact Hr'.
Qed.

Lemma models_insert e d c : models e d -> exists e', insert_char prompt BL e c = Some e' /\
  models e' (if (32 <=? c) && (c <? 127) && (length (whole (d_text d)) <? LINE_SIZE - 1)%nat then shown prompt d (Text (before (d_text d) ++ [c]) (after (d_text d))) else d).
Proof.
  intros M. unfold insert_char. assert (HL : (0 < LINE_SIZE)%nat) by (pose proof (mo_ok _ _ M) as [_ ?]; lia).
  assert (Hc : (e_len e <? BL - 1) = (length (whole (d_text d)) <? LINE_SIZE - 1)%nat) by (rewrite (mo_len _ _ M); unfold BL; destruct (Nat.ltb_spec (length (whole (d_text d))) (LINE_SIZE - 1)); [apply Z.ltb_lt|apply Z.ltb_ge]; lia).
  rewrite Hc. destruct ((32 <=? c) && (c <? 127)) eqn:Ep; [|by exists e]. destruct (Nat.ltb_spec (length (whole (d_text d))) (LINE_SIZE - 1)) as [Hl|]; [|by exists e]. cbn [andb]. boolify. clear Hc.
  destruct (models_insert_text e d [c] M) as (e' & Hi & M'); [rewrite list_elem_of_singleton; unfold NUL; lia|].
  destruct (mo_text _ _ M) as [r Hr]. pose proof (mo_size _ _ M) as Hs. pose proof (mo_ok _ _ M) as [Hn _]. unfold whole in *. rewrite Hr in Hs |- *. rewrite (mo_len _ _ M), (mo_pos _ _ M). unfold whole. rewrite !length_app in *.
  destruct (move_up (before (d_text d)) (after (d_text d)) r 1 (Z.of_nat (length (before (d_text d))) + 1) (Z.of_nat (length (before (d_text d)))) (Z.of_nat (length (before (d_text d)) + length (after (d_text d))) - Z.of_nat (length (before (d_text d)))) ltac:(lia) eq_refl ltac:(lia) ltac:(lia)) as (w & r' & -> & Hw & Hr'). cbn [mbind option_bind].
  destruct w as [|w0 [|? ?]]; try (cbn in Hw; lia). destruct (put_mid (before (d_text d)) ([w0] ++ after (d_text d) ++ r') (Z.of_nat (length (before (d_text d)))) c eq_refl) as (r1 & Hp1 & _); [cbn; lia|].
  assert (E1 : r1 = c :: after (d_text d) ++ r').
  { unfold put in Hp1. rewrite in_buf_true in Hp1 by (rewrite ?length_app; cbn; lia). rewrite Nat2Z.id, insert_app_r_alt, Nat.sub_diag in Hp1 by lia. injection Hp1 as Hp1. by apply app_inv_head in Hp1. }
  rewrite Hp1, E1. cbn [mbind option_bind]. replace (before (d_text d) ++ c :: after (d_text d) ++ r') with ((before (d_text d) ++ [c] ++ after (d_text d)) ++ r') by (by rewrite <- !app_assoc).
  destruct (put_mid (before (d_text d) ++ [c] ++ after (d_text d)) r' (Z.of_nat (length (before (d_text d)) + length (after (d_text d))) + 1) NUL) as (r2 & -> & Hr2 & _); [rewrite !length_app; cbn; lia|lia|]. cbn [mbind option_bind].
  eapply (models_shown e d _ _ _ (Text (before (d_text d) ++ [c]) (after (d_text d))) r2); cbn [before after]; unfold whole; cbn [before after]; [done|by rewrite <- !app_assoc|rewrite !length_app; cbn; lia|rewrite length_app; cbn; lia|rewrite !length_app; cbn; lia|].
  split; [|rewrite !length_app; cbn; lia]. rewrite !not_elem_of_app, list_elem_of_singleton in *. unfold NUL in *. repeat split; try tauto. lia.
Qed.

Lemma models_recall e d x : models e d -> string_ok x -> exists e', recall prompt BL e x = Some e' /\ models e' (shown prompt d (Text x [])).
Proof.
  intros M [Hn Hk]. unfold recall. pose proof (mo_size _ _ M) as Hs. unfold strncpy, BL. rewrite in_buf_true by lia. cbn [mbind option_bind]. replace (Z.to_nat (Z.of_nat LINE_SIZE - 1)) with (LINE_SIZE - 1)%nat by lia.
  assert (E : splice 0 (take (LINE_SIZE - 1) (x ++ repeat NUL (LINE_SIZE - 1))) (e_buf e) = (x ++ repeat NUL (LINE_SIZE - 1 - length x)) ++ drop (LINE_SIZE - 1) (e_buf e)).
  { unfold splice. cbn [take app]. assert (Et : take (LINE_SIZE - 1) (x ++ repeat NUL (LINE_SIZE - 1)) = x ++ repeat NUL (LINE_SIZE - 1 - length x)).
    { replace (LINE_SIZE - 1)%nat with (length x + (LINE_SIZE - 1 - length x))%nat at 1 by lia. rewrite take_app_add. f_equal. replace (LINE_SIZE - 1)%nat with ((LINE_SIZE - 1 - length x) + length x)%nat at 2 by lia. rewrite repeat_app, take_app_le by (rewrite repeat_length; lia). apply take_ge. rewrite repeat_length. lia. }
    rewrite Et, take_0. cbn [app]. f_equal. cbn [Nat.add]. rewrite length_app, repeat_length. f_equal. lia. }
  rewrite E. destruct (put_mid (x ++ repeat NUL (LINE_SIZE - 1 - length x)) (drop (LINE_SIZE - 1) (e_buf e)) (Z.of_nat LINE_SIZE - 1) NUL) as (r & -> & Hr & Hh); [rewrite length_app, repeat_length; lia|rewrite length_drop; lia|]. cbn [mbind option_bind].
  rewrite length_drop, Hs in Hr. destruct r as [|z [|? ?]]; [done|injection Hh as ->|cbn in Hr; lia]. rewrite <- app_assoc. change [NUL] with (repeat NUL 1). rewrite <- repeat_app. rewrite cstr_padded by (done || lia).
  apply (models_shown e d _ _ _ (Text x []) (repeat NUL (LINE_SIZE - 1 - length x + 1)) M); cbn [before after app]; unfold whole; cbn [before after]; rewrite ?app_nil_r; [done|rewrite length_app, repeat_length; lia|done|done|done].
Qed.

(** ** Completion *)

(** Directory entries are C strings. *)
Hypothesis readdir_strings : forall p names, readdir p = Some names -> Forall (λ n, NUL ∉ n) names.

Lemma collect_all (P : bytes -> Prop) keep names k cands : Forall P names -> Forall P cands -> Forall P (snd (collect mem keep names k cands)).
Proof.
  intros Hn. revert k cands. induction Hn as [|n names Hn Hns IH]; intros k cands Hc; [done|]. cbn [collect]. destruct (MAX_CANDIDATES <=? length cands)%nat; [done|]. destruct (keep n); [|by apply IH]. apply IH. destruct (mem k); [|done]. apply Forall_app. by split; [|constructor].
Qed.

Lemma command_candidates_strings prefix : Forall (λ n, NUL ∉ n) (command_candidates readdir mem prefix).
Proof.
  unfold command_candidates. assert (Hb : Forall (λ n, NUL ∉ n) (snd (collect mem (starts_with prefix) builtins 0 []))).
  { apply collect_all; [|done]. repeat constructor; by apply has_char_false. }
  destruct (collect mem (starts_with prefix) builtins 0 []) as [k cands]. destruct (readdir (B "/bin")) as [names|] eqn:E; [|done]. apply collect_all; [by eapply readdir_strings|done].
Qed.

Lemma file_candidates_strings prefix cands : file_candidates readdir mem prefix = Some cands -> Forall (λ n, NUL ∉ n) cands.
Proof.
  unfold file_candidates. destruct (split_dir_base prefix 256) as [dir base]. destruct (readdir dir) as [names|] eqn:E; [|done]. intros [= <-]. apply collect_all; [by eapply readdir_strings|done].
Qed.

Lemma models_desk e g o t : models e (Desk t g o) -> models e (Desk t g (o ++ [])).
Proof. by rewrite app_nil_r. Qed.

Lemma extract_no_nul b : NUL ∉ b -> cstr (extract_prefix b 256) = extract_prefix b 256.
Proof.
  intros Hb. apply cstr_id. intros H. apply fit_elem in H. unfold last_word in H. rewrite elem_of_rev in H. apply Hb. rewrite <- elem_of_rev. rewrite <- (span_app not_blank (rev b)). apply elem_of_app. by left.
Qed.

Lemma models_complete e d : models e d -> exists e', complete readdir is_dir mem e = Some e' /\ models e' (desk_complete readdir is_dir mem d).
Proof.
  intros M. destruct (mo_text _ _ M) as [r Hr]. pose proof (mo_ok _ _ M) as [Hn Hk]. unfold whole in Hn, Hk. rewrite length_app in Hk. rewrite not_elem_of_app in Hn.
  unfold complete, desk_complete, completion. rewrite (mo_pos _ _ M). rewrite in_buf_true by (rewrite ?(mo_size _ _ M); lia). cbn [negb]. rewrite Nat2Z.id, Hr, take_app_length. rewrite extract_no_nul by tauto. set (b := before (d_text d)). set (prefix := extract_prefix b 256).
  assert (Hc : forall cands, (if is_first_token b then Some (command_candidates readdir mem prefix) else file_candidates readdir mem prefix) = Some cands -> Forall (λ n, NUL ∉ n) cands).
  { intros cands. destruct (is_first_token b); [intros [= <-]; apply command_candidates_strings|apply file_candidates_strings]. }
  destruct (if is_first_token b then (B "/bin/", prefix) else split_dir_base prefix 256) as [dir base]. destruct (if is_first_token b then _ else _) as [cands|]; [|by exists e]. specialize (Hc cands eq_refl).
  destruct cands as [|c [|c2 cands]]; [by exists e| |].
  - inversion Hc as [|? ? Hc1 _]; subst. destruct (models_insert_text e d (drop (length base) c ++ [if is_dir (fit 512 (dir ++ c)) then SLASH else SP]) M) as (e' & -> & M').
    { rewrite not_elem_of_app, list_elem_of_singleton. split; [|by destruct (is_dir _)]. intros H. apply Hc1. rewrite <- (take_drop (length base) c). apply elem_of_app. by right. }
    exists e'. split; [done|]. by apply models_desk.
  - inversion Hc as [|? ? Hc1 _]; subst. set (cs := c :: c2 :: cands). set (lcp := longest_common_prefix cs).
    assert (Hi : exists e', (if (length base <? lcp)%nat then insert_text e (slice (length base) (lcp - length base) c) else Some e) = Some e' /\ models e' (Desk (text_insert (d_text d) (slice (length base) (lcp - length base) c)) (d_log d) (d_out d))).
    { destruct (Nat.ltb_spec (length base) lcp) as [Hl|Hl].
      - apply models_insert_text; [done|]. unfold slice. intros H. apply Hc1. rewrite <- (take_drop (length base) c). apply elem_of_app. right. rewrite <- (take_drop (lcp - length base) (drop (length base) c)). apply elem_of_app. by left.
      - exists e. split; [done|]. replace (lcp - length base)%nat with 0%nat by lia. unfold slice. rewrite take_0. unfold text_insert. rewrite app_nil_r. destruct (_ <? _)%nat; destruct d as [[? ?] ? ?]; exact M. }
    destruct Hi as (e' & -> & M'). cbn [mbind option_bind]. eexists. split; [reflexivity|]. exact (models_emit _ _ (show_candidates cs) M').
Qed.

(** ** The keys and the loop *)

Lemma models_key e d c : models e d -> exists e', control_key readdir is_dir mem prompt BL e c = Some e' /\ models e' (desk_key readdir is_dir mem prompt d c).
Proof.
  intros M. unfold control_key, desk_key. destruct d as [[b a] g o] eqn:Ed. cbn [d_text]. rewrite <- Ed in *. assert (Hw : whole (d_text d) = b ++ a) by (by subst). assert (Ht : d_text d = Text b a) by (by subst). clear Ed.
  pose proof (mo_pos _ _ M) as Hp. pose proof (mo_len _ _ M) as Hl. pose proof (mo_size _ _ M) as Hs. pose proof (mo_ok _ _ M) as Ho. destruct (mo_text _ _ M) as [r Hr]. rewrite Ht in Hp, Hr. rewrite Hw in Hl, Ho. cbn [before after] in Hp, Hr.
  destruct (c =? 4); [by exists e|]. destruct (c =? 1); [rewrite <- Hw; by apply models_home|]. destruct (c =? 5); [rewrite <- Hw; by apply models_end|]. destruct Ho as [Hn Hk]. rewrite length_app in Hk. rewrite not_elem_of_app in Hn. destruct (c =? 11).
  { destruct (put_mid b (a ++ r) (e_pos e) NUL Hp) as (r' & Hpt & Hr' & _); [rewrite Hr in Hs; rewrite !length_app in *; lia|]. rewrite Hr, Hpt. cbn [mbind option_bind].
    apply (models_shown e d _ _ _ (Text b []) r' M); cbn [before after app]; unfold whole; cbn [before after]; rewrite ?app_nil_r; [done|rewrite Hr in Hs; rewrite !length_app in *; lia|done|done|]. split; [tauto|lia]. }
  destruct (c =? 21).
  { assert (Hrest : exists buf, memmove (e_buf e) 0 (e_pos e) (e_len e - e_pos e) = Some buf /\ exists buf', put buf (e_len e - e_pos e) NUL = Some buf' /\ exists r', buf' = a ++ r' /\ length buf' = LINE_SIZE).
    { destruct (move_down [] b a r 0 (e_pos e) (e_len e - e_pos e)) as (r' & Hm & Hr'); [done|done|rewrite Hp, Hl, length_app; lia|]. cbn [app] in Hm. rewrite Hr, Hm. eexists. split; [reflexivity|]. rewrite Hr, !length_app in Hs.
      destruct (put_mid a r' (e_len e - e_pos e) NUL) as (r2 & -> & Hr2 & _); [rewrite Hp, Hl, length_app; lia|lia|]. eexists. split; [reflexivity|]. exists r2. split; [done|]. rewrite length_app. lia. }
    destruct Hrest as (buf & -> & buf' & Hp' & r' & Hb & Hsz). cbn [mbind option_bind]. rewrite Hp'. cbn [mbind option_bind]. apply (models_shown e d _ _ _ (Text [] a) r' M); cbn [before after app]; unfold whole; cbn [before after app]; [done|done|done|rewrite Hp, Hl, length_app; lia|]. split; [tauto|lia]. }
  destruct (c =? 23); [pose proof (models_kill_word e d M) as H; rewrite Ht in H; destruct b; exact H|]. destruct (c =? 12).
  { pose proof (models_redraw (emit e CLEAR_SCREEN) (written d CLEAR_SCREEN) (models_emit _ _ _ M)) as H. cbn [written d_text] in H. rewrite Ht in H. exact H. }
  destruct (c =? TAB); [destruct (models_complete e d M) as (e' & -> & M'); cbn [mbind option_bind]; exact (models_redraw _ _ M')|]. destruct ((c =? 127) || (c =? 8)); [pose proof (models_backspace e d M) as H; rewrite Ht in H; destruct b; exact H|].
  pose proof (models_insert e d c M) as H. rewrite Hw, Ht in H. exact H.
Qed.

Lemma log_prev_ok g : Forall string_ok g.1 -> Forall string_ok (snd (log_prev g)).1 /\ match fst (log_prev g) with Some x => string_ok x | None => True end.
Proof. intros H. unfold log_prev. destruct (g.1 !! g.2) as [x|] eqn:E; [|done]. split; [done|]. by apply (Forall_lookup_1 _ _ _ _ H E). Qed.

Lemma log_next_ok g : Forall string_ok g.1 -> Forall string_ok (snd (log_next g)).1 /\ match fst (log_next g) with Some x => string_ok x | None => True end.
Proof. intros H. unfold log_next. destruct (g.2) as [|[|c]]; [done|done|]. cbn. split; [done|]. destruct (g.1 !! c) as [x|] eqn:E; [|done]. by apply (Forall_lookup_1 _ _ _ _ H E). Qed.

Lemma models_escape e d c : models e d -> exists e', escape_key prompt BL e c = Some e' /\ models e' (desk_escape prompt d c).
Proof.
  intros M. unfold escape_key, desk_escape. destruct d as [[b a] g o] eqn:Ed. cbn [d_text]. rewrite <- Ed in *. assert (Hw : whole (d_text d) = b ++ a) by (by subst). assert (Ht : d_text d = Text b a) by (by subst). assert (Hg : d_log d = g) by (by subst). clear Ed.
  pose proof (mo_pos _ _ M) as Hp. pose proof (mo_len _ _ M) as Hl. pose proof (mo_size _ _ M) as Hs. pose proof (mo_ok _ _ M) as Ho. destruct (mo_text _ _ M) as [r Hr]. rewrite Ht in Hp, Hr. rewrite Hw in Hl, Ho. cbn [before after] in Hp, Hr. destruct (c =? 65).
  { destruct (hist_prev_ring _ _ (mo_ring _ _ M)) as (h' & -> & R' & _). destruct (log_prev_ok _ (mo_log _ _ M)) as [Hlog Hx]. cbn [mbind option_bind]. destruct (log_prev (d_log d)) as [[x|] g']; cbn [fst snd] in *.
    - apply (models_recall (set_hist e h') (Desk (Text b a) g' (d_out d))); [|done]. rewrite <- Ht. by apply models_hist.
    - eexists. split; [reflexivity|]. rewrite <- Ht. by apply models_hist. }
  destruct (c =? 66).
  { destruct (hist_next_ring _ _ (mo_ring _ _ M)) as (h' & -> & R' & _). destruct (log_next_ok _ (mo_log _ _ M)) as [Hlog Hx]. cbn [mbind option_bind]. destruct (log_next (d_log d)) as [[x|] g']; cbn [fst snd] in *.
    - apply (models_recall (set_hist e h') (Desk (Text b a) g' (d_out d))); [|done]. rewrite <- Ht. by apply models_hist.
    - destruct Ho as [_ Hk]. destruct (put_mid [] (e_buf e) 0 NUL eq_refl) as (r' & Hpt & Hr' & _); [lia|]. cbn [app] in Hpt. rewrite Hpt. cbn [mbind option_bind].
      apply (models_shown (set_hist e h') (Desk (Text b a) g' (d_out d)) r' 0 0 (Text [] []) r'); [rewrite <- Ht; by apply models_hist|done|by rewrite Hr'|done|done|]. split; [by intros ?%elem_of_nil|cbn; lia]. }
  destruct (c =? 67).
  { rewrite Hp, Hl, length_app. destruct a as [|x a]; [rewrite (proj2 (Z.ltb_ge _ _)) by (cbn; lia); by exists e|]. rewrite (proj2 (Z.ltb_lt _ _)) by (cbn; lia). eexists. split; [reflexivity|].
    apply (models_emit _ (Desk (Text (b ++ [x]) a) (d_log d) (d_out d))). apply (models_line e d _ _ _ (Text (b ++ [x]) a) r M); cbn [before after]; unfold whole; cbn [before after]; rewrite <- ?app_assoc; [done|done|rewrite length_app; cbn; lia|rewrite length_app; done|exact Ho]. }
  destruct (c =? 68).
  { rewrite Hp. destruct (last b) as [x|] eqn:El; [|apply last_None in El as ->; cbn; by exists e]. apply last_Some in El as [b' ->]. rewrite length_app. cbn [length]. rewrite Nat.add_sub, take_app_length, (proj2 (Z.ltb_lt _ _)) by lia. eexists. split; [reflexivity|].
    apply (models_emit _ (Desk (Text b' (x :: a)) (d_log d) (d_out d))). rewrite <- app_assoc in Hr, Hl, Ho. apply (models_line e d _ _ _ (Text b' (x :: a)) r M); cbn [before after]; unfold whole; cbn [before after]; [done|done|lia|done|exact Ho]. }
  destruct (c =? 72); [rewrite <- Hw; by apply models_home|]. destruct (c =? 70); [rewrite <- Hw; by apply models_end|]. by exists e.
Qed.

(** What reading a line ends with. *)
Definition same_end (x : Z * editor * list (option byte)) (y : option bytes * desk * list (option byte)) : Prop :=
  let '(r, e, rest) := x in let '(l, d, rest') := y in
  rest = rest' /\ e_out e = d_out d /\ ring (e_hist e) (d_log d) /\ Forall string_ok (d_log d).1 /\ length (e_buf e) = LINE_SIZE /\
  match l with
  | None => r = -1
  | Some line => r = Z.of_nat (length line) /\ cstr (e_buf e) = line /\ string_ok line
  end.

Lemma loop_refines n input e d : (length input <= n)%nat -> models e d ->
  exists x, editor_loop readdir is_dir mem prompt BL input e = Some x /\ same_end x (desk_loop readdir is_dir mem prompt input d).
Proof.
  revert input e d. induction n as [|n IH]; intros input e d Hn M; (destruct input as [|[c|] input]; [eexists; split; [reflexivity|]; split_and!; try done; apply M| |]); try (cbn in Hn; lia).
  2: { eexists; split; [reflexivity|]; split_and!; try done; apply M. }
  cbn [length] in Hn. cbn [editor_loop desk_loop]. destruct (mo_text _ _ M) as [r Hr]. pose proof (mo_size _ _ M) as Hs. pose proof (mo_ok _ _ M) as Ho. destruct Ho as [Hnul Hk]. destruct ((c =? CR) || (c =? LF)).
  { rewrite Hr in Hs |- *. rewrite app_assoc in *. fold (whole (d_text d)) in *. destruct (put_mid (whole (d_text d)) r (e_len e) NUL (mo_len _ _ M)) as (r' & -> & Hr' & Hh); [rewrite length_app in Hs; lia|]. cbn [mbind option_bind].
    eexists. split; [reflexivity|]. pose proof (mo_ring _ _ M) as R. split_and!; cbn; [done|by rewrite (mo_out _ _ M)| |apply M|rewrite length_app in *; lia|apply M|by apply cstr_stop|done]. destruct (d_log d) as [l k]. apply (ring_cursor_set _ l k 0 R). lia. }
  assert (Hz : (e_len e =? 0) = (length (whole (d_text d)) =? 0)%nat) by (rewrite (mo_len _ _ M); destruct (length (whole (d_text d))); done). rewrite Hz. destruct ((c =? 4) && _).
  { eexists. split; [reflexivity|]. split_and!; cbn; [done|by rewrite (mo_out _ _ M)|apply M|apply M|done|done]. }
  destruct (c =? 3).
  { destruct (put_mid [] (e_buf e) 0 NUL eq_refl) as (r' & Hp & Hr' & Hh); [lia|]. cbn [app] in Hp. rewrite Hp. cbn [mbind option_bind]. eexists. split; [reflexivity|].
    split_and!; cbn; [done|by rewrite (mo_out _ _ M)|apply M|apply M|by rewrite Hr'|done|exact (cstr_stop [] r' (not_elem_of_nil _) Hh)|split; [by intros ?%elem_of_nil|cbn; lia]]. }
  destruct (c =? ESC); [|destruct (models_key e d c M) as (e' & -> & M'); cbn [mbind option_bind]; apply IH; [lia|done]].
  destruct input as [|[a|] input1]; cbn [length] in Hn; [apply IH; [cbn; lia|done]| |apply IH; [lia|done]]. destruct (a =? 91); [|apply IH; [lia|done]].
  destruct input1 as [|[b|] input2]; cbn [length] in Hn; [apply IH; [cbn; lia|done]| |apply IH; [lia|done]].
  destruct (b =? 51); [|destruct (models_escape e d b M) as (e' & -> & M'); cbn [mbind option_bind]; apply IH; [lia|done]].
  destruct input2 as [|[t|] input3]; cbn [length] in Hn; [apply IH; [cbn; lia|done]| |apply IH; [lia|done]].
  destruct (t =? 126); [destruct (models_delete e d M) as (e' & -> & M')|]; cbn [mbind option_bind]; (apply IH; [lia|done]).
Qed.

(** The editor at its first prompt. *)
Lemma readline_start buf h g out : length buf = LINE_SIZE -> ring h g -> Forall string_ok g.1 ->
  exists buf', put buf 0 NUL = Some buf' /\ models (Editor buf' 0 0 h (out ++ prompt)) (Desk (Text [] []) g (out ++ prompt)).
Proof.
  intros Hb R Hg. destruct (put_mid [] buf 0 NUL eq_refl) as (r & Hp & Hr & _); [rewrite Hb; exact LINE_SIZE_pos|]. exists r. split; [exact Hp|].
  split; cbn; [by rewrite Hr|by exists r|done|done| |done|done|done]. split; [by intros ?%elem_of_nil|exact LINE_SIZE_pos].
Qed.

(** C25: Whatever is typed, with reads that fail anywhere, the line editor ends, never
    leaves its buffer of 4096 bytes or the ring of the history, and is the editor of a
    text with a cursor: the line it returns, the history it leaves and every byte it
    writes to the terminal are those of the text. *)
Theorem editor_refines buf h g out input : length buf = LINE_SIZE -> ring h g -> Forall string_ok g.1 ->
  exists x, editor_readline readdir is_dir mem prompt (Z.of_nat LINE_SIZE) buf h out input = Some x /\ same_end x (desk_readline readdir is_dir mem prompt g out input).
Proof.
  intros Hb R Hg. unfold editor_readline, desk_readline. destruct (readline_start buf h g out Hb R Hg) as (buf' & -> & M). by apply (loop_refines (length input)).
Qed.

End Refinement.
