(* ===== verification/StshEditorCases.v ===== *)
(** The interactive shell: a session stays within its buffers; what completion
    inserts; concrete sessions. *)

From S2P Require Import Prelude CString Posix StshEnv StshExpand StshMain StshEditor StshHistory StshEditorRefine.
Local Open Scope Z_scope.

(** * Sessions *)

#[local] Opaque LINE_SIZE.

Section Sessions.

Context (readdir : bytes -> option (list bytes)) (is_dir : bytes -> bool) (mem : nat -> bool) (top_prompt : bytes).

Lemma desk_loop_rest prompt n input d : (length input <= n)%nat ->
  let '(l, _, rest) := desk_loop readdir is_dir mem prompt input d in (length rest <= length input)%nat /\ (l <> None -> (length rest < length input)%nat).
Proof.
  revert input d. induction n as [|n IH]; intros input d Hn; (destruct input as [|[c|] input]; [done| |]); try (cbn in Hn; lia); cbn [desk_loop length] in *; [|split; [lia|done]].
  assert (Hgo : forall i d, (length i <= length input)%nat -> let '(l, _, rest) := desk_loop readdir is_dir mem prompt i d in (length rest <= S (length input))%nat /\ (l <> None -> (length rest < S (length input))%nat)).
  { intros i d' Hi. specialize (IH i d' ltac:(lia)). destruct (desk_loop _ _ _ _ i d') as [[l d2] rest]. split; [lia|]. intros Hl. destruct IH as [? H]. specialize (H Hl). lia. }
  destruct (_ || _); [split; [lia|intros _; lia]|]. destruct (_ && _); [split; [lia|done]|]. destruct (c =? 3); [split; [lia|intros _; lia]|]. destruct (c =? ESC); [|by apply Hgo].
  destruct input as [|[a|] input]; [by apply Hgo| |apply Hgo; cbn; lia]. destruct (a =? 91); [|apply Hgo; cbn; lia]. destruct input as [|[b|] input]; [apply Hgo; cbn; lia| |apply Hgo; cbn; lia]. destruct (b =? 51); [|apply Hgo; cbn; lia].
  destruct input as [|[t|] input]; apply Hgo; cbn; lia.
Qed.

Lemma log_add_ok g line : NUL ∉ line -> Forall string_ok g.1 -> Forall string_ok (log_add g line).1.
Proof.
  intros Hl Hg. unfold log_add. case_bool_decide; [done|]. unfold log_push. cbn [fst]. apply Forall_take. constructor; [|done]. split; [intros Hx; by apply fit_elem in Hx|apply length_fit, LINE_SIZE_pos].
Qed.

Hypothesis readdir_strings : forall p names, readdir p = Some names -> Forall (λ n, NUL ∉ n) names.

(** C26: A session of the interactive shell ends when its input does and never leaves a
    buffer, whatever is typed and whichever reads fail: the editor, completion, the
    history and the collecting of lines that belong together keep each other's
    conditions, and every program that is run is NUL-free text below 64 KiB ending in a
    newline. *)
Theorem session_safe fuel line h g acc input : length line = LINE_SIZE -> ring h g -> Forall string_ok g.1 -> NUL ∉ acc -> (length acc < 2 ^ 16)%nat -> acc = [] \/ last acc = Some LF -> (length input < fuel)%nat ->
  exists ps h' g', session readdir is_dir mem top_prompt fuel line h acc input = Some (ps, h') /\ ring h' g' /\ Forall string_ok g'.1 /\
    Forall (λ p, NUL ∉ p /\ (1 < length p < 2 ^ 16)%nat /\ last p = Some LF) ps.
Proof.
  revert line h g acc input. induction fuel as [|fuel IH]; intros line h g acc input Hline R Hg Hacc Hlen Hlast Hf; [lia|]. cbn [session]. assert (HK : (0 < 2 ^ 16)%nat) by (apply Nat.neq_0_lt_0, Nat.pow_nonzero; done). set (K := (2 ^ 16)%nat) in *. clearbody K. set (prompt := match acc with [] => top_prompt | _ => CONTINUATION end).
  destruct (readline_start prompt line h g [] Hline R Hg) as (buf & Hput & M). destruct (loop_refines readdir is_dir mem prompt readdir_strings (length input) input _ _ (le_n _) M) as ([[r e] rest] & Hrun & Hend).
  unfold editor_readline. rewrite Hput. cbn [mbind option_bind]. rewrite Hrun. cbn [mbind option_bind].
  pose proof (desk_loop_rest prompt (length input) input (Desk (Text [] []) g ([] ++ prompt)) (le_n _)) as Hrest. destruct (desk_loop _ _ _ _ _ _) as [[l d] rest']. destruct Hend as (<- & _ & R' & Hg' & Hsz & Hl).
  destruct l as [ln|]; [|rewrite Hl; cbn; exists [], (e_hist e), (d_log d); by split_and!]. destruct Hrest as [_ Hrest]. specialize (Hrest ltac:(done)). destruct Hl as (-> & Ht & Hn & Hk). rewrite (proj2 (Z.ltb_ge _ _)) by lia.
  destruct ((Z.of_nat (length ln) =? 0) && (length acc =? 0)%nat); [by eapply IH; try done; lia|]. rewrite Ht. set (acc' := if (length acc + length ln + 2 <? K)%nat then acc ++ ln ++ [LF] else acc).
  assert (Ha : NUL ∉ acc' /\ (length acc' < K)%nat /\ (acc' = [] \/ last acc' = Some LF)).
  { unfold acc'. destruct (Nat.ltb_spec (length acc + length ln + 2) K); [|done]. split_and!; [rewrite !not_elem_of_app, list_elem_of_singleton; split_and!; done|rewrite !length_app; cbn [length]; lia|right; by rewrite app_assoc, last_snoc]. }
  destruct Ha as (Ha1 & Ha2 & Ha3). destruct (sh_incomplete acc'); [by eapply IH; try done; lia|]. destruct (Nat.ltb_spec 1 (length acc')) as [Hone|].
  - destruct (hist_add_ring _ _ acc' R') as (h2 & -> & R2 & _). cbn [mbind option_bind]. destruct (IH (e_buf e) h2 (log_add (d_log d) acc') [] rest) as (ps & h3 & g3 & -> & R3 & Hg3 & Hps); [done|done|by apply log_add_ok|apply not_elem_of_nil|exact HK|by left|lia|].
    cbn [mbind option_bind fst snd]. exists (acc' :: ps), h3, g3. split_and!; try done. constructor; [|done]. split_and!; try done. destruct Ha3 as [->|]; [cbn in Hone; lia|done].
  - apply (IH (e_buf e) (e_hist e) (d_log d) [] rest); [done|done|done|apply not_elem_of_nil|exact HK|by left|lia].
Qed.

End Sessions.

(** * Completion *)

Lemma common_prefix a b : take (common a b) a `prefix_of` b /\ (common a b <= length a)%nat.
Proof.
  revert b. induction a as [|x a IH]; intros b; [split; [apply prefix_nil|done]|]. destruct b as [|y b]; [split; [apply prefix_nil|cbn; lia]|]. cbn. destruct (Z.eqb_spec x y) as [->|]; [|split; [apply prefix_nil|lia]].
  destruct (IH b) as [H Hl]. split; [by apply prefix_cons|lia].
Qed.

Lemma common_longest a b p : p `prefix_of` a -> p `prefix_of` b -> (length p <= common a b)%nat.
Proof.
  revert b p. induction a as [|x a IH]; intros b p Ha Hb; [apply prefix_nil_inv in Ha as ->; done|]. destruct p as [|z p]; [cbn; lia|]. destruct b as [|y b]; [by apply prefix_nil_inv in Hb|].
  apply prefix_cons_inv_1 in Ha as Hz. subst z. apply prefix_cons_inv_1 in Hb as Hz. subst y. cbn. rewrite Z.eqb_refl. cbn. apply le_n_S, IH; [by eapply prefix_cons_inv_2|by eapply prefix_cons_inv_2].
Qed.

Lemma lcp_fold c cs n : (n <= length c)%nat -> let m := foldl (λ lcp d, common (take lcp c) d) n cs in
  (m <= n)%nat /\ (forall d, d ∈ cs -> take m c `prefix_of` d) /\ (forall p, p `prefix_of` take n c -> (forall d, d ∈ cs -> p `prefix_of` d) -> (length p <= m)%nat).
Proof.
  revert n. induction cs as [|d cs IH]; intros n Hn; cbn [foldl].
  - split_and!; [done|by intros ? ?%elem_of_nil|]. intros p Hp _. apply prefix_length in Hp. rewrite length_take in Hp. lia.
  - destruct (common_prefix (take n c) d) as [Hc Hl]. rewrite length_take in Hl. set (k := common (take n c) d) in *. destruct (IH k ltac:(lia)) as (H1 & H2 & H3). rewrite take_take, (Nat.min_l k n) in Hc by lia. split_and!; [lia| |].
    + intros x [->|Hx]%elem_of_cons; [|by apply H2]. etrans; [|exact Hc]. set (m := foldl _ k cs) in *. replace (take m c) with (take m (take k c)) by (rewrite take_take; f_equal; lia). apply prefix_take.
    + intros p Hp Hd. apply H3; [|intros x Hx; apply Hd; by right]. assert (Hk : (length p <= k)%nat) by (apply common_longest; [done|apply Hd; by left]).
      destruct Hp as [q Hq]. exists (take (k - length p) q). assert (E : take k c = take k (take n c)) by (rewrite take_take; f_equal; lia). rewrite E, Hq, take_app_ge by done. done.
Qed.

Lemma lcp_spec c cs : let m := longest_common_prefix (c :: cs) in
  (forall d, d ∈ c :: cs -> take m c `prefix_of` d) /\ (forall p, (forall d, d ∈ c :: cs -> p `prefix_of` d) -> p `prefix_of` take m c).
Proof.
  cbv zeta. unfold longest_common_prefix. destruct (lcp_fold c cs (length c) (le_n _)) as (H1 & H2 & H3). set (m := foldl _ _ cs) in *. split.
  - intros d [->|Hd]%elem_of_cons; [apply prefix_take|by apply H2].
  - intros p Hp. assert (Hc : p `prefix_of` c) by (apply Hp; by left). assert (Hl : (length p <= m)%nat) by (apply H3; [by rewrite take_ge|intros d Hd; apply Hp; by right]).
    destruct Hc as [q ->]. rewrite take_app_ge by done. by exists (take (m - length p) q).
Qed.

Section Completions.

Context (readdir : bytes -> option (list bytes)) (is_dir : bytes -> bool) (mem : nat -> bool).

(** The part of the word that completion extends, and what it may extend it to. *)
Definition base_of (b : bytes) : bytes := if is_first_token b then last_word b else snd (split_dir_base (last_word b) 256).
Definition available (b m : bytes) : Prop :=
  if is_first_token b then m ∈ builtins \/ exists names, readdir (B "/bin") = Some names /\ m ∈ names
  else exists names, readdir (fst (split_dir_base (last_word b) 256)) = Some names /\ m ∈ names.

Lemma collect_kept (P : bytes -> Prop) keep names k cands : (forall n, n ∈ names -> keep n = true -> P n) -> Forall P cands -> Forall P (snd (collect mem keep names k cands)).
Proof.
  revert k cands. induction names as [|n names IH]; intros k cands Hn Hc; [done|]. cbn [collect]. destruct (MAX_CANDIDATES <=? length cands)%nat; [done|]. assert (Hns : forall x, x ∈ names -> keep x = true -> P x) by (intros x Hx; apply Hn; by right).
  destruct (keep n) eqn:E; [|by apply IH]. apply IH; [done|]. destruct (mem k); [|done]. apply Forall_app. split; [done|]. constructor; [|done]. apply Hn; [by left|done].
Qed.

Lemma candidates_ok b cands : (length (last_word b) < 256)%nat ->
  (if is_first_token b then Some (command_candidates readdir mem (extract_prefix b 256)) else file_candidates readdir mem (extract_prefix b 256)) = Some cands ->
  Forall (λ m, available b m /\ base_of b `prefix_of` m) cands.
Proof.
  intros Hw. unfold extract_prefix. rewrite fit_id by done. unfold available, base_of. destruct (is_first_token b).
  - intros [= <-]. unfold command_candidates. destruct (collect mem _ builtins 0 []) as [k cs] eqn:E. assert (Hcs : Forall (λ m, (m ∈ builtins \/ exists names, readdir (B "/bin") = Some names /\ m ∈ names) /\ last_word b `prefix_of` m) cs).
    { change cs with (snd (k, cs)). rewrite <- E. apply collect_kept; [|done]. intros n Hn Hk. split; [by left|by apply starts_with_spec]. }
    destruct (readdir (B "/bin")) as [names|] eqn:Er; [|done]. apply collect_kept; [|done]. intros n Hn [_ Hk]%andb_prop. split; [right; by exists names|by apply starts_with_spec].
  - unfold file_candidates. destruct (split_dir_base (last_word b) 256) as [dir base]. destruct (readdir dir) as [names|] eqn:Er; [|done]. intros [= <-]. apply collect_kept; [|done]. intros n Hn [_ Hk]%andb_prop. cbn. split; [by exists names|by apply starts_with_spec].
Qed.

(** Completion extends the word before the cursor only by what all candidates share:
    with one candidate to the whole of it, a slash or a space added, with several to
    their longest common prefix; a candidate is a builtin or an entry of the directory
    and starts with what was typed. *)
Theorem completion_correct b ins cands : (length (last_word b) < 256)%nat -> completion readdir is_dir mem b = Some (ins, cands) ->
  match cands with
  | [] => exists m c, available b m /\ base_of b ++ ins = m ++ [c] /\ (c = SLASH \/ c = SP)
  | _ => (forall c, c ∈ cands -> available b c /\ base_of b ++ ins `prefix_of` c) /\ (forall p, (forall c, c ∈ cands -> p `prefix_of` c) -> p `prefix_of` base_of b ++ ins)
  end.
Proof.
  intros Hw. pose proof (candidates_ok b) as Hok. unfold completion. assert (Hb : exists dir, (if is_first_token b then (B "/bin/", extract_prefix b 256) else split_dir_base (extract_prefix b 256) 256) = (dir, base_of b)).
  { unfold extract_prefix, base_of. rewrite fit_id by done. destruct (is_first_token b); [by eexists|]. destruct (split_dir_base _ _) as [dir base]. by exists dir. }
  destruct Hb as [dir ->]. destruct (if is_first_token b then Some _ else _) as [cs|]; [|done]. specialize (Hok cs Hw eq_refl). destruct cs as [|c [|c2 cs]]; [done| |].
  - intros [= <- <-]. inversion Hok as [|? ? [Ha [q ->]] _]; subst. exists (base_of b ++ q). eexists. split; [done|]. rewrite drop_app_length, app_assoc. split; [done|]. destruct (is_dir _); auto.
  - intros Hs. assert (Hi : ins = slice (length (base_of b)) (longest_common_prefix (c :: c2 :: cs) - length (base_of b)) c) by congruence. assert (Hc : cands = c :: c2 :: cs) by congruence. clear Hs. subst ins cands. set (all := c :: c2 :: cs) in *. destruct (lcp_spec c (c2 :: cs)) as [H1 H2]. fold all in H1, H2. set (m := longest_common_prefix all) in *. rewrite Forall_forall in Hok.
    assert (E : base_of b ++ slice (length (base_of b)) (m - length (base_of b)) c = take m c).
    { assert (Hp : base_of b `prefix_of` take m c) by (apply H2; intros d Hd; by apply Hok). destruct Hp as [q Hq]. pose proof (prefix_take c m) as [s Hs]. rewrite Hq. f_equal. unfold slice. rewrite Hs at 1. rewrite Hq, <- app_assoc, drop_app_length.
      assert (Hl : length (take m c) = m \/ s = []).
      { destruct (decide (m <= length c)%nat); [left; rewrite length_take; lia|right]. rewrite take_ge in Hs by lia. apply (f_equal length) in Hs. rewrite length_app in Hs. destruct s; [done|cbn in Hs; lia]. }
      rewrite Hq, length_app in Hl. destruct Hl as [Hl| ->].
      - replace (m - length (base_of b))%nat with (length q) by lia. apply take_app_length.
      - rewrite app_nil_r. apply take_ge. assert (length (take m c) <= m)%nat by (rewrite length_take; lia). rewrite Hq, length_app in H. lia. }
    cbv match. fold all. rewrite E. split; [|exact H2]. intros d Hd. split; [by apply Hok|by apply H1].
Qed.

End Completions.

(** * Concrete sessions *)

#[local] Transparent LINE_SIZE.

Definition typed (s : bytes) : list (option byte) := Some <$> s.
Definition UP : bytes := [ESC; 91; 65].

(** A root directory with a directory docs and two files. *)
Definition some_dirs (p : bytes) : option (list bytes) :=
  if beq p (B ".") then Some (B <$> ["."; ".."; "docs"; "notes.txt"; "notes.old"]%string) else if beq p (B "/bin") then Some (B <$> ["ls"; "lsblk"]%string) else None.
Definition some_is_dir (p : bytes) : bool := beq p (B "./docs") || beq p (B "docs").
Definition strdup_ok (_ : nat) : bool := true.

Lemma some_dirs_strings p names : some_dirs p = Some names -> Forall (λ n, NUL ∉ n) names.
Proof. unfold some_dirs. destruct (beq p (B ".")); [|destruct (beq p (B "/bin"))]; intros [= <-]; repeat constructor; by apply has_char_false. Qed.

Definition blank_line : bytes := repeat 7 LINE_SIZE.
Definition new_hist : hist := Hist empty_slots 0 0 0 false.

Lemma blank_line_length : length blank_line = LINE_SIZE.
Proof. apply repeat_length. Qed.

Definition PROMPT : bytes := B "$ ".

(** Editing in the middle of a line: "ehco hi", the cursor moved back, corrected. *)
Definition edit_keys : bytes := B "ehco hi" ++ [1] ++ [ESC; 91; 67] ++ [ESC; 91; 51; 126] ++ [ESC; 91; 67] ++ B "h" ++ [CR].

Lemma edit_result : fst (fst (desk_readline some_dirs some_is_dir strdup_ok PROMPT ([], 0%nat) [] (typed edit_keys))) = Some (B "echo hi").
Proof. lazy. reflexivity. Qed.

Lemma editor_refines_witness : exists x, editor_readline some_dirs some_is_dir strdup_ok PROMPT (Z.of_nat LINE_SIZE) blank_line new_hist [] (typed edit_keys) = Some x /\ same_end x (desk_readline some_dirs some_is_dir strdup_ok PROMPT ([], 0%nat) [] (typed edit_keys)).
Proof. apply (editor_refines some_dirs some_is_dir strdup_ok PROMPT some_dirs_strings blank_line new_hist ([], 0%nat) [] (typed edit_keys)); [exact blank_line_length|exact (ring_empty false)|by constructor]. Defined.

Lemma session_safe_witness : exists ps h' g', session some_dirs some_is_dir strdup_ok PROMPT 9 blank_line new_hist [] (typed (B "ls" ++ [CR] ++ UP ++ [CR])) = Some (ps, h') /\ ring h' g' /\ Forall string_ok g'.1 /\
  Forall (λ p, NUL ∉ p /\ (1 < length p < 2 ^ 16)%nat /\ last p = Some LF) ps.
Proof.
  apply (session_safe some_dirs some_is_dir strdup_ok PROMPT some_dirs_strings 9 blank_line new_hist ([], 0%nat)); [exact blank_line_length|exact (ring_empty false)|by constructor|apply not_elem_of_nil|apply Nat.neq_0_lt_0, Nat.pow_nonzero; done|by left|cbn; lia].
Defined.

Definition notes : list bytes := B <$> ["notes.txt"; "notes.old"]%string.

Lemma completion_correct_witness :
  (forall c, c ∈ notes -> available some_dirs (B "cat no") c /\ base_of (B "cat no") ++ B "tes." `prefix_of` c) /\ (forall p, (forall c, c ∈ notes -> p `prefix_of` c) -> p `prefix_of` base_of (B "cat no") ++ B "tes.").
Proof.
  assert (Hw : (length (last_word (B "cat no")) < 256)%nat) by (lazy; lia). assert (Hc : completion some_dirs some_is_dir strdup_ok (B "cat no") = Some (B "tes.", notes)) by (lazy; reflexivity).
  exact (completion_correct some_dirs some_is_dir strdup_ok (B "cat no") (B "tes.") notes Hw Hc).
Defined.

Definition two_hist : hist := Hist (<[0%nat := B "ls"]> (<[1%nat := B "cd /"]> empty_slots)) 2 2 0 false.
Definition two_log : log := ([B "cd /"; B "ls"], 0%nat).

Lemma two_ring : ring two_hist two_log.
Proof.
  split; try (cbn; lia); try done. intros [|[|[|i]]] x Hx; cbn in Hx; try done; injection Hx as <-; reflexivity.
Qed.

Lemma history_refines_witness : exists h', hist_run [HPrev; HPrev; HNext; HAdd (B "pwd"); HPrev] two_hist = Some ([Some (B "cd /"); Some (B "ls"); Some (B "cd /"); None; Some (B "pwd")], h') /\ ring h' ([B "pwd"; B "cd /"; B "ls"], 1%nat).
Proof. apply (history_refines [HPrev; HPrev; HNext; HAdd (B "pwd"); HPrev] two_hist two_log two_ring). Defined.

Lemma history_restored_witness : exists text h', hist_save two_hist true None = Some (Some text) /\ hist_init empty_slots false (Some text) = Some h' /\ ring h' two_log.
Proof.
  apply (history_restored two_hist [B "cd /"; B "ls"] 0 None two_ring). repeat (apply Forall_cons_2; [split_and!; [done|by apply has_char_false|by apply has_char_false|by apply Nat.ltb_lt]|]). by constructor.
Defined.

(** An entry of the history ends in the newline that main adds to each line: the line
    the up arrow brings back already contains it, and what is typed next starts a
    second command. *)
Theorem recalled_line_has_newline :
  fst <$> session some_dirs some_is_dir strdup_ok PROMPT 20 blank_line new_hist [] (typed (B "ls" ++ [CR] ++ UP ++ B " -l" ++ [CR])) = Some [B "ls" ++ [LF]; B "ls" ++ [LF] ++ B " -l" ++ [LF]].
Proof. lazy. reflexivity. Qed.

(** A command of several lines is one entry of the history, but the file holds its
    lines: the next shell has three entries for it. *)
Theorem history_file_splits :
  let loop := B "for f in a" ++ [LF] ++ B "do echo $f" ++ [LF] ++ B "done" ++ [LF] in
  (h ← hist_add new_hist loop; text ← hist_save h true None; h' ← hist_init empty_slots false text; Some (s_count h, s_count h')) = Some (1, 3).
Proof. lazy. reflexivity. Qed.

(** In the current directory a directory is completed with a space and not with a
    slash: the path that is tested joins the dot and the name without a slash. *)
Theorem current_directory_not_recognised :
  some_is_dir (B "./docs") = true /\ completion some_dirs some_is_dir strdup_ok (B "cd do") = Some (B "cs ", []).
Proof. lazy. done. Qed.
