(* ===== verification/LumenClient.v ===== *)
(** The client side of the window protocol (src/user/lib/glyph/lumen_client.c with
    lumen_proto.h): receiving events, sending requests, and the windows with their
    shared buffers.

    A connection delivers the bytes the server sent in pieces of any size, with
    interrupted reads in between; [m_reads] lists what the coming reads do.  Writes may
    be short or fail, a reply that recvmsg receives is any message with or without a
    file descriptor, and every mmap and malloc may fail.  Descriptors, mappings and
    allocations are objects of which each use and release is checked. *)

From S2P Require Import Prelude CString Posix.
From stdpp Require Import gmap.
Local Open Scope Z_scope.

(** * Definitions *)

(** ** The wire format *)

Definition LUMEN_MAGIC : Z := 0x4C4D454E.
Definition LUMEN_VERSION : Z := 1.
Definition LUMEN_OP_CREATE_WINDOW : Z := 1.
Definition LUMEN_OP_DAMAGE : Z := 2.
Definition LUMEN_OP_DESTROY_WINDOW : Z := 4.
Definition LUMEN_OP_CREATE_PANEL : Z := 5.
Definition LUMEN_OP_INVOKE : Z := 6.
Definition LUMEN_OP_DRAG_START : Z := 7.
Definition LUMEN_OP_SET_ADMIN : Z := 8.
Definition LUMEN_OP_RESIZE_BUFFER : Z := 9.
Definition LUMEN_OP_ACTIVATE_WINDOW : Z := 10.
Definition LUMEN_OP_RESIZE_SELF : Z := 11.
Definition LUMEN_EV_KEY : Z := 0x10.
Definition LUMEN_EV_MOUSE : Z := 0x11.
Definition LUMEN_EV_CLOSE_REQUEST : Z := 0x12.
Definition LUMEN_EV_FOCUS : Z := 0x13.
Definition LUMEN_EV_RESIZED : Z := 0x14.
Definition LUMEN_EV_DRAG_OVER : Z := 0x15.
Definition LUMEN_EV_DRAG_LEAVE : Z := 0x16.
Definition LUMEN_EV_DROP : Z := 0x17.
Definition LUMEN_EV_WINDOW_LIST : Z := 0x18.

(** Fields of a received struct. *)
Definition u32_at (b : bytes) (off : nat) : Z := le_value (slice off 4 b).
Definition i32_at (b : bytes) (off : nat) : Z := i32 (u32_at b off).
Definition i8 (x : Z) : Z := (x + 128) mod 256 - 128.

(** A struct of the request side: a character array of [n] bytes filled by strncpy. *)
Definition chars (n : nat) (s : bytes) : bytes := take n (fit n s ++ repeat NUL n).

Record lumen_window_info_t := Info { gid : Z; minimized : Z; focused : Z; title : bytes }.

Inductive event :=
| EvKey (window keycode modifiers pressed : Z)
| EvMouse (window x y buttons evtype scroll : Z)
| EvCloseRequest (window : Z)
| EvFocus (window is_focused : Z)
| EvResized (window new_w new_h : Z)
| EvDragOver (window x y op : Z)
| EvDragLeave (window : Z)
| EvDrop (window x y op : Z) (path : bytes)
| EvWindowList (items : list lumen_window_info_t)
| EvNone.

(** ** The machine *)

(** What a read does: deliver at most so many bytes (and one more), fail with EINTR or
    EAGAIN, or fail for good.  When the list is over reads deliver all there is. *)
Inductive delivery := Chunk (k : nat) | Again | Broken.

Inductive write_end := WAll | WShort (k : nat) | WFail.

(** What recvmsg does: fail, or deliver these bytes and a descriptor or none. *)
Inductive reply := RFail | RMsg (data : bytes) (memfd : bool).

(** A descriptor, a mapping or an allocation, with the bytes it holds. *)
Inductive object := FdObj | MapObj (data : bytes) | HeapObj (data : bytes).

Record machine := Machine {
  m_in : bytes; m_reads : list delivery; m_replies : list reply; m_stack : bytes;
  m_out : bytes; m_writes : list write_end;
  m_objs : gmap nat object; m_next : nat; m_allocs : list bool; m_bad : bool
}.

Definition act (A : Type) : Type := machine -> A * machine.
#[global] Instance act_ret : MRet act := λ _ a m, (a, m).
#[global] Instance act_bind : MBind act := λ _ _ f x m, let '(a, m) := x m in f a m.

(** ** Reading *)

(** The bytes, and what is left of the deliveries and the input. *)
Fixpoint read_full (ds : list delivery) (input : bytes) (n : nat) : option bytes * (list delivery * bytes) :=
  match n with
  | O => (Some [], (ds, input))
  | _ =>
      match ds with
      | [] => if (length input <? n)%nat then (None, ([], [])) else (Some (take n input), ([], drop n input))
      | Again :: ds => read_full ds input n
      | Broken :: ds => (None, (ds, input))
      | Chunk k :: ds =>
          let c := Nat.min (S k) (Nat.min n (length input)) in
          if (c =? 0)%nat then (None, (ds, input)) else
          let '(r, st) := read_full ds (drop c input) (n - c) in
          (app (take c input) <$> r, st)
      end
  end.

Definition with_stream (m : machine) (st : list delivery * bytes) : machine :=
  Machine (snd st) (fst st) (m_replies m) (m_stack m) (m_out m) (m_writes m) (m_objs m) (m_next m) (m_allocs m) (m_bad m).

Definition lumen_read_full (n : nat) : act (option bytes) := λ m,
  let '(r, st) := read_full (m_reads m) (m_in m) n in (r, with_stream m st).

(** Reading past [rem] bytes, 256 at a time; here an interrupted read is an error. *)
Fixpoint drain (ds : list delivery) (input : bytes) (rem : nat) : bool * (list delivery * bytes) :=
  match rem with
  | O => (true, (ds, input))
  | _ =>
      match ds with
      | [] => if (length input <? rem)%nat then (false, ([], [])) else (true, ([], drop rem input))
      | Again :: ds | Broken :: ds => (false, (ds, input))
      | Chunk k :: ds =>
          let c := Nat.min (S k) (Nat.min (Nat.min rem 256) (length input)) in
          if (c =? 0)%nat then (false, (ds, input)) else drain ds (drop c input) (rem - c)
      end
  end.
Definition skip_rest (rem : nat) : act bool := λ m,
  let '(r, st) := drain (m_reads m) (m_in m) rem in (r, with_stream m st).

(** ** Events *)

Definition WINDOW_INFO_SIZE : nat := 72.

Definition window_info (b : bytes) : lumen_window_info_t := Info (u32_at b 0) (byte_at b 4) (byte_at b 5) (slice 8 64 b).

Fixpoint read_infos (n : nat) : act (option (list lumen_window_info_t)) :=
  match n with
  | O => mret (Some [])
  | S n =>
      b ← lumen_read_full WINDOW_INFO_SIZE;
      match b with
      | None => mret None
      | Some b => r ← read_infos n; mret (cons (window_info b) <$> r)
      end
  end.

(** A payload of fixed size, decoded. *)
Definition payload (n : nat) (decode : bytes -> event) : act (option event) :=
  b ← lumen_read_full n; mret (decode <$> b).

(** [None] for -1. *)
Definition recv_event : act (option event) :=
  h ← lumen_read_full 8;
  match h with
  | None => mret None
  | Some h =>
      let op := u32_at h 0 in
      let len := u32_at h 4 in
      if op =? LUMEN_EV_KEY then payload 16 (λ b, EvKey (u32_at b 0) (u32_at b 4) (u32_at b 8) (byte_at b 12)) else
      if op =? LUMEN_EV_MOUSE then payload 16 (λ b, EvMouse (u32_at b 0) (i32_at b 4) (i32_at b 8) (byte_at b 12) (byte_at b 13) (i8 (byte_at b 14))) else
      if op =? LUMEN_EV_CLOSE_REQUEST then payload 4 (λ b, EvCloseRequest (u32_at b 0)) else
      if op =? LUMEN_EV_FOCUS then payload 8 (λ b, EvFocus (u32_at b 0) (byte_at b 4)) else
      if op =? LUMEN_EV_RESIZED then payload 12 (λ b, EvResized (u32_at b 0) (u32_at b 4) (u32_at b 8)) else
      if op =? LUMEN_EV_DRAG_OVER then payload 16 (λ b, EvDragOver (u32_at b 0) (i32_at b 4) (i32_at b 8) (byte_at b 12)) else
      if op =? LUMEN_EV_DRAG_LEAVE then payload 4 (λ b, EvDragLeave (u32_at b 0)) else
      if op =? LUMEN_EV_DROP then payload 272 (λ b, EvDrop (u32_at b 0) (i32_at b 4) (i32_at b 8) (byte_at b 12) (cstr (take 255 (slice 16 256 b)))) else
      if op =? LUMEN_EV_WINDOW_LIST then
        let count := (Z.to_nat len / WINDOW_INFO_SIZE)%nat in
        let cap := Nat.min 16 count in
        infos ← read_infos cap;
        match infos with
        | None => mret None
        | Some items => ok ← skip_rest (Z.to_nat len - cap * WINDOW_INFO_SIZE); mret (if (ok : bool) then Some (EvWindowList items) else None)
        end
      else ok ← skip_rest (Z.to_nat len); mret (if (ok : bool) then Some EvNone else None)
  end.

(** [ready]: what poll returns. *)
Definition lumen_poll_event (ready : Z) : act (Z * option event) :=
  if ready <=? 0 then mret (0, None) else
  e ← recv_event; mret (match e with Some e => (1, Some e) | None => (-1, None) end).
Definition lumen_wait_event (ready : Z) : act (Z * option event) :=
  if ready =? 0 then mret (0, None) else if ready <? 0 then mret (-1, None) else
  e ← recv_event; mret (match e with Some e => (1, Some e) | None => (-1, None) end).

(** ** Requests *)

(** One write; whether all of it was written. *)
Definition write_all (bs : bytes) : act bool := λ m,
  let '(n, ws) := match m_writes m with
                  | [] => (length bs, [])
                  | WAll :: ws => (length bs, ws)
                  | WShort k :: ws => (Nat.min k (length bs), ws)
                  | WFail :: ws => (O, ws)
                  end in
  (((n =? length bs)%nat, Machine (m_in m) (m_reads m) (m_replies m) (m_stack m) (m_out m ++ take n bs) ws (m_objs m) (m_next m) (m_allocs m) (m_bad m))).

Definition header (op : Z) (len : nat) : bytes := le_bytes 4 op ++ le_bytes 4 (Z.of_nat len).

(** A request whose payload is only sent after its header. *)
Definition request (op : Z) (req : bytes) : act bool :=
  ok ← write_all (header op (length req));
  if (ok : bool) then write_all req else mret false.
(** One whose two writes are not looked at. *)
Definition request_blind (op : Z) (req : bytes) : act unit :=
  _ ← write_all (header op (length req)); _ ← write_all req; mret tt.

Definition create_window_t (ttl : bytes) (w h flags : Z) : bytes := le_bytes 2 w ++ le_bytes 2 h ++ le_bytes 2 flags ++ [0; 0] ++ chars 64 ttl.
Definition create_panel_t (w h : Z) : bytes := le_bytes 2 w ++ le_bytes 2 h.
Definition drag_start_t (window op : Z) (label path : bytes) : bytes := le_bytes 4 window ++ [u8 op] ++ [0; 0; 0] ++ chars 64 label ++ chars 256 path.
Definition invoke_t (name : bytes) : bytes := chars 32 name.

(** ** The handshake *)

(** [sock] is the new socket; [error] is the error number socket or connect fails with. *)
Definition lumen_connect (sock : Z) (error : option Z) : act Z :=
  match error with
  | Some err => mret (- err)
  | None =>
      ok ← write_all (le_bytes 4 LUMEN_MAGIC ++ le_bytes 4 LUMEN_VERSION);
      if negb ok then mret (-5) else
      λ m,
        (* one read, which may deliver less than the struct *)
        let '(b, st) := match m_reads m with
                        | Chunk k :: ds => let c := Nat.min (S k) (Nat.min 12 (length (m_in m))) in (take c (m_in m), (ds, drop c (m_in m)))
                        | _ :: ds => ([], (ds, m_in m))
                        | [] => (take 12 (m_in m), ([], drop 12 (m_in m)))
                        end in
        let m := with_stream m st in
        if negb (length b =? 12)%nat then (-5, m) else
        if negb (u32_at b 0 =? LUMEN_MAGIC) || negb (u32_at b 8 =? 0) then (-71, m) else (sock, m)
  end.

(** [errors]: what the attempts of connect give, from attempt [k] on. *)
Fixpoint lumen_connect_retry (attempts k : nat) (sock : Z) (errors : nat -> option Z) : act Z :=
  match attempts with
  | O => mret (-111)
  | S attempts =>
      r ← lumen_connect sock (errors k);
      if negb (r =? -111) then mret r else lumen_connect_retry attempts (S k) sock errors
  end.
Definition CONNECT_ATTEMPTS : nat := 50.

(** ** Windows *)

Record lumen_window_t := Window { w_self : nat; w_id : Z; w_memfd : nat; w_shared : nat; w_backbuf : nat; w_w : Z; w_h : Z; w_stride : Z; w_x : Z; w_y : Z }.

Definition with_objs (m : machine) (objs : gmap nat object) (next : nat) (bad : bool) : machine :=
  Machine (m_in m) (m_reads m) (m_replies m) (m_stack m) (m_out m) (m_writes m) objs next (m_allocs m) bad.

Definition new_object (o : object) : act nat := λ m,
  (m_next m, with_objs m (<[m_next m := o]> (m_objs m)) (S (m_next m)) (m_bad m)).

(** mmap and malloc, which may fail. *)
Definition try_object (o : object) : act (option nat) := λ m,
  let ok := default true (head (m_allocs m)) in
  let m := Machine (m_in m) (m_reads m) (m_replies m) (m_stack m) (m_out m) (m_writes m) (m_objs m) (m_next m) (tail (m_allocs m)) (m_bad m) in
  if ok then let '(i, m) := new_object o m in (Some i, m) else (None, m).

Definition bad : act unit := λ m, (tt, with_objs m (m_objs m) (m_next m) true).

(** Releasing an object, which must be there and of the kind and size given. *)
Definition release (kind : object -> bool) (i : nat) : act unit := λ m,
  match m_objs m !! i with
  | Some o => if kind o then (tt, with_objs m (delete i (m_objs m)) (m_next m) (m_bad m)) else bad m
  | None => bad m
  end.
Definition close_fd : nat -> act unit := release (λ o, match o with FdObj => true | _ => false end).
Definition munmap (i : nat) (size : Z) : act unit := release (λ o, match o with MapObj d => Z.of_nat (length d) =? size | _ => false end) i.
Definition free : nat -> act unit := release (λ o, match o with HeapObj _ => true | _ => false end).

(** The size of a buffer as size_t. *)
Definition bufsz (w h : Z) : Z := u64 (w * h * 4).

(** recvmsg into the header and the struct: the bytes that were not delivered are what
    the stack held.  The result is the struct and the descriptor. *)
Definition recvmsg : act (option (bytes * option nat)) := λ m,
  let set rs := Machine (m_in m) (m_reads m) rs (m_stack m) (m_out m) (m_writes m) (m_objs m) (m_next m) (m_allocs m) (m_bad m) in
  match m_replies m with
  | [] => (None, m)
  | RFail :: rs => (None, set rs)
  | RMsg data fd :: rs =>
      let data := take 32 data in
      let b := drop 8 (data ++ drop (length data) (m_stack m)) in
      if fd then let '(i, m) := new_object FdObj (set rs) in (Some (b, Some i), m) else (Some (b, None), set rs)
  end.

Definition created_status (b : bytes) : Z := u32_at b 0.
Definition created_width (b : bytes) : Z := u32_at b 8.
Definition created_height (b : bytes) : Z := u32_at b 12.

(** Mapping the new buffer and allocating the one that is drawn in. *)
Definition map_buffers (memfd : nat) (size : Z) : act (option (nat * nat)) :=
  s ← try_object (MapObj (repeat 0 (Z.to_nat size)));
  match s with
  | None => _ ← close_fd memfd; mret None
  | Some shared =>
      b ← try_object (HeapObj (repeat 0 (Z.to_nat size)));
      match b with
      | None => _ ← munmap shared size; _ ← close_fd memfd; mret None
      | Some back => mret (Some (shared, back))
      end
  end.

Definition recv_created_reply : act (option lumen_window_t) :=
  r ← recvmsg;
  match r with
  | None => mret None
  | Some (b, fd) =>
      if negb (created_status b =? 0) then mret None else
      match fd with
      | None => mret None
      | Some memfd =>
          let size := bufsz (created_width b) (created_height b) in
          bufs ← map_buffers memfd size;
          match bufs with
          | None => mret None
          | Some (shared, back) =>
              win ← try_object (HeapObj []);
              match win with
              | None => _ ← free back; _ ← munmap shared size; _ ← close_fd memfd; mret None
              | Some wi =>
                  mret (Some (Window wi (u32_at b 4) memfd shared back (i32 (created_width b)) (i32 (created_height b)) (i32 (created_width b)) (i32_at b 16) (i32_at b 20)))
              end
          end
      end
  end.

Definition lumen_window_create_ex (ttl : bytes) (w h flags : Z) : act (option lumen_window_t) :=
  ok ← request LUMEN_OP_CREATE_WINDOW (create_window_t ttl w h flags);
  if (ok : bool) then recv_created_reply else mret None.
Definition lumen_window_create (ttl : bytes) (w h : Z) : act (option lumen_window_t) := lumen_window_create_ex ttl w h 0.
Definition lumen_panel_create (w h : Z) : act (option lumen_window_t) :=
  ok ← request LUMEN_OP_CREATE_PANEL (create_panel_t w h);
  if (ok : bool) then recv_created_reply else mret None.

Definition lumen_drag_start (win : lumen_window_t) (op : Z) (label path : bytes) : act Z :=
  match path with
  | [] => mret (-22)
  | _ => ok ← request LUMEN_OP_DRAG_START (drag_start_t (w_id win) op label path); mret (if (ok : bool) then 0 else -5)
  end.
Definition lumen_invoke (name : bytes) : act Z :=
  ok ← request LUMEN_OP_INVOKE (invoke_t name); mret (if (ok : bool) then 0 else -5).
Definition lumen_window_set_admin (win : lumen_window_t) (admin : bool) : act unit :=
  _ ← request LUMEN_OP_SET_ADMIN (le_bytes 4 (w_id win) ++ le_bytes 4 (if admin then 1 else 0)); mret tt.
Definition lumen_activate_window (g : Z) : act unit := request_blind LUMEN_OP_ACTIVATE_WINDOW (le_bytes 4 g).

(** memcpy between two objects of which both must have the bytes. *)
Definition copy_object (dst src : nat) (size : Z) : act unit := λ m,
  match m_objs m !! dst, m_objs m !! src with
  | Some (MapObj d), Some (HeapObj s) =>
      if (size <=? Z.of_nat (length d)) && (size <=? Z.of_nat (length s))
      then (tt, with_objs m (<[dst := MapObj (splice 0 (take (Z.to_nat size) s) d)]> (m_objs m)) (m_next m) (m_bad m)) else bad m
  | _, _ => bad m
  end.

Definition lumen_window_present (win : lumen_window_t) : act unit :=
  _ ← copy_object (w_shared win) (w_backbuf win) (bufsz (w_w win) (w_h win));
  request_blind LUMEN_OP_DAMAGE (le_bytes 4 (w_id win)).

(** The window afterwards; it is the old one where the result is -1. *)
Definition recv_buffer_reply (win : lumen_window_t) : act (Z * lumen_window_t) :=
  r ← recvmsg;
  match r with
  | None => mret (-1, win)
  | Some (b, fd) =>
      if negb (created_status b =? 0) then mret (-1, win) else
      match fd with
      | None => mret (-1, win)
      | Some memfd =>
          let size := bufsz (created_width b) (created_height b) in
          bufs ← map_buffers memfd size;
          match bufs with
          | None => mret (-1, win)
          | Some (shared, back) =>
              _ ← munmap (w_shared win) (bufsz (w_w win) (w_h win));
              _ ← close_fd (w_memfd win);
              _ ← free (w_backbuf win);
              mret (0, Window (w_self win) (w_id win) memfd shared back (i32 (created_width b)) (i32 (created_height b)) (i32 (created_width b)) (i32_at b 16) (i32_at b 20))
          end
      end
  end.

Definition lumen_window_apply_resize (win : lumen_window_t) (new_w new_h : Z) : act (Z * lumen_window_t) :=
  if (new_w <? 1) || (new_h <? 1) then mret (-1, win) else
  ok ← request LUMEN_OP_RESIZE_BUFFER (le_bytes 4 (w_id win) ++ le_bytes 4 new_w ++ le_bytes 4 new_h);
  if (ok : bool) then recv_buffer_reply win else mret (-1, win).
Definition lumen_window_resize_self (win : lumen_window_t) (w h : Z) : act (Z * lumen_window_t) :=
  if (w <? 1) || (h <? 1) then mret (-1, win) else
  ok ← request LUMEN_OP_RESIZE_SELF (le_bytes 4 w ++ le_bytes 4 h);
  if (ok : bool) then recv_buffer_reply win else mret (-1, win).

Definition lumen_window_destroy (win : lumen_window_t) : act unit :=
  _ ← request_blind LUMEN_OP_DESTROY_WINDOW (le_bytes 4 (w_id win));
  _ ← munmap (w_shared win) (bufsz (w_w win) (w_h win));
  _ ← close_fd (w_memfd win);
  _ ← free (w_backbuf win);
  free (w_self win).
