(* ===== verification/LumenSafety.v ===== *)
(** The window protocol: events arrive whole however the stream is cut, and windows own
    exactly the descriptors, mappings and allocations that are live. *)

From S2P Require Import Prelude CString Posix LumenClient.
From stdpp Require Import gmap.
Local Open Scope Z_scope.

(** * Framing *)

(** ** What a server sends *)

Definition wire_info (i : lumen_window_info_t) : bytes := le_bytes 4 (gid i) ++ [minimized i; focused i] ++ [0; 0] ++ title i.

Definition event_op (e : event) : Z :=
  match e with
  | EvKey _ _ _ _ => LUMEN_EV_KEY | EvMouse _ _ _ _ _ _ => LUMEN_EV_MOUSE | EvCloseRequest _ => LUMEN_EV_CLOSE_REQUEST | EvFocus _ _ => LUMEN_EV_FOCUS | EvResized _ _ _ => LUMEN_EV_RESIZED
  | EvDragOver _ _ _ _ => LUMEN_EV_DRAG_OVER | EvDragLeave _ => LUMEN_EV_DRAG_LEAVE | EvDrop _ _ _ _ _ => LUMEN_EV_DROP | EvWindowList _ => LUMEN_EV_WINDOW_LIST | EvNone => 0
  end.
Definition body (e : event) : bytes :=
  match e with
  | EvKey w k mo p => le_bytes 4 w ++ le_bytes 4 k ++ le_bytes 4 mo ++ [p] ++ [0; 0; 0]
  | EvMouse w x y b t s => le_bytes 4 w ++ le_bytes 4 (u32 x) ++ le_bytes 4 (u32 y) ++ [b] ++ [t] ++ [u8 s] ++ [0]
  | EvCloseRequest w | EvDragLeave w => le_bytes 4 w
  | EvFocus w f => le_bytes 4 w ++ [f] ++ [0; 0; 0]
  | EvResized w a b => le_bytes 4 w ++ le_bytes 4 a ++ le_bytes 4 b
  | EvDragOver w x y op => le_bytes 4 w ++ le_bytes 4 (u32 x) ++ le_bytes 4 (u32 y) ++ [op] ++ [0; 0; 0]
  | EvDrop w x y op p => le_bytes 4 w ++ le_bytes 4 (u32 x) ++ le_bytes 4 (u32 y) ++ [op] ++ [0; 0; 0] ++ p ++ repeat NUL (256 - length p)
  | EvWindowList l => concat (wire_info <$> l)
  | EvNone => []
  end.

Definition is_u32 (x : Z) : Prop := 0 <= x < 2 ^ 32.
Definition info_ok (i : lumen_window_info_t) : Prop := is_u32 (gid i) /\ length (title i) = 64%nat.

Definition event_ok (e : event) : Prop :=
  match e with
  | EvKey w k mo _ => is_u32 w /\ is_u32 k /\ is_u32 mo
  | EvMouse w x y _ _ s => is_u32 w /\ in_i32 x /\ in_i32 y /\ -128 <= s < 128
  | EvCloseRequest w | EvDragLeave w | EvFocus w _ => is_u32 w
  | EvResized w a b => is_u32 w /\ is_u32 a /\ is_u32 b
  | EvDragOver w x y _ => is_u32 w /\ in_i32 x /\ in_i32 y
  | EvDrop w x y _ p => is_u32 w /\ in_i32 x /\ in_i32 y /\ NUL ∉ p /\ (length p < 256)%nat
  | EvWindowList l => Forall info_ok l /\ (length l <= 16)%nat
  | EvNone => False
  end.

(** A message: an event of the protocol, or one of a later version that is passed over. *)
Inductive message := MEvent (e : event) | MUnknown (op : Z) (data : bytes).
Definition known_ops : list Z := [LUMEN_EV_KEY; LUMEN_EV_MOUSE; LUMEN_EV_CLOSE_REQUEST; LUMEN_EV_FOCUS; LUMEN_EV_RESIZED; LUMEN_EV_DRAG_OVER; LUMEN_EV_DRAG_LEAVE; LUMEN_EV_DROP; LUMEN_EV_WINDOW_LIST].
Definition message_ok (f : message) : Prop :=
  match f with MEvent e => event_ok e | MUnknown op data => is_u32 op /\ op ∉ known_ops /\ is_u32 (Z.of_nat (length data)) end.
Definition wire (f : message) : bytes :=
  match f with MEvent e => header (event_op e) (length (body e)) ++ body e | MUnknown op data => header op (length data) ++ data end.
Definition meaning (f : message) : event := match f with MEvent e => e | MUnknown _ _ => EvNone end.

(** Reads that are cut and interrupted, and reads that are only cut. *)
Definition calm (ds : list delivery) : Prop := Broken ∉ ds.
Definition steady (ds : list delivery) : Prop := Broken ∉ ds /\ Again ∉ ds.

(** Receiving [n] events. *)
Fixpoint receive (n : nat) : act (option (list event)) :=
  match n with
  | O => mret (Some [])
  | S n =>
      e ← recv_event;
      match e with
      | None => mret None
      | Some e => r ← receive n; mret (cons e <$> r)
      end
  end.

(** ** Reading *)

Lemma read_full_ok ds a rest : calm ds -> exists ds', read_full ds (a ++ rest) (length a) = (Some a, (ds', rest)) /\ ds' `suffix_of` ds.
Proof.
  unfold calm. revert a. induction ds as [|d ds IH]; intros a Hc.
  - exists []. split; [|done]. destruct a as [|x a]; [done|]. cbn [read_full length]. rewrite (proj2 (Nat.ltb_ge _ _)) by (cbn; rewrite length_app; lia). by rewrite (take_app_length (x :: a)), (drop_app_length (x :: a)).
  - apply not_elem_of_cons in Hc as [Hd Hc]. destruct a as [|x a]; [by exists (d :: ds)|]. set (a' := x :: a). assert (Hl : (0 < length a')%nat) by (cbn; lia). cbn [read_full]. destruct (length a') as [|n] eqn:En; [lia|]. destruct d as [k| |]; [| |done].
    + rewrite <- En. set (c := Nat.min (S k) (Nat.min (length a') (length (a' ++ rest)))). assert (Hcl : (0 < c <= length a')%nat) by (unfold c; rewrite length_app; lia). rewrite (proj2 (Nat.eqb_neq _ _)) by lia.
      rewrite drop_app_le, take_app_le by lia. replace (length a' - c)%nat with (length (drop c a')) by (by rewrite length_drop). destruct (IH (drop c a') Hc) as (ds' & -> & Hs). exists ds'. cbn. rewrite take_drop. split; [done|by apply suffix_cons_r].
    + rewrite <- En. destruct (IH a' Hc) as (ds' & -> & Hs). exists ds'. split; [done|by apply suffix_cons_r].
Qed.

Lemma drain_ok ds a rest : steady ds -> exists ds', drain ds (a ++ rest) (length a) = (true, (ds', rest)) /\ ds' `suffix_of` ds.
Proof.
  unfold steady. revert a. induction ds as [|d ds IH]; intros a [Hc Hg].
  - exists []. split; [|done]. destruct a as [|x a]; [done|]. cbn [drain length]. rewrite (proj2 (Nat.ltb_ge _ _)) by (cbn; rewrite length_app; lia). by rewrite (drop_app_length (x :: a)).
  - apply not_elem_of_cons in Hc as [Hd Hc]. apply not_elem_of_cons in Hg as [Hd2 Hg]. destruct a as [|x a]; [by exists (d :: ds)|]. set (a' := x :: a). assert (Hl : (0 < length a')%nat) by (cbn; lia). cbn [drain]. destruct (length a') as [|n] eqn:En; [lia|]. destruct d as [k| |]; [|done|done].
    rewrite <- En. set (c := Nat.min (S k) (Nat.min (Nat.min (length a') 256) (length (a' ++ rest)))). assert (Hcl : (0 < c <= length a')%nat) by (unfold c; rewrite length_app; lia). rewrite (proj2 (Nat.eqb_neq _ _)) by lia.
    rewrite drop_app_le by lia. replace (length a' - c)%nat with (length (drop c a')) by (by rewrite length_drop). destruct (IH (drop c a') (conj Hc Hg)) as (ds' & -> & Hs). exists ds'. split; [done|by apply suffix_cons_r].
Qed.

Lemma calm_suffix ds ds' : ds' `suffix_of` ds -> calm ds -> calm ds'.
Proof. intros [k ->] H. unfold calm in *. rewrite not_elem_of_app in H. tauto. Qed.
Lemma steady_suffix ds ds' : ds' `suffix_of` ds -> steady ds -> steady ds'.
Proof. intros [k ->] H. unfold steady in *. rewrite !not_elem_of_app in H. tauto. Qed.

(** The machine after the stream moved on. *)
Definition at_stream (m : machine) (ds : list delivery) (input : bytes) : machine := with_stream m (ds, input).

Lemma lumen_read_ok m ds a rest n : calm ds -> n = length a -> exists ds', lumen_read_full n (at_stream m ds (a ++ rest)) = (Some a, at_stream m ds' rest) /\ ds' `suffix_of` ds.
Proof. intros Hc ->. destruct (read_full_ok ds a rest Hc) as (ds' & E & Hs). exists ds'. split; [|done]. unfold lumen_read_full. cbn [at_stream with_stream m_reads m_in fst snd]. by rewrite E. Qed.

Lemma payload_ok m ds a rest n decode : calm ds -> n = length a -> exists ds', payload n decode (at_stream m ds (a ++ rest)) = (Some (decode a), at_stream m ds' rest) /\ ds' `suffix_of` ds.
Proof. intros Hc Hn. unfold payload. destruct (lumen_read_ok m ds a rest n Hc Hn) as (ds' & E & Hs). exists ds'. split; [|done]. unfold mbind, act_bind. by rewrite E. Qed.

(** ** Fields *)

Lemma slice_at off n p f r : off = length p -> n = length f -> slice off n (p ++ f ++ r) = f.
Proof. intros -> ->. apply slice_mid. Qed.

Lemma u32_field off p v r : off = length p -> is_u32 v -> u32_at (p ++ le_bytes 4 v ++ r) off = v.
Proof. intros Ho Hv. unfold u32_at. rewrite (slice_at off 4 p (le_bytes 4 v) r) by (done || by rewrite length_le_bytes). rewrite le_value_bytes. apply Z.mod_small. exact Hv. Qed.

Lemma i32_field off p v r : off = length p -> in_i32 v -> i32_at (p ++ le_bytes 4 (u32 v) ++ r) off = v.
Proof.
  intros Ho Hv. unfold i32_at. rewrite u32_field; [|done|apply u32_range]. unfold i32, u32, in_i32 in *. rewrite Zplus_mod_idemp_l. rewrite Z.mod_small by lia. lia.
Qed.

Lemma byte_field off p c r : off = length p -> byte_at (p ++ [c] ++ r) off = c.
Proof. intros ->. unfold byte_at. rewrite lookup_app_r, Nat.sub_diag by done. done. Qed.

Lemma u32_tail off p v : off = length p -> is_u32 v -> u32_at (p ++ le_bytes 4 v) off = v.
Proof. intros. rewrite <- (app_nil_r (le_bytes 4 v)). by apply u32_field. Qed.
Lemma u32_head v r : is_u32 v -> u32_at (le_bytes 4 v ++ r) 0 = v.
Proof. intros. by apply (u32_field 0 [] v r). Qed.
Lemma u32_only v : is_u32 v -> u32_at (le_bytes 4 v) 0 = v.
Proof. intros. by apply (u32_tail 0 [] v). Qed.

Lemma header_op op n : is_u32 op -> u32_at (header op n) 0 = op.
Proof. apply u32_head. Qed.
Lemma header_len op n : is_u32 (Z.of_nat n) -> u32_at (header op n) 4 = Z.of_nat n.
Proof. intros. unfold header. by apply u32_tail; [rewrite length_le_bytes|]. Qed.
Lemma header_length op n : length (header op n) = 8%nat.
Proof. unfold header. by rewrite length_app, !length_le_bytes. Qed.

Lemma u8_i8 s : -128 <= s < 128 -> i8 (u8 s) = s.
Proof. intros. unfold i8, u8. rewrite Zplus_mod_idemp_l. change (2 ^ 8) with 256. rewrite Z.mod_small; lia. Qed.

(** A field behind [n] others. *)
Tactic Notation "behind" int_or_var(n) := do n rewrite app_assoc; first [apply i32_field|apply u32_field|apply u32_tail|apply byte_field]; rewrite ?length_app, ?length_le_bytes; done.

Ltac fields := f_equal; first [by apply u32_head|by apply u32_only|behind 0|behind 1|behind 2|idtac].

Definition decode (e : event) (b : bytes) : event :=
  match e with
  | EvKey _ _ _ _ => EvKey (u32_at b 0) (u32_at b 4) (u32_at b 8) (byte_at b 12)
  | EvMouse _ _ _ _ _ _ => EvMouse (u32_at b 0) (i32_at b 4) (i32_at b 8) (byte_at b 12) (byte_at b 13) (i8 (byte_at b 14))
  | EvCloseRequest _ => EvCloseRequest (u32_at b 0)
  | EvFocus _ _ => EvFocus (u32_at b 0) (byte_at b 4)
  | EvResized _ _ _ => EvResized (u32_at b 0) (u32_at b 4) (u32_at b 8)
  | EvDragOver _ _ _ _ => EvDragOver (u32_at b 0) (i32_at b 4) (i32_at b 8) (byte_at b 12)
  | EvDragLeave _ => EvDragLeave (u32_at b 0)
  | EvDrop _ _ _ _ _ => EvDrop (u32_at b 0) (i32_at b 4) (i32_at b 8) (byte_at b 12) (cstr (take 255 (slice 16 256 b)))
  | e => e
  end.

Lemma take_nuls k n : take k (repeat NUL n) = repeat NUL (Nat.min k n).
Proof. revert n. induction k as [|k IH]; intros [|n]; cbn; [done..|]. by rewrite IH. Qed.

Lemma drop_path p : NUL ∉ p -> (length p < 256)%nat -> cstr (take 255 (p ++ repeat NUL (256 - length p))) = p.
Proof. intros Hp Hl. rewrite take_app_ge by lia. rewrite take_nuls. by apply cstr_padded. Qed.

Lemma decode_body e : event_ok e -> decode e (body e) = e.
Proof.
  destruct e; cbn [event_ok decode body]; intros He; try done.
  - destruct He as (? & ? & ?). fields.
  - destruct He as (? & ? & ? & ?). fields. by apply u8_i8.
  - fields.
  - fields.
  - destruct He as (? & ? & ?). fields.
  - destruct He as (? & ? & ?). fields.
  - fields.
  - destruct He as (? & ? & ? & ? & ?). fields. assert (E : slice 16 256 (le_bytes 4 window ++ le_bytes 4 (u32 x) ++ le_bytes 4 (u32 y) ++ [op] ++ [0; 0; 0] ++ path ++ repeat NUL (256 - length path)) = path ++ repeat NUL (256 - length path)).
    { do 4 rewrite app_assoc. rewrite <- (app_nil_r (path ++ _)) at 1. apply slice_at; rewrite ?length_app, ?length_le_bytes, ?repeat_length; cbn [length]; lia. }
    rewrite E. by apply drop_path.
Qed.

Lemma wire_info_length i : info_ok i -> length (wire_info i) = 72%nat.
Proof. intros [_ Hl]. unfold wire_info. rewrite !length_app, length_le_bytes, Hl. done. Qed.

Lemma window_info_wire i : info_ok i -> window_info (wire_info i) = i.
Proof.
  intros [Hg Hl]. destruct i as [g mi fo ti]. unfold window_info, wire_info. cbn [gid minimized focused title] in *. f_equal; [by apply u32_head|].
  do 2 rewrite app_assoc. rewrite <- (app_nil_r ti) at 1. apply slice_at; rewrite ?length_app, ?length_le_bytes; done.
Qed.

Lemma read_infos_ok m ds l rest : calm ds -> Forall info_ok l -> exists ds', read_infos (length l) (at_stream m ds (concat (wire_info <$> l) ++ rest)) = (Some l, at_stream m ds' rest) /\ ds' `suffix_of` ds.
Proof.
  intros Hc Hl. revert ds Hc. induction Hl as [|i l Hi Hl IH]; intros ds Hc; [by exists ds|]. cbn [length read_infos]. rewrite fmap_cons. cbn [concat]. rewrite <- app_assoc.
  destruct (lumen_read_ok m ds (wire_info i) (concat (wire_info <$> l) ++ rest) WINDOW_INFO_SIZE Hc ltac:(by rewrite wire_info_length)) as (d1 & E1 & H1). unfold mbind, act_bind. rewrite E1.
  destruct (IH d1 (calm_suffix _ _ H1 Hc)) as (d2 & E2 & H2). unfold mbind, act_bind in E2 |- *. rewrite E2. exists d2. rewrite window_info_wire by done. split; [done|]. by etrans.
Qed.

Lemma infos_length l : Forall info_ok l -> length (concat (wire_info <$> l)) = (length l * 72)%nat.
Proof. induction 1 as [|i l Hi Hl IH]; [done|]. rewrite fmap_cons. cbn [concat length]. rewrite length_app, wire_info_length, IH by done. lia. Qed.

Lemma skip_rest_ok m ds a rest n : steady ds -> n = length a -> exists ds', skip_rest n (at_stream m ds (a ++ rest)) = (true, at_stream m ds' rest) /\ ds' `suffix_of` ds.
Proof. intros Hc ->. destruct (drain_ok ds a rest Hc) as (ds' & E & Hs). exists ds'. split; [|done]. unfold skip_rest. cbn [at_stream with_stream m_reads m_in fst snd]. by rewrite E. Qed.

(** ** One message *)

Lemma recv_known m ds e rest : calm ds -> event_ok e -> exists ds', recv_event (at_stream m ds (wire (MEvent e) ++ rest)) = (Some e, at_stream m ds' rest) /\ ds' `suffix_of` ds.
Proof.
  intros Hc He. unfold recv_event, wire. rewrite <- app_assoc. destruct (lumen_read_ok m ds (header (event_op e) (length (body e))) (body e ++ rest) 8 Hc (eq_sym (header_length _ _))) as (d1 & E1 & H1). unfold mbind at 1, act_bind at 1. rewrite E1.
  pose proof (calm_suffix _ _ H1 Hc) as Hc1. rewrite header_op by (destruct e; done). pose proof (decode_body e He) as Hd.
  destruct e; try done; cbn [event_op]; cbv [LUMEN_EV_KEY LUMEN_EV_MOUSE LUMEN_EV_CLOSE_REQUEST LUMEN_EV_FOCUS LUMEN_EV_RESIZED LUMEN_EV_DRAG_OVER LUMEN_EV_DRAG_LEAVE LUMEN_EV_DROP LUMEN_EV_WINDOW_LIST]; cbn [Z.eqb Pos.eqb].
  9: { destruct He as [Hi Hl]. pose proof (infos_length items Hi) as Hlen. cbn [body]. rewrite header_len by (rewrite Hlen; unfold is_u32; lia). rewrite Nat2Z.id, Hlen. unfold WINDOW_INFO_SIZE. rewrite Nat.div_mul by done. rewrite Nat.min_r by done.
       destruct (read_infos_ok m d1 items rest Hc1 Hi) as (d2 & E2 & H2). unfold mbind, act_bind. rewrite E2. rewrite Nat.sub_diag. exists d2. split; [|by etrans]. unfold skip_rest. cbn [at_stream with_stream m_reads m_in fst snd]. destruct d2; done. }
  all: match goal with |- context [payload ?n _ (at_stream ?mm ?dd (body ?e ++ ?rr))] =>
         assert (Hn : n = length (body e)) by (cbn [body]; rewrite ?length_app, ?length_le_bytes, ?repeat_length; cbn [length]; try destruct He as (? & ? & ? & ? & ?); lia);
         destruct (payload_ok mm dd (body e) rr n (decode e) Hc1 Hn) as (d2 & E2 & H2); rewrite Hd in E2; exists d2; split; [exact E2|by etrans] end.
Qed.

Lemma recv_unknown m ds op data rest : steady ds -> message_ok (MUnknown op data) -> exists ds', recv_event (at_stream m ds (wire (MUnknown op data) ++ rest)) = (Some EvNone, at_stream m ds' rest) /\ ds' `suffix_of` ds.
Proof.
  intros Hs (Hop & Hno & Hlen). unfold recv_event, wire. rewrite <- app_assoc. destruct (lumen_read_ok m ds (header op (length data)) (data ++ rest) 8 (proj1 Hs) (eq_sym (header_length _ _))) as (d1 & E1 & H1). unfold mbind at 1, act_bind at 1. rewrite E1.
  rewrite header_op, header_len by done. unfold known_ops in Hno. rewrite !not_elem_of_cons in Hno. rewrite !(proj2 (Z.eqb_neq _ _)) by tauto. rewrite Nat2Z.id.
  destruct (skip_rest_ok m d1 data rest (length data) (steady_suffix _ _ H1 Hs) eq_refl) as (d2 & E2 & H2). unfold mbind, act_bind. rewrite E2. exists d2. split; [done|by etrans].
Qed.

