(* ===== verification/LumenWindows.v ===== *)
(** The windows of a client and what they own; what is sent; concrete streams. *)

From S2P Require Import Prelude CString Posix LumenClient LumenSafety.
From stdpp Require Import gmap.
Local Open Scope Z_scope.

(** * Ownership *)

Inductive kind := KFd | KMap (size : Z) | KHeap (size : Z).
Definition kind_of (o : object) : kind := match o with FdObj => KFd | MapObj d => KMap (Z.of_nat (length d)) | HeapObj d => KHeap (Z.of_nat (length d)) end.

(** The live objects are exactly these, and no use or release went wrong. *)
Record owns (m : machine) (cl : list (nat * kind)) : Prop := {
  ow_map : kind_of <$> m_objs m = list_to_map cl;
  ow_dup : NoDup cl.*1;
  ow_new : Forall (λ i, i < m_next m)%nat cl.*1;
  ow_good : m_bad m = false
}.

Definition window_claims (w : lumen_window_t) : list (nat * kind) :=
  [(w_self w, KHeap 0); (w_memfd w, KFd); (w_shared w, KMap (bufsz (w_w w) (w_h w))); (w_backbuf w, KHeap (bufsz (w_w w) (w_h w)))].

Lemma owns_perm m cl cl' : cl ≡ₚ cl' -> owns m cl -> owns m cl'.
Proof.
  intros Hp [Hm Hd Hn Hg]. assert (Hp1 : cl.*1 ≡ₚ cl'.*1) by (by rewrite Hp). split; [|by rewrite <- Hp1|by rewrite <- Hp1|done]. rewrite Hm. by apply list_to_map_proper.
Qed.

(** Machines that agree on the objects own the same. *)
Definition same_objs (m m' : machine) : Prop := m_objs m' = m_objs m /\ m_next m' = m_next m /\ m_bad m' = m_bad m.
Lemma owns_same m m' cl : same_objs m m' -> owns m cl -> owns m' cl.
Proof. intros (Ho & Hn & Hb) [? ? ? ?]. split; rewrite ?Ho, ?Hn, ?Hb; done. Qed.

Lemma new_object_owns o m cl : owns m cl -> let '(i, m') := new_object o m in owns m' ((i, kind_of o) :: cl).
Proof.
  intros [Hm Hd Hn Hg]. unfold new_object. assert (Hi : m_next m ∉ cl.*1) by (intros H; rewrite Forall_forall in Hn; specialize (Hn _ H); cbn in Hn; lia). split; cbn.
  - rewrite fmap_insert, Hm. done.
  - by constructor.
  - constructor; [lia|]. eapply Forall_impl; [exact Hn|]. cbn. lia.
  - done.
Qed.

Lemma release_owns test i k m cl : owns m ((i, k) :: cl) -> (forall o, kind_of o = k -> test o = true) -> owns (release test i m).2 cl /\ m_replies (release test i m).2 = m_replies m.
Proof.
  intros [Hm Hd Hn Hg] Ht. cbn in Hm, Hd, Hn. assert (Hl : kind_of <$> m_objs m !! i = Some k) by (rewrite <- lookup_fmap, Hm; apply lookup_insert_eq). apply fmap_Some in Hl as (o & Ho & ->). unfold release. rewrite Ho, Ht by done. cbn.
  apply NoDup_cons in Hd as [Hi Hd]. inversion Hn as [|? ? _ Hn']; subst. split; [|done]. split; cbn; try done. rewrite fmap_delete, Hm, delete_insert_eq. apply delete_id. by apply not_elem_of_list_to_map_1.
Qed.

(** ** Operations *)

(** What an operation may do to the rest of the machine: consume replies. *)
Definition reply_ok (r : reply) : Prop :=
  match r with
  | RFail => True
  | RMsg data fd => length data = 32%nat /\ 0 <= created_width (drop 8 data) < 2 ^ 31 /\ 0 <= created_height (drop 8 data) < 2 ^ 31 /\ (fd = true -> created_status (drop 8 data) = 0)
  end.
Definition replies_ok (m : machine) : Prop := Forall reply_ok (m_replies m).

Lemma write_all_same bs m : same_objs m (write_all bs m).2 /\ m_replies (write_all bs m).2 = m_replies m.
Proof. unfold write_all. destruct (match m_writes m with [] => _ | _ => _ end) as [n ws]. done. Qed.

Lemma request_same op req m : same_objs m (request op req m).2 /\ m_replies (request op req m).2 = m_replies m.
Proof.
  unfold request, mbind, act_bind. pose proof (write_all_same (header op (length req)) m) as H1. destruct (write_all (header op (length req)) m) as [[] m1]; [|done]. pose proof (write_all_same req m1) as H2. destruct (write_all req m1) as [ok m2]. cbn in *. unfold same_objs in *. intuition congruence.
Qed.

Lemma request_blind_same op req m : same_objs m (request_blind op req m).2 /\ m_replies (request_blind op req m).2 = m_replies m.
Proof.
  unfold request_blind, mbind, act_bind. pose proof (write_all_same (header op (length req)) m) as H1. destruct (write_all (header op (length req)) m) as [ok m1]. pose proof (write_all_same req m1) as H2. destruct (write_all req m1) as [ok' m2]. cbn in *. unfold same_objs in *. intuition congruence.
Qed.

Lemma try_object_owns o m cl : owns m cl -> let '(r, m') := try_object o m in m_replies m' = m_replies m /\ match r with Some i => owns m' ((i, kind_of o) :: cl) | None => owns m' cl end.
Proof.
  intros Ho. unfold try_object. set (m1 := Machine _ _ _ _ _ _ _ _ _ _). assert (H1 : owns m1 cl) by (by eapply owns_same; [|exact Ho]). destruct (default true (head (m_allocs m))); [|done].
  pose proof (new_object_owns o m1 cl H1) as H. unfold new_object in *. done.
Qed.

Lemma close_owns i m cl : owns m ((i, KFd) :: cl) -> owns (close_fd i m).2 cl /\ m_replies (close_fd i m).2 = m_replies m.
Proof. intros H. eapply release_owns; [exact H|]. by intros []. Qed.
Lemma munmap_owns i s m cl : owns m ((i, KMap s) :: cl) -> owns (munmap i s m).2 cl /\ m_replies (munmap i s m).2 = m_replies m.
Proof. intros H. eapply release_owns; [exact H|]. intros [|d|d] [=]; subst. apply Z.eqb_refl. Qed.
Lemma free_owns i s m cl : owns m ((i, KHeap s) :: cl) -> owns (free i m).2 cl /\ m_replies (free i m).2 = m_replies m.
Proof. intros H. eapply release_owns; [exact H|]. by intros []. Qed.

(** Running an operation in a sequence. *)
Lemma bind_run {A B} (x : act A) (f : A -> act B) m : (x ≫= f) m = f (x m).1 (x m).2.
Proof. unfold mbind, act_bind. by destruct (x m). Qed.

Lemma sized n : 0 <= n -> Z.of_nat (length (repeat 0 (Z.to_nat n))) = n.
Proof. intros. rewrite repeat_length. lia. Qed.

Lemma map_buffers_owns fd size m cl : 0 <= size -> owns m ((fd, KFd) :: cl) -> let '(r, m') := map_buffers fd size m in
  m_replies m' = m_replies m /\ match r with Some (s, b) => owns m' ((b, KHeap size) :: (s, KMap size) :: (fd, KFd) :: cl) | None => owns m' cl end.
Proof.
  intros Hs Ho. unfold map_buffers. rewrite bind_run. pose proof (try_object_owns (MapObj (repeat 0 (Z.to_nat size))) m _ Ho) as H1. destruct (try_object _ m) as [[s|] m1]; destruct H1 as [R1 H1]; cbn [fst snd kind_of] in *.
  2: { rewrite bind_run. destruct (close_owns fd m1 cl H1) as [H2 R2]. destruct (close_fd fd m1) as [[] m2]. cbn in *. split; [congruence|done]. }
  rewrite sized in H1 by done. rewrite bind_run. pose proof (try_object_owns (HeapObj (repeat 0 (Z.to_nat size))) m1 _ H1) as H2. destruct (try_object _ m1) as [[b|] m2]; destruct H2 as [R2 H2]; cbn [fst snd kind_of] in *.
  - rewrite sized in H2 by done. split; [cbn; congruence|done].
  - rewrite !bind_run. destruct (munmap_owns s size m2 _ H2) as [H3 R3]. destruct (munmap s size m2) as [[] m3]. cbn [fst snd] in *. destruct (close_owns fd m3 cl H3) as [H4 R4]. destruct (close_fd fd m3) as [[] m4]. cbn in *. split; [congruence|done].
Qed.

(** What recvmsg gives for a good reply. *)
Lemma recvmsg_owns m cl : owns m cl -> replies_ok m -> let '(r, m') := recvmsg m in replies_ok m' /\
  match r with
  | Some (b, Some fd) => owns m' ((fd, KFd) :: cl) /\ created_status b = 0 /\ 0 <= created_width b < 2 ^ 31 /\ 0 <= created_height b < 2 ^ 31
  | Some (b, None) => owns m' cl /\ 0 <= created_width b < 2 ^ 31 /\ 0 <= created_height b < 2 ^ 31
  | None => owns m' cl
  end.
Proof.
  intros Ho Hr. unfold recvmsg, replies_ok in *. destruct (m_replies m) as [|[|data fd] rs] eqn:E; [by rewrite E| |]; inversion Hr as [|? ? Hok Hrs]; subst.
  - split; [done|]. by eapply owns_same; [|exact Ho].
  - destruct Hok as (Hl & Hw & Hh & Hst). rewrite (take_ge data 32) by lia. set (m1 := Machine _ _ _ _ _ _ _ _ _ _). assert (H1 : owns m1 cl) by (by eapply owns_same; [|exact Ho]).
    assert (Hw' : forall x, created_width (drop 8 (data ++ x)) = created_width (drop 8 data) /\ created_height (drop 8 (data ++ x)) = created_height (drop 8 data) /\ created_status (drop 8 (data ++ x)) = created_status (drop 8 data)).
    { intros x. rewrite drop_app_le by lia. unfold created_width, created_height, created_status, u32_at, slice. split_and!; rewrite ?drop_drop; (rewrite drop_app_le by (rewrite length_drop; lia)); (rewrite take_app_le by (rewrite !length_drop; lia)); rewrite ?drop_drop; done. }
    destruct fd.
    + pose proof (new_object_owns FdObj m1 cl H1) as H2. unfold new_object in *. cbn in *. destruct (Hw' (drop (length data) (m_stack m))) as (E1 & E2 & E3). rewrite E1, E2, E3. split; [done|]. split_and!; try done; auto; lia.
    + destruct (Hw' (drop (length data) (m_stack m))) as (E1 & E2 & E3). rewrite E1, E2. split; [done|]. split_and!; try done; lia.
Qed.

Lemma bufsz_pos w h : 0 <= bufsz w h.
Proof. unfold bufsz. pose proof (u64_range (w * h * 4)). lia. Qed.

Lemma small_i32 x : 0 <= x < 2 ^ 31 -> i32 x = x.
Proof. intros. apply i32_small. unfold in_i32. lia. Qed.

(** The claims after an operation that may give a window. *)
Definition with_window (r : option lumen_window_t) (cl : list (nat * kind)) : list (nat * kind) := match r with Some w => window_claims w ++ cl | None => cl end.

Lemma recv_created_owns m cl : owns m cl -> replies_ok m -> let '(r, m') := recv_created_reply m in replies_ok m' /\ owns m' (with_window r cl).
Proof.
  intros Ho Hr. unfold recv_created_reply. rewrite bind_run. pose proof (recvmsg_owns m cl Ho Hr) as H1. destruct (recvmsg m) as [[[b [fd|]]|] m1]; cbn [fst snd] in *; destruct H1 as [R1 H1]; [| |done].
  2: { destruct (negb _); (split; [done|]); cbn; tauto. }
  destruct H1 as (H1 & Est & Hw & Hh). rewrite Est. cbn [Z.eqb negb]. rewrite bind_run. set (size := bufsz (created_width b) (created_height b)) in *.
  pose proof (map_buffers_owns fd size m1 cl (bufsz_pos _ _) H1) as H2. destruct (map_buffers fd size m1) as [[[s bk]|] m2]; cbn [fst snd] in *; destruct H2 as [R2 H2]; [|cbn; split; [unfold replies_ok in *; congruence|done]].
  rewrite bind_run. pose proof (try_object_owns (HeapObj []) m2 _ H2) as H3. destruct (try_object (HeapObj []) m2) as [[wi|] m3]; cbn [fst snd kind_of] in *; destruct H3 as [R3 H3].
  - cbn. split; [unfold replies_ok in *; congruence|]. rewrite !small_i32 by done. fold size. eapply owns_perm; [|exact H3]. constructor. rewrite (Permutation_swap (fd, KFd)). solve_Permutation.
  - rewrite !bind_run. destruct (free_owns bk size m3 _ H3) as [H4 R4]. destruct (free bk m3) as [[] m4]. cbn [fst snd] in *. destruct (munmap_owns s size m4 _ H4) as [H5 R5]. destruct (munmap s size m4) as [[] m5]. cbn [fst snd] in *.
    destruct (close_owns fd m5 cl H5) as [H6 R6]. destruct (close_fd fd m5) as [[] m6]. cbn in *. split; [unfold replies_ok in *; congruence|done].
Qed.

Lemma recv_buffer_owns w m cl : owns m (window_claims w ++ cl) -> replies_ok m -> let '(r, m') := recv_buffer_reply w m in replies_ok m' /\ owns m' (window_claims r.2 ++ cl).
Proof.
  intros Ho Hr. unfold recv_buffer_reply. rewrite bind_run. pose proof (recvmsg_owns m _ Ho Hr) as H1. destruct (recvmsg m) as [[[b [fd|]]|] m1]; cbn [fst snd] in *; destruct H1 as [R1 H1]; [| |done].
  2: { destruct (negb _); (split; [done|]); cbn; tauto. }
  destruct H1 as (H1 & Est & Hw & Hh). rewrite Est. cbn [Z.eqb negb]. rewrite bind_run. set (size := bufsz (created_width b) (created_height b)) in *.
  pose proof (map_buffers_owns fd size m1 _ (bufsz_pos _ _) H1) as H2. destruct (map_buffers fd size m1) as [[[s bk]|] m2]; cbn [fst snd] in *; destruct H2 as [R2 H2]; [|cbn; split; [unfold replies_ok in *; congruence|done]].
  set (new := [(bk, KHeap size); (s, KMap size); (fd, KFd)]) in *. assert (H2' : owns m2 ((w_shared w, KMap (bufsz (w_w w) (w_h w))) :: (w_memfd w, KFd) :: (w_backbuf w, KHeap (bufsz (w_w w) (w_h w))) :: (w_self w, KHeap 0) :: new ++ cl)).
  { eapply owns_perm; [|exact H2]. unfold window_claims, new. cbn [app]. solve_Permutation. }
  rewrite !bind_run. destruct (munmap_owns _ _ m2 _ H2') as [H3 R3]. destruct (munmap _ _ m2) as [[] m3]. cbn [fst snd] in *. destruct (close_owns _ m3 _ H3) as [H4 R4]. destruct (close_fd _ m3) as [[] m4]. cbn [fst snd] in *.
  destruct (free_owns _ _ m4 _ H4) as [H5 R5]. destruct (free _ m4) as [[] m5]. cbn [fst snd] in *. split; [unfold replies_ok in *; cbn; congruence|]. cbn. rewrite !small_i32 by done. fold size. eapply owns_perm; [|exact H5]. unfold new. cbn [app window_claims w_self w_memfd w_shared w_backbuf w_w w_h]. solve_Permutation.
Qed.

Lemma with_window_same m m' r cl : same_objs m m' -> owns m (with_window r cl) -> owns m' (with_window r cl).
Proof. apply owns_same. Qed.

(** ** Clients *)

Inductive cmd :=
| CCreate (ttl : bytes) (w h flags : Z) | CPanel (w h : Z)
| CPresent (i : nat) | CResize (i : nat) (w h : Z) | CResizeSelf (i : nat) (w h : Z) | CDestroy (i : nat)
| CAdmin (i : nat) (admin : bool) | CDrag (i : nat) (op : Z) (label path : bytes) | CInvoke (name : bytes) | CActivate (g : Z).

Definition add_window (ws : list lumen_window_t) (r : option lumen_window_t) : list lumen_window_t := match r with Some w => w :: ws | None => ws end.

(** A command on the windows the client has. *)
Definition run_cmd (c : cmd) (ws : list lumen_window_t) : act (list lumen_window_t) :=
  let on i (f : lumen_window_t -> act (list lumen_window_t)) := match ws !! i with Some w => f w | None => mret ws end in
  match c with
  | CCreate ttl w h flags => r ← lumen_window_create_ex ttl w h flags; mret (add_window ws r)
  | CPanel w h => r ← lumen_panel_create w h; mret (add_window ws r)
  | CPresent i => on i (λ w, _ ← lumen_window_present w; mret ws)
  | CResize i w h => on i (λ win, r ← lumen_window_apply_resize win w h; mret (<[i := r.2]> ws))
  | CResizeSelf i w h => on i (λ win, r ← lumen_window_resize_self win w h; mret (<[i := r.2]> ws))
  | CDestroy i => on i (λ w, _ ← lumen_window_destroy w; mret (delete i ws))
  | CAdmin i b => on i (λ w, _ ← lumen_window_set_admin w b; mret ws)
  | CDrag i op label path => on i (λ w, _ ← lumen_drag_start w op label path; mret ws)
  | CInvoke name => _ ← lumen_invoke name; mret ws
  | CActivate g => _ ← lumen_activate_window g; mret ws
  end.
Fixpoint run_cmds (cs : list cmd) (ws : list lumen_window_t) : act (list lumen_window_t) :=
  match cs with [] => mret ws | c :: cs => ws ← run_cmd c ws; run_cmds cs ws end.

Definition claims (ws : list lumen_window_t) : list (nat * kind) := ws ≫= window_claims.

(** The state of a client between two calls. *)
Definition settled (m : machine) (ws : list lumen_window_t) : Prop := owns m (claims ws) /\ replies_ok m.

Lemma settled_same m m' ws : same_objs m m' /\ m_replies m' = m_replies m -> settled m ws -> settled m' ws.
Proof. intros [Hs Hr] [Ho Hk]. split; [by eapply owns_same|]. unfold replies_ok in *. by rewrite Hr. Qed.

Lemma claims_at ws i w : ws !! i = Some w -> claims ws ≡ₚ window_claims w ++ claims (delete i ws).
Proof. intros H. exact (bind_Permutation window_claims _ _ (delete_Permutation ws i w H)). Qed.
Lemma claims_insert ws i w w' : ws !! i = Some w -> claims (<[i := w']> ws) ≡ₚ window_claims w' ++ claims (delete i ws).
Proof.
  intros H. apply lookup_lt_Some in H. rewrite (claims_at (<[i := w']> ws) i w') by (by apply list_lookup_insert_eq). f_equiv. unfold claims. rewrite !delete_take_drop, insert_take_drop by done.
  rewrite take_app_length' by (rewrite length_take; lia). rewrite (cons_middle w'), app_assoc, drop_app_length' by (rewrite length_app, length_take; cbn; lia). done.
Qed.

Lemma request_settled op req m ws : settled m ws -> settled (request op req m).2 ws.
Proof. apply settled_same, request_same. Qed.
Lemma request_blind_settled op req m ws : settled m ws -> settled (request_blind op req m).2 ws.
Proof. apply settled_same, request_blind_same. Qed.

Lemma create_settled op req m ws : settled m ws -> let '(r, m') := (ok ← request op req; if (ok : bool) then recv_created_reply else mret None) m in settled m' (add_window ws r).
Proof.
  intros H. rewrite bind_run. pose proof (request_settled op req m ws H) as [H1 R1]. destruct (request op req m) as [[] m1]; cbn [fst snd] in *; [|done].
  pose proof (recv_created_owns m1 _ H1 R1) as H2. destruct (recv_created_reply m1) as [[w|] m2]; destruct H2; by split.
Qed.

Lemma resize_settled op req win i m ws : settled m ws -> ws !! i = Some win -> let '(r, m') := (ok ← request op req; if (ok : bool) then recv_buffer_reply win else mret (-1, win)) m in settled m' (<[i := r.2]> ws).
Proof.
  intros H Hi. rewrite bind_run. pose proof (request_settled op req m ws H) as [H1 R1]. destruct (request op req m) as [[] m1]; cbn [fst snd] in *; [|cbn; rewrite list_insert_id by done; by split].
  pose proof (recv_buffer_owns win m1 (claims (delete i ws)) (owns_perm _ _ _ (claims_at ws i win Hi) H1) R1) as H2. destruct (recv_buffer_reply win m1) as [r m2]. destruct H2 as [R2 H2]. split; [|done].
  eapply owns_perm; [|exact H2]. symmetry. by eapply claims_insert.
Qed.

Lemma copy_settled w i m ws : settled m ws -> ws !! i = Some w -> settled (copy_object (w_shared w) (w_backbuf w) (bufsz (w_w w) (w_h w)) m).2 ws /\
  (exists d, m_objs (copy_object (w_shared w) (w_backbuf w) (bufsz (w_w w) (w_h w)) m).2 !! w_shared w = Some (MapObj d) /\ m_objs m !! w_backbuf w = Some (HeapObj d)).
Proof.
  intros [Ho Hr] Hi. pose proof (owns_perm _ _ _ (claims_at ws i w Hi) Ho) as Hp. assert (Hl : forall j k, (j, k) ∈ window_claims w -> kind_of <$> m_objs m !! j = Some k).
  { intros j k Hj. rewrite <- lookup_fmap, (ow_map _ _ Hp). apply elem_of_list_to_map_1; [apply (ow_dup _ _ Hp)|]. apply elem_of_app. by left. }
  assert (Hs : kind_of <$> m_objs m !! w_shared w = Some (KMap (bufsz (w_w w) (w_h w)))) by (apply Hl; unfold window_claims; rewrite !elem_of_cons; auto).
  assert (Hb : kind_of <$> m_objs m !! w_backbuf w = Some (KHeap (bufsz (w_w w) (w_h w)))) by (apply Hl; unfold window_claims; rewrite !elem_of_cons; auto).
  unfold copy_object. destruct (m_objs m !! w_shared w) as [[|d|d]|] eqn:Es; try done. destruct (m_objs m !! w_backbuf w) as [[|s|s]|] eqn:Eb; try done. injection Hs as Hs. injection Hb as Hb.
  rewrite !(proj2 (Z.leb_le _ _)) by lia. cbn [andb]. assert (El : splice 0 (take (Z.to_nat (bufsz (w_w w) (w_h w))) s) d = s).
  { rewrite take_ge by lia. unfold splice. rewrite take_0. cbn [app Nat.add]. rewrite drop_ge by lia. apply app_nil_r. }
  rewrite El. cbn. split; [|exists s; split; [apply lookup_insert_eq|done]]. split; [|done]. destruct Ho. split; cbn; try done. rewrite fmap_insert, <- ow_map0. apply insert_id. rewrite lookup_fmap, Es. cbn. do 2 f_equal. lia.
Qed.

Lemma present_settled w i m ws : settled m ws -> ws !! i = Some w -> settled (lumen_window_present w m).2 ws.
Proof. intros H Hi. unfold lumen_window_present. rewrite bind_run. apply request_blind_settled. by eapply copy_settled. Qed.

Lemma destroy_settled w i m ws : settled m ws -> ws !! i = Some w -> settled (lumen_window_destroy w m).2 (delete i ws).
Proof.
  intros H Hi. unfold lumen_window_destroy. rewrite !bind_run. pose proof (request_blind_settled LUMEN_OP_DESTROY_WINDOW (le_bytes 4 (w_id w)) m ws H) as [H1 R1]. destruct (request_blind _ _ m) as [[] m1]. cbn [fst snd] in *.
  assert (H1' : owns m1 ((w_shared w, KMap (bufsz (w_w w) (w_h w))) :: (w_memfd w, KFd) :: (w_backbuf w, KHeap (bufsz (w_w w) (w_h w))) :: (w_self w, KHeap 0) :: claims (delete i ws))).
  { eapply owns_perm; [|exact H1]. rewrite (claims_at ws i w Hi). unfold window_claims. cbn [app]. solve_Permutation. }
  destruct (munmap_owns _ _ m1 _ H1') as [H2 R2]. destruct (munmap _ _ m1) as [[] m2]. cbn [fst snd] in *. destruct (close_owns _ m2 _ H2) as [H3 R3]. destruct (close_fd _ m2) as [[] m3]. cbn [fst snd] in *.
  destruct (free_owns _ _ m3 _ H3) as [H4 R4]. destruct (free (w_backbuf w) m3) as [[] m4]. cbn [fst snd] in *. destruct (free_owns _ _ m4 _ H4) as [H5 R5]. split; [done|]. unfold replies_ok in *. congruence.
Qed.

Lemma run_cmd_settled c ws m : settled m ws -> settled (run_cmd c ws m).2 (run_cmd c ws m).1.
Proof.
  intros H. destruct c as [ttl w h flags|w h|i|i w h|i w h|i|i b|i op label path|name|g]; cbn [run_cmd].
  - rewrite bind_run. pose proof (create_settled LUMEN_OP_CREATE_WINDOW (create_window_t ttl w h flags) m ws H) as H1. fold (lumen_window_create_ex ttl w h flags) in H1. destruct (lumen_window_create_ex ttl w h flags m) as [r m1]. exact H1.
  - rewrite bind_run. pose proof (create_settled LUMEN_OP_CREATE_PANEL (create_panel_t w h) m ws H) as H1. fold (lumen_panel_create w h) in H1. destruct (lumen_panel_create w h m) as [r m1]. exact H1.
  - destruct (ws !! i) as [win|] eqn:E; [|done]. rewrite bind_run. by eapply present_settled.
  - destruct (ws !! i) as [win|] eqn:E; [|done]. rewrite bind_run. unfold lumen_window_apply_resize. destruct (_ || _); [cbn; by rewrite list_insert_id|].
    pose proof (resize_settled LUMEN_OP_RESIZE_BUFFER (le_bytes 4 (w_id win) ++ le_bytes 4 w ++ le_bytes 4 h) win i m ws H E) as H1. destruct ((ok ← request _ _; _) m) as [r m1]. exact H1.
  - destruct (ws !! i) as [win|] eqn:E; [|done]. rewrite bind_run. unfold lumen_window_resize_self. destruct (_ || _); [cbn; by rewrite list_insert_id|].
    pose proof (resize_settled LUMEN_OP_RESIZE_SELF (le_bytes 4 w ++ le_bytes 4 h) win i m ws H E) as H1. destruct ((ok ← request _ _; _) m) as [r m1]. exact H1.
  - destruct (ws !! i) as [win|] eqn:E; [|done]. rewrite bind_run. by apply destroy_settled.
  - destruct (ws !! i) as [win|] eqn:E; [|done]. unfold lumen_window_set_admin. rewrite !bind_run. by apply request_settled.
  - destruct (ws !! i) as [win|] eqn:E; [|done]. unfold lumen_drag_start. destruct path; [done|]. rewrite !bind_run. by apply request_settled.
  - unfold lumen_invoke. rewrite !bind_run. by apply request_settled.
  - unfold lumen_activate_window. rewrite bind_run. by apply request_blind_settled.
Qed.

