(* ===== verification/LumenCases.v ===== *)
(** The window protocol: the layout of requests, and concrete streams. *)

From S2P Require Import Prelude CString Posix LumenClient LumenSafety LumenWindows.
From stdpp Require Import gmap.
Local Open Scope Z_scope.

(** * Requests *)

Lemma chars_length n s : length (chars n s) = n.
Proof. unfold chars. rewrite length_take, length_app, repeat_length. lia. Qed.

(** The payloads have the sizes of the structs of lumen_proto.h. *)
Lemma request_sizes ttl w h flags window op label path name :
  length (create_window_t ttl w h flags) = 72%nat /\ length (create_panel_t w h) = 4%nat /\ length (drag_start_t window op label path) = 328%nat /\ length (invoke_t name) = 32%nat.
Proof. unfold create_window_t, create_panel_t, drag_start_t, invoke_t. rewrite !length_app, !chars_length, !length_le_bytes. done. Qed.

(** * A client *)

Definition reply_bytes (status id w h : Z) : bytes := le_bytes 4 0 ++ le_bytes 4 24 ++ le_bytes 4 status ++ le_bytes 4 id ++ le_bytes 4 w ++ le_bytes 4 h ++ le_bytes 4 5 ++ le_bytes 4 6.

(** Two replies with a descriptor, then none; the second mapping of the resize fails
    once. *)
Definition fresh (replies : list reply) (allocs : list bool) : machine := Machine [] [] replies (repeat 170 32) [] [] ∅ 0 allocs false.
Definition client : machine := fresh [RMsg (reply_bytes 0 7 2 3) true; RMsg (reply_bytes 0 7 4 1) true; RMsg (reply_bytes 0 7 4 1) true] [true; true; true; true; false].
Definition client_cmds : list cmd := [CCreate (B "demo") 2 3 0; CPresent 0; CResize 0 4 1; CResize 0 4 1; CPresent 0; CDestroy 0].

Lemma client_settled : settled client [].
Proof.
  split; [split; [done|constructor|constructor|done]|]. repeat (apply Forall_cons_2; [repeat split; lazy; (reflexivity || discriminate)|]). constructor.
Qed.

Lemma client_ends : [] = (run_cmds client_cmds [] client).1.
Proof. exact eq_refl. Qed.


(** * Streams *)

Definition mouse : event := EvMouse 7 (-3) 12 1 LUMEN_VERSION (-1).
Definition key : event := EvKey 7 97 0 1.
Definition messages : list message := [MEvent mouse; MUnknown 64 (B "later"); MEvent key].

Definition listening (input : bytes) (ds : list delivery) : machine := at_stream (fresh [] []) ds input.

Lemma messages_ok : Forall message_ok messages.
Proof.
  repeat constructor; try (unfold is_u32, in_i32; cbn; lia). unfold known_ops. rewrite !not_elem_of_cons. split_and!; try done. apply not_elem_of_nil.
Qed.

Definition chunks : list delivery := [Chunk 0; Chunk 5; Chunk 40; Chunk 2].
Lemma chunks_steady : steady chunks.
Proof. unfold steady, chunks. rewrite !not_elem_of_cons. split_and!; (done || apply not_elem_of_nil). Qed.


(** While a message of an unknown type is passed over, an interrupted read is taken
    for the end of the connection, although the primitive for reading retries it. *)
Theorem interrupted_skip_fails :
  fst (receive 1 (listening (wire (MUnknown 64 (B "later"))) [Chunk 7; Again])) = None /\
  fst (receive 1 (listening (wire (MEvent key)) [Chunk 7; Again])) = Some [key].
Proof. lazy. done. Qed.

(** The length in the header of a known event is not looked at: if a later server
    sends four bytes more, the next event is read from the middle of the first. *)
Theorem longer_event_desyncs :
  let longer := header LUMEN_EV_CLOSE_REQUEST 8 ++ le_bytes 4 7 ++ le_bytes 4 LUMEN_EV_DRAG_LEAVE in
  fst (receive 2 (listening (longer ++ wire (MEvent key)) [])) = Some [EvCloseRequest 7; EvDragLeave 16].
Proof. lazy. done. Qed.

(** The length recvmsg reports is not looked at: when only the header has arrived, the
    window is made from what the stack held before, here the reply to an earlier
    request. *)
Theorem short_reply_uses_stack :
  let m := Machine [] [] [RMsg (le_bytes 4 0 ++ le_bytes 4 24) true] (reply_bytes 0 9 2 2) [] [] ∅ 0 [] false in
  (λ w, (w_id w, w_w w, w_h w)) <$> fst (lumen_window_create (B "demo") 640 480 m) = Some (9, 2, 2).
Proof. lazy. done. Qed.

(** The answer to the greeting is read with a single read: when it arrives in two
    pieces the connection is given up with EIO. *)
Theorem cut_greeting_refused :
  let hello := le_bytes 4 LUMEN_MAGIC ++ le_bytes 4 LUMEN_VERSION ++ le_bytes 4 0 in
  fst (lumen_connect 3 None (listening hello [])) = 3 /\ fst (lumen_connect 3 None (listening hello [Chunk 7; Chunk 7])) = -5.
Proof. lazy. done. Qed.
