(* ===== verification/GlyphWindow.v ===== *)
(** Windows of the glyph toolkit (src/user/lib/glyph/window.c), the geometry helpers
    (layout.c) and the scanner of application bundles (apps.c).

    A window renders into a surface of [GlyphDraw], of which every access is checked.
    Allocations may fail; the size of a surface is computed in 32 bits as in the
    source.  The callback that draws the client area is a parameter. *)

From stdpp Require Import sorting.
From S2P Require Import Prelude CString Posix GlyphDraw.
Local Open Scope Z_scope.

(** * Definitions *)

(** ** Rectangles *)

Record glyph_rect_t := Rect { r_x : Z; r_y : Z; r_w : Z; r_h : Z }.

Definition glyph_rect_empty (r : glyph_rect_t) : bool := (r_w r <=? 0) || (r_h r <=? 0).

Definition glyph_rect_union (a b : glyph_rect_t) : glyph_rect_t :=
  if glyph_rect_empty a then b else
  if glyph_rect_empty b then a else
  let x1 := Z.min (r_x a) (r_x b) in
  let y1 := Z.min (r_y a) (r_y b) in
  let x2 := Z.max (r_x a + r_w a) (r_x b + r_w b) in
  let y2 := Z.max (r_y a + r_h a) (r_y b + r_h b) in
  Rect x1 y1 (x2 - x1) (y2 - y1).

Definition glyph_rect_intersects (a b : glyph_rect_t) : bool :=
  (r_x a <? r_x b + r_w b) && (r_x b <? r_x a + r_w a) && (r_y a <? r_y b + r_h b) && (r_y b <? r_y a + r_h a).

(** ** Layout *)

Definition glyph_inset (r : glyph_rect_t) (pad : Z) : glyph_rect_t := Rect (r_x r + pad) (r_y r + pad) (r_w r - 2 * pad) (r_h r - 2 * pad).
Definition glyph_inset4 (r : glyph_rect_t) (top right bottom left : Z) : glyph_rect_t := Rect (r_x r + left) (r_y r + top) (r_w r - left - right) (r_h r - top - bottom).

Definition glyph_grid_cell (b : glyph_rect_t) (cols rows gap col row : Z) : glyph_rect_t :=
  let cols := if cols <? 1 then 1 else cols in
  let rows := if rows <? 1 then 1 else rows in
  let cw := Z.quot (r_w b - (cols - 1) * gap) cols in
  let ch := Z.quot (r_h b - (rows - 1) * gap) rows in
  Rect (r_x b + col * (cw + gap)) (r_y b + row * (ch + gap)) cw ch.

(** The strip and what remains. *)
Definition glyph_cut_top (rem : glyph_rect_t) (h gap : Z) : glyph_rect_t * glyph_rect_t :=
  (Rect (r_x rem) (r_y rem) (r_w rem) h, Rect (r_x rem) (r_y rem + (h + gap)) (r_w rem) (r_h rem - (h + gap))).
Definition glyph_cut_bottom (rem : glyph_rect_t) (h gap : Z) : glyph_rect_t * glyph_rect_t :=
  (Rect (r_x rem) (r_y rem + r_h rem - h) (r_w rem) h, Rect (r_x rem) (r_y rem) (r_w rem) (r_h rem - (h + gap))).
Definition glyph_cut_left (rem : glyph_rect_t) (w gap : Z) : glyph_rect_t * glyph_rect_t :=
  (Rect (r_x rem) (r_y rem) w (r_h rem), Rect (r_x rem + (w + gap)) (r_y rem) (r_w rem - (w + gap)) (r_h rem)).
Definition glyph_cut_right (rem : glyph_rect_t) (w gap : Z) : glyph_rect_t * glyph_rect_t :=
  (Rect (r_x rem + r_w rem - w) (r_y rem) w (r_h rem), Rect (r_x rem) (r_y rem) (r_w rem - (w + gap)) (r_h rem)).

(** ** Windows *)

Definition TB_H : Z := 30.
Definition BD_W : Z := 1.
Definition SH_OFF : Z := 0.
Definition CLOSE_BTN_X : Z := 8.
Definition CLOSE_BTN_Y : Z := BD_W + 7.
Definition CLOSE_BTN_SZ : Z := 14.
Definition C_CHROME_SHADOW : Z := 0x00080810.
Definition C_TERM_BG : Z := 0x000A0A14.
Definition C_CHROME_ADMIN : Z := 0x00B0202A.
Definition C_CHROME_RED : Z := 0x00FF5F57.
Definition C_CHROME_YELLOW : Z := 0x00FEBC2E.
Definition C_CHROME_GREEN : Z := 0x0028C840.
Definition C_CHROME_TL_DIM : Z := 0x004E525C.
Definition BTN_RADIUS : Z := 7.
Definition BTN_SPACING : Z := 22.
Definition CORNER_R : Z := 10.

(** [w_blit]: the compositor reads the pixels elsewhere. *)
Record glyph_window_t := GWindow {
  w_client_w : Z; w_client_h : Z; w_surf_w : Z; w_surf_h : Z; w_surface : surface_t; w_blit : bool; w_title : bytes;
  w_dirty_rect : glyph_rect_t; w_has_dirty : bool; w_closeable : bool; w_focused : bool; w_frosted : bool; w_admin : bool; w_priv : bool;
  w_blur_cache : bool; w_blur_valid : bool
}.

Definition set_dirty (w : glyph_window_t) (r : glyph_rect_t) (has : bool) : glyph_window_t :=
  GWindow (w_client_w w) (w_client_h w) (w_surf_w w) (w_surf_h w) (w_surface w) (w_blit w) (w_title w) r has (w_closeable w) (w_focused w) (w_frosted w) (w_admin w) (w_priv w) (w_blur_cache w) (w_blur_valid w).
Definition set_surface (w : glyph_window_t) (s : surface_t) : glyph_window_t :=
  GWindow (w_client_w w) (w_client_h w) (w_surf_w w) (w_surf_h w) s (w_blit w) (w_title w) (w_dirty_rect w) (w_has_dirty w) (w_closeable w) (w_focused w) (w_frosted w) (w_admin w) (w_priv w) (w_blur_cache w) (w_blur_valid w).

(** The surface of a window: its number of pixels is an unsigned of 32 bits. *)
Definition surf_w_of (client_w : Z) : Z := client_w + 2 * BD_W + SH_OFF.
Definition surf_h_of (client_h : Z) : Z := client_h + TB_H + 2 * BD_W + SH_OFF.
Definition new_surface (client_w client_h : Z) : surface_t :=
  let sw := surf_w_of client_w in
  let sh := surf_h_of client_h in
  Surface (repeat 0 (Z.to_nat (u32 (sw * sh)))) sw sh sw.

(** [mem1], [mem2]: whether the two allocations succeed. *)
Definition glyph_window_create (title : option bytes) (client_w client_h : Z) (mem1 mem2 : bool) : option glyph_window_t :=
  if negb mem1 || negb mem2 then None else
  let sw := surf_w_of client_w in
  let sh := surf_h_of client_h in
  Some (GWindow client_w client_h sw sh (new_surface client_w client_h) false (take 63 (default [] title)) (Rect 0 0 sw sh) true true false true false false false false).

(** The result and the window afterwards. *)
Definition glyph_window_resize (w : glyph_window_t) (client_w client_h : Z) (mem : bool) : bool * glyph_window_t :=
  if (client_w <? 1) || (client_h <? 1) || negb mem then (false, w) else
  let sw := surf_w_of client_w in
  let sh := surf_h_of client_h in
  (true, GWindow client_w client_h sw sh (new_surface client_w client_h) (w_blit w) (w_title w) (Rect 0 0 sw sh) true (w_closeable w) (w_focused w) (w_frosted w) (w_admin w) (w_priv w) false false).

Definition far (dx dy r : Z) : bool := r * r <? dx * dx + dy * dy.
Definition outside_rounded (px py w h r : Z) : bool :=
  if (px <? r) && (py <? r) then far (r - px) (r - py) r else
  if (w - r <=? px) && (py <? r) then far (px - (w - r - 1)) (r - py) r else
  if (px <? r) && (h - r <=? py) then far (r - px) (py - (h - r - 1)) r else
  if (w - r <=? px) && (h - r <=? py) then far (px - (w - r - 1)) (py - (h - r - 1)) r else false.

Section Rendering.

Context (font_terminus : bytes) (g_font_ui : option font_t) (surface_c surface_2_c text_c border_strong_c : Z).

(** The pixels of some rows that are inside the rounded body. *)
Definition body_rows (s : surface_t) (from to total_w total_h color : Z) : option surface_t :=
  each (between from to) (λ py s, each (between 0 total_w) (λ px s,
    if negb (outside_rounded px py total_w total_h CORNER_R) then draw_px s px py color else Some s) s) s.

Definition on_edge (px py total_w total_h : Z) : bool :=
  (px =? 0) || (py =? 0) || (px =? total_w - 1) || (py =? total_h - 1) ||
  outside_rounded (px - 1) py total_w total_h CORNER_R || outside_rounded (px + 1) py total_w total_h CORNER_R ||
  outside_rounded px (py - 1) total_w total_h CORNER_R || outside_rounded px (py + 1) total_w total_h CORNER_R.

Definition draw_title (s : surface_t) (total_w : Z) (title : bytes) : option surface_t :=
  match g_font_ui with
  | Some f =>
      tw ← font_text_width f 13 title;
      font_draw_text s f 13 (Z.quot (total_w - tw) 2) (Z.quot (TB_H + BD_W - font_height f 13) 2) title text_c
  | None => draw_text_t font_terminus s (Z.quot (total_w - Z.of_nat (length title) * FONT_W) 2) (BD_W + 5) title text_c
  end.

Definition render_chrome (w : glyph_window_t) : option surface_t :=
  let s := w_surface w in
  let total_w := w_client_w w + 2 * BD_W in
  let total_h := w_client_h w + TB_H + 2 * BD_W in
  s ← draw_fill_rect s 0 0 (w_surf_w w) (w_surf_h w) C_CHROME_SHADOW;
  let title_bg := if w_admin w then C_CHROME_ADMIN else if w_frosted w then C_CHROME_SHADOW else if w_focused w then surface_2_c else surface_c in
  let client_bg := if w_priv w then C_TERM_BG else if w_frosted w then C_CHROME_SHADOW else surface_c in
  s ← (if title_bg =? client_bg then draw_rounded_rect s 0 0 total_w total_h CORNER_R title_bg
       else s ← body_rows s 0 (TB_H + BD_W) total_w total_h title_bg; body_rows s (TB_H + BD_W) total_h total_w total_h client_bg);
  s ← (if negb (w_frosted w) then
         each (between 0 total_h) (λ py s, each (between 0 total_w) (λ px s,
           if outside_rounded px py total_w total_h CORNER_R then Some s
           else if on_edge px py total_w total_h then draw_px s px py border_strong_c else Some s) s) s
       else Some s);
  s ← each (between 1 (total_w - 1)) (λ px s, draw_px s px (TB_H + BD_W - 1) border_strong_c) s;
  s ← draw_title s total_w (w_title w);
  let btn_cy := Z.quot (TB_H + BD_W) 2 in
  let btn_x := BD_W + CLOSE_BTN_X + BTN_RADIUS in
  let light c := if w_focused w then c else C_CHROME_TL_DIM in
  let sym n := if w_focused w then n else 0 in
  s ← draw_traffic_light s btn_x btn_cy BTN_RADIUS (light C_CHROME_RED) (sym 1);
  s ← draw_traffic_light s (btn_x + BTN_SPACING) btn_cy BTN_RADIUS (light C_CHROME_YELLOW) (sym 2);
  draw_traffic_light s (btn_x + BTN_SPACING * 2) btn_cy BTN_RADIUS (light C_CHROME_GREEN) (sym 3).

(** [on_render]: the callback, where there is one. *)
Definition glyph_window_render (w : glyph_window_t) (on_render : option (surface_t -> option surface_t)) : option glyph_window_t :=
  if negb (w_has_dirty w) then Some w else
  if w_blit w then Some (set_dirty w (w_dirty_rect w) false) else
  s ← render_chrome w;
  s ← (match on_render with Some f => f s | None => Some s end);
  let r := w_dirty_rect w in
  Some (set_dirty (set_surface w s) (Rect (r_x r) (r_y r) 0 0) false).

End Rendering.

(** Whether the close callback is called. *)
Definition glyph_window_dispatch_mouse (w : glyph_window_t) (x y : Z) : bool :=
  w_closeable w && (BD_W + CLOSE_BTN_X <=? x) && (x <? BD_W + CLOSE_BTN_X + CLOSE_BTN_SZ) && (CLOSE_BTN_Y <=? y) && (y <? CLOSE_BTN_Y + CLOSE_BTN_SZ).

Definition glyph_window_get_dirty_rect (w : glyph_window_t) : option glyph_rect_t := if w_has_dirty w then Some (w_dirty_rect w) else None.
Definition glyph_window_mark_dirty_rect (w : glyph_window_t) (r : glyph_rect_t) : glyph_window_t :=
  if w_has_dirty w then set_dirty w (glyph_rect_union (w_dirty_rect w) r) true else set_dirty w r true.
Definition glyph_window_mark_all_dirty (w : glyph_window_t) : glyph_window_t := set_dirty w (Rect 0 0 (w_surf_w w) (w_surf_h w)) true.

(** ** Application bundles *)

Record glyph_app_t := App { a_id : bytes; a_name : bytes; a_exec : bytes }.

Definition GLYPH_APPS_DIR : bytes := B "/apps".

Section Apps.

(** The files that open, with their text, and those that exist. *)
Context (read_file : bytes -> option bytes) (exists_file : bytes -> bool).

Definition ini_path (id : bytes) : bytes := fit 320 (GLYPH_APPS_DIR ++ [SLASH] ++ id ++ B "/app.ini").

(** The name and the program the lines of app.ini give. *)
Fixpoint ini_lines (ls : list bytes) (name exec_name : bytes) : bytes * bytes :=
  match ls with
  | [] => (name, exec_name)
  | l :: ls =>
      match cut EQUALS (take_while (not_c LF) (cstr l)) with
      | None => ini_lines ls name exec_name
      | Some (key, val) =>
          if beq key (B "name") && negb (beq val []) then ini_lines ls (fit 64 val) exec_name else
          if beq key (B "exec") && negb (beq val []) && negb (has_char SLASH val) then ini_lines ls name (fit 64 val)
          else ini_lines ls name exec_name
      end
  end.

Definition load_bundle (id : bytes) : option glyph_app_t :=
  if beq id [] || starts_with [DOT] id || has_char SLASH id || (64 <=? length id)%nat then None else
  match read_file (ini_path id) with
  | None => None
  | Some text =>
      let '(name, exec_name) := ini_lines (fgets_lines 128 text) [] (fit 64 id) in
      let name := match name with [] => fit 64 id | _ => name end in
      let exec := fit 256 (GLYPH_APPS_DIR ++ [SLASH] ++ id ++ [SLASH] ++ exec_name) in
      if exists_file exec then Some (App id name exec) else None
  end.

Fixpoint scan_bundles (max : nat) (names : list bytes) : list glyph_app_t :=
  match max, names with
  | S max, n :: names => match load_bundle n with Some a => a :: scan_bundles max names | None => scan_bundles (S max) names end
  | _, _ => []
  end.

(** strcmp on names. *)
Fixpoint str_le (a b : bytes) : bool :=
  match a, b with
  | [], _ => true
  | _ :: _, [] => false
  | x :: a, y :: b => if x =? y then str_le a b else x <? y
  end.
Definition app_le (a b : glyph_app_t) : Prop := str_le (a_name a) (a_name b) = true.
#[global] Instance app_le_dec : RelDecision app_le.
Proof. intros a b. unfold app_le. apply _. Defined.

Definition glyph_apps_scan (names : option (list bytes)) (max : nat) : list glyph_app_t :=
  match names with Some names => merge_sort app_le (scan_bundles max names) | None => [] end.
Definition glyph_apps_find (id : bytes) : option glyph_app_t := load_bundle id.

End Apps.
