(* ===== verification/GlyphWindowSafety.v ===== *)
(** Windows render inside their surfaces and lose no damage; layouts do not overlap;
    bundles stay below their directory. *)

From stdpp Require Import sorting.
From S2P Require Import Prelude CString Posix GlyphDraw GlyphDrawSafety GlyphText GlyphWindow.
Local Open Scope Z_scope.

(** * Rectangles *)

Definition in_rect (x y : Z) (r : glyph_rect_t) : Prop := r_x r <= x < r_x r + r_w r /\ r_y r <= y < r_y r + r_h r.

Lemma rect_empty_spec r : glyph_rect_empty r = true <-> forall x y, ~ in_rect x y r.
Proof.
  unfold glyph_rect_empty, in_rect. split.
  - intros H x y. boolify. lia.
  - intros H. specialize (H (r_x r) (r_y r)). destruct (Z.leb_spec (r_w r) 0); [done|]. destruct (Z.leb_spec (r_h r) 0); [done|]. lia.
Qed.

Lemma union_covers a b x y : in_rect x y a \/ in_rect x y b -> in_rect x y (glyph_rect_union a b).
Proof.
  unfold glyph_rect_union. destruct (glyph_rect_empty a) eqn:Ea; [rewrite rect_empty_spec in Ea; intros [H|H]; [by apply Ea in H|done]|]. destruct (glyph_rect_empty b) eqn:Eb; [rewrite rect_empty_spec in Eb; intros [H|H]; [done|by apply Eb in H]|].
  unfold in_rect. cbn. lia.
Qed.

(** The union is the smallest rectangle around both. *)
Lemma union_least a b r : (forall x y, in_rect x y a \/ in_rect x y b -> in_rect x y r) -> forall x y, in_rect x y (glyph_rect_union a b) -> in_rect x y r.
Proof.
  intros H x y. unfold glyph_rect_union. destruct (glyph_rect_empty a) eqn:Ea; [by auto|]. destruct (glyph_rect_empty b) eqn:Eb; [by auto|]. unfold glyph_rect_empty in Ea, Eb. boolify. unfold in_rect in *. cbn.
  pose proof (H (r_x a) (r_y a)). pose proof (H (r_x a + r_w a - 1) (r_y a + r_h a - 1)). pose proof (H (r_x b) (r_y b)). pose proof (H (r_x b + r_w b - 1) (r_y b + r_h b - 1)). lia.
Qed.

Lemma intersects_spec a b : glyph_rect_empty a = false -> glyph_rect_empty b = false -> glyph_rect_intersects a b = true <-> exists x y, in_rect x y a /\ in_rect x y b.
Proof.
  unfold glyph_rect_empty, glyph_rect_intersects, in_rect. intros Ha Hb. boolify. split.
  - intros Hint. boolify. exists (Z.max (r_x a) (r_x b)), (Z.max (r_y a) (r_y b)). lia.
  - intros (x & y & ? & ?). rewrite !andb_true_iff, !Z.ltb_lt. lia.
Qed.

(** * Layout *)

(** The cells of a grid lie inside the bounds and no two of them share a pixel; a
    strip that is cut off and what remains lie inside the rectangle and share no pixel
    either, on each of the four sides. *)
Theorem layout_disjoint b cols rows gap col row col' row' h w x y : 0 < cols -> 0 < rows -> 0 <= gap -> (cols - 1) * gap <= r_w b -> (rows - 1) * gap <= r_h b ->
  0 <= col < cols -> 0 <= row < rows -> 0 <= col' < cols -> 0 <= row' < rows -> 0 <= h <= r_h b -> 0 <= w <= r_w b ->
  (in_rect x y (glyph_grid_cell b cols rows gap col row) -> in_rect x y b) /\
  (in_rect x y (glyph_grid_cell b cols rows gap col row) -> in_rect x y (glyph_grid_cell b cols rows gap col' row') -> col = col' /\ row = row') /\
  Forall (λ p, (in_rect x y p.1 \/ in_rect x y p.2 -> in_rect x y b) /\ (in_rect x y p.1 -> in_rect x y p.2 -> False)) [glyph_cut_top b h gap; glyph_cut_bottom b h gap; glyph_cut_left b w gap; glyph_cut_right b w gap].
Proof.
  intros Hc Hr Hg Hw Hh Hcol Hrow Hcol' Hrow' Hcut Hcut'. unfold glyph_grid_cell. rewrite !(proj2 (Z.ltb_ge _ _)) by lia. set (cw := Z.quot (r_w b - (cols - 1) * gap) cols). set (ch := Z.quot (r_h b - (rows - 1) * gap) rows).
  assert (Hcw : cols * cw <= r_w b - (cols - 1) * gap /\ 0 <= cw) by (split; [apply Z.mul_quot_le; lia|apply Z.quot_pos; lia]). assert (Hch : rows * ch <= r_h b - (rows - 1) * gap /\ 0 <= ch) by (split; [apply Z.mul_quot_le; lia|apply Z.quot_pos; lia]). clearbody cw ch.
  unfold in_rect. cbn [r_x r_y r_w r_h]. split_and!; [| |repeat (constructor; [cbn; lia|]); constructor].
  - intros [Hx Hy]. assert (col * (cw + gap) <= (cols - 1) * (cw + gap)) by (apply Z.mul_le_mono_nonneg_r; lia). assert (row * (ch + gap) <= (rows - 1) * (ch + gap)) by (apply Z.mul_le_mono_nonneg_r; lia). lia.
  - intros [Hx Hy] [Hx' Hy']. split.
    + destruct (Z.lt_trichotomy col col') as [H|[H|H]]; [exfalso|done|exfalso]; [assert ((col + 1) * (cw + gap) <= col' * (cw + gap)) by (apply Z.mul_le_mono_nonneg_r; lia)|assert ((col' + 1) * (cw + gap) <= col * (cw + gap)) by (apply Z.mul_le_mono_nonneg_r; lia)]; lia.
    + destruct (Z.lt_trichotomy row row') as [H|[H|H]]; [exfalso|done|exfalso]; [assert ((row + 1) * (ch + gap) <= row' * (ch + gap)) by (apply Z.mul_le_mono_nonneg_r; lia)|assert ((row' + 1) * (ch + gap) <= row * (ch + gap)) by (apply Z.mul_le_mono_nonneg_r; lia)]; lia.
Qed.

(** * Windows *)

(** What a client does to its window. *)
Inductive window_op := WResize (cw ch : Z) (mem : bool) | WMark (r : glyph_rect_t) | WMarkAll | WRender.

(** A size whose surface can be counted in 32 bits. *)
Definition size_ok (cw ch : Z) : Prop := 0 <= cw /\ 0 <= ch /\ surf_w_of cw * surf_h_of ch < 2 ^ 32.

Lemma new_surface_ok cw ch : size_ok cw ch -> surface_ok (new_surface cw ch).
Proof.
  intros (Hw & Hh & Hs). unfold new_surface. split; cbn; unfold surf_w_of, surf_h_of, BD_W, TB_H, SH_OFF in *; [lia|lia|]. rewrite repeat_length, u32_small by nia. rewrite Z2Nat.id by nia. lia.
Qed.

Record window_ok (w : glyph_window_t) : Prop := {
  wo_surface : surface_ok (w_surface w);
  wo_title : Forall is_byte (w_title w)
}.

Section Windows.

Context (font_terminus : bytes) (g : option font_t) (c1 c2 c3 c4 : Z) (on_render : option (surface_t -> option surface_t)).
Hypothesis terminus : terminus_ok font_terminus.
Hypothesis ui_font : ui_font_ok g.
(** What a callback draws is drawn with the routines of the library. *)
Hypothesis callback : match on_render with Some f => forall s, surface_ok s -> ok s (f s) | None => True end.

Lemma ok_body_rows s from to tw th c : surface_ok s -> ok s (body_rows s from to tw th c).
Proof. intros Hs. unfold body_rows. drawing. Qed.

Lemma ok_draw_title s tw title : surface_ok s -> Forall is_byte title -> ok s (draw_title font_terminus g c3 s tw title).
Proof.
  intros Hs Ht. unfold draw_title. destruct g as [f|]; [|by apply ok_draw_text_t]. unfold font_text_width. destruct (find_or_bake f 13) as [b|] eqn:Eb.
  - destruct (width_loop_some b title 0 (find_or_bake_ok f 13 b ui_font Eb)) as [w' Hw]. rewrite Hw. cbn. by apply ok_font_draw_text.
  - cbn. by apply ok_font_draw_text.
Qed.

Lemma ok_render_chrome w : window_ok w -> ok (w_surface w) (render_chrome font_terminus g c1 c2 c3 c4 w).
Proof.
  intros [Hs Ht]. unfold render_chrome. apply ok_bind; [by apply ok_fill_rect|]. intros s1 F1. pose proof (frame_ok _ _ F1 Hs) as H1. cbv zeta. apply ok_bind.
  { destruct (_ =? _); [by apply ok_rounded_rect|]. apply ok_bind; [by apply ok_body_rows|]. intros s2 F2. apply ok_body_rows. by eapply frame_ok. }
  intros s2 F2. pose proof (frame_ok _ _ F2 H1) as H2. apply ok_bind; [drawing|]. intros s3 F3. pose proof (frame_ok _ _ F3 H2) as H3. apply ok_bind; [drawing|]. intros s4 F4. pose proof (frame_ok _ _ F4 H3) as H4.
  apply ok_bind; [by apply ok_draw_title|]. intros s5 F5. pose proof (frame_ok _ _ F5 H4) as H5. apply ok_bind; [by apply ok_traffic_light|]. intros s6 F6. pose proof (frame_ok _ _ F6 H5) as H6.
  apply ok_bind; [by apply ok_traffic_light|]. intros s7 F7. apply ok_traffic_light. by eapply frame_ok.
Qed.

Lemma render_ok w : window_ok w -> exists w', glyph_window_render font_terminus g c1 c2 c3 c4 w on_render = Some w' /\ window_ok w' /\ w_has_dirty w' = false /\ w_surf_w w' = w_surf_w w /\ w_surf_h w' = w_surf_h w.
Proof.
  intros H. unfold glyph_window_render. destruct (w_has_dirty w) eqn:Ed; [|by exists w]. cbn [negb]. destruct H as [Hs Ht]. destruct (w_blit w); [eexists; split; [reflexivity|]; split; [by split|done]|].
  destruct (ok_render_chrome w (Build_window_ok _ Hs Ht)) as (s1 & -> & F1). cbn [mbind option_bind]. pose proof (frame_ok _ _ F1 Hs) as H1.
  assert (Hcb : ok s1 (match on_render with Some f => f s1 | None => Some s1 end)) by (destruct on_render; [by apply callback|apply ok_some]). destruct Hcb as (s2 & -> & F2). cbn [mbind option_bind]. eexists. split; [reflexivity|]. split; [|done]. split; cbn; [by eapply frame_ok|done].
Qed.

(** The window and the damage that was reported since it was last rendered. *)
Definition window_step (o : window_op) (w : glyph_window_t) (damage : list glyph_rect_t) : option (glyph_window_t * list glyph_rect_t) :=
  match o with
  | WResize cw ch mem => let '(done, w') := glyph_window_resize w cw ch mem in Some (w', if done then [Rect 0 0 (w_surf_w w') (w_surf_h w')] else damage)
  | WMark r => Some (glyph_window_mark_dirty_rect w r, r :: damage)
  | WMarkAll => Some (glyph_window_mark_all_dirty w, [Rect 0 0 (w_surf_w w) (w_surf_h w)])
  | WRender => w' ← glyph_window_render font_terminus g c1 c2 c3 c4 w on_render; Some (w', [])
  end.
Fixpoint window_run (os : list window_op) (w : glyph_window_t) (damage : list glyph_rect_t) : option (glyph_window_t * list glyph_rect_t) :=
  match os with [] => Some (w, damage) | o :: os => r ← window_step o w damage; window_run os r.1 r.2 end.

Definition tracked (w : glyph_window_t) (damage : list glyph_rect_t) : Prop :=
  forall r x y, r ∈ damage -> in_rect x y r -> exists d, glyph_window_get_dirty_rect w = Some d /\ in_rect x y d.
Definition op_ok (o : window_op) : Prop := match o with WResize cw ch _ => 1 <= cw -> 1 <= ch -> size_ok cw ch | _ => True end.

Lemma window_step_ok o w damage : op_ok o -> window_ok w -> tracked w damage -> exists w' damage', window_step o w damage = Some (w', damage') /\ window_ok w' /\ tracked w' damage'.
Proof.
  intros Ho [Hs Ht] Hd. destruct o as [cw ch mem|r| |]; cbn [window_step].
  - unfold glyph_window_resize. destruct (_ || _) eqn:E; [by exists w, damage|]. boolify. eexists _, _. split; [reflexivity|]. split; [split; cbn; [apply new_surface_ok, Ho; lia|done]|].
    intros r x y Hr Hx. apply list_elem_of_singleton in Hr as ->. eexists. split; [reflexivity|done].
  - eexists _, _. split; [reflexivity|]. unfold glyph_window_mark_dirty_rect. split; [by destruct (w_has_dirty w); split|]. intros r' x y Hr Hx. unfold glyph_window_get_dirty_rect. destruct (w_has_dirty w) eqn:E; cbn.
    + eexists. split; [reflexivity|]. apply union_covers. apply elem_of_cons in Hr as [->|Hr]; [by right|]. left. destruct (Hd r' x y Hr Hx) as (d & Hg & Hin). unfold glyph_window_get_dirty_rect in Hg. rewrite E in Hg. by injection Hg as <-.
    + eexists. split; [reflexivity|]. apply elem_of_cons in Hr as [->|Hr]; [done|]. destruct (Hd r' x y Hr Hx) as (d & Hg & _). unfold glyph_window_get_dirty_rect in Hg. by rewrite E in Hg.
  - eexists _, _. split; [reflexivity|]. split; [by split|]. intros r x y Hr Hx. apply list_elem_of_singleton in Hr as ->. eexists. split; [reflexivity|done].
  - destruct (render_ok w (Build_window_ok _ Hs Ht)) as (w' & -> & Hw & _). cbn [mbind option_bind]. eexists _, _. split; [reflexivity|]. split; [done|]. by intros r x y Hr%elem_of_nil.
Qed.


End Windows.

(** The number of pixels of a surface is computed in 32 bits: for a client area of 65535
    by 65535, which a request can ask for, the buffer is far smaller than the surface
    it is used as. *)
Theorem surface_size_wraps : let s := new_surface 65535 65535 in s_w s = 65537 /\ s_h s = 65567 /\ Z.of_nat (length (s_buf s)) = 2097183 /\ 2097183 < s_h s * s_pitch s.
Proof. cbv zeta. unfold new_surface. cbn [s_w s_h s_buf s_pitch]. rewrite repeat_length. split_and!; [done|done| |done]. rewrite Z2Nat.id by apply u32_range. reflexivity. Qed.

(** * Bundles *)

Section Bundles.

Context (read_file : bytes -> option bytes) (exists_file : bytes -> bool).

Lemma ini_lines_exec ls name e : e <> [] /\ SLASH ∉ e /\ (length e < 64)%nat -> let e' := snd (ini_lines ls name e) in e' <> [] /\ SLASH ∉ e' /\ (length e' < 64)%nat.
Proof.
  revert name e. induction ls as [|l ls IH]; intros name e He; [done|]. cbn [ini_lines]. destruct (cut EQUALS _) as [[key val]|]; [|by apply IH]. destruct (_ && _) eqn:E1; [by apply IH|]. destruct (beq key (B "exec") && negb (beq val []) && negb (has_char SLASH val)) eqn:E2; [|by apply IH].
  apply IH. apply andb_prop in E2 as [E2 Hs]. apply andb_prop in E2 as [_ Hv]. apply negb_true_iff in Hs, Hv. apply has_char_false in Hs. split_and!; [|intros Hx; by apply fit_elem in Hx|apply length_fit; lia].
  intros Hf. destruct val as [|c val]; [by rewrite beq_refl in Hv|]. done.
Qed.


(** The scan returns at most [max] bundles of the directory, sorted by name. *)
Lemma scan_bundles_ok max names : (length (scan_bundles read_file exists_file max names) <= max)%nat /\ Forall (λ a, exists n, n ∈ names /\ load_bundle read_file exists_file n = Some a) (scan_bundles read_file exists_file max names).
Proof.
  revert max. induction names as [|n names IH]; intros [|max]; cbn [scan_bundles]; [split; [cbn; lia|constructor]..|]. destruct (load_bundle read_file exists_file n) as [a|] eqn:E.
  - destruct (IH max) as [H1 H2]. split; [cbn; lia|]. constructor; [exists n; split; [by left|done]|]. eapply Forall_impl; [exact H2|]. intros b (x & Hx & Hb). exists x. split; [by right|done].
  - destruct (IH (S max)) as [H1 H2]. split; [done|]. eapply Forall_impl; [exact H2|]. intros b (x & Hx & Hb). exists x. split; [by right|done].
Qed.

End Bundles.

Lemma str_le_total a b : str_le a b = true \/ str_le b a = true.
Proof. revert b. induction a as [|x a IH]; intros [|y b]; cbn; auto. rewrite (Z.eqb_sym y x). destruct (Z.eqb_spec x y) as [->|]; [apply IH|]. rewrite !Z.ltb_lt. lia. Qed.

Lemma scan_sorted rf ef names max : Sorted app_le (glyph_apps_scan rf ef (Some names) max) /\ glyph_apps_scan rf ef (Some names) max ≡ₚ scan_bundles rf ef max names.
Proof.
  assert (Ht : Total app_le) by (intros a b; apply str_le_total). unfold glyph_apps_scan. split; [apply Sorted_merge_sort, _|apply merge_sort_Permutation].
Qed.
