(* ===== verification/GlyphWindowCases.v ===== *)
(** Concrete windows and bundles. *)

From S2P Require Import Prelude CString Posix GlyphDraw GlyphDrawSafety GlyphText GlyphDrawCases GlyphWindow GlyphWindowSafety.
Local Open Scope Z_scope.

Definition first_window_of (t : bytes) : option glyph_window_t := glyph_window_create (Some t) 20 10 true true.
Definition demo_window : glyph_window_t := GWindow 20 10 22 42 (new_surface 20 10) false (B "demo") (Rect 0 0 22 42) true true false true false false false false.

Lemma demo_created : first_window_of (B "demo") = Some demo_window.
Proof. reflexivity. Qed.

Lemma demo_ok : window_ok demo_window.
Proof.
  split; [apply new_surface_ok; unfold size_ok, surf_w_of, surf_h_of, BD_W, TB_H, SH_OFF; lia|]. repeat constructor; unfold is_byte; cbn; lia.
Qed.

(** A callback that fills the client area. *)
Definition fill_client (s : surface_t) : option surface_t := draw_fill_rect s BD_W (BD_W + TB_H) 20 10 7.


Lemma layout_disjoint_witness :
  (in_rect 5 5 (glyph_grid_cell (Rect 0 0 100 50) 3 2 4 0 0) -> in_rect 5 5 (Rect 0 0 100 50)) /\
  (in_rect 5 5 (glyph_grid_cell (Rect 0 0 100 50) 3 2 4 0 0) -> in_rect 5 5 (glyph_grid_cell (Rect 0 0 100 50) 3 2 4 2 1) -> 0 = 2 /\ 0 = 1) /\
  Forall (λ p, (in_rect 5 5 p.1 \/ in_rect 5 5 p.2 -> in_rect 5 5 (Rect 0 0 100 50)) /\ (in_rect 5 5 p.1 -> in_rect 5 5 p.2 -> False))
    [glyph_cut_top (Rect 0 0 100 50) 8 4; glyph_cut_bottom (Rect 0 0 100 50) 8 4; glyph_cut_left (Rect 0 0 100 50) 9 4; glyph_cut_right (Rect 0 0 100 50) 9 4].
Proof. apply (layout_disjoint (Rect 0 0 100 50) 3 2 4 0 0 2 1 8 9 5 5); cbn; lia. Defined.

(** One bundle, whose app.ini tries to name a program elsewhere. *)
Definition calc_ini : bytes := B "name=Calculator" ++ [LF] ++ B "exec=/bin/login" ++ [LF] ++ B "exec=calc" ++ [LF].
Definition some_apps (p : bytes) : option bytes := if beq p (B "/apps/calculator/app.ini") then Some calc_ini else None.
Definition some_elf (p : bytes) : bool := beq p (B "/apps/calculator/calc").
Definition calculator : glyph_app_t := App (B "calculator") (B "Calculator") (B "/apps/calculator/calc").

Lemma calculator_found : load_bundle some_apps some_elf (B "calculator") = Some calculator.
Proof. lazy. reflexivity. Qed.

