(* ===== verification/CryptRoot.v ===== *)
(** Encryption of the root partition (src/user/lib/libinstall/cryptroot_crypto.c): key
    derivation and the XTS mode, over the block cipher and the HMAC of BearSSL, which
    are parameters.

    The theorems compare the code with the standards: [mulx] is multiplication by the
    generator of the field of 2^128 elements, [install_xts] the XTS-AES of IEEE 1619 on
    whole blocks, [install_pbkdf2] the PBKDF2 of RFC 8018 for two blocks; and
    decrypting a sector gives back what was encrypted. *)

From S2P Require Import Prelude.
Local Open Scope Z_scope.

(** * Definitions *)

Definition xor_bytes (a b : bytes) : bytes := zip_with Z.lxor a b.

(** The loop of [mulx]: the bytes shifted left by one bit, and the last carry. *)
Fixpoint mulx_loop (t : bytes) (carry : Z) : bytes * Z :=
  match t with
  | [] => ([], carry)
  | b :: t =>
      let n := Z.shiftr b 7 in
      let '(r, c) := mulx_loop t n in
      (u8 (Z.lor (Z.shiftl b 1) carry) :: r, c)
  end.

Definition mulx (t : bytes) : bytes :=
  let '(r, c) := mulx_loop t 0 in
  if c =? 0 then r else match r with b :: r => Z.lxor b 0x87 :: r | [] => [] end.

(** The keys of the data and of the tweaks. *)
Record install_xts_ctx_t := Xts { x_data : bytes; x_tweak : bytes }.

Definition install_xts_init (key : bytes) : install_xts_ctx_t := Xts (take 32 key) (drop 32 key).

Section Crypt.

(** br_aes_ct64_cbcenc_run and cbcdec_run on a key, an initial vector and some data;
    HMAC-SHA256 on a key and a message. *)
Context (cbcenc cbcdec : bytes -> bytes -> bytes -> bytes) (hmac : bytes -> bytes -> bytes).

Definition aes_enc (key block : bytes) : bytes := cbcenc key (repeat 0 16) block.
Definition aes_dec (key block : bytes) : bytes := cbcdec key (repeat 0 16) block.

(** The loop over the whole blocks of the data; what remains is left as it is. *)
Fixpoint xts_blocks (n : nat) (f : bytes -> bytes) (tweak data : bytes) : bytes :=
  match n with
  | O => data
  | S n => xor_bytes (f (xor_bytes (take 16 data) tweak)) tweak ++ xts_blocks n f (mulx tweak) (drop 16 data)
  end.

Definition first_tweak (x : install_xts_ctx_t) (sector : Z) : bytes := aes_enc (x_tweak x) (le_bytes 8 sector ++ repeat 0 8).

Definition install_xts (x : install_xts_ctx_t) (data : bytes) (sector : Z) (encrypt : bool) : bytes :=
  xts_blocks (length data / 16) (if encrypt then aes_enc (x_data x) else aes_dec (x_data x)) (first_tweak x sector) data.

(** The inner loop of [install_pbkdf2]. *)
Fixpoint pbkdf2_rounds (n : nat) (pw u t : bytes) : bytes :=
  match n with
  | O => t
  | S n => let u := hmac pw u in pbkdf2_rounds n pw u (xor_bytes t u)
  end.

Definition pbkdf2_block (pw salt : bytes) (rounds block : Z) : bytes :=
  let msg := salt ++ [u8 (Z.shiftr block 24); u8 (Z.shiftr block 16); u8 (Z.shiftr block 8); u8 block] in
  let u := hmac pw msg in
  pbkdf2_rounds (Z.to_nat (rounds - 1)) pw u u.

Definition install_pbkdf2 (pw salt : bytes) (rounds : Z) : bytes :=
  let rounds := if rounds =? 0 then 1 else rounds in
  pbkdf2_block pw salt rounds 1 ++ pbkdf2_block pw salt rounds 2.

Definition install_key_verifier (key : bytes) : bytes := hmac key (B "LoricaOS encrypted root").

End Crypt.

(** ** The standards *)

(** A polynomial over the field of two elements, as its bits, times x, modulo
    x^128 + x^7 + x^2 + x + 1. *)
Definition gf_double (v : Z) : Z := if 2 ^ 128 <=? 2 * v then Z.lxor (2 * v - 2 ^ 128) 0x87 else 2 * v.

(** The tweak of block [j] of a sector: E_K2(sector) times x^j. *)
Definition xts_tweak (enc : bytes -> bytes -> bytes) (key2 : bytes) (sector : Z) (j : nat) : bytes :=
  le_bytes 16 (Nat.iter j gf_double (le_value (enc key2 (le_bytes 16 sector)))).

(** U_1 = PRF (P, S || INT (i)), U_(j+1) = PRF (P, U_j); T_i is the sum of U_1 to U_c. *)
Definition rfc8018_U (prf : bytes -> bytes -> bytes) (pw salt : bytes) (i : Z) (j : nat) : bytes :=
  Nat.iter j (prf pw) (prf pw (salt ++ rev (le_bytes 4 i))).
Definition rfc8018_T (prf : bytes -> bytes -> bytes) (pw salt : bytes) (c : nat) (i : Z) : bytes :=
  foldl xor_bytes (rfc8018_U prf pw salt i 0) (rfc8018_U prf pw salt i <$> seq 1 (c - 1)).

(** * Multiplication by x *)

Section Mulx.

Lemma lxor_byte a b : is_byte a -> is_byte b -> is_byte (Z.lxor a b).
Proof.
  unfold is_byte. intros Ha Hb. assert (H0 : 0 <= Z.lxor a b) by (apply Z.lxor_nonneg; lia). split; [done|]. destruct (Z.eq_dec (Z.lxor a b) 0) as [->|Hn]; [lia|].
  assert (Hlog : forall c, 0 <= c < 256 -> Z.log2 c < 8) by (intros c Hc; destruct (Z.eq_dec c 0) as [->|]; [done|]; apply Z.log2_lt_pow2; lia).
  change 256 with (2 ^ 8). apply Z.log2_lt_pow2; [lia|]. eapply Z.le_lt_trans; [apply Z.log2_lxor; lia|]. apply Z.max_lub_lt; by apply Hlog.
Qed.

Lemma lxor_low a b c : is_byte a -> is_byte b -> Z.lxor (a + 256 * c) b = Z.lxor a b + 256 * c.
Proof.
  intros Ha Hb. assert (E : forall x, is_byte x -> x + 256 * c = Z.lxor x (Z.shiftl c 8)).
  { intros x Hx. rewrite <- Z.add_nocarry_lxor; [rewrite Z.shiftl_mul_pow2 by lia; lia|]. rewrite Z.land_comm. apply land_shifted; [lia|exact Hx]. }
  rewrite E by done. rewrite Z.lxor_assoc, (Z.lxor_comm _ b), <- Z.lxor_assoc. symmetry. by apply E, lxor_byte.
Qed.

Lemma shift_byte b c : is_byte b -> 0 <= c <= 1 -> u8 (Z.lor (Z.shiftl b 1) c) + 256 * Z.shiftr b 7 = 2 * b + c /\ 0 <= Z.shiftr b 7 <= 1.
Proof.
  intros Hb Hc. unfold is_byte in Hb. rewrite lor_shifted by lia. rewrite Z.shiftr_div_pow2 by lia. change (2 ^ 7) with 128. change (2 ^ 1) with 2. unfold u8. change (2 ^ 8) with 256.
  pose proof (Z.div_mod (b * 2 + c) 256 ltac:(lia)). replace ((b * 2 + c) / 256) with (b / 128) in *.
  - pose proof (Z.div_pos b 128). pose proof (Z.div_lt_upper_bound b 128 2). lia.
  - change 256 with (2 * 128). rewrite <- Z.div_div by lia. f_equal. rewrite Z.div_add_l by lia. rewrite (Z.div_small c 2) by lia. lia.
Qed.

Lemma mulx_loop_value t c : Forall is_byte t -> 0 <= c <= 1 ->
  let '(r, c') := mulx_loop t c in
  le_value r + 256 ^ Z.of_nat (length t) * c' = 2 * le_value t + c /\ 0 <= c' <= 1 /\ length r = length t /\ Forall is_byte r.
Proof.
  intros Ht. revert c. induction Ht as [|b t Hb Ht IH]; intros c Hc; cbn [mulx_loop]; [cbn; split_and!; try lia; try done|].
  destruct (shift_byte b c Hb Hc) as [E Hn]. specialize (IH _ Hn). destruct (mulx_loop t (Z.shiftr b 7)) as [r c']. destruct IH as (IH & Hc' & Hl & Hr). cbn [le_value length].
  rewrite Nat2Z.inj_succ, Z.pow_succ_r by lia. split_and!; [lia|lia|lia|by rewrite Hl|constructor; [apply u8_range|done]].
Qed.

Lemma mulx_ok t : Forall is_byte t -> length t = 16%nat -> Forall is_byte (mulx t) /\ length (mulx t) = 16%nat /\ le_value (mulx t) = gf_double (le_value t).
Proof.
  intros Ht Hl. unfold mulx. pose proof (mulx_loop_value t 0 Ht ltac:(lia)) as H. destruct (mulx_loop t 0) as [r c]. destruct H as (E & Hc & Hlr & Hr). rewrite Hl in *.
  pose proof (le_value_range r Hr) as Hv. rewrite Hlr in Hv. change (256 ^ Z.of_nat 16) with (2 ^ 128) in *. unfold gf_double. destruct (Z.eqb_spec c 0) as [->|Hn].
  - rewrite (proj2 (Z.leb_gt _ _)) by lia. split_and!; [done|done|lia].
  - rewrite (proj2 (Z.leb_le _ _)) by lia. destruct r as [|b r]; [done|]. inversion Hr as [|? ? Hb Hr']; subst. split_and!.
    + constructor; [|done]. apply lxor_byte; [done|unfold is_byte; lia].
    + exact Hlr.
    + cbn [le_value] in *. replace (2 * le_value t - 2 ^ 128) with (b + 256 * le_value r) by lia. symmetry. apply lxor_low; [done|unfold is_byte; lia].
Qed.

End Mulx.

(** * XTS *)

Section Modes.

Context (cbcenc cbcdec : bytes -> bytes -> bytes -> bytes) (hmac : bytes -> bytes -> bytes).

(** One block in place, with bytes of a byte. *)
Hypothesis cbcenc_block : forall key iv b, length b = 16%nat -> length (cbcenc key iv b) = 16%nat /\ Forall is_byte (cbcenc key iv b).
Hypothesis cbcdec_block : forall key iv b, length b = 16%nat -> length (cbcdec key iv b) = 16%nat /\ Forall is_byte (cbcdec key iv b).
(** CBC decryption undoes CBC encryption under the same key and vector, and the other
    way around. *)
Hypothesis cbc_inverse : forall key iv b, Forall is_byte b -> length b = 16%nat -> cbcdec key iv (cbcenc key iv b) = b.
Hypothesis cbc_inverse' : forall key iv b, Forall is_byte b -> length b = 16%nat -> cbcenc key iv (cbcdec key iv b) = b.

Implicit Types (f : bytes -> bytes) (x : install_xts_ctx_t).

Definition block_fn f : Prop := forall b, length b = 16%nat -> length (f b) = 16%nat /\ Forall is_byte (f b).

Lemma length_xor a b : length (xor_bytes a b) = Nat.min (length a) (length b).
Proof. apply length_zip_with. Qed.

Lemma xor_bytes_byte a b : Forall is_byte a -> Forall is_byte b -> Forall is_byte (xor_bytes a b).
Proof. intros Ha Hb. revert b Hb. induction Ha as [|c a Hc _ IH]; intros b Hb; [done|]. destruct Hb as [|e b He Hb]; [done|]. constructor; [by apply lxor_byte|by apply IH]. Qed.

Lemma xor_cancel a b : (length a <= length b)%nat -> xor_bytes (xor_bytes a b) b = a.
Proof. revert b. induction a as [|c a IH]; intros [|e b] H; cbn in *; try done; [lia|]. f_equal; [by rewrite Z.lxor_assoc, Z.lxor_nilpotent, Z.lxor_0_r|]. apply IH. lia. Qed.

Lemma first_tweak_ok x s : Forall is_byte (first_tweak cbcenc x s) /\ length (first_tweak cbcenc x s) = 16%nat.
Proof. unfold first_tweak, aes_enc. destruct (cbcenc_block (x_tweak x) (repeat 0 16) (le_bytes 8 s ++ repeat 0 8)); [|by split]. by rewrite length_app, length_le_bytes, repeat_length. Qed.

Lemma tweaks_ok t j : Forall is_byte t -> length t = 16%nat ->
  Forall is_byte (Nat.iter j mulx t) /\ length (Nat.iter j mulx t) = 16%nat /\ le_value (Nat.iter j mulx t) = Nat.iter j gf_double (le_value t).
Proof.
  intros Ht Hl. induction j as [|j IH]; [done|]. rewrite !Nat.iter_succ. destruct IH as (H1 & H2 & H3). destruct (mulx_ok _ H1 H2) as (? & ? & ->). by rewrite H3.
Qed.

Lemma xts_blocks_length n f t data : block_fn f -> length t = 16%nat -> Forall is_byte t -> (16 * n <= length data)%nat -> length (xts_blocks n f t data) = length data.
Proof.
  intros Hf. revert t data. induction n as [|n IH]; intros t data Hl Ht Hd; [done|]. cbn [xts_blocks]. destruct (mulx_ok t Ht Hl) as (Hm & Hml & _).
  assert (Hb : length (xor_bytes (take 16 data) t) = 16%nat) by (rewrite length_xor, length_take; lia). rewrite length_app, length_xor, (proj1 (Hf _ Hb)), Hl, IH; rewrite ?length_drop; [lia|done|done|lia].
Qed.

(** Block [j] of the result depends on block [j] and its tweak only. *)
Lemma xts_blocks_at n f t data j : block_fn f -> length t = 16%nat -> Forall is_byte t -> (16 * n <= length data)%nat -> (j < n)%nat ->
  slice (16 * j) 16 (xts_blocks n f t data) = xor_bytes (f (xor_bytes (slice (16 * j) 16 data) (Nat.iter j mulx t))) (Nat.iter j mulx t).
Proof.
  intros Hf. revert t data j. induction n as [|n IH]; intros t data j Hl Ht Hd Hj; [lia|]. cbn [xts_blocks]. destruct (mulx_ok t Ht Hl) as (Hm & Hml & _).
  assert (Hb : length (xor_bytes (take 16 data) t) = 16%nat) by (rewrite length_xor, length_take; lia). assert (Hx : length (xor_bytes (f (xor_bytes (take 16 data) t)) t) = 16%nat) by (rewrite length_xor, (proj1 (Hf _ Hb)); lia).
  destruct j as [|j].
  - unfold slice. rewrite !drop_0. rewrite take_app_le by lia. by rewrite take_ge by lia.
  - rewrite Nat.iter_succ_r. unfold slice in *. replace (16 * S j)%nat with (16 + 16 * j)%nat by lia. rewrite <- (drop_drop _ _ 16), drop_app_length' by done. rewrite <- (drop_drop data _ 16). apply IH; rewrite ?length_drop; [done|done|lia|lia].
Qed.

Lemma xts_blocks_rest n f t data : block_fn f -> length t = 16%nat -> Forall is_byte t -> (16 * n <= length data)%nat -> drop (16 * n) (xts_blocks n f t data) = drop (16 * n) data.
Proof.
  intros Hf. revert t data. induction n as [|n IH]; intros t data Hl Ht Hd; [done|]. cbn [xts_blocks]. destruct (mulx_ok t Ht Hl) as (Hm & Hml & _).
  assert (Hb : length (xor_bytes (take 16 data) t) = 16%nat) by (rewrite length_xor, length_take; lia). assert (Hx : length (xor_bytes (f (xor_bytes (take 16 data) t)) t) = 16%nat) by (rewrite length_xor, (proj1 (Hf _ Hb)); lia).
  replace (16 * S n)%nat with (16 + 16 * n)%nat by lia. rewrite <- (drop_drop _ _ 16), drop_app_length' by done. rewrite <- (drop_drop data _ 16). apply IH; rewrite ?length_drop; [done|done|lia].
Qed.

Lemma xts_blocks_inverse n f g t data : block_fn f -> (forall b, Forall is_byte b -> length b = 16%nat -> g (f b) = b) -> length t = 16%nat -> Forall is_byte t -> Forall is_byte data -> (16 * n <= length data)%nat ->
  xts_blocks n g t (xts_blocks n f t data) = data.
Proof.
  intros Hf Hg. revert t data. induction n as [|n IH]; intros t data Hl Ht Hdat Hd; [done|]. cbn [xts_blocks]. destruct (mulx_ok t Ht Hl) as (Hm & Hml & _).
  assert (Hb : length (xor_bytes (take 16 data) t) = 16%nat) by (rewrite length_xor, length_take; lia). assert (Hx : length (xor_bytes (f (xor_bytes (take 16 data) t)) t) = 16%nat) by (rewrite length_xor, (proj1 (Hf _ Hb)); lia).
  rewrite take_app_le, take_ge, drop_app_length' by lia. rewrite xor_cancel by (rewrite (proj1 (Hf _ Hb)); lia). rewrite Hg; [|apply xor_bytes_byte; [by apply Forall_take|done]|done].
  rewrite xor_cancel by (rewrite length_take; lia). rewrite IH; [apply take_drop|done|done|by apply Forall_drop|rewrite length_drop; lia].
Qed.

Lemma xts_blocks_byte n f t data : block_fn f -> length t = 16%nat -> Forall is_byte t -> Forall is_byte data -> (16 * n <= length data)%nat -> Forall is_byte (xts_blocks n f t data).
Proof.
  intros Hf. revert t data. induction n as [|n IH]; intros t data Hl Ht Hdat Hd; [done|]. cbn [xts_blocks]. destruct (mulx_ok t Ht Hl) as (Hm & Hml & _).
  assert (Hb : length (xor_bytes (take 16 data) t) = 16%nat) by (rewrite length_xor, length_take; lia). apply Forall_app. split; [apply xor_bytes_byte; [by apply Hf|done]|]. apply IH; [done|done|by apply Forall_drop|rewrite length_drop; lia].
Qed.

Lemma le_bytes_app n m v : le_bytes (n + m) v = le_bytes n v ++ le_bytes m (v / 256 ^ Z.of_nat n).
Proof.
  revert v. induction n as [|n IH]; intros v; cbn [le_bytes Nat.add app]; [by rewrite Z.div_1_r|]. rewrite IH, Nat2Z.inj_succ, Z.pow_succ_r, Z.div_div by lia. done.
Qed.

Lemma whole_blocks (data : bytes) : (16 * (length data / 16) <= length data)%nat.
Proof. apply Nat.Div0.mul_div_le. Qed.

Lemma enc_fn key : block_fn (aes_enc cbcenc key).
Proof. intros b. apply cbcenc_block. Qed.
Lemma dec_fn key : block_fn (aes_dec cbcdec key).
Proof. intros b. apply cbcdec_block. Qed.

Lemma mode_fn x (e : bool) : block_fn (if e then aes_enc cbcenc (x_data x) else aes_dec cbcdec (x_data x)).
Proof. destruct e; [apply enc_fn|apply dec_fn]. Qed.

Lemma install_xts_length x data s e : length (install_xts cbcenc cbcdec x data s e) = length data.
Proof. destruct (first_tweak_ok x s). apply xts_blocks_length; [apply mode_fn|done|done|apply whole_blocks]. Qed.

Lemma install_xts_byte x data s e : Forall is_byte data -> Forall is_byte (install_xts cbcenc cbcdec x data s e).
Proof. intros H. destruct (first_tweak_ok x s). apply xts_blocks_byte; [apply mode_fn|done..|apply whole_blocks]. Qed.

(** Decrypting undoes encrypting, and the other way around. *)
Lemma xts_inverse x data s e : Forall is_byte data -> install_xts cbcenc cbcdec x (install_xts cbcenc cbcdec x data s e) s (negb e) = data.
Proof.
  intros H. destruct (first_tweak_ok x s). unfold install_xts at 1. rewrite install_xts_length. unfold install_xts. apply xts_blocks_inverse; [apply mode_fn| |done..|apply whole_blocks].
  intros b Hb Hl. destruct e; unfold aes_enc, aes_dec; [by apply cbc_inverse|by apply cbc_inverse'].
Qed.

(** C27: [install_xts] is XTS-AES on every whole block: block j of a sector is combined
    with the tweak E_K2(sector) times x^j in the field of 2^128 elements before and
    after the block cipher, bytes past the last whole block stay, and decrypting
    gives back what was encrypted. *)
Theorem install_xts_is_xts x data s e : 0 <= s < 2 ^ 64 -> Forall is_byte data ->
  let out := install_xts cbcenc cbcdec x data s e in
  let T := xts_tweak (aes_enc cbcenc) (x_tweak x) s in
  let F := if e then aes_enc cbcenc (x_data x) else aes_dec cbcdec (x_data x) in
  (forall j, (j < length data / 16)%nat -> slice (16 * j) 16 out = xor_bytes (F (xor_bytes (slice (16 * j) 16 data) (T j))) (T j)) /\
  drop (16 * (length data / 16)) out = drop (16 * (length data / 16)) data /\
  length out = length data /\ install_xts cbcenc cbcdec x out s (negb e) = data.
Proof.
  intros Hs Hd. cbv zeta. destruct (first_tweak_ok x s) as [Ht Hl]. split_and!; [|by apply xts_blocks_rest; [apply mode_fn|..|apply whole_blocks]|apply install_xts_length|by apply xts_inverse].
  intros j Hj. unfold install_xts. rewrite xts_blocks_at; [|apply mode_fn|done|done|apply whole_blocks|done]. destruct (tweaks_ok _ j Ht Hl) as (Hb & Hlj & Hv).
  replace (xts_tweak (aes_enc cbcenc) (x_tweak x) s j) with (Nat.iter j mulx (first_tweak cbcenc x s)); [done|]. unfold xts_tweak. rewrite <- (le_bytes_value (Nat.iter j mulx (first_tweak cbcenc x s))) by done. rewrite Hlj, Hv. unfold first_tweak. do 4 f_equal.
  change 16%nat with (8 + 8)%nat. rewrite le_bytes_app, Z.div_small by (change (256 ^ Z.of_nat 8) with (2 ^ 64); lia). done.
Qed.

(** The derived key is the 64 bytes of PBKDF2 with HMAC-SHA256: the sums of the
    iterated pseudorandom function for the blocks 1 and 2, with at least one
    iteration. *)
Theorem pbkdf2_is_rfc8018 pw salt rounds : 0 <= rounds ->
  install_pbkdf2 hmac pw salt rounds = rfc8018_T hmac pw salt (Z.to_nat (Z.max 1 rounds)) 1 ++ rfc8018_T hmac pw salt (Z.to_nat (Z.max 1 rounds)) 2.
Proof.
  intros Hr. assert (E : forall i u t n k, u = rfc8018_U hmac pw salt i k -> pbkdf2_rounds hmac n pw u t = foldl xor_bytes t (rfc8018_U hmac pw salt i <$> seq (S k) n)).
  { intros i u t n. revert u t. induction n as [|n IH]; intros u t k Hu; [done|]. cbn [pbkdf2_rounds seq fmap list_fmap foldl]. rewrite (IH _ _ (S k)); [by rewrite Hu|]. rewrite Hu. unfold rfc8018_U. by rewrite Nat.iter_succ. }
  unfold install_pbkdf2, pbkdf2_block, rfc8018_T. assert (Hc : forall i, 0 <= i < 2 ^ 32 -> [u8 (Z.shiftr i 24); u8 (Z.shiftr i 16); u8 (Z.shiftr i 8); u8 i] = rev (le_bytes 4 i)).
  { intros i Hi. cbn. rewrite !Z.shiftr_div_pow2, !Z.div_div by lia. reflexivity. }
  rewrite !Hc by lia. rewrite (E 1 (hmac pw (salt ++ rev (le_bytes 4 1))) _ _ 0%nat eq_refl), (E 2 (hmac pw (salt ++ rev (le_bytes 4 2))) _ _ 0%nat eq_refl).
  replace (Z.to_nat ((if rounds =? 0 then 1 else rounds) - 1)) with (Z.to_nat (Z.max 1 rounds) - 1)%nat by (destruct (Z.eqb_spec rounds 0); lia). done.
Qed.

End Modes.
