(* ===== verification/InstallCopy.v ===== *)
(** Copying the system to the disk (src/user/lib/libinstall/copy.c), the other steps of
    the installation (config.c) and their order (run.c).

    The target disk is one map from byte addresses to bytes; the root partition is a
    window of it.  Every transfer has a fate: it is done, it fails, it is reported as
    done but stores something else, as the comment at [verify_512b] fears, or the power
    goes.  The RAM disks are only read.  Growing the file system is the [ext2_grow] of
    [Ext2Grow], over the partition or over its decrypted view.  The callbacks that
    show progress are left out. *)

From S2P Require Import Prelude CString Posix BlockDev Ext2Grow Accounts CryptRoot.
From S2P Require Gpt.
Local Open Scope Z_scope.

(** * Definitions *)

Definition RAM_BLOCK_SIZE : Z := 512.
Definition XFER_BYTES : Z := 65536.
Definition CRYPT_HEADER_SECTORS : Z := 8.
Definition CRYPT_PBKDF2_ROUNDS : Z := 100000.

(** [stored] is what a transfer that is not done leaves in the place it writes. *)
Inductive fate := Done | Fault (stored : device) | Silent (stored : device) | Cut (stored : device).

Inductive copy_error :=
  | BlockReadFailed | BlockWriteFailed | VerifySourceFailed | VerifyTargetFailed | VerifyMismatch (lba : Z)
  | NoEspImage | NoRootImage | TargetTooSmall | RootTooLarge
  | NoRandom | HeaderWriteFailed | CryptCopyFailed | CryptVerifyFailed | GrowFailed (e : grow_error)
  | OutOfFuel.

(** What a step ends with, the number of transfers so far and the disk. *)
Inductive result (A : Type) :=
  | Fine (a : A) (n : nat) (d : device)
  | Refused (e : copy_error) (n : nat) (d : device)
  | PowerOff (d : device)
  | Overrun.
Arguments Fine {A}. Arguments Refused {A}. Arguments PowerOff {A}. Arguments Overrun {A}.

Definition step (A : Type) : Type := (nat -> fate) -> nat -> device -> result A.
#[global] Instance step_ret : MRet step := λ _ a _ n d, Fine a n d.
#[global] Instance step_bind : MBind step := λ _ _ f m v n d,
  match m v n d with Fine a n d => f a v n d | Refused e n d => Refused e n d | PowerOff d => PowerOff d | Overrun => Overrun end.
Definition refuse {A} (e : copy_error) : step A := λ _ n d, Refused e n d.

(** Part of a device. *)
Definition window (d : device) (base : Z) : device := λ a, d (base + a).
Definition put_window (d : device) (base len : Z) (p : device) : device :=
  λ a, if (base <=? a) && (a <? base + len) then p (a - base) else d a.

(** The devices: the two RAM disks, the disk itself and the root partition on it. *)
Inductive dev := Ramdisk0 | Ramdisk1 | Raw | Root.

(** An entry of the list of devices. *)
Record install_blkdev_t := Blkdev { b_name : bytes; b_count : Z }.

(** The block count of the first device of a name; 0 where there is none. *)
Fixpoint count_of (name : bytes) (devs : list install_blkdev_t) : Z :=
  match devs with
  | [] => 0
  | b :: devs => if beq (b_name b) name then b_count b else count_of name devs
  end.

(** install_disk_has_aegis *)
Definition install_disk_has_aegis (devname : bytes) (devs : list install_blkdev_t) : bool :=
  existsb (λ b, starts_with devname (b_name b) &&
    match drop (length devname) (b_name b) with c :: x :: _ => (c =? 112) && (48 <=? x) && (x <=? 57) | _ => false end) devs.

(** ** Transfers of the encrypted partition *)

Section CryptIo.

Context (cbcenc cbcdec : bytes -> bytes -> bytes -> bytes).
(** Any way to transfer sectors of the partition. *)
Context {M : Type -> Type} `{!MRet M, !MBind M} (read : Z -> Z -> M (option bytes)) (write : Z -> bytes -> M bool).

(** The sectors of [buf], the first of them number [sector], each through [install_xts]. *)
Fixpoint crypt_sectors (n : nat) (x : install_xts_ctx_t) (sector : Z) (buf : bytes) (encrypt : bool) : bytes :=
  match n with
  | O => []
  | S n => install_xts cbcenc cbcdec x (take 512 buf) sector encrypt ++ crypt_sectors n x (sector + 1) (drop 512 buf) encrypt
  end.

Definition crypt_write (x : install_xts_ctx_t) (sector count : Z) (buf : bytes) : M bool :=
  if XFER_BYTES / RAM_BLOCK_SIZE <? count then mret false else
  write (sector + CRYPT_HEADER_SECTORS) (crypt_sectors (Z.to_nat count) x sector buf true).

Definition crypt_read (x : install_xts_ctx_t) (sector count : Z) : M (option bytes) :=
  mbind (M := M) (λ r : option bytes, mret (option_map (λ buf, crypt_sectors (Z.to_nat count) x sector buf false) r)) (read (sector + CRYPT_HEADER_SECTORS) count).

(** The decrypted partition, and the partition whose decrypted contents are [p]. *)
Definition crypt_view (x : install_xts_ctx_t) (w : device) : device := λ a,
  let s := a / 512 in
  byte_at (install_xts cbcenc cbcdec x (dev_read w ((s + CRYPT_HEADER_SECTORS) * 512) 512) s false) (Z.to_nat (a mod 512)).
Definition crypt_store (x : install_xts_ctx_t) (w p : device) : device := λ a,
  let s := a / 512 - CRYPT_HEADER_SECTORS in
  if s <? 0 then w a else byte_at (install_xts cbcenc cbcdec x (dev_read p (s * 512) 512) s true) (Z.to_nat (a mod 512)).

End CryptIo.

Section Copy.

(** The RAM disks; the size of a sector of the disk; the root partition's first byte and
    its length; the transfers of [ext2_grow]; the primitives of BearSSL and a random
    salt. *)
Context (ram0 ram1 : device) (block_size base part_len : Z) (growth : nat -> verdict).
Context (cbcenc cbcdec : bytes -> bytes -> bytes -> bytes) (hmac : bytes -> bytes -> bytes) (random : option bytes).

Definition dev_of (v : dev) (d : device) : device := match v with Ramdisk0 => ram0 | Ramdisk1 => ram1 | Raw | Root => d end.
Definition unit_of (v : dev) : Z := match v with Raw => block_size | _ => RAM_BLOCK_SIZE end.
Definition start_of (v : dev) : Z := match v with Root => base | _ => 0 end.
Definition place (v : dev) (lba : Z) : Z := start_of v + lba * unit_of v.

(** li_blkdev_io; a read gives what is stored or fails. *)
Definition li_read (v : dev) (lba count : Z) : step (option bytes) := λ fs n d,
  match fs n with
  | Done | Silent _ => Fine (Some (dev_read (dev_of v d) (place v lba) (Z.to_nat (count * unit_of v)))) (S n) d
  | Fault _ => Fine None (S n) d
  | Cut _ => PowerOff d
  end.

Definition li_write (v : dev) (lba : Z) (buf : bytes) : step bool := λ fs n d,
  let spoilt s := dev_write d (place v lba) (dev_read s (place v lba) (length buf)) in
  match fs n with
  | Done => Fine true (S n) (dev_write d (place v lba) buf)
  | Fault s => Fine false (S n) (spoilt s)
  | Silent s => Fine true (S n) (spoilt s)
  | Cut s => PowerOff (spoilt s)
  end.

Definition get {A} (m : step (option A)) (e : copy_error) : step A := r ← m; match r with Some a => mret a | None => refuse e end.
Definition check (m : step bool) (e : copy_error) : step unit := r ← m; if (r : bool) then mret tt else refuse e.

(** ** Copying and verifying *)

Definition max_chunk : Z := XFER_BYTES / RAM_BLOCK_SIZE.

Fixpoint copy_512b (fuel : nat) (src dst : dev) (count done : Z) : step unit :=
  if count <=? done then mret tt else
  match fuel with
  | O => refuse OutOfFuel
  | S fuel =>
      let chunk := if max_chunk <? count - done then max_chunk else count - done in
      buf ← get (li_read src done chunk) BlockReadFailed;
      _ ← check (li_write dst done buf) BlockWriteFailed;
      copy_512b fuel src dst count (done + chunk)
  end.

Fixpoint verify_512b (fuel : nat) (src dst : dev) (count done : Z) : step unit :=
  if count <=? done then mret tt else
  match fuel with
  | O => refuse OutOfFuel
  | S fuel =>
      let chunk := if max_chunk <? count - done then max_chunk else count - done in
      buf_a ← get (li_read src done chunk) VerifySourceFailed;
      buf_b ← get (li_read dst done chunk) VerifyTargetFailed;
      if negb (beq buf_a buf_b) then refuse (VerifyMismatch done) else
      verify_512b fuel src dst count (done + chunk)
  end.

(** The numbers of the two functions for sectors of another size. *)
Definition src_per_xfer : Z := XFER_BYTES / RAM_BLOCK_SIZE.
Definition dst_per_xfer : Z := XFER_BYTES / block_size.
Definition total_xfers (src_block_count : Z) : Z := (src_block_count + src_per_xfer - 1) / src_per_xfer.
Definition s_count (src_block_count i : Z) : Z :=
  if src_block_count <? i * src_per_xfer + src_per_xfer then src_block_count - i * src_per_xfer else src_per_xfer.

(** memset and a read into the front of the buffer. *)
Definition into_zeroes (data : bytes) : bytes := data ++ repeat 0 (Z.to_nat XFER_BYTES - length data).

Fixpoint copy_to_native (xfers : list Z) (src dst : dev) (src_block_count dst_start_lba : Z) : step unit :=
  match xfers with
  | [] => mret tt
  | i :: xfers =>
      data ← get (li_read src (i * src_per_xfer) (s_count src_block_count i)) BlockReadFailed;
      let buf := into_zeroes data in
      _ ← check (li_write dst (dst_start_lba + i * dst_per_xfer) (take (Z.to_nat (dst_per_xfer * block_size)) buf)) BlockWriteFailed;
      copy_to_native xfers src dst src_block_count dst_start_lba
  end.

(** [buf_b] keeps what is not read again. *)
Fixpoint verify_to_native (xfers : list Z) (src dst : dev) (src_block_count dst_start_lba : Z) (buf_b : bytes) : step unit :=
  match xfers with
  | [] => mret tt
  | i :: xfers =>
      data ← get (li_read src (i * src_per_xfer) (s_count src_block_count i)) VerifySourceFailed;
      let buf_a := into_zeroes data in
      back ← get (li_read dst (dst_start_lba + i * dst_per_xfer) dst_per_xfer) VerifyTargetFailed;
      let buf_b := back ++ drop (length back) buf_b in
      if negb (beq buf_a buf_b) then refuse (VerifyMismatch (dst_start_lba + i * dst_per_xfer)) else
      verify_to_native xfers src dst src_block_count dst_start_lba buf_b
  end.

Definition install_copy_esp (devs : list install_blkdev_t) : step unit :=
  let esp_blocks := count_of (B "ramdisk1") devs in
  if esp_blocks =? 0 then refuse NoEspImage else
  let esp_max_src := Gpt.ESP_SIZE_BYTES / RAM_BLOCK_SIZE in
  let esp_blocks := if esp_max_src <? esp_blocks then esp_max_src else esp_blocks in
  let esp_start_lba := Gpt.ESP_ALIGN_BYTES / block_size in
  let xfers := seqZ 0 (total_xfers esp_blocks) in
  _ ← copy_to_native xfers Ramdisk1 Raw esp_blocks esp_start_lba;
  verify_to_native xfers Ramdisk1 Raw esp_blocks esp_start_lba (repeat 0 (Z.to_nat XFER_BYTES)).

(** ** The encrypted root *)

Definition crypt_header (salt key : bytes) : bytes :=
  let h := repeat 0 (Z.to_nat (CRYPT_HEADER_SECTORS * RAM_BLOCK_SIZE)) in
  let h := splice 0 (B "LORICRY1") h in
  let h := splice 8 (le_bytes 4 1) h in
  let h := splice 12 (le_bytes 4 CRYPT_HEADER_SECTORS) h in
  let h := splice 16 (le_bytes 4 CRYPT_PBKDF2_ROUNDS) h in
  let h := splice 20 salt h in
  splice 36 (install_key_verifier hmac key) h.

Definition crypt_setup (password : bytes) : step install_xts_ctx_t :=
  match random with
  | None => refuse NoRandom
  | Some salt =>
      let key := install_pbkdf2 hmac password salt CRYPT_PBKDF2_ROUNDS in
      _ ← check (li_write Root 0 (crypt_header salt key)) HeaderWriteFailed;
      mret (install_xts_init key)
  end.

(** [crypt_io] on the partition. *)
Definition root_write (x : install_xts_ctx_t) : Z -> Z -> bytes -> step bool := crypt_write cbcenc cbcdec (li_write Root) x.
Definition root_read (x : install_xts_ctx_t) : Z -> Z -> step (option bytes) := crypt_read cbcenc cbcdec (li_read Root) x.

Fixpoint crypt_copy_verify (fuel : nat) (x : install_xts_ctx_t) (count done : Z) : step unit :=
  if count <=? done then mret tt else
  match fuel with
  | O => refuse OutOfFuel
  | S fuel =>
      let n := if max_chunk <? count - done then max_chunk else count - done in
      plain ← get (li_read Ramdisk0 done n) CryptCopyFailed;
      _ ← check (root_write x done n plain) CryptCopyFailed;
      check' ← get (root_read x done n) CryptVerifyFailed;
      if negb (beq plain check') then refuse CryptVerifyFailed else
      crypt_copy_verify fuel x count (done + n)
  end.

(** ** The root file system *)

(** Growing the file system of the partition, through [store] and [view] where it is
    encrypted. *)
Definition grow_root (view : device -> device) (store : device -> device -> device) (usable : Z) : step unit := λ _ n d,
  let w := window d base in
  let back p := put_window d base part_len (store w p) in
  match ext2_grow usable growth 0%nat (view w) with
  | Val (inl _) _ p => Fine tt n (back p)
  | Val (inr e) _ p => Refused (GrowFailed e) n (back p)
  | Stopped p => PowerOff (back p)
  | OutOfBounds => Overrun
  end.

Definition install_copy_rootfs (devs : list install_blkdev_t) (dst_blocks : Z) (password : bytes) : step unit :=
  let src_blocks := count_of (B "ramdisk0") devs in
  if src_blocks =? 0 then refuse NoRootImage else
  let encrypted := match password with [] => false | _ => true end in
  if encrypted && (dst_blocks <=? CRYPT_HEADER_SECTORS) then refuse TargetTooSmall else
  let usable_blocks := if encrypted then dst_blocks - CRYPT_HEADER_SECTORS else dst_blocks in
  if usable_blocks <? src_blocks then refuse RootTooLarge else
  if encrypted then
    x ← crypt_setup password;
    _ ← crypt_copy_verify (Z.to_nat src_blocks) x src_blocks 0;
    grow_root (crypt_view cbcenc cbcdec x) (crypt_store cbcenc cbcdec x) usable_blocks
  else
    _ ← copy_512b (Z.to_nat src_blocks) Ramdisk0 Root src_blocks 0;
    _ ← verify_512b (Z.to_nat src_blocks) Ramdisk0 Root src_blocks 0;
    grow_root id (λ _ p, p) usable_blocks.

End Copy.

(** ** The whole installation *)

Definition install_write_boot_cfg : bool := true.

Definition TEST_BINARIES : list bytes := [B "/bin/thread_test"; B "/bin/mmap_test"; B "/bin/proc_test"; B "/bin/pty_test"; B "/bin/dynlink_test"].

(** The running system: its account files and its programs. *)
Record live := Live { l_etc : etc; l_bin : list bytes }.

Inductive run_error :=
  | BadArguments | BootCfgFailed | CredentialsFailed | CredentialsOverrun | GptFailed (e : Gpt.gpt_error)
  | RescanFailed | NoRootPartition | CopyFailed (e : copy_error).

(** The running system and the disk afterwards. *)
Inductive run_result :=
  | Installed (l : live) (d : device)
  | NotInstalled (e : run_error) (l : live) (d : device)
  | RunPowerOff (l : live) (d : device)
  | RunOverrun.

(** Blocks that were written over a disk. *)
Definition overlay (block_size : Z) (g : gmap Z bytes) (d : device) : device := λ a,
  match g !! (a / block_size) with Some b => byte_at b (Z.to_nat (a mod block_size)) | None => d a end.

(** The first partition of the disk. *)
Definition root_of (devname : bytes) (devs : list install_blkdev_t) : option install_blkdev_t :=
  List.find (λ b, starts_with devname (b_name b) && match drop (length devname) (b_name b) with c :: _ => c =? 112 | [] => false end) devs.

Section Run.

(** The kernel: which block writes of the table succeed, which files can be deleted, the
    number of partitions it finds, its list of devices, where a partition begins, and
    the RAM disk after the caches are flushed. *)
Context (accepts : Gpt.device) (deletes : bytes -> bool) (rescan : device -> Z) (list_blkdevs : device -> list install_blkdev_t) (first_byte : device -> bytes -> Z).
Context (flush : live -> device) (ram1 : device) (calls : nat -> fate_t) (transfers : nat -> fate) (growth : nat -> verdict).
Context (cbcenc cbcdec : bytes -> bytes -> bytes -> bytes) (hmac : bytes -> bytes -> bytes) (random : option bytes).

Definition install_strip_test_binaries (l : live) : live :=
  Live (l_etc l) (List.filter (λ p, negb (existsb (beq p) TEST_BINARIES && deletes p)) (l_bin l)).

(** Steps 6b to 9: the copies, from the RAM disk the running system was flushed to. *)
Definition copy_all (devs : list install_blkdev_t) (block_size base root_blocks : Z) (password : bytes) (l : live) : step unit :=
  _ ← install_copy_rootfs (flush l) ram1 block_size base (root_blocks * RAM_BLOCK_SIZE) growth cbcenc cbcdec hmac random devs root_blocks password;
  install_copy_esp (flush l) ram1 block_size base devs.

(** [None] for a null pointer. *)
Definition install_run_all (devname : option bytes) (disk_blocks block_size : Z) (username user_hash admin_hash root_password : option bytes)
    (l : live) (d : device) : run_result :=
  match devname, username, user_hash with
  | Some devname, Some username, Some user_hash =>
      if negb install_write_boot_cfg then NotInstalled BootCfgFailed l d else
      let l := install_strip_test_binaries l in
      let '(written, e) := install_write_credentials calls username user_hash admin_hash (l_etc l) in
      let l := Live e (l_bin l) in
      match written with
      | None => NotInstalled CredentialsOverrun l d
      | Some false => NotInstalled CredentialsFailed l d
      | Some true =>
          let '(g, err) := Gpt.install_write_gpt accepts disk_blocks block_size ∅ in
          let d := overlay block_size g d in
          match err with
          | Some e => NotInstalled (GptFailed e) l d
          | None =>
              if rescan d <=? 0 then NotInstalled RescanFailed l d else
              let devs := list_blkdevs d in
              match root_of devname devs with
              | None => NotInstalled NoRootPartition l d
              | Some b =>
                  match copy_all devs block_size (first_byte d (take 15 (b_name b))) (b_count b) (default [] root_password) l transfers 0%nat d with
                  | Fine _ _ d => Installed l d
                  | Refused e _ d => NotInstalled (CopyFailed e) l d
                  | PowerOff d => RunPowerOff l d
                  | Overrun => RunOverrun
                  end
              end
          end
      end
  | _, _, _ => NotInstalled BadArguments l d
  end.

End Run.
