(* ===== verification/InstallCopySafety.v ===== *)
(** What the copies leave on the disk, whatever the transfers do. *)

From S2P Require Import Prelude CString Posix BlockDev Ext2Disk Ext2Grow CryptRoot InstallCopy.
From S2P Require Gpt.
Local Open Scope Z_scope.

(** * The program logic *)

(** Whatever the fates are: [Q] after success, [E] after a refusal or without power. *)
Definition swp {A} (m : step A) (Q : A -> device -> Prop) (E : device -> Prop) (d : device) : Prop :=
  forall fs n, match m fs n d with Fine a _ d' => Q a d' | Refused _ _ d' | PowerOff d' => E d' | Overrun => True end.

Section Logic.

Context {A C : Type}.

Lemma swp_ret (a : A) (Q : A -> device -> Prop) E d : Q a d -> swp (mret a) Q E d.
Proof. by intros H fs n. Qed.

Lemma swp_refuse e (Q : A -> device -> Prop) (E : device -> Prop) d : E d -> swp (refuse e) Q E d.
Proof. by intros H fs n. Qed.

Lemma swp_bind (m : step A) (f : A -> step C) Q E d : swp m (λ a, swp (f a) Q E) E d -> swp (m ≫= f) Q E d.
Proof. intros H fs n. specialize (H fs n). unfold mbind, step_bind. destruct (m fs n d); [apply H|done..]. Qed.

Lemma swp_conseq (m : step A) (Q Q' : A -> device -> Prop) (E E' : device -> Prop) d :
  swp m Q E d -> (forall a d', Q a d' -> Q' a d') -> (forall d', E d' -> E' d') -> swp m Q' E' d.
Proof. intros H HQ HE fs n. specialize (H fs n). destruct (m fs n d); auto. Qed.

End Logic.

Lemma swp_get {A} (m : step (option A)) e (Q : A -> device -> Prop) (E : device -> Prop) d :
  swp m (λ r d', match r with Some a => Q a d' | None => E d' end) E d -> swp (get m e) Q E d.
Proof. intros H. unfold get. apply swp_bind. eapply swp_conseq; [exact H| |done]. intros [a|] d' Hd; [by apply swp_ret|by apply swp_refuse]. Qed.

Lemma swp_check (m : step bool) e (Q : unit -> device -> Prop) (E : device -> Prop) d :
  swp m (λ r d', if r : bool then Q tt d' else E d') E d -> swp (check m e) Q E d.
Proof. intros H. unfold check. apply swp_bind. eapply swp_conseq; [exact H| |done]. intros [] d' Hd; [by apply swp_ret|by apply swp_refuse]. Qed.


(** Nothing outside [from, to) is different. *)
Definition frame (from to : Z) (d d' : device) : Prop := forall a, a < from \/ to <= a -> d' a = d a.

Lemma range_frame_refl from to d : frame from to d d.
Proof. by intros a _. Qed.

Lemma range_frame_trans from to from' to' d d' d'' : frame from to d d' -> frame from' to' d' d'' -> frame (Z.min from from') (Z.max to to') d d''.
Proof. intros H1 H2 a Ha. rewrite H2, H1 by lia. done. Qed.

Lemma frame_weaken from to from' to' d d' : frame from to d d' -> from' <= from -> to <= to' -> frame from' to' d d'.
Proof. intros H H1 H2 a Ha. apply H. lia. Qed.

Lemma frame_read from to d d' off len : frame from to d d' -> off + Z.of_nat len <= from \/ to <= off -> dev_read d' off len = dev_read d off len.
Proof. intros H Ho. apply dev_read_ext. intros a Ha. apply H. lia. Qed.

Section Copies.

Context (ram0 ram1 : device) (block_size base part_len : Z) (growth : nat -> verdict).
Context (cbcenc cbcdec : bytes -> bytes -> bytes -> bytes) (hmac : bytes -> bytes -> bytes) (random : option bytes).

Local Abbreviation place := (place block_size base).
Local Abbreviation li_read := (li_read ram0 ram1 block_size base).
Local Abbreviation li_write := (li_write block_size base).
Local Abbreviation dev_of := (dev_of ram0 ram1).

Lemma swp_read v lba count (Q : option bytes -> device -> Prop) (E : device -> Prop) d :
  Q (Some (dev_read (dev_of v d) (place v lba) (Z.to_nat (count * unit_of block_size v)))) d -> Q None d -> E d -> swp (li_read v lba count) Q E d.
Proof. intros H1 H2 H3 fs n. unfold InstallCopy.li_read. by destruct (fs n). Qed.

(** A write stores what it was given or, reporting so or not, anything else there. *)
Lemma swp_write v lba buf (Q : bool -> device -> Prop) (E : device -> Prop) d :
  (forall r d', frame (place v lba) (place v lba + Z.of_nat (length buf)) d d' -> Q r d' /\ E d') -> swp (li_write v lba buf) Q E d.
Proof.
  intros H fs n. unfold InstallCopy.li_write. assert (Hw : forall bs, length bs = length buf -> frame (place v lba) (place v lba + Z.of_nat (length buf)) d (dev_write d (place v lba) bs)) by (intros bs Hb a Ha; apply dev_write_outside; rewrite Hb; lia).
  destruct (fs n); [apply (H true)|apply (H false)|apply (H true)|apply (H true)]; apply Hw; rewrite ?dev_read_length; done.
Qed.

(** * Sectors of the same size *)

Lemma chunk_bounds count k : k < count -> let c := if max_chunk <? count - k then max_chunk else count - k in 0 < c <= 128 /\ k + c <= count.
Proof. intros H. unfold max_chunk. change (XFER_BYTES / RAM_BLOCK_SIZE) with 128. cbv zeta. destruct (Z.ltb_spec 128 (count - k)); lia. Qed.

Lemma place_root lba : place Root lba = base + lba * 512.
Proof. reflexivity. Qed.

Lemma copy_512b_frame fuel count k d : 0 <= k ->
  swp (copy_512b ram0 ram1 block_size base fuel Ramdisk0 Root count k) (λ _ d', frame base (base + Z.max k count * 512) d d') (λ d', frame base (base + Z.max k count * 512) d d') d.
Proof.
  revert k d. induction fuel as [|fuel IH]; intros k d Hd; cbn [copy_512b]; (destruct (Z.leb_spec count k) as [|Hlt]; [apply swp_ret, range_frame_refl|]); [apply swp_refuse, range_frame_refl|].
  pose proof (chunk_bounds count k Hlt) as Hc. cbv zeta in *. set (c := if max_chunk <? count - k then max_chunk else count - k) in *. clearbody c.
  apply swp_bind, swp_get, swp_read; [|apply range_frame_refl..]. apply swp_bind, swp_check, swp_write. rewrite dev_read_length, place_root. cbn [unit_of]. unfold RAM_BLOCK_SIZE. intros r d' Hf.
  assert (Hf' : frame base (base + Z.max k count * 512) d d') by (eapply frame_weaken; [exact Hf|lia|lia]). split; [|done]. destruct r; [|done]. eapply swp_conseq; [apply IH; lia| |].
  - intros [] d2 H2. eapply frame_weaken; [eapply range_frame_trans; [exact Hf'|exact H2]|lia|lia].
  - intros d2 H2. eapply frame_weaken; [eapply range_frame_trans; [exact Hf'|exact H2]|lia|lia].
Qed.

Lemma dev_read_eq d d' off off' len : dev_read d off len = dev_read d' off' len -> forall i, 0 <= i < Z.of_nat len -> d (off + i) = d' (off' + i).
Proof.
  intros H i Hi. assert (E : dev_read d off len !! Z.to_nat i = dev_read d' off' len !! Z.to_nat i) by (by rewrite H). rewrite !dev_read_lookup, Z2Nat.id in E by lia. by injection E.
Qed.

(** Verifying only reads, and success means that the partition holds the RAM disk. *)
Lemma verify_512b_ok fuel count k d : 0 <= k ->
  swp (verify_512b ram0 ram1 block_size base fuel Ramdisk0 Root count k) (λ _ d', d' = d /\ forall a, k * 512 <= a < count * 512 -> d (base + a) = ram0 a) (λ d', d' = d) d.
Proof.
  revert k. induction fuel as [|fuel IH]; intros k Hd; cbn [verify_512b]; (destruct (Z.leb_spec count k) as [|Hlt]; [apply swp_ret; split; [done|intros; lia]|]); [by apply swp_refuse|].
  pose proof (chunk_bounds count k Hlt) as Hc. cbv zeta in *. set (c := if max_chunk <? count - k then max_chunk else count - k) in *. clearbody c.
  apply swp_bind, swp_get, swp_read; [|done..]. apply swp_bind, swp_get, swp_read; [|done..]. destruct (negb _) eqn:E; [by apply swp_refuse|]. apply negb_false_iff, beq_true in E. cbn [dev_of unit_of] in E. unfold RAM_BLOCK_SIZE in E.
  eapply swp_conseq; [apply (IH (k + c)); lia| |done]. intros [] d2 [-> H2]. split; [done|]. intros a Ha. destruct (Z.lt_ge_cases a ((k + c) * 512)); [|apply H2; lia].
  symmetry. pose proof (dev_read_eq _ _ _ _ _ E (a - k * 512) ltac:(lia)) as Ei. rewrite place_root in Ei. unfold InstallCopy.place in Ei. cbn [start_of unit_of] in Ei. unfold RAM_BLOCK_SIZE in Ei.
  replace (0 + k * 512 + (a - k * 512)) with a in Ei by lia. replace (base + k * 512 + (a - k * 512)) with (base + a) in Ei by lia. exact Ei.
Qed.

(** * Sectors of another size *)

Hypothesis sizes : block_size ∈ Gpt.block_sizes.

Lemma native_units : dst_per_xfer block_size * block_size = 65536 /\ Gpt.ESP_ALIGN_BYTES / block_size * block_size = 1048576 /\ 0 < block_size.
Proof. destruct (Gpt.bs_cases block_size sizes) as [->|[->|[->| ->]]]; done. Qed.

Lemma place_native i : place Raw (Gpt.ESP_ALIGN_BYTES / block_size + i * dst_per_xfer block_size) = 1048576 + i * 65536.
Proof. destruct native_units as (H1 & H2 & _). unfold InstallCopy.place. cbn [start_of unit_of]. rewrite Z.mul_add_distr_r, H2, <- Z.mul_assoc, H1. lia. Qed.

(** The transfers of an image of [count] sectors. *)
Definition xfer_ok (count i : Z) : Prop := 0 <= i /\ i * 128 < count.

Lemma s_count_bounds count i : xfer_ok count i -> 0 < s_count count i <= 128 /\ i * 128 + s_count count i <= count /\ (i * 128 + s_count count i < count -> s_count count i = 128).
Proof. intros [H1 H2]. unfold s_count, src_per_xfer. change (XFER_BYTES / RAM_BLOCK_SIZE) with 128. destruct (Z.ltb_spec count (i * 128 + 128)); lia. Qed.

Lemma length_into_zeroes data : (length data <= Z.to_nat XFER_BYTES)%nat -> length (into_zeroes data) = Z.to_nat XFER_BYTES.
Proof. intros H. unfold into_zeroes. rewrite length_app, repeat_length. lia. Qed.

Lemma copy_native_frame xfers count d : Forall (xfer_ok count) xfers -> count <= 16384 ->
  swp (copy_to_native ram0 ram1 block_size base xfers Ramdisk1 Raw count (Gpt.ESP_ALIGN_BYTES / block_size)) (λ _ d', frame 1048576 9437184 d d') (λ d', frame 1048576 9437184 d d') d.
Proof.
  intros Hx Hc. revert d. induction Hx as [|i xfers Hi _ IH]; intros d; cbn [copy_to_native]; [apply swp_ret, range_frame_refl|]. pose proof (s_count_bounds count i Hi) as Hs.
  apply swp_bind, swp_get, swp_read; [|apply range_frame_refl..]. apply swp_bind, swp_check, swp_write. rewrite place_native, length_take, (proj1 native_units). intros r d' Hf.
  assert (Hf' : frame 1048576 9437184 d d') by (eapply frame_weaken; [exact Hf|destruct Hi; lia|destruct Hi; lia]). split; [|done]. destruct r; [|done].
  eapply swp_conseq; [apply IH|intros [] d2 H2|intros d2 H2]; (eapply frame_weaken; [eapply range_frame_trans; [exact Hf'|exact H2]|lia|lia]).
Qed.

Lemma verify_native_ok xfers count d buf : length buf = Z.to_nat XFER_BYTES -> Forall (xfer_ok count) xfers ->
  swp (verify_to_native ram0 ram1 block_size base xfers Ramdisk1 Raw count (Gpt.ESP_ALIGN_BYTES / block_size) buf)
    (λ _ d', d' = d /\ Forall (λ i, forall k, 0 <= k < s_count count i * 512 -> d (1048576 + i * 65536 + k) = ram1 (i * 65536 + k)) xfers) (λ d', d' = d) d.
Proof.
  intros Hb Hx. revert buf Hb. induction Hx as [|i xfers Hi _ IH]; intros buf Hb; cbn [verify_to_native]; [by apply swp_ret|]. pose proof (s_count_bounds count i Hi) as Hs.
  apply swp_bind, swp_get, swp_read; [|done..]. apply swp_bind, swp_get, swp_read; [|done..]. rewrite place_native. cbn [unit_of dev_of]. rewrite (proj1 native_units). change (Z.to_nat 65536) with (Z.to_nat XFER_BYTES).
  rewrite dev_read_length, (drop_ge buf) by lia. rewrite app_nil_r. destruct (negb _) eqn:E; [by apply swp_refuse|]. apply negb_false_iff, beq_true in E.
  eapply swp_conseq; [apply IH; apply dev_read_length| |done]. intros [] d2 [-> H2]. split; [done|]. constructor; [|done]. intros k Hk. unfold into_zeroes in E.
  apply (f_equal (λ l, l !! Z.to_nat k)) in E. rewrite lookup_app_l, !dev_read_lookup in E; try (rewrite ?dev_read_length; unfold RAM_BLOCK_SIZE, XFER_BYTES; lia).
  rewrite Z2Nat.id in E by lia. injection E as E. rewrite <- E. unfold InstallCopy.place, src_per_xfer. cbn [start_of unit_of]. unfold RAM_BLOCK_SIZE. change (XFER_BYTES / 512) with 128. f_equal. lia.
Qed.

Lemma xfers_ok count : Forall (xfer_ok count) (seqZ 0 (total_xfers count)).
Proof.
  apply Forall_forall. intros i Hi. apply elem_of_seqZ in Hi. unfold total_xfers, src_per_xfer in Hi. change (XFER_BYTES / RAM_BLOCK_SIZE) with 128 in Hi. split; [lia|].
  pose proof (Z.mul_div_le (count + 128 - 1) 128 ltac:(lia)). lia.
Qed.

(** The size of the image that is copied. *)
Definition esp_size (devs : list install_blkdev_t) : Z := Z.min (count_of (B "ramdisk1") devs) 16384.

Lemma copy_esp_ok devs d :
  swp (install_copy_esp ram0 ram1 block_size base devs)
    (λ _ d', frame 1048576 9437184 d d' /\ count_of (B "ramdisk1") devs <> 0 /\ forall a, 0 <= a < esp_size devs * 512 -> d' (1048576 + a) = ram1 a) (λ d', frame 1048576 9437184 d d') d.
Proof.
  unfold install_copy_esp, esp_size. destruct (Z.eqb_spec (count_of (B "ramdisk1") devs) 0) as [|Hn]; [apply swp_refuse, range_frame_refl|]. change (Gpt.ESP_SIZE_BYTES / RAM_BLOCK_SIZE) with 16384.
  set (count := if 16384 <? count_of (B "ramdisk1") devs then 16384 else count_of (B "ramdisk1") devs). assert (Hc : count <= 16384 /\ count = Z.min (count_of (B "ramdisk1") devs) 16384) by (unfold count; destruct (Z.ltb_spec 16384 (count_of (B "ramdisk1") devs)); lia). clearbody count. destruct Hc as [Hc <-].
  apply swp_bind. eapply swp_conseq; [apply copy_native_frame; [apply xfers_ok|done]| |done]. intros [] d1 H1. eapply swp_conseq; [apply verify_native_ok; [apply repeat_length|apply xfers_ok]| |by intros d2 ->].
  intros [] d2 [-> H2]. split_and!; [done|done|]. intros a Ha. assert (Hi : xfer_ok count (a / 65536) /\ a / 65536 ∈ seqZ 0 (total_xfers count)).
  { pose proof (Z.div_pos a 65536). pose proof (Z.mul_div_le a 65536 ltac:(lia)). split; [split; lia|]. apply elem_of_seqZ. unfold total_xfers, src_per_xfer. change (XFER_BYTES / RAM_BLOCK_SIZE) with 128. split; [lia|]. cbn.
    pose proof (Z.div_mod (count + 128 - 1) 128 ltac:(lia)). pose proof (Z.mod_pos_bound (count + 128 - 1) 128 ltac:(lia)). lia. }
  destruct Hi as [Hx Hi]. rewrite Forall_forall in H2. pose proof (s_count_bounds _ _ Hx) as Hs. pose proof (Z.div_mod a 65536 ltac:(lia)) as Hd. pose proof (Z.mod_pos_bound a 65536 ltac:(lia)) as Hm.
  specialize (H2 _ Hi (a mod 65536) ltac:(lia)). replace (1048576 + a) with (1048576 + a / 65536 * 65536 + a mod 65536) by lia. rewrite H2. f_equal. lia.
Qed.

End Copies.

(** * The encrypted partition *)

Section Encrypted.

Context (cbcenc cbcdec : bytes -> bytes -> bytes -> bytes).
Hypothesis cbcenc_block : forall key iv b, length b = 16%nat -> length (cbcenc key iv b) = 16%nat /\ Forall is_byte (cbcenc key iv b).
Hypothesis cbcdec_block : forall key iv b, length b = 16%nat -> length (cbcdec key iv b) = 16%nat /\ Forall is_byte (cbcdec key iv b).

Implicit Types (x : install_xts_ctx_t) (w : device).
Local Abbreviation xts := (install_xts cbcenc cbcdec).
Local Abbreviation sectors := (crypt_sectors cbcenc cbcdec).
Local Abbreviation view := (crypt_view cbcenc cbcdec).

Lemma xts_length x data s e : length (xts x data s e) = length data.
Proof. by apply install_xts_length. Qed.

Lemma crypt_sectors_length n x s buf e : length buf = (512 * n)%nat -> length (sectors n x s buf e) = (512 * n)%nat.
Proof.
  revert s buf. induction n as [|n IH]; intros s buf H; [done|]. cbn [crypt_sectors]. rewrite length_app, xts_length, IH, length_take by (rewrite length_drop; lia). lia.
Qed.

Lemma dev_read_app d off n m : dev_read d off (n + m) = dev_read d off n ++ dev_read d (off + Z.of_nat n) m.
Proof.
  unfold dev_read. rewrite seq_app, fmap_app. f_equal. rewrite Nat.add_0_l, <- (Nat.add_0_r n) at 1. rewrite <- fmap_add_seq, <- list_fmap_compose. apply list_fmap_ext. intros i j _. unfold compose. f_equal. lia.
Qed.

Lemma view_sector x w s : dev_read (view x w) (s * 512) 512 = xts x (dev_read w ((s + CRYPT_HEADER_SECTORS) * 512) 512) s false.
Proof.
  apply list_eq. intros i. destruct (Nat.lt_ge_cases i 512) as [Hi|Hi].
  - rewrite dev_read_lookup by done. unfold crypt_view. rewrite Z.div_add_l, Z.div_small, Z.add_0_r by lia. rewrite (Z.add_comm (s * 512)), Z.mod_add, Z.mod_small, Nat2Z.id by lia. unfold byte_at.
    destruct (lookup_lt_is_Some_2 (xts x (dev_read w ((s + CRYPT_HEADER_SECTORS) * 512) 512) s false) i) as [b Hb]; [by rewrite xts_length, dev_read_length|]. by rewrite Hb.
  - rewrite !lookup_ge_None_2; [done|by rewrite xts_length, dev_read_length|by rewrite dev_read_length].
Qed.

(** Reading through [crypt_io] is reading the view. *)
Lemma view_sectors n x w s : dev_read (view x w) (s * 512) (512 * n) = sectors n x s (dev_read w ((s + CRYPT_HEADER_SECTORS) * 512) (512 * n)) false.
Proof.
  revert s. induction n as [|n IH]; intros s; [done|]. replace (512 * S n)%nat with (512 + 512 * n)%nat by lia. cbn [crypt_sectors]. rewrite !dev_read_app, view_sector. change (Z.of_nat 512) with 512.
  rewrite take_app_length', drop_app_length' by (by rewrite dev_read_length). f_equal. replace (s * 512 + 512) with ((s + 1) * 512) by lia. replace ((s + CRYPT_HEADER_SECTORS) * 512 + 512) with ((s + 1 + CRYPT_HEADER_SECTORS) * 512) by lia. apply IH.
Qed.

(** A sector of the view depends on one sector of the partition. *)
Lemma view_ext x w w' a : (forall b, (a / 512 + CRYPT_HEADER_SECTORS) * 512 <= b < (a / 512 + CRYPT_HEADER_SECTORS) * 512 + 512 -> w' b = w b) -> view x w' a = view x w a.
Proof. intros H. unfold crypt_view. do 2 f_equal. apply dev_read_ext. intros b Hb. apply H. lia. Qed.

Section Root.

Context (ram0 ram1 : device) (block_size base part_len : Z) (growth : nat -> verdict).
Context (hmac : bytes -> bytes -> bytes) (random : option bytes).
(** What getrandom and HMAC-SHA256 give. *)
Hypothesis salt_length : forall salt, random = Some salt -> length salt = 16%nat.
Hypothesis hmac_length : forall key msg, length (hmac key msg) = 32%nat.

Lemma window_read d off len : dev_read (window d base) off len = dev_read d (base + off) len.
Proof. apply list_fmap_ext. intros i j _. unfold window. f_equal. lia. Qed.

(** Once a chunk was verified, later chunks are written elsewhere. *)
Lemma crypt_copy_verify_ok fuel x count k d : 0 <= k ->
  swp (crypt_copy_verify ram0 ram1 block_size base cbcenc cbcdec fuel x count k)
    (λ _ d', frame (base + (k + 8) * 512) (base + (Z.max k count + 8) * 512) d d' /\ forall a, k * 512 <= a < count * 512 -> view x (window d' base) a = ram0 a)
    (λ d', frame (base + (k + 8) * 512) (base + (Z.max k count + 8) * 512) d d') d.
Proof.
  revert k d. induction fuel as [|fuel IH]; intros k d Hk; cbn [crypt_copy_verify]; (destruct (Z.leb_spec count k) as [|Hlt]; [apply swp_ret; split; [apply range_frame_refl|intros; lia]|]); [apply swp_refuse, range_frame_refl|].
  pose proof (chunk_bounds count k Hlt) as Hc. cbv zeta in *. set (c := if max_chunk <? count - k then max_chunk else count - k) in *. clearbody c.
  apply swp_bind, swp_get, swp_read; [|apply range_frame_refl..]. unfold InstallCopy.place. cbn [start_of unit_of dev_of]. unfold RAM_BLOCK_SIZE. set (plain := dev_read ram0 (0 + k * 512) (Z.to_nat (c * 512))).
  assert (Hp : length plain = (512 * Z.to_nat c)%nat) by (unfold plain; rewrite dev_read_length; lia).
  unfold root_write, crypt_write. change (XFER_BYTES / RAM_BLOCK_SIZE) with 128. rewrite (proj2 (Z.ltb_ge 128 c)) by lia. apply swp_bind, swp_check, swp_write. rewrite crypt_sectors_length by done. rewrite place_root. unfold CRYPT_HEADER_SECTORS. intros r d1 H1.
  assert (Hf1 : frame (base + (k + 8) * 512) (base + (k + c + 8) * 512) d d1) by (eapply frame_weaken; [exact H1|lia|lia]). assert (Hw1 : frame (base + (k + 8) * 512) (base + (Z.max k count + 8) * 512) d d1) by (eapply frame_weaken; [exact Hf1|lia|lia]).
  split; [|done]. destruct r; [|done]. apply swp_bind, swp_get. unfold root_read, crypt_read. apply swp_bind, swp_read; [apply swp_ret; cbn [option_map]|by apply swp_ret|done].
  destruct (negb _) eqn:E; [by apply swp_refuse|]. apply negb_false_iff, beq_true in E. rewrite place_root in E. cbn [unit_of dev_of] in E. unfold RAM_BLOCK_SIZE in E. replace (Z.to_nat (c * 512)) with (512 * Z.to_nat c)%nat in E by lia.
  rewrite <- window_read, <- view_sectors in E. unfold plain in E. replace (Z.to_nat (c * 512)) with (512 * Z.to_nat c)%nat in E by lia.
  eapply swp_conseq; [apply (IH (k + c) d1); lia| |].
  - intros [] d2 [H2 H2']. split; [eapply frame_weaken; [eapply range_frame_trans; [exact Hw1|exact H2]|lia|lia]|]. intros a Ha. destruct (Z.lt_ge_cases a ((k + c) * 512)) as [Hlo|]; [|apply H2'; lia].
    rewrite (view_ext x (window d1 base)); [|intros b Hb; unfold window; apply H2; left; assert (a / 512 < k + c) by (apply Z.div_lt_upper_bound; lia); unfold CRYPT_HEADER_SECTORS in Hb; lia].
    pose proof (dev_read_eq _ _ _ _ _ E (a - k * 512) ltac:(lia)) as Ei. replace (0 + k * 512 + (a - k * 512)) with a in Ei by lia. replace (k * 512 + (a - k * 512)) with a in Ei by lia. by symmetry.
  - intros d2 H2. eapply frame_weaken; [eapply range_frame_trans; [exact Hw1|exact H2]|lia|lia].
Qed.

Lemma crypt_header_length salt key : length salt = 16%nat -> length (crypt_header hmac salt key) = 4096%nat.
Proof.
  intros Hs. unfold crypt_header. change (Z.to_nat (CRYPT_HEADER_SECTORS * RAM_BLOCK_SIZE)) with 4096%nat.
  assert (H : forall off bs p, length p = 4096%nat -> (off + length bs <= 4096)%nat -> length (splice off bs p) = 4096%nat) by (intros off bs p Hp Hb; rewrite length_splice; lia).
  repeat apply H; rewrite ?repeat_length, ?length_le_bytes, ?Hs; unfold install_key_verifier; rewrite ?hmac_length; cbn [length B]; try done; change (length (B "LORICRY1")) with 8%nat; lia.
Qed.

(** The keys of the root partition, and the partition as the file system sees it. *)
Definition root_key (password : bytes) : install_xts_ctx_t := install_xts_init (install_pbkdf2 hmac password (default [] random) CRYPT_PBKDF2_ROUNDS).
Definition root_view (password : bytes) (w : device) : device := match password with [] => w | _ => view (root_key password) w end.
Definition root_store (password : bytes) (w p : device) : device := match password with [] => p | _ => crypt_store cbcenc cbcdec (root_key password) w p end.
Definition usable (password : bytes) (dst_blocks : Z) : Z := match password with [] => dst_blocks | _ => dst_blocks - 8 end.

Lemma crypt_setup_ok password d :
  swp (crypt_setup block_size base hmac random password) (λ x d', x = root_key password /\ frame base (base + 4096) d d') (λ d', frame base (base + 4096) d d') d.
Proof.
  unfold crypt_setup, root_key. destruct random as [salt|] eqn:Es; [|apply swp_refuse, range_frame_refl]. cbn [default]. apply swp_bind, swp_check, swp_write. rewrite crypt_header_length by (by apply salt_length). rewrite place_root.
  intros r d' H. replace (base + 0 * 512) with base in H by lia. split; [|done]. destruct r; [|done]. apply swp_ret. by split.
Qed.

(** The partition holds the file system [ext2_grow] made of a copy of the RAM disk. *)
Definition root_installed (devs : list install_blkdev_t) (dst_blocks : Z) (password : bytes) (d : device) : Prop :=
  exists w p sectors n, (forall a, 0 <= a < count_of (B "ramdisk0") devs * 512 -> root_view password w a = ram0 a) /\
    ext2_grow (usable password dst_blocks) growth 0%nat (root_view password w) = Val (inl sectors) n p /\
    forall a, 0 <= a < part_len -> d (base + a) = root_store password w p a.

Lemma grow_root_ok devs dst_blocks password d : (forall a, 0 <= a < count_of (B "ramdisk0") devs * 512 -> root_view password (window d base) a = ram0 a) ->
  swp (grow_root base part_len growth (root_view password) (root_store password) (usable password dst_blocks))
    (λ _ d', frame base (base + part_len) d d' /\ root_installed devs dst_blocks password d') (λ d', frame base (base + part_len) d d') d.
Proof.
  intros Hcopy fs n. unfold grow_root. assert (Hf : forall p, frame base (base + part_len) d (put_window d base part_len p)).
  { intros p a Ha. unfold put_window. destruct (Z.leb_spec base a), (Z.ltb_spec a (base + part_len)); try done. lia. }
  destruct (ext2_grow _ _ _ _) as [[s|e] m p|p|] eqn:E; [|done..]. split; [done|]. exists (window d base), p, s, m. split_and!; [done|done|].
  intros a Ha. unfold put_window. rewrite (proj2 (Z.leb_le _ _)), (proj2 (Z.ltb_lt _ _)) by lia. cbn [andb]. f_equal. lia.
Qed.

Lemma copy_rootfs_ok devs dst_blocks password d : part_len = dst_blocks * 512 -> 0 <= dst_blocks ->
  swp (install_copy_rootfs ram0 ram1 block_size base part_len growth cbcenc cbcdec hmac random devs dst_blocks password)
    (λ _ d', frame base (base + part_len) d d' /\ root_installed devs dst_blocks password d') (λ d', frame base (base + part_len) d d') d.
Proof.
  intros Hl Hd. unfold install_copy_rootfs. set (src := count_of (B "ramdisk0") devs). destruct (Z.eqb_spec src 0) as [|Hn]; [apply swp_refuse, range_frame_refl|].
  destruct password as [|c password]; cbn [andb].
  - destruct (Z.ltb_spec dst_blocks src); [apply swp_refuse, range_frame_refl|]. assert (Hw : forall e e', frame base (base + Z.max 0 src * 512) e e' -> frame base (base + part_len) e e') by (intros e e' H'; eapply frame_weaken; [exact H'|lia|lia]).
    apply swp_bind. eapply swp_conseq; [apply copy_512b_frame; lia| |intros d1 H1; by apply Hw]. intros [] d1 H1. apply Hw in H1.
    apply swp_bind. eapply swp_conseq; [apply verify_512b_ok; lia| |by intros d2 ->]. intros [] d2 [-> H2].
    eapply swp_conseq; [apply (grow_root_ok devs dst_blocks []); intros a Ha; apply H2; fold src in Ha; lia|intros [] d3 [H3 H3']; split; [|done]|intros d3 H3]; (eapply frame_weaken; [eapply range_frame_trans; [exact H1|exact H3]|lia|lia]).
  - unfold CRYPT_HEADER_SECTORS. destruct (Z.leb_spec dst_blocks 8); [apply swp_refuse, range_frame_refl|]. destruct (Z.ltb_spec (dst_blocks - 8) src); [apply swp_refuse, range_frame_refl|].
    assert (Hw : forall e e', frame base (base + 4096) e e' -> frame base (base + part_len) e e') by (intros e e' H'; eapply frame_weaken; [exact H'|lia|lia]).
    apply swp_bind. eapply swp_conseq; [apply crypt_setup_ok| |intros d1 H1; by apply Hw]. intros x d1 [-> H1]. apply Hw in H1.
    assert (Hw' : forall e e', frame (base + (0 + 8) * 512) (base + (Z.max 0 src + 8) * 512) e e' -> frame base (base + part_len) e e') by (intros e e' H'; eapply frame_weaken; [exact H'|lia|lia]).
    assert (Ht : forall e e', frame base (base + part_len) d e -> frame base (base + part_len) e e' -> frame base (base + part_len) d e') by (intros e e' He He'; eapply frame_weaken; [eapply range_frame_trans; [exact He|exact He']|lia|lia]).
    apply swp_bind. eapply swp_conseq; [apply crypt_copy_verify_ok; lia| |intros d2 H2; by eapply Ht, Hw']. intros [] d2 [H2 H2']. apply Hw' in H2.
    eapply swp_conseq; [apply (grow_root_ok devs dst_blocks (c :: password)); intros a Ha; apply H2'; fold src in Ha; lia|intros [] d3 [H3 H3']; split; [|done]|intros d3 H3]; eauto.
Qed.

End Root.

End Encrypted.
