(* ===== verification/InstallSafety.v ===== *)
(** The encrypted partition as a transport for [ext2_grow], and the whole installation. *)

From S2P Require Import Prelude CString Posix BlockDev Ext2Disk Ext2Grow Accounts CryptRoot InstallCopy InstallCopySafety.
From S2P Require Gpt.
Local Open Scope Z_scope.

(** * Transfers through the cipher *)

Section Transport.

Context (cbcenc cbcdec : bytes -> bytes -> bytes -> bytes).
Hypothesis cbcenc_block : forall key iv b, length b = 16%nat -> length (cbcenc key iv b) = 16%nat /\ Forall is_byte (cbcenc key iv b).
Hypothesis cbcdec_block : forall key iv b, length b = 16%nat -> length (cbcdec key iv b) = 16%nat /\ Forall is_byte (cbcdec key iv b).
Hypothesis cbc_inverse : forall key iv b, Forall is_byte b -> length b = 16%nat -> cbcdec key iv (cbcenc key iv b) = b.
Hypothesis cbc_inverse' : forall key iv b, Forall is_byte b -> length b = 16%nat -> cbcenc key iv (cbcdec key iv b) = b.

Implicit Types (x : install_xts_ctx_t) (w p : device).
Local Abbreviation xts := (install_xts cbcenc cbcdec).
Local Abbreviation sectors := (crypt_sectors cbcenc cbcdec).
Local Abbreviation view := (crypt_view cbcenc cbcdec).
Local Abbreviation store := (crypt_store cbcenc cbcdec).

Lemma crypt_sectors_at n x s buf e i : length buf = (512 * n)%nat -> (i < n)%nat -> slice (512 * i) 512 (sectors n x s buf e) = xts x (slice (512 * i) 512 buf) (s + Z.of_nat i) e.
Proof.
  revert s buf i. induction n as [|n IH]; intros s buf i Hl Hi; [lia|]. cbn [crypt_sectors].
  assert (Hx : length (xts x (take 512 buf) s e) = 512%nat) by (rewrite xts_length, length_take by done; lia). destruct i as [|i].
  - unfold slice. rewrite !drop_0, take_app_length' by (by rewrite Hx). by rewrite Z.add_0_r.
  - unfold slice in *. replace (512 * S i)%nat with (512 + 512 * i)%nat by lia. rewrite <- (drop_drop _ _ 512), drop_app_length' by (by rewrite Hx). rewrite <- (drop_drop buf _ 512), IH by (rewrite ?length_drop; lia). f_equal. lia.
Qed.

Lemma dev_read_inside w off buf i len : (i + len <= length buf)%nat -> dev_read (dev_write w off buf) (off + Z.of_nat i) len = slice i len buf.
Proof.
  intros H. rewrite <- (dev_read_write w off buf) at 2. apply list_eq. intros j. unfold slice. destruct (Nat.lt_ge_cases j len) as [Hj|Hj].
  - rewrite lookup_take_lt, lookup_drop, !dev_read_lookup by lia. do 2 f_equal. lia.
  - rewrite lookup_take_ge by lia. apply lookup_ge_None_2. rewrite dev_read_length. lia.
Qed.

Lemma dev_read_byte w off len : dev_ok w -> Forall is_byte (dev_read w off len).
Proof. intros H. apply Forall_fmap, Forall_true. intros i. apply H. Qed.

Lemma crypt_sectors_byte n x s buf e : Forall is_byte buf -> Forall is_byte (sectors n x s buf e).
Proof.
  revert s buf. induction n as [|n IH]; intros s buf H; [done|]. cbn [crypt_sectors]. apply Forall_app. split; [apply install_xts_byte; [done|done|by apply Forall_take]|apply IH; by apply Forall_drop].
Qed.

(** The view of a partition of which the first [k] sectors of a transfer were stored. *)
Lemma view_write n x w s buf k a : length buf = (512 * n)%nat -> Forall is_byte buf ->
  view x (dev_write w ((s + CRYPT_HEADER_SECTORS) * 512) (take (k * 512) (sectors n x s buf true))) a = dev_write (view x w) (s * 512) (take (k * 512) buf) a.
Proof.
  intros Hl Hb. set (m := Nat.min k n). assert (Hc : length (take (k * 512) (sectors n x s buf true)) = (512 * m)%nat) by (rewrite length_take, crypt_sectors_length by done; lia).
  assert (Hp : length (take (k * 512) buf) = (512 * m)%nat) by (rewrite length_take; lia). pose proof (Z.div_mod a 512 ltac:(lia)) as Ha. pose proof (Z.mod_pos_bound a 512 ltac:(lia)) as Hr.
  destruct (decide (s <= a / 512 < s + Z.of_nat m)) as [Hin|Hout].
  - set (i := Z.to_nat (a / 512 - s)). assert (Hi : (i < m)%nat) by lia. unfold crypt_view, CRYPT_HEADER_SECTORS. replace ((a / 512 + 8) * 512) with ((s + 8) * 512 + Z.of_nat (512 * i)) by lia. rewrite dev_read_inside by lia.
    unfold slice. rewrite skipn_firstn_comm. rewrite take_take, Nat.min_l by lia. fold (slice (512 * i) 512 (sectors n x s buf true)). rewrite crypt_sectors_at by lia. replace (s + Z.of_nat i) with (a / 512) by lia.
    rewrite (xts_inverse cbcenc cbcdec) with (e := true) by (try done; by apply Forall_take, Forall_drop).
    unfold dev_write. rewrite Hp. rewrite (proj2 (Z.leb_le _ _)), (proj2 (Z.ltb_lt _ _)) by lia. cbn [andb]. unfold byte_at, slice. rewrite lookup_take_lt, lookup_drop, lookup_take_lt by lia. do 2 f_equal. lia.
  - rewrite (dev_write_outside (view x w)) by (rewrite Hp; destruct (Z.lt_ge_cases (a / 512) s); lia). apply view_ext. intros b Hb'. apply dev_write_outside. rewrite Hc. unfold CRYPT_HEADER_SECTORS in *. destruct (Z.lt_ge_cases (a / 512) s); lia.
Qed.

Lemma view_bytes x w : dev_ok w -> dev_ok (view x w).
Proof.
  intros H a. unfold crypt_view, byte_at. destruct (_ !! _) eqn:E; [|unfold is_byte; cbn; lia]. eapply Forall_lookup_1 in E; [exact E|]. apply install_xts_byte; [done|done|by apply dev_read_byte].
Qed.

(** A partition is determined by its header and its view. *)
Lemma store_view x w w' p : dev_ok w' -> (forall a, view x w' a = p a) -> (forall a, a < 4096 -> w' a = w a) -> forall a, w' a = store x w p a.
Proof.
  intros Hw Hv Hh a. unfold crypt_store, CRYPT_HEADER_SECTORS. pose proof (Z.div_mod a 512 ltac:(lia)) as Ha. pose proof (Z.mod_pos_bound a 512 ltac:(lia)) as Hr. destruct (Z.ltb_spec (a / 512 - 8) 0); [apply Hh; lia|].
  rewrite (dev_read_ext p (view x w')) by (intros b _; symmetry; apply Hv). rewrite view_sector by done. rewrite (xts_inverse cbcenc cbcdec) with (e := false) by (try done; by apply dev_read_byte).
  unfold byte_at. rewrite dev_read_lookup by lia. cbn. f_equal. unfold CRYPT_HEADER_SECTORS. rewrite Z2Nat.id by lia. lia.
Qed.

(** The same result and number of transfers; the partition's view is the other device,
    and the partition is that device, encrypted. *)
Definition same_io {A} x w (o o' : outcome A) : Prop :=
  match o, o' with
  | Val a n w', Val a' n' p => a = a' /\ n = n' /\ (forall b, view x w' b = p b) /\ (forall b, w' b = store x w p b)
  | Stopped w', Stopped p => (forall b, view x w' b = p b) /\ (forall b, w' b = store x w p b)
  | _, _ => False
  end.

(** C10: [crypt_io] is a faithful transport: transfers of up to 128 sectors through it on
    the encrypted partition give the results of the same transfers on the decrypted
    view, also when they fail or stop after some of their sectors, and leave the
    header alone, so that the growth of the file system works on the encrypted
    partition as on a plain one. *)
Theorem crypt_io_refines x w s c buf v n : dev_ok w -> Forall is_byte buf -> 0 <= s -> 0 <= c <= 128 -> length buf = (512 * Z.to_nat c)%nat ->
  same_io x w (crypt_write cbcenc cbcdec io_write x s c buf v n w) (io_write s buf v n (view x w)) /\
  same_io x w (crypt_read cbcenc cbcdec io_read x s c v n w) (io_read s c v n (view x w)).
Proof.
  intros Hw Hb Hs Hc Hl. split.
  - unfold crypt_write. change (XFER_BYTES / RAM_BLOCK_SIZE) with 128. rewrite (proj2 (Z.ltb_ge 128 c)) by lia. unfold io_write, SECTOR_SIZE.
    set (cipher := sectors (Z.to_nat c) x s buf true). assert (Hk : forall k, let w' := dev_write w ((s + CRYPT_HEADER_SECTORS) * 512) (take (k * 512) cipher) in let p := dev_write (view x w) (s * 512) (take (k * 512) buf) in (forall b, view x w' b = p b) /\ (forall b, w' b = store x w p b)).
    { intros k. cbv zeta. assert (Hv : forall b, view x (dev_write w ((s + CRYPT_HEADER_SECTORS) * 512) (take (k * 512) cipher)) b = dev_write (view x w) (s * 512) (take (k * 512) buf) b) by (intros b; by apply view_write). split; [done|].
      apply store_view; [apply dev_write_ok; [done|by apply Forall_take, crypt_sectors_byte]|done|]. intros a Ha. apply dev_write_outside. unfold CRYPT_HEADER_SECTORS. lia. }
    destruct (v n); cbn [same_io]; [|split_and!; [done|done|apply Hk..]|apply Hk]. specialize (Hk (Z.to_nat c)). rewrite !take_ge in Hk by (unfold cipher; rewrite ?crypt_sectors_length by done; lia). split_and!; [done|done|apply Hk..].
  - assert (Hid : (forall b, view x w b = view x w b) /\ (forall b, w b = store x w (view x w) b)) by (split; [done|by apply store_view]).
    unfold crypt_read, mbind, io_bind, io_read, SECTOR_SIZE. destruct (v n); cbn; [|split_and!; [done|done|apply Hid..]|exact Hid]. split_and!; [|done|apply Hid..].
    replace (Z.to_nat (c * 512)) with (512 * Z.to_nat c)%nat by lia. by rewrite view_sectors.
Qed.

End Transport.

(** * The whole installation *)

Section Whole.

Context (accepts : Gpt.device) (deletes : bytes -> bool) (rescan : device -> Z) (list_blkdevs : device -> list install_blkdev_t) (first_byte : device -> bytes -> Z).
Context (flush : live -> device) (ram1 : device) (calls : nat -> fate_t) (transfers : nat -> fate) (growth : nat -> verdict).
Context (cbcenc cbcdec : bytes -> bytes -> bytes -> bytes) (hmac : bytes -> bytes -> bytes) (random : option bytes).
Hypothesis cbcenc_block : forall key iv b, length b = 16%nat -> length (cbcenc key iv b) = 16%nat /\ Forall is_byte (cbcenc key iv b).
Hypothesis cbcdec_block : forall key iv b, length b = 16%nat -> length (cbcdec key iv b) = 16%nat /\ Forall is_byte (cbcdec key iv b).
Hypothesis salt_length : forall salt, random = Some salt -> length salt = 16%nat.
Hypothesis hmac_length : forall key msg, length (hmac key msg) = 32%nat.

Context (devname : bytes) (blocks block_size : Z).
Hypothesis sizes : block_size ∈ Gpt.block_sizes.
Hypothesis few : blocks < 2 ^ 63.
Hypothesis room : 9 * 1024 * 1024 + 2 * 16384 < blocks * block_size.

Local Abbreviation l_plan := (Gpt.plan blocks block_size).
Definition root_end_byte : Z := (Gpt.root_end (Gpt.plan blocks block_size) + 1) * block_size.

Lemma layout_bytes : Gpt.root_start l_plan * block_size = 9437184 /\ 9437184 <= root_end_byte.
Proof.
  destruct (Gpt.plan_facts block_size blocks sizes few room) as (_ & _ & _ & _ & _ & _ & H1 & H2 & H3 & _ & H4 & _). unfold root_end_byte, Gpt.ESP_ALIGN_BYTES, Gpt.ESP_SIZE_BYTES in *. destruct (native_units block_size sizes) as (_ & _ & Hp).
  assert (E : Gpt.root_start l_plan * block_size = 9437184) by (rewrite H3; lia). split; [done|]. rewrite <- E. apply Z.mul_le_mono_nonneg_r; lia.
Qed.

(** The disk with the partition table, and what is installed behind it. *)
Definition partitioned (d : device) : device := overlay block_size (Gpt.install_write_gpt accepts blocks block_size ∅).1 d.

Definition esp_installed (devs : list install_blkdev_t) (d : device) : Prop :=
  count_of (B "ramdisk1") devs <> 0 /\ forall a, 0 <= a < esp_size devs * 512 -> d (Gpt.ESP_ALIGN_BYTES + a) = ram1 a.

Lemma copy_all_ok devs password root_blocks l d : 0 <= root_blocks -> root_blocks * 512 = root_end_byte - 9437184 ->
  swp (copy_all flush ram1 growth cbcenc cbcdec hmac random devs block_size 9437184 root_blocks password l)
    (λ _ d', frame Gpt.ESP_ALIGN_BYTES root_end_byte d d' /\ esp_installed devs d' /\
       root_installed cbcenc cbcdec (flush l) 9437184 (root_blocks * 512) growth hmac random devs root_blocks password d')
    (λ d', frame Gpt.ESP_ALIGN_BYTES root_end_byte d d') d.
Proof.
  intros Hn Hr. unfold copy_all, RAM_BLOCK_SIZE. change Gpt.ESP_ALIGN_BYTES with 1048576. destruct layout_bytes as [_ Hle]. apply swp_bind.
  assert (Hroot : forall e e', frame 9437184 (9437184 + root_blocks * 512) e e' -> frame 1048576 root_end_byte e e') by (intros e e' H; eapply frame_weaken; [exact H|lia|lia]).
  eapply swp_conseq; [by apply copy_rootfs_ok| |intros d1 H1; by apply Hroot]. intros [] d1 [H1 (w & p & sectors & m & R1 & R2 & R3)]. apply Hroot in H1.
  assert (Hboth : forall e, frame 1048576 9437184 d1 e -> frame 1048576 root_end_byte d e) by (intros e He; eapply frame_weaken; [eapply range_frame_trans; [exact H1|exact He]|lia|lia]).
  eapply swp_conseq; [by apply copy_esp_ok| |done]. intros [] d2 (H2 & He & Hc). split_and!; [by apply Hboth|by split|]. exists w, p, sectors, m. split_and!; [done|done|]. intros a Ha. rewrite H2 by lia. by apply R3.
Qed.


End Whole.
