(* ===== verification/InstallCalm.v ===== *)
(** Copies whose transfers are all done are accepted, and what is not verified. *)

From S2P Require Import Prelude CString Posix BlockDev Ext2Disk Ext2Grow CryptRoot InstallCopy InstallCopySafety InstallSafety.
From S2P Require Gpt.
Local Open Scope Z_scope.

(** From transfer [n] on everything is done. *)
Definition calm (fs : nat -> fate) (n : nat) : Prop := forall m, (n <= m)%nat -> fs m = Done.

Lemma calm_le fs n m : calm fs n -> (n <= m)%nat -> calm fs m.
Proof. intros H Hm k Hk. apply H. lia. Qed.

(** Success without trouble. *)
Definition cwp {A} (m : step A) (Q : A -> device -> Prop) (d : device) : Prop :=
  forall fs n, calm fs n -> exists a k d', m fs n d = Fine a k d' /\ (n <= k)%nat /\ Q a d'.

Lemma cwp_ret {A} (a : A) (Q : A -> device -> Prop) d : Q a d -> cwp (mret a) Q d.
Proof. intros H fs n _. by exists a, n, d. Qed.

Lemma cwp_bind {A C} (m : step A) (f : A -> step C) Q d : cwp m (λ a, cwp (f a) Q) d -> cwp (m ≫= f) Q d.
Proof.
  intros H fs n Hc. destruct (H fs n Hc) as (a & k & d1 & E & Hk & H1). destruct (H1 fs k (calm_le _ _ _ Hc Hk)) as (b & j & d2 & E2 & Hj & H2). exists b, j, d2. split_and!; [|lia|done]. unfold mbind, step_bind. by rewrite E.
Qed.

Lemma cwp_conseq {A} (m : step A) (Q Q' : A -> device -> Prop) d : cwp m Q d -> (forall a d', Q a d' -> Q' a d') -> cwp m Q' d.
Proof. intros H HQ fs n Hc. destruct (H fs n Hc) as (a & k & d' & E & Hk & H'). exists a, k, d'. auto. Qed.

Lemma cwp_get {A} (m : step (option A)) e (Q : A -> device -> Prop) d : cwp m (λ r d', exists a, r = Some a /\ Q a d') d -> cwp (get m e) Q d.
Proof. intros H. unfold get. apply cwp_bind. eapply cwp_conseq; [exact H|]. intros r d' (a & -> & Ha). by apply cwp_ret. Qed.

Lemma cwp_check (m : step bool) e (Q : unit -> device -> Prop) d : cwp m (λ r d', r = true /\ Q tt d') d -> cwp (check m e) Q d.
Proof. intros H. unfold check. apply cwp_bind. eapply cwp_conseq; [exact H|]. intros r d' [-> Ha]. by apply cwp_ret. Qed.

Section Calm.

Context (ram0 ram1 : device) (block_size base : Z).

Lemma cwp_read v lba count (Q : option bytes -> device -> Prop) d :
  Q (Some (dev_read (dev_of ram0 ram1 v d) (place block_size base v lba) (Z.to_nat (count * unit_of block_size v)))) d -> cwp (li_read ram0 ram1 block_size base v lba count) Q d.
Proof. intros H fs n Hc. unfold li_read. rewrite (Hc n) by lia. eexists _, _, _. split; [reflexivity|]. split; [lia|done]. Qed.

Lemma cwp_write v lba buf (Q : bool -> device -> Prop) d : Q true (dev_write d (place block_size base v lba) buf) -> cwp (li_write block_size base v lba buf) Q d.
Proof. intros H fs n Hc. unfold li_write. rewrite (Hc n) by lia. eexists _, _, _. split; [reflexivity|]. split; [lia|done]. Qed.

(** ** Sectors of the same size *)

Lemma dev_write_inside d off d' off' len i : 0 <= i < Z.of_nat len -> dev_write d off (dev_read d' off' len) (off + i) = d' (off' + i).
Proof.
  intros Hi. unfold dev_write. rewrite dev_read_length, (proj2 (Z.leb_le _ _)), (proj2 (Z.ltb_lt _ _)) by lia. cbn [andb]. unfold byte_at. rewrite dev_read_lookup by lia. cbn. f_equal. rewrite Z2Nat.id by lia. lia.
Qed.

Lemma copy_512b_calm fuel count k d : 0 <= k -> count - k <= Z.of_nat fuel ->
  cwp (copy_512b ram0 ram1 block_size base fuel Ramdisk0 Root count k) (λ _ d', (forall a, k * 512 <= a < count * 512 -> d' (base + a) = ram0 a) /\ forall a, a < base + k * 512 -> d' a = d a) d.
Proof.
  revert k d. induction fuel as [|fuel IH]; intros k d Hk Hf; cbn [copy_512b]; (destruct (Z.leb_spec count k) as [|Hlt]; [apply cwp_ret; split; [intros; lia|done]|]); [lia|].
  pose proof (chunk_bounds count k Hlt) as Hc. cbv zeta in *. set (c := if max_chunk <? count - k then max_chunk else count - k) in *. clearbody c.
  apply cwp_bind, cwp_get, cwp_read. eexists. split; [reflexivity|]. apply cwp_bind, cwp_check, cwp_write. split; [done|]. rewrite place_root. unfold place. cbn [start_of unit_of dev_of]. unfold RAM_BLOCK_SIZE.
  eapply cwp_conseq; [apply (IH (k + c)); lia|]. intros [] d2 [H1 H2]. split.
  - intros a Ha. destruct (Z.lt_ge_cases a ((k + c) * 512)) as [Hlo|]; [|apply H1; lia]. rewrite H2 by lia. replace (base + a) with (base + k * 512 + (a - k * 512)) by lia. rewrite dev_write_inside by lia. f_equal. lia.
  - intros a Ha. rewrite H2 by lia. apply dev_write_outside. lia.
Qed.

Lemma verify_512b_calm fuel count k d : 0 <= k -> count - k <= Z.of_nat fuel -> (forall a, 0 <= a < count * 512 -> d (base + a) = ram0 a) ->
  cwp (verify_512b ram0 ram1 block_size base fuel Ramdisk0 Root count k) (λ _ d', d' = d) d.
Proof.
  intros Hk Hf Hd. revert k Hk Hf. induction fuel as [|fuel IH]; intros k Hk Hf; cbn [verify_512b]; (destruct (Z.leb_spec count k) as [|Hlt]; [by apply cwp_ret|]); [lia|].
  pose proof (chunk_bounds count k Hlt) as Hc. cbv zeta in *. set (c := if max_chunk <? count - k then max_chunk else count - k) in *. clearbody c.
  apply cwp_bind, cwp_get, cwp_read. eexists. split; [reflexivity|]. apply cwp_bind, cwp_get, cwp_read. eexists. split; [reflexivity|]. rewrite place_root. unfold place. cbn [start_of unit_of dev_of]. unfold RAM_BLOCK_SIZE.
  replace (dev_read d (base + k * 512) (Z.to_nat (c * 512))) with (dev_read ram0 (0 + k * 512) (Z.to_nat (c * 512))); [rewrite beq_refl; cbn [negb]; apply IH; lia|].
  rewrite <- (window_read base). apply dev_read_ext. intros a Ha. unfold window. by rewrite Hd by lia.
Qed.

(** ** Sectors of another size *)

Hypothesis sizes : block_size ∈ Gpt.block_sizes.

(** What transfer [i] writes. *)
Definition xfer_data (count i : Z) : bytes := into_zeroes (dev_read ram1 (i * 65536) (Z.to_nat (s_count count i * 512))).

Lemma xfer_length count i : xfer_ok count i -> length (xfer_data count i) = Z.to_nat XFER_BYTES.
Proof. intros H. pose proof (s_count_bounds count i H). apply length_into_zeroes. rewrite dev_read_length. unfold XFER_BYTES. lia. Qed.

Lemma native_src i : place block_size base Ramdisk1 (i * src_per_xfer) = i * 65536.
Proof. unfold place, src_per_xfer. cbn [start_of unit_of]. unfold RAM_BLOCK_SIZE. change (XFER_BYTES / 512) with 128. lia. Qed.

Lemma native_write_region d i buf j : length buf = Z.to_nat XFER_BYTES -> i <> j ->
  dev_read (dev_write d (1048576 + i * 65536) buf) (1048576 + j * 65536) (Z.to_nat XFER_BYTES) = dev_read d (1048576 + j * 65536) (Z.to_nat XFER_BYTES).
Proof. intros Hl Hn. apply dev_read_write_ne. rewrite Hl. unfold XFER_BYTES. lia. Qed.

Lemma copy_native_calm xfers count d : NoDup xfers -> Forall (xfer_ok count) xfers ->
  cwp (copy_to_native ram0 ram1 block_size base xfers Ramdisk1 Raw count (Gpt.ESP_ALIGN_BYTES / block_size))
    (λ _ d', Forall (λ i, dev_read d' (1048576 + i * 65536) (Z.to_nat XFER_BYTES) = xfer_data count i) xfers /\
       forall j, j ∉ xfers -> dev_read d' (1048576 + j * 65536) (Z.to_nat XFER_BYTES) = dev_read d (1048576 + j * 65536) (Z.to_nat XFER_BYTES)) d.
Proof.
  intros Hn Hx. revert d. induction Hx as [|i xfers Hi _ IH]; intros d; cbn [copy_to_native]; [by apply cwp_ret|]. apply NoDup_cons in Hn as [Hni Hn].
  apply cwp_bind, cwp_get, cwp_read. eexists. split; [reflexivity|]. apply cwp_bind, cwp_check, cwp_write. split; [done|]. rewrite (place_native block_size base sizes), native_src, (proj1 (native_units block_size sizes)). cbn [dev_of unit_of]. unfold RAM_BLOCK_SIZE. fold (xfer_data count i).
  change (Z.to_nat 65536) with (Z.to_nat XFER_BYTES). rewrite take_ge by (rewrite xfer_length by done; lia). eapply cwp_conseq; [by apply IH|]. intros [] d2 [H1 H2]. split.
  - constructor; [|done]. rewrite H2 by done. rewrite <- (xfer_length count i Hi). apply dev_read_write.
  - intros j Hj. apply not_elem_of_cons in Hj as [Hij Hj]. rewrite H2 by done. apply native_write_region; [by apply xfer_length|done].
Qed.

Lemma verify_native_calm xfers count d buf : length buf = Z.to_nat XFER_BYTES -> Forall (xfer_ok count) xfers -> Forall (λ i, dev_read d (1048576 + i * 65536) (Z.to_nat XFER_BYTES) = xfer_data count i) xfers ->
  cwp (verify_to_native ram0 ram1 block_size base xfers Ramdisk1 Raw count (Gpt.ESP_ALIGN_BYTES / block_size) buf) (λ _ d', d' = d) d.
Proof.
  intros Hb Hx. revert buf Hb. induction Hx as [|i xfers Hi _ IH]; intros buf Hb Hd; cbn [verify_to_native]; [by apply cwp_ret|]. apply Forall_cons in Hd as [Hd Hds].
  apply cwp_bind, cwp_get, cwp_read. eexists. split; [reflexivity|]. apply cwp_bind, cwp_get, cwp_read. eexists. split; [reflexivity|]. rewrite (place_native block_size base sizes), native_src. cbn [dev_of unit_of]. rewrite (proj1 (native_units block_size sizes)). unfold RAM_BLOCK_SIZE. fold (xfer_data count i).
  change (Z.to_nat 65536) with (Z.to_nat XFER_BYTES). rewrite dev_read_length, (drop_ge buf), app_nil_r, Hd, beq_refl by lia. cbn [negb]. apply IH; [by apply xfer_length|done].
Qed.

Lemma copy_esp_calm devs d : count_of (B "ramdisk1") devs <> 0 -> cwp (install_copy_esp ram0 ram1 block_size base devs) (λ _ _, True) d.
Proof.
  intros Hn. unfold install_copy_esp. rewrite (proj2 (Z.eqb_neq _ _)) by done. cbv zeta. set (count := if _ <? _ then _ else _). apply cwp_bind. eapply cwp_conseq; [apply copy_native_calm; [apply NoDup_seqZ|apply xfers_ok]|].
  intros [] d1 [H1 _]. eapply cwp_conseq; [apply verify_native_calm; [apply repeat_length|apply xfers_ok|done]|done].
Qed.

(** ** The encrypted partition *)

Context (cbcenc cbcdec : bytes -> bytes -> bytes -> bytes) (hmac : bytes -> bytes -> bytes).
Hypothesis cbcenc_block : forall key iv b, length b = 16%nat -> length (cbcenc key iv b) = 16%nat /\ Forall is_byte (cbcenc key iv b).
Hypothesis cbcdec_block : forall key iv b, length b = 16%nat -> length (cbcdec key iv b) = 16%nat /\ Forall is_byte (cbcdec key iv b).
Hypothesis cbc_inverse : forall key iv b, Forall is_byte b -> length b = 16%nat -> cbcdec key iv (cbcenc key iv b) = b.
Hypothesis cbc_inverse' : forall key iv b, Forall is_byte b -> length b = 16%nat -> cbcenc key iv (cbcdec key iv b) = b.
Hypothesis ram0_ok : dev_ok ram0.

Lemma window_write d off buf : forall a, window (dev_write d (base + off) buf) base a = dev_write (window d base) off buf a.
Proof.
  intros a. unfold window, dev_write. replace (base + off <=? base + a) with (off <=? a) by (destruct (Z.leb_spec off a), (Z.leb_spec (base + off) (base + a)); done || lia).
  replace (base + a <? base + off + Z.of_nat (length buf)) with (a <? off + Z.of_nat (length buf)) by (destruct (Z.ltb_spec a (off + Z.of_nat (length buf))), (Z.ltb_spec (base + a) (base + off + Z.of_nat (length buf))); done || lia).
  case_if; [|done]. do 2 f_equal. lia.
Qed.

Lemma crypt_copy_calm fuel x count k d : 0 <= k -> count - k <= Z.of_nat fuel ->
  cwp (crypt_copy_verify ram0 ram1 block_size base cbcenc cbcdec fuel x count k) (λ _ d', forall a, a < base + (k + 8) * 512 -> d' a = d a) d.
Proof.
  revert k d. induction fuel as [|fuel IH]; intros k d Hk Hf; cbn [crypt_copy_verify]; (destruct (Z.leb_spec count k) as [|Hlt]; [by apply cwp_ret|]); [lia|].
  pose proof (chunk_bounds count k Hlt) as Hc. cbv zeta in *. set (c := if max_chunk <? count - k then max_chunk else count - k) in *. clearbody c.
  apply cwp_bind, cwp_get, cwp_read. eexists. split; [reflexivity|]. unfold place. cbn [start_of unit_of dev_of]. unfold RAM_BLOCK_SIZE. replace (Z.to_nat (c * 512)) with (512 * Z.to_nat c)%nat by lia. set (plain := dev_read ram0 (0 + k * 512) (512 * Z.to_nat c)).
  assert (Hp : length plain = (512 * Z.to_nat c)%nat) by apply dev_read_length. assert (Hpb : Forall is_byte plain) by (by apply dev_read_byte).
  unfold root_write, crypt_write. change (XFER_BYTES / RAM_BLOCK_SIZE) with 128. rewrite (proj2 (Z.ltb_ge 128 c)) by lia. apply cwp_bind, cwp_check, cwp_write. split; [done|]. rewrite place_root. set (cipher := crypt_sectors cbcenc cbcdec (Z.to_nat c) x k plain true).
  set (d1 := dev_write d (base + (k + CRYPT_HEADER_SECTORS) * 512) cipher). apply cwp_bind, cwp_get. unfold root_read, crypt_read. apply cwp_bind, cwp_read, cwp_ret. eexists. split; [reflexivity|]. rewrite place_root. cbn [dev_of unit_of]. unfold RAM_BLOCK_SIZE. replace (Z.to_nat (c * 512)) with (512 * Z.to_nat c)%nat by lia.
  assert (Hcl : length cipher = (512 * Z.to_nat c)%nat) by (by apply crypt_sectors_length).
  assert (Hback : crypt_sectors cbcenc cbcdec (Z.to_nat c) x k (dev_read d1 (base + (k + CRYPT_HEADER_SECTORS) * 512) (512 * Z.to_nat c)) false = plain).
  { rewrite <- (window_read base), <- view_sectors by done. rewrite <- (dev_read_write (crypt_view cbcenc cbcdec x (window d base)) (k * 512) plain) at 1. rewrite Hp. apply dev_read_ext. intros a _.
    rewrite <- (take_ge plain (Z.to_nat c * 512)) by lia. rewrite <- (view_write cbcenc cbcdec cbcenc_block cbcdec_block cbc_inverse cbc_inverse' (Z.to_nat c)) by done. apply view_ext. intros b _. unfold d1. rewrite (take_ge cipher) by lia. apply window_write. }
  rewrite Hback, beq_refl. cbn [negb]. eapply cwp_conseq; [apply (IH (k + c)); lia|]. intros [] d2 H2 a Ha. rewrite H2 by lia. apply dev_write_outside. unfold CRYPT_HEADER_SECTORS. lia.
Qed.

(** C28: A healthy disk is accepted: when all transfers are done, copying and verifying the
    root, plain or encrypted, and the ESP succeed, for every size of sector. *)
Theorem good_copies_accepted devs count x d : 0 <= count -> count_of (B "ramdisk1") devs <> 0 ->
  (exists n d', (_ ← copy_512b ram0 ram1 block_size base (Z.to_nat count) Ramdisk0 Root count 0; verify_512b ram0 ram1 block_size base (Z.to_nat count) Ramdisk0 Root count 0) (λ _, Done) 0%nat d = Fine tt n d') /\
  (exists n d', crypt_copy_verify ram0 ram1 block_size base cbcenc cbcdec (Z.to_nat count) x count 0 (λ _, Done) 0%nat d = Fine tt n d') /\
  (exists n d', install_copy_esp ram0 ram1 block_size base devs (λ _, Done) 0%nat d = Fine tt n d').
Proof.
  intros Hc Hn. assert (Hcalm : calm (λ _, Done) 0) by done.
  assert (H : forall (m : step unit) (Q : unit -> device -> Prop), cwp m Q d -> exists n d', m (λ _, Done) 0%nat d = Fine tt n d') by (intros m Q H; destruct (H _ _ Hcalm) as ([] & n & d' & E & _); by exists n, d').
  split_and!; [|eapply H; apply crypt_copy_calm; lia|eapply H; by apply copy_esp_calm]. apply (H _ (λ _ _, True)), cwp_bind. eapply cwp_conseq; [apply copy_512b_calm; lia|]. intros [] d1 [H1 _]. eapply cwp_conseq; [by apply verify_512b_calm; lia || done|done].
Qed.

(** The header of the encrypted partition is written and not read back, although the
    comment at [verify_512b] says why it would have to be: when storing it goes wrong
    without a report, the salt and with it the key are lost, and the copy succeeds. *)
Theorem header_not_verified random salt password count spoilt fs d : random = Some salt -> length salt = 16%nat -> (forall key msg, length (hmac key msg) = 32%nat) -> 0 <= count ->
  fs 0%nat = Silent spoilt -> calm fs 1 ->
  exists n d', (x ← crypt_setup block_size base hmac random password; crypt_copy_verify ram0 ram1 block_size base cbcenc cbcdec (Z.to_nat count) x count 0) fs 0%nat d = Fine tt n d' /\
    forall a, 0 <= a < 4096 -> d' (base + a) = spoilt (base + a).
Proof.
  intros -> Hs Hh Hc Hf Hcalm. unfold mbind, step_bind, crypt_setup, check, mbind, step_bind, li_write. rewrite Hf. cbn [mret step_ret]. rewrite place_root, crypt_header_length by done.
  match goal with |- context [crypt_copy_verify _ _ _ _ _ _ _ ?x _ _ _ _ ?d1] => destruct (crypt_copy_calm (Z.to_nat count) x count 0 d1 ltac:(lia) ltac:(lia) fs 1%nat Hcalm) as ([] & n & d' & E & _ & H) end.
  exists n, d'. split; [exact E|]. intros a Ha. rewrite H by lia. replace (base + 0 * 512) with base by lia. by rewrite dev_write_inside by lia.
Qed.

End Calm.
