(* ===== verification/InstallCases.v ===== *)
(** Concrete installations. *)

From S2P Require Import Prelude CString Posix BlockDev Ext2Disk Ext2Grow Accounts CryptRoot InstallCopy InstallCopySafety InstallSafety InstallCalm.
From S2P Require Gpt.
Local Open Scope Z_scope.

(** A cipher that inverts every bit, and a constant HMAC. *)
Definition flip_bits (key iv b : bytes) : bytes := (λ c, u8 (255 - c)) <$> b.
Definition const_hmac (key msg : bytes) : bytes := repeat 7 32.

Lemma flip_block key iv b : length b = 16%nat -> length (flip_bits key iv b) = 16%nat /\ Forall is_byte (flip_bits key iv b).
Proof. intros H. unfold flip_bits. rewrite length_fmap. split; [done|]. apply Forall_fmap, Forall_true. intros c. apply u8_range. Qed.

Lemma flip_inverse key iv b : Forall is_byte b -> length b = 16%nat -> flip_bits key iv (flip_bits key iv b) = b.
Proof.
  intros H _. unfold flip_bits. rewrite <- list_fmap_compose. induction H as [|c b Hc _ IH]; [done|]. cbn. f_equal; [|exact IH]. unfold is_byte in Hc. unfold u8. rewrite (Z.mod_small (255 - c)) by lia. rewrite Z.mod_small by lia. lia.
Qed.

Definition demo_keys : install_xts_ctx_t := Xts (repeat 1 32) (repeat 2 32).

(** The carry out of the top bit. *)
Example mulx_carry : mulx (repeat 0 15 ++ [128]) = 0x87 :: repeat 0 15.
Proof. reflexivity. Qed.

Lemma install_xts_is_xts_witness : let data := repeat 5 40 in
  let out := install_xts flip_bits flip_bits demo_keys data 9 true in
  let T := xts_tweak (aes_enc flip_bits) (repeat 2 32) 9 in
  (forall j, (j < 2)%nat -> slice (16 * j) 16 out = xor_bytes (aes_enc flip_bits (repeat 1 32) (xor_bytes (slice (16 * j) 16 data) (T j))) (T j)) /\
  drop 32 out = drop 32 data /\ length out = 40%nat /\ install_xts flip_bits flip_bits demo_keys out 9 false = data.
Proof.
  cbv zeta. refine (install_xts_is_xts flip_bits flip_bits flip_block flip_block flip_inverse flip_inverse demo_keys (repeat 5 40) 9 true _ _); [lia|]. repeat constructor; unfold is_byte; lia.
Defined.

Lemma pbkdf2_is_rfc8018_witness : install_pbkdf2 const_hmac (B "secret") (repeat 3 16) 4 = rfc8018_T const_hmac (B "secret") (repeat 3 16) 4 1 ++ rfc8018_T const_hmac (B "secret") (repeat 3 16) 4 2.
Proof. apply (pbkdf2_is_rfc8018 const_hmac (B "secret") (repeat 3 16) 4). lia. Defined.

Definition blank : device := λ _, 0.
Lemma blank_ok : dev_ok blank.
Proof. intros a. unfold is_byte, blank. lia. Qed.

(** The second transfer of a program fails after one sector. *)
Definition second_fails (n : nat) : verdict := match n with 1%nat => DFail 1 | _ => DOk end.

Lemma crypt_io_refines_witness :
  same_io flip_bits flip_bits demo_keys blank (crypt_write flip_bits flip_bits io_write demo_keys 3 2 (repeat 9 1024) second_fails 1%nat blank) (io_write 3 (repeat 9 1024) second_fails 1%nat (crypt_view flip_bits flip_bits demo_keys blank)) /\
  same_io flip_bits flip_bits demo_keys blank (crypt_read flip_bits flip_bits io_read demo_keys 3 2 second_fails 1%nat blank) (io_read 3 2 second_fails 1%nat (crypt_view flip_bits flip_bits demo_keys blank)).
Proof.
  apply (crypt_io_refines flip_bits flip_bits flip_block flip_block flip_inverse flip_inverse demo_keys blank 3 2 (repeat 9 1024) second_fails 1%nat blank_ok); [|lia|lia|by rewrite repeat_length].
  apply Forall_forall. intros c Hc. apply elem_of_replicate in Hc as [-> _] || (apply list_elem_of_In, repeat_spec in Hc as ->). unfold is_byte. lia.
Defined.

(** A disk of 10 MiB, whose root partition has 2015 sectors. *)
Definition demo_devs : list install_blkdev_t := [Blkdev (B "ramdisk0") 200; Blkdev (B "ramdisk1") 300; Blkdev (B "nvme0") 20480; Blkdev (B "nvme0p1") 2015].
Definition nobody : live := Live (Etc (Files None None None None) [] 0) [B "/bin/pty_test"; B "/bin/ls"].
Definition demo_run : run_result :=
  install_run_all (λ _, true) (λ _, true) (λ _, 1) (λ _, demo_devs) (λ _ _, 9437184) (λ _, blank) blank (λ _, FOk) (λ _, Done) (λ _, DOk) flip_bits flip_bits const_hmac (Some (repeat 3 16))
    (Some (B "nvme0")) 20480 512 (Some (B "ada")) (Some (B "x")) None (Some (B "secret")) nobody blank.

Lemma demo_room : (512 : Z) ∈ Gpt.block_sizes /\ 20480 < 2 ^ 63 /\ 9 * 1024 * 1024 + 2 * 16384 < 20480 * 512.
Proof. split; [by left|lia]. Qed.


Lemma good_copies_accepted_witness :
  (exists n d', (_ ← copy_512b blank blank 4096 9437184 (Z.to_nat 200) Ramdisk0 Root 200 0; verify_512b blank blank 4096 9437184 (Z.to_nat 200) Ramdisk0 Root 200 0) (λ _, Done) 0%nat blank = Fine tt n d') /\
  (exists n d', crypt_copy_verify blank blank 4096 9437184 flip_bits flip_bits (Z.to_nat 200) demo_keys 200 0 (λ _, Done) 0%nat blank = Fine tt n d') /\
  (exists n d', install_copy_esp blank blank 4096 9437184 demo_devs (λ _, Done) 0%nat blank = Fine tt n d').
Proof.
  apply (good_copies_accepted blank blank 4096 9437184 ltac:(by do 3 right; left) flip_bits flip_bits flip_block flip_block flip_inverse flip_inverse blank_ok demo_devs 200 demo_keys blank); [lia|]. by lazy.
Defined.
