(* ===== verification/LoricaRecover.v ===== *)
(** The recovery program (src/user/bin/lorica-recover/main.c): choosing a partition,
    unlocking it, checking and repairing its file system.

    The keyboard is a list of bytes.  The disk is the chosen partition; an encrypted one
    is seen through the transport of [InstallCopy], which [crypt_io_refines] shows to be
    what [disk_io] does to it. *)

From S2P Require Import Prelude CString Posix BlockDev Ext2Repair CryptRoot InstallCopy.
Local Open Scope Z_scope.

(** * Definitions *)

Definition MAX_DEVS : nat := 16.

Record blkdev_t := RBlkdev { rb_name : bytes; rb_count : Z; rb_size : Z }.

(** strrchr(name, 'p') and the character after it. *)
Definition is_partition (name : bytes) : bool :=
  has_char 112 name &&
  match rev (take_while (not_c 112) (rev name)) with c :: _ => (48 <=? c) && (c <=? 57) | [] => false end.

(** The first character of the line, and what follows the line. *)
Definition read_choice (input : bytes) : Z * bytes :=
  match cut LF input with
  | Some (line, rest) => (match line with c :: _ => c | [] => LF end, rest)
  | None => (match input with c :: _ => c | [] => LF end, [])
  end.

(** /proc/cmdline, if it can be read. *)
Definition automatic_test (cmdline : option bytes) : bool :=
  match cmdline with Some text => contains (B "recovery_auto") (cstr (take 255 text)) | None => false end.

(** The list of devices, if the kernel gives one. *)
Definition choose_target (devs : option (list blkdev_t)) (input : bytes) : option blkdev_t * bytes :=
  match devs with
  | None => (None, input)
  | Some devs =>
      match List.filter (λ b, is_partition (rb_name b) && (rb_size b =? 512)) (take MAX_DEVS devs) with
      | [] => (None, input)
      | [b] => (Some b, input)
      | parts =>
          let '(c, input) := read_choice input in
          let choice := c - 48 in
          if (choice <? 1) || (Z.of_nat (length parts) <? choice) then (None, input) else (parts !! Z.to_nat (choice - 1), input)
      end
  end.

(** The comparison of two verifiers, without an early exit. *)
Definition equal (a b : bytes) : bool := foldl Z.lor 0 (xor_bytes (take 32 a) (take 32 b)) =? 0.

Inductive unlock := Plain | Unlocked (x : install_xts_ctx_t) | Locked.

(** How the program ends; [reboot] is whether the machine is restarted. *)
Inductive recovery :=
  | Reexecuted | NoTarget | CouldNotUnlock | Unsafe (e : rerror) | Clean (rep : report) (reboot : bool)
  | NoChanges | RepairFailed (e : rerror) | Repaired (rep : report) (reboot : bool).

Section Recover.

Context (cbcenc cbcdec : bytes -> bytes -> bytes -> bytes) (hmac : bytes -> bytes -> bytes).

Definition header_rounds (h : bytes) : Z := rd32 h 16.

Fixpoint try_passphrases (tries : nat) (h : bytes) (input : bytes) : unlock * bytes :=
  match tries with
  | O => (Locked, input)
  | S tries =>
      match fgets 128 input with
      | None => (Locked, input)
      | Some (line, input) =>
          let pw := take_while (λ c, not_c CR c && not_c LF c) (cstr line) in
          let key := install_pbkdf2 hmac pw (slice 20 16 h) (header_rounds h) in
          if equal (install_key_verifier hmac key) (drop 36 h) then (Unlocked (install_xts_init key), input)
          else try_passphrases tries h input
      end
  end.

Definition unlock_target (input : bytes) : io (unlock * bytes) :=
  r ← io_read 0 8;
  match r with
  | None => mret (Plain, input)
  | Some h =>
      if negb (beq (take 8 h) (B "LORICRY1")) then mret (Plain, input) else
      if negb (rd32 h 8 =? 1) || negb (rd32 h 12 =? 8) || (header_rounds h <? 10000) || (2000000 <? header_rounds h) then mret (Locked, input) else
      mret (try_passphrases 3 h input)
  end.

(** A run of [ext2_repair] over [disk_io]. *)
Definition through {A} (u : unlock) (m : io A) : io A :=
  match u with
  | Unlocked x => λ v n w,
      match m v n (crypt_view cbcenc cbcdec x w) with
      | Val a n p => Val a n (crypt_store cbcenc cbcdec x w p)
      | Stopped p => Stopped (crypt_store cbcenc cbcdec x w p)
      | OutOfBounds => OutOfBounds
      end
  | _ => m
  end.

(** What the first part of [main] decides: an end, or to repair. *)
Inductive decision := End (r : recovery) | GoAhead (u : unlock) (sectors : Z) (input : bytes).

(** Unless it runs without a user, the program asks whether to restart. *)
Definition ask_reboot (automatic : bool) (input : bytes) : bool := negb automatic && (fst (read_choice input) =? 114).

(** [memory]: whether the allocations of a run succeed. *)
Definition recover_check (authorized automatic memory : bool) (devs : option (list blkdev_t)) (input : bytes) : io decision :=
  if negb authorized then mret (End Reexecuted) else
  let '(target, input) := choose_target devs input in
  match target with
  | None => mret (End NoTarget)
  | Some t =>
      r ← unlock_target input;
      let '(u, input) := r in
      match u with
      | Locked => mret (End CouldNotUnlock)
      | _ =>
          let sectors := match u with Unlocked _ => u64 (rb_count t - 8) | _ => rb_count t end in
          r ← through u (ext2_repair sectors false memory);
          match r with
          | inr e => mret (End (Unsafe e))
          | inl (needs, rep) =>
              if negb needs then mret (End (Clean rep (ask_reboot automatic input))) else
              let '(answer, input) := if automatic then (121, input) else read_choice input in
              if negb (answer =? 121) && negb (answer =? 89) then mret (End NoChanges) else mret (GoAhead u sectors input)
          end
      end
  end.

Definition main (authorized : bool) (cmdline : option bytes) (memory memory' : bool) (devs : option (list blkdev_t)) (input : bytes) : io recovery :=
  let automatic := automatic_test cmdline in
  r ← recover_check authorized automatic memory devs input;
  match r with
  | End r => mret r
  | GoAhead u sectors input =>
      r ← through u (ext2_repair sectors true memory');
      match r with
      | inr e => mret (RepairFailed e)
      | inl (_, rep) => mret (Repaired rep (ask_reboot automatic input))
      end
  end.

End Recover.
