(* ===== verification/LoricaRecoverSafety.v ===== *)
(** The recovery program unlocks what the installer encrypted, and writes nothing
    without consent. *)

From S2P Require Import Prelude CString Posix PosixLogic BlockDev Ext2Disk Ext2Repair Ext2RepairLogic Ext2RepairScan Ext2RepairFix Ext2RepairSafety.
From S2P Require Import CryptRoot InstallCopy InstallCopySafety InstallSafety InstallCases LoricaRecover.
Local Open Scope Z_scope.

(** * The header *)

Lemma drop_repeat {A} (x : A) n m : drop m (repeat x n) = repeat x (n - m).
Proof. revert m. induction n as [|n IH]; intros [|m]; cbn; [done..|apply IH]. Qed.

Lemma splice_zeroes p n bs : splice (length p) bs (p ++ repeat 0 n) = (p ++ bs) ++ repeat 0 (n - length bs).
Proof.
  unfold splice. rewrite take_app_length. rewrite <- app_assoc. do 2 f_equal. rewrite <- (drop_drop _ _ (length p)), drop_app_length. apply drop_repeat.
Qed.

Section Unlocking.

Context (hmac : bytes -> bytes -> bytes).
Hypothesis hmac_length : forall key msg, length (hmac key msg) = 32%nat.

Lemma crypt_header_app salt key : length salt = 16%nat ->
  crypt_header hmac salt key = ((((B "LORICRY1" ++ le_bytes 4 1) ++ le_bytes 4 8) ++ le_bytes 4 CRYPT_PBKDF2_ROUNDS) ++ salt) ++ install_key_verifier hmac key ++ repeat 0 4028.
Proof.
  intros Hs. unfold crypt_header. change (Z.to_nat (CRYPT_HEADER_SECTORS * RAM_BLOCK_SIZE)) with 4096%nat. change CRYPT_HEADER_SECTORS with 8.
  change (splice 0 (B "LORICRY1") (repeat 0 4096)) with (splice (length (@nil Z)) (B "LORICRY1") ([] ++ repeat 0 4096)). rewrite splice_zeroes.
  rewrite (splice_zeroes (B "LORICRY1") _ (le_bytes 4 1)) by done. rewrite (splice_zeroes (B "LORICRY1" ++ le_bytes 4 1) _ (le_bytes 4 8)). rewrite (splice_zeroes ((B "LORICRY1" ++ le_bytes 4 1) ++ le_bytes 4 8) _ (le_bytes 4 CRYPT_PBKDF2_ROUNDS)).
  rewrite (splice_zeroes (((B "LORICRY1" ++ le_bytes 4 1) ++ le_bytes 4 8) ++ le_bytes 4 CRYPT_PBKDF2_ROUNDS) _ salt).
  set (p := ((((B "LORICRY1" ++ le_bytes 4 1) ++ le_bytes 4 8) ++ le_bytes 4 CRYPT_PBKDF2_ROUNDS) ++ salt)). assert (Hp : length p = 36%nat) by (unfold p; rewrite length_app, Hs; done).
  rewrite <- Hp, splice_zeroes, Hs. unfold install_key_verifier. rewrite hmac_length. by rewrite <- app_assoc.
Qed.

Lemma equal_refl a : equal a a = true.
Proof.
  unfold equal. generalize (take 32 a). intros l. apply Z.eqb_eq. induction l as [|c l IH]; [done|]. cbn. by rewrite Z.lxor_nilpotent.
Qed.

Lemma equal_prefix a r : length a = 32%nat -> equal a (a ++ r) = true.
Proof. intros H. unfold equal. rewrite take_app_le, take_ge by lia. pose proof (equal_refl a) as E. unfold equal in E. by rewrite take_ge in E by lia. Qed.

Lemma passphrase_line pw : NUL ∉ pw -> CR ∉ pw -> LF ∉ pw -> take_while (λ c, not_c CR c && not_c LF c) (cstr (pw ++ [LF])) = pw.
Proof.
  intros Hn Hc Hl. rewrite cstr_id by (intros [H|H%list_elem_of_singleton]%elem_of_app; [done|unfold NUL, LF in H; lia]). unfold take_while. induction pw as [|c pw IH]; [done|]. rewrite not_elem_of_cons in *. cbn [app span].
  destruct Hn, Hc, Hl. assert (E : not_c CR c && not_c LF c = true) by (unfold not_c; rewrite andb_true_iff, !negb_true_iff, !Z.eqb_neq; split; congruence). rewrite E. specialize (IH ltac:(done) ltac:(done) ltac:(done)). destruct (span _ (pw ++ [LF])) as [a b]. cbn in *. by rewrite IH.
Qed.

(** C11: What the installer encrypted can be unlocked: on a partition with the header that
    [crypt_setup] writes for a passphrase, typing the passphrase gives the keys the
    file system was encrypted with, on the first try and from one line. *)
Theorem unlock_roundtrip pw salt rest v n w : length salt = 16%nat -> NUL ∉ pw -> CR ∉ pw -> LF ∉ pw -> (length pw < 127)%nat ->
  dev_read w 0 4096 = crypt_header hmac salt (install_pbkdf2 hmac pw salt CRYPT_PBKDF2_ROUNDS) -> v n = DOk ->
  unlock_target hmac (pw ++ LF :: rest) v n w = Val (Unlocked (root_key hmac (Some salt) pw), rest) (S n) w.
Proof.
  intros Hs Hn Hc Hl Hlen Hh Hv. unfold unlock_target, mbind, io_bind, io_read, SECTOR_SIZE. rewrite Hv. change (0 * 512) with 0. change (Z.to_nat (8 * 512)) with 4096%nat. rewrite Hh, crypt_header_app by done.
  set (key := install_pbkdf2 hmac pw salt CRYPT_PBKDF2_ROUNDS). set (tail := install_key_verifier hmac key ++ repeat 0 4028). set (front := ((B "LORICRY1" ++ le_bytes 4 1) ++ le_bytes 4 8) ++ le_bytes 4 CRYPT_PBKDF2_ROUNDS).
  assert (Hf : length front = 20%nat) by done. assert (Hsl : forall off len, (off + len <= 20)%nat -> slice off len ((front ++ salt) ++ tail) = slice off len front).
  { intros off len Ho. unfold slice. rewrite <- app_assoc, drop_app_le, take_app_le by (rewrite ?length_drop; lia). done. }
  assert (E0 : take 8 ((front ++ salt) ++ tail) = B "LORICRY1") by (exact (Hsl 0%nat 8%nat ltac:(lia))). rewrite E0, beq_refl. cbn [negb]. unfold header_rounds, rd32. rewrite !Hsl by lia.
  change (le_value (slice 8 4 front)) with 1. change (le_value (slice 12 4 front)) with 8. change (le_value (slice 16 4 front)) with CRYPT_PBKDF2_ROUNDS. cbn [Z.eqb negb orb Z.ltb]. change (CRYPT_PBKDF2_ROUNDS <? 10000) with false. change (2000000 <? CRYPT_PBKDF2_ROUNDS) with false. cbn [orb Pos.eqb negb].
  unfold mret, io_ret. f_equal. cbn [try_passphrases]. assert (Hg : fgets 128 (pw ++ LF :: rest) = Some (pw ++ [LF], rest)) by (unfold fgets; rewrite fgets_take_line by (done || lia); by destruct pw). rewrite Hg, passphrase_line by done.
  assert (E1 : slice 20 16 ((front ++ salt) ++ tail) = salt) by (rewrite <- app_assoc, <- Hf, <- Hs; apply slice_mid). unfold header_rounds, rd32. rewrite E1, Hsl by lia. change (le_value (slice 16 4 front)) with CRYPT_PBKDF2_ROUNDS. fold key.
  assert (E2 : drop 36 ((front ++ salt) ++ tail) = tail) by (apply drop_app_length'; rewrite length_app, Hs; done). rewrite E2. unfold tail. rewrite equal_prefix by apply hmac_length. done.
Qed.

End Unlocking.

(** * Checking *)

(** A run of [ext2_repair] that only checks writes nothing. *)
Lemma check_only sectors memory d0 v n : dev_ok d0 -> disk_after (ext2_repair sectors false memory v n d0) (λ d, d = d0).
Proof.
  intros Hd. set (ly := layout_of sectors (super_of d0)). unfold ext2_repair. destruct (_ || _); [done|]. unfold mbind, io_bind, io_read. destruct (v n); [|done|done].
  change (dev_read d0 (2 * SECTOR_SIZE) (Z.to_nat (2 * SECTOR_SIZE))) with (super_of d0). destruct (negb (supported_fs _)); [done|]. fold ly.
  destruct (layout_ok ly) eqn:E1; cbn [negb]; [|done]. destruct (groups_ok ly) eqn:E2; cbn [negb]; [|done].
  pose proof (layout_lay_ok sectors (super_of d0) (super_bytes d0 Hd) E1 E2) as Hly. fold ly in Hly.
  pose proof (rwp_read_block ly d0 1 (λ g _ d', g = blk d0 1 /\ d' = d0) (Ext2Repair.Repair [] (repeat 0 (Z.to_nat BS)) [] [] [] 0 0 0 0 (repeat 0 (Z.to_nat MAX_GROUPS))) (λ _, conj eq_refl eq_refl) v (S n)) as Hg.
  destruct (read_block ly 1 _ v (S n) d0) as [[[gdt r']|e] n1 d1|d1|]; cbn in Hg; [|by destruct Hg as [-> _]|by destruct Hg as [-> _]|done]. destruct Hg as [Eg ->]. destruct memory; cbn [negb]; [|done].
  assert (Hrun : forall r, fresh ly d0 r -> rwp (check_and_repair ly (super_of d0) false) (λ _ _ d', d' = d0) (λ _ d', d' = d0) r d0).
  { intros r Hfr. assert (Hroc : forall o d', roc d0 o d' -> d' = d0) by (by intros o d' [-> _]). unfold check_and_repair. apply rwp_bind. eapply rwp_conseq; [by apply rwp_scan| |done]. cbn beta. intros _ rS d1 (-> & L & HS).
    apply rwp_bind. eapply rwp_conseq; [apply (rwp_reconcile_false ly d0 rS Hly Hd (so_inv _ _ _ _ HS))| |done]. cbn beta. intros x r1 d1 [-> _]. apply rwp_bind, rwp_mod, rwp_bind, rwp_get. cbn [andb]. by apply rwp_bind, rwp_ret, rwp_bind, rwp_get, rwp_ret. }
  specialize (Hrun _ (initial_fresh sectors d0 gdt Hly Eg) v n1). fold ly in Hrun. destruct (check_and_repair ly (super_of d0) false _ v n1 d0) as [[[[needs rep] r2]|e] n2 d2|d2|]; exact Hrun.
Qed.

Section Consent.

Context (cbcenc cbcdec : bytes -> bytes -> bytes -> bytes) (hmac : bytes -> bytes -> bytes).
Hypothesis cbcenc_block : forall key iv b, length b = 16%nat -> length (cbcenc key iv b) = 16%nat /\ Forall is_byte (cbcenc key iv b).
Hypothesis cbcdec_block : forall key iv b, length b = 16%nat -> length (cbcdec key iv b) = 16%nat /\ Forall is_byte (cbcdec key iv b).
Hypothesis cbc_inverse : forall key iv b, Forall is_byte b -> length b = 16%nat -> cbcdec key iv (cbcenc key iv b) = b.
Hypothesis cbc_inverse' : forall key iv b, Forall is_byte b -> length b = 16%nat -> cbcenc key iv (cbcdec key iv b) = b.

Lemma through_check u sectors memory w v n : dev_ok w -> disk_after (through cbcenc cbcdec u (ext2_repair sectors false memory) v n w) (λ w', forall a, w' a = w a).
Proof.
  intros Hw. destruct u as [|x|]; cbn [through].
  - pose proof (check_only sectors memory w v n Hw) as H. destruct (ext2_repair _ _ _ _ _ _); cbn in *; [by subst..|done].
  - pose proof (check_only sectors memory (crypt_view cbcenc cbcdec x w) v n (view_bytes cbcenc cbcdec cbcenc_block cbcdec_block x w Hw)) as H.
    assert (Hs : forall a, crypt_store cbcenc cbcdec x w (crypt_view cbcenc cbcdec x w) a = w a) by (intros a; symmetry; by apply store_view).
    destruct (ext2_repair _ _ _ _ _ _); cbn in *; [by subst..|done].
  - pose proof (check_only sectors memory w v n Hw) as H. destruct (ext2_repair _ _ _ _ _ _); cbn in *; [by subst..|done].
Qed.


End Consent.

(** * Concrete recoveries *)

Definition demo_salt : bytes := repeat 3 16.
(** A partition with the header of the passphrase "secret". *)
Definition demo_partition : device := dev_write blank 0 (crypt_header const_hmac demo_salt (install_pbkdf2 const_hmac (B "secret") demo_salt CRYPT_PBKDF2_ROUNDS)).

Lemma unlock_roundtrip_witness : unlock_target const_hmac (B "secret" ++ [LF; 121; LF]) (λ _, DOk) 0%nat demo_partition = Val (Unlocked (root_key const_hmac (Some demo_salt) (B "secret")), [121; LF]) 1%nat demo_partition.
Proof.
  apply (unlock_roundtrip const_hmac (λ _ _, repeat_length 7 32) (B "secret") demo_salt [121; LF] (λ _, DOk) 0%nat demo_partition); [done| | | |cbn; lia| |done].
  1-3: by apply (bool_decide_unpack _); lazy.
  unfold demo_partition. rewrite <- (crypt_header_length const_hmac (λ _ _, repeat_length 7 32) demo_salt (install_pbkdf2 const_hmac (B "secret") demo_salt CRYPT_PBKDF2_ROUNDS) eq_refl) at 1. apply dev_read_write.
Defined.

Definition one_disk : list blkdev_t := [RBlkdev (B "nvme0") 20480 512; RBlkdev (B "nvme0p1") 2015 512].

